(* ===== verification/_CoqProject ===== *)
-Q . S2P
Prelude.v
ExpiryQueue.v
Float64.v
Domain.v
CircuitBreaker.v
Coordination.v
LocalAdmission.v
LocalCircuit.v
Admission.v
Pressure.v
Routing.v
JsonValidator.v
UsageInspector.v
Recovery.v
LeaseManager.v
Registry.v
Tokenization.v
GoStrings.v
Validate.v
ApiKey.v
Payload.v
Effects.v
Calls.v
Proxy.v
Service.v
Tokenize.v
Traces.v
Exchange.v
Scenario.v
Status.v
TokenizeSafety.v
Authorization.v
Balance.v
Termination.v
Worker.v
Monitor.v
MonitorSafety.v
GoParse.v
Config.v
Pg.v
PgAdmission.v
PgAdmissionSafety.v
PgTokenization.v
PgTokenizationSafety.v
PgCircuit.v
PgCircuitSafety.v
PgCoordinators.v
PgReplica.v
