(* ===== verification/Prelude.v ===== *)
(** * A verification of the vLLM priority gateway

    The gateway ([src/internal], [src/cmd/gateway]) stands between clients and pools of vLLM
    backends.  It authenticates a request by its API key, admits it within the limits of its
    client and pool, routes it to a backend, proxies the exchange, and releases all it held.
    Limits, rates and circuits are kept by coordinators: in the process, or in PostgreSQL,
    shared by any number of replicas.  A monitor polls the backends; a registry publishes the
    configuration; a lease manager renews the leases and delivers their completions; after an
    outage of the database a recovery decides when coordination is ready again, and until then
    a small emergency admission serves.

    The development translates that code to Rocq functions and proves what makes it correct.

    ** The parts, and how they meet

    A forwarded request is [Service.Forward].  It reads the registry, takes a place of the
    pool from the monitor, a lease from an admission coordinator (or a slot of the limiter or
    of the emergency admission), and a backend from the router and the monitor, which asks a
    circuit coordinator; then it runs [Proxy.Forward].  For the request these collaborators
    are the environment: their methods are the calls of [Calls], and a theorem about a request
    holds for every answer.  Each collaborator is a component of its own, with theorems about
    every sequence or interleaving of its operations; what they promise is therefore shown
    for any caller, the gateway included.

    Shared:
    - [Prelude]: tactics, hint database, lists, maps and machine integers.
    - [Float64]: Go's [float64].  [GoStrings], [GoParse]: the string, header and number
      functions of Go's library that the code uses.
    - [Domain], [Coordination]: the records of [domain/types.go], [coordination/types.go]
      and [rate.go].  [Validate]: [domain/validate.go].
    - [Effects]: programs with calls, panics and deferred calls, their histories and a
      weakest-precondition logic.
    - [Pg]: transactions with row locks, their interleavings and a rely-guarantee logic.

    Components in the process; a struct is a record without its mutex, a method is a function
    on it, or several where it releases the mutex:
    - [ExpiryQueue], [LocalAdmission], [LocalCircuit], [Tokenization]: [coordination/local]
      and [coordination/tokenization.go].
    - [CircuitBreaker]: [circuitbreaker].  [Admission]: [admission] and
      [coordination/emergency.go].  [Pressure]: [pressure].  [Routing]: [routing].
    - [Recovery], [LeaseManager]: [coordination/recovery.go] and [lease_manager.go].
    - [Registry]: [registry].  [ApiKey]: [apikey].  [Config]: [config].
    - [Worker], [Monitor], [MonitorSafety]: [monitor].

    A request:
    - [Payload]: the body, the session and the headers ([gateway/session_affinity.go],
      [proxy/headers.go], parts of [gateway/service.go]).
    - [JsonValidator], [UsageInspector]: [proxy/json_validator.go], [proxy/usage.go].
    - [Calls], [Proxy], [Service], [Status], [Tokenize]: the rest of [gateway] and [proxy].
    - [Traces], [Exchange], [Authorization], [Balance], [Termination], [TokenizeSafety]: what
      is shown about them.  [Scenario]: the concrete request of the witnesses.

    In PostgreSQL ([coordination/postgres], [store/postgres/configuration.go] and the tables
    of [store/postgres/migrations]):
    - [PgAdmission] and [PgAdmissionSafety], [PgTokenization] and [PgTokenizationSafety],
      [PgCircuit] and [PgCircuitSafety]: the transactions, and what holds in every
      interleaving.
    - [PgCoordinators]: retries, health and results around the transactions, and
      [coordination/observed.go].  [PgReplica]: registration and heartbeats.

    ** What the theorems show

    - A request.  What is sent upstream is authorized by the configuration read last; the
      client gets at most one response, a prefix of the backend's; what was acquired is
      released, also on a panic; a request ends; a tokenization request is sent once, under a
      lease that is completed once ([forward_authorized], [forward_exchange],
      [forward_balanced], [forward_terminates], [tokenize_safe]).  The payload and the
      headers are changed as documented and not otherwise ([payload_preserved],
      [upstream_headers_exact]); the reported readiness is exact ([readiness_exact]).
    - Admission in PostgreSQL.  Leases stay within the limits; a repeated acquisition or
      completion has no second effect; a renewal extends the owner's leases; the tables are
      consistent ([pg_acquire_limits], [pg_acquire_idempotent], [pg_complete_once],
      [pg_renew_owned], [pg_tables_consistent], [pg_tokenize_limits], [pg_tokenize_once]).
      A repetition is judged by what the statements of its transaction saw and by the table
      its commit meets: a lease may expire, or another transaction commit, between the two.
    - Circuits and replicas in PostgreSQL ([pg_circuit_consistent], [pg_circuit_admits],
      [pg_replicas_agree]).
    - The same promises of the local coordinators, over every sequence of calls
      ([admission_limits_hold], [high_priority_reserve_available], [acquire_idempotent],
      [completion_exactly_once], [admission_runs_well_formed], [probe_slots_accounted]).  A
      repetition may be any number of calls later; the receipts that answer it are dropped
      only after their retention or to make room, and the theorems say so.
    - The circuit breaker and the monitor ([breaker_probe_accounting], [breaker_readmits],
      [monitor_inflight_exact], [circuit_failures_conserved], [monitor_breakers_refine]).
    - Parsing and selection ([validator_decides_json], [inspector_chunk_invariant],
      [select_least_loaded], [affinity_consistent]).
    - Recovery, leases, registry, keys, validation and configuration ([recovery_barrier],
      [completions_conserved], [registry_consistent], [generate_roundtrip],
      [validation_exact], [loaded_config_starts], [load_exact]).

    ** Assumptions

    Code outside the repository is a parameter: SHA-256 and HMAC, [encoding/json],
    [net/url], [mime], the Prometheus parser, [math.Exp], [strings.ToLower], the random
    source, the driver's classes of errors.  The order of a range over a map is a parameter.
    What is relied on is a hypothesis or a class ([JsonLaws], whose limits are those of Go's
    decoder: UTF-8, nesting), and the witnesses give instances.

    A clock reading is an argument or an answer: any time, at any point.  The readings of
    successive calls of the coordinators in the process may go back, but are not before Go's zero
    time ([clock_ok]).

    In [Effects] a call made with [call] may panic, one made with [call_ok] returns.  Those
    that may panic are the observers, the usage recorder, the reservation, the configuration
    reload, the admission coordinator's [Acquire], and the building, sending, reading and
    writing of the exchange.  The clock, the published snapshot, the monitor, the limiters,
    the lease manager, the completions and the closing of a body return.

    In [PgAdmission] a lease identifier is asked for by one requester, who repeats a request
    only while it has no answer ([may_call]): the gateway draws a fresh UUID for each
    acquisition.  READ COMMITTED is as in [Pg]; heartbeats, which are SERIALIZABLE, take
    effect at one point.

    ** Fuel and bounds

    Heap operations, the drain of the expiry queue and the loops that make room for receipts
    take the length of the queue, which each round shortens; trimming and duration parsing
    take the length of the text; batching takes the number of items.  Lemmas show that this
    is enough, or the theorems that the functions return do.  In [Service], [Proxy] and
    [Tokenize] the loops wait for others; [fuel] bounds their rounds, [Exhausted] is the
    outcome of too few, the safety theorems hold for every [fuel] (that everything is released
    or completed is said of runs that end), and [forward_terminates] gives a [fuel]
    that is enough when the configuration is steady and responses end.

    Integers keep their width where it matters.  The generation of a circuit breaker wraps at
    2^64: theorems about breakers are about fewer steps than that, and so [LocalCircuit] about
    fewer than 2^60 calls.

    ** What is not modelled

    The HTTP servers and the administration pages ([httpapi], [web], [cmd]), the SQLite store
    ([store]) and the analytics ([analytics], [store/postgres/analytics.go]), which hold no
    part of the coordination; metrics and logs ([observability]); connection pools, migration
    and notification of changes ([store/postgres]); the test backend and the load generator
    ([fakevllm], [loadgen]) and the contract tests.  Of the components above: mutexes,
    goroutines and tickers are the choice of the next step; redacted printing of secrets,
    metrics and log lines are left out. *)

From stdpp Require Export prelude gmap strings.
From Stdlib Require Export ZArith Lia.

#[global] Open Scope Z_scope.

#[export] Set Warnings "-clear-no-such-hyp,-register-all".

(** ** Hint databases *)

Create HintDb gateway.

(** ** Tactics *)

(** Case analysis on every boolean test and every [match] that blocks the goal
    or a hypothesis, keeping the equations. *)
Ltac split_match :=
  match goal with
  | |- context [match ?x with _ => _ end] => destruct x eqn:?
  | H : context [match ?x with _ => _ end] |- _ => destruct x eqn:?
  end.

(** Boolean connectives and comparisons of [Z] as propositions. *)
Ltac b2p :=
  repeat match goal with
  | H : andb _ _ = true |- _ => apply andb_true_iff in H as [? ?]
  | H : orb _ _ = false |- _ => apply orb_false_iff in H as [? ?]
  | H : negb _ = true |- _ => apply negb_true_iff in H
  | H : negb _ = false |- _ => apply negb_false_iff in H
  | H : (_ <? _) = true |- _ => apply Z.ltb_lt in H
  | H : (_ <? _) = false |- _ => apply Z.ltb_ge in H
  | H : (_ <=? _) = true |- _ => apply Z.leb_le in H
  | H : (_ <=? _) = false |- _ => apply Z.leb_gt in H
  | H : (_ =? _) = true |- _ => apply Z.eqb_eq in H
  | H : (_ =? _) = false |- _ => apply Z.eqb_neq in H
  | H : bool_decide _ = true |- _ => apply bool_decide_eq_true in H
  | H : bool_decide _ = false |- _ => apply bool_decide_eq_false in H
  end.

(** Resolve the decisions of the goal that linear arithmetic settles. *)
Ltac decide_lia :=
  repeat match goal with
  | |- context [decide ?P] =>
    first [rewrite (decide_True (P := P)) by lia | rewrite (decide_False (P := P)) by lia]
  end.

(** ** Go's [time] package

    A [time.Time] is its instant in nanoseconds since the zero [Time]
    (January 1, year 1, UTC), so the zero [Time] is [0] and [IsZero] tests for
    it.  Location and monotonic reading do not appear.  A [time.Duration] is a
    signed 64-bit count of nanoseconds. *)

Definition Time := Z.
Definition Duration := Z.

Module GoTime.

Definition minDuration : Duration := - 2 ^ 63.
Definition maxDuration : Duration := 2 ^ 63 - 1.
Definition Nanosecond : Duration := 1.
Definition Millisecond : Duration := 1000000.
Definition Second : Duration := 1000000000.
Definition Minute : Duration := 60 * Second.
Definition Hour : Duration := 60 * Minute.

Definition zero : Time := 0.
Definition IsZero (t : Time) : bool := t =? zero.
Definition After (t u : Time) : bool := u <? t.
Definition Before (t u : Time) : bool := t <? u.
Definition Equal (t u : Time) : bool := t =? u.
Definition Add (t : Time) (d : Duration) : Time := t + d.

(** [Time.Sub] saturates at the limits of [Duration]. *)
Definition Sub (t u : Time) : Duration :=
  Z.max minDuration (Z.min maxDuration (t - u)).

End GoTime.

#[export] Hint Unfold GoTime.IsZero GoTime.After GoTime.Before GoTime.Equal GoTime.Add : gateway.

Ltac time_unfold :=
  unfold GoTime.IsZero, GoTime.After, GoTime.Before, GoTime.Equal, GoTime.Add, GoTime.zero in *.

(** ** Loops that can panic

    [None] is a run-time panic.  [foldM] runs a loop body over a list. *)
Fixpoint foldM {A B : Type} (body : B -> A -> option B) (s : B) (l : list A) : option B :=
  match l with
  | [] => Some s
  | x :: l => s' ← body s x; foldM body s' l
  end.

Lemma foldM_app {A B : Type} (body : B -> A -> option B) s l1 l2 :
  foldM body s (l1 ++ l2) = foldM body s l1 ≫= fun s' => foldM body s' l2.
Proof. revert s. induction l1 as [|a l1 IH]; intros s; cbn; [done|]. destruct (body s a); cbn; [apply IH|done]. Qed.

(** Loop rule: an invariant that every round on an element of the list keeps. *)
Lemma foldM_ind {A B : Type} (body : B -> A -> option B) (I : B -> Prop) s l :
  I s -> (forall s x, x ∈ l -> I s -> exists s', body s x = Some s' /\ I s') ->
  exists s', foldM body s l = Some s' /\ I s'.
Proof.
  revert s. induction l as [|x l IH]; intros s Hs Hb; simpl; [eauto|].
  destruct (Hb s x ltac:(left) Hs) as (s1 & -> & H1). simpl.
  apply IH; [done|]. intros s2 y Hy. apply Hb. by right.
Qed.

Lemma filter_all {A : Type} (P : A -> Prop) `{!forall x, Decision (P x)} (l : list A) :
  (forall x, x ∈ l -> P x) -> filter P l = l.
Proof.
  induction l as [|x l IH]; intros Hall; [done|].
  rewrite filter_cons_True by (apply Hall; left). f_equal. apply IH.
  intros y Hy. apply Hall. by right.
Qed.

(** How many elements satisfy a predicate, as an integer, under append and
    update of one element. *)
Section CountFilter.
Context {A : Type} (P : A -> Prop) `{!forall x, Decision (P x)}.

Definition count_list (l : list A) : Z := Z.of_nat (length (filter P l)).

Lemma count_list_nonneg l : 0 <= count_list l.
Proof. unfold count_list. lia. Qed.

Lemma count_list_app l1 l2 : count_list (l1 ++ l2) = count_list l1 + count_list l2.
Proof. unfold count_list. rewrite filter_app, length_app. lia. Qed.

Lemma count_list_cons x l : count_list (x :: l) = (if decide (P x) then 1 else 0) + count_list l.
Proof. unfold count_list. rewrite filter_cons. case_decide; simpl; lia. Qed.

#[global] Instance count_list_proper : Proper ((≡ₚ) ==> (=)) count_list.
Proof. intros l1 l2 Hp. unfold count_list. by rewrite Hp. Qed.

Lemma count_list_nil : count_list [] = 0.
Proof. done. Qed.

Lemma count_list_insert l i x y :
  l !! i = Some x ->
  count_list (<[i := y]> l) =
  count_list l - (if decide (P x) then 1 else 0) + (if decide (P y) then 1 else 0).
Proof.
  intros Hi. pose proof (lookup_lt_Some _ _ _ Hi) as Hlt.
  rewrite insert_take_drop by done. rewrite <- (take_drop_middle l i x Hi) at 3.
  rewrite !count_list_app, !count_list_cons. lia.
Qed.

End CountFilter.

Lemma elem_of_app_middle {A : Type} (x c : A) l1 l2 : x ∈ l1 ++ l2 -> x ∈ l1 ++ c :: l2.
Proof. rewrite !elem_of_app, elem_of_cons. tauto. Qed.

Lemma elem_of_middle {A : Type} (c : A) l1 l2 : c ∈ l1 ++ c :: l2.
Proof. rewrite elem_of_app, elem_of_cons. auto. Qed.

#[export] Hint Resolve elem_of_app_middle elem_of_middle : gateway.

(** A [uuid.UUID] (16 bytes) as the number its bytes spell; [uuid.Nil] is 0. *)
Definition UUID := N.
Definition uuidNil : UUID := 0%N.
#[global] Instance UUID_eq_dec : EqDecision UUID := _ : EqDecision N.
#[global] Instance UUID_countable : Countable UUID := _ : Countable N.

(** ** Maps with Go's zero-value reads

    Reading a missing key of a [map[K]int] gives 0. *)

Section Counters.
Context `{Countable K}.
Implicit Types (m : gmap K Z) (k : K).

Definition mget (m : gmap K Z) (k : K) : Z := default 0 (m !! k).

(** [m[k]++] *)
Definition mincr (m : gmap K Z) (k : K) : gmap K Z := <[k := mget m k + 1]> m.

(** [if m[k] <= 1 { delete(m, k) } else { m[k]-- }] *)
Definition mdecr (m : gmap K Z) (k : K) : gmap K Z :=
  if mget m k <=? 1 then delete k m else <[k := mget m k - 1]> m.

Lemma mget_mincr m k j : mget (mincr m k) j = mget m j + if decide (j = k) then 1 else 0.
Proof.
  unfold mincr, mget at 1. destruct (decide (j = k)) as [->|].
  - by rewrite lookup_insert_eq.
  - rewrite lookup_insert_ne by done. unfold mget. lia.
Qed.

Lemma mget_insert m k v j : mget (<[k := v]> m) j = if decide (j = k) then v else mget m j.
Proof.
  unfold mget. destruct (decide (j = k)) as [->|]; [by rewrite lookup_insert_eq|by rewrite lookup_insert_ne].
Qed.

Lemma mget_delete m k j : mget (delete k m) j = if decide (j = k) then 0 else mget m j.
Proof.
  unfold mget. destruct (decide (j = k)) as [->|]; [by rewrite lookup_delete_eq|by rewrite lookup_delete_ne].
Qed.

Lemma mget_empty k : mget ∅ k = 0.
Proof. unfold mget. by rewrite lookup_empty. Qed.

(** A counter map holds exactly the function [f]: no entry where [f] is 0. *)
Definition counts (m : gmap K Z) (f : K -> Z) : Prop :=
  forall k, m !! k = if decide (f k = 0) then None else Some (f k).

Lemma counts_mget m f k : counts m f -> mget m k = f k.
Proof. intros Hc. unfold mget. rewrite (Hc k). by case_decide. Qed.

Lemma counts_ext m f g : counts m f -> (forall k, f k = g k) -> counts m g.
Proof. intros Hc Hfg k. rewrite (Hc k), Hfg. done. Qed.

Lemma counts_empty f : (forall k, f k = 0) -> counts (∅ : gmap K Z) f.
Proof. intros Hf k. rewrite lookup_empty, Hf. by case_decide. Qed.

Lemma counts_mincr m f k :
  counts m f -> 0 <= f k ->
  counts (mincr m k) (fun j => f j + if decide (j = k) then 1 else 0).
Proof.
  intros Hc Hk j. unfold mincr. rewrite (counts_mget m f k Hc).
  destruct (decide (j = k)) as [->|Hne].
  - rewrite lookup_insert_eq. rewrite decide_False by lia. done.
  - rewrite lookup_insert_ne by done. rewrite Z.add_0_r. apply Hc.
Qed.

Lemma counts_mdecr m f k :
  counts m f -> 1 <= f k ->
  counts (mdecr m k) (fun j => f j - if decide (j = k) then 1 else 0).
Proof.
  intros Hc Hk j. unfold mdecr. rewrite (counts_mget m f k Hc).
  destruct (decide (j = k)) as [->|Hne].
  - destruct (f k <=? 1) eqn:E; b2p.
    + rewrite lookup_delete_eq, decide_True by lia. done.
    + rewrite lookup_insert_eq, decide_False by lia. done.
  - rewrite Z.sub_0_r.
    destruct (f k <=? 1); rewrite ?lookup_delete_ne, ?lookup_insert_ne by done; apply Hc.
Qed.

End Counters.

Arguments mget : simpl never.
Arguments mincr : simpl never.
Arguments mdecr : simpl never.

(** ** Counting the entries of a map that satisfy a test *)

Section CountIf.
Context `{Countable K} {A : Type}.
Implicit Types (m : gmap K A) (p : K -> A -> bool).

Definition count_if (p : K -> A -> bool) (m : gmap K A) : Z :=
  Z.of_nat (size (filter (fun '(k, a) => p k a = true) m)).

Lemma count_if_nonneg p m : 0 <= count_if p m.
Proof. unfold count_if. lia. Qed.

Lemma count_if_empty p : count_if p ∅ = 0.
Proof. unfold count_if. rewrite map_filter_empty, map_size_empty. done. Qed.

Lemma count_if_ext p q m :
  (forall k a, m !! k = Some a -> p k a = q k a) -> count_if p m = count_if q m.
Proof.
  intros Hpq. unfold count_if. do 2 f_equal. apply map_filter_ext.
  intros k a Hka. by rewrite (Hpq k a Hka).
Qed.

Lemma count_if_insert p m k a :
  m !! k = None -> count_if p (<[k := a]> m) = count_if p m + if p k a then 1 else 0.
Proof.
  intros Hk. unfold count_if. rewrite map_filter_insert.
  case_decide as D; simpl in D.
  - rewrite D, map_size_insert_None; [lia|].
    rewrite map_lookup_filter_None. by left.
  - apply not_true_is_false in D. rewrite D, delete_id by done. lia.
Qed.

Lemma count_if_delete p m k a :
  m !! k = Some a -> count_if p (delete k m) = count_if p m - if p k a then 1 else 0.
Proof.
  intros Hk.
  assert (Hm : m = <[k := a]> (delete k m)) by by rewrite insert_delete_id.
  rewrite Hm at 2. rewrite count_if_insert by apply lookup_delete_eq. lia.
Qed.

Lemma count_if_replace p m k a b :
  m !! k = Some a -> p k a = p k b -> count_if p (<[k := b]> m) = count_if p m.
Proof.
  intros Hk Hab. rewrite <- insert_delete_eq.
  rewrite count_if_insert by apply lookup_delete_eq.
  rewrite (count_if_delete p m k a Hk), Hab. lia.
Qed.

Lemma count_if_le p q m :
  (forall k a, p k a = true -> q k a = true) -> count_if p m <= count_if q m.
Proof.
  intros Hpq. unfold count_if. apply Nat2Z.inj_le, map_subseteq_size.
  apply map_filter_subseteq_ext. intros k a _ Hp. by apply Hpq.
Qed.

Lemma count_if_pos p m k a : m !! k = Some a -> p k a = true -> 1 <= count_if p m.
Proof.
  intros Hk Hp. pose proof (count_if_delete p m k a Hk) as E.
  rewrite Hp in E. pose proof (count_if_nonneg p (delete k m)). lia.
Qed.

(** The entries satisfying [p] split by a second test [q]. *)
Lemma count_if_split p q m :
  count_if p m = count_if (fun k a => p k a && q k a) m + count_if (fun k a => p k a && negb (q k a)) m.
Proof.
  induction m as [|k a m Hk IH] using map_ind.
  - by rewrite !count_if_empty.
  - rewrite !count_if_insert by done. destruct (p k a), (q k a); simpl; lia.
Qed.

End CountIf.

(** Monotone along an inclusion of the entries counted. *)
Lemma count_if_mono `{Countable K} {A B : Type} (p : K -> A -> bool) (q : K -> B -> bool)
    (m : gmap K A) (m' : gmap K B) :
  (forall k a, m !! k = Some a -> p k a = true -> exists b, m' !! k = Some b /\ q k b = true) ->
  count_if p m <= count_if q m'.
Proof.
  intros Hpq. unfold count_if. rewrite <- !size_dom. apply Nat2Z.inj_le, subseteq_size.
  intros k. rewrite !elem_of_dom. intros [a [Ha Hp]%map_lookup_filter_Some].
  destruct (Hpq k a Ha Hp) as (b & Hb & Hq). exists b. by apply map_lookup_filter_Some.
Qed.

#[export] Hint Resolve count_if_nonneg counts_mget : gateway.
