(* ===== verification/ExpiryQueue.v ===== *)
(** The expiry queue of the local coordinators
    ([src/internal/coordination/local/expiry_queue.go]) on top of Go's
    [container/heap]: a binary min-heap of deadlines kept in a slice.

    [up], [down], [heap_Push] and [heap_Pop] are the loops of [container/heap]
    over the queue's [Less], [Swap], [Push] and [Pop]; [add], [due] and
    [popOldest] are the queue's own operations.  The theorems say that the slice
    is always a heap, that every operation keeps the multiset of entries, and
    that the drain loop of the coordinators pops exactly the due entries, in
    deadline order. *)

From Stdlib Require Import Sorted.
From S2P Require Import Prelude.

Inductive expiryKind :=
  | admissionLeaseExpiry
  | admissionReceiptExpiry
  | circuitPermitExpiry
  | circuitAttemptExpiry.

#[global] Instance expiryKind_eq_dec : EqDecision expiryKind.
Proof. solve_decision. Defined.

Record expiryEntry := ExpiryEntry {
  ee_at : Time;
  ee_id : UUID;
  ee_kind : expiryKind
}.

#[global] Instance expiryEntry_eq_dec : EqDecision expiryEntry.
Proof. solve_decision. Defined.

(** ** The retention shared by the local coordinators *)

Definition receiptRetention : Duration := 24 * GoTime.Hour.

(** An operation that started outside the window around [now] in which it can
    be recognised as a replay. *)
Definition stale_operation (now started : Time) : bool :=
  GoTime.After started (GoTime.Add now (5 * GoTime.Minute)) ||
  negb (GoTime.After started (GoTime.Add now (- receiptRetention))).

(** ** The queue as a [heap.Interface] *)

Abbreviation expiryQueue := (list expiryEntry).

(** [q[i].at.Before(q[j].at)]; every call of the heap loops has both indices in
    range. *)
Definition Less (q : expiryQueue) (i j : nat) : bool :=
  match q !! i, q !! j with
  | Some a, Some b => GoTime.Before (ee_at a) (ee_at b)
  | _, _ => false
  end.

Definition Swap (q : expiryQueue) (i j : nat) : expiryQueue :=
  match q !! i, q !! j with
  | Some a, Some b => <[i := b]> (<[j := a]> q)
  | _, _ => q
  end.

Definition Push (q : expiryQueue) (e : expiryEntry) : expiryQueue := q ++ [e].

Definition Pop (q : expiryQueue) : option (expiryEntry * expiryQueue) :=
  value ← last q; Some (value, take (length q - 1) q).

(** ** [container/heap] *)

(** [(j - 1) / 2], which truncates to 0 at the root. *)
Definition parent (j : nat) : nat := ((j - 1) / 2)%nat.
Arguments parent : simpl never.

(** [func up(h, j)]: the loop index strictly decreases, so [j] rounds suffice. *)
Fixpoint up (fuel : nat) (q : expiryQueue) (j : nat) : expiryQueue :=
  match fuel with
  | O => q
  | S fuel =>
    let i := parent j in
    if (i =? j)%nat || negb (Less q j i) then q
    else up fuel (Swap q i j) i
  end.

(** [func down(h, i, n)]: the loop index strictly increases below [n]. *)
Fixpoint down (fuel : nat) (q : expiryQueue) (i n : nat) : expiryQueue :=
  match fuel with
  | O => q
  | S fuel =>
    let j1 := (2 * i + 1)%nat in
    if (n <=? j1)%nat then q
    else
      let j2 := (j1 + 1)%nat in
      let j := if (j2 <? n)%nat && Less q j2 j1 then j2 else j1 in
      if negb (Less q j i) then q
      else down fuel (Swap q i j) j n
  end.

Definition heap_Push (q : expiryQueue) (e : expiryEntry) : expiryQueue :=
  let q' := Push q e in
  up (length q') q' (length q' - 1).

Definition heap_Pop (q : expiryQueue) : option (expiryEntry * expiryQueue) :=
  let n := (length q - 1)%nat in
  Pop (down (length q) (Swap q 0 n) 0 n).

(** ** The queue's operations *)

Definition add (q : expiryQueue) (kind : expiryKind) (id : UUID) (at_ : Time) : expiryQueue :=
  heap_Push q (ExpiryEntry at_ id kind).

Arguments add : simpl never.

(** [(expiryEntry, bool)]: [None] is the [false] result. *)
Definition due (q : expiryQueue) (now : Time) : option (expiryEntry * expiryQueue) :=
  match q with
  | [] => None
  | e :: _ => if GoTime.After (ee_at e) now then None else heap_Pop q
  end.

Definition popOldest (q : expiryQueue) : option (expiryEntry * expiryQueue) :=
  match q with
  | [] => None
  | _ => heap_Pop q
  end.

(** ** Heap order *)

Definition key (q : expiryQueue) (i : nat) : Z :=
  match q !! i with Some e => ee_at e | None => 0 end.

(** The heap order on the first [n] cells of a key function. *)
Definition ordered (k : nat -> Z) (n : nat) : Prop :=
  forall i, (0 < i < n)%nat -> k (parent i) <= k i.

(** Heap order except between [j] and its parent ([up]'s loop invariant). *)
Definition ordered_up (k : nat -> Z) (n j : nat) : Prop :=
  forall i, (0 < i < n)%nat ->
    (i <> j -> k (parent i) <= k i) /\ (parent i = j -> (0 < j)%nat -> k (parent j) <= k i).

(** Heap order except between [j] and its children ([down]'s loop invariant). *)
Definition ordered_down (k : nat -> Z) (n j : nat) : Prop :=
  forall i, (0 < i < n)%nat ->
    (parent i <> j -> k (parent i) <= k i) /\ (parent i = j -> (0 < j)%nat -> k (parent j) <= k i).

Definition heap_ok (q : expiryQueue) : Prop := ordered (key q) (length q).

Definition swapped (k : nat -> Z) (a b i : nat) : Z :=
  if decide (i = a) then k b else if decide (i = b) then k a else k i.

Lemma key_Swap q a b i :
  (a < length q)%nat -> (b < length q)%nat -> key (Swap q a b) i = swapped (key q) a b i.
Proof.
  intros Ha Hb. unfold key, Swap, swapped.
  apply lookup_lt_is_Some in Ha as [x Hx]. apply lookup_lt_is_Some in Hb as [y Hy].
  pose proof (lookup_lt_Some _ _ _ Hx). pose proof (lookup_lt_Some _ _ _ Hy).
  rewrite Hx, Hy. destruct (decide (i = a)) as [->|].
  - rewrite list_lookup_insert_eq; [by rewrite ?Hy|]. by rewrite length_insert.
  - rewrite list_lookup_insert_ne by done. destruct (decide (i = b)) as [->|].
    + rewrite list_lookup_insert_eq by done. by rewrite ?Hx.
    + by rewrite list_lookup_insert_ne by done.
Qed.

Lemma length_Swap q a b : length (Swap q a b) = length q.
Proof. unfold Swap. repeat split_match; rewrite ?length_insert; done. Qed.

Lemma Less_key q i j :
  (i < length q)%nat -> (j < length q)%nat -> Less q i j = (key q i <? key q j).
Proof.
  intros Hi Hj. unfold Less, key.
  apply lookup_lt_is_Some in Hi as [x Hx]. apply lookup_lt_is_Some in Hj as [y Hy].
  by rewrite Hx, Hy.
Qed.

Lemma parent_lt i : (0 < i)%nat -> (parent i < i)%nat.
Proof. unfold parent. intros. apply Nat.Div0.div_lt_upper_bound. lia. Qed.

Lemma parent_children i j : (0 < j)%nat -> parent j = i <-> (j = 2 * i + 1 \/ j = 2 * i + 2)%nat.
Proof.
  unfold parent. intros. pose proof (Nat.div_mod_eq (j - 1) 2).
  pose proof (Nat.mod_upper_bound (j - 1) 2). lia.
Qed.

Lemma ordered_ext k k' n : (forall i, (i < n)%nat -> k i = k' i) -> ordered k n -> ordered k' n.
Proof.
  intros E O i Hi. pose proof (parent_lt i). rewrite <- !E by lia. by apply O.
Qed.

(** One round of [up]. *)
Lemma ordered_up_step k n j :
  (0 < j < n)%nat -> ordered_up k n j -> k j < k (parent j) ->
  ordered_up (swapped k (parent j) j) n (parent j).
Proof.
  intros Hj Hord Hlt i Hi. pose proof (parent_lt j ltac:(lia)) as Hpj.
  pose proof (parent_lt i ltac:(lia)) as Hpi.
  destruct (Hord i Hi) as [H1 H2]. destruct (Hord j ltac:(lia)) as [_ _].
  unfold swapped. split.
  - intros Hne. destruct (decide (i = j)) as [->|Hij]; [decide_lia; lia|].
    specialize (H1 Hij). destruct (decide (parent i = parent j)) as [E|E].
    + decide_lia. rewrite E in H1. lia.
    + destruct (decide (parent i = j)) as [E'|E']; decide_lia; [|done].
      specialize (H2 E' ltac:(lia)). lia.
  - intros Hpar Hpos. pose proof (parent_lt (parent j) Hpos).
    destruct (Hord (parent j) ltac:(lia)) as [Hpp _]. specialize (Hpp ltac:(lia)).
    destruct (decide (i = j)) as [->|Hij]; decide_lia; [done|].
    specialize (H1 Hij). rewrite Hpar in H1. lia.
Qed.

(** One round of [down]: [j] is a least child of [i]. *)
Lemma ordered_down_step k n i j :
  (j < n)%nat -> (0 < j)%nat -> parent j = i -> ordered_down k n i -> k j < k i ->
  (forall c, (0 < c < n)%nat -> parent c = i -> k j <= k c) ->
  ordered_down (swapped k i j) n j.
Proof.
  intros Hjn Hj Hpar Hord Hlt Hleast c Hc.
  pose proof (parent_lt j Hj) as Hij. pose proof (parent_lt c ltac:(lia)) as Hpc.
  destruct (Hord c Hc) as [H1 H2]. unfold swapped. split.
  - intros Hne. destruct (decide (c = j)) as [->|Hcj]; [decide_lia; lia|].
    destruct (decide (c = i)) as [->|Hci].
    + decide_lia. destruct (Hord j ltac:(lia)) as [_ Hj2]. apply Hj2; [done|lia].
    + destruct (decide (parent c = i)) as [E|E]; [by apply Hleast|].
      decide_lia. by apply H1.
  - intros Hpcj Hpos. decide_lia. specialize (H1 ltac:(lia)). rewrite Hpcj in H1. lia.
Qed.

Lemma length_up fuel q j : length (up fuel q j) = length q.
Proof.
  revert q j. induction fuel as [|fuel IH]; intros q j; simpl; [done|].
  split_match; [done|]. by rewrite IH, length_Swap.
Qed.

Lemma length_down fuel q i n : length (down fuel q i n) = length q.
Proof.
  revert q i. induction fuel as [|fuel IH]; intros q i; simpl; [done|].
  repeat split_match; try done; by rewrite IH, length_Swap.
Qed.

Lemma up_ordered fuel q j :
  (j < length q)%nat -> (j < fuel)%nat -> ordered_up (key q) (length q) j ->
  heap_ok (up fuel q j).
Proof.
  revert q j. induction fuel as [|fuel IH]; intros q j Hj Hf Hord; [lia|]. cbn [up].
  destruct (Nat.eqb_spec (parent j) j) as [E|E]; simpl.
  - intros i Hi. destruct (Hord i Hi) as [H1 _].
    destruct (decide (i = j)) as [->|]; [|by apply H1].
    pose proof (parent_lt j ltac:(lia)). lia.
  - assert (0 < j)%nat by (destruct j; [done|lia]).
    pose proof (parent_lt j ltac:(lia)).
    rewrite Less_key by lia. destruct (key q j <? key q (parent j)) eqn:L; simpl; b2p.
    + apply IH; rewrite ?length_Swap; try lia.
      intros i Hi. pose proof (ordered_up_step (key q) (length q) j ltac:(lia) Hord L i Hi) as [A B].
      split; intros; rewrite !key_Swap by lia; auto.
    + intros i Hi. destruct (Hord i Hi) as [H1 _].
      destruct (decide (i = j)) as [->|]; [lia|by apply H1].
Qed.

Lemma down_ordered fuel q i n :
  (n <= length q)%nat -> (i < n)%nat -> (n <= fuel + i)%nat -> ordered_down (key q) n i ->
  ordered (key (down fuel q i n)) n.
Proof.
  revert q i. induction fuel as [|fuel IH]; intros q i Hn Hi Hf Hord; [lia|]. cbn [down].
  assert (Hchild : forall c, (0 < c < n)%nat -> parent c = i -> (c = 2 * i + 1 \/ c = 2 * i + 2)%nat).
  { intros c Hc E. by apply parent_children in E; [|lia]. }
  destruct (Nat.leb_spec n (2 * i + 1)) as [L|L].
  - intros c Hc. destruct (Hord c Hc) as [H1 _]. apply H1. intros E. apply Hchild in E; lia.
  - set (j1 := (2 * i + 1)%nat) in *. set (j2 := (j1 + 1)%nat).
    set (j := if ((j2 <? n)%nat && Less q j2 j1) then j2 else j1).
    assert (Hj : (j < n)%nat /\ (0 < j)%nat /\ parent j = i /\
      forall c, (0 < c < n)%nat -> parent c = i -> key q j <= key q c).
    { assert (P1 : parent j1 = i) by (apply parent_children; lia).
      unfold j. destruct (Nat.ltb_spec j2 n) as [L2|L2]; simpl.
      - assert (P2 : parent j2 = i) by (apply parent_children; lia).
        rewrite Less_key by lia. destruct (key q j2 <? key q j1) eqn:E; b2p;
          repeat split; try done; try lia; intros c Hc Hp;
          (destruct (Hchild c Hc Hp) as [-> | ->]; [replace (2 * i + 1)%nat with j1 by lia
            |replace (2 * i + 2)%nat with j2 by lia]); lia.
      - repeat split; try done; try lia. intros c Hc Hp.
        destruct (Hchild c Hc Hp) as [-> | ->]; [replace (2 * i + 1)%nat with j1 by lia; lia|lia]. }
    destruct Hj as (Hjn & Hj0 & Hjp & Hleast). clearbody j. clear j2.
    rewrite Less_key by lia. destruct (key q j <? key q i) eqn:E; simpl; b2p.
    + pose proof (parent_lt j Hj0).
      apply IH; rewrite ?length_Swap; try lia.
      intros c Hc. pose proof (ordered_down_step (key q) n i j Hjn Hj0 Hjp Hord E Hleast c Hc) as [A B].
      split; intros; rewrite !key_Swap by lia; auto.
    + intros c Hc. destruct (decide (parent c = i)) as [Hp|Hp].
      * rewrite Hp. specialize (Hleast c Hc Hp). lia.
      * destruct (Hord c Hc) as [H1 _]. by apply H1.
Qed.

(** ** The multiset of entries *)

Lemma insert_Permutation (q : expiryQueue) i x y :
  q !! i = Some x -> x :: <[i := y]> q ≡ₚ y :: q.
Proof.
  intros Hx. pose proof (lookup_lt_Some _ _ _ Hx).
  rewrite <- (take_drop_middle q i x Hx) at 2.
  rewrite insert_take_drop by done. solve_Permutation.
Qed.

Lemma Swap_Permutation q i j : Swap q i j ≡ₚ q.
Proof.
  unfold Swap. destruct (q !! i) as [x|] eqn:Hx; [|done].
  destruct (q !! j) as [y|] eqn:Hy; [|done].
  apply (Permutation_cons_inv (a := x)).
  assert (Hxi : <[j := x]> q !! i = Some x).
  { destruct (decide (i = j)) as [->|].
    - by rewrite list_lookup_insert_eq by (by eapply lookup_lt_Some).
    - by rewrite list_lookup_insert_ne. }
  rewrite (insert_Permutation _ _ _ y Hxi). by apply insert_Permutation.
Qed.

Lemma up_Permutation fuel q j : up fuel q j ≡ₚ q.
Proof.
  revert q j. induction fuel as [|fuel IH]; intros q j; cbn [up]; [done|].
  split_match; [done|]. by rewrite IH, Swap_Permutation.
Qed.

Lemma down_Permutation fuel q i n : down fuel q i n ≡ₚ q.
Proof.
  revert q i. induction fuel as [|fuel IH]; intros q i; cbn [down]; [done|].
  repeat split_match; try done; by rewrite IH, Swap_Permutation.
Qed.

(** The root of a heap is a minimum. *)
Lemma heap_root_min q i : heap_ok q -> (i < length q)%nat -> key q 0 <= key q i.
Proof.
  intros Hh. induction i as [i IH] using lt_wf_ind. intros Hi.
  destruct (decide (i = 0)%nat) as [->|]; [done|].
  pose proof (parent_lt i ltac:(lia)).
  specialize (IH (parent i) ltac:(lia) ltac:(lia)). specialize (Hh i ltac:(lia)). lia.
Qed.

Lemma heap_head_min e q x : heap_ok (e :: q) -> x ∈ e :: q -> ee_at e <= ee_at x.
Proof.
  intros Hh Hx. apply list_elem_of_lookup in Hx as [i Hi].
  pose proof (heap_root_min _ i Hh (lookup_lt_Some _ _ _ Hi)) as Hk.
  unfold key in Hk. by rewrite Hi in Hk.
Qed.

Lemma heap_Push_spec q e : heap_ok q -> heap_ok (heap_Push q e) /\ heap_Push q e ≡ₚ e :: q.
Proof.
  intros Hh. unfold heap_Push, Push. split.
  - rewrite length_app. simpl. apply up_ordered; rewrite ?length_app; simpl; try lia.
    assert (Hk : forall i, (i < length q)%nat -> key (q ++ [e]) i = key q i).
    { intros i Hi. unfold key. by rewrite lookup_app_l. }
    intros i Hi. pose proof (parent_lt i ltac:(lia)). split.
    + intros Hne. rewrite !Hk by lia. apply Hh. lia.
    + intros Hp _. lia.
  - rewrite up_Permutation. solve_Permutation.
Qed.

(** [down] within the first [n] cells leaves cell [n] alone. *)
Lemma down_lookup_last fuel q i n e : q !! n = Some e -> down fuel q i n !! n = Some e.
Proof.
  revert q i. induction fuel as [|fuel IH]; intros q i Hq; cbn [down]; [done|].
  destruct (Nat.leb_spec n (2 * i + 1)) as [L|L]; [done|].
  match goal with |- context [Swap q i ?j] => set (j' := j) end.
  destruct (negb (Less q j' i)); [done|]. apply IH.
  assert (Hj : (j' < n)%nat).
  { unfold j'. destruct (Nat.ltb_spec (2 * i + 1 + 1) n); simpl; [|lia].
    destruct (Less q _ _); lia. }
  unfold Swap. destruct (q !! i); [|done]. destruct (q !! j'); [|done].
  by rewrite !list_lookup_insert_ne by lia.
Qed.

Lemma Swap_lookup_last q e n :
  q !! 0%nat = Some e -> (n < length q)%nat -> Swap q 0 n !! n = Some e.
Proof.
  intros Hq Hn. unfold Swap. destruct (lookup_lt_is_Some_2 q n Hn) as [y Hy]. rewrite Hq, Hy.
  destruct n as [|n'].
  - rewrite list_lookup_insert_eq; [congruence|]. by rewrite length_insert.
  - rewrite list_lookup_insert_ne by lia. by apply list_lookup_insert_eq.
Qed.

Lemma heap_Pop_spec q e :
  heap_ok q -> head q = Some e ->
  exists q', heap_Pop q = Some (e, q') /\ heap_ok q' /\ q ≡ₚ e :: q'.
Proof.
  intros Hh He. assert (Hq0 : q !! 0%nat = Some e) by (by destruct q).
  pose proof (lookup_lt_Some _ _ _ Hq0). unfold heap_Pop. set (n := (length q - 1)%nat).
  set (q2 := down (length q) (Swap q 0 n) 0 n).
  assert (Hlen : length q2 = length q) by (unfold q2; by rewrite length_down, length_Swap).
  assert (Hord : ordered (key q2) n).
  { destruct n as [|n'] eqn:En; [intros i Hi; lia|]. apply down_ordered; rewrite ?length_Swap; try lia.
    intros i Hi. split; [|intros; lia]. intros Hp. pose proof (parent_lt i ltac:(lia)).
    rewrite !key_Swap by lia. unfold swapped. decide_lia. apply Hh. lia. }
  assert (Hlast : q2 !! n = Some e).
  { apply down_lookup_last, Swap_lookup_last; [done|lia]. }
  unfold Pop. rewrite last_lookup, Hlen. replace (Init.Nat.pred (length q)) with n by lia.
  rewrite Hlast. simpl. fold n. exists (take n q2). split; [done|]. split.
  - unfold heap_ok. rewrite length_take, Hlen. replace (n `min` length q)%nat with n by lia.
    eapply ordered_ext; [|exact Hord]. intros i Hi. unfold key. by rewrite lookup_take_lt.
  - transitivity q2; [unfold q2; by rewrite down_Permutation, Swap_Permutation|].
    rewrite <- (take_drop_middle q2 n e Hlast) at 1. rewrite drop_ge by lia. solve_Permutation.
Qed.

(** ** The operations on the multiset of entries *)

Definition is_due (now : Time) (e : expiryEntry) : Prop := ee_at e <= now.

#[global] Instance is_due_dec now e : Decision (is_due now e).
Proof. unfold is_due. apply _. Defined.

Lemma heap_ok_nil : heap_ok [].
Proof. intros i Hi. simpl in Hi. lia. Qed.

Lemma add_spec q kind id t :
  heap_ok q -> heap_ok (add q kind id t) /\ add q kind id t ≡ₚ ExpiryEntry t id kind :: q.
Proof. apply heap_Push_spec. Qed.

Lemma elem_of_add q kind id t e :
  heap_ok q -> e ∈ add q kind id t <-> e = ExpiryEntry t id kind \/ e ∈ q.
Proof.
  intros Hh. destruct (add_spec q kind id t Hh) as [_ Hp]. rewrite Hp. apply elem_of_cons.
Qed.

Lemma due_Some q now e q' :
  heap_ok q -> due q now = Some (e, q') ->
  heap_ok q' /\ q ≡ₚ e :: q' /\ is_due now e /\ forall x, x ∈ q -> ee_at e <= ee_at x.
Proof.
  intros Hh. destruct q as [|e0 q0]; [done|]. simpl.
  destruct (GoTime.After (ee_at e0) now) eqn:E; [done|]. intros Hp.
  destruct (heap_Pop_spec (e0 :: q0) e0 Hh eq_refl) as (q1 & Hp' & H1 & H2).
  rewrite Hp' in Hp. injection Hp as <- <-. split_and!; try done.
  - unfold is_due. time_unfold. by b2p.
  - intros x Hx. by eapply heap_head_min.
Qed.

Lemma due_None q now : heap_ok q -> due q now = None <-> forall x, x ∈ q -> ¬ is_due now x.
Proof.
  intros Hh. destruct q as [|e0 q0].
  - simpl. split; [|done]. intros _ x Hx. by apply elem_of_nil in Hx.
  - simpl. destruct (GoTime.After (ee_at e0) now) eqn:E; time_unfold; b2p.
    + split; [|done]. intros _ x Hx. pose proof (heap_head_min _ _ _ Hh Hx). unfold is_due. lia.
    + destruct (heap_Pop_spec (e0 :: q0) e0 Hh eq_refl) as (q1 & -> & _ & _).
      split; [done|]. intros Hall. exfalso. apply (Hall e0); [by left|]. unfold is_due. lia.
Qed.

Lemma popOldest_Some q e q' :
  heap_ok q -> popOldest q = Some (e, q') ->
  head q = Some e /\ heap_ok q' /\ q ≡ₚ e :: q' /\ forall x, x ∈ q -> ee_at e <= ee_at x.
Proof.
  intros Hh. destruct q as [|e0 q0]; [done|]. unfold popOldest. intros Hp.
  destruct (heap_Pop_spec (e0 :: q0) e0 Hh eq_refl) as (q1 & Hp' & H1 & H2).
  rewrite Hp' in Hp. injection Hp as <- <-. split_and!; try done.
  intros x Hx. by eapply heap_head_min.
Qed.

Lemma popOldest_None q : heap_ok q -> popOldest q = None <-> q = [].
Proof.
  intros Hh. destruct q as [|e0 q0]; [done|]. unfold popOldest.
  by destruct (heap_Pop_spec (e0 :: q0) e0 Hh eq_refl) as (q1 & -> & _ & _).
Qed.

(** ** The drain loop of the coordinators

    [for { entry, ok := q.due(now); if !ok { break }; body }], where the body
    does not touch the queue being drained.  [None] is a panic of the body or
    exhausted fuel; [drain_correct] shows that [S (length q)] rounds are enough. *)
Fixpoint drain {A : Type} (fuel : nat) (now : Time) (body : A -> expiryEntry -> option A)
    (q : expiryQueue) (s : A) : option (expiryQueue * A) :=
  match fuel with
  | O => None
  | S fuel =>
    match due q now with
    | None => Some (q, s)
    | Some (e, q') => s' ← body s e; drain fuel now body q' s'
    end
  end.

Lemma drain_correct {A : Type} (body : A -> expiryEntry -> option A) fuel now q :
  heap_ok q -> (length q < fuel)%nat ->
  exists es q',
    (forall s, drain fuel now body q s = s' ← foldM body s es; Some (q', s')) /\
    StronglySorted (fun a b => ee_at a <= ee_at b) es /\
    es ≡ₚ filter (is_due now) q /\ q' ≡ₚ filter (fun e => ¬ is_due now e) q /\ heap_ok q'.
Proof.
  revert q. induction fuel as [|fuel IH]; intros q Hh Hf; [lia|]. cbn [drain].
  destruct (due q now) as [[e q1]|] eqn:E.
  - destruct (due_Some q now e q1 Hh E) as (H1 & Hp & Hd & Hmin).
    assert (length q = S (length q1)) by (by rewrite Hp).
    destruct (IH q1 H1 ltac:(lia)) as (es & q' & Hs & Hsort & Hes & Hq' & Hok).
    exists (e :: es), q'. split_and!; [|constructor; [done|]| | |done].
    + intros s. simpl. destruct (body s e) as [s1|]; simpl; [apply Hs|done].
    + apply Forall_forall. intros x Hx. apply Hmin. rewrite Hp. right.
      rewrite Hes in Hx. by apply list_elem_of_filter in Hx as [_ Hx].
    + rewrite Hp, filter_cons_True by done. by constructor.
    + rewrite Hp, filter_cons_False by (intros ?; done). done.
  - pose proof (proj1 (due_None q now Hh) E) as Hnone.
    exists [], q. split_and!; [done|constructor| | |done].
    + rewrite (elem_of_nil_inv (filter _ q)); [done|]. intros x Hx.
      apply list_elem_of_filter in Hx as [Hd Hx]. by apply (Hnone x).
    + by rewrite (filter_all (fun e => ¬ is_due now e)).
Qed.

Lemma elem_of_drained now q es q' e :
  es ≡ₚ filter (is_due now) q -> q' ≡ₚ filter (fun e => ¬ is_due now e) q ->
  e ∈ es ++ q' <-> e ∈ q.
Proof.
  intros Hes Hq'. rewrite elem_of_app, Hes, Hq', !list_elem_of_filter.
  destruct (decide (is_due now e)); tauto.
Qed.

Lemma elem_of_drained_due now q es e :
  es ≡ₚ filter (is_due now) q -> e ∈ q -> e ∈ es <-> ee_at e <= now.
Proof. intros Hes He. rewrite Hes, list_elem_of_filter. unfold is_due. tauto. Qed.

#[export] Hint Resolve heap_ok_nil : gateway.

(** ** Refinement of a priority queue

    The abstract queue is a multiset of entries.  [add] inserts; [due] takes a
    least entry if it is due, and nothing otherwise; [popOldest] takes a least
    entry unless the queue is empty. *)

Inductive QueueOp :=
  | QueueAdd (kind : expiryKind) (id : UUID) (at_ : Time)
  | QueueDue (now : Time)
  | QueuePop.

Definition queue_exec (q : expiryQueue) (op : QueueOp) : expiryQueue * option expiryEntry :=
  let taken r := match r with Some (e, q') => (q', Some e) | None => (q, None) end in
  match op with
  | QueueAdd kind id at_ => (add q kind id at_, None)
  | QueueDue now => taken (due q now)
  | QueuePop => taken (popOldest q)
  end.

Fixpoint queue_run (q : expiryQueue) (ops : list QueueOp) : expiryQueue * list (option expiryEntry) :=
  match ops with
  | [] => (q, [])
  | op :: ops =>
    let '(q, r) := queue_exec q op in
    let '(q, rs) := queue_run q ops in
    (q, r :: rs)
  end.

Definition least (e : expiryEntry) (m : list expiryEntry) : Prop :=
  e ∈ m /\ forall x, x ∈ m -> ee_at e <= ee_at x.

(** One step of the abstract queue; states are lists up to permutation. *)
Inductive queue_spec : list expiryEntry -> QueueOp -> list expiryEntry -> option expiryEntry -> Prop :=
  | spec_add m m' kind id t :
      m' ≡ₚ ExpiryEntry t id kind :: m -> queue_spec m (QueueAdd kind id t) m' None
  | spec_due m m' now e :
      least e m -> ee_at e <= now -> m ≡ₚ e :: m' -> queue_spec m (QueueDue now) m' (Some e)
  | spec_not_due m m' now :
      (forall x, x ∈ m -> now < ee_at x) -> m' ≡ₚ m -> queue_spec m (QueueDue now) m' None
  | spec_pop m m' e :
      least e m -> m ≡ₚ e :: m' -> queue_spec m QueuePop m' (Some e)
  | spec_pop_empty m' : m' = [] -> queue_spec [] QueuePop m' None.

Inductive queue_trace : list expiryEntry -> list QueueOp -> list expiryEntry -> list (option expiryEntry) -> Prop :=
  | trace_nil m : queue_trace m [] m []
  | trace_cons m op m1 r ops m2 rs :
      queue_spec m op m1 r -> queue_trace m1 ops m2 rs -> queue_trace m (op :: ops) m2 (r :: rs).

Lemma queue_exec_refines q op :
  heap_ok q ->
  heap_ok (queue_exec q op).1 /\ queue_spec q op (queue_exec q op).1 (queue_exec q op).2.
Proof.
  intros Hh. destruct op as [kind id t|now|]; cbn [queue_exec].
  - destruct (add_spec q kind id t Hh). split; [done|]. by constructor.
  - destruct (due q now) as [[e q']|] eqn:E; cbn.
    + destruct (due_Some q now e q' Hh E) as (H1 & Hp & Hd & Hmin). split; [done|].
      apply spec_due; try done. split; [rewrite Hp; left|done].
    + split; [done|]. apply spec_not_due; [|done]. intros x Hx.
      pose proof (proj1 (due_None q now Hh) E x Hx) as Hn. unfold is_due in Hn. lia.
  - destruct (popOldest q) as [[e q']|] eqn:E; cbn.
    + destruct (popOldest_Some q e q' Hh E) as (_ & H1 & Hp & Hmin). split; [done|].
      apply spec_pop; try done. split; [rewrite Hp; left|done].
    + apply popOldest_None in E as ->; [|done]. split; [done|]. by constructor.
Qed.

(** The slice heap is a priority queue: from the empty queue, every sequence
    of [add], [due] and [popOldest] calls returns what the abstract queue may
    return, and leaves the multiset of entries the abstract queue holds. *)
Theorem queue_refines_multiset ops :
  heap_ok (queue_run [] ops).1 /\ queue_trace [] ops (queue_run [] ops).1 (queue_run [] ops).2.
Proof.
  assert (Hgen : forall q, heap_ok q ->
    heap_ok (queue_run q ops).1 /\ queue_trace q ops (queue_run q ops).1 (queue_run q ops).2);
    [|apply Hgen, heap_ok_nil].
  induction ops as [|op ops IH]; intros q Hh; cbn [queue_run]; [split; [done|constructor]|].
  destruct (queue_exec_refines q op Hh) as [H1 Hs]. destruct (queue_exec q op) as [q1 r]. cbn in *.
  destruct (IH q1 H1) as [H2 Ht]. destruct (queue_run q1 ops) as [q2 rs]. cbn in *.
  split; [done|]. by econstructor.
Qed.
