(* ===== verification/Float64.v ===== *)
(** Go's [float64]: IEEE 754 binary64 with round-to-nearest-even, as the
    executable specification [SpecFloat] of the Standard Library at precision 53
    and maximal exponent 1024.  Every operation rounds once; the fused
    multiply-add that the Go specification allows is not used (as on amd64). *)

From Stdlib Require Export SpecFloat.
From S2P Require Import Prelude.

Definition float64 := spec_float.

Abbreviation prec64 := 53 (only parsing).
Abbreviation emax64 := 1024 (only parsing).

Definition fadd (x y : float64) : float64 := SFadd prec64 emax64 x y.
Definition fsub (x y : float64) : float64 := SFsub prec64 emax64 x y.
Definition fmul (x y : float64) : float64 := SFmul prec64 emax64 x y.
Definition fdiv (x y : float64) : float64 := SFdiv prec64 emax64 x y.

(** [x < y], [x <= y] and [x == y]; all are false on NaN. *)
Definition flt (x y : float64) : bool := SFltb x y.
Definition fle (x y : float64) : bool := SFleb x y.
Definition feq (x y : float64) : bool := SFeqb x y.

(** [math.IsNaN], [math.IsInf(x, 0)], [math.Inf(1)] *)
Definition IsNaN (x : float64) : bool := match x with S754_nan => true | _ => false end.
Definition IsInf (x : float64) : bool := match x with S754_infinity _ => true | _ => false end.
Definition Inf1 : float64 := S754_infinity false.

(** [float64(z)] for an integer [z]. *)
Definition of_int (z : Z) : float64 := binary_normalize prec64 emax64 z 0 false.

(** The constant nearest to [p / q], for integers below 2^53. *)
Definition of_ratio (p q : Z) : float64 := fdiv (of_int p) (of_int q).

Definition fzero : float64 := S754_zero false.
Definition fone : float64 := of_int 1.

(** The integer part toward minus infinity of a finite value ([int(math.Floor(x))]). *)
Definition floor_to_int (x : float64) : Z :=
  match x with
  | S754_finite s m e =>
    let z := if s then Zneg m else Zpos m in
    if 0 <=? e then z * 2 ^ e else z / 2 ^ (- e)
  | _ => 0
  end.

(** Conversion of a finite value to an integer, toward zero. *)
Definition trunc_to_int (x : float64) : Z :=
  match x with
  | S754_finite s m e =>
    let z := if 0 <=? e then Zpos m * 2 ^ e else Zpos m / 2 ^ (- e) in
    if s then - z else z
  | _ => 0
  end.

(** [Duration.Seconds()]: [float64(d/Second) + float64(d%Second)/1e9]. *)
Definition Seconds (d : Duration) : float64 :=
  fadd (of_int (Z.quot d GoTime.Second)) (fdiv (of_int (Z.rem d GoTime.Second)) (of_int 1000000000)).

(** ** The order of the non-NaN values

    [SFcompare] orders finite values of equal sign by exponent and then by
    mantissa; [code] maps every non-NaN value to an integer triple with the same
    order, which makes the order laws immediate. *)

Definition code (x : float64) : Z * Z * Z :=
  match x with
  | S754_infinity true => (-2, 0, 0)
  | S754_finite true m e => (-1, - e, Zneg m)
  | S754_zero _ => (0, 0, 0)
  | S754_finite false m e => (1, e, Zpos m)
  | S754_infinity false => (2, 0, 0)
  | S754_nan => (0, 0, 0)
  end.

Definition code_lt (a b : Z * Z * Z) : Prop :=
  let '(a1, a2, a3) := a in let '(b1, b2, b3) := b in
  a1 < b1 \/ (a1 = b1 /\ (a2 < b2 \/ (a2 = b2 /\ a3 < b3))).

Lemma flt_code x y :
  IsNaN x = false -> IsNaN y = false -> flt x y = true <-> code_lt (code x) (code y).
Proof.
  intros Hx Hy. unfold flt, SFltb, SFcompare, code_lt, code.
  destruct x as [sx|[]| |[] mx ex], y as [sy|[]| |[] my ey]; try done;
    try (split; [intros; try done; lia|intros; try done; lia]);
    rewrite <- ?Pos.compare_cont_spec; destruct (Z.compare_spec ex ey);
    change (Pos.compare_cont Eq mx my) with (Pos.compare mx my);
    try (destruct (Pos.compare_spec mx my)); simpl; split; intros; try done; lia.
Qed.

Lemma fle_flt x y : IsNaN x = false -> IsNaN y = false -> fle x y = negb (flt y x).
Proof.
  intros Hx Hy. unfold fle, flt, SFleb, SFltb, SFcompare.
  destruct x as [sx|[]| |[] mx ex], y as [sy|[]| |[] my ey]; try done;
    rewrite (Z.compare_antisym ex ey);
    change (Pos.compare_cont Eq mx my) with (Pos.compare mx my);
    change (Pos.compare_cont Eq my mx) with (Pos.compare my mx);
    rewrite (Pos.compare_antisym mx my);
    destruct (Z.compare ex ey), (Pos.compare mx my); done.
Qed.

Lemma code_lt_irrefl a : ¬ code_lt a a.
Proof. destruct a as [[a1 a2] a3]. simpl. lia. Qed.

Lemma code_lt_trans a b c : code_lt a b -> code_lt b c -> code_lt a c.
Proof. destruct a as [[a1 a2] a3], b as [[b1 b2] b3], c as [[c1 c2] c3]. simpl. lia. Qed.

Lemma code_total a b : ¬ code_lt a b -> ¬ code_lt b a -> a = b.
Proof.
  destruct a as [[a1 a2] a3], b as [[b1 b2] b3]. simpl. intros.
  assert (a1 = b1) as -> by lia. assert (a2 = b2) as -> by lia. f_equal. lia.
Qed.

Lemma flt_irrefl x : flt x x = false.
Proof.
  destruct (IsNaN x) eqn:Hx; [by destruct x|]. apply not_true_is_false.
  rewrite flt_code by done. apply code_lt_irrefl.
Qed.

Lemma flt_nan_l x y : IsNaN x = true -> flt x y = false.
Proof. by destruct x. Qed.

Lemma flt_nan_r x y : IsNaN y = true -> flt x y = false.
Proof. destruct y, x; done. Qed.

Lemma flt_not_nan x y : flt x y = true -> IsNaN x = false /\ IsNaN y = false.
Proof. destruct x, y; done. Qed.

Lemma flt_trans x y z : flt x y = true -> flt y z = true -> flt x z = true.
Proof.
  intros H1 H2. destruct (flt_not_nan _ _ H1), (flt_not_nan _ _ H2).
  rewrite flt_code in * by done. by eapply code_lt_trans.
Qed.

(** Negative transitivity: what makes [flt] a weak order. *)
Lemma flt_weak x y z :
  IsNaN x = false -> IsNaN y = false -> IsNaN z = false ->
  flt x y = false -> flt y z = false -> flt x z = false.
Proof.
  intros Hx Hy Hz. rewrite <- !not_true_iff_false. rewrite !flt_code by done.
  destruct (code x) as [[a1 a2] a3], (code y) as [[b1 b2] b3], (code z) as [[c1 c2] c3].
  simpl. lia.
Qed.

Lemma flt_asym x y : flt x y = true -> flt y x = false.
Proof.
  intros H. destruct (flt_not_nan _ _ H). apply not_true_is_false. intros H'.
  pose proof (flt_trans _ _ _ H H') as E. by rewrite flt_irrefl in E.
Qed.

Lemma fle_refl x : IsNaN x = false -> fle x x = true.
Proof. intros. by rewrite fle_flt, flt_irrefl. Qed.

Lemma fle_trans x y z : fle x y = true -> fle y z = true -> fle x z = true.
Proof.
  intros H1 H2.
  assert (IsNaN x = false /\ IsNaN y = false /\ IsNaN z = false) as (? & ? & ?)
    by (by destruct x, y, z).
  rewrite fle_flt in * by done. b2p. by rewrite (flt_weak z y x).
Qed.

Lemma flt_fle x y : flt x y = true -> fle x y = true.
Proof. intros H. destruct (flt_not_nan _ _ H). by rewrite fle_flt, (flt_asym x y). Qed.

(** ** Exact results

    A product or an integer whose exact value has a canonical mantissa is
    returned unrounded. *)

Lemma digits2_pos_bounds p : 2 ^ (Zpos (digits2_pos p) - 1) <= Zpos p < 2 ^ Zpos (digits2_pos p).
Proof.
  induction p as [p IH|p IH|]; cbn [digits2_pos]; rewrite ?Pos2Z.inj_succ; [..|by vm_compute].
  - replace (Z.succ (Zpos (digits2_pos p)) - 1) with (Z.succ (Zpos (digits2_pos p) - 1)) by lia.
    rewrite !Z.pow_succ_r by lia. lia.
  - replace (Z.succ (Zpos (digits2_pos p)) - 1) with (Z.succ (Zpos (digits2_pos p) - 1)) by lia.
    rewrite !Z.pow_succ_r by lia. lia.
Qed.

Lemma digits2_pos_unique p d : 0 < d -> 2 ^ (d - 1) <= Zpos p < 2 ^ d -> Zpos (digits2_pos p) = d.
Proof.
  intros Hd [Hl Hu]. destruct (digits2_pos_bounds p) as [Hl' Hu'].
  assert (d - 1 < Zpos (digits2_pos p)) by (apply (Z.pow_lt_mono_r_iff 2); lia).
  assert (Zpos (digits2_pos p) - 1 < d) by (apply (Z.pow_lt_mono_r_iff 2); lia). lia.
Qed.

Lemma iter_pos_nat {A : Type} (f : A -> A) n x : SpecFloat.iter_pos f n x = Nat.iter (Pos.to_nat n) f x.
Proof.
  revert x. induction n as [n IH|n IH|]; intros x; cbn [SpecFloat.iter_pos]; [..|done]; rewrite !IH.
  - rewrite Pos2Nat.inj_xI, Nat.iter_succ_r. replace (2 * Pos.to_nat n)%nat with (Pos.to_nat n + Pos.to_nat n)%nat by lia.
    by rewrite Nat.iter_add.
  - rewrite Pos2Nat.inj_xO. replace (2 * Pos.to_nat n)%nat with (Pos.to_nat n + Pos.to_nat n)%nat by lia.
    by rewrite Nat.iter_add.
Qed.

Lemma shl_align_value mx ex ex' :
  ex' <= ex -> Zpos (shl_align mx ex ex').1 = Zpos mx * 2 ^ (ex - ex').
Proof.
  intros He. unfold shl_align. destruct (ex' - ex) as [|d|d] eqn:E; [|lia|]; cbn.
  - replace (ex - ex') with 0 by lia. lia.
  - replace (ex - ex') with (Zpos d) by lia. clear.
    induction d as [|d IH] using Pos.peano_ind; [by cbn; lia|].
    rewrite Pos.iter_succ, Pos2Z.inj_succ, Z.pow_succ_r by lia. lia.
Qed.

Lemma shl_align_snd mx ex ex' : ex' <= ex -> (shl_align mx ex ex').2 = ex'.
Proof. intros He. unfold shl_align. destruct (ex' - ex) eqn:E; cbn; lia. Qed.

(** Shifting out zeros. *)
Lemma shr_zeros n m :
  Nat.iter n shr_1 {| shr_m := Zpos m * 2 ^ Z.of_nat n; shr_r := false; shr_s := false |} =
  {| shr_m := Zpos m; shr_r := false; shr_s := false |}.
Proof.
  induction n as [|n IH]; [cbn; by rewrite Z.mul_1_r|].
  rewrite Nat.iter_succ_r.
  replace (Zpos m * 2 ^ Z.of_nat (S n)) with (2 * (Zpos m * 2 ^ Z.of_nat n))
    by (rewrite Nat2Z.inj_succ, Z.pow_succ_r; lia).
  destruct (Zpos m * 2 ^ Z.of_nat n) as [|p|p] eqn:E; [lia|exact IH|lia].
Qed.

Definition canonical (m : positive) (e : Z) : Prop := fexp prec64 emax64 (Zpos (digits2_pos m) + e) = e.

Lemma round_exact s m e k p :
  canonical m e -> e <= 971 -> 0 <= k -> Zpos p = Zpos m * 2 ^ k ->
  binary_round_aux prec64 emax64 s (Zpos p) (e - k) loc_Exact = S754_finite s m e.
Proof.
  unfold canonical. intros Hc He Hk Hp. unfold binary_round_aux.
  assert (Hd : Zpos (digits2_pos p) = Zpos (digits2_pos m) + k).
  { apply digits2_pos_unique; [lia|]. rewrite Hp. destruct (digits2_pos_bounds m).
    replace (Zpos (digits2_pos m) + k - 1) with (Zpos (digits2_pos m) - 1 + k) by lia.
    rewrite !Z.pow_add_r by lia. split; [apply Z.mul_le_mono_nonneg_r|apply Z.mul_lt_mono_pos_r]; lia. }
  assert (H1 : shr_fexp prec64 emax64 (Zpos p) (e - k) loc_Exact = ({| shr_m := Zpos m; shr_r := false; shr_s := false |}, e)).
  { unfold shr_fexp. cbn [Zdigits2 shr_record_of_loc]. rewrite Hd.
    replace (Zpos (digits2_pos m) + k + (e - k)) with (Zpos (digits2_pos m) + e) by lia. rewrite Hc.
    replace (e - (e - k)) with k by lia. destruct k as [|k|]; [|..|lia]; cbn [shr].
    - rewrite Hp, Z.mul_1_r. f_equal. lia.
    - rewrite iter_pos_nat, Hp. f_equal; [|lia]. rewrite <- (shr_zeros (Pos.to_nat k) m), positive_nat_Z. done. }
  rewrite H1. cbn [shr_m loc_of_shr_record round_nearest_even].
  unfold shr_fexp. cbn [Zdigits2 shr_record_of_loc]. rewrite Hc, Z.sub_diag. cbn [shr shr_m].
  rewrite (proj2 (Z.leb_le _ _)); [done|]. exact He.
Qed.

(** [float64(z)] for a positive [z] below 2^53. *)
Lemma of_int_pos z :
  0 < z < 2 ^ 53 ->
  exists m d, 0 < d <= 53 /\ of_int z = S754_finite false m (d - 53) /\ Zpos m = z * 2 ^ (53 - d) /\
    Zpos (digits2_pos m) = 53.
Proof.
  intros [H0 H1]. destruct z as [|z|z]; [lia| |lia]. set (d := Zpos (digits2_pos z)).
  destruct (digits2_pos_bounds z) as [Hl Hu]. fold d in Hl, Hu.
  assert (Hd : 0 < d <= 53).
  { split; [lia|]. assert (d - 1 < 53); [|lia]. apply (Z.pow_lt_mono_r_iff 2); lia. }
  assert (Hf : fexp prec64 emax64 (d + 0) = d - 53) by (unfold fexp, emin; lia).
  exists (shl_align z 0 (d - 53)).1, d. pose proof (shl_align_value z 0 (d - 53) ltac:(lia)) as Hm.
  replace (0 - (d - 53)) with (53 - d) in Hm by lia.
  assert (Hdig : Zpos (digits2_pos (shl_align z 0 (d - 53)).1) = 53).
  { apply digits2_pos_unique; [lia|]. rewrite Hm. replace (53 - 1) with (d - 1 + (53 - d)) by lia.
    replace (2 ^ 53) with (2 ^ d * 2 ^ (53 - d)) by (rewrite <- Z.pow_add_r by lia; f_equal; lia).
    rewrite Z.pow_add_r by lia. split; [apply Z.mul_le_mono_nonneg_r|apply Z.mul_lt_mono_pos_r]; lia. }
  split_and!; [lia|lia| |done|done].
  unfold of_int, binary_normalize, binary_round. fold d. rewrite Hf.
  destruct (shl_align z 0 (d - 53)) as [mz ez] eqn:Es.
  assert (ez = d - 53) as -> by (rewrite <- (shl_align_snd z 0 (d - 53)), Es by lia; done). cbn [fst] in *.
  rewrite <- (Z.sub_0_r (d - 53)) at 1. apply round_exact; [|lia|lia|lia].
  unfold canonical. rewrite Hdig. unfold fexp, emin. lia.
Qed.

Definition fhalf : float64 := of_ratio 1 2.

Lemma fhalf_value : fhalf = S754_finite false (2 ^ 52) (-53).
Proof. reflexivity. Qed.

Lemma fone_value : fone = S754_finite false (2 ^ 52) (-52).
Proof. reflexivity. Qed.

(** Products with a power of two near 1 keep the mantissa. *)
Lemma fmul_pow2 m e k :
  Zpos (digits2_pos m) = 53 -> - 900 <= e <= 900 -> - 60 <= k <= 60 ->
  fmul (S754_finite false m e) (S754_finite false (2 ^ 52) (k - 52)) = S754_finite false m (e + k).
Proof.
  intros Hm He Hk. unfold fmul, SFmul. cbn [xorb].
  replace (e + (k - 52)) with (e + k - 52) by lia.
  apply round_exact; [unfold canonical; rewrite Hm; unfold fexp, emin; lia|lia|lia|]. by rewrite Pos2Z.inj_mul.
Qed.

Lemma floor_fmul_one z : 0 < z < 2 ^ 53 -> floor_to_int (fmul (of_int z) fone) = z.
Proof.
  intros Hz. destruct (of_int_pos z Hz) as (m & d & Hd & -> & Hm & Hdig). rewrite fone_value.
  replace (-52) with (0 - 52) by lia. rewrite fmul_pow2 by (done || lia). unfold floor_to_int.
  destruct (Z.leb_spec 0 (d - 53 + 0)) as [L|L]; rewrite Hm.
  - assert (d = 53) as -> by lia. cbn. lia.
  - replace (- (d - 53 + 0)) with (53 - d) by lia. apply Z.div_mul. lia.
Qed.

Lemma floor_fmul_half z : 0 < z < 2 ^ 53 -> floor_to_int (fmul (of_int z) fhalf) = z / 2.
Proof.
  intros Hz. destruct (of_int_pos z Hz) as (m & d & Hd & -> & Hm & Hdig). rewrite fhalf_value.
  replace (-53) with (-1 - 52) by lia. rewrite fmul_pow2 by (done || lia). unfold floor_to_int.
  rewrite (proj2 (Z.leb_gt _ _)), Hm by lia. replace (- (d - 53 + -1)) with (53 - d + 1) by lia.
  rewrite Z.pow_add_r, Z.mul_comm, (Z.mul_comm _ (2 ^ 1)) by lia.
  rewrite Z.mul_comm, Z.div_mul_cancel_r by lia. done.
Qed.

(** [x - x] is zero for finite [x]. *)
Lemma fsub_diag x : IsNaN x = false -> IsInf x = false -> exists s, fsub x x = S754_zero s.
Proof.
  intros Hn Hi. destruct x as [[]| | |s m e]; try done; [by eexists..|].
  unfold fsub, SFsub. rewrite Z.sub_diag. by eexists.
Qed.

(** ** Signs

    The sign of a rounded result is the sign of the exact one, and rounding a
    finite exact value never gives NaN. *)

(** Not NaN and not below zero. *)
Definition nonneg (x : float64) : bool :=
  match x with S754_zero _ | S754_infinity false | S754_finite false _ _ => true | _ => false end.

Definition finite_float (x : float64) : bool := match x with S754_zero _ | S754_finite _ _ _ => true | _ => false end.

Lemma shr_1_nonneg mrs : 0 <= shr_m mrs -> 0 <= shr_m (shr_1 mrs).
Proof. destruct mrs as [m r s]. cbn. destruct m as [|[]|]; cbn; lia. Qed.

Lemma shr_nonneg mrs e n : 0 <= shr_m mrs -> 0 <= shr_m (shr mrs e n).1.
Proof.
  intros Hm. destruct n as [|n|n]; cbn; try done. rewrite iter_pos_nat.
  induction (Pos.to_nat n) as [|k IH]; cbn; [done|]. by apply shr_1_nonneg.
Qed.

Lemma shr_record_of_loc_m m l : shr_m (shr_record_of_loc m l) = m.
Proof. by destruct l as [|[]]. Qed.

Lemma round_nonneg_result mx ex lx : 0 <= mx -> nonneg (binary_round_aux prec64 emax64 false mx ex lx) = true.
Proof.
  intros Hm. unfold binary_round_aux, shr_fexp.
  pose proof (shr_nonneg (shr_record_of_loc mx lx) ex (fexp prec64 emax64 (Zdigits2 mx + ex) - ex)
    ltac:(by rewrite shr_record_of_loc_m)) as H1.
  destruct (shr (shr_record_of_loc mx lx) _ _) as [mrs' e']. cbn [fst] in H1.
  set (r := round_nearest_even (shr_m mrs') (loc_of_shr_record mrs')).
  assert (Hr : 0 <= r) by (unfold r, round_nearest_even; repeat case_match; lia).
  pose proof (shr_nonneg (shr_record_of_loc r loc_Exact) e' (fexp prec64 emax64 (Zdigits2 r + e') - e') Hr) as H2.
  destruct (shr (shr_record_of_loc r loc_Exact) _ _) as [mrs'' e'']. cbn [fst] in H2.
  destruct (shr_m mrs''); [done|by case_match|lia].
Qed.

Lemma normalize_nonneg m e : 0 <= m -> nonneg (binary_normalize prec64 emax64 m e false) = true.
Proof.
  intros Hm. destruct m as [|p|p]; [done| |lia]. unfold binary_normalize, binary_round.
  destruct (shl_align p e _) as [mz ez]. by apply round_nonneg_result.
Qed.

Lemma fadd_nonneg x y : nonneg x = true -> nonneg y = true -> nonneg (fadd x y) = true.
Proof.
  intros Hx Hy. destruct x as [[]|[]| |[] mx ex], y as [[]|[]| |[] my ey]; try done.
  unfold fadd, SFadd. apply normalize_nonneg. cbn [cond_Zopp]. lia.
Qed.

Lemma fmul_nonneg x y :
  nonneg x = true -> nonneg y = true -> finite_float x = true -> finite_float y = true ->
  nonneg (fmul x y) = true.
Proof.
  intros Hx Hy Fx Fy. destruct x as [[]|[]| |[] mx ex], y as [[]|[]| |[] my ey]; try done.
  unfold fmul, SFmul. by apply round_nonneg_result.
Qed.

Lemma nonneg_not_nan x : nonneg x = true -> IsNaN x = false.
Proof. by destruct x. Qed.

Lemma nonneg_not_below x : nonneg x = true -> flt x fzero = false.
Proof. by destruct x as [[]|[]| |[] m e]. Qed.
