(* ===== verification/Domain.v ===== *)
(** The domain types of the gateway ([src/internal/domain/types.go],
    [src/internal/domain/usage.go]).

    Go string types whose values come from outside (priority classes) stay
    strings with the source's constants; the closed enumerations the program
    alone writes are inductive types, with one extra constructor for the zero
    value [""] where the source uses it. *)

From S2P Require Import Prelude Float64.

(** ** Priority classes *)

Definition PriorityClass := string.
Definition PriorityCritical : PriorityClass := "critical".
Definition PriorityHigh : PriorityClass := "high".
Definition PriorityNormal : PriorityClass := "normal".
Definition PriorityBackground : PriorityClass := "background".

(** [func (p PriorityClass) Valid() bool] *)
Definition PriorityClass_Valid (p : PriorityClass) : bool :=
  bool_decide (p = PriorityCritical) || bool_decide (p = PriorityHigh) ||
  bool_decide (p = PriorityNormal) || bool_decide (p = PriorityBackground).

(** ** Outcomes and states *)

Inductive InferenceOutcome := InferenceSuccess | InferenceFailure | InferenceNeutral.

Inductive CircuitState := CircuitClosed | CircuitOpen | CircuitHalfOpen.

(** [PoolUnset] is the zero value [""]. *)
Inductive PoolState :=
  PoolNormal | PoolBusy | PoolSaturated | PoolEmergency | PoolUnavailable | PoolUnset.

(** [BackendUnset] is the zero value [""]. *)
Inductive BackendState :=
  BackendHealthy | BackendBusy | BackendSaturated | BackendDraining | BackendUnhealthy
  | BackendUnset.

#[global] Instance InferenceOutcome_eq_dec : EqDecision InferenceOutcome.
Proof. solve_decision. Defined.
#[global] Instance CircuitState_eq_dec : EqDecision CircuitState.
Proof. solve_decision. Defined.
#[global] Instance PoolState_eq_dec : EqDecision PoolState.
Proof. solve_decision. Defined.
#[global] Instance BackendState_eq_dec : EqDecision BackendState.
Proof. solve_decision. Defined.

(** ** Token usage of a response ([usage.go]) *)

Record TokenUsage := {
  du_InputTokens : Z;
  du_OutputTokens : Z;
  du_CacheReadTokens : option Z
}.

#[global] Instance TokenUsage_eq_dec : EqDecision TokenUsage.
Proof. solve_decision. Defined.

(** ** Configuration records

    A [*time.Time] is [option Time]; the 32 bytes of [SecretHash] are the number
    they spell. *)

Record Client := {
  cl_ID : Z;
  cl_Revision : Z;
  cl_Name : string;
  cl_Enabled : bool;
  cl_PriorityClass : PriorityClass;
  cl_VLLMPriority : Z;
  cl_MaxConcurrency : Z;
  cl_RequestsPerMinute : Z;
  cl_TokensPerMinute : Z;
  cl_CreatedAt : Time;
  cl_UpdatedAt : Time
}.

Record APIKey := {
  ak_ID : Z;
  ak_ClientID : Z;
  ak_Prefix : string;
  ak_SecretHash : N;
  ak_CreatedAt : Time;
  ak_ExpiresAt : option Time;
  ak_RevokedAt : option Time;
  ak_LastUsedAt : option Time
}.

Record ClientModelAccess := {
  ac_ClientID : Z;
  ac_ModelPoolID : Z;
  ac_Enabled : bool
}.

Record ModelPool := {
  mp_ID : Z;
  mp_Revision : Z;
  mp_PublicModelName : string;
  mp_UpstreamModelName : string;
  mp_Enabled : bool;
  mp_MaxGatewayInflight : Z;
  mp_HighPriorityReserve : Z;
  mp_MaxWaiting : Z;
  mp_CreatedAt : Time;
  mp_UpdatedAt : Time
}.

Record Backend := {
  be_ID : Z;
  be_Revision : Z;
  be_ModelPoolID : Z;
  be_Name : string;
  be_BaseURL : string;
  be_Enabled : bool;
  be_Draining : bool;
  be_CapacityHint : float64;
  be_RunningSoftLimit : float64;
  be_UpstreamAPIKeyEnv : string;
  be_CreatedAt : Time;
  be_UpdatedAt : Time
}.

#[global] Instance float64_eq_dec : EqDecision float64.
Proof. solve_decision. Defined.
#[global] Instance Client_eq_dec : EqDecision Client.
Proof. solve_decision. Defined.
#[global] Instance APIKey_eq_dec : EqDecision APIKey.
Proof. solve_decision. Defined.
#[global] Instance ClientModelAccess_eq_dec : EqDecision ClientModelAccess.
Proof. solve_decision. Defined.
#[global] Instance ModelPool_eq_dec : EqDecision ModelPool.
Proof. solve_decision. Defined.
#[global] Instance Backend_eq_dec : EqDecision Backend.
Proof. solve_decision. Defined.

(** ** What the monitor reports *)

(** [br_CircuitState] is [None] where the source leaves the zero value. *)
Record BackendRuntime := {
  br_BackendID : Z;
  br_State : BackendState;
  br_CircuitState : option CircuitState;
  br_CircuitFailures : Z;
  br_CircuitRetryAt : Time;
  br_CircuitProbesInFlight : Z;
  br_CircuitAvailable : bool;
  br_Healthy : bool;
  br_MetricsFresh : bool;
  br_Running : float64;
  br_Waiting : float64;
  br_KVCacheUsage : float64;
  br_RawPressure : float64;
  br_Pressure : float64;
  br_GatewayInflight : Z;
  br_LastHealthAt : Time;
  br_LastMetricsAt : Time;
  br_ConsecutiveFailure : Z;
  br_ConsecutiveSuccess : Z
}.

Definition zeroBackendRuntime : BackendRuntime :=
  {| br_BackendID := 0; br_State := BackendUnset; br_CircuitState := None; br_CircuitFailures := 0; br_CircuitRetryAt := GoTime.zero;
     br_CircuitProbesInFlight := 0; br_CircuitAvailable := false; br_Healthy := false; br_MetricsFresh := false; br_Running := fzero;
     br_Waiting := fzero; br_KVCacheUsage := fzero; br_RawPressure := fzero; br_Pressure := fzero; br_GatewayInflight := 0;
     br_LastHealthAt := GoTime.zero; br_LastMetricsAt := GoTime.zero; br_ConsecutiveFailure := 0; br_ConsecutiveSuccess := 0 |}.

Record PoolRuntime := {
  po_PoolID : Z;
  po_State : PoolState;
  po_BestBackendPressure : float64;
  po_AvailableBackends : Z;
  po_AllBackendsWaiting : bool;
  po_GatewayInflight : Z;
  po_TotalWaiting : float64
}.
