(* ===== verification/CircuitBreaker.v ===== *)
(** The per-backend circuit breaker ([src/internal/circuitbreaker/breaker.go]).

    A [Breaker] is the struct without its mutex; every method runs under that
    mutex, so each is one atomic function on the state.  The [complete] closure
    that [Acquire] returns is its captured data, a [Completion]; the [sync.Once]
    around it is the rule of the step relation that a completion is consumed
    when it is called. *)

From S2P Require Import Prelude Domain.

Record Options := {
  FailureThreshold : Z;
  FailureWindow : Duration;
  OpenCooldown : Duration;
  HalfOpenMaxProbes : Z
}.

#[global] Instance Options_eq_dec : EqDecision Options.
Proof. solve_decision. Defined.

(** [Snapshot] of the breaker. *)
Record Snapshot := {
  Snapshot_Generation : Z;
  Snapshot_State : CircuitState;
  Snapshot_FailureCount : Z;
  Snapshot_RetryAt : Time;
  Snapshot_ProbesInFlight : Z;
  Snapshot_Available : bool
}.

Record Breaker := {
  options : Options;
  state : CircuitState;
  generation : Z;
  failures : list Time;
  openedAt : Time;
  probesInFlight : Z;
  halfOpenSucceeded : bool
}.

(** What the closure returned by [completion] captures. *)
Record Completion := {
  c_generation : Z;
  c_probe : bool
}.

#[global] Instance Completion_eq_dec : EqDecision Completion.
Proof. solve_decision. Defined.

(** [generation++] on a [uint64]. *)
Definition next_generation (g : Z) : Z := (g + 1) mod 2 ^ 64.

Inductive NewError :=
  | ErrFailureThreshold | ErrFailureWindow | ErrOpenCooldown | ErrHalfOpenMaxProbes.

Definition New (o : Options) : NewError + Breaker :=
  if FailureThreshold o <=? 0 then inl ErrFailureThreshold
  else if FailureWindow o <=? 0 then inl ErrFailureWindow
  else if OpenCooldown o <=? 0 then inl ErrOpenCooldown
  else if HalfOpenMaxProbes o <=? 0 then inl ErrHalfOpenMaxProbes
  else inr {| options := o; state := CircuitClosed; generation := 0; failures := [];
              openedAt := GoTime.zero; probesInFlight := 0; halfOpenSucceeded := false |}.

Definition transitionOpenToHalfOpen (now : Time) (b : Breaker) : Breaker :=
  if negb (bool_decide (state b = CircuitOpen)) ||
     GoTime.Before now (GoTime.Add (openedAt b) (OpenCooldown (options b))) then b
  else {| b with state := CircuitHalfOpen; generation := next_generation (generation b);
          openedAt := GoTime.zero; probesInFlight := 0; halfOpenSucceeded := false |}.

Definition enterOpen (at_ : Time) (b : Breaker) : Breaker :=
  {| b with state := CircuitOpen; generation := next_generation (generation b);
     openedAt := at_; probesInFlight := 0; halfOpenSucceeded := false |}.

Definition enterClosed (b : Breaker) : Breaker :=
  {| b with state := CircuitClosed; generation := next_generation (generation b);
     failures := []; openedAt := GoTime.zero; probesInFlight := 0; halfOpenSucceeded := false |}.

(** The in-place filter of [pruneFailures]. *)
Definition keep_failures (cutoff : Time) (l : list Time) : list Time :=
  filter (fun failure => GoTime.Before failure cutoff = false) l.

Definition pruneFailures (now : Time) (b : Breaker) : Breaker :=
  {| b with failures := keep_failures (GoTime.Add now (- FailureWindow (options b))) (failures b) |}.

(** The loop of [recordFailure] that finds the latest failure. *)
Definition latest_of (first : Time) (rest : list Time) : Time :=
  fold_left (fun latest failure => if GoTime.After failure latest then failure else latest) rest first.

Definition recordFailure (failedAt : Time) (b : Breaker) : Breaker * Time :=
  let fs := failures b ++ [failedAt] in
  let latest := match fs with [] => failedAt | f :: rest => latest_of f rest end in
  (pruneFailures latest {| b with failures := fs |}, latest).

Definition Acquire (now : Time) (b : Breaker) : Breaker * option Completion :=
  let b := transitionOpenToHalfOpen now b in
  match state b with
  | CircuitClosed =>
    let b := pruneFailures now b in
    (b, Some {| c_generation := generation b; c_probe := false |})
  | CircuitHalfOpen =>
    if halfOpenSucceeded b || (HalfOpenMaxProbes (options b) <=? probesInFlight b) then (b, None)
    else
      let b := {| b with probesInFlight := probesInFlight b + 1 |} in
      (b, Some {| c_generation := generation b; c_probe := true |})
  | CircuitOpen => (b, None)
  end.

(** [func (b *Breaker) Snapshot(now)]: it transitions and prunes, then reads. *)
Definition TakeSnapshot (now : Time) (b : Breaker) : Breaker * Snapshot :=
  let b := transitionOpenToHalfOpen now b in
  let b := if bool_decide (state b = CircuitClosed) then pruneFailures now b else b in
  (b, {| Snapshot_Generation := generation b;
         Snapshot_State := state b;
         Snapshot_FailureCount := Z.of_nat (length (failures b));
         Snapshot_RetryAt :=
           if bool_decide (state b = CircuitOpen)
           then GoTime.Add (openedAt b) (OpenCooldown (options b)) else GoTime.zero;
         Snapshot_ProbesInFlight := probesInFlight b;
         Snapshot_Available :=
           match state b with
           | CircuitClosed => true
           | CircuitOpen => false
           | CircuitHalfOpen =>
             negb (halfOpenSucceeded b) && (probesInFlight b <? HalfOpenMaxProbes (options b))
           end |}).

Definition completeProbe (completedAt : Time) (outcome : InferenceOutcome) (b : Breaker) : Breaker :=
  if negb (bool_decide (state b = CircuitHalfOpen)) then b
  else
    let b := if 0 <? probesInFlight b
             then {| b with probesInFlight := probesInFlight b - 1 |} else b in
    match outcome with
    | InferenceFailure => let '(b, latest) := recordFailure completedAt b in enterOpen latest b
    | _ =>
      let b := if bool_decide (outcome = InferenceSuccess)
               then {| b with halfOpenSucceeded := true |} else b in
      if halfOpenSucceeded b && (probesInFlight b =? 0) then enterClosed b else b
    end.

Definition complete (c : Completion) (outcome : InferenceOutcome) (completedAt : Time)
    (b : Breaker) : Breaker :=
  if negb (c_generation c =? generation b) then b
  else if c_probe c then completeProbe completedAt outcome b
  else if negb (bool_decide (state b = CircuitClosed)) ||
          negb (bool_decide (outcome = InferenceFailure)) then b
  else
    let '(b, opened) := recordFailure completedAt b in
    if FailureThreshold (options b) <=? Z.of_nat (length (failures b)) then enterOpen opened b else b.

(** ** Executions

    A breaker with the completions handed out and not yet called.  A call of a
    completion consumes it ([sync.Once]); calls happen in any order and any
    number of requests may be in flight. *)

Record System := {
  breaker : Breaker;
  outstanding : list Completion
}.

Inductive step : System -> System -> Prop :=
  | step_acquire now s b c :
      Acquire now (breaker s) = (b, Some c) ->
      step s {| breaker := b; outstanding := c :: outstanding s |}
  | step_denied now s b :
      Acquire now (breaker s) = (b, None) ->
      step s {| breaker := b; outstanding := outstanding s |}
  | step_snapshot now s :
      step s {| breaker := (TakeSnapshot now (breaker s)).1; outstanding := outstanding s |}
  | step_complete s c outcome at_ before after :
      outstanding s = before ++ c :: after ->
      step s {| breaker := complete c outcome at_ (breaker s); outstanding := before ++ after |}.

(** The states reached from [New o] in [n] steps. *)
Inductive reach (o : Options) : nat -> System -> Prop :=
  | reach_new b : New o = inr b -> reach o 0 {| breaker := b; outstanding := [] |}
  | reach_step n s s' : reach o n s -> step s s' -> reach o (S n) s'.

(** ** The invariant *)

Definition current_probe (g : Z) (c : Completion) : Prop := c_probe c = true /\ c_generation c = g.

#[global] Instance current_probe_dec g c : Decision (current_probe g c).
Proof. unfold current_probe. apply _. Defined.

Definition probes_out (s : System) : Z :=
  Z.of_nat (length (filter (current_probe (generation (breaker s))) (outstanding s))).

Record ok (n : Z) (s : System) : Prop := {
  ok_threshold : 0 < FailureThreshold (options (breaker s));
  ok_maxprobes : 0 < HalfOpenMaxProbes (options (breaker s));
  ok_generation : 0 <= generation (breaker s) <= n;
  ok_outstanding : forall c, c ∈ outstanding s -> c_generation c <= generation (breaker s);
  ok_kind : forall c, c ∈ outstanding s -> c_generation c = generation (breaker s) ->
    state (breaker s) = if c_probe c then CircuitHalfOpen else CircuitClosed;
  ok_probes : probesInFlight (breaker s) = probes_out s;
  ok_maximum : probesInFlight (breaker s) <= HalfOpenMaxProbes (options (breaker s));
  ok_succeeded : halfOpenSucceeded (breaker s) = true ->
    state (breaker s) = CircuitHalfOpen /\ 0 < probesInFlight (breaker s);
  ok_closed : state (breaker s) = CircuitClosed ->
    Z.of_nat (length (failures (breaker s))) < FailureThreshold (options (breaker s))
}.

Lemma next_generation_small g n : 0 <= g <= n -> n < 2 ^ 64 - 1 -> next_generation g = g + 1.
Proof. intros. unfold next_generation. apply Z.mod_small. lia. Qed.

(** A new generation has no outstanding completion. *)
Lemma fresh_generation_no_probes g (l : list Completion) :
  (forall c, c ∈ l -> c_generation c <= g) -> filter (current_probe (g + 1)) l = [].
Proof.
  intros Hl. apply elem_of_nil_inv. intros c Hc. apply list_elem_of_filter in Hc as [[_ Hg] Hc].
  specialize (Hl c Hc). lia.
Qed.

(** Entering a new generation in any state keeps the invariant, whatever happens
    to the outstanding completions other than losing some. *)
Lemma ok_new_generation n s st fs opened out :
  ok n s -> n < 2 ^ 64 - 1 -> out ⊆ outstanding s ->
  (st = CircuitClosed -> fs = []) ->
  ok (n + 1) {| breaker := {| (breaker s) with state := st;
                  generation := next_generation (generation (breaker s)); failures := fs;
                  openedAt := opened; probesInFlight := 0; halfOpenSucceeded := false |};
                outstanding := out |}.
Proof.
  intros [] Hn Hout Hfs. rewrite (next_generation_small _ n) by done.
  constructor; simpl; try done; try lia.
  - intros c Hc. specialize (ok_outstanding0 c (Hout c Hc)). lia.
  - intros c Hc Hg. specialize (ok_outstanding0 c (Hout c Hc)). lia.
  - unfold probes_out. simpl. rewrite fresh_generation_no_probes; [done|].
    intros c Hc. by apply ok_outstanding0, Hout.
  - intros ->. rewrite Hfs by done. simpl. lia.
Qed.

(** The order in which completions were handed out does not matter. *)
Lemma ok_perm n b l l' :
  l ≡ₚ l' -> ok n {| breaker := b; outstanding := l |} -> ok n {| breaker := b; outstanding := l' |}.
Proof.
  intros Hp []. constructor; simpl in *; try done.
  - intros c. rewrite <- Hp. auto.
  - intros c. rewrite <- Hp. auto.
  - rewrite ok_probes0. unfold probes_out. simpl. by rewrite Hp.
Qed.

Lemma ok_mono n n' s : n <= n' -> ok n s -> ok n' s.
Proof. intros Hn []. constructor; try done. lia. Qed.

Lemma ok_weaken n s : ok n s -> ok (n + 1) s.
Proof. apply ok_mono. lia. Qed.

Lemma keep_failures_length cutoff l : (length (keep_failures cutoff l) <= length l)%nat.
Proof. apply length_filter. Qed.

Lemma ok_prune n now s : ok n s -> ok n {| s with breaker := pruneFailures now (breaker s) |}.
Proof.
  intros []. constructor; try done. simpl. intros Hc. specialize (ok_closed0 Hc).
  pose proof (keep_failures_length (GoTime.Add now (- FailureWindow (options (breaker s))))
    (failures (breaker s))). lia.
Qed.

Lemma ok_transition n now s :
  ok n s -> n < 2 ^ 64 - 1 ->
  ok (n + 1) {| s with breaker := transitionOpenToHalfOpen now (breaker s) |}.
Proof.
  intros Hok Hn. unfold transitionOpenToHalfOpen. split_match.
  - destruct s. by apply ok_weaken.
  - apply (ok_new_generation n s CircuitHalfOpen (failures (breaker s)) GoTime.zero); done.
Qed.

Lemma probes_out_cons_current s c :
  current_probe (generation (breaker s)) c ->
  Z.of_nat (length (filter (current_probe (generation (breaker s))) (c :: outstanding s))) = probes_out s + 1.
Proof. intros Hc. unfold probes_out. rewrite filter_cons_True by done. simpl. lia. Qed.

Lemma ok_acquire n now s b o :
  ok n s -> n < 2 ^ 64 - 1 -> Acquire now (breaker s) = (b, o) ->
  ok (n + 1) {| breaker := b; outstanding := from_option (fun c => [c]) [] o ++ outstanding s |}.
Proof.
  intros Hok Hn HA. pose proof (ok_transition n now s Hok Hn) as Ht. unfold Acquire in HA.
  set (b1 := transitionOpenToHalfOpen now (breaker s)) in *.
  destruct (state b1) eqn:Est.
  - injection HA as <- <-. apply (ok_prune _ now) in Ht. simpl in Ht.
    destruct Ht. simpl in *. constructor; simpl in *; try done.
    + intros c [->|Hc]%elem_of_cons; [simpl; lia|auto].
    + intros c [->|Hc]%elem_of_cons Hg; [done|auto].
  - injection HA as <- <-. by destruct s.
  - split_match.
    + injection HA as <- <-. by destruct s.
    + injection HA as <- <-. b2p. destruct Ht. simpl in *. constructor; simpl; try done; try lia.
      * intros c [->|Hc]%elem_of_cons; [simpl; lia|by apply ok_outstanding0].
      * intros c [->|Hc]%elem_of_cons Hg; [done|by rewrite <- (ok_kind0 c Hc Hg)].
      * unfold probes_out in *. simpl in *. rewrite filter_cons_True by done. simpl. lia.
      * congruence.
Qed.

Lemma ok_snapshot n now s :
  ok n s -> n < 2 ^ 64 - 1 ->
  ok (n + 1) {| breaker := (TakeSnapshot now (breaker s)).1; outstanding := outstanding s |}.
Proof.
  intros Hok Hn. pose proof (ok_transition n now s Hok Hn) as Ht.
  unfold TakeSnapshot. simpl. case_bool_decide; [by apply (ok_prune _ now) in Ht|by destruct s].
Qed.

(** Dropping a completion of another generation. *)
Lemma ok_drop_stale n s before c after :
  ok n s -> outstanding s = before ++ c :: after ->
  c_generation c <> generation (breaker s) ->
  ok n {| breaker := breaker s; outstanding := before ++ after |}.
Proof.
  intros Hok Hout Hne.
  assert (Hsub : forall x, x ∈ before ++ after -> x ∈ outstanding s) by (rewrite Hout; eauto with gateway).
  destruct Hok. constructor; simpl; auto.
  rewrite ok_probes0. unfold probes_out. simpl. rewrite Hout, !filter_app, filter_cons_False; [done|].
  by intros [_ ?].
Qed.

Lemma probes_out_remove s before c after :
  outstanding s = before ++ c :: after -> current_probe (generation (breaker s)) c ->
  Z.of_nat (length (filter (current_probe (generation (breaker s))) (before ++ after))) = probes_out s - 1.
Proof.
  intros Hout Hc. unfold probes_out. rewrite Hout, !filter_app, filter_cons_True by done.
  rewrite !length_app. simpl. lia.
Qed.

(** A probe completion that neither trips nor closes the circuit. *)
Lemma ok_probe_done n s before c after succeeded :
  ok n s -> outstanding s = before ++ c :: after -> current_probe (generation (breaker s)) c ->
  (succeeded = true -> probesInFlight (breaker s) <> 1) ->
  ok n {| breaker := {| (breaker s) with probesInFlight := probesInFlight (breaker s) - 1;
                        halfOpenSucceeded := succeeded |};
          outstanding := before ++ after |}.
Proof.
  intros Hok Hout Hc Hs. pose proof (probes_out_remove _ _ _ _ Hout Hc) as Hp.
  assert (Hsub : forall x, x ∈ before ++ after -> x ∈ outstanding s) by (rewrite Hout; eauto with gateway).
  assert (Hin : c ∈ outstanding s) by (rewrite Hout; eauto with gateway).
  destruct Hc as [Hprobe Hgen], Hok.
  assert (Hst : state (breaker s) = CircuitHalfOpen) by (by rewrite (ok_kind0 c), Hprobe).
  constructor; simpl; auto; try lia.
  - unfold probes_out at 1. simpl. lia.
  - intros ->. split; [done|]. specialize (Hs eq_refl). lia.
Qed.

Lemma ok_complete_probe n s before c after outcome t :
  ok n s -> n < 2 ^ 64 - 1 -> outstanding s = before ++ c :: after ->
  current_probe (generation (breaker s)) c ->
  ok (n + 1) {| breaker := completeProbe t outcome (breaker s); outstanding := before ++ after |}.
Proof.
  intros Hok Hn Hout Hcur.
  assert (Hsub : before ++ after ⊆ outstanding s) by (intros x; rewrite Hout; eauto with gateway).
  assert (Hin : c ∈ outstanding s) by (rewrite Hout; eauto with gateway).
  pose proof (ok_probes _ _ Hok) as Hpr. pose proof (probes_out_remove _ _ _ _ Hout Hcur) as Hrm.
  pose proof (ok_probe_done n s before c after) as Hdone.
  assert (Hst : state (breaker s) = CircuitHalfOpen).
  { destruct Hcur as [Hp Hg]. by rewrite (ok_kind _ _ Hok c Hin Hg), Hp. }
  unfold completeProbe. rewrite (bool_decide_eq_true_2 _ Hst). simpl.
  rewrite (proj2 (Z.ltb_lt 0 (probesInFlight (breaker s)))) by lia.
  destruct outcome; simpl.
  - destruct (Z.eqb_spec (probesInFlight (breaker s) - 1) 0) as [E|E]; simpl.
    + by apply (ok_new_generation n s CircuitClosed [] GoTime.zero).
    + apply ok_weaken, Hdone; try done. lia.
  - by apply (ok_new_generation n s CircuitOpen).
  - destruct (halfOpenSucceeded (breaker s)) eqn:Hs; simpl.
    + destruct (Z.eqb_spec (probesInFlight (breaker s) - 1) 0) as [E|E]; simpl.
      * by apply (ok_new_generation n s CircuitClosed [] GoTime.zero).
      * rewrite <- Hs. apply ok_weaken, Hdone; try done. lia.
    + rewrite <- Hs. apply ok_weaken, Hdone; try done. congruence.
Qed.

(** Consuming a request completion that leaves the circuit closed. *)
Lemma ok_request_done n s before c after fs :
  ok n s -> outstanding s = before ++ c :: after -> c_probe c = false ->
  state (breaker s) = CircuitClosed ->
  Z.of_nat (length fs) < FailureThreshold (options (breaker s)) ->
  ok n {| breaker := {| (breaker s) with failures := fs |}; outstanding := before ++ after |}.
Proof.
  intros Hok Hout Hp Hst Hfs.
  assert (Hsub : before ++ after ⊆ outstanding s) by (intros x; rewrite Hout; eauto with gateway).
  destruct Hok. constructor; simpl; auto.
  rewrite ok_probes0. unfold probes_out. simpl. rewrite Hout, !filter_app.
  rewrite filter_cons_False; [done|]. intros [? _]; congruence.
Qed.

Lemma ok_complete n s before c after outcome t :
  ok n s -> n < 2 ^ 64 - 1 -> outstanding s = before ++ c :: after ->
  ok (n + 1) {| breaker := complete c outcome t (breaker s); outstanding := before ++ after |}.
Proof.
  intros Hok Hn Hout.
  assert (Hsub : before ++ after ⊆ outstanding s) by (intros x; rewrite Hout; eauto with gateway).
  assert (Hin : c ∈ outstanding s) by (rewrite Hout; eauto with gateway).
  unfold complete. destruct (Z.eqb_spec (c_generation c) (generation (breaker s))) as [Hg|Hg]; simpl.
  2: { by apply ok_weaken, (ok_drop_stale n s before c after). }
  pose proof (ok_kind _ _ Hok c Hin Hg) as Hst.
  destruct (c_probe c) eqn:Hp; [by apply (ok_complete_probe n s before c after)|].
  pose proof (ok_request_done n s before c after) as Hdone.
  rewrite (bool_decide_eq_true_2 _ Hst). simpl.
  destruct outcome; simpl.
  - destruct s as [[] ?]. by apply ok_weaken, Hdone; try done; apply Hok.
  - split_match; b2p.
    + by apply (ok_new_generation n s CircuitOpen).
    + apply ok_weaken, Hdone; done.
  - destruct s as [[] ?]. by apply ok_weaken, Hdone; try done; apply Hok.
Qed.

Lemma ok_new o b : New o = inr b -> ok 0 {| breaker := b; outstanding := [] |}.
Proof.
  unfold New. repeat split_match; intros E; try done. injection E as <-. b2p.
  constructor; simpl; try done; try lia; set_solver.
Qed.

Lemma reach_ok o n s : reach o n s -> Z.of_nat n < 2 ^ 64 -> ok (Z.of_nat n) s.
Proof.
  induction 1 as [b Hb|n s s' Hr IH Hs]; intros Hn; [by apply (ok_new o)|].
  specialize (IH ltac:(lia)). replace (Z.of_nat (S n)) with (Z.of_nat n + 1) by lia.
  destruct Hs as [now s b c HA|now s b HA|now s|s c outcome t before after Hout].
  - by apply (ok_acquire _ now s b (Some c)); [|lia|].
  - by apply (ok_acquire _ now s b None); [|lia|].
  - by apply ok_snapshot; [|lia].
  - by eapply ok_complete; [|lia|].
Qed.

(** ** Executable runs, for concrete executions *)

Inductive Op :=
  | OpAcquire (now : Time)
  | OpSnapshot (now : Time)
  | OpComplete (index : nat) (outcome : InferenceOutcome) (at_ : Time).

Definition exec (s : System) (op : Op) : System :=
  match op with
  | OpAcquire now =>
    let '(b, c) := Acquire now (breaker s) in
    {| breaker := b; outstanding := from_option (fun c => [c]) [] c ++ outstanding s |}
  | OpSnapshot now => {| s with breaker := (TakeSnapshot now (breaker s)).1 |}
  | OpComplete i outcome t =>
    match outstanding s !! i with
    | Some c => {| breaker := complete c outcome t (breaker s); outstanding := delete i (outstanding s) |}
    | None => {| s with breaker := (TakeSnapshot t (breaker s)).1 |}
    end
  end.

Lemma exec_step s op : step s (exec s op).
Proof.
  destruct op as [now|now|i outcome t]; simpl.
  - destruct (Acquire now (breaker s)) as [b [c|]] eqn:E; by econstructor.
  - constructor.
  - destruct (outstanding s !! i) as [c|] eqn:E; [|constructor].
    rewrite delete_take_drop. apply step_complete. by rewrite take_drop_middle.
Qed.

Lemma exec_reach o b ops :
  New o = inr b -> reach o (length ops) (foldl exec {| breaker := b; outstanding := [] |} ops).
Proof.
  intros Hb. induction ops as [|op ops IH] using rev_ind; [by constructor|].
  rewrite foldl_snoc, length_app, Nat.add_comm. simpl. econstructor; [done|apply exec_step].
Qed.

(** ** Options never change; generations grow and identify the state *)

Lemma transition_options now b : options (transitionOpenToHalfOpen now b) = options b.
Proof. unfold transitionOpenToHalfOpen. by split_match. Qed.

Lemma complete_options c outcome t b : options (complete c outcome t b) = options b.
Proof.
  unfold complete, completeProbe, recordFailure. simpl.
  repeat (split_match; simpl in *); simplify_eq/=; done.
Qed.

Lemma snapshot_options now b : options (TakeSnapshot now b).1 = options b.
Proof. unfold TakeSnapshot. simpl. case_bool_decide; simpl; apply transition_options. Qed.

Lemma acquire_options now b : options (Acquire now b).1 = options b.
Proof. unfold Acquire. repeat (split_match; simpl); apply transition_options. Qed.

Lemma transition_stay now b : state b <> CircuitOpen -> transitionOpenToHalfOpen now b = b.
Proof. intros Hs. unfold transitionOpenToHalfOpen. by rewrite bool_decide_false. Qed.

(** An idle breaker admits, once an open one has cooled down. *)
Lemma acquire_idle now b :
  probesInFlight b = 0 -> halfOpenSucceeded b = false -> 0 < HalfOpenMaxProbes (options b) ->
  (state b = CircuitOpen -> openedAt b + OpenCooldown (options b) <= now) ->
  exists b' c, Acquire now b = (b', Some c).
Proof.
  intros Hp Hs Hmax Hopen. unfold Acquire, transitionOpenToHalfOpen. time_unfold.
  destruct (state b) eqn:Est; simpl.
  - rewrite Est. eauto.
  - rewrite (proj2 (Z.ltb_ge _ _)) by auto. simpl. rewrite (proj2 (Z.leb_gt _ _)) by done. eauto.
  - rewrite Est, Hs, Hp, (proj2 (Z.leb_gt _ _)) by done. simpl. eauto.
Qed.

(** A snapshot right after an acquisition sees its state and generation. *)
Lemma acquire_snapshot now b b1 b2 o s :
  Acquire now b = (b1, o) -> TakeSnapshot now b1 = (b2, s) ->
  Snapshot_Generation s = generation b1 /\ Snapshot_State s = state b1 /\
  match o with
  | Some c => c_generation c = generation b1 /\ c_probe c = bool_decide (state b1 = CircuitHalfOpen)
  | None => state b1 <> CircuitClosed
  end.
Proof.
  intros HA Hs.
  assert (Hstay : transitionOpenToHalfOpen now b1 = b1 /\
    match o with
    | Some c => c_generation c = generation b1 /\ c_probe c = bool_decide (state b1 = CircuitHalfOpen)
    | None => state b1 <> CircuitClosed
    end).
  { unfold Acquire in HA. remember (transitionOpenToHalfOpen now b) as b0 eqn:Eb0.
    destruct (state b0) eqn:Est; [| |destruct (_ || _)]; injection HA as <- <-; simpl; rewrite ?Est;
      try (split; [apply transition_stay; simpl; rewrite ?Est; done|done]).
    split; [|done]. rewrite Eb0 in Est |- *. revert Est. unfold transitionOpenToHalfOpen.
    destruct (negb _ || _) eqn:E; [|done]. intros _. by rewrite E. }
  destruct Hstay as [Hstay Ho]. unfold TakeSnapshot in Hs. rewrite Hstay in Hs.
  remember (if bool_decide (state b1 = CircuitClosed) then pruneFailures now b1 else b1) as b3 eqn:Eb3.
  assert (generation b3 = generation b1 /\ state b3 = state b1) as [Eg Es]
    by (rewrite Eb3; destruct (bool_decide _); done).
  injection Hs as _ <-. split_and!; [exact Eg|exact Es|exact Ho].
Qed.

Lemma step_options s s' : step s s' -> options (breaker s') = options (breaker s).
Proof.
  destruct 1 as [now s b c HA|now s b HA|now s|s c outcome t before after Hout]; simpl.
  - unfold Acquire in HA. repeat split_match; simplify_eq/=; apply transition_options.
  - unfold Acquire in HA. repeat split_match; simplify_eq/=; apply transition_options.
  - case_bool_decide; simpl; apply transition_options.
  - apply complete_options.
Qed.

Lemma reach_options o n s : reach o n s -> options (breaker s) = o.
Proof.
  induction 1 as [b Hb|n s s' Hr IH Hs].
  - unfold New in Hb. by repeat split_match; simplify_eq/=.
  - by rewrite (step_options s s').
Qed.

(** Either nothing about the epoch changes, or a new generation starts. *)
Definition same_epoch (b b' : Breaker) : Prop :=
  (generation b' = generation b /\ state b' = state b) \/
  generation b' = next_generation (generation b).

Lemma transition_epoch now b : same_epoch b (transitionOpenToHalfOpen now b).
Proof. unfold transitionOpenToHalfOpen. split_match; [by left|by right]. Qed.

Lemma complete_epoch c outcome t b : same_epoch b (complete c outcome t b).
Proof.
  unfold complete, completeProbe, recordFailure. simpl.
  repeat (split_match; simpl in *); simplify_eq/=; first [by left|by right].
Qed.

Lemma acquire_epoch now b b' c : Acquire now b = (b', c) -> same_epoch b b'.
Proof.
  intros HA. pose proof (transition_epoch now b) as He. unfold Acquire in HA.
  unfold same_epoch in *. destruct (transitionOpenToHalfOpen now b) as [? [] ? ? ? ? []];
    simpl in *; repeat split_match; simplify_eq/=; exact He.
Qed.

Lemma step_epoch s s' : step s s' -> same_epoch (breaker s) (breaker s').
Proof.
  destruct 1 as [now s b c HA|now s b HA|now s|s c outcome t before after Hout]; simpl.
  - by eapply acquire_epoch.
  - by eapply acquire_epoch.
  - pose proof (transition_epoch now (breaker s)). by case_bool_decide.
  - apply complete_epoch.
Qed.

Lemma nsteps_generation o n s k s' :
  reach o n s -> nsteps step k s s' -> Z.of_nat (n + k) < 2 ^ 64 ->
  reach o (n + k) s' /\ generation (breaker s) <= generation (breaker s') /\
  (state (breaker s) <> state (breaker s') -> generation (breaker s) < generation (breaker s')).
Proof.
  intros Hr Hk. revert n Hr. induction Hk as [s|k s s1 s2 Hs Hk IH]; intros n Hr Hb.
  - rewrite Nat.add_0_r. split_and!; [done|lia|done].
  - assert (Hr1 : reach o (S n) s1) by (by econstructor).
    destruct (IH (S n) Hr1 ltac:(lia)) as (Hr2 & Hg & Hst).
    replace (n + S k)%nat with (S n + k)%nat by lia.
    pose proof (ok_generation _ _ (reach_ok o n s Hr ltac:(lia))) as Hgen.
    destruct (step_epoch s s1 Hs) as [[E1 E2]|E].
    + rewrite E1, E2 in *. split_and!; auto.
    + rewrite (next_generation_small _ (Z.of_nat n)) in E by lia.
      split_and!; [done|lia|lia].
Qed.

Lemma latest_of_spec f l :
  latest_of f l ∈ f :: l /\ forall x, x ∈ f :: l -> x <= latest_of f l.
Proof.
  revert f. induction l as [|y l IH]; intros f; simpl.
  - split; [left|]. intros x ->%list_elem_of_singleton. done.
  - set (g := if GoTime.After y f then y else f).
    destruct (IH g) as [Hin Hmax]. unfold latest_of in *. fold g. split.
    + unfold g in *. time_unfold. split_match; rewrite !elem_of_cons in *; tauto.
    + pose proof (Hmax g ltac:(left)). intros x Hx.
      assert (f <= g /\ y <= g) by (unfold g; time_unfold; split_match; b2p; lia).
      apply elem_of_cons in Hx as [->|Hx]; [lia|].
      apply elem_of_cons in Hx as [->|Hx]; [lia|]. apply Hmax. by right.
Qed.

(** ** Properties *)

(** C17. In every execution from [New] the breaker's probe counter is exactly the
    number of probe completions of the current generation still outstanding; it
    never exceeds [HalfOpenMaxProbes], and outside the half-open state it is 0. *)
Theorem breaker_probe_accounting o n s :
  reach o n s -> Z.of_nat n < 2 ^ 64 ->
  probesInFlight (breaker s) = probes_out s /\
  probes_out s <= HalfOpenMaxProbes o /\
  (state (breaker s) <> CircuitHalfOpen -> probes_out s = 0).
Proof.
  intros Hr Hn. pose proof (reach_ok o n s Hr Hn) as Hok.
  rewrite <- (reach_options o n s Hr). destruct Hok. split_and!; try done; [lia|].
  intros Hne. unfold probes_out. rewrite (elem_of_nil_inv (filter _ _)); [done|].
  intros c Hc. apply list_elem_of_filter in Hc as [[Hp Hg] Hc].
  rewrite (ok_kind0 c Hc Hg), Hp in Hne. done.
Qed.

Definition demo_options : Options :=
  {| FailureThreshold := 2; FailureWindow := 10; OpenCooldown := 5; HalfOpenMaxProbes := 1 |}.

Definition demo_breaker : Breaker :=
  {| options := demo_options; state := CircuitClosed; generation := 0; failures := [];
     openedAt := 0; probesInFlight := 0; halfOpenSucceeded := false |}.

(** Two failures open the circuit at 2; a probe is admitted at 7, a second one
    is refused. *)
Definition demo_run : list Op :=
  [OpAcquire 1; OpAcquire 1; OpComplete 0 InferenceFailure 2; OpComplete 0 InferenceFailure 2;
   OpAcquire 3; OpAcquire 7; OpAcquire 8].

Definition demo_system : System := foldl exec {| breaker := demo_breaker; outstanding := [] |} demo_run.

Lemma breaker_probe_accounting_witness :
  state (breaker demo_system) = CircuitHalfOpen /\ probes_out demo_system = 1 /\
  probesInFlight (breaker demo_system) = probes_out demo_system.
Proof.
  split; [reflexivity|]. split; [reflexivity|].
  apply (breaker_probe_accounting demo_options 7 demo_system); [|reflexivity].
  apply (exec_reach demo_options demo_breaker demo_run). reflexivity.
Defined.

(** C22. The breaker never wedges: in every reachable state with no probe of the
    current generation outstanding, [Acquire] succeeds as soon as the cooldown
    of an open circuit has passed, and at once otherwise. *)
Theorem breaker_readmits o n s now :
  reach o n s -> Z.of_nat n < 2 ^ 64 -> probes_out s = 0 ->
  (state (breaker s) = CircuitOpen -> openedAt (breaker s) + OpenCooldown o <= now) ->
  exists b c, Acquire now (breaker s) = (b, Some c).
Proof.
  intros Hr Hn Hp Hcool. pose proof (reach_ok o n s Hr Hn) as Hok.
  rewrite <- (reach_options o n s Hr) in Hcool. destruct Hok.
  unfold Acquire, transitionOpenToHalfOpen.
  destruct (state (breaker s)) eqn:Est; simpl; rewrite ?Est; simpl.
  - eauto.
  - specialize (Hcool eq_refl). time_unfold.
    rewrite (proj2 (Z.ltb_ge now _)) by lia. simpl.
    rewrite (proj2 (Z.leb_gt _ 0)) by lia. eauto.
  - destruct (halfOpenSucceeded (breaker s)) eqn:Hs.
    + destruct (ok_succeeded0 eq_refl). lia.
    + simpl. rewrite (proj2 (Z.leb_gt _ _)) by lia. eauto.
Qed.

Definition demo_open : System :=
  foldl exec {| breaker := demo_breaker; outstanding := [] |} (take 4 demo_run).

Lemma breaker_readmits_witness :
  state (breaker demo_open) = CircuitOpen /\
  exists b c, Acquire 7 (breaker demo_open) = (b, Some c).
Proof.
  split; [reflexivity|]. apply (breaker_readmits demo_options 4 demo_open 7).
  - apply (exec_reach demo_options demo_breaker (take 4 demo_run)). reflexivity.
  - reflexivity.
  - reflexivity.
  - intros _. vm_compute. discriminate.
Defined.

(** A failed request on a closed circuit: with [latest] the latest of the
    recorded failures and this one, the failures kept are those no older than
    [FailureWindow] before [latest]; the circuit opens, dated [latest], exactly
    when at least [FailureThreshold] remain, and otherwise only the list of
    failures changes. *)
Theorem breaker_trips_on_threshold b c t :
  c_generation c = generation b -> c_probe c = false -> state b = CircuitClosed ->
  exists latest,
    latest ∈ failures b ++ [t] /\ (forall f, f ∈ failures b ++ [t] -> f <= latest) /\
    let recent := filter (fun f => latest - FailureWindow (options b) <= f) (failures b ++ [t]) in
    complete c InferenceFailure t b =
      if decide (FailureThreshold (options b) <= Z.of_nat (length recent))
      then {| b with state := CircuitOpen; generation := next_generation (generation b);
              failures := recent; openedAt := latest; probesInFlight := 0;
              halfOpenSucceeded := false |}
      else {| b with failures := recent |}.
Proof.
  intros Hg Hp Hst. unfold complete, recordFailure.
  rewrite Hg, Z.eqb_refl, Hp, (bool_decide_eq_true_2 _ Hst). simpl.
  destruct (failures b ++ [t]) as [|f rest] eqn:Efs; [by destruct (failures b)|].
  destruct (latest_of_spec f rest) as [Hin Hmax].
  exists (latest_of f rest). split_and!; [done|done|].
  assert (Hkeep : keep_failures (GoTime.Add (latest_of f rest) (- FailureWindow (options b))) (f :: rest)
    = filter (fun x => latest_of f rest - FailureWindow (options b) <= x) (f :: rest)).
  { apply list_filter_iff. intros x. time_unfold. rewrite Z.ltb_ge. lia. }
  unfold pruneFailures. simpl options. simpl failures. rewrite Hkeep.
  destruct (FailureThreshold (options b) <=? _) eqn:E; b2p; case_decide; try lia; done.
Qed.

Lemma breaker_trips_on_threshold_witness :
  exists latest, latest = 9 /\
    complete {| c_generation := 0; c_probe := false |} InferenceFailure 3
      {| demo_breaker with failures := [9] |} =
    {| demo_breaker with state := CircuitOpen; generation := 1; failures := [9; 3]; openedAt := latest |}.
Proof.
  destruct (breaker_trips_on_threshold {| demo_breaker with failures := [9] |}
    {| c_generation := 0; c_probe := false |} 3) as (latest & Hin & Hmax & E); try reflexivity.
  assert (latest = 9) as ->.
  { pose proof (Hmax 9 ltac:(left)). apply elem_of_cons in Hin as [->|Hin]; [done|].
    apply elem_of_cons in Hin as [->|Hin]; [|by apply elem_of_nil in Hin]. exfalso. by apply H. }
  exists 9. split; [done|]. exact E.
Defined.

(** No ABA: once the circuit has left the state a completion was handed out
    in, calling that completion later never changes the breaker, even if the
    circuit has since returned to that state. *)
Theorem breaker_ignores_stale o n k1 k2 s s1 s2 c outcome t :
  reach o n s -> c ∈ outstanding s ->
  nsteps step k1 s s1 -> state (breaker s) <> state (breaker s1) -> nsteps step k2 s1 s2 ->
  Z.of_nat (n + k1 + k2) < 2 ^ 64 ->
  complete c outcome t (breaker s2) = breaker s2.
Proof.
  intros Hr Hc H1 Hst H2 Hb.
  pose proof (ok_outstanding _ _ (reach_ok o n s Hr ltac:(lia)) c Hc) as Hle.
  destruct (nsteps_generation o n s k1 s1 Hr H1 ltac:(lia)) as (Hr1 & _ & Hlt).
  destruct (nsteps_generation o (n + k1) s1 k2 s2 Hr1 H2 ltac:(lia)) as (_ & Hle2 & _).
  specialize (Hlt Hst). unfold complete.
  destruct (Z.eqb_spec (c_generation c) (generation (breaker s2))); [lia|done].
Qed.

(** Admitted at 1 while closed, the circuit opens at 2 and half-opens at 7. *)
Lemma breaker_ignores_stale_witness :
  let c := {| c_generation := 0; c_probe := false |} in
  let s0 := foldl exec {| breaker := demo_breaker; outstanding := [] |} [OpAcquire 1; OpAcquire 1; OpAcquire 1] in
  let s1 := foldl exec s0 [OpComplete 0 InferenceFailure 2; OpComplete 0 InferenceFailure 2] in
  c ∈ outstanding s1 /\ complete c InferenceFailure 8 (breaker (exec s1 (OpAcquire 7)))
    = breaker (exec s1 (OpAcquire 7)).
Proof.
  intros c s0 s1. split; [left|].
  apply (breaker_ignores_stale demo_options 3 2 1 s0 s1 (exec s1 (OpAcquire 7)) c).
  - apply (exec_reach demo_options demo_breaker [OpAcquire 1; OpAcquire 1; OpAcquire 1]). reflexivity.
  - left.
  - eapply nsteps_l; [apply (exec_step s0 (OpComplete 0 InferenceFailure 2))|].
    eapply nsteps_l; [apply (exec_step _ (OpComplete 0 InferenceFailure 2))|]. apply nsteps_O.
  - vm_compute. discriminate.
  - eapply nsteps_l; [apply (exec_step s1 (OpAcquire 7))|]. apply nsteps_O.
  - reflexivity.
Defined.
