(* ===== verification/Coordination.v ===== *)
(** The contract types shared by the coordinators, the lease manager and the
    gateway ([src/internal/coordination/types.go]), and the retry estimate of an
    exhausted rate bucket ([src/internal/coordination/rate.go]). *)

From S2P Require Import Prelude Domain Float64.

(** A Go [error] value; [context.Err()] is [option GoError]. *)
Definition GoError := string.

(** [ReasonNone] is the zero value [""]. *)
Inductive Reason :=
  | ReasonNone
  | ReasonConcurrencyExhausted
  | ReasonPoolPriorityReserve
  | ReasonRPMExhausted
  | ReasonTPMExhausted
  | ReasonStaleConfiguration
  | ReasonStaleBackend
  | ReasonCircuitOpen
  | ReasonProbeCapacityExhausted
  | ReasonCoordinationUnavailable
  | ReasonLeaseLost
  | ReasonStaleOperation
  | ReasonIdempotencyConflict.

#[global] Instance Reason_eq_dec : EqDecision Reason.
Proof. solve_decision. Defined.

(** ** Errors

    The error values of the program as the trees [errors.As] walks: an opaque
    error, the two error types of the package, an error wrapped by [fmt.Errorf]
    with [%w], and [errors.Join]. *)

Inductive Error :=
  | ErrOpaque (message : string)
  | ReasonError (reason : Reason)
  | PermanentError (err : option Error)
  | ErrWrapped (message : string) (err : Error)
  | ErrJoined (first second : Error).

(** [errors.As(err, &permanent)] *)
Fixpoint AsPermanent (err : Error) : bool :=
  match err with
  | ErrOpaque _ | ReasonError _ => false
  | PermanentError _ => true
  | ErrWrapped _ e => AsPermanent e
  | ErrJoined e1 e2 => AsPermanent e1 || AsPermanent e2
  end.

(** [errors.As(err, &reason)]: the first [ReasonError] of the tree. *)
Fixpoint AsReason (err : Error) : option Reason :=
  match err with
  | ErrOpaque _ => None
  | ReasonError r => Some r
  | PermanentError (Some e) => AsReason e
  | PermanentError None => None
  | ErrWrapped _ e => AsReason e
  | ErrJoined e1 e2 => match AsReason e1 with Some r => Some r | None => AsReason e2 end
  end.

Record Status := {
  st_Backend : string;
  st_Available : bool;
  st_Degraded : bool;
  st_Permanent : bool;
  st_LastSuccess : Time;
  st_Reason : Reason
}.

Record AdmissionRequest := {
  ar_LeaseID : UUID;
  ar_OperationStartedAt : Time;
  ar_RequestID : string;
  ar_ReplicaID : UUID;
  ar_ConfigurationRevision : Z;
  ar_APIKeyID : Z;
  ar_ClientID : Z;
  ar_PoolID : Z;
  ar_ClientPolicyRevision : Z;
  ar_EffectiveClientLimit : Z;
  ar_ConfiguredClientLimit : Z;
  ar_PoolGatewayInflightLimit : Z;
  ar_PoolHighPriorityReserve : Z;
  ar_PriorityClass : PriorityClass;
  ar_RequestsPerMinute : Z;
  ar_TokensPerMinute : Z;
  ar_LeaseTTL : Duration
}.

#[global] Instance AdmissionRequest_eq_dec : EqDecision AdmissionRequest.
Proof. solve_decision. Defined.

Record LeaseIdentity := {
  li_LeaseID : UUID;
  li_ClientID : Z;
  li_PoolID : Z;
  li_RequestID : string;
  li_ReplicaID : UUID;
  li_ExpiresAt : Time;
  li_TTL : Duration
}.

#[global] Instance LeaseIdentity_eq_dec : EqDecision LeaseIdentity.
Proof. solve_decision. Defined.

(** [AdmissionNoScope] is the zero value [""]. *)
Inductive AdmissionScope := AdmissionNoScope | AdmissionClientScope | AdmissionPoolScope.

#[global] Instance AdmissionScope_eq_dec : EqDecision AdmissionScope.
Proof. solve_decision. Defined.

Record AdmissionDecision := {
  ad_Lease : option LeaseIdentity;
  ad_Reason : Reason;
  ad_RetryAt : option Time;
  ad_ConcurrencyScope : AdmissionScope
}.

Definition refused (r : Reason) : AdmissionDecision :=
  {| ad_Lease := None; ad_Reason := r; ad_RetryAt := None; ad_ConcurrencyScope := AdmissionNoScope |}.

Definition granted (l : LeaseIdentity) : AdmissionDecision :=
  {| ad_Lease := Some l; ad_Reason := ReasonNone; ad_RetryAt := None;
     ad_ConcurrencyScope := AdmissionNoScope |}.

(** [func (d AdmissionDecision) Admitted() bool] *)
Definition isAdmitted (d : AdmissionDecision) : bool :=
  match ad_Lease d with Some _ => bool_decide (ad_Reason d = ReasonNone) | None => false end.

Record RenewResult := {
  rr_Lease : LeaseIdentity;
  rr_Reason : Reason
}.

Record TokenUsage := {
  tu_InputTokens : Z;
  tu_OutputTokens : Z;
  tu_CacheReadTokens : Z
}.

(** [func (u TokenUsage) Valid() bool] *)
Definition TokenUsage_Valid (u : TokenUsage) : bool :=
  (0 <=? tu_InputTokens u) && (0 <=? tu_OutputTokens u) && (0 <=? tu_CacheReadTokens u) &&
  (tu_CacheReadTokens u <=? tu_InputTokens u).

Record LeaseCompletion := {
  lc_Lease : LeaseIdentity;
  lc_Usage : option TokenUsage
}.

#[global] Instance CompletionUsage_eq_dec : EqDecision TokenUsage.
Proof. solve_decision. Defined.
#[global] Instance LeaseCompletion_eq_dec : EqDecision LeaseCompletion.
Proof. solve_decision. Defined.

(** [CompletionNone] is the zero value [""]. *)
Inductive CompletionResult :=
  CompletionNone | CompletionReleased | CompletionLeaseLost | CompletionAlreadyCompleted.

#[global] Instance CompletionResult_eq_dec : EqDecision CompletionResult.
Proof. solve_decision. Defined.

Record CompleteResult := {
  cr_LeaseID : UUID;
  cr_Result : CompletionResult;
  cr_OriginalResult : CompletionResult;
  cr_Reason : Reason
}.

Record ClientRatePolicy := {
  rp_ClientID : Z;
  rp_Revision : Z;
  rp_RequestsPerMinute : Z;
  rp_TokensPerMinute : Z
}.

Record BackendIdentity := {
  bi_ID : Z;
  bi_Revision : Z;
  bi_Enabled : bool;
  bi_Draining : bool
}.

#[global] Instance BackendIdentity_eq_dec : EqDecision BackendIdentity.
Proof. solve_decision. Defined.

Record CircuitSnapshot := {
  cs_Backend : BackendIdentity;
  cs_State : CircuitState;
  cs_Generation : Z;
  cs_FailureCount : Z;
  cs_RetryAt : Time;
  cs_ProbesInFlight : Z;
  cs_Available : bool
}.

Record CircuitAcquireRequest := {
  ca_AttemptID : UUID;
  ca_AcquisitionStartedAt : Time;
  ca_ReplicaID : UUID;
  ca_Backend : BackendIdentity;
  ca_ProbeTTL : Duration
}.

#[global] Instance CircuitAcquireRequest_eq_dec : EqDecision CircuitAcquireRequest.
Proof. solve_decision. Defined.

Record ProbeIdentity := {
  pi_PermitID : UUID;
  pi_Backend : BackendIdentity;
  pi_Generation : Z;
  pi_ReplicaID : UUID;
  pi_ExpiresAt : Time;
  pi_TTL : Duration
}.

(** [CircuitDecision]; [cd_Snapshot] is [None] where the source leaves the zero
    [CircuitSnapshot]. *)
Record CircuitDecision := {
  cd_Snapshot : option CircuitSnapshot;
  cd_Permit : option ProbeIdentity;
  cd_Reason : Reason
}.

Record CircuitCompletion := {
  cc_AttemptID : UUID;
  cc_Backend : BackendIdentity;
  cc_Generation : Z;
  cc_Outcome : InferenceOutcome;
  cc_ReportedOutcomeAt : Time
}.

#[global] Instance CircuitCompletion_eq_dec : EqDecision CircuitCompletion.
Proof. solve_decision. Defined.

(** [func RateRetryAt]: saturates where the delay exceeds [time.Duration]. *)
Definition RateRetryAt (balance : float64) (capacity : Z) (now : Time) : Time :=
  let delay := fmul (fdiv (fsub fone balance) (of_int capacity)) (of_int GoTime.Minute) in
  if fle (of_int GoTime.maxDuration) delay then GoTime.Add now GoTime.maxDuration
  else GoTime.Add now (trunc_to_int delay).
