(* ===== verification/LocalAdmission.v ===== *)
(** The process-local admission coordinator
    ([src/internal/coordination/local/admission.go]): idempotent lease
    acquisition with client, pool and priority-reserve limits and RPM/TPM token
    buckets, renewal, exactly-once completion, and expiry.

    [AdmissionCoordinator] is the struct without its mutex and clock.  Every
    method takes the clock reading as [now] and runs under the mutex, so it is
    one function on the state; [None] is a run-time panic (a nil receipt in
    [removeLease]) or exhausted loop fuel, and the invariant [wf] shows that
    neither happens.  The SHA-256 fingerprint of the encoded request is a
    parameter: any function of the request. *)

From S2P Require Import Prelude Domain Float64 Coordination ExpiryQueue.

Definition defaultLocalAdmissionReceiptCapacity : Z := 65536.

Record rateState := {
  rs_revision : Z;
  rs_capacity : Z;
  rs_balance : float64;
  rs_at : Time
}.

Record ratePolicy := {
  pol_revision : Z;
  pol_rpm : Z;
  pol_tpm : Z
}.

Definition retentionBoundary (operationStarted terminal : Time) : Time :=
  GoTime.Add (if GoTime.After operationStarted terminal then operationStarted else terminal)
    receiptRetention.

(** [class != PriorityHigh && class != PriorityCritical] *)
Definition lower_class (p : PriorityClass) : bool :=
  negb (bool_decide (p = PriorityHigh)) && negb (bool_decide (p = PriorityCritical)).

Section LocalAdmission.
Context {FP : Type} `{!EqDecision FP} (fingerprint : AdmissionRequest -> FP).

Record admissionReceipt := {
  rc_fingerprint : FP;
  rc_decision : AdmissionDecision;
  rc_completed : bool;
  rc_completion : CompletionResult;
  rc_request : AdmissionRequest;
  rc_expired : bool;
  rc_retainUntil : Time
}.

Record AdmissionCoordinator := {
  receipts : gmap UUID admissionReceipt;
  leases : gmap UUID LeaseIdentity;
  expiries : expiryQueue;
  terminalExpiries : expiryQueue;
  clientInflight : gmap Z Z;
  poolInflight : gmap Z Z;
  poolLowerInflight : gmap Z Z;
  receiptCapacity : Z;
  rates : gmap Z (gmap string rateState);
  policies : gmap Z ratePolicy
}.

Implicit Types (c : AdmissionCoordinator) (id : UUID) (now : Time).

Definition newAdmissionCoordinator (capacity : Z) : AdmissionCoordinator :=
  {| receipts := ∅; leases := ∅; expiries := []; terminalExpiries := [];
     clientInflight := ∅; poolInflight := ∅; poolLowerInflight := ∅;
     receiptCapacity := if capacity <=? 0 then defaultLocalAdmissionReceiptCapacity else capacity;
     rates := ∅; policies := ∅ |}.

(** ** Leases *)

Definition removeLease (c : AdmissionCoordinator) (id : UUID) : option AdmissionCoordinator :=
  match leases c !! id with
  | None => Some c
  | Some lease =>
    receipt ← receipts c !! id;
    Some {| c with leases := delete id (leases c);
            poolLowerInflight :=
              if lower_class (ar_PriorityClass (rc_request receipt))
              then mdecr (poolLowerInflight c) (li_PoolID lease) else poolLowerInflight c;
            clientInflight := mdecr (clientInflight c) (li_ClientID lease);
            poolInflight := mdecr (poolInflight c) (li_PoolID lease) |}
  end.

(** The body of the first loop of [expire]. *)
Definition expire_lease (now : Time) (c : AdmissionCoordinator) (expiry : expiryEntry)
    : option AdmissionCoordinator :=
  match ee_kind expiry with
  | admissionLeaseExpiry =>
    match leases c !! ee_id expiry with
    | None => Some c
    | Some lease =>
      if negb (GoTime.Equal (li_ExpiresAt lease) (ee_at expiry)) || GoTime.After (li_ExpiresAt lease) now
      then Some c
      else
        c ← removeLease c (ee_id expiry);
        match receipts c !! ee_id expiry with
        | Some receipt =>
          if rc_completed receipt then Some c
          else
            let retain := retentionBoundary (ar_OperationStartedAt (rc_request receipt)) now in
            Some {| c with
              receipts := <[ee_id expiry := {| receipt with rc_expired := true; rc_retainUntil := retain |}]>
                            (receipts c);
              terminalExpiries := add (terminalExpiries c) admissionReceiptExpiry (ee_id expiry) retain |}
        | None => Some c
        end
    end
  | _ => Some c
  end.

(** The body of the second loop of [expire]. *)
Definition expire_receipt (now : Time) (c : AdmissionCoordinator) (expiry : expiryEntry)
    : option AdmissionCoordinator :=
  match receipts c !! ee_id expiry with
  | Some receipt =>
    if GoTime.Equal (rc_retainUntil receipt) (ee_at expiry) &&
       negb (GoTime.After (rc_retainUntil receipt) now)
    then Some {| c with receipts := delete (ee_id expiry) (receipts c) |}
    else Some c
  | None => Some c
  end.

Definition expire (now : Time) (c : AdmissionCoordinator) : option AdmissionCoordinator :=
  '(q, c) ← drain (S (length (expiries c))) now (expire_lease now) (expiries c) c;
  let c := {| c with expiries := q |} in
  '(q, c) ← drain (S (length (terminalExpiries c))) now (expire_receipt now) (terminalExpiries c) c;
  Some {| c with terminalExpiries := q |}.

(** ** Receipt capacity *)

Fixpoint hasTerminalReceipt_loop (fuel : nat) (c : AdmissionCoordinator)
    : option (AdmissionCoordinator * bool) :=
  match fuel with
  | O => None
  | S fuel =>
    match head (terminalExpiries c) with
    | None => Some (c, false)
    | Some expiry =>
      if match receipts c !! ee_id expiry with
         | Some receipt => negb (GoTime.IsZero (rc_retainUntil receipt)) &&
                           GoTime.Equal (rc_retainUntil receipt) (ee_at expiry)
         | None => false
         end
      then Some (c, true)
      else
        hasTerminalReceipt_loop fuel
          {| c with terminalExpiries := from_option snd [] (popOldest (terminalExpiries c)) |}
    end
  end.

Definition hasTerminalReceipt (c : AdmissionCoordinator) : option (AdmissionCoordinator * bool) :=
  hasTerminalReceipt_loop (S (length (terminalExpiries c))) c.

Fixpoint makeReceiptRoom_loop (fuel : nat) (c : AdmissionCoordinator)
    : option (AdmissionCoordinator * bool) :=
  match fuel with
  | O => None
  | S fuel =>
    if receiptCapacity c <=? Z.of_nat (size (receipts c)) then
      '(c, terminal) ← hasTerminalReceipt c;
      if negb terminal then Some (c, false)
      else
        match popOldest (terminalExpiries c) with
        | None => Some (c, false)
        | Some (expiry, q) =>
          makeReceiptRoom_loop fuel
            {| c with terminalExpiries := q; receipts := delete (ee_id expiry) (receipts c) |}
        end
    else Some (c, true)
  end.

Definition makeReceiptRoom (c : AdmissionCoordinator) : option (AdmissionCoordinator * bool) :=
  makeReceiptRoom_loop (S (length (terminalExpiries c))) c.

(** ** Rate policies and buckets *)

Definition observeClientRatePolicy (candidate : ClientRatePolicy) (c : AdmissionCoordinator)
    : AdmissionCoordinator * ratePolicy :=
  let fresh := {| pol_revision := rp_Revision candidate; pol_rpm := rp_RequestsPerMinute candidate;
                  pol_tpm := rp_TokensPerMinute candidate |} in
  match policies c !! rp_ClientID candidate with
  | Some policy =>
    if pol_revision policy <? rp_Revision candidate
    then ({| c with policies := <[rp_ClientID candidate := fresh]> (policies c) |}, fresh)
    else (c, policy)
  | None => ({| c with policies := <[rp_ClientID candidate := fresh]> (policies c) |}, fresh)
  end.

Definition observeRatePolicy (req : AdmissionRequest) (c : AdmissionCoordinator)
    : AdmissionCoordinator * ratePolicy :=
  observeClientRatePolicy
    {| rp_ClientID := ar_ClientID req; rp_Revision := ar_ClientPolicyRevision req;
       rp_RequestsPerMinute := ar_RequestsPerMinute req; rp_TokensPerMinute := ar_TokensPerMinute req |} c.

Definition set_rate (clientID : Z) (kind : string) (s : rateState) (c : AdmissionCoordinator)
    : AdmissionCoordinator :=
  {| c with rates := <[clientID := <[kind := s]> (default ∅ (rates c !! clientID))]> (rates c) |}.

(** [func normalized]: the bucket of a client and kind, created full when there
    is none or the policy changed, refilled for the elapsed time otherwise.  The
    result is also stored, since the source returns the map's own pointer. *)
Definition normalized (clientID : Z) (kind : string) (revision capacity : Z) (now : Time)
    (c : AdmissionCoordinator) : AdmissionCoordinator * rateState :=
  let s :=
    match default ∅ (rates c !! clientID) !! kind with
    | Some s =>
      if negb (rs_revision s =? revision) || negb (rs_capacity s =? capacity) then
        {| rs_revision := revision; rs_capacity := capacity; rs_balance := of_int capacity; rs_at := now |}
      else
        let elapsed := Seconds (GoTime.Sub now (rs_at s)) in
        if flt fzero elapsed then
          let balance := fadd (rs_balance s) (fdiv (fmul elapsed (of_int capacity)) (of_int 60)) in
          let balance := if flt (of_int capacity) balance then of_int capacity else balance in
          {| s with rs_balance := balance; rs_at := now |}
        else s
    | None =>
      {| rs_revision := revision; rs_capacity := capacity; rs_balance := of_int capacity; rs_at := now |}
    end in
  (set_rate clientID kind s c, s).

(** ** Acquire *)

(** The [reject] closure of [Acquire]: it stores the decision in the receipt,
    which becomes terminal. *)
Definition reject (now : Time) (req : AdmissionRequest) (reason : Reason) (retry : option Time)
    (scope : option AdmissionScope) (c : AdmissionCoordinator)
    : AdmissionCoordinator * AdmissionDecision :=
  let d := {| ad_Lease := None; ad_Reason := reason; ad_RetryAt := retry;
              ad_ConcurrencyScope :=
                if bool_decide (reason = ReasonConcurrencyExhausted)
                then default AdmissionClientScope scope else AdmissionNoScope |} in
  let retain := retentionBoundary (ar_OperationStartedAt req) now in
  let receipt := {| rc_fingerprint := fingerprint req; rc_decision := d; rc_completed := false;
                    rc_completion := CompletionNone; rc_request := req; rc_expired := false;
                    rc_retainUntil := retain |} in
  ({| c with receipts := <[ar_LeaseID req := receipt]> (receipts c);
      terminalExpiries := add (terminalExpiries c) admissionReceiptExpiry (ar_LeaseID req) retain |}, d).

(** The end of [Acquire]: the lease, the counters, its expiry and the receipt. *)
Definition grant (now : Time) (req : AdmissionRequest) (c : AdmissionCoordinator)
    : AdmissionCoordinator * AdmissionDecision :=
  let lease := {| li_LeaseID := ar_LeaseID req; li_ClientID := ar_ClientID req;
                  li_PoolID := ar_PoolID req; li_RequestID := ar_RequestID req;
                  li_ReplicaID := ar_ReplicaID req; li_ExpiresAt := GoTime.Add now (ar_LeaseTTL req);
                  li_TTL := ar_LeaseTTL req |} in
  let receipt := {| rc_fingerprint := fingerprint req; rc_decision := granted lease;
                    rc_completed := false; rc_completion := CompletionNone; rc_request := req;
                    rc_expired := false; rc_retainUntil := GoTime.zero |} in
  ({| c with receipts := <[ar_LeaseID req := receipt]> (receipts c);
      leases := <[ar_LeaseID req := lease]> (leases c);
      clientInflight := mincr (clientInflight c) (li_ClientID lease);
      poolInflight := mincr (poolInflight c) (li_PoolID lease);
      poolLowerInflight :=
        if lower_class (ar_PriorityClass req)
        then mincr (poolLowerInflight c) (li_PoolID lease) else poolLowerInflight c;
      expiries := add (expiries c) admissionLeaseExpiry (li_LeaseID lease) (li_ExpiresAt lease) |},
   granted lease).

Definition bad_reserve (req : AdmissionRequest) : bool :=
  (ar_PoolHighPriorityReserve req <? 0) ||
  ((0 <? ar_PoolHighPriorityReserve req) &&
   ((ar_PoolGatewayInflightLimit req <=? 0) ||
    (ar_PoolGatewayInflightLimit req <? ar_PoolHighPriorityReserve req) ||
    negb (PriorityClass_Valid (ar_PriorityClass req)))) ||
  (negb (bool_decide (ar_PriorityClass req = ""%string)) &&
   negb (PriorityClass_Valid (ar_PriorityClass req))).

(** The buckets of [Acquire], TPM first. *)
Definition take_rates (now : Time) (req : AdmissionRequest) (policy : ratePolicy)
    (c : AdmissionCoordinator) : AdmissionCoordinator * AdmissionDecision :=
  let '(c, tpm) := normalized (ar_ClientID req) "tpm" (pol_revision policy)
                     (if 0 <? pol_tpm policy then pol_tpm policy else 0) now c in
  if (0 <? pol_tpm policy) && flt (rs_balance tpm) fone then
    reject now req ReasonTPMExhausted (Some (RateRetryAt (rs_balance tpm) (pol_tpm policy) now)) None c
  else
    let '(c, rpm) := normalized (ar_ClientID req) "rpm" (pol_revision policy)
                       (if 0 <? pol_rpm policy then pol_rpm policy else 0) now c in
    if 0 <? pol_rpm policy then
      if flt (rs_balance rpm) fone then
        reject now req ReasonRPMExhausted (Some (RateRetryAt (rs_balance rpm) (pol_rpm policy) now)) None c
      else
        grant now req
          (set_rate (ar_ClientID req) "rpm" {| rpm with rs_balance := fsub (rs_balance rpm) fone |} c)
    else grant now req c.

(** [Acquire] after the receipt lookup missed and room was made. *)
Definition decide_admission (now : Time) (req : AdmissionRequest) (c : AdmissionCoordinator)
    : AdmissionCoordinator * AdmissionDecision :=
  if stale_operation now (ar_OperationStartedAt req) then
    reject now req ReasonStaleOperation None None c
  else if bad_reserve req then reject now req ReasonStaleConfiguration None None c
  else
    let '(c, policy) := observeRatePolicy req c in
    if (ar_EffectiveClientLimit req <=? 0) ||
       (ar_ConfiguredClientLimit req <? ar_EffectiveClientLimit req) then
      reject now req ReasonConcurrencyExhausted None None c
    else if (0 <? ar_PoolGatewayInflightLimit req) &&
            (ar_PoolGatewayInflightLimit req <=? mget (poolInflight c) (ar_PoolID req)) then
      reject now req ReasonConcurrencyExhausted None (Some AdmissionPoolScope) c
    else if (0 <? ar_PoolHighPriorityReserve req) && lower_class (ar_PriorityClass req) &&
            (ar_PoolGatewayInflightLimit req - ar_PoolHighPriorityReserve req <=?
             mget (poolLowerInflight c) (ar_PoolID req)) then
      reject now req ReasonPoolPriorityReserve None None c
    else if ar_EffectiveClientLimit req <=? mget (clientInflight c) (ar_ClientID req) then
      reject now req ReasonConcurrencyExhausted None None c
    else take_rates now req policy c.

(** The replay of a request whose lease ID already has a receipt. *)
Definition replay (now : Time) (req : AdmissionRequest) (old : admissionReceipt)
    (c : AdmissionCoordinator) : AdmissionDecision :=
  if negb (bool_decide (rc_fingerprint old = fingerprint req)) then refused ReasonIdempotencyConflict
  else if rc_completed old || rc_expired old then refused ReasonLeaseLost
  else
    match ad_Lease (rc_decision old) with
    | Some _ =>
      match leases c !! ar_LeaseID req with
      | Some lease => if GoTime.After (li_ExpiresAt lease) now then granted lease else refused ReasonLeaseLost
      | None => refused ReasonLeaseLost
      end
    | None => rc_decision old
    end.

Definition Acquire (ctx : option GoError) (now : Time) (req : AdmissionRequest)
    (c : AdmissionCoordinator) : option (AdmissionCoordinator * (GoError + AdmissionDecision)) :=
  match ctx with
  | Some err => Some (c, inl err)
  | None =>
    c ← expire now c;
    match receipts c !! ar_LeaseID req with
    | Some old => Some (c, inr (replay now req old c))
    | None =>
      '(c, room) ← makeReceiptRoom c;
      if negb room then Some (c, inr (refused ReasonCoordinationUnavailable))
      else let '(c, d) := decide_admission now req c in Some (c, inr d)
    end
  end.

(** ** Renew *)

Definition renew_one (now : Time) (want : LeaseIdentity) (c : AdmissionCoordinator)
    : option (AdmissionCoordinator * RenewResult) :=
  let lost := {| rr_Lease := want; rr_Reason := ReasonLeaseLost |} in
  match leases c !! li_LeaseID want with
  | Some got =>
    if negb (li_ClientID got =? li_ClientID want) || negb (li_PoolID got =? li_PoolID want) ||
       negb (GoTime.After (li_ExpiresAt got) now)
    then c ← removeLease c (li_LeaseID want); Some (c, lost)
    else
      let ttl := if li_TTL got <=? 0 then li_TTL want else li_TTL got in
      if ttl <=? 0 then Some (c, lost)
      else
        let got := {| got with li_ExpiresAt := GoTime.Add now ttl |} in
        Some ({| c with leases := <[li_LeaseID want := got]> (leases c);
                 expiries := add (expiries c) admissionLeaseExpiry (li_LeaseID got) (li_ExpiresAt got) |},
              {| rr_Lease := got; rr_Reason := ReasonNone |})
  | None => c ← removeLease c (li_LeaseID want); Some (c, lost)
  end.

Fixpoint renew_all (now : Time) (wants : list LeaseIdentity) (c : AdmissionCoordinator)
    : option (AdmissionCoordinator * list RenewResult) :=
  match wants with
  | [] => Some (c, [])
  | want :: wants =>
    '(c, r) ← renew_one now want c;
    '(c, rs) ← renew_all now wants c;
    Some (c, r :: rs)
  end.

Definition Renew (ctx : option GoError) (now : Time) (wants : list LeaseIdentity)
    (c : AdmissionCoordinator) : option (AdmissionCoordinator * (GoError + list RenewResult)) :=
  match ctx with
  | Some err => Some (c, inl err)
  | None =>
    c ← expire now c;
    '(c, rs) ← renew_all now wants c;
    Some (c, inr rs)
  end.

(** ** Complete *)

(** The token charge of a completion with valid usage. *)
Definition charge_usage (now : Time) (request : AdmissionRequest) (usage : TokenUsage)
    (c : AdmissionCoordinator) : AdmissionCoordinator :=
  let policy :=
    default {| pol_revision := ar_ClientPolicyRevision request; pol_rpm := ar_RequestsPerMinute request;
               pol_tpm := ar_TokensPerMinute request |} (policies c !! ar_ClientID request) in
  let '(c, s) := normalized (ar_ClientID request) "tpm" (pol_revision policy) (pol_tpm policy) now c in
  if 0 <? pol_tpm policy then
    set_rate (ar_ClientID request) "tpm"
      {| s with rs_balance :=
           fsub (rs_balance s) (fadd (of_int (tu_InputTokens usage)) (of_int (tu_OutputTokens usage))) |} c
  else c.

Definition complete_one (now : Time) (item : LeaseCompletion) (c : AdmissionCoordinator)
    : option (AdmissionCoordinator * CompleteResult) :=
  let id := li_LeaseID (lc_Lease item) in
  let result r o reason :=
    {| cr_LeaseID := id; cr_Result := r; cr_OriginalResult := o; cr_Reason := reason |} in
  match receipts c !! id with
  | None => Some (c, result CompletionNone CompletionNone ReasonStaleOperation)
  | Some rec =>
    match ad_Lease (rc_decision rec) with
    | None => Some (c, result CompletionLeaseLost CompletionNone ReasonLeaseLost)
    | Some _ =>
      if rc_completed rec then
        Some (c, result CompletionAlreadyCompleted (rc_completion rec) ReasonNone)
      else
        let active :=
          match leases c !! id with
          | Some lease =>
            (li_ClientID lease =? ar_ClientID (rc_request rec)) &&
            (li_PoolID lease =? ar_PoolID (rc_request rec)) && GoTime.After (li_ExpiresAt lease) now
          | None => false
          end in
        c ← removeLease c id;
        let c :=
          match lc_Usage item with
          | Some usage => if TokenUsage_Valid usage then charge_usage now (rc_request rec) usage c else c
          | None => c
          end in
        let res := if active then CompletionReleased else CompletionLeaseLost in
        let retain := retentionBoundary (ar_OperationStartedAt (rc_request rec)) now in
        Some ({| c with
                 receipts := <[id := {| rec with rc_completed := true; rc_completion := res;
                                        rc_retainUntil := retain |}]> (receipts c);
                 terminalExpiries := add (terminalExpiries c) admissionReceiptExpiry id retain |},
              result res CompletionNone ReasonNone)
    end
  end.

Fixpoint complete_all (now : Time) (items : list LeaseCompletion) (c : AdmissionCoordinator)
    : option (AdmissionCoordinator * list CompleteResult) :=
  match items with
  | [] => Some (c, [])
  | item :: items =>
    '(c, r) ← complete_one now item c;
    '(c, rs) ← complete_all now items c;
    Some (c, r :: rs)
  end.

Definition Complete (ctx : option GoError) (now : Time) (items : list LeaseCompletion)
    (c : AdmissionCoordinator) : option (AdmissionCoordinator * (GoError + list CompleteResult)) :=
  match ctx with
  | Some err => Some (c, inl err)
  | None =>
    c ← expire now c;
    '(c, rs) ← complete_all now items c;
    Some (c, inr rs)
  end.

(** ** The remaining methods *)

Definition AdmissionStatus (now : Time) (c : AdmissionCoordinator) : option (AdmissionCoordinator * Status) :=
  c ← expire now c;
  '(c, available) ←
    (if Z.of_nat (size (receipts c)) <? receiptCapacity c then Some (c, true) else hasTerminalReceipt c);
  Some (c, {| st_Backend := "local"; st_Available := available; st_Degraded := false;
              st_Permanent := false; st_LastSuccess := now; st_Reason := ReasonNone |}).

Definition ObserveClientRatePolicy (policy : ClientRatePolicy) (c : AdmissionCoordinator)
    : AdmissionCoordinator := (observeClientRatePolicy policy c).1.

Definition PoolInflight (now : Time) (poolID : Z) (c : AdmissionCoordinator)
    : option (AdmissionCoordinator * Z) :=
  c ← expire now c; Some (c, mget (poolInflight c) poolID).

(** ** Invariant

    The invariant names the two queues separately from the state, since the
    loops of [expire] run while a queue is partly drained; only membership in
    the queues matters. *)

Definition lease_lower (rs : gmap UUID admissionReceipt) (id : UUID) : bool :=
  from_option (fun r => lower_class (ar_PriorityClass (rc_request r))) false (rs !! id).

Definition client_leases (c : AdmissionCoordinator) (k : Z) : Z :=
  count_if (fun _ l => li_ClientID l =? k) (leases c).
Definition pool_leases (c : AdmissionCoordinator) (k : Z) : Z :=
  count_if (fun _ l => li_PoolID l =? k) (leases c).
Definition pool_lower_leases (c : AdmissionCoordinator) (k : Z) : Z :=
  count_if (fun id l => (li_PoolID l =? k) && lease_lower (receipts c) id) (leases c).

(** A lease and its receipt: the receipt is live and names the same lease. *)
Record lease_ok (E : list expiryEntry) (id : UUID) (l : LeaseIdentity) (r : admissionReceipt) : Prop := {
  lo_id : li_LeaseID l = id;
  lo_client : li_ClientID l = ar_ClientID (rc_request r);
  lo_pool : li_PoolID l = ar_PoolID (rc_request r);
  lo_granted : is_Some (ad_Lease (rc_decision r));
  lo_completed : rc_completed r = false;
  lo_expired : rc_expired r = false;
  lo_retain : rc_retainUntil r = 0;
  lo_queued : ExpiryEntry (li_ExpiresAt l) id admissionLeaseExpiry ∈ E
}.

Record inv (E T : list expiryEntry) (c : AdmissionCoordinator) : Prop := {
  inv_lease id l : leases c !! id = Some l -> exists r, receipts c !! id = Some r /\ lease_ok E id l r;
  inv_retain id r : receipts c !! id = Some r -> rc_retainUntil r <> 0 ->
    ExpiryEntry (rc_retainUntil r) id admissionReceiptExpiry ∈ T;
  inv_terminal id r : receipts c !! id = Some r ->
    rc_completed r || rc_expired r || bool_decide (ad_Lease (rc_decision r) = None) = true ->
    rc_retainUntil r <> 0;
  inv_kind e : e ∈ E -> ee_kind e = admissionLeaseExpiry;
  inv_at e : e ∈ T -> 0 < ee_at e /\ ee_kind e = admissionReceiptExpiry;
  inv_client : counts (clientInflight c) (client_leases c);
  inv_pool : counts (poolInflight c) (pool_leases c);
  inv_lower : counts (poolLowerInflight c) (pool_lower_leases c);
  inv_capacity : 0 < receiptCapacity c;
  inv_size : Z.of_nat (size (receipts c)) <= receiptCapacity c
}.

Record wf (c : AdmissionCoordinator) : Prop := {
  wf_expiries : heap_ok (expiries c);
  wf_terminal : heap_ok (terminalExpiries c);
  wf_inv : inv (expiries c) (terminalExpiries c) c
}.

Lemma wf_new capacity : wf (newAdmissionCoordinator capacity).
Proof.
  split; [apply heap_ok_nil..|]. constructor; simpl; try (intros *; rewrite ?lookup_empty; set_solver).
  1-3: apply counts_empty; intros; apply count_if_empty.
  - repeat split_match; b2p; unfold defaultLocalAdmissionReceiptCapacity; lia.
  - rewrite map_size_empty. repeat split_match; b2p; unfold defaultLocalAdmissionReceiptCapacity; lia.
Qed.

(** The lower-class count only reads the receipts of leases. *)
Lemma lower_leases_ext (rs : gmap UUID admissionReceipt) c k :
  (forall id l, leases c !! id = Some l -> lease_lower rs id = lease_lower (receipts c) id) ->
  count_if (fun id l => (li_PoolID l =? k) && lease_lower rs id) (leases c) = pool_lower_leases c k.
Proof. intros H. apply count_if_ext. intros id l Hl. by rewrite (H id l Hl). Qed.

Lemma inv_no_receipt E T c id : inv E T c -> receipts c !! id = None -> leases c !! id = None.
Proof.
  intros Hi Hr. destruct (leases c !! id) as [l|] eqn:Hl; [|done].
  destruct (inv_lease _ _ _ Hi _ _ Hl) as (r & Hr' & _). congruence.
Qed.

(** The fields no expiry touches. *)
Definition same_rest (c c' : AdmissionCoordinator) : Prop :=
  receiptCapacity c' = receiptCapacity c /\ rates c' = rates c /\ policies c' = policies c.

(** Removing a lease releases exactly its three counters. *)
Lemma removeLease_inv E T c id :
  inv E T c ->
  exists c', removeLease c id = Some c' /\ inv E T c' /\ leases c' = delete id (leases c) /\
    receipts c' = receipts c /\ expiries c' = expiries c /\ terminalExpiries c' = terminalExpiries c /\
    same_rest c c'.
Proof.
  intros Hi. unfold removeLease. destruct (leases c !! id) as [l|] eqn:Hl.
  2: { exists c. rewrite delete_id by done. by split_and!. }
  destruct (inv_lease _ _ _ Hi _ _ Hl) as (r & Hr & Hok). rewrite Hr. simpl.
  eexists. split; [reflexivity|]. split; [|by split_and!].
  destruct Hi as [HL HR HT HK HA HC HP HW Hcap Hsz]. constructor; simpl; try done.
  - intros id' l'. rewrite lookup_delete_Some. intros [_ ?]. by apply HL.
  - eapply counts_ext; [apply (counts_mdecr _ _ _ HC)|].
    + eapply count_if_pos; [exact Hl|]. lia.
    + intros k. unfold client_leases. simpl. rewrite (count_if_delete _ _ _ _ Hl).
      case_decide; destruct (Z.eqb_spec (li_ClientID l) k); lia.
  - eapply counts_ext; [apply (counts_mdecr _ _ _ HP)|].
    + eapply count_if_pos; [exact Hl|]. lia.
    + intros k. unfold pool_leases. simpl. rewrite (count_if_delete _ _ _ _ Hl).
      case_decide; destruct (Z.eqb_spec (li_PoolID l) k); lia.
  - assert (Hlow : lease_lower (receipts c) id = lower_class (ar_PriorityClass (rc_request r)))
      by (unfold lease_lower; by rewrite Hr).
    destruct (lower_class _) eqn:Elow.
    + eapply counts_ext; [apply (counts_mdecr _ _ _ HW)|].
      * eapply count_if_pos; [exact Hl|]. simpl. rewrite Hlow. lia.
      * intros k. unfold pool_lower_leases. simpl. rewrite (count_if_delete _ _ _ _ Hl), Hlow.
        case_decide; destruct (Z.eqb_spec (li_PoolID l) k); simpl; lia.
    + eapply counts_ext; [exact HW|]. intros k. unfold pool_lower_leases. simpl.
      rewrite (count_if_delete _ _ _ _ Hl), Hlow, andb_false_r. lia.
Qed.

(** Writing a terminal receipt for an ID without lease. *)
Lemma inv_write_terminal E T T' c id r q1 q2 rt po :
  inv E T c -> leases c !! id = None -> 0 < rc_retainUntil r ->
  is_Some (receipts c !! id) \/ Z.of_nat (size (receipts c)) < receiptCapacity c ->
  (forall e, e ∈ T' <-> e = ExpiryEntry (rc_retainUntil r) id admissionReceiptExpiry \/ e ∈ T) ->
  inv E T' {| c with receipts := <[id := r]> (receipts c);
     expiries := q1; terminalExpiries := q2; rates := rt; policies := po |}.
Proof.
  intros Hi Hl Hret Hroom HT'. destruct Hi as [HL HR HT HK HA HC HP HW Hcap Hsz].
  constructor; simpl; try done.
  - intros id' l' Hl'. destruct (HL id' l' Hl') as (r' & Hr' & Hok).
    exists r'. split; [|done]. rewrite lookup_insert_ne; [done|]. congruence.
  - intros id' r'. rewrite lookup_insert_Some, HT'. intros [[<- <-]|[Hne Hr']] Hnz; [by left|].
    right. by apply HR.
  - intros id' r'. rewrite lookup_insert_Some. intros [[<- <-]|[Hne Hr']]; [lia|exact (HT id' r' Hr')].
  - intros e. rewrite HT'. intros [->|He]; [done|by apply HA].
  - eapply counts_ext; [exact HW|]. intros k. symmetry. unfold pool_lower_leases; simpl.
    apply lower_leases_ext. intros id' l' Hl'. unfold lease_lower.
    rewrite lookup_insert_ne; [done|]. congruence.
  - destruct Hroom as [[r0 Hr0]|Hroom].
    + rewrite map_size_insert, Hr0. done.
    + rewrite map_size_insert. destruct (receipts c !! id); simpl; lia.
Qed.

Lemma inv_delete_terminal E T T' c id r q1 q2 rt po :
  inv E T c -> receipts c !! id = Some r -> rc_retainUntil r <> 0 ->
  (forall e, e ∈ T' -> e ∈ T) -> (forall e, e ∈ T -> e ∈ T' \/ ee_id e = id) ->
  inv E T' {| c with receipts := delete id (receipts c);
     expiries := q1; terminalExpiries := q2; rates := rt; policies := po |}.
Proof.
  intros Hi Hr Hnz Hsub Hkeep. destruct Hi as [HL HR HT HK HA HC HP HW Hcap Hsz].
  assert (Hne : forall id' l', leases c !! id' = Some l' -> id <> id').
  { intros id' l' Hl' <-. destruct (HL id l' Hl') as (r' & Hr' & Hok).
    pose proof (lo_retain _ _ _ _ Hok). congruence. }
  constructor; simpl; try done.
  - intros id' l' Hl'. destruct (HL id' l' Hl') as (r' & Hr' & Hok).
    exists r'. split; [|done]. rewrite lookup_delete_ne; eauto.
  - intros id' r'. rewrite lookup_delete_Some. intros [Hne' Hr'] Hnz'.
    destruct (Hkeep _ (HR id' r' Hr' Hnz')) as [|E']; [done|]. simpl in E'. congruence.
  - intros id' r'. rewrite lookup_delete_Some. intros [Hne' Hr']. exact (HT id' r' Hr').
  - intros e He. apply HA, Hsub, He.
  - eapply counts_ext; [exact HW|]. intros k. symmetry. unfold pool_lower_leases; simpl.
    apply lower_leases_ext. intros id' l' Hl'. unfold lease_lower. rewrite lookup_delete_ne; eauto.
  - rewrite map_size_delete. destruct (receipts c !! id); simpl; lia.
Qed.

Lemma inv_queues E E' T T' c :
  inv E T c ->
  (forall id l, leases c !! id = Some l -> ExpiryEntry (li_ExpiresAt l) id admissionLeaseExpiry ∈ E') ->
  (forall id r, receipts c !! id = Some r -> rc_retainUntil r <> 0 ->
     ExpiryEntry (rc_retainUntil r) id admissionReceiptExpiry ∈ T') ->
  (forall e, e ∈ E' -> e ∈ E) -> (forall e, e ∈ T' -> e ∈ T) -> inv E' T' c.
Proof.
  intros Hi HE' HT' HEs HTs. destruct Hi as [HL HR HT HK HA HC HP HW Hcap Hsz].
  constructor; try done; eauto.
  intros id l Hl. destruct (HL id l Hl) as (r & Hr & []). exists r. split; [done|]. constructor; eauto.
Qed.

(** ** Expiry is a sweep

    [expire] visits queue entries, some of which are stale.  Its effect is that
    of a full pass over both maps. *)

Definition lease_entry (id : UUID) (l : LeaseIdentity) : expiryEntry :=
  ExpiryEntry (li_ExpiresAt l) id admissionLeaseExpiry.
Definition receipt_entry (id : UUID) (r : admissionReceipt) : expiryEntry :=
  ExpiryEntry (rc_retainUntil r) id admissionReceiptExpiry.

Definition expired_receipt (now : Time) (r : admissionReceipt) : admissionReceipt :=
  {| r with rc_expired := true;
     rc_retainUntil := retentionBoundary (ar_OperationStartedAt (rc_request r)) now |}.

Definition sweep_leases (now : Time) (c : AdmissionCoordinator) : gmap UUID LeaseIdentity :=
  filter (fun '(_, l) => now < li_ExpiresAt l) (leases c).

Definition sweep_receipt (now : Time) (l : option LeaseIdentity) (r : admissionReceipt)
    : option admissionReceipt :=
  match l with
  | Some l => Some (if li_ExpiresAt l <=? now then expired_receipt now r else r)
  | None =>
    if negb (rc_retainUntil r =? 0) && (rc_retainUntil r <=? now) then None else Some r
  end.

Definition sweep_receipts (now : Time) (c : AdmissionCoordinator) : gmap UUID admissionReceipt :=
  map_imap (fun id r => sweep_receipt now (leases c !! id) r) (receipts c).

Lemma retentionBoundary_ge started now : now + receiptRetention <= retentionBoundary started now.
Proof. unfold retentionBoundary. time_unfold. case_match; b2p; lia. Qed.

Lemma retentionBoundary_after started now : now < retentionBoundary started now.
Proof.
  unfold retentionBoundary, receiptRetention, GoTime.Hour, GoTime.Minute, GoTime.Second.
  time_unfold. split_match; b2p; lia.
Qed.

Lemma inv_lease_queued E T c id l : inv E T c -> leases c !! id = Some l -> lease_entry id l ∈ E.
Proof. intros Hi Hl. destruct (inv_lease _ _ _ Hi _ _ Hl) as (r & _ & []). done. Qed.

(** One round of the first loop, on an entry at the head of the queue. *)
Lemma expire_lease_round now E e c :
  inv (e :: E) (terminalExpiries c) c -> heap_ok (terminalExpiries c) -> 0 <= now -> is_due now e ->
  exists c', expire_lease now c e = Some c' /\ inv E (terminalExpiries c') c' /\
    heap_ok (terminalExpiries c') /\ same_rest c c' /\
    match leases c !! ee_id e with
    | Some l =>
      if decide (lease_entry (ee_id e) l = e)
      then leases c' = delete (ee_id e) (leases c) /\
           receipts c' = alter (expired_receipt now) (ee_id e) (receipts c)
      else leases c' = leases c /\ receipts c' = receipts c
    | None => leases c' = leases c /\ receipts c' = receipts c
    end.
Proof.
  intros Hi Hh Hnow Hdue. unfold expire_lease.
  rewrite (inv_kind _ _ _ Hi e) by left.
  assert (Hskip : (forall id l, leases c !! id = Some l -> lease_entry id l <> e) ->
    inv E (terminalExpiries c) c).
  { intros Hne. apply (inv_queues _ _ _ _ _ Hi); try done.
    - intros id l Hl. pose proof (inv_lease_queued _ _ _ _ _ Hi Hl) as Hin.
      apply elem_of_cons in Hin as [Hin|]; [|done]. by apply Hne in Hl.
    - exact (inv_retain _ _ _ Hi).
    - intros. by right. }
  destruct (leases c !! ee_id e) as [l|] eqn:Hl.
  2: { exists c. split_and!; try done. apply Hskip. intros id l Hl' <-. simpl in Hl. congruence. }
  destruct (decide (lease_entry (ee_id e) l = e)) as [He|He].
  - assert (Hat : li_ExpiresAt l = ee_at e) by (by rewrite <- He).
    unfold is_due in Hdue. time_unfold. rewrite Hat, Z.eqb_refl. simpl.
    replace (now <? ee_at e) with false by lia.
    destruct (inv_lease _ _ _ Hi _ _ Hl) as (r & Hr & Hok).
    destruct (removeLease_inv _ _ _ (ee_id e) Hi) as (c1 & -> & Hi1 & Hl1 & Hr1 & He1 & Ht1 & Hsame).
    simpl. rewrite Hr1, Hr, (lo_completed _ _ _ _ Hok). eexists. split; [reflexivity|]. simpl.
    pose proof (retentionBoundary_after (ar_OperationStartedAt (rc_request r)) now) as Hret.
    rewrite Ht1. destruct (add_spec _ admissionReceiptExpiry (ee_id e)
      (retentionBoundary (ar_OperationStartedAt (rc_request r)) now) Hh) as [Hh' _].
    split_and!; try done.
    + rewrite <- Hr1. refine (inv_write_terminal E (terminalExpiries c) _ c1 _ _ _ _ _ _ _ _ _ _ _); simpl.
      * apply (inv_queues _ _ _ _ _ Hi1); try done.
        -- intros id' l'. rewrite Hl1, lookup_delete_Some. intros [Hne Hl'].
           pose proof (inv_lease_queued _ _ _ _ _ Hi Hl') as Hin.
           apply elem_of_cons in Hin as [Hin|]; [|done]. rewrite <- Hin in Hne. by simpl in Hne.
        -- exact (inv_retain _ _ _ Hi1).
        -- intros. by right.
      * by rewrite Hl1, lookup_delete_eq.
      * lia.
      * left. by rewrite Hr1, Hr.
      * intros e'. by apply elem_of_add.
    + apply map_eq. intros id'. destruct (decide (id' = ee_id e)) as [->|].
      * rewrite lookup_insert_eq, lookup_alter_eq, Hr. simpl. unfold expired_receipt.
        by rewrite (lo_completed _ _ _ _ Hok).
      * by rewrite lookup_insert_ne, lookup_alter_ne.
  - replace (negb (GoTime.Equal (li_ExpiresAt l) (ee_at e))) with true.
    2: { time_unfold. symmetry. apply negb_true_iff, Z.eqb_neq. intros E'. apply He.
         pose proof (inv_kind _ _ _ Hi e ltac:(by left)). destruct e; simpl in *. by subst. }
    exists c. split_and!; try done. apply Hskip. intros id' l' Hl' <-. simpl in *. congruence.
Qed.

(** The first loop, on the entries [es]: a lease goes when its own entry is
    among them. *)
Lemma expire_leases_loop now es q c :
  inv (es ++ q) (terminalExpiries c) c -> heap_ok (terminalExpiries c) -> 0 <= now ->
  (forall e, e ∈ es -> is_due now e) ->
  exists c', foldM (expire_lease now) c es = Some c' /\ inv q (terminalExpiries c') c' /\
    heap_ok (terminalExpiries c') /\ same_rest c c' /\
    forall id, (leases c' !! id, receipts c' !! id) =
      match leases c !! id with
      | Some l => if decide (lease_entry id l ∈ es) then (None, expired_receipt now <$> receipts c !! id)
                  else (Some l, receipts c !! id)
      | None => (None, receipts c !! id)
      end.
Proof.
  revert c. induction es as [|e es IH]; intros c Hi Hh Hnow Hdue; cbn [foldM].
  - exists c. split_and!; try done. intros id. destruct (leases c !! id); [|done].
    by rewrite decide_False by apply not_elem_of_nil.
  - destruct (expire_lease_round now (es ++ q) e c) as (c1 & -> & Hi1 & Hh1 & Hs1 & Hc1); try done.
    { apply Hdue. left. }
    simpl. destruct (IH c1) as (c' & Hf & Hi' & Hh' & Hs' & Hc'); try done.
    { intros. apply Hdue. by right. }
    exists c'. split_and!; try done; [unfold same_rest in *; intuition congruence|].
    intros id. rewrite Hc'. clear Hc' Hi' Hh' Hf IH.
    destruct (decide (id = ee_id e)) as [->|Hne].
    + destruct (leases c !! ee_id e) as [l|] eqn:Hl.
      * case_decide as He.
        -- destruct Hc1 as [-> ->]. rewrite lookup_delete_eq, lookup_alter_eq.
           rewrite decide_True by (rewrite He; by left). done.
        -- destruct Hc1 as [-> ->]. rewrite Hl.
           destruct (decide (lease_entry (ee_id e) l ∈ es)) as [Hin|Hin];
             [rewrite decide_True by (by right); done|].
           rewrite decide_False; [done|]. rewrite elem_of_cons. tauto.
      * destruct Hc1 as [-> ->]. by rewrite Hl.
    + assert (Hsame : leases c1 !! id = leases c !! id /\ receipts c1 !! id = receipts c !! id).
      { destruct (leases c !! ee_id e) as [l|]; [case_decide|]; destruct Hc1 as [-> ->]; try done.
        by rewrite lookup_delete_ne, lookup_alter_ne by done. }
      destruct Hsame as [-> ->]. destruct (leases c !! id) as [l|]; [|done].
      assert (Hiff : lease_entry id l ∈ e :: es <-> lease_entry id l ∈ es).
      { rewrite elem_of_cons. split; [|by right]. intros [E|]; [|done]. by rewrite <- E in Hne. }
      destruct (decide (lease_entry id l ∈ es)); [rewrite decide_True by tauto|rewrite decide_False by tauto]; done.
Qed.

(** One round of the second loop. *)
Lemma expire_receipt_round now E T e c :
  inv E (e :: T) c -> is_due now e ->
  exists c', expire_receipt now c e = Some c' /\ inv E T c' /\ same_rest c c' /\
    leases c' = leases c /\ expiries c' = expiries c /\
    receipts c' = match receipts c !! ee_id e with
                  | Some r => if decide (receipt_entry (ee_id e) r = e) then delete (ee_id e) (receipts c)
                              else receipts c
                  | None => receipts c
                  end.
Proof.
  intros Hi Hdue. unfold expire_receipt.
  assert (Hskip : (forall id r, receipts c !! id = Some r -> receipt_entry id r <> e) -> inv E T c).
  { intros Hne. apply (inv_queues _ _ _ _ _ Hi); try done.
    - intros id l. apply (inv_lease_queued _ _ _ _ _ Hi).
    - intros id r Hr Hnz. pose proof (inv_retain _ _ _ Hi _ _ Hr Hnz) as Hin.
      apply elem_of_cons in Hin as [Hin|]; [|done]. by apply Hne in Hr.
    - intros. by right. }
  destruct (inv_at _ _ _ Hi e ltac:(left)) as [Hpos Hkind].
  destruct (receipts c !! ee_id e) as [r|] eqn:Hr.
  2: { exists c. split_and!; try done. apply Hskip. intros id r Hr' <-. simpl in Hr. congruence. }
  unfold is_due in Hdue. time_unfold. case_decide as He.
  - assert (Hat : rc_retainUntil r = ee_at e) by (by rewrite <- He).
    rewrite Hat, Z.eqb_refl. replace (now <? ee_at e) with false by lia. simpl.
    eexists. split; [reflexivity|]. split_and!; try done.
    apply (inv_delete_terminal E (e :: T) T c _ _ _ _ _ _ Hi Hr); [lia|by right|].
    intros e'. rewrite elem_of_cons. intros [->|]; auto.
  - replace (rc_retainUntil r =? ee_at e) with false.
    2: { symmetry. apply Z.eqb_neq. intros E'. apply He. destruct e; simpl in *. by subst. }
    exists c. split_and!; try done. apply Hskip. intros id r' Hr' <-. simpl in *. congruence.
Qed.

Lemma expire_receipts_loop now E es q c :
  inv E (es ++ q) c -> (forall e, e ∈ es -> is_due now e) ->
  exists c', foldM (expire_receipt now) c es = Some c' /\ inv E q c' /\ same_rest c c' /\
    leases c' = leases c /\ expiries c' = expiries c /\
    forall id, receipts c' !! id =
      r ← receipts c !! id; if decide (receipt_entry id r ∈ es) then None else Some r.
Proof.
  revert c. induction es as [|e es IH]; intros c Hi Hdue; cbn [foldM].
  - exists c. split_and!; try done. intros id. destruct (receipts c !! id); cbn; [|done].
    by rewrite decide_False by apply not_elem_of_nil.
  - destruct (expire_receipt_round now E (es ++ q) e c) as (c1 & -> & Hi1 & Hs1 & Hl1 & He1 & Hr1); try done.
    { apply Hdue. left. }
    simpl. destruct (IH c1) as (c' & Hf & Hi' & Hs' & Hl' & He' & Hr'); try done.
    { intros. apply Hdue. by right. }
    exists c'. split_and!; try done; try congruence; [unfold same_rest in *; intuition congruence|].
    intros id. rewrite Hr'. clear Hr' Hi' Hf IH.
    assert (Hc1 : receipts c1 !! id = r ← receipts c !! id; if decide (receipt_entry id r = e) then None else Some r).
    { rewrite Hr1. destruct (decide (id = ee_id e)) as [->|Hne].
      - destruct (receipts c !! ee_id e) as [r|] eqn:Hr; [|by rewrite Hr]. simpl.
        case_decide; [by rewrite lookup_delete_eq|done].
      - assert (Hk : forall r, receipt_entry id r <> e) by (intros r <-; done).
        transitivity (receipts c !! id).
        + repeat split_match; rewrite ?lookup_delete_ne by done; done.
        + destruct (receipts c !! id); simpl; [by rewrite decide_False|done]. }
    rewrite Hc1. destruct (receipts c !! id) as [r|]; simpl; [|done].
    case_decide as D1; simpl; [rewrite decide_True by (rewrite D1; by left); done|].
    destruct (decide (receipt_entry id r ∈ es)); [rewrite decide_True by (by right); done|].
    rewrite decide_False; [done|]. rewrite elem_of_cons. tauto.
Qed.

(** The state after the first loop of [expire], with the drained queue stored. *)
Lemma expire_first now c :
  wf c -> 0 <= now ->
  exists q c', drain (S (length (expiries c))) now (expire_lease now) (expiries c) c = Some (q, c') /\
    heap_ok q /\ inv q (terminalExpiries c') c' /\ heap_ok (terminalExpiries c') /\ same_rest c c' /\
    leases c' = sweep_leases now c /\
    forall id, receipts c' !! id =
      r ← receipts c !! id;
      Some (if from_option (fun l => li_ExpiresAt l <=? now) false (leases c !! id)
            then expired_receipt now r else r).
Proof.
  intros [He Ht Hi] Hnow.
  destruct (drain_correct (expire_lease now) (S (length (expiries c))) now _ He ltac:(lia))
    as (es & q & Hd & _ & Hes & Hq & Hok).
  pose proof (fun e => elem_of_drained now _ es q e Hes Hq) as Hmem.
  destruct (expire_leases_loop now es q c) as (c' & Hf & Hi' & Hh' & Hs & Hc'); try done.
  { apply (inv_queues _ _ _ _ _ Hi); try done; intros *; rewrite ?Hmem; try done.
    - apply (inv_lease_queued _ _ _ _ _ Hi).
    - apply (inv_retain _ _ _ Hi). }
  { intros e. rewrite Hes. by intros [? _]%list_elem_of_filter. }
  exists q, c'. rewrite Hd, Hf.
  assert (Hdec : forall id l, leases c !! id = Some l ->
    lease_entry id l ∈ es <-> li_ExpiresAt l <= now).
  { intros id l Hl. apply (elem_of_drained_due now _ es (lease_entry id l) Hes).
    by eapply inv_lease_queued. }
  split_and!; try done.
  - apply map_eq. intros id. specialize (Hc' id). apply (f_equal fst) in Hc'. simpl in Hc'.
    rewrite Hc'. unfold sweep_leases. rewrite map_lookup_filter.
    destruct (leases c !! id) as [l|] eqn:Hl; cbn; [|done]. specialize (Hdec id l Hl).
    destruct (decide (li_ExpiresAt l <= now)).
    + rewrite decide_True, option_guard_False by (cbn; tauto || lia). done.
    + rewrite decide_False, option_guard_True by (cbn; tauto || lia). done.
  - intros id. specialize (Hc' id). apply (f_equal snd) in Hc'. simpl in Hc'. rewrite Hc'.
    destruct (leases c !! id) as [l|] eqn:Hl; cbn; [|by destruct (receipts c !! id)].
    specialize (Hdec id l Hl).
    destruct (Z.leb_spec (li_ExpiresAt l) now);
      [rewrite decide_True by tauto|rewrite decide_False by (rewrite Hdec; lia)];
      by destruct (receipts c !! id).
Qed.

(** A receipt is drained when it is terminal and its retention is over. *)
Lemma receipt_due now E T es c id r :
  inv E T c -> es ≡ₚ filter (is_due now) T -> receipts c !! id = Some r ->
  receipt_entry id r ∈ es <-> rc_retainUntil r <> 0 /\ rc_retainUntil r <= now.
Proof.
  intros Hi Hes Hr. split.
  - intros Hin. assert (HT : receipt_entry id r ∈ T).
    { rewrite Hes in Hin. by apply list_elem_of_filter in Hin as [_ ?]. }
    destruct (inv_at _ _ _ Hi _ HT) as [Hp _]. apply (elem_of_drained_due now _ es _ Hes HT) in Hin.
    cbn in *. lia.
  - intros [Hnz Hle]. pose proof (inv_retain _ _ _ Hi _ _ Hr Hnz) as HT.
    by apply (elem_of_drained_due now _ es _ Hes HT).
Qed.

Lemma expire_spec now c :
  wf c -> 0 <= now ->
  exists c', expire now c = Some c' /\ wf c' /\ same_rest c c' /\
    leases c' = sweep_leases now c /\ receipts c' = sweep_receipts now c.
Proof.
  intros Hwf Hnow. destruct (expire_first now c Hwf Hnow) as (q & c1 & Hd & Hq & Hi & Ht & Hs & Hl & Hr).
  unfold expire. rewrite Hd. cbn [mbind option_bind].
  set (c2 := {| c1 with expiries := q |}).
  destruct (drain_correct (expire_receipt now) (S (length (terminalExpiries c2))) now
    (terminalExpiries c2) Ht ltac:(lia)) as (es & q2 & Hd2 & _ & Hes & Hq2 & Hok).
  assert (Hi2 : inv q (terminalExpiries c2) c2) by (destruct Hi; by constructor).
  pose proof (fun e => elem_of_drained now _ es q2 e Hes Hq2) as Hmem.
  destruct (expire_receipts_loop now q es q2 c2) as (c3 & Hf & Hi3 & Hs3 & Hl3 & He3 & Hr3).
  { apply (inv_queues _ _ _ _ _ Hi2); try done; intros *; rewrite ?Hmem; try done.
    - apply (inv_lease_queued _ _ _ _ _ Hi2).
    - apply (inv_retain _ _ _ Hi2). }
  { intros e. rewrite Hes. by intros [? _]%list_elem_of_filter. }
  rewrite Hd2, Hf. cbn. eexists. split; [reflexivity|]. split_and!; cbn.
  - split; cbn; [by rewrite He3|done|]. rewrite He3. destruct Hi3; by constructor.
  - destruct Hs as (? & ? & ?), Hs3 as (? & ? & ?). unfold same_rest. cbn in *. split_and!; congruence.
  - by rewrite Hl3.
  - apply map_eq. intros id. rewrite Hr3. unfold sweep_receipts. rewrite map_lookup_imap.
    change (receipts c2) with (receipts c1). rewrite Hr.
    destruct (receipts c !! id) as [r|] eqn:Er; cbn; [|done].
    set (r' := if from_option (fun l => li_ExpiresAt l <=? now) false (leases c !! id)
               then expired_receipt now r else r).
    assert (Hr' : receipts c2 !! id = Some r') by (change (receipts c2) with (receipts c1); by rewrite Hr, Er).
    pose proof (receipt_due now _ _ es _ _ _ Hi2 Hes Hr') as Hdue.
    clear Hr3 Hf Hd2 Hd. unfold sweep_receipt. unfold r' in Hdue |- *. clear r' Hr'.
    destruct (leases c !! id) as [l|] eqn:El; cbn in *.
    + destruct (inv_lease _ _ _ (wf_inv _ Hwf) _ _ El) as (r0 & Hr0 & Hok0).
      rewrite Hr0 in Er. simplify_eq. pose proof (lo_retain _ _ _ _ Hok0).
      pose proof (retentionBoundary_after (ar_OperationStartedAt (rc_request r)) now).
      rewrite decide_False; [done|]. rewrite Hdue. destruct (li_ExpiresAt l <=? now); cbn; lia.
    + destruct (Z.eqb_spec (rc_retainUntil r) 0); cbn; [by rewrite decide_False by (rewrite Hdue; lia)|].
      destruct (Z.leb_spec (rc_retainUntil r) now);
        [rewrite decide_True by (rewrite Hdue; lia)|rewrite decide_False by (rewrite Hdue; lia)]; done.
Qed.

(** ** Receipt room *)

Definition terminal (r : admissionReceipt) : Prop := rc_retainUntil r <> 0.

(** Only the terminal queue differs. *)
Definition only_terminal_queue (c c' : AdmissionCoordinator) : Prop :=
  exists q, c' = {| c with terminalExpiries := q |}.

Lemma wf_shrink_terminal c e q :
  wf c -> terminalExpiries c ≡ₚ e :: q -> heap_ok q ->
  (forall r, receipts c !! ee_id e = Some r -> terminal r -> receipt_entry (ee_id e) r <> e) ->
  wf {| c with terminalExpiries := q |}.
Proof.
  intros [He Ht Hi] Hp Hq Hstale. split; cbn; try done.
  assert (Hi' : inv (expiries c) q c); [|destruct Hi'; by constructor].
  apply (inv_queues _ _ _ _ _ Hi); try done.
  - intros id l. apply (inv_lease_queued _ _ _ _ _ Hi).
  - intros id r Hr Hnz. pose proof (inv_retain _ _ _ Hi _ _ Hr Hnz) as Hin. rewrite Hp in Hin.
    apply elem_of_cons in Hin as [Hin|]; [|done]. rewrite <- Hin in Hstale.
    by apply (Hstale r) in Hr.
  - intros e'. rewrite Hp. by right.
Qed.

Lemma hasTerminalReceipt_loop_spec fuel c :
  wf c -> (length (terminalExpiries c) < fuel)%nat ->
  exists c' b, hasTerminalReceipt_loop fuel c = Some (c', b) /\ wf c' /\ only_terminal_queue c c' /\
    if b then exists e r, head (terminalExpiries c') = Some e /\ receipts c !! ee_id e = Some r /\
                terminal r /\ receipt_entry (ee_id e) r = e
    else forall id r, receipts c !! id = Some r -> ¬ terminal r.
Proof.
  revert c. induction fuel as [|fuel IH]; intros c Hwf Hf; [lia|]. cbn [hasTerminalReceipt_loop].
  pose proof (wf_inv _ Hwf) as Hi.
  destruct (head (terminalExpiries c)) as [e|] eqn:Hhd.
  2: { exists c, false. split_and!; try done; [by exists (terminalExpiries c); destruct c|].
       intros id r Hr Hnz. pose proof (inv_retain _ _ _ Hi _ _ Hr Hnz) as Hin.
       destruct (terminalExpiries c); [by apply elem_of_nil in Hin|done]. }
  match goal with |- context [if ?b then Some (c, true) else _] => destruct b eqn:Hb end.
  - exists c, true. split_and!; try done; [by exists (terminalExpiries c); destruct c|].
    destruct (receipts c !! ee_id e) as [r|] eqn:Hr; [|done]. exists e, r. time_unfold. b2p.
    assert (Hin : e ∈ terminalExpiries c) by (destruct (terminalExpiries c); [done|]; simplify_eq/=; left).
    destruct (inv_at _ _ _ Hi _ Hin) as [_ Hk]. split_and!; try done.
    unfold receipt_entry. destruct e; simpl in *. congruence.
  - destruct (popOldest (terminalExpiries c)) as [[e' q]|] eqn:Hpop.
    2: { apply (popOldest_None _ (wf_terminal _ Hwf)) in Hpop. by rewrite Hpop in Hhd. }
    destruct (popOldest_Some _ _ _ (wf_terminal _ Hwf) Hpop) as (Hh' & Hq & Hp & _).
    rewrite Hhd in Hh'. simplify_eq/=.
    assert (Hwf' : wf {| c with terminalExpiries := q |}).
    { apply (wf_shrink_terminal _ e' q Hwf Hp Hq). intros r Hr Hnz E. rewrite Hr in Hb.
      unfold terminal in Hnz. apply (f_equal ee_at) in E. cbn in E. time_unfold. lia. }
    assert (length (terminalExpiries c) = S (length q)) by (by rewrite Hp).
    destruct (IH _ Hwf') as (c' & b & -> & Hwf'' & [q' ->] & Hb'); [cbn; lia|].
    eexists _, b. split_and!; try done. by exists q'.
Qed.

Arguments hasTerminalReceipt : simpl never.

Lemma hasTerminalReceipt_spec c :
  wf c ->
  exists c' b, hasTerminalReceipt c = Some (c', b) /\ wf c' /\ only_terminal_queue c c' /\
    if b then exists e r, head (terminalExpiries c') = Some e /\ receipts c !! ee_id e = Some r /\
                terminal r /\ receipt_entry (ee_id e) r = e
    else forall id r, receipts c !! id = Some r -> ¬ terminal r.
Proof. intros Hwf. apply hasTerminalReceipt_loop_spec; [done|lia]. Qed.

(** The receipt dropped to make room: a terminal one with the least retention. *)
Definition oldest_terminal (c : AdmissionCoordinator) (id : UUID) : Prop :=
  exists r, receipts c !! id = Some r /\ terminal r /\
    forall id' r', receipts c !! id' = Some r' -> terminal r' -> rc_retainUntil r <= rc_retainUntil r'.

Definition makes_room (c : AdmissionCoordinator) (id : UUID) : Prop :=
  oldest_terminal c id /\ Z.of_nat (size (receipts c)) = receiptCapacity c.

Lemma makeReceiptRoom_spec c :
  wf c ->
  exists c' b, makeReceiptRoom c = Some (c', b) /\ wf c' /\
    if b
    then Z.of_nat (size (receipts c')) < receiptCapacity c /\
         exists q rs, c' = {| c with terminalExpiries := q; receipts := rs |} /\
           (rs = receipts c \/ exists id, makes_room c id /\ rs = delete id (receipts c))
    else only_terminal_queue c c' /\ Z.of_nat (size (receipts c)) = receiptCapacity c /\
         forall id r, receipts c !! id = Some r -> ¬ terminal r.
Proof.
  intros Hwf. pose proof (wf_inv _ Hwf) as Hi. pose proof (inv_size _ _ _ Hi) as Hsz.
  unfold makeReceiptRoom. cbn [makeReceiptRoom_loop].
  destruct (Z.leb_spec (receiptCapacity c) (Z.of_nat (size (receipts c)))) as [Hfull|Hroom].
  2: { exists c, true. split_and!; try done. exists (terminalExpiries c), (receipts c).
       split; [by destruct c|by left]. }
  destruct (hasTerminalReceipt_spec c Hwf) as (c1 & b & -> & Hwf1 & [q1 ->] & Hb). cbn [mbind option_bind].
  destruct b; cbn [negb].
  2: { eexists _, false. split_and!; try done; [by exists q1|lia]. }
  destruct Hb as (e & r & Hhd & Hr & Hnz & Hent). cbn [terminalExpiries] in Hhd |- *.
  destruct (popOldest q1) as [[e' q]|] eqn:Hpop.
  2: { apply (popOldest_None _ (wf_terminal _ Hwf1)) in Hpop. cbn in Hpop. by rewrite Hpop in Hhd. }
  destruct (popOldest_Some _ _ _ (wf_terminal _ Hwf1) Hpop) as (Hh' & Hq & Hp & Hmin).
  cbn in Hh', Hp, Hmin. rewrite Hhd in Hh'. simplify_eq/=.
  set (c2 := {| c with terminalExpiries := q; receipts := delete (ee_id e') (receipts c) |}).
  assert (Hwf2 : wf c2).
  { split; cbn; [apply (wf_expiries _ Hwf)|done|].
    refine (inv_delete_terminal (expiries c) q1 q _ _ r _ _ _ _ (wf_inv _ Hwf1) Hr Hnz _ _).
    - intros e0. rewrite Hp. by right.
    - intros e0. rewrite Hp, elem_of_cons. intros [->|]; auto. }
  assert (Hsz2 : Z.of_nat (size (receipts c2)) < receiptCapacity c).
  { cbn. rewrite map_size_delete, Hr. cbn. destruct (size (receipts c)) eqn:E; [|lia].
    apply map_size_empty_inv in E. rewrite E in Hr. by rewrite lookup_empty in Hr. }
  assert (length (terminalExpiries c) <> 0%nat).
  { pose proof (inv_retain _ _ _ Hi _ _ Hr Hnz) as Hin.
    destruct (terminalExpiries c); [by apply elem_of_nil in Hin|done]. }
  destruct (length (terminalExpiries c)); [done|]. cbn [makeReceiptRoom_loop]. fold c2.
  rewrite (proj2 (Z.leb_gt _ _)) by exact Hsz2.
  exists c2, true. split_and!; try done. exists q, (delete (ee_id e') (receipts c)). split; [done|].
  right. exists (ee_id e'). split; [|done]. split; [|lia]. exists r. split_and!; try done.
  intros id' r' Hr' Hnz'. pose proof (inv_retain _ _ _ (wf_inv _ Hwf1) _ _ Hr' Hnz') as Hin.
  specialize (Hmin _ Hin). rewrite <- Hent in Hmin. done.
Qed.

(** ** Acquire *)

Lemma inv_rates E T c rt po : inv E T c -> inv E T {| c with rates := rt; policies := po |}.
Proof. intros []. by constructor. Qed.

Lemma wf_rates c rt po : wf c -> wf {| c with rates := rt; policies := po |}.
Proof. intros [He Ht Hi]. split; [done..|]. by apply inv_rates. Qed.

(** [c'] differs from [c] in the rate buckets and policies only. *)
Definition only_rates (c c' : AdmissionCoordinator) : Prop :=
  exists rt po, c' = {| c with rates := rt; policies := po |}.

Lemma only_rates_refl c : only_rates c c.
Proof. exists (rates c), (policies c). by destruct c. Qed.

Lemma only_rates_trans c1 c2 c3 : only_rates c1 c2 -> only_rates c2 c3 -> only_rates c1 c3.
Proof. intros (? & ? & ->) (rt & po & ->). by exists rt, po. Qed.

Lemma only_rates_set_rate clientID kind s c : only_rates c (set_rate clientID kind s c).
Proof. eexists _, _. reflexivity. Qed.

Lemma only_rates_normalized clientID kind rev cap now c c' s :
  normalized clientID kind rev cap now c = (c', s) -> only_rates c c'.
Proof. unfold normalized. intros [= <- _]. apply only_rates_set_rate. Qed.

Lemma only_rates_observe p c c' pol : observeClientRatePolicy p c = (c', pol) -> only_rates c c'.
Proof.
  unfold observeClientRatePolicy. repeat split_match; intros [= <- _];
    first [apply only_rates_refl|eexists _, _; reflexivity].
Qed.

Lemma only_rates_charge now req u c : only_rates c (charge_usage now req u c).
Proof.
  unfold charge_usage. destruct (normalized _ _ _ _ _ _) as [c' s] eqn:E.
  apply only_rates_normalized in E. split_match; [|done].
  eapply only_rates_trans; [exact E|apply only_rates_set_rate].
Qed.

#[local] Hint Resolve only_rates_refl only_rates_trans only_rates_set_rate only_rates_normalized
  only_rates_observe only_rates_charge : gateway.

(** What a decision does to the state: a refusal leaves a terminal receipt, a
    grant adds the lease. *)
Inductive decided (now : Time) (req : AdmissionRequest) (c : AdmissionCoordinator)
    : AdmissionCoordinator * AdmissionDecision -> Prop :=
  | decided_reject c1 reason retry scope :
      only_rates c c1 -> reason <> ReasonNone -> reason <> ReasonCoordinationUnavailable ->
      decided now req c (reject now req reason retry scope c1)
  | decided_grant c1 :
      only_rates c c1 ->
      ar_EffectiveClientLimit req <= ar_ConfiguredClientLimit req ->
      mget (clientInflight c) (ar_ClientID req) < ar_EffectiveClientLimit req ->
      (0 < ar_PoolGatewayInflightLimit req ->
       mget (poolInflight c) (ar_PoolID req) < ar_PoolGatewayInflightLimit req) ->
      (0 < ar_PoolHighPriorityReserve req -> lower_class (ar_PriorityClass req) = true ->
       mget (poolLowerInflight c) (ar_PoolID req) <
         ar_PoolGatewayInflightLimit req - ar_PoolHighPriorityReserve req) ->
      stale_operation now (ar_OperationStartedAt req) = false -> bad_reserve req = false ->
      decided now req c (grant now req c1).

Lemma take_rates_cases now req pol c :
  (exists c1 reason retry, only_rates c c1 /\
     (reason = ReasonTPMExhausted \/ reason = ReasonRPMExhausted) /\
     take_rates now req pol c = reject now req reason retry None c1) \/
  (exists c1, only_rates c c1 /\ take_rates now req pol c = grant now req c1).
Proof.
  unfold take_rates. destruct (normalized _ "tpm" _ _ _ c) as [c1 tpm] eqn:E1.
  apply only_rates_normalized in E1.
  destruct (_ && _); [left; eauto 10|].
  destruct (normalized _ "rpm" _ _ _ c1) as [c2 rpm] eqn:E2. apply only_rates_normalized in E2.
  pose proof (only_rates_trans _ _ _ E1 E2) as E3.
  repeat case_match; [left|right|right]; eauto 10 with gateway.
Qed.

Lemma decide_admission_decided now req c : decided now req c (decide_admission now req c).
Proof.
  unfold decide_admission.
  destruct (stale_operation _ _) eqn:Es; [by constructor; auto with gateway|].
  destruct (bad_reserve req) eqn:Eb; [by constructor; auto with gateway|].
  destruct (observeRatePolicy req c) as [c1 pol] eqn:Eo. apply only_rates_observe in Eo.
  pose proof Eo as (rt & po & Hc1).
  assert (mget (poolInflight c1) = mget (poolInflight c)) as -> by by rewrite Hc1.
  assert (mget (poolLowerInflight c1) = mget (poolLowerInflight c)) as -> by by rewrite Hc1.
  assert (mget (clientInflight c1) = mget (clientInflight c)) as -> by by rewrite Hc1.
  do 4 (match goal with |- decided _ _ _ (if ?b then _ else _) => destruct b eqn:? end; [by constructor|]).
  destruct (take_rates_cases now req pol c1) as [(c2 & reason & retry & Ho & Hre & ->)|(c2 & Ho & ->)].
  - constructor; [eauto with gateway|by destruct Hre as [-> | ->]..].
  - constructor; try done; [eauto with gateway|lia|lia|lia|].
    intros Hres Hlow. rewrite Hlow in *. lia.
Qed.

Lemma reject_wf now req reason retry scope c :
  wf c -> 0 <= now -> leases c !! ar_LeaseID req = None ->
  Z.of_nat (size (receipts c)) < receiptCapacity c ->
  wf (reject now req reason retry scope c).1.
Proof.
  intros [He Ht Hi] Hnow Hl Hsz. unfold reject; cbn.
  pose proof (retentionBoundary_after (ar_OperationStartedAt req) now).
  split; cbn; [done|by apply add_spec|].
  refine (inv_write_terminal _ _ _ c _ _ _ _ _ _ Hi Hl _ (or_intror Hsz) _); cbn; [lia|].
  intros e. by apply elem_of_add.
Qed.

Lemma grant_wf now req c :
  wf c -> receipts c !! ar_LeaseID req = None ->
  Z.of_nat (size (receipts c)) < receiptCapacity c ->
  wf (grant now req c).1.
Proof.
  intros [He Ht Hi] Hr Hsz. pose proof (inv_no_receipt _ _ _ _ Hi Hr) as Hl. unfold grant; cbn.
  split; cbn; [by apply add_spec|done|]. destruct Hi as [HL HR HT HK HA HC HP HW Hcap _].
  assert (Hlow : forall id l, leases c !! id = Some l -> forall r,
    lease_lower (<[ar_LeaseID req := r]> (receipts c)) id = lease_lower (receipts c) id).
  { intros id l Hl' r. unfold lease_lower. rewrite lookup_insert_ne; [done|]. congruence. }
  constructor; cbn; try done.
  - intros id l. rewrite lookup_insert_Some. intros [[<- <-]|[Hne Hl']].
    + eexists. rewrite lookup_insert_eq. split; [done|]. constructor; cbn; try done.
      apply elem_of_add; [done|]. by left.
    + destruct (HL id l Hl') as (r & Hr' & []). exists r. rewrite lookup_insert_ne by done.
      split; [done|]. constructor; try done. apply elem_of_add; [done|]. by right.
  - intros id r. rewrite lookup_insert_Some. intros [[<- <-]|[Hne Hr']]; [done|by apply HR].
  - intros id r. rewrite lookup_insert_Some. intros [[<- <-]|[Hne Hr']]; [done|exact (HT id r Hr')].
  - intros e. rewrite elem_of_add by done. intros [->|]; [done|by apply HK].
  - eapply counts_ext; [apply (counts_mincr _ _ _ HC), count_if_nonneg|].
    intros k. unfold client_leases; cbn. rewrite count_if_insert by done. cbn.
    case_decide; destruct (Z.eqb_spec (ar_ClientID req) k); lia.
  - eapply counts_ext; [apply (counts_mincr _ _ _ HP), count_if_nonneg|].
    intros k. unfold pool_leases; cbn. rewrite count_if_insert by done. cbn.
    case_decide; destruct (Z.eqb_spec (ar_PoolID req) k); lia.
  - assert (Hcnt : forall k r,
      count_if (fun id l => (li_PoolID l =? k) && lease_lower (<[ar_LeaseID req := r]> (receipts c)) id)
        (leases c) = pool_lower_leases c k).
    { intros k r. apply lower_leases_ext. eauto. }
    destruct (lower_class (ar_PriorityClass req)) eqn:Elow.
    + eapply counts_ext; [apply (counts_mincr _ _ _ HW), count_if_nonneg|].
      intros k. unfold pool_lower_leases at 2; cbn. rewrite count_if_insert by done.
      rewrite Hcnt.
      unfold lease_lower. rewrite lookup_insert_eq. cbn. rewrite Elow.
      case_decide; destruct (Z.eqb_spec (ar_PoolID req) k); cbn; lia.
    + eapply counts_ext; [exact HW|].
      intros k. unfold pool_lower_leases at 2; cbn. rewrite count_if_insert by done.
      rewrite Hcnt.
      unfold lease_lower. rewrite lookup_insert_eq. cbn. rewrite Elow, andb_false_r. lia.
  - rewrite map_size_insert, Hr. cbn. lia.
Qed.

Lemma wf_only_rates c c' : wf c -> only_rates c c' -> wf c'.
Proof. intros Hwf (rt & po & ->). by apply wf_rates. Qed.

Lemma decide_admission_wf now req c :
  wf c -> 0 <= now -> receipts c !! ar_LeaseID req = None ->
  Z.of_nat (size (receipts c)) < receiptCapacity c -> wf (decide_admission now req c).1.
Proof.
  intros Hwf Hnow Hr Hsz. pose proof (inv_no_receipt _ _ _ _ (wf_inv _ Hwf) Hr) as Hl.
  destruct (decide_admission_decided now req c) as [c1 reason retry scope Ho _ _|c1 Ho];
    pose proof (wf_only_rates _ _ Hwf Ho) as Hwf1; destruct Ho as (rt & po & ->).
  - by apply reject_wf.
  - by apply grant_wf.
Qed.

(** [Acquire] case by case: the state it decides on is the swept one, with
    room for the new receipt. *)
Inductive acquired (now : Time) (req : AdmissionRequest) (c : AdmissionCoordinator)
    : AdmissionCoordinator -> AdmissionDecision -> Prop :=
  | acquired_replay old :
      receipts c !! ar_LeaseID req = Some old -> acquired now req c c (replay now req old c)
  | acquired_full c' :
      receipts c !! ar_LeaseID req = None -> only_terminal_queue c c' ->
      Z.of_nat (size (receipts c)) = receiptCapacity c ->
      (forall id r, receipts c !! id = Some r -> ¬ terminal r) ->
      acquired now req c c' (refused ReasonCoordinationUnavailable)
  | acquired_decided c1 c' d :
      receipts c !! ar_LeaseID req = None -> wf c1 ->
      Z.of_nat (size (receipts c1)) < receiptCapacity c ->
      (exists q rs, c1 = {| c with terminalExpiries := q; receipts := rs |} /\
         (rs = receipts c \/ exists id, makes_room c id /\ rs = delete id (receipts c))) ->
      decide_admission now req c1 = (c', d) -> acquired now req c c' d.

Lemma Acquire_spec now req c :
  wf c -> 0 <= now ->
  exists c0 c' d, expire now c = Some c0 /\ wf c0 /\ Acquire None now req c = Some (c', inr d) /\
    wf c' /\ acquired now req c0 c' d.
Proof.
  intros Hwf Hnow. destruct (expire_spec now c Hwf Hnow) as (c0 & He & Hwf0 & _).
  unfold Acquire. rewrite He. cbn [mbind option_bind].
  destruct (receipts c0 !! ar_LeaseID req) as [old|] eqn:Hr.
  { exists c0, c0, (replay now req old c0). split_and!; try done. by constructor. }
  destruct (makeReceiptRoom_spec c0 Hwf0) as (c1 & b & -> & Hwf1 & Hb). cbn [mbind option_bind].
  destruct b; cbn [negb].
  - destruct Hb as (Hsz & q & rs & Hc1 & Hrs).
    assert (Hr1 : receipts c1 !! ar_LeaseID req = None).
    { rewrite Hc1. cbn. destruct Hrs as [-> | (id & _ & ->)]; [done|]. by rewrite lookup_delete_None, Hr; right. }
    destruct (decide_admission now req c1) as [c' d] eqn:Hd.
    exists c0, c', d. split_and!; try done.
    + replace c' with (decide_admission now req c1).1 by by rewrite Hd.
      apply decide_admission_wf; try done. by rewrite Hc1 in Hsz |- *.
    + eapply acquired_decided; eauto.
  - exists c0, c1, (refused ReasonCoordinationUnavailable). destruct Hb as (Ho & Hsz & Hnt).
    split_and!; try done. by constructor.
Qed.

(** ** Renew *)

Definition renewable (now : Time) (want : LeaseIdentity) (got : LeaseIdentity) : Prop :=
  li_ClientID got = li_ClientID want /\ li_PoolID got = li_PoolID want /\ now < li_ExpiresAt got /\
  (0 < li_TTL got \/ 0 < li_TTL want).

Definition renewed (now : Time) (want got : LeaseIdentity) : LeaseIdentity :=
  {| got with li_ExpiresAt := now + if li_TTL got <=? 0 then li_TTL want else li_TTL got |}.

Lemma wf_renew now want got c :
  wf c -> leases c !! li_LeaseID want = Some got ->
  wf {| c with leases := <[li_LeaseID want := renewed now want got]> (leases c);
        expiries := add (expiries c) admissionLeaseExpiry (li_LeaseID got)
                      (li_ExpiresAt (renewed now want got)) |}.
Proof.
  intros [He Ht Hi] Hl. split; cbn; [by apply add_spec|done|].
  destruct (inv_lease _ _ _ Hi _ _ Hl) as (r & Hr & Hok). pose proof (lo_id _ _ _ _ Hok) as Hid.
  destruct Hi as [HL HR HT HK HA HC HP HW Hcap Hsz]. constructor; cbn; try done.
  - intros id l. rewrite lookup_insert_Some. intros [[<- <-]|[Hne Hl']].
    + exists r. split; [done|]. destruct Hok. constructor; cbn; try done.
      apply elem_of_add; [done|]. left. by rewrite Hid.
    + destruct (HL id l Hl') as (r' & Hr' & []). exists r'. split; [done|]. constructor; try done.
      apply elem_of_add; [done|]. by right.
  - intros e. rewrite elem_of_add by done. intros [->|]; [done|by apply HK].
  - eapply counts_ext; [exact HC|]. intros k. symmetry. by eapply count_if_replace.
  - eapply counts_ext; [exact HP|]. intros k. symmetry. by eapply count_if_replace.
  - eapply counts_ext; [exact HW|]. intros k. symmetry. by eapply count_if_replace.
Qed.

Lemma renew_one_spec now want c :
  wf c ->
  exists c', renew_one now want c = Some (c',
      match leases c !! li_LeaseID want with
      | Some got => if decide (renewable now want got)
                    then {| rr_Lease := renewed now want got; rr_Reason := ReasonNone |}
                    else {| rr_Lease := want; rr_Reason := ReasonLeaseLost |}
      | None => {| rr_Lease := want; rr_Reason := ReasonLeaseLost |}
      end) /\ wf c' /\ receipts c' = receipts c /\ same_rest c c' /\
    forall id, id <> li_LeaseID want -> leases c' !! id = leases c !! id.
Proof.
  intros Hwf. unfold renew_one.
  destruct (removeLease_inv _ _ c (li_LeaseID want) (wf_inv _ Hwf))
    as (c1 & Hrm & Hi1 & Hl1 & Hr1 & He1 & Ht1 & Hs1).
  assert (Hwf1 : wf c1).
  { split; rewrite ?He1, ?Ht1; [apply Hwf..|done]. }
  assert (Hne1 : forall id, id <> li_LeaseID want -> leases c1 !! id = leases c !! id).
  { intros id Hne. by rewrite Hl1, lookup_delete_ne. }
  destruct (leases c !! li_LeaseID want) as [got|] eqn:Hl.
  2: { rewrite Hrm. cbn. exists c1. by split_and!. }
  match goal with |- context [if ?b then _ else _] => destruct b eqn:Hb end.
  - rewrite Hrm. cbn. exists c1. rewrite decide_False; [by split_and!|].
    unfold renewable. time_unfold. lia.
  - time_unfold. b2p. match goal with |- context [if ?b then Some (c, _) else _] => destruct b eqn:Httl end.
    + exists c. rewrite decide_False; [by split_and!|]. unfold renewable.
      destruct (li_TTL got <=? 0) eqn:?; lia.
    + eexists. rewrite decide_True; [split; [reflexivity|]|].
      * split_and!; try done; [exact (wf_renew now want got c Hwf Hl)|]. intros id Hne. cbn. by rewrite lookup_insert_ne.
      * unfold renewable. destruct (li_TTL got <=? 0) eqn:?; lia.
Qed.

Lemma renew_all_wf now wants c :
  wf c ->
  exists c' rs, renew_all now wants c = Some (c', rs) /\ wf c' /\ receipts c' = receipts c /\
    same_rest c c' /\ length rs = length wants.
Proof.
  revert c. induction wants as [|want wants IH]; intros c Hwf; cbn [renew_all].
  { exists c, []. by split_and!. }
  destruct (renew_one_spec now want c Hwf) as (c1 & -> & Hwf1 & Hr1 & Hs1 & _). cbn [mbind option_bind].
  destruct (IH c1 Hwf1) as (c2 & rs & -> & Hwf2 & Hr2 & Hs2 & Hlen). cbn [mbind option_bind].
  eexists c2, _. split; [reflexivity|]. split_and!; try done; [congruence| |cbn; by rewrite Hlen].
  unfold same_rest in *. intuition congruence.
Qed.

(** ** Complete *)

Arguments charge_usage : simpl never.

Lemma charge_usage_ext now req u c c' :
  rates c' = rates c -> policies c' = policies c ->
  rates (charge_usage now req u c') = rates (charge_usage now req u c).
Proof.
  intros Hr Hp. unfold charge_usage, normalized, set_rate. rewrite Hr, Hp. by repeat case_match; cbn.
Qed.

Lemma complete_one_spec now item c :
  wf c -> 0 <= now ->
  let id := li_LeaseID (lc_Lease item) in
  exists c' r, complete_one now item c = Some (c', r) /\ wf c' /\ cr_LeaseID r = id /\
    receiptCapacity c' = receiptCapacity c /\
    (forall id', id' <> id -> leases c' !! id' = leases c !! id' /\ receipts c' !! id' = receipts c !! id') /\
    match receipts c !! id with
    | Some rec =>
      if bool_decide (is_Some (ad_Lease (rc_decision rec))) && negb (rc_completed rec)
      then cr_Result r = (if from_option (fun l => now <? li_ExpiresAt l) false (leases c !! id)
                          then CompletionReleased else CompletionLeaseLost) /\
           leases c' !! id = None /\ terminalExpiries c' ≡ₚ
             ExpiryEntry (retentionBoundary (ar_OperationStartedAt (rc_request rec)) now) id
               admissionReceiptExpiry :: terminalExpiries c /\
           (exists rec', receipts c' !! id = Some rec' /\ rc_completed rec' = true /\
              rc_decision rec' = rc_decision rec /\ rc_completion rec' = cr_Result r /\
              rc_request rec' = rc_request rec /\ rc_fingerprint rec' = rc_fingerprint rec /\
              now + receiptRetention <= rc_retainUntil rec') /\
           rates c' = match lc_Usage item with
                      | Some u => if TokenUsage_Valid u then rates (charge_usage now (rc_request rec) u c)
                                  else rates c
                      | None => rates c
                      end
      else c' = c /\ (cr_Reason r <> ReasonNone \/ cr_Result r = CompletionAlreadyCompleted)
    | None => c' = c /\ cr_Reason r <> ReasonNone
    end.
Proof.
  intros Hwf Hnow id. unfold complete_one. fold id.
  destruct (receipts c !! id) as [rec|] eqn:Hr; [|eexists c, _; by split_and!].
  destruct (ad_Lease (rc_decision rec)) as [l0|] eqn:Hd; [|eexists c, _; by split_and!; cbn; auto].
  destruct (rc_completed rec) eqn:Hcomp; [eexists c, _; by split_and!; cbn; auto|].
  rewrite bool_decide_true by eauto. cbn [negb andb].
  destruct (removeLease_inv _ _ c id (wf_inv _ Hwf)) as (c1 & -> & Hi1 & Hl1 & Hr1 & He1 & Ht1 & Hs1).
  cbn [mbind option_bind]. set (c2 := match lc_Usage item with Some _ => _ | None => _ end).
  assert (Ho : only_rates c1 c2).
  { unfold c2. repeat case_match; auto with gateway. }
  assert (Hrt : rates c2 = match lc_Usage item with
    | Some u => if TokenUsage_Valid u then rates (charge_usage now (rc_request rec) u c) else rates c
    | None => rates c end).
  { destruct Hs1 as (_ & ? & ?). unfold c2. repeat case_match; try done. by apply charge_usage_ext. }
  clearbody c2. destruct Ho as (rt & po & ->). cbn in Hrt.
  pose proof (retentionBoundary_after (ar_OperationStartedAt (rc_request rec)) now).
  eexists _, _. split; [reflexivity|]. cbn. rewrite Hr1, Ht1, Hl1. split_and!; try done.
  - split; cbn; [by rewrite He1; apply Hwf|apply add_spec, Hwf|]. rewrite He1, <- Hr1, <- Hl1.
    refine (inv_write_terminal _ _ _ c1 _ _ _ _ _ _ Hi1 _ _ _ _); cbn; try lia.
    + by rewrite Hl1, lookup_delete_eq.
    + left. by rewrite Hr1, Hr.
    + intros e. apply elem_of_add, Hwf.
  - apply Hs1.
  - intros id' Hne. by rewrite lookup_delete_ne, lookup_insert_ne by done.
  - destruct (leases c !! id) as [l|] eqn:Hl; [|done]. cbn.
    destruct (inv_lease _ _ _ (wf_inv _ Hwf) _ _ Hl) as (r & Hr' & []). rewrite Hr in Hr'. simplify_eq.
    by rewrite lo_client0, lo_pool0, !Z.eqb_refl.
  - apply lookup_delete_eq.
  - apply add_spec, Hwf.
  - eexists. rewrite lookup_insert_eq. split_and!; try done. apply retentionBoundary_ge.
Qed.

Lemma complete_all_wf now items c :
  wf c -> 0 <= now ->
  exists c' rs, complete_all now items c = Some (c', rs) /\ wf c' /\ length rs = length items /\
    receiptCapacity c' = receiptCapacity c.
Proof.
  revert c. induction items as [|item items IH]; intros c Hwf Hnow; cbn [complete_all].
  { exists c, []. by split_and!. }
  destruct (complete_one_spec now item c Hwf Hnow) as (c1 & r & -> & Hwf1 & _ & Hk & _).
  cbn [mbind option_bind].
  destruct (IH c1 Hwf1 Hnow) as (c2 & rs & -> & Hwf2 & Hlen & Hk2). cbn [mbind option_bind].
  exists c2, (r :: rs). split_and!; try done; [cbn; by rewrite Hlen|congruence].
Qed.

(** ** Runs of the coordinator *)

Inductive Op :=
  | OpAcquire (ctx : option GoError) (req : AdmissionRequest)
  | OpRenew (ctx : option GoError) (wants : list LeaseIdentity)
  | OpComplete (ctx : option GoError) (items : list LeaseCompletion)
  | OpStatus
  | OpObserveClientRatePolicy (policy : ClientRatePolicy)
  | OpPoolInflight (poolID : Z).

Definition exec (now : Time) (op : Op) (c : AdmissionCoordinator) : option AdmissionCoordinator :=
  match op with
  | OpAcquire ctx req => fst <$> Acquire ctx now req c
  | OpRenew ctx wants => fst <$> Renew ctx now wants c
  | OpComplete ctx items => fst <$> Complete ctx now items c
  | OpStatus => fst <$> AdmissionStatus now c
  | OpObserveClientRatePolicy policy => Some (ObserveClientRatePolicy policy c)
  | OpPoolInflight poolID => fst <$> PoolInflight now poolID c
  end.

(** Calls in the order they take the mutex; clock readings may go back. *)
Definition run (calls : list (Time * Op)) (c : AdmissionCoordinator) : option AdmissionCoordinator :=
  foldM (fun c '(now, op) => exec now op c) c calls.

(** Every lease of [c'] is a lease of [c], with the same owner and request. *)
Definition shrinks (c c' : AdmissionCoordinator) : Prop :=
  forall id l', leases c' !! id = Some l' ->
    exists l r r', leases c !! id = Some l /\ receipts c !! id = Some r /\ receipts c' !! id = Some r' /\
      li_ClientID l' = li_ClientID l /\ li_PoolID l' = li_PoolID l /\ rc_request r' = rc_request r.

Lemma shrinks_refl c : wf c -> shrinks c c.
Proof.
  intros Hwf id l Hl. destruct (inv_lease _ _ _ (wf_inv _ Hwf) _ _ Hl) as (r & Hr & _).
  by exists l, r, r.
Qed.

Lemma shrinks_trans c1 c2 c3 : shrinks c1 c2 -> shrinks c2 c3 -> shrinks c1 c3.
Proof.
  intros H1 H2 id l3 Hl3. destruct (H2 id l3 Hl3) as (l2 & r2 & r3 & Hl2 & Hr2 & Hr3 & E1 & E2 & E3).
  destruct (H1 id l2 Hl2) as (l1 & r1 & r2' & Hl1 & Hr1 & Hr2' & E4 & E5 & E6).
  exists l1, r1, r3. rewrite Hr2 in Hr2'. simplify_eq. split_and!; congruence.
Qed.

Lemma shrinks_counts c c' k :
  shrinks c c' ->
  client_leases c' k <= client_leases c k /\ pool_leases c' k <= pool_leases c k /\
  pool_lower_leases c' k <= pool_lower_leases c k.
Proof.
  intros Hsh. split_and!; apply count_if_mono; intros id l' Hl' Hp;
    destruct (Hsh id l' Hl') as (l & r & r' & Hl & Hr & Hr' & E1 & E2 & E3);
    exists l; (split; [done|]).
  - congruence.
  - congruence.
  - unfold lease_lower in *. rewrite Hr, Hr' in *. cbn in *. congruence.
Qed.

Lemma expire_shrinks now c c' : wf c -> leases c' = sweep_leases now c -> receipts c' = sweep_receipts now c ->
  shrinks c c'.
Proof.
  intros Hwf Hl Hr id l'. rewrite Hl, Hr. unfold sweep_leases, sweep_receipts.
  rewrite map_lookup_filter_Some, map_lookup_imap. intros [Hl' Hlive].
  destruct (inv_lease _ _ _ (wf_inv _ Hwf) _ _ Hl') as (r & Hr' & _).
  exists l', r. rewrite Hl', Hr'. cbn. eexists. split_and!; try done. by case_match.
Qed.

(** A grant: the state before it only lost leases, and every limit of the
    request holds there. *)
Definition granting (now : Time) (req : AdmissionRequest) (c c' : AdmissionCoordinator) : Prop :=
  exists c0 c1, shrinks c c0 /\ wf c0 /\ only_rates c0 c1 /\ receipts c0 !! ar_LeaseID req = None /\
    c' = (grant now req c1).1 /\ bad_reserve req = false /\
    ar_EffectiveClientLimit req <= ar_ConfiguredClientLimit req /\
    client_leases c0 (ar_ClientID req) < ar_EffectiveClientLimit req /\
    (0 < ar_PoolGatewayInflightLimit req ->
     pool_leases c0 (ar_PoolID req) < ar_PoolGatewayInflightLimit req) /\
    (0 < ar_PoolHighPriorityReserve req -> lower_class (ar_PriorityClass req) = true ->
     pool_lower_leases c0 (ar_PoolID req) <
       ar_PoolGatewayInflightLimit req - ar_PoolHighPriorityReserve req).

Lemma shrinks_receipts c q rs :
  wf c -> (rs = receipts c \/ exists id, makes_room c id /\ rs = delete id (receipts c)) ->
  shrinks c {| c with terminalExpiries := q; receipts := rs |}.
Proof.
  intros Hwf Hrs id l Hl. cbn in *.
  destruct (inv_lease _ _ _ (wf_inv _ Hwf) _ _ Hl) as (r & Hr & Hok).
  exists l, r, r. split_and!; try done.
  destruct Hrs as [-> | (id' & ((r' & Hr' & Hnz & _) & _) & ->)]; [done|].
  rewrite lookup_delete_ne; [done|]. intros ->. pose proof (lo_retain _ _ _ _ Hok).
  unfold terminal in Hnz. congruence.
Qed.

Lemma Acquire_step now req c :
  wf c -> 0 <= now ->
  exists c' d, Acquire None now req c = Some (c', inr d) /\ wf c' /\
    (shrinks c c' \/ (granting now req c c' /\ isAdmitted d = true)).
Proof.
  intros Hwf Hnow. destruct (Acquire_spec now req c Hwf Hnow) as (c0 & c' & d & He & Hwf0 & Ha & Hwf' & Hd).
  exists c', d. split_and!; try done.
  destruct (expire_spec now c Hwf Hnow) as (c0' & He' & _ & _ & Hl & Hr). rewrite He in He'.
  injection He' as <-. pose proof (expire_shrinks now c c0 Hwf Hl Hr) as Hsh.
  destruct Hd as [old Hold|c' Hno [q ->] Hfull Hnt|c1 c' d Hno Hwf1 Hsz (q & rs & -> & Hrs) Hdec].
  - by left.
  - left. eapply shrinks_trans; [exact Hsh|]. apply shrinks_receipts; [done|by left].
  - pose proof (shrinks_trans _ _ _ Hsh (shrinks_receipts c0 q rs Hwf0 Hrs)) as Hsh1.
    assert (Hno1 : rs !! ar_LeaseID req = None).
    { destruct Hrs as [-> | (id & _ & ->)]; [done|]. rewrite lookup_delete_None. by right. }
    set (c1 := {| c0 with terminalExpiries := q; receipts := rs |}) in *.
    pose proof (decide_admission_decided now req c1) as Hcase. rewrite Hdec in Hcase.
    pose proof (wf_inv _ Hwf1) as Hi1. inversion Hcase as [c2 reason retry scope (rt & po & ->) Hne _ E1|c2 Ho G1 G2 G3 G4 G5 G6 E1].
    + left. eapply shrinks_trans; [exact Hsh1|]. intros id l Hlid. cbn in Hlid.
      destruct (inv_lease _ _ _ Hi1 _ _ Hlid) as (r & Hr1 & _). exists l, r, r. cbn in Hr1 |- *. split_and!; try done.
      rewrite lookup_insert_ne; [done|]. congruence.
    + right. split; [|done]. exists c1, c2.
      rewrite (counts_mget _ _ _ (inv_client _ _ _ Hi1)) in G2.
      rewrite (counts_mget _ _ _ (inv_pool _ _ _ Hi1)) in G3.
      rewrite (counts_mget _ _ _ (inv_lower _ _ _ Hi1)) in G4. by split_and!.
Qed.

Lemma renew_one_shrinks now want c c' r :
  wf c -> renew_one now want c = Some (c', r) -> shrinks c c'.
Proof.
  intros Hwf. unfold renew_one.
  assert (Hrm : forall c1, removeLease c (li_LeaseID want) = Some c1 -> shrinks c c1).
  { intros c1 H1. destruct (removeLease_inv _ _ c (li_LeaseID want) (wf_inv _ Hwf))
      as (c2 & H2 & _ & Hl2 & Hr2 & _). rewrite H1 in H2. injection H2 as <-.
    intros id l. rewrite Hl2, Hr2, lookup_delete_Some. intros [_ Hl]. by apply shrinks_refl. }
  destruct (leases c !! li_LeaseID want) as [got|] eqn:Hl.
  2: { destruct (removeLease _ _) eqn:?; [|done]. cbn. intros [= <- <-]. eauto. }
  case_match; [destruct (removeLease _ _) eqn:?; [|done]; cbn; intros [= <- <-]; eauto|].
  case_match; intros [= <- <-]; [by apply shrinks_refl|].
  intros id l. cbn. rewrite lookup_insert_Some. intros [[<- <-]|[_ Hl']]; [|by apply shrinks_refl].
  destruct (inv_lease _ _ _ (wf_inv _ Hwf) _ _ Hl) as (r & Hr & _). by exists got, r, r.
Qed.

Lemma complete_one_shrinks now item c c' r :
  wf c -> 0 <= now -> complete_one now item c = Some (c', r) -> shrinks c c'.
Proof.
  intros Hwf Hnow Hc.
  destruct (complete_one_spec now item c Hwf Hnow) as (c1 & r1 & H1 & _ & _ & _ & Hother & Hid).
  rewrite Hc in H1. injection H1 as <- <-.
  destruct (receipts c !! _) as [rec|]; [case_match|]; [|destruct Hid as [-> _]; by apply shrinks_refl..].
  destruct Hid as (_ & Hgone & _). intros id l Hl.
  destruct (decide (id = li_LeaseID (lc_Lease item))) as [->|Hne]; [congruence|].
  destruct (Hother id Hne) as [E1 E2]. rewrite E1 in Hl. rewrite E2. by apply shrinks_refl.
Qed.

Lemma renew_all_shrinks now wants c c' rs :
  wf c -> renew_all now wants c = Some (c', rs) -> shrinks c c'.
Proof.
  revert c rs. induction wants as [|want wants IH]; intros c rs Hwf; cbn [renew_all].
  { intros [= <- <-]. by apply shrinks_refl. }
  destruct (renew_one_spec now want c Hwf) as (c1 & H1 & Hwf1 & _). pose proof (renew_one_shrinks _ _ _ _ _ Hwf H1).
  rewrite H1. cbn [mbind option_bind]. destruct (renew_all now wants c1) as [[c2 rs2]|] eqn:E; [|done].
  intros [= <- _]. eapply shrinks_trans; eauto.
Qed.

Lemma complete_all_shrinks now items c c' rs :
  wf c -> 0 <= now -> complete_all now items c = Some (c', rs) -> shrinks c c'.
Proof.
  revert c rs. induction items as [|item items IH]; intros c rs Hwf Hnow; cbn [complete_all].
  { intros [= <- <-]. by apply shrinks_refl. }
  destruct (complete_one_spec now item c Hwf Hnow) as (c1 & r & H1 & Hwf1 & _).
  pose proof (complete_one_shrinks _ _ _ _ _ Hwf Hnow H1).
  rewrite H1. cbn [mbind option_bind]. destruct (complete_all now items c1) as [[c2 rs2]|] eqn:E; [|done].
  intros [= <- _]. eapply shrinks_trans; eauto.
Qed.

Lemma wf_only_terminal_queue c c' : wf c -> wf c' -> only_terminal_queue c c' -> shrinks c c'.
Proof. intros Hwf _ [q ->]. apply (shrinks_receipts c q (receipts c)); [done|by left]. Qed.

(** Every call terminates without a panic, keeps the invariant, and adds a
    lease only by a grant within the request's limits. *)
Lemma admission_exec_step now op c :
  wf c -> 0 <= now ->
  exists c', exec now op c = Some c' /\ wf c' /\
    (shrinks c c' \/ exists req, op = OpAcquire None req /\ granting now req c c').
Proof.
  intros Hwf Hnow. destruct (expire_spec now c Hwf Hnow) as (c0 & He & Hwf0 & _ & Hl & Hr).
  pose proof (expire_shrinks now c c0 Hwf Hl Hr) as Hsh0. pose proof (shrinks_refl c Hwf) as Hrefl.
  destruct op as [[err|] req|[err|] wants|[err|] items| |policy|poolID]; cbn [exec].
  - exists c. split_and!; auto.
  - destruct (Acquire_step now req c Hwf Hnow) as (c' & d & -> & Hwf' & Hor). exists c'.
    split_and!; try done. destruct Hor as [|[? _]]; eauto.
  - exists c. split_and!; auto.
  - unfold Renew. rewrite He. cbn [mbind option_bind].
    destruct (renew_all_wf now wants c0 Hwf0) as (c' & rs & E & Hwf' & _). rewrite E. exists c'.
    pose proof (renew_all_shrinks _ _ _ _ _ Hwf0 E). split_and!; [done..|]. eauto using shrinks_trans.
  - exists c. split_and!; auto.
  - unfold Complete. rewrite He. cbn [mbind option_bind].
    destruct (complete_all_wf now items c0 Hwf0 Hnow) as (c' & rs & E & Hwf' & _). rewrite E. exists c'.
    pose proof (complete_all_shrinks _ _ _ _ _ Hwf0 Hnow E). split_and!; [done..|]. eauto using shrinks_trans.
  - unfold AdmissionStatus. rewrite He. cbn [mbind option_bind]. case_match; cbn.
    + exists c0. by split_and!; auto.
    + destruct (hasTerminalReceipt_spec c0 Hwf0) as (c' & b & -> & Hwf' & Ho & _). cbn. exists c'. split_and!; try done. left.
      eapply shrinks_trans; [exact Hsh0|]. by apply wf_only_terminal_queue.
  - destruct (observeClientRatePolicy policy c) as [c' pol] eqn:E. unfold ObserveClientRatePolicy.
    rewrite E. exists c'. apply only_rates_observe in E. pose proof (wf_only_rates _ _ Hwf E).
    destruct E as (rt & po & ->). split_and!; try done. left. exact Hrefl.
  - unfold PoolInflight. rewrite He. exists c0. by split_and!; auto.
Qed.

Lemma granting_counts now req c c' k :
  wf c' -> granting now req c c' ->
  exists c0, shrinks c c0 /\ bad_reserve req = false /\
    client_leases c0 (ar_ClientID req) < ar_ConfiguredClientLimit req /\
    (0 < ar_PoolGatewayInflightLimit req ->
     pool_leases c0 (ar_PoolID req) < ar_PoolGatewayInflightLimit req) /\
    (0 < ar_PoolHighPriorityReserve req -> lower_class (ar_PriorityClass req) = true ->
     pool_lower_leases c0 (ar_PoolID req) <
       ar_PoolGatewayInflightLimit req - ar_PoolHighPriorityReserve req) /\
    client_leases c' k = client_leases c0 k + (if decide (k = ar_ClientID req) then 1 else 0) /\
    pool_leases c' k = pool_leases c0 k + (if decide (k = ar_PoolID req) then 1 else 0) /\
    pool_lower_leases c' k = pool_lower_leases c0 k +
      (if decide (k = ar_PoolID req) then if lower_class (ar_PriorityClass req) then 1 else 0 else 0).
Proof.
  intros Hwf' (c0 & c1 & Hsh & Hwf0 & (rt & po & ->) & Hno & -> & Hbad & G1 & G2 & G3 & G4).
  exists c0. do 5 (split; [done || lia|]).
  pose proof (wf_inv _ Hwf0) as Hi0. pose proof (wf_inv _ Hwf') as Hi'.
  rewrite <- (counts_mget _ _ k (inv_client _ _ _ Hi')), <- (counts_mget _ _ k (inv_client _ _ _ Hi0)).
  rewrite <- (counts_mget _ _ k (inv_pool _ _ _ Hi')), <- (counts_mget _ _ k (inv_pool _ _ _ Hi0)).
  rewrite <- (counts_mget _ _ k (inv_lower _ _ _ Hi')), <- (counts_mget _ _ k (inv_lower _ _ _ Hi0)).
  cbn. rewrite !mget_mincr. split_and!; try done.
  destruct (lower_class _); rewrite ?mget_mincr; [done|case_decide; lia].
Qed.

(** ** Properties *)

(** Every request of the run that names the pool carries these pool limits, and
    every request of the client at most this configured limit. *)
Definition pool_config (pool limit reserve : Z) (op : Op) : Prop :=
  match op with
  | OpAcquire _ req => ar_PoolID req = pool ->
      ar_PoolGatewayInflightLimit req = limit /\ ar_PoolHighPriorityReserve req = reserve
  | _ => True
  end.

Definition client_config (client limit : Z) (op : Op) : Prop :=
  match op with
  | OpAcquire _ req => ar_ClientID req = client -> ar_ConfiguredClientLimit req <= limit
  | _ => True
  end.

Definition clock_ok (calls : list (Time * Op)) : Prop := Forall (fun call => 0 <= call.1) calls.

(** The bounds a pool configuration promises. *)
Definition pool_within (pool limit reserve : Z) (c : AdmissionCoordinator) : Prop :=
  pool_leases c pool <= limit /\ (0 < reserve -> pool_lower_leases c pool <= limit - reserve).

Lemma exec_pool_within now op c c' pool limit reserve :
  wf c -> 0 <= now -> 0 < limit -> pool_config pool limit reserve op ->
  exec now op c = Some c' -> pool_within pool limit reserve c -> pool_within pool limit reserve c'.
Proof.
  intros Hwf Hnow Hlim Hcfg He [Hp Hlow].
  destruct (admission_exec_step now op c Hwf Hnow) as (c1 & He' & Hwf' & Hor). rewrite He in He'. injection He' as <-.
  destruct Hor as [Hsh|(req & -> & Hg)].
  - destruct (shrinks_counts _ _ pool Hsh) as (_ & ? & ?). unfold pool_within. lia.
  - destruct (granting_counts now req c c' pool Hwf' Hg) as (c0 & Hsh & _ & _ & G2 & G3 & _ & E2 & E3).
    destruct (shrinks_counts _ _ pool Hsh) as (_ & ? & ?). cbn in Hcfg. unfold pool_within.
    rewrite E2, E3. case_decide as Hpool; [|lia]. destruct (Hcfg (eq_sym Hpool)) as [El Er].
    rewrite El, Er, <- Hpool in *. destruct (lower_class _); lia.
Qed.

Lemma exec_client_within now op c c' client limit :
  wf c -> 0 <= now -> client_config client limit op ->
  exec now op c = Some c' -> client_leases c client <= limit -> client_leases c' client <= limit.
Proof.
  intros Hwf Hnow Hcfg He Hle.
  destruct (admission_exec_step now op c Hwf Hnow) as (c1 & He' & Hwf' & Hor). rewrite He in He'. injection He' as <-.
  destruct Hor as [Hsh|(req & -> & Hg)].
  - destruct (shrinks_counts _ _ client Hsh) as (? & _). lia.
  - destruct (granting_counts now req c c' client Hwf' Hg) as (c0 & Hsh & _ & G1 & _ & _ & E1 & _).
    destruct (shrinks_counts _ _ client Hsh) as (? & _). cbn in Hcfg.
    rewrite E1. case_decide as Hc; [|lia]. specialize (Hcfg (eq_sym Hc)). rewrite <- Hc in *. lia.
Qed.

(** Runs keep any state property that single calls keep. *)
Lemma run_ind (I : AdmissionCoordinator -> Prop) calls c :
  wf c -> I c -> clock_ok calls ->
  (forall now op c c', (now, op) ∈ calls -> wf c -> 0 <= now -> I c -> exec now op c = Some c' -> I c') ->
  exists c', run calls c = Some c' /\ wf c' /\ I c'.
Proof.
  intros Hwf HI Hclk Hstep. unfold run.
  apply (foldM_ind _ (fun c => wf c /\ I c)); [done|]. intros s [now op] Hin [Hs HIs].
  assert (Hnow : 0 <= now). { unfold clock_ok in Hclk. rewrite Forall_forall in Hclk. by specialize (Hclk _ Hin). }
  destruct (admission_exec_step now op s Hs Hnow) as (c' & He & Hwf' & _). exists c'. split_and!; eauto.
Qed.

Lemma run_new_ind (I : AdmissionCoordinator -> Prop) capacity calls :
  I (newAdmissionCoordinator capacity) -> clock_ok calls ->
  (forall now op c c', (now, op) ∈ calls -> wf c -> 0 <= now -> I c -> exec now op c = Some c' -> I c') ->
  exists c', run calls (newAdmissionCoordinator capacity) = Some c' /\ wf c' /\ I c'.
Proof. intros. apply run_ind; try done. apply wf_new. Qed.

(** C16. From a fresh coordinator every sequence of calls returns: no call
    panics and no loop runs out.  The state stays well formed: both queues are
    heaps, every lease has a live receipt and a queued deadline, every terminal
    receipt is queued for removal, the three in-flight counters count exactly
    the leases, and the receipts fit the capacity. *)
Theorem admission_runs_well_formed capacity calls :
  clock_ok calls ->
  exists c, run calls (newAdmissionCoordinator capacity) = Some c /\ wf c.
Proof.
  intros Hclk. destruct (run_new_ind (fun _ => True) capacity calls) as (c & ? & ? & _); eauto.
Qed.

(** C12. Admission limits.  In every run whose requests for a pool agree on its
    in-flight limit and high-priority reserve, the leases of the pool never
    exceed the limit and those of the lower classes never exceed the limit
    minus the reserve; and a client whose requests carry at most a configured
    limit never holds more leases than that. *)
Theorem admission_limits_hold capacity calls pool limit reserve client climit :
  clock_ok calls -> 0 < limit -> 0 <= reserve <= limit -> 0 <= climit ->
  Forall (fun call => pool_config pool limit reserve call.2 /\ client_config client climit call.2) calls ->
  exists c, run calls (newAdmissionCoordinator capacity) = Some c /\
    pool_leases c pool <= limit /\ (0 < reserve -> pool_lower_leases c pool <= limit - reserve) /\
    client_leases c client <= climit.
Proof.
  intros Hclk Hlim Hres Hcl Hcfg. rewrite Forall_forall in Hcfg.
  destruct (run_new_ind (fun c => pool_within pool limit reserve c /\ client_leases c client <= climit)
    capacity calls) as (c & Hrun & _ & [[H1 H2] H3]); [|done| |eauto].
  - unfold pool_within, client_leases, pool_leases, pool_lower_leases. cbn. rewrite !count_if_empty. lia.
  - intros now op c c' Hin Hwf Hnow [Hp Hc] He. destruct (Hcfg _ Hin) as [Hcp Hcc].
    split; [by eapply exec_pool_within|by eapply exec_client_within].
Qed.

Definition pool_high_leases (c : AdmissionCoordinator) (k : Z) : Z :=
  count_if (fun id l => (li_PoolID l =? k) && negb (lease_lower (receipts c) id)) (leases c).

Lemma pool_leases_split c k : pool_leases c k = pool_lower_leases c k + pool_high_leases c k.
Proof. apply count_if_split. Qed.

Lemma shrinks_high c c' k : shrinks c c' -> pool_high_leases c' k <= pool_high_leases c k.
Proof.
  intros Hsh. apply count_if_mono; intros id l' Hl' Hp.
  destruct (Hsh id l' Hl') as (l & r & r' & Hl & Hr & Hr' & E1 & E2 & E3).
  exists l. split; [done|]. unfold lease_lower in *. rewrite Hr, Hr' in *. cbn in *. congruence.
Qed.

(** A pool refusal needs a full pool, for a request of a high class. *)
Lemma decide_admission_high now req c :
  wf c -> lower_class (ar_PriorityClass req) = false ->
  pool_leases c (ar_PoolID req) < ar_PoolGatewayInflightLimit req ->
  let d := (decide_admission now req c).2 in
  ad_Reason d <> ReasonPoolPriorityReserve /\ ad_ConcurrencyScope d <> AdmissionPoolScope.
Proof.
  intros Hwf Hlow Hroom. unfold decide_admission.
  destruct (stale_operation _ _); [done|]. destruct (bad_reserve req); [done|].
  destruct (observeRatePolicy req c) as [c1 pol] eqn:Eo. apply only_rates_observe in Eo as (rt & po & ->).
  case_match; [done|]. cbn [poolInflight].
  rewrite (counts_mget _ _ _ (inv_pool _ _ _ (wf_inv _ Hwf))), Hlow, andb_false_r. cbn [andb].
  rewrite (proj2 (Z.leb_gt _ _)), andb_false_r by done.
  case_match; [done|].
  match goal with |- context [take_rates now req pol ?s] =>
    destruct (take_rates_cases now req pol s) as [(c2 & reason & retry & _ & Hre & ->)|(c2 & _ & ->)] end.
  - by destruct Hre as [-> | ->].
  - done.
Qed.

(** C13. The reserve is there for the high classes.  In every run whose requests
    for a pool agree on its limit and reserve, while fewer than [reserve] high
    or critical leases are held, a new high or critical request for the pool is
    never refused for the pool's capacity, whatever the lower classes hold. *)
Theorem high_priority_reserve_available capacity calls pool limit reserve c now req :
  clock_ok calls -> 0 < limit -> 0 < reserve <= limit ->
  Forall (fun call => pool_config pool limit reserve call.2) calls ->
  run calls (newAdmissionCoordinator capacity) = Some c ->
  0 <= now -> receipts c !! ar_LeaseID req = None -> ar_PoolID req = pool ->
  ar_PoolGatewayInflightLimit req = limit -> lower_class (ar_PriorityClass req) = false ->
  pool_high_leases c pool < reserve ->
  exists c' d, Acquire None now req c = Some (c', inr d) /\
    ad_Reason d <> ReasonPoolPriorityReserve /\ ad_ConcurrencyScope d <> AdmissionPoolScope.
Proof.
  intros Hclk Hlim Hres Hcfg Hrun Hnow Hfresh Hpool Hl Hlow Hhigh. rewrite Forall_forall in Hcfg.
  destruct (run_new_ind (pool_within pool limit reserve) capacity calls)
    as (c1 & Hrun' & Hwf & [Hp Hlo]); [|done| |].
  { unfold pool_within, pool_leases, pool_lower_leases. cbn. rewrite !count_if_empty. lia. }
  { intros ? ? ? ? Hin ? ? ? ?. specialize (Hcfg _ Hin). by eapply exec_pool_within. }
  rewrite Hrun in Hrun'. injection Hrun' as <-.
  destruct (expire_spec now c Hwf Hnow) as (c0' & He' & _ & _ & Hls & Hrs).
  destruct (Acquire_spec now req c Hwf Hnow) as (c0 & c' & d & He & Hwf0 & Ha & Hwf' & Hd).
  rewrite He in He'. injection He' as <-. pose proof (expire_shrinks now c c0 Hwf Hls Hrs) as Hsh.
  exists c', d. split; [done|].
  destruct Hd as [old Hold|c' _ _ _ _|c1 c' d Hno Hwf1 Hsz (q & rs & -> & Hr) Hdec]; [|done|].
  - rewrite Hrs in Hold. unfold sweep_receipts in Hold. by rewrite map_lookup_imap, Hfresh in Hold.
  - pose proof (shrinks_trans _ _ _ Hsh (shrinks_receipts c0 q rs Hwf0 Hr)) as Hsh1.
    destruct (shrinks_counts _ _ pool Hsh1) as (_ & _ & H3). pose proof (shrinks_high _ _ pool Hsh1).
    pose proof (decide_admission_high now req _ Hwf1 Hlow) as Hhi. rewrite Hdec in Hhi. apply Hhi.
    rewrite pool_leases_split, Hpool, Hl. lia.
Qed.

(** ** The life of a receipt *)

(** Later forms of a receipt: the request and the decision stay, a completion is final, and
    the receipt of a refusal does not change at all. *)
Record follows (r r' : admissionReceipt) : Prop := {
  fo_fingerprint : rc_fingerprint r' = rc_fingerprint r;
  fo_decision : rc_decision r' = rc_decision r;
  fo_completed : rc_completed r = true -> rc_completed r' = true /\ rc_completion r' = rc_completion r;
  fo_refused : ad_Lease (rc_decision r) = None -> r' = r
}.

(** The receipt of [id] is still there, and its lease is no other one. *)
Definition carries (id : UUID) (c c' : AdmissionCoordinator) : Prop :=
  forall r, receipts c !! id = Some r ->
    (exists r', receipts c' !! id = Some r' /\ follows r r') /\
    forall l', leases c' !! id = Some l' -> exists l, leases c !! id = Some l /\ l' = {| l with li_ExpiresAt := li_ExpiresAt l' |}.

(** The retention of the receipt of [id] is over. *)
Definition retention_over (now : Time) (id : UUID) (c : AdmissionCoordinator) : Prop :=
  exists r, receipts c !! id = Some r /\ leases c !! id = None /\ terminal r /\ rc_retainUntil r <= now.

(** The call drops the receipt of [id], which has no lease: its retention is over; or the
    receipts fill the capacity, another ID needs room, and no other receipt without a lease
    has less time left. *)
Definition forgets (id : UUID) (now : Time) (op : Op) (c : AdmissionCoordinator) : Prop :=
  retention_over now id c \/
  exists c0 req, op = OpAcquire None req /\ ar_LeaseID req <> id /\ expire now c = Some c0 /\
    Z.of_nat (size (receipts c0)) = receiptCapacity c /\ leases c0 !! id = None /\ oldest_terminal c0 id.

(** One of the calls drops it. *)
Definition forgotten (id : UUID) (calls : list (Time * Op)) (c : AdmissionCoordinator) : Prop :=
  exists before now op after c1, calls = before ++ (now, op) :: after /\ run before c = Some c1 /\ forgets id now op c1.

Lemma follows_refl r : follows r r.
Proof. by split. Qed.

Lemma follows_trans r1 r2 r3 : follows r1 r2 -> follows r2 r3 -> follows r1 r3.
Proof.
  intros [A1 A2 A3 A4] [B1 B2 B3 B4]. split; [congruence|congruence| |].
  - intros H. destruct (A3 H) as [H2 <-]. by apply B3.
  - intros H. rewrite <- (A4 H). apply B4. by rewrite A2.
Qed.

Lemma carries_same id c c' : receipts c' !! id = receipts c !! id -> leases c' !! id = leases c !! id -> carries id c c'.
Proof.
  intros H1 H2 r Hr. rewrite H1, H2. split; [exists r; split; [done|apply follows_refl]|]. intros l Hl. exists l. split; [done|]. by destruct l.
Qed.

Lemma carries_trans id c1 c2 c3 : carries id c1 c2 -> carries id c2 c3 -> carries id c1 c3.
Proof.
  intros A B r1 H1. destruct (A r1 H1) as [(r2 & H2 & F1) L1]. destruct (B r2 H2) as [(r3 & H3 & F2) L2].
  split; [exists r3; split; [done|by eapply follows_trans]|]. intros l3 Hl3. destruct (L2 l3 Hl3) as (l2 & Hl2 & E2). destruct (L1 l2 Hl2) as (l1 & Hl1 & E1).
  exists l1. split; [done|]. rewrite E2, E1. done.
Qed.

Lemma expire_carries now id c c0 : wf c -> 0 <= now -> expire now c = Some c0 -> retention_over now id c \/ carries id c c0.
Proof.
  intros Hwf Hnow He. destruct (expire_spec now c Hwf Hnow) as (c0' & He' & _ & _ & Hl & Hr). rewrite He in He'. injection He' as <-.
  destruct (receipts c !! id) as [r|] eqn:E; [|right; intros r; congruence].
  assert (Hr0 : receipts c0 !! id = sweep_receipt now (leases c !! id) r) by (rewrite Hr; unfold sweep_receipts; by rewrite map_lookup_imap, E).
  assert (Hl0 : forall l, leases c0 !! id = Some l -> leases c !! id = Some l) by (intros l; rewrite Hl; unfold sweep_leases; by intros [? _]%map_lookup_filter_Some).
  assert (Hkeep : forall r', sweep_receipt now (leases c !! id) r = Some r' -> follows r r' -> carries id c c0).
  { intros r' Hs Hf x Hx. rewrite E in Hx. injection Hx as <-. split; [exists r'; split; [congruence|done]|].
    intros l Hll. exists l. split; [by apply Hl0|]. by destruct l. }
  unfold sweep_receipt in *. destruct (leases c !! id) as [l|] eqn:El.
  - right. eapply Hkeep; [done|]. destruct (inv_lease _ _ _ (wf_inv _ Hwf) _ _ El) as (r' & Hr' & Hok). rewrite E in Hr'. injection Hr' as <-.
    case_match; [|apply follows_refl]. split; [done|done|done|]. intros Hn. destruct (lo_granted _ _ _ _ Hok). congruence.
  - destruct (negb _ && _) eqn:Hb; [|right; eapply Hkeep; [done|apply follows_refl]]. left. exists r. unfold terminal. b2p. split_and!; [done|done|lia|lia].
Qed.

Lemma renew_one_carries id now want c c' r : wf c -> renew_one now want c = Some (c', r) -> carries id c c'.
Proof.
  intros Hwf. unfold renew_one.
  assert (Hrm : forall c1, removeLease c (li_LeaseID want) = Some c1 -> carries id c c1).
  { intros c1 H1. destruct (removeLease_inv _ _ c (li_LeaseID want) (wf_inv _ Hwf)) as (c2 & H2 & _ & Hl2 & Hr2 & _). rewrite H1 in H2. injection H2 as <-.
    intros x Hx. rewrite Hr2, Hl2. split; [exists x; split; [done|apply follows_refl]|]. intros l [_ Hl]%lookup_delete_Some. exists l. split; [done|]. by destruct l. }
  destruct (leases c !! li_LeaseID want) as [got|] eqn:Hl.
  2: { destruct (removeLease _ _) eqn:?; [|done]. cbn. intros [= <- <-]. eauto. }
  case_match; [destruct (removeLease _ _) eqn:?; [|done]; cbn; intros [= <- <-]; eauto|].
  case_match; intros [= <- <-]; [by apply carries_same|]. intros x Hx. cbn. split; [exists x; split; [done|apply follows_refl]|].
  intros l. rewrite lookup_insert_Some. intros [[<- <-]|[_ Hl']]; [by exists got|]. exists l. split; [done|]. by destruct l.
Qed.

Lemma renew_all_carries id now wants c c' rs : wf c -> renew_all now wants c = Some (c', rs) -> carries id c c'.
Proof.
  revert c rs. induction wants as [|want wants IH]; intros c rs Hwf; cbn [renew_all]; [intros [= <- <-]; by apply carries_same|].
  destruct (renew_one_spec now want c Hwf) as (c1 & H1 & Hwf1 & _). pose proof (renew_one_carries id _ _ _ _ _ Hwf H1). rewrite H1. cbn [mbind option_bind].
  destruct (renew_all now wants c1) as [[c2 rs2]|] eqn:E; [|done]. intros [= <- _]. eapply carries_trans; eauto.
Qed.

Lemma complete_one_carries id now item c c' r : wf c -> 0 <= now -> complete_one now item c = Some (c', r) -> carries id c c'.
Proof.
  intros Hwf Hnow Hc. destruct (complete_one_spec now item c Hwf Hnow) as (c1 & r1 & H1 & _ & _ & _ & Hother & Hid). rewrite Hc in H1. injection H1 as <- <-.
  destruct (decide (id = li_LeaseID (lc_Lease item))) as [->|Hne]; [|destruct (Hother id Hne); by apply carries_same].
  destruct (receipts c !! _) as [rec|] eqn:Hr; [|destruct Hid as [-> _]; by apply carries_same].
  case_match eqn:Hb; [|destruct Hid as [-> _]; by apply carries_same]. apply andb_true_iff in Hb as [[l0 Hd]%bool_decide_eq_true Hcomp%negb_true_iff].
  destruct Hid as (_ & Hgone & _ & (rec' & Hr' & _ & Hdec & _ & _ & Hfp & _) & _). intros x Hx. rewrite Hr in Hx. injection Hx as <-.
  split; [|intros l; congruence]. exists rec'. split; [done|]. split; [done|done|congruence|congruence].
Qed.

Lemma complete_all_carries id now items c c' rs : wf c -> 0 <= now -> complete_all now items c = Some (c', rs) -> carries id c c'.
Proof.
  revert c rs. induction items as [|item items IH]; intros c rs Hwf Hnow; cbn [complete_all]; [intros [= <- <-]; by apply carries_same|].
  destruct (complete_one_spec now item c Hwf Hnow) as (c1 & r & H1 & Hwf1 & _). pose proof (complete_one_carries id _ _ _ _ _ Hwf Hnow H1).
  rewrite H1. cbn [mbind option_bind]. destruct (complete_all now items c1) as [[c2 rs2]|] eqn:E; [|done]. intros [= <- _]. eapply carries_trans; eauto.
Qed.

Lemma decide_carries id now req c c' d : ar_LeaseID req <> id -> decide_admission now req c = (c', d) -> carries id c c'.
Proof.
  intros Hne Hd. pose proof (decide_admission_decided now req c) as Hcase. rewrite Hd in Hcase. apply carries_same;
    inversion Hcase as [c2 reason retry scope (rt & po & ->) _ _ E1|c2 (rt & po & ->) _ _ _ _ _ _ E1]; cbn; by rewrite ?lookup_insert_ne.
Qed.

(** [Acquire] after the sweep. *)
Lemma acquired_carries id now req c c0 c' d : wf c0 -> expire now c = Some c0 -> receiptCapacity c0 = receiptCapacity c -> acquired now req c0 c' d ->
  forgets id now (OpAcquire None req) c \/ carries id c0 c'.
Proof.
  intros Hwf He Hcap [old Hold|c1 Hno [q ->] Hfull Hnt|c1 c2 d' Hno Hwf1 Hsz (q & rs & -> & Hrs) Hdec]; [right; by apply carries_same..|].
  destruct (receipts c0 !! id) as [r|] eqn:Hr; [|right; intros r; congruence]. assert (Hne : ar_LeaseID req <> id) by congruence.
  destruct Hrs as [->|(id' & [Hold Hfull] & ->)]; [right; by apply (decide_carries id now req _ _ d') in Hdec|]. destruct (decide (id' = id)) as [->|Hne'].
  - left. right. exists c0, req. split_and!; try done.
    + congruence.
    + destruct Hold as (r' & Hr' & Hnz & _). rewrite Hr in Hr'. injection Hr' as <-. destruct (leases c0 !! id) as [l|] eqn:Hl; [|done].
      destruct (inv_lease _ _ _ (wf_inv _ Hwf) _ _ Hl) as (r' & Hr' & Hok). rewrite Hr in Hr'. injection Hr' as <-. by destruct Hnz, Hok.
  - right. eapply carries_trans; [|by eapply decide_carries]. apply carries_same; cbn; [by rewrite lookup_delete_ne|done].
Qed.

(** Every call carries a receipt over or forgets it. *)
Lemma exec_carries id now op c c' : wf c -> 0 <= now -> exec now op c = Some c' -> forgets id now op c \/ carries id c c'.
Proof.
  intros Hwf Hnow. destruct (expire_spec now c Hwf Hnow) as (c0 & He & Hwf0 & (Hcap & _) & _).
  pose proof (carries_same id c c eq_refl eq_refl) as Hrefl. destruct (expire_carries now id c c0 Hwf Hnow He) as [Hover|Hc0].
  { intros _. left. by left. }
  destruct op as [[err|] req|[err|] wants|[err|] items| |policy|poolID]; cbn [exec].
  - intros [= <-]. by right.
  - destruct (Acquire_spec now req c Hwf Hnow) as (c0' & c1 & d & He' & _ & -> & _ & Ha). rewrite He in He'. injection He' as <-. intros [= <-].
    destruct (acquired_carries id now req c c0 c1 d) as [?|?]; try done; [by left|right; by eapply carries_trans].
  - intros [= <-]. by right.
  - unfold Renew. rewrite He. cbn [mbind option_bind]. destruct (renew_all now wants c0) as [[c1 rs]|] eqn:E; [|done]. intros [= <-].
    right. eapply carries_trans; [done|by eapply renew_all_carries].
  - intros [= <-]. by right.
  - unfold Complete. rewrite He. cbn [mbind option_bind]. destruct (complete_all now items c0) as [[c1 rs]|] eqn:E; [|done]. intros [= <-].
    right. eapply carries_trans; [done|by eapply complete_all_carries].
  - unfold AdmissionStatus. rewrite He. cbn [mbind option_bind]. case_match; cbn; [intros [= <-]; by right|].
    destruct (hasTerminalReceipt_spec c0 Hwf0) as (c1 & b & -> & _ & [q ->] & _). intros [= <-]. right. eapply carries_trans; [exact Hc0|by apply carries_same].
  - destruct (observeClientRatePolicy policy c) as [c1 pol] eqn:E. unfold ObserveClientRatePolicy. rewrite E. intros [= <-]. apply only_rates_observe in E as (rt & po & ->).
    right. by apply carries_same.
  - unfold PoolInflight. rewrite He. intros [= <-]. by right.
Qed.

Lemma forgotten_cons id now op calls c c1 : exec now op c = Some c1 -> forgotten id calls c1 -> forgotten id ((now, op) :: calls) c.
Proof.
  intros He (before & now' & op' & after & c2 & -> & Hrun & Hf). exists ((now, op) :: before), now', op', after, c2. split_and!; [done| |done].
  unfold run. cbn. by rewrite He.
Qed.

Lemma forgotten_app id calls calls' c : forgotten id calls c -> forgotten id (calls ++ calls') c.
Proof. intros (before & now & op & after & c1 & -> & Hrun & Hf). exists before, now, op, (after ++ calls'), c1. split_and!; [|done|done]. by rewrite <- app_assoc. Qed.

Lemma run_carries id calls c c' : wf c -> clock_ok calls -> run calls c = Some c' -> wf c' /\ (forgotten id calls c \/ carries id c c').
Proof.
  unfold run. revert c. induction calls as [|[now op] calls IH]; intros c Hwf Hclk; cbn.
  { intros [= <-]. split; [done|]. right. by apply carries_same. }
  apply Forall_cons in Hclk as [Hnow Hclk]. destruct (admission_exec_step now op c Hwf Hnow) as (c1 & He & Hwf1 & _). rewrite He. cbn. intros Hrun.
  destruct (IH c1 Hwf1 Hclk Hrun) as [Hwf' Hor]. split; [done|]. destruct (exec_carries id now op c c1 Hwf Hnow He) as [Hf|Hc1].
  - left. exists [], now, op, calls, c. by split_and!.
  - destruct Hor as [?|?]; [left; by eapply forgotten_cons|right; by eapply carries_trans].
Qed.

(** A receipt through a run and the sweep of the call after it. *)
Lemma receipt_after_run id calls now op c c1 r : wf c -> clock_ok calls -> run calls c = Some c1 -> 0 <= now -> receipts c !! id = Some r ->
  forgotten id (calls ++ [(now, op)]) c \/
  exists c2, expire now c1 = Some c2 /\ wf c2 /\ same_rest c1 c2 /\ leases c2 = sweep_leases now c1 /\
    (exists r', receipts c2 !! id = Some r' /\ follows r r') /\
    forall l', leases c2 !! id = Some l' -> exists l, leases c !! id = Some l /\ l' = {| l with li_ExpiresAt := li_ExpiresAt l' |}.
Proof.
  intros Hwf Hclk Hrun Hnow Hr. destruct (run_carries id calls c c1 Hwf Hclk Hrun) as [Hwf1 [Hf|Hc]]; [left; by apply forgotten_app|].
  destruct (expire_spec now c1 Hwf1 Hnow) as (c2 & He & Hwf2 & Hs & Hl & _). destruct (expire_carries now id c1 c2 Hwf1 Hnow He) as [Hover|Hc2].
  - left. exists calls, now, op, [], c1. split_and!; [done|done|]. by left.
  - right. exists c2. destruct (carries_trans _ _ _ _ Hc Hc2 r Hr). by split_and!.
Qed.

(** ** Idempotent acquisition *)


Lemma fresh_after_expire now c c0 id :
  wf c -> 0 <= now -> expire now c = Some c0 -> receipts c !! id = None -> receipts c0 !! id = None.
Proof.
  intros Hwf Hnow He Hno. destruct (expire_spec now c Hwf Hnow) as (c0' & He' & _ & _ & _ & Hr).
  rewrite He in He'. injection He' as <-. rewrite Hr. unfold sweep_receipts. by rewrite map_lookup_imap, Hno.
Qed.




(** ** Exactly-once completion *)

(** What the first completion of a lease leaves behind. *)
Lemma complete_one_first now item c c1 r :
  wf c -> 0 <= now -> complete_one now item c = Some (c1, r) -> cr_Reason r = ReasonNone ->
  cr_Result r <> CompletionAlreadyCompleted ->
  wf c1 /\ exists rec, receipts c1 !! li_LeaseID (lc_Lease item) = Some rec /\ rc_completed rec = true /\
    is_Some (ad_Lease (rc_decision rec)) /\ rc_completion rec = cr_Result r.
Proof.
  intros Hwf Hnow Hc Hreason Hres.
  destruct (complete_one_spec now item c Hwf Hnow) as (c1' & r' & Hc' & Hwf1 & _ & _ & _ & Hid).
  rewrite Hc in Hc'. injection Hc' as <- <-. split; [done|].
  destruct (receipts c !! _) as [rec|]; [|by destruct Hid].
  case_match eqn:E; [|by destruct Hid as [_ [?|?]]].
  destruct Hid as (_ & _ & _ & (rec' & Hr' & Hcomp & Hdec & Hcr & _) & _).
  exists rec'. rewrite Hdec. b2p. by split_and!.
Qed.

Lemma complete_all_app now before after c : complete_all now (before ++ after) c =
  ('(c, rs) ← complete_all now before c; '(c, rs') ← complete_all now after c; Some (c, rs ++ rs')).
Proof.
  revert c. induction before as [|item before IH]; intros c; cbn; [by destruct (complete_all now after c) as [[? ?]|]|].
  destruct (complete_one now item c) as [[c1 r]|]; cbn; [|done]. rewrite IH. destruct (complete_all now before c1) as [[c2 rs]|]; cbn; [|done].
  by destruct (complete_all now after c2) as [[? ?]|].
Qed.

(** The receipt after a [Complete] in which the item [item] is the first completion of its lease. *)
Lemma completed_receipt now before item after c c1 rs1 r rs2 :
  wf c -> 0 <= now -> Complete None now (before ++ item :: after) c = Some (c1, inr (rs1 ++ r :: rs2)) -> length rs1 = length before ->
  cr_Reason r = ReasonNone -> cr_Result r <> CompletionAlreadyCompleted ->
  wf c1 /\ exists rec, receipts c1 !! li_LeaseID (lc_Lease item) = Some rec /\ rc_completed rec = true /\
    is_Some (ad_Lease (rc_decision rec)) /\ rc_completion rec = cr_Result r.
Proof.
  intros Hwf Hnow Hc Hlen Hreason Hres. destruct (expire_spec now c Hwf Hnow) as (c0 & He & Hwf0 & _).
  unfold Complete in Hc. rewrite He in Hc. cbn [mbind option_bind] in Hc. rewrite complete_all_app in Hc.
  destruct (complete_all_wf now before c0 Hwf0 Hnow) as (c2 & rs & E2 & Hwf2 & Hlen2 & _). rewrite E2 in Hc. cbn [mbind option_bind complete_all] in Hc.
  destruct (complete_one now item c2) as [[c3 r3]|] eqn:E3; [|done]. cbn [mbind option_bind] in Hc.
  destruct (complete_all now after c3) as [[c4 rs4]|] eqn:E4; [|done]. cbn in Hc. injection Hc as -> Happ. apply app_inj_1 in Happ as [-> [= -> ->]]; [|congruence].
  destruct (complete_one_first now item c2 c3 r Hwf2 Hnow E3 Hreason Hres) as (Hwf3 & rec & Hr & Hcomp & Hd & Hcr).
  destruct (complete_all_wf now after c3 Hwf3 Hnow) as (c4' & rs4' & E4' & Hwf4 & _). rewrite E4 in E4'. injection E4' as <- <-. split; [done|].
  destruct (complete_all_carries (li_LeaseID (lc_Lease item)) now after c3 c1 rs2 Hwf3 Hnow E4 rec Hr) as [(rec' & Hr' & Hf) _].
  destruct (fo_completed _ _ Hf Hcomp) as [Hcomp' Hcr']. exists rec'. rewrite (fo_decision _ _ Hf), Hcr'. by split_and!.
Qed.

(** C15. Completion takes effect once.  After a [Complete] of any items, one of which
    released its lease or found it lost, and any calls after it, a further completion of that
    lease, among any other items, reports [already_completed] with the original result and
    has no effect: the other items give the same results and the same state without it.  The
    only exception is a receipt that one of the calls has dropped, because its retention is
    over or it had the least time left when the receipts were full. *)
Theorem completion_exactly_once now before item after c c1 rs1 r rs2 calls c2 now' before' item' after' :
  wf c -> 0 <= now -> Complete None now (before ++ item :: after) c = Some (c1, inr (rs1 ++ r :: rs2)) -> length rs1 = length before ->
  cr_Reason r = ReasonNone -> cr_Result r <> CompletionAlreadyCompleted ->
  clock_ok calls -> run calls c1 = Some c2 -> 0 <= now' -> li_LeaseID (lc_Lease item') = li_LeaseID (lc_Lease item) ->
  forgotten (li_LeaseID (lc_Lease item)) (calls ++ [(now', OpComplete None (before' ++ item' :: after'))]) c1 \/
  exists c3 rs3 rs4, length rs3 = length before' /\
    Complete None now' (before' ++ item' :: after') c2 = Some (c3, inr (rs3 ++
      {| cr_LeaseID := li_LeaseID (lc_Lease item); cr_Result := CompletionAlreadyCompleted;
         cr_OriginalResult := cr_Result r; cr_Reason := ReasonNone |} :: rs4)) /\
    Complete None now' (before' ++ after') c2 = Some (c3, inr (rs3 ++ rs4)).
Proof.
  intros Hwf Hnow Hc Hlen Hreason Hres Hclk Hrun Hnow' Hid.
  destruct (completed_receipt now before item after c c1 rs1 r rs2) as (Hwf1 & rec & Hr & Hcomp & [l Hd] & Hcr); try done.
  destruct (receipt_after_run (li_LeaseID (lc_Lease item)) calls now' (OpComplete None (before' ++ item' :: after')) c1 c2 rec)
    as [?|(c3 & He & Hwf3 & _ & _ & (rec3 & Hr3 & Hf3) & _)]; try done; [by left|right].
  destruct (complete_all_wf now' before' c3 Hwf3 Hnow') as (c4 & rs3 & E4 & Hwf4 & Hlen4 & _).
  destruct (complete_all_wf now' after' c4 Hwf4 Hnow') as (c5 & rs4 & E5 & _). exists c5, rs3, rs4. split; [done|].
  destruct (complete_all_carries _ now' before' c3 c4 rs3 Hwf3 Hnow' E4 rec3 Hr3) as [(rec4 & Hr4 & Hf4) _].
  pose proof (follows_trans _ _ _ Hf3 Hf4) as Hf. destruct (fo_completed _ _ Hf Hcomp) as [Hcomp4 Hcr4].
  assert (Hone : complete_one now' item' c4 = Some (c4, {| cr_LeaseID := li_LeaseID (lc_Lease item); cr_Result := CompletionAlreadyCompleted;
    cr_OriginalResult := cr_Result r; cr_Reason := ReasonNone |})).
  { unfold complete_one. rewrite Hid, Hr4, (fo_decision _ _ Hf), Hd, Hcomp4, Hcr4, Hcr. done. }
  unfold Complete. rewrite He. cbn [mbind option_bind]. rewrite !complete_all_app, E4. cbn [mbind option_bind complete_all]. rewrite Hone. cbn [mbind option_bind].
  by rewrite E5.
Qed.

(** ** Expiry and capacity *)

(** Lazy expiry is exact.  On every well-formed state, [expire], which only
    pops due queue entries and skips the stale ones, gives the state of a full
    sweep of both maps: a lease stays iff its deadline is later than now, the
    receipt of a lease that goes is marked expired and retained, and a terminal
    receipt goes iff its retention is over. *)
Theorem expire_is_sweep now c :
  wf c -> 0 <= now ->
  exists c', expire now c = Some c' /\ leases c' = sweep_leases now c /\
    receipts c' = sweep_receipts now c /\ rates c' = rates c /\ policies c' = policies c /\
    forall k, mget (clientInflight c') k = count_if (fun _ l => li_ClientID l =? k) (sweep_leases now c) /\
      mget (poolInflight c') k = count_if (fun _ l => li_PoolID l =? k) (sweep_leases now c).
Proof.
  intros Hwf Hnow. destruct (expire_spec now c Hwf Hnow) as (c' & He & Hwf' & (_ & Hr & Hp) & Hl & Hrs).
  exists c'. split_and!; try done. intros k. pose proof (wf_inv _ Hwf') as Hi.
  rewrite (counts_mget _ _ k (inv_client _ _ _ Hi)), (counts_mget _ _ k (inv_pool _ _ _ Hi)).
  unfold client_leases, pool_leases. by rewrite Hl.
Qed.

(** [Status] tells whether a new request can be recorded: it reports the
    coordinator available iff an [Acquire] at the same time for a fresh lease ID
    is not refused as [coordination_unavailable]. *)
Theorem status_predicts_capacity now c req :
  wf c -> 0 <= now -> receipts c !! ar_LeaseID req = None ->
  exists c1 st c2 d, AdmissionStatus now c = Some (c1, st) /\
    Acquire None now req c = Some (c2, inr d) /\
    (st_Available st = true <-> ad_Reason d <> ReasonCoordinationUnavailable).
Proof.
  intros Hwf Hnow Hno.
  destruct (Acquire_spec now req c Hwf Hnow) as (c0 & c2 & d & He & Hwf0 & Ha & _ & Hd).
  pose proof (fresh_after_expire now c c0 _ Hwf Hnow He Hno) as Hno0.
  destruct (hasTerminalReceipt_spec c0 Hwf0) as (c1 & b & Hb & _ & _ & Hbb).
  assert (Hst : exists cs, AdmissionStatus now c = Some (cs, {| st_Backend := "local";
     st_Available := (Z.of_nat (size (receipts c0)) <? receiptCapacity c0) || b; st_Degraded := false;
     st_Permanent := false; st_LastSuccess := now; st_Reason := ReasonNone |})).
  { unfold AdmissionStatus. rewrite He. cbn [mbind option_bind].
    destruct (_ <? _); cbn [mbind option_bind orb]; [by eexists|]. rewrite Hb. by eexists. }
  destruct Hst as [cs Hst]. eexists cs, _, c2, d. split_and!; [done..|]. cbn.
  destruct Hd as [old Hold|c' _ _ Hfull Hnt|c3 c' d _ Hwf3 Hsz (q & rs & -> & Hrs) Hdec]; [congruence| |].
  - rewrite Hfull, Z.ltb_irrefl. cbn. destruct b; [|done].
    destruct Hbb as (e & r & _ & Hr & Hnz & _). by destruct (Hnt _ _ Hr).
  - pose proof (decide_admission_decided now req {| c0 with terminalExpiries := q; receipts := rs |}) as Hcase.
    rewrite Hdec in Hcase. split; intros _.
    + by inversion Hcase; subst.
    + cbn in Hsz. destruct Hrs as [-> | (id & ((r & Hr & Hnz & _) & _) & ->)]; [lia|].
      destruct b; [by rewrite orb_true_r|]. by destruct (Hbb _ _ Hr).
Qed.

End LocalAdmission.

(** ** Witnesses: a pool with two slots, one of them reserved *)

Definition demo_now : Time := 8640000 * GoTime.Second.

Definition demo_request (id : UUID) (class : PriorityClass) : AdmissionRequest :=
  {| ar_LeaseID := id; ar_OperationStartedAt := demo_now; ar_RequestID := "request"; ar_ReplicaID := 7%N;
     ar_ConfigurationRevision := 1; ar_APIKeyID := 1; ar_ClientID := 10; ar_PoolID := 20;
     ar_ClientPolicyRevision := 1; ar_EffectiveClientLimit := 3; ar_ConfiguredClientLimit := 3;
     ar_PoolGatewayInflightLimit := 2; ar_PoolHighPriorityReserve := 1; ar_PriorityClass := class;
     ar_RequestsPerMinute := 60; ar_TokensPerMinute := 1000; ar_LeaseTTL := 30 * GoTime.Second |}.

Definition demo_lease (id : UUID) : LeaseIdentity :=
  {| li_LeaseID := id; li_ClientID := 10; li_PoolID := 20; li_RequestID := "request"; li_ReplicaID := 7%N;
     li_ExpiresAt := demo_now + 30 * GoTime.Second; li_TTL := 30 * GoTime.Second |}.

Definition demo_completion : LeaseCompletion :=
  {| lc_Lease := demo_lease 1%N;
     lc_Usage := Some {| tu_InputTokens := 100; tu_OutputTokens := 20; tu_CacheReadTokens := 0 |} |}.

Definition demo_calls : list (Time * Op) :=
  [(demo_now, OpAcquire None (demo_request 1%N PriorityNormal));
   (demo_now, OpAcquire None (demo_request 2%N PriorityNormal));
   (demo_now + GoTime.Second, OpRenew None [demo_lease 1%N]);
   (demo_now + GoTime.Second, OpStatus)].

Definition demo_fresh : AdmissionCoordinator (FP := AdmissionRequest) := newAdmissionCoordinator 4.

Lemma demo_clock : clock_ok demo_calls.
Proof. repeat constructor; cbn; unfold demo_now, GoTime.Second; lia. Qed.

Lemma demo_config :
  Forall (fun call => pool_config 20 2 1 call.2 /\ client_config 10 3 call.2) demo_calls.
Proof. unfold demo_calls. rewrite !Forall_cons, Forall_nil. split_and!; try done; cbn; intros; lia. Qed.

Lemma admission_runs_well_formed_witness :
  exists c, run id demo_calls demo_fresh = Some c /\ wf c.
Proof. apply (admission_runs_well_formed id 4 demo_calls demo_clock). Defined.

Lemma admission_limits_hold_witness :
  exists c, run id demo_calls demo_fresh = Some c /\
    pool_leases c 20 <= 2 /\ (0 < 1 -> pool_lower_leases c 20 <= 2 - 1) /\ client_leases c 10 <= 3.
Proof.
  apply (admission_limits_hold id 4 demo_calls 20 2 1 10 3 demo_clock); try lia.
  exact demo_config.
Defined.

Lemma high_priority_reserve_available_witness :
  exists c, run id demo_calls demo_fresh = Some c /\ pool_leases c 20 = 1 /\
  exists c' d, Acquire id None demo_now (demo_request 3%N PriorityHigh) c = Some (c', inr d) /\
    ad_Reason d <> ReasonPoolPriorityReserve /\ ad_ConcurrencyScope d <> AdmissionPoolScope.
Proof.
  eexists. split; [vm_compute; reflexivity|]. split; [reflexivity|].
  eapply (high_priority_reserve_available id 4 demo_calls 20 2 1 _ _ (demo_request 3%N PriorityHigh) demo_clock);
    [lia|lia|eapply Forall_impl; [exact demo_config|by intros ? []]|vm_compute; reflexivity
    |vm_compute; discriminate|reflexivity..].
Defined.


Lemma completion_exactly_once_witness :
  exists c, run id demo_calls demo_fresh = Some c /\
  exists c1 r, Complete None (demo_now + GoTime.Second) [demo_completion] c = Some (c1, inr [r]) /\
    cr_Result r = CompletionReleased /\
  exists c2, run id demo_calls c1 = Some c2 /\
  (forgotten id 1%N (demo_calls ++ [(demo_now + GoTime.Second, OpComplete None [demo_completion])]) c1 \/
  exists c3 rs3 rs4, length rs3 = 0%nat /\ Complete None (demo_now + GoTime.Second) [demo_completion] c2 = Some (c3, inr (rs3 ++
      {| cr_LeaseID := li_LeaseID (lc_Lease demo_completion); cr_Result := CompletionAlreadyCompleted;
          cr_OriginalResult := cr_Result r; cr_Reason := ReasonNone |} :: rs4)) /\
    Complete None (demo_now + GoTime.Second) [] c2 = Some (c3, inr (rs3 ++ rs4))).
Proof.
  destruct (run_new_ind id (fun _ => True) 4 demo_calls I demo_clock) as (c & Hrun & Hwf & _); [done|].
  exists c. split; [exact Hrun|]. vm_compute in Hrun. injection Hrun as <-.
  eexists _, _. split; [vm_compute; reflexivity|]. split; [reflexivity|]. eexists. split; [vm_compute; reflexivity|].
  eapply (completion_exactly_once id (demo_now + GoTime.Second) [] demo_completion [] _ _ [] _ [] demo_calls _ _ [] demo_completion []);
    [exact Hwf|vm_compute; discriminate|vm_compute; reflexivity|reflexivity|reflexivity|discriminate|exact demo_clock|vm_compute; reflexivity|vm_compute; discriminate|reflexivity].
Defined.

Lemma expire_is_sweep_witness :
  exists c, run id demo_calls demo_fresh = Some c /\
  exists c', expire (demo_now + GoTime.Minute) c = Some c' /\
    leases c' = sweep_leases (demo_now + GoTime.Minute) c /\
    receipts c' = sweep_receipts (demo_now + GoTime.Minute) c /\ rates c' = rates c /\
    policies c' = policies c /\
    forall k, mget (clientInflight c') k =
        count_if (fun _ l => li_ClientID l =? k) (sweep_leases (demo_now + GoTime.Minute) c) /\
      mget (poolInflight c') k =
        count_if (fun _ l => li_PoolID l =? k) (sweep_leases (demo_now + GoTime.Minute) c).
Proof.
  destruct (run_new_ind id (fun _ => True) 4 demo_calls I demo_clock) as (c & Hrun & Hwf & _); [done|].
  exists c. split; [exact Hrun|]. apply (expire_is_sweep _ c Hwf). vm_compute. discriminate.
Defined.

Lemma status_predicts_capacity_witness :
  exists c, run id demo_calls demo_fresh = Some c /\
  exists c1 st c2 d, AdmissionStatus demo_now c = Some (c1, st) /\
    Acquire id None demo_now (demo_request 3%N PriorityHigh) c = Some (c2, inr d) /\
    (st_Available st = true <-> ad_Reason d <> ReasonCoordinationUnavailable).
Proof.
  destruct (run_new_ind id (fun _ => True) 4 demo_calls I demo_clock) as (c & Hrun & Hwf & _); [done|].
  exists c. split; [exact Hrun|]. apply (status_predicts_capacity id demo_now c _ Hwf).
  - vm_compute. discriminate.
  - vm_compute in Hrun. injection Hrun as <-. reflexivity.
Defined.
