(* ===== verification/LocalCircuit.v ===== *)
(** The process-local circuit coordinator
    ([src/internal/coordination/local/circuit.go]): one circuit breaker per
    enabled backend, idempotent attempts, probe permits with a time to live, and
    retention of terminal attempts.

    Breakers are shared by reference: a circuit entry and the [complete] closures
    of the attempts handed out under it point to the same breaker, and an
    attempt may outlive the entry.  So the state holds a store of breakers, and
    entries and closures hold references into it.  The [sync.Once] of a closure
    is the [at_called] flag.  [None] is a nil dereference or exhausted fuel.
    The order in which Go ranges over a map is a parameter. *)

From S2P Require Import Prelude Domain Float64 Coordination ExpiryQueue CircuitBreaker.

Definition defaultLocalCircuitAttemptCapacity : Z := 65536.

(** A [*circuitbreaker.Breaker]. *)
Definition BreakerRef := nat.

Record circuitEntry := {
  ce_identity : BackendIdentity;
  ce_breaker : BreakerRef
}.

(** [int64(g)] of a [uint64]. *)
Definition to_int64 (g : Z) : Z := if g <? 2 ^ 63 then g else g - 2 ^ 64.

Definition toCircuitSnapshot (id : BackendIdentity) (s : Snapshot) : CircuitSnapshot :=
  {| cs_Backend := id; cs_State := Snapshot_State s; cs_Generation := to_int64 (Snapshot_Generation s);
     cs_FailureCount := Snapshot_FailureCount s; cs_RetryAt := Snapshot_RetryAt s;
     cs_ProbesInFlight := Snapshot_ProbesInFlight s; cs_Available := Snapshot_Available s |}.

(** [circuitRetentionBoundary(first, rest...)] *)
Definition circuitRetentionBoundary (first : Time) (rest : list Time) : Time :=
  GoTime.Add
    (fold_left (fun latest value => if GoTime.After value latest then value else latest) rest first)
    receiptRetention.

Section LocalCircuit.
Context {FP : Type} `{!EqDecision FP} (fingerprint : CircuitAcquireRequest -> FP).

Record circuitAttempt := {
  at_fingerprint : FP;
  at_backend : BackendIdentity;
  at_generation : Z;
  at_permit : option ProbeIdentity;
  at_breaker : BreakerRef;
  at_complete : Completion;
  at_called : bool;
  at_ttl : Duration;
  at_terminal : bool;
  at_completion : option CircuitCompletion;
  at_acquiredAt : Time;
  at_retainUntil : Time
}.

Record CircuitCoordinator := {
  copts : Options;
  breakers : gmap BreakerRef Breaker;
  nextRef : BreakerRef;
  circuits : gmap Z circuitEntry;
  attempts : gmap UUID circuitAttempt;
  cexpiries : expiryQueue;
  cterminalExpiries : expiryQueue;
  attemptCapacity : Z
}.

(** The orders in which [range] visits the two maps. *)
Context (range_attempts : gmap UUID circuitAttempt -> list (UUID * circuitAttempt)).
Context (range_circuits : gmap Z circuitEntry -> list (Z * circuitEntry)).

Definition newCircuitCoordinator (o : Options) (capacity : Z) : NewError + CircuitCoordinator :=
  match New o with
  | inl err => inl err
  | inr _ =>
    inr {| copts := o; breakers := ∅; nextRef := 0%nat; circuits := ∅; attempts := ∅;
           cexpiries := []; cterminalExpiries := [];
           attemptCapacity := if capacity <=? 0 then defaultLocalCircuitAttemptCapacity else capacity |}
  end.

Definition set_breaker (ref : BreakerRef) (b : Breaker) (c : CircuitCoordinator) : CircuitCoordinator :=
  {| c with breakers := <[ref := b]> (breakers c) |}.

Definition set_attempt (id : UUID) (a : circuitAttempt) (c : CircuitCoordinator) : CircuitCoordinator :=
  {| c with attempts := <[id := a]> (attempts c) |}.

(** [attempt.complete(outcome, at)]: the closure runs its breaker's [complete]
    the first time it is called; the caller sets [at_called]. *)
Definition call_complete (a : circuitAttempt) (outcome : InferenceOutcome) (t : Time)
    (c : CircuitCoordinator) : option CircuitCoordinator :=
  if at_called a then Some c
  else
    b ← breakers c !! at_breaker a;
    Some (set_breaker (at_breaker a) (complete (at_complete a) outcome t b) c).

Definition snapshot (id : Z) (at_ : Time) (c : CircuitCoordinator)
    : option (CircuitCoordinator * CircuitSnapshot) :=
  match circuits c !! id with
  | None =>
    Some (c, {| cs_Backend := {| bi_ID := id; bi_Revision := 0; bi_Enabled := false; bi_Draining := false |};
                cs_State := CircuitOpen; cs_Generation := 0; cs_FailureCount := 0;
                cs_RetryAt := GoTime.zero; cs_ProbesInFlight := 0; cs_Available := false |})
  | Some e =>
    b ← breakers c !! ce_breaker e;
    let '(b, s) := TakeSnapshot at_ b in
    Some (set_breaker (ce_breaker e) b c, toCircuitSnapshot (ce_identity e) s)
  end.

(** ** Expiry *)

Definition retire (id : UUID) (retain : Time) (c : CircuitCoordinator) : CircuitCoordinator :=
  {| c with cterminalExpiries := add (cterminalExpiries c) circuitAttemptExpiry id retain |}.

Definition expire_permit (now : Time) (c : CircuitCoordinator) (expiry : expiryEntry)
    : option CircuitCoordinator :=
  match attempts c !! ee_id expiry with
  | None => Some c
  | Some attempt =>
    match ee_kind expiry with
    | circuitPermitExpiry =>
      match at_permit attempt with
      | Some permit =>
        if at_terminal attempt || negb (GoTime.Equal (pi_ExpiresAt permit) (ee_at expiry)) ||
           GoTime.After (pi_ExpiresAt permit) now
        then Some c
        else
          c ← call_complete attempt InferenceFailure (pi_ExpiresAt permit) c;
          let retain := circuitRetentionBoundary now [at_acquiredAt attempt; pi_ExpiresAt permit] in
          Some (retire (ee_id expiry) retain
                  (set_attempt (ee_id expiry)
                     {| attempt with at_called := true; at_terminal := true; at_retainUntil := retain |} c))
      | None => Some c
      end
    | _ => Some c
    end
  end.

Definition expire_attempt (now : Time) (c : CircuitCoordinator) (expiry : expiryEntry)
    : option CircuitCoordinator :=
  match attempts c !! ee_id expiry with
  | Some attempt =>
    if at_terminal attempt && GoTime.Equal (at_retainUntil attempt) (ee_at expiry) &&
       negb (GoTime.After (at_retainUntil attempt) now)
    then Some {| c with attempts := delete (ee_id expiry) (attempts c) |}
    else Some c
  | None => Some c
  end.

Definition expire (now : Time) (c : CircuitCoordinator) : option CircuitCoordinator :=
  '(q, c) ← drain (S (length (cexpiries c))) now (expire_permit now) (cexpiries c) c;
  let c := {| c with cexpiries := q |} in
  '(q, c) ← drain (S (length (cterminalExpiries c))) now (expire_attempt now) (cterminalExpiries c) c;
  Some {| c with cterminalExpiries := q |}.

(** ** Reconciliation *)

(** The test and the update of the loop body of [invalidate]. *)
Definition invalidates (bid : Z) (a : circuitAttempt) : bool :=
  (bi_ID (at_backend a) =? bid) && negb (at_terminal a).

Definition inval (now : Time) (a : circuitAttempt) : circuitAttempt :=
  {| a with at_terminal := true; at_retainUntil := circuitRetentionBoundary now [at_acquiredAt a] |}.

Definition invalidate_one (bid : Z) (now : Time) (c : CircuitCoordinator) (x : UUID * circuitAttempt)
    : CircuitCoordinator :=
  let '(id, a) := x in
  if invalidates bid a then retire id (at_retainUntil (inval now a)) (set_attempt id (inval now a) c)
  else c.

Definition invalidate (backendID : Z) (now : Time) (c : CircuitCoordinator) : CircuitCoordinator :=
  fold_left (invalidate_one backendID now) (range_attempts (attempts c)) c.

Definition drop_circuit (id : Z) (now : Time) (c : CircuitCoordinator) : CircuitCoordinator :=
  invalidate id now {| c with circuits := delete id (circuits c) |}.

(** [circuitbreaker.New] allocates. *)
Definition install_circuit (value : BackendIdentity) (b : Breaker) (c : CircuitCoordinator)
    : CircuitCoordinator :=
  {| c with breakers := <[nextRef c := b]> (breakers c); nextRef := S (nextRef c);
     circuits := <[bi_ID value := {| ce_identity := value; ce_breaker := nextRef c |}]> (circuits c) |}.

(** The first loop of [Reconcile]: [inl] is its early error return. *)
Fixpoint reconcile_values (now : Time) (values : list BackendIdentity) (seen : gset Z)
    (c : CircuitCoordinator) : CircuitCoordinator * (GoError + gset Z) :=
  match values with
  | [] => (c, inr seen)
  | value :: values =>
    if bool_decide (bi_ID value ∈ seen) then (c, inl "duplicate backend ID"%string)
    else
      let seen := {[bi_ID value]} ∪ seen in
      if negb (bi_Enabled value) || bi_Draining value then
        reconcile_values now values seen (drop_circuit (bi_ID value) now c)
      else if match circuits c !! bi_ID value with
              | Some old => bool_decide (ce_identity old = value)
              | None => false
              end
      then reconcile_values now values seen c
      else
        match New (copts c) with
        | inl _ => (c, inl "invalid circuit options"%string)
        | inr b => reconcile_values now values seen (install_circuit value b (invalidate (bi_ID value) now c))
        end
  end.

(** The second loop of [Reconcile]. *)
Definition reconcile_missing (now : Time) (seen : gset Z) (c : CircuitCoordinator) : CircuitCoordinator :=
  fold_left (fun c '(id, _) => if bool_decide (id ∈ seen) then c else drop_circuit id now c)
    (range_circuits (circuits c)) c.

Definition Reconcile (ctx : option GoError) (now : Time) (values : list BackendIdentity)
    (c : CircuitCoordinator) : option (CircuitCoordinator * option GoError) :=
  match ctx with
  | Some err => Some (c, Some err)
  | None =>
    c ← expire now c;
    match reconcile_values now values ∅ c with
    | (c, inl err) => Some (c, Some err)
    | (c, inr seen) => Some (reconcile_missing now seen c, None)
    end
  end.

(** ** Attempt capacity *)

Fixpoint hasTerminalAttempt_loop (fuel : nat) (c : CircuitCoordinator)
    : option (CircuitCoordinator * bool) :=
  match fuel with
  | O => None
  | S fuel =>
    match head (cterminalExpiries c) with
    | None => Some (c, false)
    | Some expiry =>
      if match attempts c !! ee_id expiry with
         | Some a => at_terminal a && negb (GoTime.IsZero (at_retainUntil a)) &&
                     GoTime.Equal (at_retainUntil a) (ee_at expiry)
         | None => false
         end
      then Some (c, true)
      else
        hasTerminalAttempt_loop fuel
          {| c with cterminalExpiries := from_option snd [] (popOldest (cterminalExpiries c)) |}
    end
  end.

Definition hasTerminalAttempt (c : CircuitCoordinator) : option (CircuitCoordinator * bool) :=
  hasTerminalAttempt_loop (S (length (cterminalExpiries c))) c.

Fixpoint makeAttemptRoom_loop (fuel : nat) (c : CircuitCoordinator)
    : option (CircuitCoordinator * bool) :=
  match fuel with
  | O => None
  | S fuel =>
    if attemptCapacity c <=? Z.of_nat (size (attempts c)) then
      '(c, terminal) ← hasTerminalAttempt c;
      if negb terminal then Some (c, false)
      else
        match popOldest (cterminalExpiries c) with
        | None => Some (c, false)
        | Some (expiry, q) =>
          makeAttemptRoom_loop fuel
            {| c with cterminalExpiries := q; attempts := delete (ee_id expiry) (attempts c) |}
        end
    else Some (c, true)
  end.

Definition makeAttemptRoom (c : CircuitCoordinator) : option (CircuitCoordinator * bool) :=
  makeAttemptRoom_loop (S (length (cterminalExpiries c))) c.

(** ** Acquire *)

(** [Acquire] once the backend's entry is known to be current. *)
Definition acquire_circuit (now : Time) (req : CircuitAcquireRequest) (entry : circuitEntry)
    (c : CircuitCoordinator) : option (CircuitCoordinator * CircuitDecision) :=
  b ← breakers c !! ce_breaker entry;
  let '(b, ok) := CircuitBreaker.Acquire now b in
  let '(b, bs) := TakeSnapshot now b in
  let snap := toCircuitSnapshot (ce_identity entry) bs in
  let c := set_breaker (ce_breaker entry) b c in
  match ok with
  | None =>
    Some (c, {| cd_Snapshot := Some snap; cd_Permit := None;
                cd_Reason := if bool_decide (cs_State snap = CircuitHalfOpen)
                             then ReasonProbeCapacityExhausted else ReasonCircuitOpen |})
  | Some complete =>
    let permit :=
      if bool_decide (cs_State snap = CircuitHalfOpen) then
        Some {| pi_PermitID := ca_AttemptID req; pi_Backend := ca_Backend req;
                pi_Generation := cs_Generation snap; pi_ReplicaID := ca_ReplicaID req;
                pi_ExpiresAt := GoTime.Add now (ca_ProbeTTL req); pi_TTL := ca_ProbeTTL req |}
      else None in
    let attempt :=
      {| at_fingerprint := fingerprint req; at_backend := ca_Backend req;
         at_generation := cs_Generation snap; at_permit := permit; at_breaker := ce_breaker entry;
         at_complete := complete; at_called := false;
         at_ttl := if permit is Some _ then ca_ProbeTTL req else 0; at_terminal := false; at_completion := None;
         at_acquiredAt := ca_AcquisitionStartedAt req; at_retainUntil := GoTime.zero |} in
    let c := set_attempt (ca_AttemptID req) attempt c in
    Some ({| c with cexpiries :=
               match permit with
               | Some p => add (cexpiries c) circuitPermitExpiry (ca_AttemptID req) (pi_ExpiresAt p)
               | None => cexpiries c
               end |},
          {| cd_Snapshot := Some snap; cd_Permit := permit; cd_Reason := ReasonNone |})
  end.

Definition Acquire (ctx : option GoError) (now : Time) (req : CircuitAcquireRequest)
    (c : CircuitCoordinator) : option (CircuitCoordinator * (GoError + CircuitDecision)) :=
  let with_snapshot permit reason c :=
    '(c, snap) ← snapshot (bi_ID (ca_Backend req)) now c;
    Some (c, inr {| cd_Snapshot := Some snap; cd_Permit := permit; cd_Reason := reason |}) in
  let bare reason := {| cd_Snapshot := None; cd_Permit := None; cd_Reason := reason |} in
  match ctx with
  | Some err => Some (c, inl err)
  | None =>
    c ← expire now c;
    match attempts c !! ca_AttemptID req with
    | Some old =>
      if negb (bool_decide (at_fingerprint old = fingerprint req))
      then Some (c, inr (bare ReasonIdempotencyConflict))
      else if at_terminal old then with_snapshot None ReasonLeaseLost c
      else with_snapshot (at_permit old) ReasonNone c
    | None =>
      '(c, room) ← makeAttemptRoom c;
      if negb room then with_snapshot None ReasonCoordinationUnavailable c
      else
        match circuits c !! bi_ID (ca_Backend req) with
        | Some entry =>
          if negb (bool_decide (ce_identity entry = ca_Backend req)) ||
             negb (bi_Enabled (ca_Backend req)) || bi_Draining (ca_Backend req)
          then Some (c, inr (bare ReasonStaleBackend))
          else if stale_operation now (ca_AcquisitionStartedAt req)
          then Some (c, inr (bare ReasonStaleOperation))
          else '(c, d) ← acquire_circuit now req entry c; Some (c, inr d)
        | None => Some (c, inr (bare ReasonStaleBackend))
        end
    end
  end.

(** ** Complete *)

(** [(CircuitSnapshot, error)]: the snapshot comes with the error, if any. *)
Definition Complete (ctx : option GoError) (now : Time) (value : CircuitCompletion)
    (c : CircuitCoordinator)
    : option (CircuitCoordinator * (GoError + CircuitSnapshot * Reason)) :=
  let finish reason c :=
    '(c, snap) ← snapshot (bi_ID (cc_Backend value)) now c; Some (c, inr (snap, reason)) in
  match ctx with
  | Some err => Some (c, inl err)
  | None =>
    c ← expire now c;
    let attempt := attempts c !! cc_AttemptID value in
    match attempt ≫= at_completion with
    | Some old =>
      finish (if negb (bool_decide (old = value)) then ReasonIdempotencyConflict else ReasonNone) c
    | None =>
      if stale_operation now (cc_ReportedOutcomeAt value) then finish ReasonStaleOperation c
      else
        match attempt with
        | None => finish ReasonNone c
        | Some attempt =>
          if negb (bool_decide (at_backend attempt = cc_Backend value)) ||
             negb (at_generation attempt =? cc_Generation value)
          then finish ReasonIdempotencyConflict c
          else
            c ← (if negb (at_terminal attempt)
                 then call_complete attempt (cc_Outcome value) (cc_ReportedOutcomeAt value) c
                 else Some c);
            let retain := circuitRetentionBoundary now [at_acquiredAt attempt; cc_ReportedOutcomeAt value] in
            finish ReasonNone
              (retire (cc_AttemptID value) retain
                 (set_attempt (cc_AttemptID value)
                    {| attempt with at_completion := Some value;
                       at_called := at_called attempt || negb (at_terminal attempt);
                       at_terminal := true; at_retainUntil := retain |} c))
        end
    end
  end.

(** ** RenewProbes *)

Definition zero_lease : LeaseIdentity :=
  {| li_LeaseID := uuidNil; li_ClientID := 0; li_PoolID := 0; li_RequestID := ""; li_ReplicaID := uuidNil;
     li_ExpiresAt := GoTime.zero; li_TTL := 0 |}.

Definition renew_probe (now : Time) (p : ProbeIdentity) (c : CircuitCoordinator)
    : CircuitCoordinator * RenewResult :=
  let lost := (c, {| rr_Lease := zero_lease; rr_Reason := ReasonLeaseLost |}) in
  match attempts c !! pi_PermitID p with
  | None => lost
  | Some a =>
    match at_permit a with
    | None => lost
    | Some permit =>
      if at_terminal a || negb (pi_Generation permit =? pi_Generation p) then lost
      else
        let ttl := if at_ttl a <=? 0 then pi_TTL p else at_ttl a in
        if ttl <=? 0 then
          (c, {| rr_Lease := {| zero_lease with li_LeaseID := pi_PermitID p |}; rr_Reason := ReasonLeaseLost |})
        else
          let expires := GoTime.Add now ttl in
          let c := set_attempt (pi_PermitID p)
                     {| a with at_permit := Some {| permit with pi_ExpiresAt := expires |} |} c in
          ({| c with cexpiries := add (cexpiries c) circuitPermitExpiry (pi_PermitID p) expires |},
           {| rr_Lease := {| zero_lease with li_LeaseID := pi_PermitID p; li_ExpiresAt := expires; li_TTL := ttl |};
              rr_Reason := ReasonNone |})
    end
  end.

Fixpoint renew_probes (now : Time) (probes : list ProbeIdentity) (c : CircuitCoordinator)
    : CircuitCoordinator * list RenewResult :=
  match probes with
  | [] => (c, [])
  | p :: probes =>
    let '(c, r) := renew_probe now p c in
    let '(c, rs) := renew_probes now probes c in
    (c, r :: rs)
  end.

Definition RenewProbes (ctx : option GoError) (now : Time) (probes : list ProbeIdentity)
    (c : CircuitCoordinator) : option (CircuitCoordinator * (GoError + list RenewResult)) :=
  match ctx with
  | Some err => Some (c, inl err)
  | None => c ← expire now c; let '(c, rs) := renew_probes now probes c in Some (c, inr rs)
  end.

(** ** The remaining methods *)

Definition CircuitStatus (now : Time) (c : CircuitCoordinator) : option (CircuitCoordinator * Status) :=
  c ← expire now c;
  '(c, available) ←
    (if Z.of_nat (size (attempts c)) <? attemptCapacity c then Some (c, true) else hasTerminalAttempt c);
  Some (c, {| st_Backend := "local"; st_Available := available; st_Degraded := false;
              st_Permanent := false; st_LastSuccess := now; st_Reason := ReasonNone |}).

Definition CoordinatorSnapshot (backendID : Z) (at_ : Time) (c : CircuitCoordinator)
    : option (CircuitCoordinator * CircuitSnapshot) :=
  c ← expire at_ c; snapshot backendID at_ c.

(** ** Invariant

    Each circuit with the completions of its live attempts is a breaker system
    in the sense of [CircuitBreaker.ok]; [N] bounds the generation of every
    breaker plus its live attempts, which keeps the 64-bit generation from
    wrapping. *)

Definition sel (bid : Z) (a : circuitAttempt) : list Completion :=
  if (bi_ID (at_backend a) =? bid) && negb (at_terminal a) then [at_complete a] else [].

Definition live_of (m : gmap UUID circuitAttempt) (bid : Z) : list Completion :=
  '(_, a) ← map_to_list m; sel bid a.

(** A live attempt belongs to the current circuit of its backend. *)
Record live_ok (E : list expiryEntry) (c : CircuitCoordinator) (id : UUID) (a : circuitAttempt) : Prop := {
  lv_called : at_called a = false;
  lv_completion : at_completion a = None;
  lv_circuit : circuits c !! bi_ID (at_backend a) =
    Some {| ce_identity := at_backend a; ce_breaker := at_breaker a |};
  lv_permit p : at_permit a = Some p -> ExpiryEntry (pi_ExpiresAt p) id circuitPermitExpiry ∈ E;
  lv_probe : is_Some (at_permit a) <-> c_probe (at_complete a) = true
}.

Definition attempt_entry (id : UUID) (a : circuitAttempt) : expiryEntry :=
  ExpiryEntry (at_retainUntil a) id circuitAttemptExpiry.

(** The breaker of a circuit and its live completions. *)
Definition breaker_ok (N : Z) (c : CircuitCoordinator) (bid : Z) (e : circuitEntry) : Prop :=
  exists b, breakers c !! ce_breaker e = Some b /\ options b = copts c /\
    ok (N - Z.of_nat (length (live_of (attempts c) bid)))
      {| breaker := b; outstanding := live_of (attempts c) bid |}.

Record cinv (N : Z) (E T : list expiryEntry) (c : CircuitCoordinator) : Prop := {
  ci_live id a : attempts c !! id = Some a -> at_terminal a = false -> live_ok E c id a;
  ci_term id a : attempts c !! id = Some a -> at_terminal a = true ->
    0 < at_retainUntil a /\ attempt_entry id a ∈ T;
  ci_kindE e : e ∈ E -> ee_kind e = circuitPermitExpiry;
  ci_kindT e : e ∈ T -> ee_kind e = circuitAttemptExpiry;
  ci_entry bid e : circuits c !! bid = Some e ->
    bi_ID (ce_identity e) = bid /\ (ce_breaker e < nextRef c)%nat;
  ci_refs bid1 bid2 e1 e2 : circuits c !! bid1 = Some e1 -> circuits c !! bid2 = Some e2 ->
    ce_breaker e1 = ce_breaker e2 -> bid1 = bid2;
  ci_breaker bid e : circuits c !! bid = Some e -> breaker_ok N c bid e;
  ci_options : exists b, New (copts c) = inr b;
  ci_capacity : 0 < attemptCapacity c;
  ci_size : Z.of_nat (size (attempts c)) <= attemptCapacity c
}.

Record cwf (N : Z) (c : CircuitCoordinator) : Prop := {
  cwf_expiries : heap_ok (cexpiries c);
  cwf_terminal : heap_ok (cterminalExpiries c);
  cwf_inv : cinv N (cexpiries c) (cterminalExpiries c) c
}.

Lemma live_of_delete m id a bid :
  m !! id = Some a -> live_of m bid ≡ₚ sel bid a ++ live_of (delete id m) bid.
Proof. intros Ha. unfold live_of. by rewrite <- (map_to_list_delete m id a Ha). Qed.

Lemma live_of_insert m id a bid :
  live_of (<[id := a]> m) bid ≡ₚ sel bid a ++ live_of (delete id m) bid.
Proof.
  rewrite (live_of_delete (<[id := a]> m) id a bid) by apply lookup_insert_eq.
  by rewrite delete_insert_eq.
Qed.

(** Replacing an attempt by one that counts the same. *)
Lemma live_of_replace m id a a' bid :
  m !! id = Some a -> sel bid a' = sel bid a -> live_of (<[id := a']> m) bid ≡ₚ live_of m bid.
Proof. intros Ha Hs. by rewrite live_of_insert, Hs, <- live_of_delete. Qed.

Lemma elem_of_live_of m bid x :
  x ∈ live_of m bid <->
  exists id a, m !! id = Some a /\ bi_ID (at_backend a) = bid /\ at_terminal a = false /\ x = at_complete a.
Proof.
  unfold live_of. rewrite list_elem_of_bind. split.
  - intros [[id a] [Hx Hin]]. apply elem_of_map_to_list in Hin. unfold sel in Hx.
    case_match eqn:E; [|by apply elem_of_nil in Hx]. apply list_elem_of_singleton in Hx. b2p. eauto 10.
  - intros (id & a & Ha & Hb & Ht & ->). exists (id, a). split; [|by apply elem_of_map_to_list].
    unfold sel. rewrite Hb, Z.eqb_refl, Ht. apply list_elem_of_singleton. done.
Qed.

(** The one place where attempts and breakers change together. *)
Lemma cinv_set N N' E E' T T' c c' id a' :
  cinv N E T c ->
  attempts c' = <[id := a']> (attempts c) -> circuits c' = circuits c -> copts c' = copts c ->
  nextRef c' = nextRef c -> attemptCapacity c' = attemptCapacity c ->
  is_Some (attempts c !! id) \/ Z.of_nat (size (attempts c)) < attemptCapacity c ->
  (forall e, e ∈ E -> e ∈ E') -> (forall e, e ∈ E' -> ee_kind e = circuitPermitExpiry) ->
  (forall e, e ∈ T -> e ∈ T') -> (forall e, e ∈ T' -> ee_kind e = circuitAttemptExpiry) ->
  (at_terminal a' = false -> live_ok E' c' id a') ->
  (at_terminal a' = true -> 0 < at_retainUntil a' /\ attempt_entry id a' ∈ T') ->
  (forall bid e, circuits c !! bid = Some e -> breaker_ok N' c' bid e) ->
  cinv N' E' T' c'.
Proof.
  intros Hi Ha Hc Ho Hn Hcap Hroom HE HKE HT HKT Hlive Hterm Hb.
  destruct Hi as [HL HTe _ _ HEn HR _ Hopt Hcp Hsz].
  constructor; rewrite ?Hc, ?Ho, ?Hn, ?Hcap; try done.
  - intros id0 a0. rewrite Ha, lookup_insert_Some. intros [[<- <-]|[Hne Ha0]] Ht; [auto|].
    destruct (HL id0 a0 Ha0 Ht). constructor; rewrite ?Hc; eauto.
  - intros id0 a0. rewrite Ha, lookup_insert_Some. intros [[<- <-]|[Hne Ha0]] Ht; [auto|].
    destruct (HTe id0 a0 Ha0 Ht). auto.
  - rewrite Ha, map_size_insert. destruct Hroom as [[a0 Ha0]|Hroom]; [by rewrite Ha0|].
    destruct (attempts c !! id); cbn; lia.
Qed.

(** [breaker_ok] with the live completions in any order. *)
Lemma breaker_ok_intro N c bid e b l :
  breakers c !! ce_breaker e = Some b -> options b = copts c -> live_of (attempts c) bid ≡ₚ l ->
  ok (N - Z.of_nat (length l)) {| breaker := b; outstanding := l |} -> breaker_ok N c bid e.
Proof.
  intros Hb Ho Hl Hok. exists b. split_and!; try done. rewrite (Permutation_length Hl).
  by apply (ok_perm _ _ l).
Qed.

Lemma breaker_ok_elim N c bid e l :
  breaker_ok N c bid e -> live_of (attempts c) bid ≡ₚ l ->
  exists b, breakers c !! ce_breaker e = Some b /\ options b = copts c /\
    ok (N - Z.of_nat (length l)) {| breaker := b; outstanding := l |}.
Proof.
  intros (b & Hb & Ho & Hok) Hl. exists b. split_and!; try done. rewrite <- (Permutation_length Hl).
  by apply (ok_perm _ _ (live_of (attempts c) bid)).
Qed.

(** A circuit whose breaker and live attempts do not change. *)
Lemma breaker_ok_same N N' c c' bid e :
  breaker_ok N c bid e -> N <= N' -> copts c' = copts c ->
  breakers c' !! ce_breaker e = breakers c !! ce_breaker e ->
  live_of (attempts c') bid ≡ₚ live_of (attempts c) bid -> breaker_ok N' c' bid e.
Proof.
  intros (b & Hb & Ho & Hok) HN Hco Hbr Hl. eapply breaker_ok_intro; [by rewrite Hbr|congruence|exact Hl|].
  eapply ok_mono; [|exact Hok]. lia.
Qed.

Lemma sel_other a bid : bi_ID (at_backend a) <> bid -> sel bid a = [].
Proof. intros Hne. unfold sel. by rewrite (proj2 (Z.eqb_neq _ _) Hne). Qed.

Lemma sel_terminal a bid : at_terminal a = true -> sel bid a = [].
Proof. intros Ht. unfold sel. by rewrite Ht, andb_false_r. Qed.

Lemma sel_live a : at_terminal a = false -> sel (bi_ID (at_backend a)) a = [at_complete a].
Proof. intros Ht. unfold sel. by rewrite Ht, Z.eqb_refl. Qed.

(** Writing a terminal attempt without calling its closure: only its own live
    completion can disappear, so the breaker must not count it. *)
Lemma cinv_rewrite_terminal N E T T' c id a a' q1 q2 :
  cinv N E T c -> attempts c !! id = Some a -> at_terminal a = true -> at_terminal a' = true ->
  0 < at_retainUntil a' -> (forall e, e ∈ T' <-> e = attempt_entry id a' \/ e ∈ T) ->
  cinv N E T' {| (set_attempt id a' c) with cexpiries := q1; cterminalExpiries := q2 |}.
Proof.
  intros Hi Ha Ht Ht' Hret HT'. eapply (cinv_set N N E E T T' c _ id a' Hi); cbn; try done; eauto.
  - apply (ci_kindE _ _ _ _ Hi).
  - intros e. rewrite HT'. auto.
  - intros e. rewrite HT'. intros [->|]; [done|by eapply ci_kindT].
  - congruence.
  - intros _. split; [done|]. apply HT'. auto.
  - intros bid e He. eapply breaker_ok_same; [by apply (ci_breaker _ _ _ _ Hi)|lia|done..|].
    cbn. apply (live_of_replace _ _ a); [done|]. by rewrite !sel_terminal.
Qed.

(** Completing a live attempt: its breaker sees the outcome once. *)
Lemma cinv_complete_live N E T T' c id a a' outcome t q1 q2 :
  cinv N E T c -> N < 2 ^ 64 - 1 -> attempts c !! id = Some a -> at_terminal a = false ->
  at_terminal a' = true -> 0 < at_retainUntil a' ->
  (forall e, e ∈ T' <-> e = attempt_entry id a' \/ e ∈ T) ->
  exists b, breakers c !! at_breaker a = Some b /\
    call_complete a outcome t c = Some (set_breaker (at_breaker a) (complete (at_complete a) outcome t b) c) /\
    cinv N E T' {| (set_attempt id a' (set_breaker (at_breaker a) (complete (at_complete a) outcome t b) c))
                   with cexpiries := q1; cterminalExpiries := q2 |}.
Proof.
  intros Hi HN Ha Ht Ht' Hret HT'. destruct (ci_live _ _ _ _ Hi _ _ Ha Ht) as [Hcalled _ Hcirc _ _].
  set (bid := bi_ID (at_backend a)) in *. pose proof (live_of_delete (attempts c) id a bid Ha) as Hl.
  unfold bid in Hl at 2. rewrite sel_live in Hl by done.
  destruct (breaker_ok_elim _ _ _ _ _ (ci_breaker _ _ _ _ Hi _ _ Hcirc) Hl) as (b & Hb & Ho & Hok).
  cbn [ce_breaker] in Hb. exists b. unfold call_complete. rewrite Hcalled, Hb. split_and!; [done..|].
  eapply (cinv_set N N E E T T' c _ id a' Hi); cbn; try done; eauto.
  - apply (ci_kindE _ _ _ _ Hi).
  - intros e. rewrite HT'. auto.
  - intros e. rewrite HT'. intros [->|]; [done|by eapply ci_kindT].
  - congruence.
  - intros _. split; [done|]. apply HT'. auto.
  - intros bid' e He. destruct (decide (bid' = bid)) as [->|Hne].
    + rewrite Hcirc in He. injection He as <-.
      apply (breaker_ok_intro _ _ _ _ (complete (at_complete a) outcome t b) (live_of (delete id (attempts c)) bid)).
      * cbn. apply lookup_insert_eq.
      * by rewrite complete_options.
      * cbn. by rewrite live_of_insert, (sel_terminal a').
      * cbn [app length] in Hok. eapply ok_mono; [|eapply (ok_complete _ _ [] _ _ outcome t Hok); [lia|done]]. lia.
    + eapply breaker_ok_same; [by apply (ci_breaker _ _ _ _ Hi)|lia|done| |]; cbn.
      * rewrite lookup_insert_ne; [done|]. intros Eref. apply Hne.
        by apply (ci_refs _ _ _ _ Hi bid' bid _ _ He Hcirc).
      * apply (live_of_replace _ _ a); [done|]. rewrite (sel_terminal a') by done. by rewrite sel_other.
Qed.

Lemma cinv_queues N E E' T T' c q1 q2 :
  cinv N E T c ->
  (forall id a p, attempts c !! id = Some a -> at_terminal a = false -> at_permit a = Some p ->
     ExpiryEntry (pi_ExpiresAt p) id circuitPermitExpiry ∈ E') ->
  (forall id a, attempts c !! id = Some a -> at_terminal a = true -> attempt_entry id a ∈ T') ->
  (forall e, e ∈ E' -> e ∈ E) -> (forall e, e ∈ T' -> e ∈ T) ->
  cinv N E' T' {| c with cexpiries := q1; cterminalExpiries := q2 |}.
Proof.
  intros Hi HE HT HEs HTs. destruct Hi as [HL HTe HKE HKT HEn HR HB Hopt Hcp Hsz].
  constructor; cbn; try done; eauto.
  - intros id a Ha Ht. destruct (HL id a Ha Ht). constructor; eauto.
  - intros id a Ha Ht. destruct (HTe id a Ha Ht). eauto.
Qed.

Lemma cinv_mono N N' E T c : N <= N' -> cinv N E T c -> cinv N' E T c.
Proof.
  intros HN []. constructor; try done. intros bid e He.
  eapply breaker_ok_same; eauto.
Qed.

(** Replacing the breaker of a circuit by one with the same live completions. *)
Lemma cinv_set_breaker N N' E T c bid e b :
  cinv N E T c -> N <= N' -> circuits c !! bid = Some e -> options b = copts c ->
  ok (N' - Z.of_nat (length (live_of (attempts c) bid)))
    {| breaker := b; outstanding := live_of (attempts c) bid |} ->
  cinv N' E T (set_breaker (ce_breaker e) b c).
Proof.
  intros Hi HN He Ho Hok. destruct (Hi) as [HL HTe HKE HKT HEn HR HB Hopt Hcp Hsz].
  constructor; cbn; try done.
  { intros id a Ha Ht. destruct (HL id a Ha Ht). by constructor. }
  intros bid' e' He'. destruct (decide (bid' = bid)) as [->|Hne].
  - rewrite He in He'. injection He' as <-. exists b. cbn. by rewrite lookup_insert_eq.
  - eapply breaker_ok_same; [by apply HB|lia|done| |done]. cbn. rewrite lookup_insert_ne; [done|].
    intros Eref. by apply Hne, (HR bid' bid e' e).
Qed.

Lemma snapshot_inv N E T c bid now :
  cinv N E T c -> N < 2 ^ 64 - 1 ->
  exists c' s, snapshot bid now c = Some (c', s) /\ cinv (N + 1) E T c' /\
    attempts c' = attempts c /\ circuits c' = circuits c /\ cexpiries c' = cexpiries c /\
    cterminalExpiries c' = cterminalExpiries c /\ bi_ID (cs_Backend s) = bid.
Proof.
  intros Hi HN. unfold snapshot. destruct (circuits c !! bid) as [e|] eqn:He.
  2: { eexists c, _. split_and!; try done. apply (cinv_mono N); [lia|done]. }
  destruct (ci_breaker _ _ _ _ Hi _ _ He) as (b & Hb & Ho & Hok). rewrite Hb. cbn [mbind option_bind].
  destruct (TakeSnapshot now b) as [b' s] eqn:Es.
  pose proof (ok_snapshot _ now _ Hok ltac:(lia)) as Hok'. cbn [breaker outstanding] in Hok'. rewrite Es in Hok'.
  eexists _, _. split_and!; try done; [|apply (ci_entry _ _ _ _ Hi _ _ He)].
  apply (cinv_set_breaker N _ _ _ _ bid); try done; [lia| |].
  - rewrite <- Ho. replace b' with (TakeSnapshot now b).1 by by rewrite Es. apply snapshot_options.
  - eapply ok_mono; [|exact Hok']. lia.
Qed.

Lemma acquire_circuit_inv N E T c now req e :
  cinv N E T c -> N < 2 ^ 64 - 4 -> circuits c !! bi_ID (ca_Backend req) = Some e ->
  ce_identity e = ca_Backend req -> attempts c !! ca_AttemptID req = None ->
  Z.of_nat (size (attempts c)) < attemptCapacity c -> E = cexpiries c -> heap_ok E ->
  exists c' d, acquire_circuit now req e c = Some (c', d) /\ cinv (N + 3) (cexpiries c') T c' /\
    heap_ok (cexpiries c') /\ cterminalExpiries c' = cterminalExpiries c.
Proof.
  intros Hi HN He Hid Hno Hroom HE Hh. subst E. set (bid := bi_ID (ca_Backend req)) in *.
  destruct (ci_breaker _ _ _ _ Hi _ _ He) as (b & Hb & Ho & Hok). unfold acquire_circuit.
  rewrite Hb. cbn [mbind option_bind].
  destruct (CircuitBreaker.Acquire now b) as [b1 o] eqn:EA. destruct (TakeSnapshot now b1) as [b2 s] eqn:ES.
  pose proof (ok_acquire _ now _ b1 o Hok ltac:(lia) EA) as Hok1. cbn [breaker outstanding] in Hok1.
  pose proof (ok_snapshot _ now _ Hok1 ltac:(lia)) as Hok2. cbn [breaker outstanding] in Hok2. rewrite ES in Hok2.
  assert (Ho2 : options b2 = copts c).
  { rewrite <- Ho, <- (acquire_options now b), EA. cbn. by rewrite <- (snapshot_options now b1), ES. }
  destruct (acquire_snapshot now b b1 b2 o s EA ES) as (Hgen & Hst & Hkind).
  destruct o as [cpl|].
  2: { eexists _, _. split_and!; try done. cbn [cexpiries set_breaker].
       apply (cinv_set_breaker N _ _ _ _ bid); try done; [lia|].
       eapply ok_mono; [|exact Hok2]. cbn. lia. }
  eexists _, _. split; [reflexivity|]. cbn [cexpiries set_breaker set_attempt].
  set (permit := if bool_decide (cs_State _ = CircuitHalfOpen) then _ else _).
  assert (Hp : is_Some permit <-> c_probe cpl = true).
  { destruct Hkind as [_ ->]. unfold permit. cbn. rewrite Hst. case_bool_decide; [by split; eauto|].
    split; [by intros [? ?]|done]. }
  set (E' := match permit with Some p => _ | None => _ end).
  assert (HE' : heap_ok E' /\ forall x, x ∈ E' <-> x ∈ cexpiries c \/
    exists p, permit = Some p /\ x = ExpiryEntry (pi_ExpiresAt p) (ca_AttemptID req) circuitPermitExpiry).
  { unfold E'. destruct permit as [p|].
    - split; [by apply add_spec|]. intros x. rewrite elem_of_add by done.
      split; [intros [->|]; eauto|intros [?|(p' & [= <-] & ->)]; auto].
    - split; [done|]. intros x. split; [auto|intros [?|(? & [=] & _)]; auto]. }
  destruct HE' as [HhE HE'].
  split_and!; try done.
  eapply (cinv_set N _ _ E' T T c _ (ca_AttemptID req) _ Hi); cbn [attempts circuits copts nextRef attemptCapacity];
    [reflexivity|done|done|done|done|by right| | |done|apply (ci_kindT _ _ _ _ Hi)| |done|].
  - intros x. rewrite HE'. auto.
  - intros x. rewrite HE'. intros [?|(p & _ & ->)]; [by eapply ci_kindE|done].
  - intros _. constructor; cbn; try done.
    + fold bid. rewrite He, <- Hid. by destruct e.
    + intros p Ep. apply HE'. right. by exists p.
  - intros bid' e' He'. destruct (decide (bid' = bid)) as [->|Hne].
    + rewrite He in He'. injection He' as <-. eapply (breaker_ok_intro _ _ _ _ b2 (cpl :: live_of (attempts c) bid)).
      * cbn. apply lookup_insert_eq.
      * done.
      * cbn. rewrite live_of_insert, delete_id by done. unfold sel at 1. cbn. fold bid. by rewrite Z.eqb_refl.
      * cbn in Hok2. eapply ok_mono; [|exact Hok2]. cbn. lia.
    + eapply breaker_ok_same; [by apply (ci_breaker _ _ _ _ Hi)|lia|done| |]; cbn.
      * rewrite lookup_insert_ne; [done|]. intros Eref. by apply Hne, (ci_refs _ _ _ _ Hi bid' bid e' e).
      * rewrite live_of_insert, delete_id, sel_other by (cbn; done). done.
Qed.

(** ** Invalidation *)

Definition inval_map (bid : Z) (now : Time) (m : gmap UUID circuitAttempt) : gmap UUID circuitAttempt :=
  (fun a => if invalidates bid a then inval now a else a) <$> m.

Lemma circuitRetentionBoundary_ge now rest : now + receiptRetention <= circuitRetentionBoundary now rest.
Proof.
  unfold circuitRetentionBoundary. time_unfold.
  assert (H : forall rest x, x <= fold_left (fun latest value => if latest <? value then value else latest) rest x);
    [|apply Z.add_le_mono_r, H].
  clear. induction rest as [|y rest IH]; intros x; simpl; [lia|].
  specialize (IH (if x <? y then y else x)). case_match; b2p; lia.
Qed.

Lemma circuitRetentionBoundary_pos now rest : 0 <= now -> 0 < circuitRetentionBoundary now rest.
Proof.
  intros. pose proof (circuitRetentionBoundary_ge now rest) as H0.
  unfold receiptRetention, GoTime.Hour, GoTime.Minute, GoTime.Second in H0. lia.
Qed.

Lemma invalidate_fold bid now l c :
  heap_ok (cterminalExpiries c) -> NoDup l.*1 -> (forall id a, (id, a) ∈ l -> attempts c !! id = Some a) ->
  exists m q,
    fold_left (invalidate_one bid now) l c = {| c with attempts := m; cterminalExpiries := q |} /\
    (forall id, m !! id = if decide (id ∈ l.*1)
       then (fun a => if invalidates bid a then inval now a else a) <$> attempts c !! id else attempts c !! id) /\
    heap_ok q /\
    (forall e, e ∈ q <-> e ∈ cterminalExpiries c \/
       exists id a, (id, a) ∈ l /\ invalidates bid a = true /\ e = attempt_entry id (inval now a)).
Proof.
  revert c. induction l as [|[id a] l IH]; intros c Hh Hnd Hl; cbn [fold_left].
  - exists (attempts c), (cterminalExpiries c). split_and!; try done; [by destruct c|..].
    intros e. split; [auto|]. intros [?|(? & ? & []%elem_of_nil & _)]. done.
  - apply NoDup_cons in Hnd as [Hnin Hnd]. pose proof (Hl id a ltac:(left)) as Ha.
    set (c1' := invalidate_one bid now c (id, a)).
    assert (Hc1 : heap_ok (cterminalExpiries c1') /\
      attempts c1' = (if invalidates bid a then <[id := inval now a]> (attempts c) else attempts c) /\
      (forall e, e ∈ cterminalExpiries c1' <-> e ∈ cterminalExpiries c \/
         (invalidates bid a = true /\ e = attempt_entry id (inval now a)))).
    { unfold c1', invalidate_one. destruct (invalidates bid a); cbn; split_and!; try done; [by apply add_spec| |].
      - intros e. rewrite elem_of_add by done. unfold attempt_entry. cbn. tauto.
      - intros e. split; [auto|]. intros [?|[]]; done. }
    destruct Hc1 as (Hh1 & Hm1 & Hq1).
    destruct (IH c1' Hh1 Hnd) as (m & q & Hf & Hm & Hq & Hin).
    { intros id' a' Hin. rewrite Hm1. pose proof (Hl id' a' ltac:(by right)).
      destruct (invalidates bid a); [|done]. rewrite lookup_insert_ne; [done|]. intros ->.
      apply Hnin. apply list_elem_of_fmap. by exists (id', a'). }
    exists m, q. split_and!; [|intros id'|done|intros e].
    + rewrite Hf. unfold c1', invalidate_one. by destruct (invalidates bid a).
    + rewrite Hm, Hm1. cbn [fmap list_fmap]. destruct (decide (id' = id)) as [->|Hne].
      * rewrite (decide_True (P := id ∈ id :: l.*1)) by left. rewrite decide_False by done.
        destruct (invalidates bid a) eqn:E; rewrite ?lookup_insert_eq, ?Ha; cbn; by rewrite E.
      * assert (Hl' : (if invalidates bid a then <[id:=inval now a]> (attempts c) else attempts c) !! id' =
          attempts c !! id') by (case_match; rewrite ?lookup_insert_ne by done; done).
        rewrite Hl'. destruct (decide (id' ∈ l.*1)) as [Hi|Hi];
          [rewrite decide_True by (by right); done|rewrite decide_False; [done|]].
        rewrite elem_of_cons. tauto.
    + rewrite Hin, Hq1. split.
      * intros [[?|[? ->]]|(id' & a' & ? & ? & ->)]; [auto|right..].
        -- exists id, a. split_and!; try done. left.
        -- exists id', a'. split_and!; try done. by right.
      * intros [?|(id' & a' & [[= -> ->]|?]%elem_of_cons & ? & ->)]; eauto 10.
Qed.

(** What the language guarantees of [range]: every entry once. *)
Hypothesis range_attempts_perm : forall m, range_attempts m ≡ₚ map_to_list m.
Hypothesis range_circuits_perm : forall m, range_circuits m ≡ₚ map_to_list m.

Lemma invalidate_spec bid now c :
  heap_ok (cterminalExpiries c) ->
  exists q, invalidate bid now c = {| c with attempts := inval_map bid now (attempts c); cterminalExpiries := q |} /\
    heap_ok q /\
    (forall e, e ∈ q <-> e ∈ cterminalExpiries c \/
       exists id a, attempts c !! id = Some a /\ invalidates bid a = true /\ e = attempt_entry id (inval now a)).
Proof.
  intros Hh. set (l := range_attempts (attempts c)). pose proof (range_attempts_perm (attempts c)) as Hp. fold l in Hp.
  assert (Hmem : forall id a, (id, a) ∈ l <-> attempts c !! id = Some a).
  { intros. by rewrite Hp, elem_of_map_to_list. }
  destruct (invalidate_fold bid now l c Hh) as (m & q & Hf & Hm & Hq & Hin).
  { rewrite Hp. apply NoDup_fst_map_to_list. }
  { intros id a. apply Hmem. }
  exists q. split_and!; try done.
  - unfold invalidate. fold l. rewrite Hf. f_equal. apply map_eq. intros id. rewrite Hm.
    unfold inval_map. rewrite lookup_fmap. case_decide as D; [done|].
    destruct (attempts c !! id) as [a|] eqn:Ha; [|done]. destruct D. apply list_elem_of_fmap.
    exists (id, a). split; [done|]. by apply Hmem.
  - intros e. rewrite Hin. by setoid_rewrite Hmem.
Qed.

Lemma live_of_inval bid now m bid' :
  live_of (inval_map bid now m) bid' ≡ₚ if decide (bid' = bid) then [] else live_of m bid'.
Proof.
  unfold live_of, inval_map. rewrite map_to_list_fmap.
  induction (map_to_list m) as [|[id a] l IH]; cbn; [by case_decide|].
  change (list_bind _ _ ?f ?l) with (mbind (M := list) f l) in *. rewrite IH.
  destruct (invalidates bid a) eqn:E.
  - rewrite sel_terminal by done. unfold invalidates in E. b2p. case_decide as D; [done|].
    rewrite sel_other by congruence. done.
  - case_decide as D; [|done]. subst bid'. unfold sel. unfold invalidates in E. by rewrite E.
Qed.

(** After invalidating a backend its circuit is gone or new. *)
Lemma cinv_invalidated N E T T' c c' bid now :
  cinv N E T c -> 0 <= N -> 0 <= now ->
  attempts c' = inval_map bid now (attempts c) -> copts c' = copts c ->
  attemptCapacity c' = attemptCapacity c -> (nextRef c <= nextRef c')%nat ->
  (forall bid', bid' <> bid -> circuits c' !! bid' = circuits c !! bid') ->
  (forall ref, (ref < nextRef c)%nat -> breakers c' !! ref = breakers c !! ref) ->
  (forall e, circuits c' !! bid = Some e -> bi_ID (ce_identity e) = bid /\
     (nextRef c <= ce_breaker e < nextRef c')%nat /\
     exists b, New (copts c) = inr b /\ breakers c' !! ce_breaker e = Some b /\ options b = copts c) ->
  (forall e, e ∈ T -> e ∈ T') -> (forall e, e ∈ T' -> ee_kind e = circuitAttemptExpiry) ->
  (forall id a, attempts c !! id = Some a -> invalidates bid a = true -> attempt_entry id (inval now a) ∈ T') ->
  cinv N E T' c'.
Proof.
  intros Hi HN Hnow Ha Ho Hcap Hnext Hother Hbr Hnew HT HKT Hin.
  destruct (Hi) as [HL HTe HKE _ HEn HR HB Hopt Hcp Hsz].
  constructor; rewrite ?Ho, ?Hcap; try done.
  - intros id a'. rewrite Ha. unfold inval_map. rewrite lookup_fmap. intros Ha' Ht.
    destruct (attempts c !! id) as [a|] eqn:Eid; [|done]. cbn in Ha'. injection Ha' as <-.
    destruct (invalidates bid a) eqn:Ei; [done|]. destruct (HL id a Eid Ht). constructor; try done.
    rewrite Hother; [done|]. unfold invalidates in Ei. rewrite Ht, andb_true_r in Ei. by b2p.
  - intros id a'. rewrite Ha. unfold inval_map. rewrite lookup_fmap. intros Ha' Ht.
    destruct (attempts c !! id) as [a|] eqn:Eid; [|done]. cbn in Ha'. injection Ha' as <-.
    destruct (invalidates bid a) eqn:Ei.
    + split; [by apply circuitRetentionBoundary_pos|by apply Hin].
    + destruct (HTe id a Eid Ht). auto.
  - intros bid' e He. destruct (decide (bid' = bid)) as [->|Hne].
    + destruct (Hnew e He) as (? & ? & _). split; [done|lia].
    + rewrite Hother in He by done. destruct (HEn bid' e He). split; [done|lia].
  - intros b1 b2 e1 e2 H1 H2 Eref. destruct (decide (b1 = bid)) as [->|N1], (decide (b2 = bid)) as [->|N2]; [done| | |].
    + rewrite Hother in H2 by done. destruct (Hnew e1 H1) as (_ & ? & _), (HEn _ _ H2). lia.
    + rewrite Hother in H1 by done. destruct (Hnew e2 H2) as (_ & ? & _), (HEn _ _ H1). lia.
    + rewrite Hother in H1, H2 by done. eauto.
  - intros bid' e He. pose proof (live_of_inval bid now (attempts c) bid') as Hl.
    destruct (decide (bid' = bid)) as [->|Hne].
    + destruct (Hnew e He) as (_ & _ & b & Hb & Hlook & Hopts).
      apply (breaker_ok_intro _ _ _ _ b []); [done|congruence|by rewrite Ha|].
      eapply ok_mono; [|by apply (ok_new (copts c))]. cbn. lia.
    + rewrite Hother in He by done. eapply breaker_ok_same; [by apply HB|lia|done| |by rewrite Ha].
      apply Hbr. by apply (HEn bid' e).
  - rewrite Ha. unfold inval_map. by rewrite map_size_fmap.
Qed.

Lemma cwf_drop_circuit N c bid now :
  cwf N c -> 0 <= N -> 0 <= now -> cwf N (drop_circuit bid now c).
Proof.
  intros [He Ht Hi] HN Hnow. unfold drop_circuit.
  destruct (invalidate_spec bid now {| c with circuits := delete bid (circuits c) |} Ht) as (q & -> & Hq & Hin).
  split; cbn; [done..|].
  eapply (cinv_invalidated N _ _ q c _ bid now Hi); cbn in *; try done.
  - intros bid' Hne. by rewrite lookup_delete_ne.
  - intros e. by rewrite lookup_delete_eq.
  - intros e. rewrite Hin. auto.
  - intros e. rewrite Hin. intros [?|(? & ? & _ & _ & ->)]; [by eapply ci_kindT|done].
  - intros id a Ha Hinv. apply Hin. eauto 10.
Qed.

Lemma New_options o b : New o = inr b -> options b = o.
Proof. unfold New. repeat case_match; intros [= <-]; done. Qed.

Lemma cwf_install_circuit N c value b now :
  cwf N c -> 0 <= N -> 0 <= now -> New (copts c) = inr b ->
  cwf N (install_circuit value b (invalidate (bi_ID value) now c)).
Proof.
  intros [He Ht Hi] HN Hnow Hb.
  destruct (invalidate_spec (bi_ID value) now c Ht) as (q & -> & Hq & Hin).
  split; cbn; [done..|].
  eapply (cinv_invalidated N _ _ q c _ (bi_ID value) now Hi); cbn in *; try done; [lia|..].
  - intros bid' Hne. by rewrite lookup_insert_ne.
  - intros ref Href. rewrite lookup_insert_ne; [done|lia].
  - intros e. rewrite lookup_insert_eq. intros [= <-]. cbn. split_and!; [done|lia|lia|].
    exists b. rewrite lookup_insert_eq. split_and!; try done. by apply New_options.
  - intros e. rewrite Hin. auto.
  - intros e. rewrite Hin. intros [?|(? & ? & _ & _ & ->)]; [by eapply ci_kindT|done].
  - intros id a Ha Hinv. apply Hin. eauto 10.
Qed.

Lemma reconcile_values_cwf N now values seen c c' r :
  cwf N c -> 0 <= N -> 0 <= now -> reconcile_values now values seen c = (c', r) -> cwf N c'.
Proof.
  revert seen c. induction values as [|v values IH]; intros seen c Hwf HN Hnow; cbn [reconcile_values].
  { by intros [= <- _]. }
  destruct (bool_decide _); [by intros [= <- _]|].
  destruct (_ || _); [apply IH; try done; by apply cwf_drop_circuit|].
  destruct (match circuits c !! bi_ID v with Some old => _ | None => _ end); [by apply IH|].
  destruct (New (copts c)) as [err|b] eqn:Hb; [by intros [= <- _]|].
  apply IH; try done. by apply cwf_install_circuit.
Qed.

Lemma reconcile_missing_cwf N now seen c :
  cwf N c -> 0 <= N -> 0 <= now -> cwf N (reconcile_missing now seen c).
Proof.
  intros Hwf HN Hnow. unfold reconcile_missing. generalize (range_circuits (circuits c)) as l.
  intros l. revert c Hwf. induction l as [|[id e] l IH]; intros c Hwf; cbn [fold_left]; [done|].
  apply IH. destruct (bool_decide _); [done|]. by apply cwf_drop_circuit.
Qed.

(** ** Expiry *)

(** What expiry leaves alone: the circuits, the attempts still live, and the
    terminal attempts still retained. *)
Definition expiry_frame (now : Time) (c c' : CircuitCoordinator) : Prop :=
  circuits c' = circuits c /\
  (forall id a, attempts c' !! id = Some a -> at_terminal a = false -> attempts c !! id = Some a) /\
  (forall id a, attempts c !! id = Some a -> at_terminal a = true -> now < at_retainUntil a ->
     attempts c' !! id = Some a).

Lemma expiry_frame_refl now c : expiry_frame now c c.
Proof. by split_and!. Qed.

Lemma expiry_frame_trans now c1 c2 c3 :
  expiry_frame now c1 c2 -> expiry_frame now c2 c3 -> expiry_frame now c1 c3.
Proof. intros (E1 & H1 & H1') (E2 & H2 & H2'). split_and!; [congruence|eauto..]. Qed.

#[local] Hint Resolve expiry_frame_refl : gateway.

Lemma expire_permit_round N now E e c :
  cinv N (e :: E) (cterminalExpiries c) c -> heap_ok (cterminalExpiries c) -> N < 2 ^ 64 - 1 ->
  0 <= now -> is_due now e ->
  exists c', expire_permit now c e = Some c' /\ cinv N E (cterminalExpiries c') c' /\
    heap_ok (cterminalExpiries c') /\ expiry_frame now c c'.
Proof.
  intros Hi Hh HN Hnow Hdue. unfold expire_permit.
  assert (Hskip : (forall id a p, attempts c !! id = Some a -> at_terminal a = false ->
      at_permit a = Some p -> ExpiryEntry (pi_ExpiresAt p) id circuitPermitExpiry <> e) ->
    cinv N E (cterminalExpiries c) c).
  { intros Hne. destruct c. apply (cinv_queues _ _ _ _ _ _ _ _ Hi); try done.
    - intros id a p Ha Ht Hp. pose proof (lv_permit _ _ _ _ (ci_live _ _ _ _ Hi _ _ Ha Ht) _ Hp) as Hin.
      apply elem_of_cons in Hin as [Hin|]; [|done]. by eapply Hne in Hin.
    - intros id a Ha Ht. by apply (ci_term _ _ _ _ Hi).
    - intros. by right. }
  destruct (attempts c !! ee_id e) as [a|] eqn:Ha.
  2: { exists c. split_and!; auto with gateway. apply Hskip. intros id a p Ha' _ _ <-. cbn in Ha. congruence. }
  rewrite (ci_kindE _ _ _ _ Hi e) by left.
  destruct (at_permit a) as [p|] eqn:Hp.
  2: { exists c. split_and!; auto with gateway. apply Hskip. intros id a' p Ha' _ Hp' <-. cbn in Ha. congruence. }
  destruct (_ || _) eqn:Hg.
  { exists c. split_and!; auto with gateway. apply Hskip. intros id a' p' Ha' Ht' Hp' <-. cbn in *.
    simplify_eq. rewrite Ht' in Hg. unfold is_due in Hdue. cbn in *. time_unfold. lia. }
  apply orb_false_iff in Hg as [[Ht Heq]%orb_false_iff Haft]. time_unfold. b2p.
  set (retain := circuitRetentionBoundary now [at_acquiredAt a; pi_ExpiresAt p]).
  assert (Hret : 0 < retain) by (by apply circuitRetentionBoundary_pos).
  set (a' := {| a with at_permit := Some p; at_called := true; at_terminal := true; at_retainUntil := retain |}).
  destruct (cinv_complete_live N (e :: E) (cterminalExpiries c)
    (add (cterminalExpiries c) circuitAttemptExpiry (ee_id e) retain) c (ee_id e) a a'
    InferenceFailure (pi_ExpiresAt p) (cexpiries c)
    (add (cterminalExpiries c) circuitAttemptExpiry (ee_id e) retain) Hi HN Ha Ht eq_refl Hret)
    as (b & Hb & Hcall & Hi').
  { intros x. by apply elem_of_add. }
  rewrite Hcall. cbn [mbind option_bind]. eexists. split; [reflexivity|]. split; [|split; [by apply add_spec|]].
  2: { split_and!; [done|..]; intros id a0; cbn [attempts retire set_attempt set_breaker].
       - rewrite lookup_insert_Some. by intros [[<- <-]|[_ Ha0]].
       - intros Ha0 Ht0 _. rewrite lookup_insert_ne; [done|]. congruence. }
  apply (cinv_queues N (e :: E) E _ _ _ (cexpiries c)
    (add (cterminalExpiries c) circuitAttemptExpiry (ee_id e) retain) Hi'); cbn [attempts set_attempt set_breaker]; try done.
  - intros id a0 p0. rewrite lookup_insert_Some. intros [[<- <-]|[Hne Ha0]] Ht0 Hp0; [done|].
    pose proof (lv_permit _ _ _ _ (ci_live _ _ _ _ Hi _ _ Ha0 Ht0) _ Hp0) as Hin.
    apply elem_of_cons in Hin as [Hin|]; [|done]. by rewrite <- Hin in Hne.
  - intros id a0 Ha0 Ht0. by apply (ci_term _ _ _ _ Hi').
  - intros. by right.
Qed.

Lemma expire_permits_loop N now es q c :
  cinv N (es ++ q) (cterminalExpiries c) c -> heap_ok (cterminalExpiries c) -> N < 2 ^ 64 - 1 ->
  0 <= now -> (forall e, e ∈ es -> is_due now e) ->
  exists c', foldM (expire_permit now) c es = Some c' /\ cinv N q (cterminalExpiries c') c' /\
    heap_ok (cterminalExpiries c') /\ expiry_frame now c c'.
Proof.
  revert c. induction es as [|e es IH]; intros c Hi Hh HN Hnow Hdue; cbn [foldM].
  { exists c. auto with gateway. }
  destruct (expire_permit_round N now (es ++ q) e c) as (c1 & -> & Hi1 & Hh1 & Hf1); try done; [apply Hdue; left|].
  cbn [mbind option_bind]. destruct (IH c1) as (c' & Hr & Hi' & Hh' & Hf'); try done.
  { intros. apply Hdue. by right. }
  exists c'. split_and!; try done. by eapply expiry_frame_trans.
Qed.

Lemma cinv_delete_terminal N E T c id a :
  cinv N E T c -> attempts c !! id = Some a -> at_terminal a = true ->
  cinv N E T {| c with attempts := delete id (attempts c) |}.
Proof.
  intros [HL HTe HKE HKT HEn HR HB Hopt Hcp Hsz] Ha Ht. constructor; cbn; try done.
  - intros id' a'. rewrite lookup_delete_Some. intros [_ Ha'] Ht'. destruct (HL id' a' Ha' Ht'). by constructor.
  - intros id' a'. rewrite lookup_delete_Some. intros [_ Ha'] Ht'. by apply HTe.
  - intros bid e He. eapply breaker_ok_same; [by apply HB|lia|done|done|]. cbn.
    by rewrite (live_of_delete (attempts c) id a bid Ha), sel_terminal.
  - rewrite map_size_delete. destruct (attempts c !! id); cbn; lia.
Qed.

Lemma expire_attempt_round N now E T e c :
  cinv N E (e :: T) c -> is_due now e ->
  exists c', expire_attempt now c e = Some c' /\ cinv N E T c' /\ cexpiries c' = cexpiries c /\ expiry_frame now c c'.
Proof.
  intros Hi Hdue. unfold expire_attempt. pose proof (ci_kindT _ _ _ _ Hi e ltac:(left)) as Hk.
  assert (Hskip : forall c0, cinv N E (e :: T) c0 ->
    (forall a, attempts c0 !! ee_id e = Some a -> at_terminal a = true -> attempt_entry (ee_id e) a <> e) ->
    cinv N E T c0).
  { intros c0 Hi0 Hne. destruct c0. apply (cinv_queues _ _ _ _ _ _ _ _ Hi0); try done.
    - intros id a p Ha Ht Hp. by apply (lv_permit _ _ _ _ (ci_live _ _ _ _ Hi0 _ _ Ha Ht)).
    - intros id a Ha Ht. destruct (ci_term _ _ _ _ Hi0 _ _ Ha Ht) as [_ Hin].
      apply elem_of_cons in Hin as [Hin|]; [|done]. rewrite <- Hin in Hne. by destruct (Hne a Ha Ht).
    - intros. by right. }
  destruct (attempts c !! ee_id e) as [a|] eqn:Ha.
  2: { exists c. split_and!; auto with gateway. apply Hskip; [done|]. congruence. }
  destruct (_ && _) eqn:Hg.
  - b2p. eexists. split_and!; [reflexivity| |done|].
    + apply Hskip; [by eapply cinv_delete_terminal|]. cbn. intros a'. by rewrite lookup_delete_eq.
    + split_and!; [done|..]; intros id a'; cbn; [rewrite lookup_delete_Some; by intros [_ ?]|].
      intros Ha' _ Hlt. rewrite lookup_delete_ne; [done|]. intros <-. time_unfold. simplify_eq. lia.
  - exists c. split_and!; auto with gateway. apply Hskip; [done|]. intros a' Ha' Ht' Ee. simplify_eq.
    rewrite Ht' in Hg. unfold is_due in Hdue. rewrite <- Ee in Hdue, Hg. cbn in *. time_unfold. lia.
Qed.

Lemma expire_attempts_loop N now E es q c :
  cinv N E (es ++ q) c -> (forall e, e ∈ es -> is_due now e) ->
  exists c', foldM (expire_attempt now) c es = Some c' /\ cinv N E q c' /\ cexpiries c' = cexpiries c /\
    expiry_frame now c c'.
Proof.
  revert c. induction es as [|e es IH]; intros c Hi Hdue; cbn [foldM].
  { exists c. auto with gateway. }
  destruct (expire_attempt_round N now E (es ++ q) e c) as (c1 & -> & Hi1 & He1 & Hf1); try done; [apply Hdue; left|].
  cbn [mbind option_bind]. destruct (IH c1 Hi1) as (c' & Hf & Hi' & He' & Hf'); [intros; apply Hdue; by right|].
  exists c'. split_and!; try done; [congruence|]. by eapply expiry_frame_trans.
Qed.

Lemma expire_cwf N now c :
  cwf N c -> N < 2 ^ 64 - 1 -> 0 <= now ->
  exists c', expire now c = Some c' /\ cwf N c' /\ expiry_frame now c c' /\
    (forall id a p, attempts c' !! id = Some a -> at_terminal a = false -> at_permit a = Some p ->
       now < pi_ExpiresAt p) /\
    (forall id a, attempts c' !! id = Some a -> at_terminal a = true -> now < at_retainUntil a).
Proof.
  intros [He Ht Hi] HN Hnow.
  destruct (drain_correct (expire_permit now) (S (length (cexpiries c))) now _ He ltac:(lia))
    as (es & q & Hd & _ & Hes & Hq & Hok).
  pose proof (fun e => elem_of_drained now _ es q e Hes Hq) as Hmem.
  destruct (expire_permits_loop N now es q c) as (c1 & Hf & Hi1 & Hh1 & Hfr1); try done.
  { destruct c. apply (cinv_queues _ _ _ _ _ _ _ _ Hi); try done; intros *; rewrite ?Hmem; try done.
    - intros Ha Hl Hp. by apply (lv_permit _ _ _ _ (ci_live _ _ _ _ Hi _ _ Ha Hl)).
    - intros Ha Hl. by apply (ci_term _ _ _ _ Hi). }
  { intros e. rewrite Hes. by intros [? _]%list_elem_of_filter. }
  unfold expire. rewrite Hd, Hf. cbn [mbind option_bind].
  set (c2 := {| c1 with cexpiries := q |}).
  assert (Hi2 : cinv N q (cterminalExpiries c2) c2).
  { destruct Hi1 as [HL]. constructor; try done. intros id a Ha Hl. destruct (HL id a Ha Hl). by constructor. }
  destruct (drain_correct (expire_attempt now) (S (length (cterminalExpiries c2))) now (cterminalExpiries c2)
    Hh1 ltac:(lia)) as (es2 & q2 & Hd2 & _ & Hes2 & Hq2 & Hok2).
  pose proof (fun e => elem_of_drained now _ es2 q2 e Hes2 Hq2) as Hmem2.
  destruct (expire_attempts_loop N now q es2 q2 c2) as (c3 & Hf2 & Hi3 & He3 & Hfr3).
  { apply (cinv_queues N q q _ _ c1 q (cterminalExpiries c1) Hi1); try done; intros *; rewrite ?Hmem2; try done.
    - intros Ha Hl Hp. by apply (lv_permit _ _ _ _ (ci_live _ _ _ _ Hi1 _ _ Ha Hl)).
    - intros Ha Hl. by apply (ci_term _ _ _ _ Hi1). }
  { intros e. rewrite Hes2. by intros [? _]%list_elem_of_filter. }
  rewrite Hd2, Hf2. cbn [mbind option_bind]. eexists. split; [reflexivity|]. split_and!.
  - split; cbn [cexpiries cterminalExpiries]; [by rewrite He3|done|]. rewrite He3.
    destruct Hi3 as [HL]. constructor; try done. intros id a Ha Hl. destruct (HL id a Ha Hl). by constructor.
  - exact (expiry_frame_trans now c c1 c3 Hfr1 Hfr3).
  - intros id a p Ha Hl Hp. pose proof (lv_permit _ _ _ _ (ci_live _ _ _ _ Hi3 _ _ Ha Hl) _ Hp) as Hin.
    rewrite Hq in Hin. apply list_elem_of_filter in Hin as [Hnd _]. unfold is_due in Hnd. cbn in Hnd. lia.
  - intros id a Ha Hl. destruct (ci_term _ _ _ _ Hi3 _ _ Ha Hl) as [_ Hin].
    rewrite Hq2 in Hin. apply list_elem_of_filter in Hin as [Hnd _]. unfold is_due in Hnd. cbn in Hnd. lia.
Qed.

(** ** Attempt room *)

Lemma cwf_shrink_terminal N c e q :
  cwf N c -> cterminalExpiries c ≡ₚ e :: q -> heap_ok q ->
  (forall a, attempts c !! ee_id e = Some a -> at_terminal a = true -> attempt_entry (ee_id e) a <> e) ->
  cwf N {| c with cterminalExpiries := q |}.
Proof.
  intros [He Ht Hi] Hp Hq Hstale. split; cbn; try done.
  apply (cinv_queues N (cexpiries c) (cexpiries c) (cterminalExpiries c) q c (cexpiries c) q Hi); try done.
  - intros id a p Ha Hl Hpm. by apply (lv_permit _ _ _ _ (ci_live _ _ _ _ Hi _ _ Ha Hl)).
  - intros id a Ha Hl. destruct (ci_term _ _ _ _ Hi _ _ Ha Hl) as [_ Hin]. rewrite Hp in Hin.
    apply elem_of_cons in Hin as [Hin|]; [|done]. rewrite <- Hin in Hstale. by destruct (Hstale a Ha Hl).
  - intros e'. rewrite Hp. by right.
Qed.

Lemma hasTerminalAttempt_loop_spec N fuel c :
  cwf N c -> (length (cterminalExpiries c) < fuel)%nat ->
  exists q b, hasTerminalAttempt_loop fuel c = Some ({| c with cterminalExpiries := q |}, b) /\
    cwf N {| c with cterminalExpiries := q |} /\ (length q <= length (cterminalExpiries c))%nat /\
    if b then exists e a, head q = Some e /\ attempts c !! ee_id e = Some a /\ at_terminal a = true /\
                attempt_entry (ee_id e) a = e
    else forall id a, attempts c !! id = Some a -> at_terminal a = false.
Proof.
  revert c. induction fuel as [|fuel IH]; intros c Hwf Hf; [lia|]. cbn [hasTerminalAttempt_loop].
  pose proof (cwf_inv _ _ Hwf) as Hi.
  assert (Hself : c = {| c with cterminalExpiries := cterminalExpiries c |}) by by destruct c.
  destruct (head (cterminalExpiries c)) as [e|] eqn:Hhd.
  2: { exists (cterminalExpiries c), false. rewrite <- Hself. split_and!; try done.
       intros id a Ha. destruct (at_terminal a) eqn:Ht; [|done].
       destruct (ci_term _ _ _ _ Hi _ _ Ha Ht) as [_ Hin].
       destruct (cterminalExpiries c); [by apply elem_of_nil in Hin|done]. }
  match goal with |- context [if ?b then Some (c, true) else _] => destruct b eqn:Hb end.
  - exists (cterminalExpiries c), true. rewrite <- Hself. split_and!; try done.
    destruct (attempts c !! ee_id e) as [a|] eqn:Ha; [|done]. exists e, a. time_unfold. b2p.
    assert (Hin : e ∈ cterminalExpiries c) by (destruct (cterminalExpiries c); [done|]; simplify_eq/=; left).
    pose proof (ci_kindT _ _ _ _ Hi _ Hin). split_and!; try done.
    unfold attempt_entry. destruct e; cbn in *. congruence.
  - destruct (popOldest (cterminalExpiries c)) as [[e' q]|] eqn:Hpop.
    2: { apply (popOldest_None _ (cwf_terminal _ _ Hwf)) in Hpop. by rewrite Hpop in Hhd. }
    destruct (popOldest_Some _ _ _ (cwf_terminal _ _ Hwf) Hpop) as (Hh' & Hq & Hp & _).
    rewrite Hhd in Hh'. injection Hh' as <-. cbn [from_option snd].
    assert (Hwf' : cwf N {| c with cterminalExpiries := q |}).
    { apply (cwf_shrink_terminal _ _ e q Hwf Hp Hq). intros a Ha Ht Ee. rewrite Ha, Ht in Hb.
      destruct (ci_term _ _ _ _ Hi _ _ Ha Ht) as [Hpos _].
      apply (f_equal ee_at) in Ee. cbn in Ee. time_unfold. lia. }
    assert (length (cterminalExpiries c) = S (length q)) by (by rewrite Hp).
    destruct (IH _ Hwf') as (q' & b & -> & Hwf'' & Hlen & Hb'); [cbn; lia|].
    exists q', b. cbn in Hlen. split_and!; try done. lia.
Qed.

Lemma makeAttemptRoom_spec N c :
  cwf N c ->
  exists q m b, makeAttemptRoom c = Some ({| c with cterminalExpiries := q; attempts := m |}, b) /\
    cwf N {| c with cterminalExpiries := q; attempts := m |} /\
    (forall id a, attempts c !! id = Some a -> at_terminal a = false -> m !! id = Some a) /\ m ⊆ attempts c /\
    if b then Z.of_nat (size m) < attemptCapacity c
    else m = attempts c /\ Z.of_nat (size m) = attemptCapacity c /\
         forall id a, attempts c !! id = Some a -> at_terminal a = false.
Proof.
  intros Hwf. pose proof (cwf_inv _ _ Hwf) as Hi. pose proof (ci_size _ _ _ _ Hi) as Hsz.
  assert (Hself : c = {| c with cterminalExpiries := cterminalExpiries c; attempts := attempts c |}) by by destruct c.
  unfold makeAttemptRoom. cbn [makeAttemptRoom_loop]. unfold hasTerminalAttempt.
  destruct (Z.leb_spec (attemptCapacity c) (Z.of_nat (size (attempts c)))) as [Hfull|Hroom].
  2: { exists (cterminalExpiries c), (attempts c), true. rewrite <- Hself. by split_and!. }
  destruct (hasTerminalAttempt_loop_spec N (S (length (cterminalExpiries c))) c Hwf ltac:(lia))
    as (q1 & b & -> & Hwf1 & Hlen & Hb). cbn [mbind option_bind].
  destruct b; cbn [negb].
  2: { exists q1, (attempts c), false. split_and!; try done. lia. }
  destruct Hb as (e & a & Hhd & Ha & Ht & Hent). cbn [cterminalExpiries].
  destruct (popOldest q1) as [[e' q]|] eqn:Hpop.
  2: { apply (popOldest_None _ (cwf_terminal _ _ Hwf1)) in Hpop. cbn in Hpop. by rewrite Hpop in Hhd. }
  destruct (popOldest_Some _ _ _ (cwf_terminal _ _ Hwf1) Hpop) as (Hh' & Hq & Hp & _).
  cbn in Hh'. rewrite Hhd in Hh'. injection Hh' as <-.
  set (c2 := {| c with cterminalExpiries := q; attempts := delete (ee_id e) (attempts c) |}).
  pose proof (cinv_delete_terminal _ _ _ _ _ _ (cwf_inv _ _ Hwf1) Ha Ht) as Hi2. cbn in Hi2, Hp.
  assert (Hwf2 : cwf N c2).
  { set (c1 := {| c with cterminalExpiries := q1; attempts := delete (ee_id e) (attempts c) |}).
    assert (Hc1 : cwf N c1) by (split; [apply Hwf|apply Hwf1|exact Hi2]).
    refine (cwf_shrink_terminal N c1 e q Hc1 Hp Hq _). intros a'. cbn. by rewrite lookup_delete_eq. }
  assert (Hsz2 : Z.of_nat (size (attempts c2)) < attemptCapacity c).
  { cbn. rewrite map_size_delete, Ha. cbn. destruct (size (attempts c)) eqn:Es; [|lia].
    apply map_size_empty_inv in Es. rewrite Es in Ha. by rewrite lookup_empty in Ha. }
  assert (Hne : length (cterminalExpiries c) <> 0%nat).
  { destruct q1; [done|]. cbn in Hlen. lia. }
  destruct (length (cterminalExpiries c)); [done|]. cbn [makeAttemptRoom_loop]. fold c2.
  rewrite (proj2 (Z.leb_gt _ _)) by exact Hsz2.
  exists q, (delete (ee_id e) (attempts c)), true. split_and!; try done; [|apply delete_subseteq].
  intros id a' Ha' Ht'. rewrite lookup_delete_ne; [done|]. intros <-. congruence.
Qed.

(** ** The operations *)

Lemma cwf_snapshot N c bid now :
  cwf N c -> N < 2 ^ 64 - 1 ->
  exists c' s, snapshot bid now c = Some (c', s) /\ cwf (N + 1) c' /\ attempts c' = attempts c /\
    circuits c' = circuits c.
Proof.
  intros [He Ht Hi] HN. destruct (snapshot_inv _ _ _ _ bid now Hi HN) as (c' & s & Hs & Hi' & Ha & Hc & He' & Ht' & _).
  exists c', s. split_and!; try done. split; [by rewrite He'|by rewrite Ht'|by rewrite He', Ht'].
Qed.

Lemma cwf_mono N N' c : N <= N' -> cwf N c -> cwf N' c.
Proof. intros HN []. split; try done. by eapply cinv_mono. Qed.

(** The cost of a call in generations and live attempts: a call raises the
    bound by at most 4. *)
Lemma Acquire_cwf N now req c :
  cwf N c -> N < 2 ^ 64 - 8 -> 0 <= now ->
  exists c' r, Acquire None now req c = Some (c', r) /\ cwf (N + 4) c'.
Proof.
  intros Hwf HN Hnow. destruct (expire_cwf N now c Hwf ltac:(lia) Hnow) as (c0 & He & Hwf0 & _).
  unfold Acquire. rewrite He. cbn [mbind option_bind].
  assert (Hsnap : forall c1, cwf N c1 -> exists c' s, snapshot (bi_ID (ca_Backend req)) now c1 = Some (c', s) /\ cwf (N + 4) c').
  { intros c1 Hwf1. destruct (cwf_snapshot N c1 (bi_ID (ca_Backend req)) now Hwf1 ltac:(lia)) as (c' & s & Hs & Hw & _).
    exists c', s. split; [done|]. eapply cwf_mono; [|done]. lia. }
  assert (Hm : forall c1, cwf N c1 -> cwf (N + 4) c1) by (intros; eapply cwf_mono; [|done]; lia).
  destruct (attempts c0 !! ca_AttemptID req) as [old|] eqn:Hold.
  { destruct (Hsnap c0 Hwf0) as (c' & s & Hs & Hw). rewrite Hs. cbn [mbind option_bind].
    destruct (negb _); [by eauto|]. destruct (at_terminal old); eauto. }
  destruct (makeAttemptRoom_spec N c0 Hwf0) as (q & m & b & -> & Hwf1 & _ & Hsub & Hb). cbn [mbind option_bind].
  set (c1 := {| c0 with cterminalExpiries := q; attempts := m |}) in *.
  destruct b; cbn [negb].
  2: { destruct (Hsnap c1 Hwf1) as (c' & s & -> & Hw). cbn [mbind option_bind]. eauto. }
  destruct (circuits c1 !! bi_ID (ca_Backend req)) as [e|] eqn:Hc; [|by eauto].
  destruct (_ || _ || _) eqn:Hst; [by eauto|]. destruct (stale_operation _ _); [by eauto|].
  apply orb_false_iff in Hst as [[Hid _]%orb_false_iff _]. b2p.
  assert (Hno : attempts c1 !! ca_AttemptID req = None).
  { cbn. destruct (m !! ca_AttemptID req) eqn:Em; [|done]. by rewrite (lookup_weaken _ _ _ _ Em Hsub) in Hold. }
  destruct (acquire_circuit_inv N _ _ c1 now req e (cwf_inv _ _ Hwf1) ltac:(lia) Hc Hid Hno Hb eq_refl
    (cwf_expiries _ _ Hwf1)) as (c' & d & -> & Hi' & Hh' & Ht'). cbn [mbind option_bind].
  exists c', (inr d). split; [done|]. split; [done|rewrite Ht'; apply Hwf1|].
  rewrite Ht'. eapply cinv_mono; [|exact Hi']. lia.
Qed.

(** The state [Complete] reads its snapshot from. *)
Definition completed_state (now : Time) (value : CircuitCompletion) (attempt : circuitAttempt)
    (c : CircuitCoordinator) : CircuitCoordinator :=
  let retain := circuitRetentionBoundary now [at_acquiredAt attempt; cc_ReportedOutcomeAt value] in
  retire (cc_AttemptID value) retain
    (set_attempt (cc_AttemptID value)
       {| attempt with at_completion := Some value;
          at_called := at_called attempt || negb (at_terminal attempt);
          at_terminal := true; at_retainUntil := retain |} c).

Lemma complete_attempt_cwf N now value attempt c :
  cwf N c -> N < 2 ^ 64 - 1 -> 0 <= now -> attempts c !! cc_AttemptID value = Some attempt ->
  exists c1, (if negb (at_terminal attempt)
              then call_complete attempt (cc_Outcome value) (cc_ReportedOutcomeAt value) c else Some c) = Some c1 /\
    cwf N (completed_state now value attempt c1) /\
    attempts c1 = attempts c /\ circuits c1 = circuits c.
Proof.
  intros [He Ht Hi] HN Hnow Ha.
  set (retain := circuitRetentionBoundary now [at_acquiredAt attempt; cc_ReportedOutcomeAt value]).
  assert (Hret : 0 < retain) by (by apply circuitRetentionBoundary_pos).
  set (a' := {| attempt with at_completion := Some value;
          at_called := at_called attempt || negb (at_terminal attempt);
          at_terminal := true; at_retainUntil := retain |}).
  set (T' := add (cterminalExpiries c) circuitAttemptExpiry (cc_AttemptID value) retain).
  assert (HT' : forall e, e ∈ T' <-> e = attempt_entry (cc_AttemptID value) a' \/ e ∈ cterminalExpiries c).
  { intros e. by apply elem_of_add. }
  assert (HhT : heap_ok T') by (by apply add_spec).
  destruct (at_terminal attempt) eqn:Hterm; cbn [negb].
  - exists c. split_and!; try done. split; [done|done|].
    unfold completed_state. rewrite Hterm.
    exact (cinv_rewrite_terminal N _ _ T' c _ attempt a' (cexpiries c) T' Hi Ha Hterm eq_refl Hret HT').
  - destruct (cinv_complete_live N _ _ T' c _ attempt a' (cc_Outcome value) (cc_ReportedOutcomeAt value)
      (cexpiries c) T' Hi HN Ha Hterm eq_refl Hret HT') as (b & _ & Hcall & Hi').
    rewrite Hcall. eexists. split; [reflexivity|]. split_and!; try done.
    split; [done|done|]. unfold completed_state. rewrite Hterm. exact Hi'.
Qed.

Lemma Complete_cwf N now value c :
  cwf N c -> N < 2 ^ 64 - 8 -> 0 <= now ->
  exists c' r, Complete None now value c = Some (c', r) /\ cwf (N + 4) c'.
Proof.
  intros Hwf HN Hnow. destruct (expire_cwf N now c Hwf ltac:(lia) Hnow) as (c0 & He & Hwf0 & _).
  unfold Complete. rewrite He. cbn [mbind option_bind].
  assert (Hsnap : forall c1, cwf N c1 -> exists c' s, snapshot (bi_ID (cc_Backend value)) now c1 = Some (c', s) /\ cwf (N + 4) c').
  { intros c1 Hwf1. destruct (cwf_snapshot N c1 (bi_ID (cc_Backend value)) now Hwf1 ltac:(lia)) as (c' & s & Hs & Hw & _).
    exists c', s. split; [done|]. eapply cwf_mono; [|done]. lia. }
  destruct (Hsnap c0 Hwf0) as (c' & s & Hs & Hw). rewrite Hs. cbn [mbind option_bind].
  destruct (attempts c0 !! cc_AttemptID value) as [attempt|] eqn:Ha; cbn [mbind option_bind].
  2: { destruct (stale_operation _ _); eauto. }
  destruct (at_completion attempt); [eauto|]. destruct (stale_operation _ _); [eauto|].
  destruct (_ || _); [eauto|].
  destruct (complete_attempt_cwf N now value attempt c0 Hwf0 ltac:(lia) Hnow Ha) as (c1 & -> & Hwf1 & _).
  cbn [mbind option_bind]. destruct (Hsnap _ Hwf1) as (c2 & s2 & Hs2 & Hw2).
  unfold completed_state in Hs2. rewrite Hs2. cbn [mbind option_bind]. eauto.
Qed.

Lemma renew_probe_cwf N now p c : cwf N c -> cwf N (renew_probe now p c).1.
Proof.
  intros Hwf. pose proof Hwf as [He Ht Hi]. unfold renew_probe.
  destruct (attempts c !! pi_PermitID p) as [a|] eqn:Ha; [|done].
  destruct (at_permit a) as [permit|] eqn:Hp; [|done].
  destruct (_ || _) eqn:Hg; [done|]. apply orb_false_iff in Hg as [Hterm _].
  set (ttl := if at_ttl a <=? 0 then _ else _). destruct (ttl <=? 0); [done|]. cbn [fst].
  destruct (ci_live _ _ _ _ Hi _ _ Ha Hterm) as [L1 L2 L3 L4 L5].
  split; [by apply add_spec|done|].
  eapply (cinv_set N N _ _ _ _ c _ (pi_PermitID p) _ Hi); cbn [attempts circuits copts nextRef attemptCapacity set_attempt];
    [reflexivity|done|done|done|done|by left|..]; cbn [cexpiries cterminalExpiries set_attempt].
  - intros e. rewrite elem_of_add by done. auto.
  - intros e. rewrite elem_of_add by done. intros [->|]; [done|by eapply ci_kindE].
  - done.
  - apply (ci_kindT _ _ _ _ Hi).
  - intros _. constructor; cbn; try done.
    + intros p0 [= <-]. apply elem_of_add; [done|]. by left.
    + rewrite <- L5. split; eauto.
  - cbn. congruence.
  - intros bid e Hc. eapply breaker_ok_same; [by apply (ci_breaker _ _ _ _ Hi)|lia|done|done|].
    cbn. by apply (live_of_replace _ _ a).
Qed.

Lemma renew_probes_cwf N now probes c : cwf N c -> cwf N (renew_probes now probes c).1.
Proof.
  revert c. induction probes as [|p probes IH]; intros c Hwf; cbn [renew_probes]; [done|].
  pose proof (renew_probe_cwf N now p c Hwf) as H1. destruct (renew_probe now p c) as [c1 r].
  specialize (IH c1 H1). by destruct (renew_probes now probes c1).
Qed.

(** ** Runs *)

Inductive Op :=
  | OpAcquire (ctx : option GoError) (req : CircuitAcquireRequest)
  | OpComplete (ctx : option GoError) (value : CircuitCompletion)
  | OpRenewProbes (ctx : option GoError) (probes : list ProbeIdentity)
  | OpReconcile (ctx : option GoError) (values : list BackendIdentity)
  | OpSnapshot (backendID : Z)
  | OpStatus.

Definition exec (now : Time) (op : Op) (c : CircuitCoordinator) : option CircuitCoordinator :=
  match op with
  | OpAcquire ctx req => fst <$> Acquire ctx now req c
  | OpComplete ctx value => fst <$> Complete ctx now value c
  | OpRenewProbes ctx probes => fst <$> RenewProbes ctx now probes c
  | OpReconcile ctx values => fst <$> Reconcile ctx now values c
  | OpSnapshot id => fst <$> CoordinatorSnapshot id now c
  | OpStatus => fst <$> CircuitStatus now c
  end.

Definition run (calls : list (Time * Op)) (c : CircuitCoordinator) : option CircuitCoordinator :=
  foldM (fun c '(now, op) => exec now op c) c calls.

Lemma circuit_exec_cwf N now op c :
  cwf N c -> 0 <= N -> N < 2 ^ 64 - 8 -> 0 <= now -> exists c', exec now op c = Some c' /\ cwf (N + 4) c'.
Proof.
  intros Hwf HN0 HN Hnow. destruct (expire_cwf N now c Hwf ltac:(lia) Hnow) as (c0 & He & Hwf0 & _).
  assert (Hm : forall c1, cwf N c1 -> cwf (N + 4) c1) by (intros; eapply cwf_mono; [|done]; lia).
  destruct op as [[err|] req|[err|] value|[err|] probes|[err|] values|id|]; cbn [exec]; try (by exists c; auto).
  - destruct (Acquire_cwf N now req c) as (c' & r & -> & Hw); try done. by exists c'.
  - destruct (Complete_cwf N now value c) as (c' & r & -> & Hw); try done. by exists c'.
  - unfold RenewProbes. rewrite He. cbn [mbind option_bind]. pose proof (renew_probes_cwf N now probes c0 Hwf0) as Hr.
    destruct (renew_probes now probes c0) as [c1 rs]. exists c1. auto.
  - unfold Reconcile. rewrite He. cbn [mbind option_bind].
    destruct (reconcile_values now values ∅ c0) as [c1 [err|seen]] eqn:Er;
      apply (reconcile_values_cwf N) in Er; try done; [by exists c1; auto|].
    eexists. split; [reflexivity|]. by apply Hm, reconcile_missing_cwf.
  - unfold CoordinatorSnapshot. rewrite He. cbn [mbind option_bind].
    destruct (cwf_snapshot N c0 id now Hwf0 ltac:(lia)) as (c' & s & -> & Hw & _). exists c'. split; [done|].
    eapply cwf_mono; [|exact Hw]. lia.
  - unfold CircuitStatus. rewrite He. cbn [mbind option_bind]. destruct (_ <? _); [by exists c0; auto|].
    unfold hasTerminalAttempt.
    destruct (hasTerminalAttempt_loop_spec N (S (length (cterminalExpiries c0))) c0 Hwf0 ltac:(lia))
      as (q & b & -> & Hw & _). eexists. split; [reflexivity|]. by apply Hm.
Qed.

Lemma cwf_new o capacity c : newCircuitCoordinator o capacity = inr c -> cwf 0 c.
Proof.
  unfold newCircuitCoordinator. destruct (New o) as [|b] eqn:Hb; [done|]. intros [= <-].
  split; cbn; [apply heap_ok_nil..|].
  constructor; cbn; try (intros *; rewrite ?lookup_empty; try done; by intros ?%elem_of_nil).
  - by exists b.
  - case_match; b2p; unfold defaultLocalCircuitAttemptCapacity; lia.
  - rewrite map_size_empty. case_match; b2p; unfold defaultLocalCircuitAttemptCapacity; lia.
Qed.

Definition circuit_clock_ok (calls : list (Time * Op)) : Prop := Forall (fun call => 0 <= call.1) calls.

Lemma run_cwf calls N c :
  cwf N c -> 0 <= N -> N + 4 * Z.of_nat (length calls) < 2 ^ 64 - 8 -> circuit_clock_ok calls ->
  exists c', run calls c = Some c' /\ cwf (N + 4 * Z.of_nat (length calls)) c'.
Proof.
  revert N c. induction calls as [|[now op] calls IH]; intros N c Hwf HN0 HN Hclk; unfold run; cbn [foldM length].
  { exists c. rewrite Z.mul_0_r, Z.add_0_r. done. }
  apply Forall_cons in Hclk as [Hnow Hclk]. cbn [length] in HN.
  destruct (circuit_exec_cwf N now op c Hwf HN0 ltac:(lia) Hnow) as (c1 & -> & Hw1). cbn [mbind option_bind].
  destruct (IH (N + 4) c1 Hw1 ltac:(lia) ltac:(lia) Hclk) as (c2 & Hr & Hw2). exists c2. split; [exact Hr|].
  eapply cwf_mono; [|exact Hw2]. lia.
Qed.

(** ** Reconciliation, functionally *)

Lemma invalidate_circuits bid now c : circuits (invalidate bid now c) = circuits c.
Proof.
  unfold invalidate. generalize (range_attempts (attempts c)) as l. intros l. revert c.
  induction l as [|[id a] l IH]; intros c; cbn [fold_left]; [done|].
  rewrite IH. unfold invalidate_one. by destruct (invalidates bid a).
Qed.

Definition wanted (v : BackendIdentity) : bool := bi_Enabled v && negb (bi_Draining v).

Lemma reconcile_values_circuits now values seen c c' seen' :
  reconcile_values now values seen c = (c', inr seen') ->
  (forall id, id ∈ seen' <-> id ∈ seen \/ exists v, v ∈ values /\ bi_ID v = id) /\
  (forall id, id ∈ seen -> circuits c' !! id = circuits c !! id) /\
  (forall v, v ∈ values -> option_map ce_identity (circuits c' !! bi_ID v) = if wanted v then Some v else None).
Proof.
  revert seen c. induction values as [|v values IH]; intros seen c; cbn [reconcile_values].
  { intros [= <- <-]. split_and!; try done; [|by intros v ?%elem_of_nil].
    intros id. split; [auto|]. intros [?|(v & ?%elem_of_nil & _)]; done. }
  destruct (bool_decide (bi_ID v ∈ seen)) eqn:Hs; [done|]. b2p.
  assert (Hgo : forall c1, option_map ce_identity (circuits c1 !! bi_ID v) = (if wanted v then Some v else None) ->
    (forall id, id <> bi_ID v -> circuits c1 !! id = circuits c !! id) ->
    reconcile_values now values ({[bi_ID v]} ∪ seen) c1 = (c', inr seen') ->
    (forall id, id ∈ seen' <-> id ∈ seen \/ exists v0, v0 ∈ v :: values /\ bi_ID v0 = id) /\
    (forall id, id ∈ seen -> circuits c' !! id = circuits c !! id) /\
    (forall v0, v0 ∈ v :: values -> option_map ce_identity (circuits c' !! bi_ID v0) = if wanted v0 then Some v0 else None)).
  { intros c1 Hv Hother Hrun. destruct (IH _ c1 Hrun) as (Hseen & Hkeep & Hvals). split_and!.
    - intros id. rewrite Hseen, elem_of_union, elem_of_singleton. split.
      + intros [[->|?]|(v0 & ? & <-)]; [right; exists v; split; [left|done]|auto|].
        right. exists v0. split; [by right|done].
      + intros [?|(v0 & [->|?]%elem_of_cons & <-)]; eauto.
    - intros id Hid. rewrite Hkeep by (apply elem_of_union; by right). apply Hother. by intros ->.
    - intros v0 [->|Hin]%elem_of_cons; [|by apply Hvals].
      rewrite Hkeep by (apply elem_of_union; left; by apply elem_of_singleton). done. }
  destruct (negb (bi_Enabled v) || bi_Draining v) eqn:Hw.
  { apply Hgo; unfold drop_circuit; rewrite invalidate_circuits; cbn [circuits].
    - rewrite lookup_delete_eq. cbn. unfold wanted. by destruct (bi_Enabled v), (bi_Draining v).
    - intros id Hne. by rewrite lookup_delete_ne. }
  assert (Hwant : wanted v = true) by (unfold wanted; by destruct (bi_Enabled v), (bi_Draining v)).
  destruct (circuits c !! bi_ID v) as [old|] eqn:Hold; [destruct (bool_decide (ce_identity old = v)) eqn:Ho|].
  - b2p. apply Hgo; [|done]. rewrite Hold, Hwant. cbn. by rewrite Ho.
  - destruct (New (copts c)) as [|b]; [done|]. apply Hgo; unfold install_circuit; cbn [circuits].
    + by rewrite lookup_insert_eq, Hwant.
    + intros id Hne. by rewrite lookup_insert_ne, invalidate_circuits.
  - destruct (New (copts c)) as [|b]; [done|]. apply Hgo; unfold install_circuit; cbn [circuits].
    + by rewrite lookup_insert_eq, Hwant.
    + intros id Hne. by rewrite lookup_insert_ne, invalidate_circuits.
Qed.

Lemma reconcile_missing_circuits now seen c id :
  circuits (reconcile_missing now seen c) !! id = if bool_decide (id ∈ seen) then circuits c !! id else None.
Proof.
  unfold reconcile_missing.
  assert (Hfold : forall l c0, circuits (fold_left (fun c '(id, _) =>
      if bool_decide (id ∈ seen) then c else drop_circuit id now c) l c0) !! id =
    if bool_decide (id ∈ (l : list (Z * circuitEntry)).*1) && negb (bool_decide (id ∈ seen)) then None else circuits c0 !! id).
  { induction l as [|[i e] l IH]; intros c0; cbn [fold_left fmap list_fmap].
    { by rewrite bool_decide_false by apply not_elem_of_nil. }
    rewrite IH. destruct (decide (id = i)) as [->|Hne].
    - rewrite (bool_decide_true (i ∈ i :: _)) by left. destruct (bool_decide (i ∈ seen)) eqn:Es;
        cbn [andb negb]; [by rewrite andb_false_r|]. rewrite andb_true_r. unfold drop_circuit.
      rewrite invalidate_circuits. cbn [circuits]. rewrite lookup_delete_eq. by case_bool_decide.
    - assert (circuits (if bool_decide (i ∈ seen) then c0 else drop_circuit i now c0) !! id = circuits c0 !! id) as ->.
      { clear IH. case_bool_decide; [done|]. unfold drop_circuit. rewrite invalidate_circuits.
        cbn [circuits]. by rewrite lookup_delete_ne. }
      replace (bool_decide (id ∈ i :: l.*1)) with (bool_decide (id ∈ l.*1)); [done|].
      apply bool_decide_ext. rewrite elem_of_cons. tauto. }
  rewrite Hfold. destruct (bool_decide (id ∈ seen)); [by rewrite andb_false_r|]. rewrite andb_true_r.
  case_bool_decide as Hin; [done|]. destruct (circuits c !! id) as [e|] eqn:He; [|done].
  destruct Hin. apply list_elem_of_fmap. exists (id, e). split; [done|].
  rewrite range_circuits_perm. by apply elem_of_map_to_list.
Qed.

(** ** Counting probes *)

Definition holds_probe (bid g : Z) (a : circuitAttempt) : bool :=
  (bi_ID (at_backend a) =? bid) && negb (at_terminal a) && bool_decide (current_probe g (at_complete a)).

Lemma live_of_probes m bid g :
  Z.of_nat (length (filter (current_probe g) (live_of m bid))) = count_if (fun _ a => holds_probe bid g a) m.
Proof.
  induction m as [|id a m Hid IH] using map_ind.
  - rewrite count_if_empty. unfold live_of. by rewrite map_to_list_empty.
  - rewrite count_if_insert, <- IH by done. rewrite live_of_insert, delete_id, filter_app, length_app by done.
    unfold sel, holds_probe. destruct (_ && negb _); [|cbn; lia].
    rewrite filter_cons, filter_nil. case_decide as D; [rewrite bool_decide_true by done|rewrite bool_decide_false by done]; cbn; lia.
Qed.

(** ** Properties *)

(** C23. Every sequence of calls on a new circuit coordinator returns: no nil
    dereference, no loop without end.  In the state it reaches, every circuit's
    breaker counts as in-flight probes exactly the live attempts that hold a
    probe of its current generation, at most [HalfOpenMaxProbes] of them, and
    each of these attempts has a permit whose expiry is queued. *)
Theorem probe_slots_accounted o capacity c0 calls :
  newCircuitCoordinator o capacity = inr c0 -> circuit_clock_ok calls ->
  Z.of_nat (length calls) < 2 ^ 60 ->
  exists c, run calls c0 = Some c /\
    forall bid e, circuits c !! bid = Some e -> exists b, breakers c !! ce_breaker e = Some b /\
      probesInFlight b = count_if (fun _ a => holds_probe bid (generation b) a) (attempts c) /\
      probesInFlight b <= HalfOpenMaxProbes (options b) /\
      forall id a, attempts c !! id = Some a -> holds_probe bid (generation b) a = true ->
        exists p, at_permit a = Some p /\ ExpiryEntry (pi_ExpiresAt p) id circuitPermitExpiry ∈ cexpiries c.
Proof.
  intros Hnew Hclk Hlen.
  destruct (run_cwf calls 0 c0 (cwf_new _ _ _ Hnew) ltac:(lia) ltac:(lia) Hclk) as (c & Hrun & [He Ht Hi]).
  exists c. split; [done|]. intros bid e Hc.
  destruct (ci_breaker _ _ _ _ Hi _ _ Hc) as (b & Hb & Ho & Hok). exists b. split_and!; try done.
  - rewrite <- live_of_probes. apply (ok_probes _ _ Hok).
  - apply (ok_maximum _ _ Hok).
  - intros id a Ha Hh. unfold holds_probe in Hh. b2p.
    destruct (ci_live _ _ _ _ Hi _ _ Ha ltac:(done)) as [_ _ _ Hp Hpr].
    destruct (proj2 Hpr) as [p Hp']; [match goal with H : current_probe _ _ |- _ => by apply H end|]. eauto.
Qed.

(** With no live permit left on a backend, its breaker has no probe in flight. *)
Lemma no_permit_no_probe N c bid e b :
  cwf N c -> circuits c !! bid = Some e -> breakers c !! ce_breaker e = Some b ->
  (forall id a, attempts c !! id = Some a -> at_terminal a = false -> bi_ID (at_backend a) = bid -> at_permit a = None) ->
  probesInFlight b = 0 /\ halfOpenSucceeded b = false /\ 0 < HalfOpenMaxProbes (options b).
Proof.
  intros [He Ht Hi] Hc Hb Hnone. destruct (ci_breaker _ _ _ _ Hi _ _ Hc) as (b' & Hb' & Ho & Hok).
  rewrite Hb in Hb'. injection Hb' as <-. destruct Hok as [_ Hmax _ _ _ Hpr _ Hsucc _]. cbn in *.
  assert (Hp : probesInFlight b = 0).
  { rewrite Hpr. unfold probes_out. cbn. rewrite (elem_of_nil_inv (filter _ _)); [done|].
    intros x [[Hprobe _] (id & a & Ha & Hbid & Hl & ->)%elem_of_live_of]%list_elem_of_filter.
    destruct (ci_live _ _ _ _ Hi _ _ Ha Hl) as [_ _ _ _ Hiff]. apply Hiff in Hprobe as [p Hp].
    rewrite (Hnone id a Ha Hl Hbid) in Hp. done. }
  split_and!; try done. destruct (halfOpenSucceeded b); [|done]. destruct (Hsucc eq_refl). lia.
Qed.

(** A circuit cannot be wedged by lost probes.  Once every probe permit of
    a backend has expired, an [Acquire] for it (a fresh attempt of the current
    backend revision, with room for the attempt) is granted as soon as the
    circuit, if it is open, has passed its cooldown. *)
Theorem expired_probes_free_circuit N now req c c0 e b :
  cwf N c -> N < 2 ^ 64 - 8 -> 0 <= now -> expire now c = Some c0 ->
  (forall id a p, attempts c !! id = Some a -> at_permit a = Some p -> pi_ExpiresAt p <= now) ->
  attempts c0 !! ca_AttemptID req = None -> Z.of_nat (size (attempts c0)) < attemptCapacity c0 ->
  circuits c0 !! bi_ID (ca_Backend req) = Some e -> ce_identity e = ca_Backend req ->
  wanted (ca_Backend req) = true -> stale_operation now (ca_AcquisitionStartedAt req) = false ->
  breakers c0 !! ce_breaker e = Some b ->
  (state b = CircuitOpen -> openedAt b + OpenCooldown (options b) <= now) ->
  exists c' d, Acquire None now req c = Some (c', inr d) /\ cd_Reason d = ReasonNone.
Proof.
  intros Hwf HN Hnow He Hexp Hno Hroom Hc Hid Hw Hst Hb Hopen.
  destruct (expire_cwf N now c Hwf ltac:(lia) Hnow) as (c1 & He' & Hwf0 & (_ & Hkept & _) & Hlive & _).
  rewrite He in He'. injection He' as <-.
  destruct (no_permit_no_probe N c0 _ e b Hwf0 Hc Hb) as (Hp & Hs & Hmax).
  { intros id a Ha Hl _. destruct (at_permit a) as [p|] eqn:Ep; [|done].
    pose proof (Hlive id a p Ha Hl Ep). pose proof (Hexp id a p (Hkept id a Ha Hl) Ep). lia. }
  destruct (acquire_idle now b Hp Hs Hmax Hopen) as (b1 & cpl & HA).
  unfold Acquire. rewrite He. cbn [mbind option_bind]. rewrite Hno.
  unfold makeAttemptRoom. cbn [makeAttemptRoom_loop]. rewrite (proj2 (Z.leb_gt _ _)) by done.
  cbn [mbind option_bind negb]. rewrite Hc, bool_decide_true by done.
  unfold wanted in Hw. apply andb_true_iff in Hw as [-> ->%negb_true_iff]. rewrite Hst. cbn [negb orb].
  unfold acquire_circuit. rewrite Hb. cbn [mbind option_bind]. rewrite HA.
  destruct (TakeSnapshot now b1) as [b2 bs]. eexists _, _. split; reflexivity.
Qed.

(** Reconciliation is exact.  After a successful [Reconcile] the
    coordinator holds a circuit for precisely the enabled, non-draining backends
    of the given list, each under the given identity. *)
Theorem reconcile_exact N now values c c' :
  cwf N c -> N < 2 ^ 64 - 1 -> 0 <= now -> Reconcile None now values c = Some (c', None) ->
  forall id v, option_map ce_identity (circuits c' !! id) = Some v <->
    v ∈ values /\ bi_ID v = id /\ wanted v = true.
Proof.
  intros Hwf HN Hnow Hr. destruct (expire_cwf N now c Hwf HN Hnow) as (c0 & He & _).
  unfold Reconcile in Hr. rewrite He in Hr. cbn [mbind option_bind] in Hr.
  destruct (reconcile_values now values ∅ c0) as [c1 [err|seen]] eqn:Ev; [done|]. injection Hr as <-.
  destruct (reconcile_values_circuits now values ∅ c0 c1 seen Ev) as (Hseen & _ & Hvals).
  intros id v. rewrite reconcile_missing_circuits. split.
  - case_bool_decide as Hid; [|done]. intros Hv. apply Hseen in Hid as [?%elem_of_empty|(v0 & Hin & <-)]; [done|].
    rewrite Hvals in Hv by done. destruct (wanted v0) eqn:Ew; [|done]. injection Hv as <-. done.
  - intros (Hin & <- & Hw). rewrite bool_decide_true by (apply Hseen; eauto). rewrite Hvals, Hw by done. done.
Qed.

(** An outcome counts once.  Once a completion is recorded for an attempt,
    every later [Complete] for that attempt while the record is retained only
    reads: it has exactly the effect of [Snapshot] on the state, and reports
    success for the recorded completion and a conflict for any other. *)
Theorem circuit_outcome_counted_once N now value value' c a :
  cwf N c -> N < 2 ^ 64 - 1 -> 0 <= now -> attempts c !! cc_AttemptID value = Some a ->
  at_completion a = Some value -> now < at_retainUntil a -> cc_AttemptID value' = cc_AttemptID value ->
  Complete None now value' c =
    '(c', s) ← CoordinatorSnapshot (bi_ID (cc_Backend value')) now c;
    Some (c', inr (s, if decide (value = value') then ReasonNone else ReasonIdempotencyConflict)).
Proof.
  intros Hwf HN Hnow Ha Hcomp Hret Hid.
  destruct (expire_cwf N now c Hwf HN Hnow) as (c0 & He & _ & (_ & _ & Hkept) & _).
  assert (Ht : at_terminal a = true).
  { destruct (at_terminal a) eqn:Ht; [done|]. pose proof (ci_live _ _ _ _ (cwf_inv _ _ Hwf) _ _ Ha Ht) as [_ Hn _ _ _].
    congruence. }
  unfold Complete, CoordinatorSnapshot. rewrite He. cbn [mbind option_bind].
  rewrite Hid, (Hkept _ _ Ha Ht Hret). cbn [mbind option_bind]. rewrite Hcomp.
  destruct (snapshot _ now c0) as [[c' s]|]; [|done]. cbn [mbind option_bind]. do 3 f_equal.
  case_decide; [by rewrite bool_decide_true|by rewrite bool_decide_false].
Qed.

(** A lost probe is reported without its name.  When a probe being renewed
    is unknown, terminal, not a probe or of another generation, [RenewProbes]
    returns a result whose lease identity is the zero value, so the caller
    cannot tell from the result which probe was lost. *)
Lemma renew_lost_probe_unnamed now p c :
  (forall a permit, attempts c !! pi_PermitID p = Some a -> at_permit a = Some permit ->
     at_terminal a = true \/ pi_Generation permit <> pi_Generation p) ->
  renew_probe now p c = (c, {| rr_Lease := zero_lease; rr_Reason := ReasonLeaseLost |}).
Proof.
  intros Hlost. unfold renew_probe. destruct (attempts c !! pi_PermitID p) as [a|] eqn:Ha; [|done].
  destruct (at_permit a) as [permit|] eqn:Hp; [|done]. destruct (Hlost a permit eq_refl Hp) as [-> | Hne]; [done|].
  rewrite (proj2 (Z.eqb_neq _ _) Hne). by destruct (at_terminal a).
Qed.

End LocalCircuit.

(** ** Witnesses: one backend whose circuit opens and is probed *)

Definition circuit_demo_now : Time := 8640000 * GoTime.Second.

Definition circuit_demo_options : Options :=
  {| FailureThreshold := 1; FailureWindow := 10 * GoTime.Second; OpenCooldown := 5 * GoTime.Second;
     HalfOpenMaxProbes := 1 |}.

Definition demo_backend : BackendIdentity :=
  {| bi_ID := 1; bi_Revision := 1; bi_Enabled := true; bi_Draining := false |}.

Definition demo_attempt (id : UUID) (t : Time) : CircuitAcquireRequest :=
  {| ca_AttemptID := id; ca_AcquisitionStartedAt := t; ca_ReplicaID := 7%N; ca_Backend := demo_backend;
     ca_ProbeTTL := 3 * GoTime.Second |}.

Definition demo_failure (id : UUID) (g t : Z) : CircuitCompletion :=
  {| cc_AttemptID := id; cc_Backend := demo_backend; cc_Generation := g; cc_Outcome := InferenceFailure;
     cc_ReportedOutcomeAt := t |}.

Definition after (s : Z) : Time := circuit_demo_now + s * GoTime.Second.

(** The first attempt fails and opens the circuit; the second, six seconds
    later, is a probe with three seconds to live. *)
Definition circuit_demo_calls : list (Time * Op) :=
  [(after 0, OpReconcile None [demo_backend]); (after 0, OpAcquire None (demo_attempt 1%N (after 0)));
   (after 1, OpComplete None (demo_failure 1%N 0 (after 1))); (after 7, OpAcquire None (demo_attempt 2%N (after 7)))].

Definition circuit_demo_new : CircuitCoordinator (FP := CircuitAcquireRequest) :=
  {| copts := circuit_demo_options; breakers := ∅; nextRef := 0%nat; circuits := ∅; attempts := ∅;
     cexpiries := []; cterminalExpiries := []; attemptCapacity := 4 |}.

Lemma circuit_demo_clock : circuit_clock_ok circuit_demo_calls.
Proof. repeat constructor; vm_compute; discriminate. Qed.

(** The concrete run, with Go's [range] in the order of the finite maps. *)
Definition demo_run := run id map_to_list map_to_list circuit_demo_calls circuit_demo_new.

Lemma circuit_demo_cwf : exists c, demo_run = Some c /\ cwf 16 c.
Proof.
  apply (run_cwf id map_to_list map_to_list ltac:(done) circuit_demo_calls 0);
    [by apply (cwf_new circuit_demo_options 4)|lia|vm_compute; reflexivity|exact circuit_demo_clock].
Qed.

Lemma probe_slots_accounted_witness :
  exists c, demo_run = Some c /\
    forall bid e, circuits c !! bid = Some e -> exists b, breakers c !! ce_breaker e = Some b /\
      probesInFlight b = count_if (fun _ a => holds_probe bid (generation b) a) (attempts c) /\
      probesInFlight b <= HalfOpenMaxProbes (options b) /\
      forall id a, attempts c !! id = Some a -> holds_probe bid (generation b) a = true ->
        exists p, at_permit a = Some p /\ ExpiryEntry (pi_ExpiresAt p) id circuitPermitExpiry ∈ cexpiries c.
Proof.
  apply (probe_slots_accounted id map_to_list map_to_list ltac:(done) circuit_demo_options 4);
    [reflexivity|exact circuit_demo_clock|vm_compute; reflexivity].
Defined.

Lemma expired_probes_free_circuit_witness :
  exists c, demo_run = Some c /\
  exists c' d, Acquire id None (after 20) (demo_attempt 3%N (after 20)) c = Some (c', inr d) /\
    cd_Reason d = ReasonNone.
Proof.
  destruct circuit_demo_cwf as (c & Hrun & Hwf). exists c. split; [exact Hrun|].
  vm_compute in Hrun. injection Hrun as <-.
  eapply (expired_probes_free_circuit id 16); [exact Hwf|lia|vm_compute; discriminate|vm_compute; reflexivity
    | |reflexivity|reflexivity|reflexivity|reflexivity|reflexivity|reflexivity|reflexivity|vm_compute; intros; discriminate].
  intros i a p Ha%elem_of_map_to_list Hp. vm_compute in Ha.
  apply elem_of_cons in Ha as [[= -> ->]|[[= -> ->]|Ha%elem_of_nil]%elem_of_cons]; [..|done]; cbn in Hp;
    first [discriminate Hp|injection Hp as <-; vm_compute; discriminate].
Defined.

Lemma reconcile_exact_witness :
  exists c, demo_run = Some c /\
  exists c', Reconcile map_to_list map_to_list None (after 8) [demo_backend] c = Some (c', None) /\
    forall id v, option_map ce_identity (circuits c' !! id) = Some v <->
      v ∈ [demo_backend] /\ bi_ID v = id /\ wanted v = true.
Proof.
  destruct circuit_demo_cwf as (c & Hrun & Hwf). exists c. split; [exact Hrun|].
  vm_compute in Hrun. injection Hrun as <-. eexists. split; [vm_compute; reflexivity|].
  eapply (reconcile_exact map_to_list map_to_list (fun _ => reflexivity _) 16 (after 8) [demo_backend]);
    [exact Hwf|lia|vm_compute; discriminate|vm_compute; reflexivity].
Defined.

Lemma circuit_outcome_counted_once_witness :
  exists c, demo_run = Some c /\
    Complete None (after 8) (demo_failure 1%N 0 (after 1)) c =
      '(c', s) ← CoordinatorSnapshot 1 (after 8) c;
      Some (c', inr (s, if decide (demo_failure 1%N 0 (after 1) = demo_failure 1%N 0 (after 1))
                        then ReasonNone else ReasonIdempotencyConflict)).
Proof.
  destruct circuit_demo_cwf as (c & Hrun & Hwf). exists c. split; [exact Hrun|].
  vm_compute in Hrun. injection Hrun as <-.
  eapply (circuit_outcome_counted_once 16 (after 8) (demo_failure 1%N 0 (after 1)) (demo_failure 1%N 0 (after 1)));
    [exact Hwf|lia|vm_compute; discriminate|reflexivity|reflexivity|vm_compute; reflexivity|reflexivity].
Defined.

Lemma renew_lost_probe_unnamed_witness :
  let p := {| pi_PermitID := 9%N; pi_Backend := demo_backend; pi_Generation := 1; pi_ReplicaID := 7%N;
              pi_ExpiresAt := after 10; pi_TTL := 3 * GoTime.Second |} in
  renew_probe (after 8) p circuit_demo_new =
    (circuit_demo_new, {| rr_Lease := zero_lease; rr_Reason := ReasonLeaseLost |}).
Proof. apply renew_lost_probe_unnamed. intros a permit Ha. vm_compute in Ha. discriminate. Defined.
