(* ===== verification/Admission.v ===== *)
(** Admission policy and the in-process limiters.

    [EffectiveLimit] ([src/internal/admission/policy.go]) scales a client's
    concurrency by priority class and pool state, in [float64] as the source
    does; the theorem gives its exact integer value.  [Limiter]
    ([src/internal/admission/limiter.go]) and [EmergencyAdmission]
    ([src/internal/coordination/emergency.go]) hand out releases guarded by
    [sync.Once]: a handle is a release that may be called any number of times
    and counts once. *)

From S2P Require Import Prelude Domain Float64.

(** ** Effective limits *)

Definition admittedFraction (class : PriorityClass) (state : PoolState) : float64 :=
  match state with
  | PoolNormal => fone
  | PoolBusy => if bool_decide (class = PriorityBackground) then fhalf else fone
  | PoolSaturated =>
    if bool_decide (class = PriorityCritical) || bool_decide (class = PriorityHigh) then fone
    else if bool_decide (class = PriorityNormal) then fhalf else fzero
  | PoolEmergency =>
    if bool_decide (class = PriorityCritical) then fone
    else if bool_decide (class = PriorityHigh) then fhalf else fzero
  | _ => fzero
  end.

Definition EffectiveLimit (class : PriorityClass) (state : PoolState) (maximum : Z) : Z :=
  if maximum <=? 0 then 0
  else
    let limit := floor_to_int (fmul (of_int maximum) (admittedFraction class state)) in
    if limit <? 0 then 0 else if maximum <? limit then maximum else limit.

(** ** Counting the releases not yet called *)

Section Held.
Context {H K : Type} `{!EqDecision K} (key : H -> K) (called : H -> bool).

Definition held_by (k : K) (l : list H) : Z := count_list (fun h => key h = k /\ called h = false) l.

Lemma held_by_acquire k l h :
  called h = false -> held_by k (l ++ [h]) = held_by k l + if decide (k = key h) then 1 else 0.
Proof.
  intros Hc. unfold held_by. rewrite count_list_app, count_list_cons, count_list_nil.
  destruct (decide (k = key h)) as [->|Hne]; [rewrite decide_True by done; lia|].
  rewrite decide_False by (intros [? _]; congruence). lia.
Qed.

Lemma held_by_release k l i h h' :
  l !! i = Some h -> called h = false -> called h' = true ->
  held_by k (<[i := h']> l) = held_by k l - if decide (k = key h) then 1 else 0.
Proof.
  intros Hi Hc Hc'. unfold held_by. rewrite (count_list_insert _ _ _ _ _ Hi).
  rewrite (decide_False (P := _ /\ called h' = false)) by (intros [_ ?]; congruence).
  destruct (decide (k = key h)) as [->|Hne]; [rewrite decide_True by done; lia|].
  rewrite decide_False by (intros [? _]; congruence). lia.
Qed.

Lemma held_by_nonneg k l : 0 <= held_by k l.
Proof. apply count_list_nonneg. Qed.

Lemma held_by_pos l i h : l !! i = Some h -> called h = false -> 1 <= held_by (key h) l.
Proof.
  intros Hi Hc. pose proof (held_by_nonneg (key h) (delete i l)) as Hn.
  unfold held_by in *. rewrite (delete_Permutation l i h Hi). rewrite count_list_cons, decide_True by done. lia.
Qed.

End Held.

(** ** The limiter *)

Module Limiter.

(** A limiter with the releases handed out; [done] is the state of the
    lease's [sync.Once]. *)
Record Lease := { clientID : Z; done : bool }.

Record Limiter := { inflight : gmap Z Z; handles : list Lease }.

Definition NewLimiter : Limiter := {| inflight := ∅; handles := [] |}.

Definition Acquire (client limit : Z) (l : Limiter) : Limiter * option nat :=
  if limit <=? 0 then (l, None)
  else if limit <=? mget (inflight l) client then (l, None)
  else
    ({| inflight := mincr (inflight l) client;
        handles := handles l ++ [{| clientID := client; done := false |}] |},
     Some (length (handles l))).

Definition InFlight (client : Z) (l : Limiter) : Z := mget (inflight l) client.

(** [Release] on the [i]-th handle; a nil handle releases nothing. *)
Definition Release (i : nat) (l : Limiter) : Limiter :=
  match handles l !! i with
  | Some h =>
    if done h then l
    else
      let remaining := mget (inflight l) (clientID h) - 1 in
      {| inflight := if remaining <=? 0 then delete (clientID h) (inflight l)
                     else <[clientID h := remaining]> (inflight l);
         handles := <[i := {| h with done := true |}]> (handles l) |}
  | None => l
  end.

Inductive Op := OpAcquire (client limit : Z) | OpRelease (i : nat).

Definition exec (l : Limiter) (op : Op) : Limiter :=
  match op with
  | OpAcquire client limit => (Acquire client limit l).1
  | OpRelease i => Release i l
  end.

Definition held (client : Z) (l : Limiter) : Z := held_by clientID done client (handles l).

(** The counter of a client is the number of its leases not yet released. *)
Definition accounted (l : Limiter) : Prop := forall c, mget (inflight l) c = held c l.

Lemma limiter_accounted_exec l op : accounted l -> accounted (exec l op).
Proof.
  intros Hacc. destruct op as [client limit|i]; cbn [exec].
  - unfold Acquire. destruct (limit <=? 0); [done|]. destruct (limit <=? _); [done|]. intros c.
    unfold held; cbn. by rewrite mget_mincr, Hacc, held_by_acquire.
  - unfold Release. destruct (handles l !! i) as [h|] eqn:Hi; [|done]. destruct (done h) eqn:Hd; [done|].
    intros c. unfold held; cbn. rewrite (held_by_release _ _ _ _ _ _ _ Hi), Hacc by done.
    pose proof (held_by_pos clientID done _ _ _ Hi Hd). unfold held.
    destruct (_ <=? 0) eqn:E; b2p; rewrite ?mget_delete, ?mget_insert, ?Hacc; unfold held in *;
      destruct (decide (c = clientID h)) as [->|]; lia.
Qed.

Lemma held_exec_le l op c limit :
  accounted l -> 0 <= limit -> (forall lim, op = OpAcquire c lim -> lim <= limit) ->
  held c l <= limit -> held c (exec l op) <= limit.
Proof.
  intros Hacc Hlim Hop Hle. pose proof (limiter_accounted_exec l op Hacc c) as Ha. rewrite <- Ha. clear Ha.
  destruct op as [client lim|i]; cbn [exec].
  - unfold Acquire. destruct (lim <=? 0); [cbn; by rewrite Hacc|].
    destruct (lim <=? _) eqn:E; [cbn; by rewrite Hacc|]. cbn. rewrite mget_mincr, Hacc. b2p.
    case_decide as D; [|lia]. subst client. specialize (Hop lim eq_refl). rewrite Hacc in E. lia.
  - unfold Release. destruct (handles l !! i) as [h|]; [|by rewrite Hacc]. destruct (done h); [by rewrite Hacc|].
    cbn. destruct (_ <=? 0) eqn:E; b2p; rewrite ?mget_delete, ?mget_insert; case_decide; rewrite ?Hacc; subst;
      rewrite ?Hacc in *; lia.
Qed.

End Limiter.

(** ** Emergency admission *)

Module Emergency.

Record Handle := { class : PriorityClass; client : Z; done : bool }.

Record EmergencyAdmission := {
  critical : Z;
  high : Z;
  byClass : gmap string Z;
  byClient : gmap Z Z;
  handles : list Handle
}.

Definition NewEmergencyAdmission (critical high : Z) : EmergencyAdmission :=
  {| critical := critical; high := high; byClass := ∅; byClient := ∅; handles := [] |}.

(** The cap of a class; [None] for the classes never served in an outage. *)
Definition class_cap (e : EmergencyAdmission) (p : PriorityClass) : option Z :=
  if bool_decide (p = PriorityCritical) then Some (critical e)
  else if bool_decide (p = PriorityHigh) then Some (high e) else None.

(** On a nil receiver ([None]) nothing is admitted. *)
Definition Acquire (p : PriorityClass) (clientID clientLimit : Z) (e : EmergencyAdmission)
    : EmergencyAdmission * option nat :=
  if clientLimit <=? 0 then (e, None)
  else
    match class_cap e p with
    | None => (e, None)
    | Some cap =>
      if cap <=? 0 then (e, None)
      else if (cap <=? mget (byClass e) p) || (clientLimit <=? mget (byClient e) clientID) then (e, None)
      else
        ({| e with byClass := mincr (byClass e) p; byClient := mincr (byClient e) clientID;
            handles := handles e ++ [{| class := p; client := clientID; done := false |}] |},
         Some (length (handles e)))
    end.

(** The release closure: [byClass[class]--] and [byClient[clientID]--] keep
    entries that reach zero. *)
Definition Release (i : nat) (e : EmergencyAdmission) : EmergencyAdmission :=
  match handles e !! i with
  | Some h =>
    if done h then e
    else {| e with byClass := <[class h := mget (byClass e) (class h) - 1]> (byClass e);
            byClient := <[client h := mget (byClient e) (client h) - 1]> (byClient e);
            handles := <[i := {| h with done := true |}]> (handles e) |}
  | None => e
  end.

Definition CanServe (p : PriorityClass) (clientID clientLimit : Z) (e : EmergencyAdmission) : bool :=
  if clientLimit <=? 0 then false
  else
    match class_cap e p with
    | None => false
    | Some cap => (0 <? cap) && (mget (byClass e) p <? cap) && (mget (byClient e) clientID <? clientLimit)
    end.

Inductive Op := OpAcquire (p : PriorityClass) (clientID clientLimit : Z) | OpRelease (i : nat).

Definition exec (e : EmergencyAdmission) (op : Op) : EmergencyAdmission :=
  match op with
  | OpAcquire p clientID limit => (Acquire p clientID limit e).1
  | OpRelease i => Release i e
  end.

Definition held_class (p : PriorityClass) (e : EmergencyAdmission) : Z := held_by class done p (handles e).
Definition held_client (c : Z) (e : EmergencyAdmission) : Z := held_by client done c (handles e).

Record accounted (e : EmergencyAdmission) : Prop := {
  acc_class p : mget (byClass e) p = held_class p e;
  acc_client c : mget (byClient e) c = held_client c e;
  acc_cap p : held_class p e <= default 0 (Z.max 0 <$> class_cap e p)
}.

Lemma accounted_new critical high : accounted (NewEmergencyAdmission critical high).
Proof.
  constructor; intros; unfold held_class, held_client, held_by; cbn; rewrite ?mget_empty, ?count_list_nil; try done.
  destruct (class_cap _ _); cbn; lia.
Qed.

Lemma exec_caps e op : critical (exec e op) = critical e /\ high (exec e op) = high e.
Proof. destruct op; cbn; [unfold Acquire|unfold Release]; repeat case_match; done. Qed.

Lemma emergency_accounted_exec e op : accounted e -> accounted (exec e op).
Proof.
  intros [Hcl Hct Hcap]. destruct op as [p c limit|i]; cbn [exec].
  - unfold Acquire. destruct (limit <=? 0); [done|]. destruct (class_cap e p) as [cap|] eqn:Ec; [|done].
    destruct (cap <=? 0) eqn:E0; [done|]. destruct (_ || _) eqn:E1; [done|]. apply orb_false_iff in E1 as [E1 E2]. b2p.
    constructor; intros; unfold held_class, held_client; cbn [handles byClass byClient fst].
    + by rewrite mget_mincr, Hcl, held_by_acquire.
    + by rewrite mget_mincr, Hct, held_by_acquire.
    + rewrite held_by_acquire by done. specialize (Hcap p0). rewrite Hcl in E1. unfold held_class in *.
      change (class_cap _ p0) with (class_cap e p0). cbn [class]. case_decide as D; [|lia]. subst p0.
      rewrite Ec in *. cbn in *. lia.
  - unfold Release. destruct (handles e !! i) as [h|] eqn:Hi; [|done]. destruct (done h) eqn:Hd; [done|].
    constructor; intros; unfold held_class, held_client; cbn [handles byClass byClient].
    + rewrite mget_insert, (held_by_release _ _ _ _ _ _ _ Hi) by done. rewrite !Hcl. unfold held_class.
      repeat case_decide; subst; try done; lia.
    + rewrite mget_insert, (held_by_release _ _ _ _ _ _ _ Hi) by done. rewrite !Hct. unfold held_client.
      repeat case_decide; subst; try done; lia.
    + rewrite (held_by_release _ _ _ _ _ _ _ Hi) by done. specialize (Hcap p). unfold held_class in *.
      change (class_cap _ p) with (class_cap e p). case_decide; lia.
Qed.

End Emergency.

(** ** Properties *)

(** The admitted share of a class in a pool state, in halves. *)
Definition share (class : PriorityClass) (state : PoolState) : Z :=
  match state with
  | PoolNormal => 2
  | PoolBusy => if bool_decide (class = PriorityBackground) then 1 else 2
  | PoolSaturated =>
    if bool_decide (class = PriorityCritical) then 2 else if bool_decide (class = PriorityHigh) then 2
    else if bool_decide (class = PriorityNormal) then 1 else 0
  | PoolEmergency =>
    if bool_decide (class = PriorityCritical) then 2 else if bool_decide (class = PriorityHigh) then 1 else 0
  | _ => 0
  end.

Lemma effective_limit_value class state maximum :
  maximum < 2 ^ 53 -> EffectiveLimit class state maximum = Z.max 0 maximum * share class state / 2.
Proof.
  intros Hmax. unfold EffectiveLimit. destruct (Z.leb_spec maximum 0) as [L|L].
  { by replace (Z.max 0 maximum) with 0 by lia. }
  replace (Z.max 0 maximum) with maximum by lia.
  assert (Hone : floor_to_int (fmul (of_int maximum) fone) = maximum * 2 / 2).
  { rewrite Z.div_mul by lia. by apply floor_fmul_one. }
  assert (Hhalf : floor_to_int (fmul (of_int maximum) fhalf) = maximum * 1 / 2).
  { rewrite Z.mul_1_r. by apply floor_fmul_half. }
  assert (Hzero : floor_to_int (fmul (of_int maximum) fzero) = maximum * 0 / 2).
  { destruct (of_int_pos maximum) as (m & d & _ & -> & _); [lia|]. by rewrite Z.mul_0_r. }
  assert (Hval : floor_to_int (fmul (of_int maximum) (admittedFraction class state)) = maximum * share class state / 2 /\
    0 <= share class state <= 2).
  { unfold admittedFraction, share. repeat case_match; b2p; try (split; [done|lia]);
      repeat case_bool_decide; try done; split; try done; lia. }
  destruct Hval as [-> Hs]. rewrite (proj2 (Z.ltb_ge _ _)) by (apply Z.div_pos; nia).
  rewrite (proj2 (Z.ltb_ge _ _)); [done|]. apply Z.div_le_upper_bound; nia.
Qed.

(** The effective limit is exact integer arithmetic: for every maximum below
    2^53 the [float64] computation gives the whole, the floor of half, or none
    of it, by the table of classes and pool states. *)
Theorem effective_limit_exact class state maximum :
  maximum < 2 ^ 53 -> EffectiveLimit class state maximum = Z.max 0 maximum * share class state / 2.
Proof. apply effective_limit_value. Qed.

Lemma effective_limit_exact_witness : EffectiveLimit PriorityNormal PoolSaturated 7 = 3.
Proof. rewrite (effective_limit_exact PriorityNormal PoolSaturated 7) by lia. reflexivity. Defined.

(** Urgency of the valid classes and severity of the pool states. *)
Definition urgency (p : PriorityClass) : Z :=
  if bool_decide (p = PriorityCritical) then 3 else if bool_decide (p = PriorityHigh) then 2
  else if bool_decide (p = PriorityNormal) then 1 else 0.

Definition severity (s : PoolState) : Z :=
  match s with
  | PoolNormal => 0 | PoolBusy => 1 | PoolSaturated => 2 | PoolEmergency => 3 | _ => 4
  end.

Lemma share_monotone p q s t :
  PriorityClass_Valid p = true -> PriorityClass_Valid q = true ->
  urgency p <= urgency q -> severity t <= severity s -> 0 <= share p s <= share q t.
Proof.
  intros Hp Hq Hu Hs.
  assert (Hcases : forall x, PriorityClass_Valid x = true ->
    x = PriorityCritical \/ x = PriorityHigh \/ x = PriorityNormal \/ x = PriorityBackground).
  { intros x Hx. unfold PriorityClass_Valid in Hx. repeat case_bool_decide; auto; done. }
  destruct (Hcases p Hp) as [-> |[-> |[-> | ->]]], (Hcases q Hq) as [-> |[-> |[-> | ->]]];
    try (exfalso; vm_compute in Hu; congruence);
    destruct s, t; vm_compute in Hs |- *; try (exfalso; congruence); split; congruence.
Qed.

(** Priorities are respected: for valid classes, a more urgent class never
    has a smaller effective limit than a less urgent one, and a worse pool state
    never a larger one than a better state. *)
Theorem effective_limit_monotone p q s t maximum :
  maximum < 2 ^ 53 -> PriorityClass_Valid p = true -> PriorityClass_Valid q = true ->
  urgency p <= urgency q -> severity t <= severity s ->
  0 <= EffectiveLimit p s maximum <= EffectiveLimit q t maximum.
Proof.
  intros Hmax Hp Hq Hu Hs. pose proof (share_monotone p q s t Hp Hq Hu Hs) as Hsh.
  rewrite !effective_limit_value by done. split; [apply Z.div_pos; nia|].
  apply Z.div_le_mono; [lia|]. nia.
Qed.

Lemma effective_limit_monotone_witness :
  0 <= EffectiveLimit PriorityBackground PoolSaturated 9 <= EffectiveLimit PriorityNormal PoolBusy 9.
Proof. apply (effective_limit_monotone PriorityBackground PriorityNormal PoolSaturated PoolBusy 9); vm_compute; congruence. Defined.

(** The limiter counts its leases: after any sequence of acquisitions and
    releases (a lease released twice counts once) a client's counter is the
    number of its leases not yet released, and never exceeds a bound on the
    limits the client's acquisitions were made with. *)
Theorem limiter_within_limit ops client limit :
  0 <= limit -> Forall (fun op => forall lim, op = Limiter.OpAcquire client lim -> lim <= limit) ops ->
  let l := foldl Limiter.exec Limiter.NewLimiter ops in
  Limiter.InFlight client l = Limiter.held client l /\ Limiter.held client l <= limit.
Proof.
  intros Hlim Hops l.
  assert (Hinv : Limiter.accounted l /\ Limiter.held client l <= limit); [|by split; [apply Hinv|apply Hinv]].
  unfold l. clear l. induction ops as [|op ops IH] using rev_ind.
  - split; [|unfold Limiter.held, held_by; cbn; rewrite count_list_nil; lia].
    intros c. unfold Limiter.held, held_by. cbn. by rewrite mget_empty, count_list_nil.
  - apply Forall_app in Hops as [Hops Hop]. rewrite foldl_app. cbn. apply Forall_cons in Hop as [Hop _].
    destruct (IH Hops). split; [by apply Limiter.limiter_accounted_exec|by apply Limiter.held_exec_le].
Qed.

Lemma limiter_within_limit_witness :
  let l := foldl Limiter.exec Limiter.NewLimiter
    [Limiter.OpAcquire 1 2; Limiter.OpAcquire 1 2; Limiter.OpAcquire 1 2; Limiter.OpRelease 0; Limiter.OpRelease 0] in
  Limiter.InFlight 1 l = Limiter.held 1 l /\ Limiter.held 1 l <= 2.
Proof.
  apply (limiter_within_limit _ 1 2); [lia|]. repeat (apply Forall_cons; split);
    [..|apply Forall_nil; done]; intros lim E; simplify_eq; lia.
Defined.

(** Emergency admission keeps its outage bounds: after any sequence of
    acquisitions and releases the critical and high leases held are at most the
    configured caps, no lease of any other class is held, and [CanServe] says
    exactly whether [Acquire] would admit. *)
Theorem emergency_within_caps critical high ops p clientID clientLimit :
  let e := foldl Emergency.exec (Emergency.NewEmergencyAdmission critical high) ops in
  Emergency.held_class PriorityCritical e <= Z.max 0 critical /\
  Emergency.held_class PriorityHigh e <= Z.max 0 high /\
  (p <> PriorityCritical -> p <> PriorityHigh -> Emergency.held_class p e = 0) /\
  (Emergency.CanServe p clientID clientLimit e = true <->
   is_Some (Emergency.Acquire p clientID clientLimit e).2).
Proof.
  intros e.
  assert (Hinv : Emergency.accounted e /\ Emergency.critical e = critical /\ Emergency.high e = high).
  { unfold e. clear e. induction ops as [|op ops IH] using rev_ind; [by split; [apply Emergency.accounted_new|]|].
    rewrite foldl_app. destruct IH as (IH & Hc & Hh). split; [by apply Emergency.emergency_accounted_exec|]. cbn [foldl].
    destruct (Emergency.exec_caps (foldl Emergency.exec (Emergency.NewEmergencyAdmission critical high) ops) op).
    split; congruence. }
  destruct Hinv as ([_ _ Hcap] & Hc & Hh). split_and!.
  - rewrite <- Hc. exact (Hcap PriorityCritical).
  - rewrite <- Hh. exact (Hcap PriorityHigh).
  - intros H1 H2. specialize (Hcap p). unfold Emergency.class_cap in Hcap.
    rewrite !bool_decide_false in Hcap by done. cbn in Hcap.
    pose proof (held_by_nonneg Emergency.class Emergency.done p (Emergency.handles e)).
    unfold Emergency.held_class in *. lia.
  - unfold Emergency.CanServe, Emergency.Acquire. destruct (clientLimit <=? 0); [by split; [|intros [? ?]]|].
    destruct (Emergency.class_cap e p) as [cap|]; [|by split; [|intros [? ?]]].
    destruct (cap <=? 0) eqn:E0; b2p; [split; [lia|by intros [? ?]]|].
    destruct (_ || _) eqn:E1; [split; [lia|by intros [? ?]]|]. split; [eauto|lia].
Qed.

Lemma emergency_within_caps_witness :
  let e := foldl Emergency.exec (Emergency.NewEmergencyAdmission 1 1)
    [Emergency.OpAcquire PriorityHigh 1 2; Emergency.OpAcquire PriorityHigh 2 2] in
  Emergency.held_class PriorityCritical e <= Z.max 0 1 /\
  Emergency.held_class PriorityHigh e <= Z.max 0 1 /\
  (PriorityNormal <> PriorityCritical -> PriorityNormal <> PriorityHigh -> Emergency.held_class PriorityNormal e = 0) /\
  (Emergency.CanServe PriorityNormal 1 2 e = true <-> is_Some (Emergency.Acquire PriorityNormal 1 2 e).2).
Proof. apply (emergency_within_caps 1 1). Defined.
