(* ===== verification/Pressure.v ===== *)
(** Backend pressure and the pool state machine
    ([src/internal/pressure/pressure.go], [ewma.go], [state.go]). *)

From S2P Require Import Prelude Domain Float64.

(** ** Pressure *)

(** The untyped constants [.55], [.30], [.15] as [float64]. *)
Definition queueWeight : float64 := of_ratio 55 100.
Definition kvWeight : float64 := of_ratio 30 100.
Definition runningWeight : float64 := of_ratio 15 100.

Record Sample := {
  sm_Running : float64;
  sm_Waiting : float64;
  sm_KVUsage : float64
}.

Record Limits := {
  lim_QueueSoft : float64;
  lim_KVSoft : float64;
  lim_KVHard : float64;
  lim_RunningSoft : float64
}.

Definition finite (value : float64) : bool := negb (IsNaN value) && negb (IsInf value).

Definition positiveFinite (value : float64) : bool := flt fzero value && finite value.

(** [func (l Limits) Validate() error]: [true] is a nil error. *)
Definition Limits_Validate (l : Limits) : bool :=
  positiveFinite (lim_QueueSoft l) && positiveFinite (lim_RunningSoft l) &&
  negb (negb (finite (lim_KVSoft l)) || negb (finite (lim_KVHard l)) || flt (lim_KVSoft l) fzero ||
        flt fone (lim_KVHard l) || fle (lim_KVHard l) (lim_KVSoft l)).

Definition clamp (value minimum maximum : float64) : float64 :=
  if IsNaN value then minimum
  else if flt value minimum then minimum
  else if flt maximum value then maximum
  else value.

Definition ftwo : float64 := of_int 2.

Definition Calculate (sample : Sample) (limits : Limits) : float64 :=
  let queue := clamp (fdiv (sm_Waiting sample) (lim_QueueSoft limits)) fzero ftwo in
  let kv := clamp (fdiv (fsub (sm_KVUsage sample) (lim_KVSoft limits))
                     (fsub (lim_KVHard limits) (lim_KVSoft limits))) fzero ftwo in
  let running := clamp (fdiv (sm_Running sample) (lim_RunningSoft limits)) fzero ftwo in
  fadd (fadd (fmul queueWeight queue) (fmul kvWeight kv)) (fmul runningWeight running).

(** ** The exponentially weighted average; [math.Exp] is a parameter. *)

Record EWMA := {
  ew_window : Duration;
  ew_initialized : bool;
  ew_lastAt : Time;
  ew_value : float64
}.

Definition NewEWMA (window : Duration) : EWMA :=
  {| ew_window := window; ew_initialized := false; ew_lastAt := GoTime.zero; ew_value := fzero |}.

Definition EWMA_Add (exp : float64 -> float64) (at_ : Time) (value : float64) (e : EWMA) : EWMA * float64 :=
  let set v := ({| e with ew_initialized := true; ew_lastAt := at_; ew_value := v |}, v) in
  if negb (ew_initialized e) then set value
  else if negb (GoTime.After at_ (ew_lastAt e)) then (e, ew_value e)
  else if ew_window e <=? 0 then set value
  else
    let elapsed := GoTime.Sub at_ (ew_lastAt e) in
    let alpha := fsub fone (exp (fdiv (SFopp (of_int elapsed)) (of_int (ew_window e)))) in
    set (fadd (ew_value e) (fmul alpha (fsub value (ew_value e)))).

(** ** The pool state machine *)

Record Thresholds := {
  th_Busy : float64;
  th_Saturated : float64;
  th_Emergency : float64;
  th_BusyRecovery : float64;
  th_SaturatedRecovery : float64;
  th_EmergencyRecovery : float64;
  th_EnterWindow : Duration;
  th_RecoveryWindow : Duration
}.

Record PoolMachine := {
  pm_thresholds : Thresholds;
  pm_current : PoolState;
  pm_candidate : PoolState;
  pm_candidateSince : Time;
  pm_candidateSet : bool;
  pm_lastObservedAt : Time
}.

Definition NewPoolMachine (th : Thresholds) : PoolMachine :=
  {| pm_thresholds := th; pm_current := PoolNormal; pm_candidate := PoolUnset;
     pm_candidateSince := GoTime.zero; pm_candidateSet := false; pm_lastObservedAt := GoTime.zero |}.

Definition stateRank (s : PoolState) : Z :=
  match s with
  | PoolNormal => 0
  | PoolBusy => 1
  | PoolSaturated => 2
  | PoolEmergency => 3
  | _ => -1
  end.

(** [best >= limit] *)
Definition instantaneous (th : Thresholds) (best : float64) (allWaiting : bool) : PoolState :=
  if fle (th_Emergency th) best then PoolEmergency
  else if fle (th_Saturated th) best || allWaiting then PoolSaturated
  else if fle (th_Busy th) best then PoolBusy
  else PoolNormal.

Definition target (m : PoolMachine) (inst : PoolState) (best : float64) (allWaiting : bool)
    : PoolState * Duration :=
  let th := pm_thresholds m in
  if stateRank (pm_current m) <? stateRank inst then (inst, th_EnterWindow th)
  else
    match pm_current m with
    | PoolEmergency =>
      if flt best (th_EmergencyRecovery th) then (PoolSaturated, th_RecoveryWindow th) else (pm_current m, 0)
    | PoolSaturated =>
      if flt best (th_SaturatedRecovery th) && negb allWaiting
      then (PoolBusy, th_RecoveryWindow th) else (pm_current m, 0)
    | PoolBusy =>
      if flt best (th_BusyRecovery th) then (PoolNormal, th_RecoveryWindow th) else (pm_current m, 0)
    | _ => (pm_current m, 0)
    end.

Definition resetCandidate (m : PoolMachine) : PoolMachine :=
  {| m with pm_candidate := PoolUnset; pm_candidateSince := GoTime.zero; pm_candidateSet := false |}.

Definition Observe (at_ : Time) (best : float64) (allWaiting available : bool) (m : PoolMachine)
    : PoolMachine :=
  if negb (GoTime.IsZero (pm_lastObservedAt m)) && GoTime.Before at_ (pm_lastObservedAt m) then m
  else
    let m := {| m with pm_lastObservedAt := at_ |} in
    if negb available then resetCandidate {| m with pm_current := PoolUnavailable |}
    else
      let inst := instantaneous (pm_thresholds m) best allWaiting in
      if bool_decide (pm_current m = PoolUnavailable) then resetCandidate {| m with pm_current := inst |}
      else
        let '(tgt, window) := target m inst best allWaiting in
        if bool_decide (tgt = pm_current m) then resetCandidate m
        else if negb (pm_candidateSet m) || negb (bool_decide (pm_candidate m = tgt)) then
          {| m with pm_candidate := tgt; pm_candidateSince := at_; pm_candidateSet := true |}
        else if window <=? GoTime.Sub at_ (pm_candidateSince m) then
          resetCandidate {| m with pm_current := tgt |}
        else m.

(** ** Lemmas *)

(** A clamped value is finite and within the bounds. *)
Lemma clamp_range v : nonneg (clamp v fzero ftwo) = true /\ finite_float (clamp v fzero ftwo) = true /\
  fle (clamp v fzero ftwo) ftwo = true.
Proof.
  unfold clamp. destruct (IsNaN v) eqn:Hn; [done|]. destruct (flt v fzero) eqn:Hl; [done|].
  destruct (flt ftwo v) eqn:Hh; [done|]. split_and!.
  - by destruct v as [[]|[]| |[] m e].
  - by destruct v as [[]|[]| |[] m e].
  - by rewrite fle_flt, Hh.
Qed.

Record Observation := {
  ob_at : Time;
  ob_best : float64;
  ob_allWaiting : bool;
  ob_available : bool
}.

Definition observe (m : PoolMachine) (o : Observation) : PoolMachine :=
  Observe (ob_at o) (ob_best o) (ob_allWaiting o) (ob_available o) m.

Definition machine (th : Thresholds) (obs : list Observation) : PoolMachine :=
  foldl observe (NewPoolMachine th) obs.

(** The state an observation asks for, from a given state, and for how long. *)
Definition asks (th : Thresholds) (s : PoolState) (o : Observation) : PoolState * Duration :=
  target {| pm_thresholds := th; pm_current := s; pm_candidate := PoolUnset;
            pm_candidateSince := GoTime.zero; pm_candidateSet := false; pm_lastObservedAt := GoTime.zero |}
    (instantaneous th (ob_best o) (ob_allWaiting o)) (ob_best o) (ob_allWaiting o).

Lemma target_asks m o :
  target m (instantaneous (pm_thresholds m) (ob_best o) (ob_allWaiting o)) (ob_best o) (ob_allWaiting o) =
  asks (pm_thresholds m) (pm_current m) o.
Proof. done. Qed.

(** The observations [mid] have all asked for the candidate, the first of them
    at [candidateSince]. *)
Definition pending (th : Thresholds) (m : PoolMachine) (mid : list Observation) : Prop :=
  exists o rest, mid = o :: rest /\ ob_at o = pm_candidateSince m /\
    Forall (fun o => ob_available o = true /\ (asks th (pm_current m) o).1 = pm_candidate m) mid.

Definition ordered_times (obs : list Observation) : Prop :=
  forall i o o', obs !! i = Some o -> obs !! S i = Some o' -> ob_at o <= ob_at o'.

Record history (th : Thresholds) (obs : list Observation) (m : PoolMachine) : Prop := {
  h_thresholds : pm_thresholds m = th;
  h_last : pm_lastObservedAt m = from_option ob_at GoTime.zero (last obs);
  h_pending : pm_candidateSet m = true -> exists pre mid, obs = pre ++ mid /\ pending th m mid
}.

(** A single observation that is not out of order. *)
Inductive observed (th : Thresholds) (m : PoolMachine) (o : Observation) (m' : PoolMachine) : Prop :=
  | observed_down : ob_available o = false -> pm_current m' = PoolUnavailable ->
      pm_candidateSet m' = false -> observed th m o m'
  | observed_up : ob_available o = true -> pm_current m = PoolUnavailable ->
      pm_current m' = instantaneous th (ob_best o) (ob_allWaiting o) -> pm_candidateSet m' = false -> observed th m o m'
  | observed_stay : ob_available o = true -> pm_current m' = pm_current m -> pm_candidateSet m' = false ->
      observed th m o m'
  | observed_new : ob_available o = true -> pm_current m' = pm_current m -> pm_candidateSet m' = true ->
      pm_candidate m' = (asks th (pm_current m) o).1 -> pm_candidateSince m' = ob_at o -> observed th m o m'
  | observed_wait : ob_available o = true -> pm_candidateSet m = true -> pm_current m' = pm_current m ->
      pm_candidateSet m' = true -> pm_candidate m' = pm_candidate m -> pm_candidateSince m' = pm_candidateSince m ->
      pm_candidate m = (asks th (pm_current m) o).1 -> observed th m o m'
  | observed_change : ob_available o = true -> pm_candidateSet m = true -> pm_candidateSet m' = false ->
      pm_candidate m = (asks th (pm_current m) o).1 -> pm_current m' = (asks th (pm_current m) o).1 ->
      (asks th (pm_current m) o).1 <> pm_current m -> pm_current m <> PoolUnavailable ->
      (asks th (pm_current m) o).2 <= GoTime.Sub (ob_at o) (pm_candidateSince m) -> observed th m o m'.

Lemma observe_cases th m o :
  pm_thresholds m = th -> (pm_lastObservedAt m = 0 \/ pm_lastObservedAt m <= ob_at o) ->
  observed th m o (observe m o) /\ pm_thresholds (observe m o) = th /\ pm_lastObservedAt (observe m o) = ob_at o.
Proof.
  intros Hth Hlast. unfold observe, Observe.
  replace (negb _ && _) with false by (time_unfold; destruct (Z.eqb_spec (pm_lastObservedAt m) 0); cbn; lia).
  destruct (ob_available o) eqn:Hav; cbn [negb].
  2: { split; [|done]. by apply observed_down. }
  cbn [pm_thresholds pm_current]. case_bool_decide as Hun.
  { split; [|done]. apply observed_up; cbn; try done. by rewrite Hth. }
  change (target _ _ _ _) with (asks (pm_thresholds m) (pm_current m) o). rewrite Hth.
  destruct (asks th (pm_current m) o) as [tgt w] eqn:Ea.
  case_bool_decide as Hst.
  { split; [|done]. by apply observed_stay. }
  cbn [pm_candidateSet pm_candidate pm_candidateSince].
  destruct (negb (pm_candidateSet m) || _) eqn:Hc.
  { split; [|done]. apply observed_new; try done. by rewrite Ea. }
  apply orb_false_iff in Hc as [Hset%negb_false_iff Hcand%negb_false_iff]. b2p.
  destruct (w <=? _) eqn:Hw; b2p.
  - split; [|done]. apply observed_change; cbn; rewrite ?Ea; try done.
  - split; [|done]. apply observed_wait; rewrite ?Ea; try done.
Qed.

Lemma ordered_times_snoc obs o :
  ordered_times (obs ++ [o]) -> ordered_times obs /\ (forall p, last obs = Some p -> ob_at p <= ob_at o).
Proof.
  intros Hord. split.
  - intros i a b Ha Hb. apply (Hord i); rewrite lookup_app_l; try done; by eapply lookup_lt_Some.
  - intros p Hp. rewrite last_lookup in Hp. pose proof (lookup_lt_Some _ _ _ Hp).
    apply (Hord (pred (length obs)) p o); [by rewrite lookup_app_l|].
    replace (S (pred (length obs))) with (length obs) by lia. by rewrite list_lookup_middle.
Qed.

Lemma history_step th obs m o :
  history th obs m -> (forall p, last obs = Some p -> ob_at p <= ob_at o) ->
  observed th m o (observe m o) /\ history th (obs ++ [o]) (observe m o).
Proof.
  intros [Hth Hlast Hpend] Hord.
  destruct (observe_cases th m o Hth) as (Hcase & Hth' & Hlast').
  { rewrite Hlast. destruct (last obs) as [p|]; cbn; [right; by apply Hord|by left]. }
  split; [done|]. split; [done|by rewrite last_snoc|]. intros Hset.
  destruct Hcase as [| | |Hav Hcur _ Hcand Hsince|Hav Hs Hcur _ Hcand Hsince Hask|]; try congruence.
  - exists obs, [o]. split; [done|]. exists o, []. split_and!; try done.
    apply Forall_singleton. by rewrite Hcur, Hcand.
  - destruct (Hpend Hs) as (pre & mid & -> & o1 & rest & -> & Hat & Hall).
    exists pre, (o1 :: rest ++ [o]). split; [by rewrite <- app_assoc|]. exists o1, (rest ++ [o]).
    split_and!; [done|congruence|]. rewrite Hcur, Hcand.
    apply (Forall_app _ (o1 :: rest) [o]). split; [done|]. apply Forall_singleton. done.
Qed.

Lemma machine_history th obs : ordered_times obs -> history th obs (machine th obs).
Proof.
  induction obs as [|o obs IH] using rev_ind; intros Hord; [by split|].
  destruct (ordered_times_snoc obs o Hord) as [Ho Hl]. unfold machine. rewrite foldl_app. cbn [foldl].
  by apply history_step; [apply IH|].
Qed.

(** What a machine may be asked for: any worse state, or one step better. *)
Lemma asks_rank th s o :
  s <> PoolUnavailable -> (asks th s o).1 <> s ->
  (stateRank s < stateRank (asks th s o).1 /\ (asks th s o).2 = th_EnterWindow th) \/
  (stateRank (asks th s o).1 = stateRank s - 1 /\ (asks th s o).2 = th_RecoveryWindow th).
Proof.
  intros Hs Hne. unfold asks, target in *. cbn [pm_thresholds pm_current] in *.
  destruct (stateRank s <? _) eqn:E; b2p; cbn in *; [by left|].
  destruct s; try done; repeat case_match; cbn in *; try done; right; split; done || lia.
Qed.

(** ** Properties *)

(** No flapping.  For observations in time order, the machine moves between
    two load states only when the new state has been asked for, without
    interruption and with the pool available, by every observation over at
    least the enter window (to a worse state) or the recovery window (to a
    better one); and it recovers one level at a time. *)
Theorem pool_state_change_sustained th obs o s s' :
  ordered_times (obs ++ [o]) ->
  pm_current (machine th obs) = s -> pm_current (machine th (obs ++ [o])) = s' ->
  s <> s' -> s <> PoolUnavailable -> s' <> PoolUnavailable ->
  exists pre first rest, obs = pre ++ first :: rest /\
    Forall (fun x => ob_available x = true /\ (asks th s x).1 = s') (first :: rest ++ [o]) /\
    ((stateRank s < stateRank s' /\ th_EnterWindow th <= GoTime.Sub (ob_at o) (ob_at first)) \/
     (stateRank s' = stateRank s - 1 /\ th_RecoveryWindow th <= GoTime.Sub (ob_at o) (ob_at first))).
Proof.
  intros Hord Hs Hs' Hne Hu Hu'. destruct (ordered_times_snoc obs o Hord) as [Ho Hl].
  destruct (history_step th obs _ o (machine_history th obs Ho) Hl) as [Hcase _].
  destruct (machine_history th obs Ho) as [_ _ Hpend].
  unfold machine in Hs'. rewrite foldl_app in Hs'. cbn [foldl] in Hs'. fold (machine th obs) in Hs'.
  destruct Hcase as [| | | | |Hav Hset _ Hcand Hcur Hdiff _ Hwin]; try congruence.
  destruct (Hpend Hset) as (pre & mid & Hobs & first & rest & -> & Hat & Hall).
  rewrite Hs in *. rewrite Hcur in Hs'. exists pre, first, rest. split_and!; [done|..].
  - apply (Forall_app _ (first :: rest) [o]). split; [|apply Forall_singleton; done].
    eapply Forall_impl; [exact Hall|]. cbn. intros x [? ?]. split; [done|]. congruence.
  - rewrite Hat. destruct (asks_rank th s o Hu Hdiff) as [[Hr Hw]|[Hr Hw]]; rewrite Hs', Hw in *; auto.
Qed.

Definition demo_thresholds : Thresholds :=
  {| th_Busy := of_ratio 70 100; th_Saturated := fone; th_Emergency := of_ratio 140 100;
     th_BusyRecovery := of_ratio 55 100; th_SaturatedRecovery := of_ratio 85 100;
     th_EmergencyRecovery := of_ratio 120 100; th_EnterWindow := 3 * GoTime.Second;
     th_RecoveryWindow := 10 * GoTime.Second |}.

Definition demo_observation (t : Z) (best : float64) : Observation :=
  {| ob_at := t * GoTime.Second; ob_best := best; ob_allWaiting := false; ob_available := true |}.

Lemma pool_state_change_sustained_witness :
  let obs := [demo_observation 1 (of_ratio 80 100)] in
  let o := demo_observation 4 (of_ratio 80 100) in
  exists pre first rest, obs = pre ++ first :: rest /\
    Forall (fun x => ob_available x = true /\ (asks demo_thresholds PoolNormal x).1 = PoolBusy) (first :: rest ++ [o]) /\
    ((stateRank PoolNormal < stateRank PoolBusy /\
      th_EnterWindow demo_thresholds <= GoTime.Sub (ob_at o) (ob_at first)) \/
     (stateRank PoolBusy = stateRank PoolNormal - 1 /\
      th_RecoveryWindow demo_thresholds <= GoTime.Sub (ob_at o) (ob_at first))).
Proof.
  apply (pool_state_change_sustained demo_thresholds [demo_observation 1 (of_ratio 80 100)]); try done.
  intros [|[|i]] a b Ha Hb; cbn in Ha, Hb; simplify_eq. vm_compute. discriminate.
Defined.

(** The pressure is well defined: whatever the sample and the limits (NaN,
    infinite and zero included), [Calculate] is not NaN and not negative, and
    each of its three components lies between 0 and 2. *)
Lemma calculate_nonneg sample limits :
  IsNaN (Calculate sample limits) = false /\ flt (Calculate sample limits) fzero = false /\
  forall v, fle fzero (clamp v fzero ftwo) = true /\ fle (clamp v fzero ftwo) ftwo = true.
Proof.
  assert (Hn : nonneg (Calculate sample limits) = true).
  { unfold Calculate.
    repeat match goal with |- context [clamp ?v fzero ftwo] => destruct (clamp_range v) as (? & ? & _); set (clamp v fzero ftwo) in * end.
    repeat apply fadd_nonneg; apply fmul_nonneg; done. }
  split_and!; [by apply nonneg_not_nan|by apply nonneg_not_below|].
  intros v. destruct (clamp_range v) as (Hv & _ & Hle). split; [|done].
  rewrite fle_flt; [|done|by apply nonneg_not_nan]. by rewrite nonneg_not_below.
Qed.

(** The average is insensitive to late samples, and restarts cleanly: a
    sample that is not newer than the last leaves it unchanged, the first sample
    is taken as it is, and so is every sample of an average without a window. *)
Lemma ewma_samples exp at_ value e :
  (ew_initialized e = true -> at_ <= ew_lastAt e -> EWMA_Add exp at_ value e = (e, ew_value e)) /\
  (ew_initialized e = false \/ (ew_lastAt e < at_ /\ ew_window e <= 0) ->
   EWMA_Add exp at_ value e = ({| e with ew_initialized := true; ew_lastAt := at_; ew_value := value |}, value)).
Proof.
  unfold EWMA_Add. time_unfold. split.
  - intros -> Hle. cbn. by rewrite (proj2 (Z.ltb_ge _ _)).
  - intros [-> | [Hlt Hw]]; [done|]. destruct (ew_initialized e); [|done]. cbn.
    by rewrite (proj2 (Z.ltb_lt _ _)), (proj2 (Z.leb_le _ _)).
Qed.
