(* ===== verification/Routing.v ===== *)
(** Backend selection ([src/internal/routing/router.go]): least pressure within
    a tolerance, then fewest requests in flight, then a random choice; or the
    rendezvous-hash choice of a session while its backend is not overloaded.

    The random source is a parameter with Go's contract for [Intn]; the first
    eight bytes of SHA-256 are a parameter.  [None] is an index out of range. *)

From S2P Require Import Prelude Float64 Domain.

Record Candidate := {
  ca_backend : Backend;
  ca_pressure : float64;
  ca_inflight : Z;
  ca_eligible : bool
}.

Inductive RouteError := ErrNoBackend.

Record Router := {
  ro_epsilon : float64;
  ro_maxPressure : float64
}.

Definition NewWithSessionAffinity (epsilon maximumPressure : float64) : Router :=
  {| ro_epsilon := if flt epsilon fzero || IsNaN epsilon || IsInf epsilon then fzero else epsilon;
     ro_maxPressure :=
       if fle maximumPressure fzero || IsNaN maximumPressure || IsInf maximumPressure
       then fone else maximumPressure |}.

(** [func (s fixedSource) Intn]: Go's [%] truncates toward zero. *)
Definition fixedSource_Intn (s maximum : Z) : Z :=
  let value := Z.rem s maximum in
  if value <? 0 then value + maximum else value.

Definition eligible_candidate (exclude : gset Z) (c : Candidate) : bool :=
  negb (negb (ca_eligible c) || negb (be_Enabled (ca_backend c)) || be_Draining (ca_backend c) ||
        IsNaN (ca_pressure c) || IsInf (ca_pressure c)) &&
  negb (bool_decide (be_ID (ca_backend c) ∈ exclude)).

Definition eligibleCandidates (candidates : list Candidate) (exclude : gset Z) : list Candidate :=
  filter (fun c => eligible_candidate exclude c = true) candidates.

Definition minimum_pressure (l : list Candidate) : float64 :=
  fold_left (fun m c => if flt (ca_pressure c) m then ca_pressure c else m) l Inf1.

Definition MaxInt : Z := 2 ^ 63 - 1.

Definition minimum_inflight (l : list Candidate) : Z :=
  fold_left (fun m c => if ca_inflight c <? m then ca_inflight c else m) l MaxInt.

Definition pressure_ties (r : Router) (l : list Candidate) : list Candidate :=
  filter (fun c => fle (fsub (ca_pressure c) (minimum_pressure l)) (ro_epsilon r) = true) l.

Definition finalists (r : Router) (l : list Candidate) : list Candidate :=
  let ties := pressure_ties r l in
  filter (fun c => ca_inflight c = minimum_inflight ties) ties.

Section Select.
Context (Intn : Z -> Z) (sha256_prefix : list Z -> Z).

Definition selectEligible (r : Router) (eligible : list Candidate) : option (RouteError + Candidate) :=
  match eligible with
  | [] => Some (inl ErrNoBackend)
  | _ =>
    let fs := finalists r eligible in
    c ← fs !! Z.to_nat (Intn (Z.of_nat (length fs)));
    Some (inr c)
  end.

Definition Select (r : Router) (candidates : list Candidate) (exclude : gset Z)
    : option (RouteError + Candidate) :=
  selectEligible r (eligibleCandidates candidates exclude).

(** The bytes of a Go string, and of [binary.BigEndian.PutUint64]. *)
Definition string_bytes (s : string) : list Z :=
  map (fun a => Z.of_N (Ascii.N_of_ascii a)) (String.list_ascii_of_string s).

Definition big_endian_64 (n : Z) : list Z :=
  map (fun i => Z.land (Z.shiftr (n mod 2 ^ 64) (8 * i)) 255) [7; 6; 5; 4; 3; 2; 1; 0].

Definition rendezvousScore (affinityKey : string) (backendID : Z) : Z :=
  sha256_prefix (string_bytes affinityKey ++ big_endian_64 backendID).

(** The loop of [SelectWithSessionAffinity] over [eligible[1:]]. *)
Definition prefers (key : string) (preferred : Candidate) (c : Candidate) : Candidate :=
  let score := rendezvousScore key (be_ID (ca_backend c)) in
  let best := rendezvousScore key (be_ID (ca_backend preferred)) in
  if (best <? score) || ((score =? best) && (be_ID (ca_backend c) <? be_ID (ca_backend preferred)))
  then c else preferred.

Definition SelectWithSessionAffinity (r : Router) (candidates : list Candidate) (exclude : gset Z)
    (affinityKey : string) : option (RouteError + Candidate) :=
  match eligibleCandidates candidates exclude with
  | [] => Some (inl ErrNoBackend)
  | first :: rest =>
    if bool_decide (affinityKey = ""%string) then selectEligible r (first :: rest)
    else
      let preferred := fold_left (prefers affinityKey) rest first in
      if flt (ca_pressure preferred) (ro_maxPressure r) then Some (inr preferred)
      else selectEligible r (first :: rest)
  end.

(** ** Lemmas *)

(** The contract of [Intn]: a panic on [n <= 0], otherwise a value below [n]. *)
Hypothesis Intn_range : forall n, 0 < n -> 0 <= Intn n < n.

Definition routable (c : Candidate) : Prop := IsNaN (ca_pressure c) = false /\ IsInf (ca_pressure c) = false.

Lemma minimum_pressure_spec l :
  l <> [] -> Forall routable l ->
  exists c, c ∈ l /\ minimum_pressure l = ca_pressure c /\
    forall c', c' ∈ l -> flt (ca_pressure c') (minimum_pressure l) = false.
Proof.
  intros Hne Hall. unfold minimum_pressure.
  assert (Hgen : forall l m, Forall routable l -> IsNaN m = false ->
    let r := fold_left (fun m c => if flt (ca_pressure c) m then ca_pressure c else m) l m in
    IsNaN r = false /\ (r = m \/ exists c, c ∈ l /\ r = ca_pressure c) /\ flt m r = false /\
    forall c', c' ∈ l -> flt (ca_pressure c') r = false).
  { clear. induction l as [|c l IH]; intros m Hall Hm; cbn.
    - split_and!; auto using flt_irrefl. by intros c' ?%elem_of_nil.
    - apply Forall_cons in Hall as [[Hc _] Hall].
      set (m1 := if flt (ca_pressure c) m then ca_pressure c else m).
      assert (Hm1 : IsNaN m1 = false) by (unfold m1; by case_match).
      destruct (IH m1 Hall Hm1) as (Hr & Hor & Hle & Hmin). set (r := fold_left _ l m1) in *.
      assert (Hm1m : flt m m1 = false).
      { unfold m1. destruct (flt (ca_pressure c) m) eqn:E; [by apply flt_asym|apply flt_irrefl]. }
      assert (Hcm1 : flt (ca_pressure c) m1 = false).
      { unfold m1. destruct (flt (ca_pressure c) m) eqn:E; [apply flt_irrefl|done]. }
      split_and!; [done| | |].
      + destruct Hor as [Hr1|(c' & Hin & Hr1)].
        * unfold m1 in Hr1. destruct (flt (ca_pressure c) m); [|by left]. right. exists c. split; [left|done].
        * right. exists c'. split; [by right|done].
      + by apply (flt_weak m m1 r).
      + intros c' [->|Hin]%elem_of_cons; [|by apply Hmin]. by apply (flt_weak _ m1 r). }
  destruct (Hgen l Inf1 Hall eq_refl) as (Hr & [Hinf|(c & Hin & Hc)] & _ & Hmin).
  - destruct l as [|c l]; [done|]. exfalso. specialize (Hmin c ltac:(left)). rewrite Hinf in Hmin.
    apply Forall_cons in Hall as [[Hn Hi] _]. by destruct (ca_pressure c) as [|[]| |[]].
  - exists c. split_and!; done.
Qed.

Lemma minimum_inflight_spec l :
  l <> [] -> Forall (fun c => ca_inflight c <= MaxInt) l ->
  exists c, c ∈ l /\ minimum_inflight l = ca_inflight c /\ forall c', c' ∈ l -> minimum_inflight l <= ca_inflight c'.
Proof.
  intros Hne Hall. unfold minimum_inflight.
  assert (Hgen : forall l m,
    let r := fold_left (fun m c => if ca_inflight c <? m then ca_inflight c else m) l m in
    (r = m \/ exists c, c ∈ l /\ r = ca_inflight c) /\ r <= m /\ forall c', c' ∈ l -> r <= ca_inflight c').
  { clear. induction l as [|c l IH]; intros m; cbn; [split_and!; [auto|lia|by intros c' ?%elem_of_nil]|].
    destruct (IH (if ca_inflight c <? m then ca_inflight c else m)) as (Hor & Hle & Hmin). split_and!.
    - destruct Hor as [->|(c' & ? & ->)]; [case_match; [right; exists c; split; [left|done]|by left]|].
      right. exists c'. split; [by right|done].
    - case_match; b2p; lia.
    - intros c' [->|?]%elem_of_cons; [case_match; b2p; lia|by apply Hmin]. }
  destruct (Hgen l MaxInt) as ([Hm|(c & Hin & Hc)] & Hle & Hmin); [|by exists c].
  destruct l as [|c l]; [done|]. exists c. split; [left|]. split; [|done].
  apply Forall_cons in Hall as [Hc _]. specialize (Hmin c ltac:(left)). lia.
Qed.

Lemma eligible_routable cs ex : Forall routable (eligibleCandidates cs ex).
Proof.
  apply Forall_forall. intros c [Hc _]%list_elem_of_filter. unfold eligible_candidate in Hc. b2p.
  by split.
Qed.

Lemma elem_of_finalists r l c :
  c ∈ finalists r l <->
  c ∈ l /\ fle (fsub (ca_pressure c) (minimum_pressure l)) (ro_epsilon r) = true /\
  ca_inflight c = minimum_inflight (pressure_ties r l).
Proof. unfold finalists, pressure_ties. rewrite !list_elem_of_filter. tauto. Qed.

(** The least loaded candidate is within any nonnegative tolerance of itself. *)
Lemma pressure_ties_nonempty r l :
  l <> [] -> Forall routable l -> flt (ro_epsilon r) fzero = false -> IsNaN (ro_epsilon r) = false ->
  pressure_ties r l <> [].
Proof.
  intros Hne Hall He Hn Hnil. destruct (minimum_pressure_spec l Hne Hall) as (c & Hin & Hm & _).
  destruct (proj1 (Forall_forall _ _) Hall c Hin) as [Hnan Hinf].
  assert (Ht : c ∈ pressure_ties r l); [|by rewrite Hnil in Ht; apply elem_of_nil in Ht].
  apply list_elem_of_filter. split; [|done]. rewrite Hm.
  destruct (fsub_diag _ Hnan Hinf) as [s ->]. destruct (ro_epsilon r) as [| [] | | []]; by destruct s.
Qed.

Lemma finalists_nonempty r l :
  l <> [] -> Forall routable l -> Forall (fun c => ca_inflight c <= MaxInt) l ->
  flt (ro_epsilon r) fzero = false -> IsNaN (ro_epsilon r) = false ->
  finalists r l <> [].
Proof.
  intros Hne Hall Hmax He Hn Hnil.
  assert (Hsub : Forall (fun c => ca_inflight c <= MaxInt) (pressure_ties r l)).
  { apply Forall_forall. intros c [_ Hc]%list_elem_of_filter. by apply (proj1 (Forall_forall _ _) Hmax). }
  destruct (minimum_inflight_spec _ (pressure_ties_nonempty r l Hne Hall He Hn) Hsub) as (c & Hin & Hc & _).
  assert (Hf : c ∈ finalists r l); [|by rewrite Hnil in Hf; apply elem_of_nil in Hf].
  by apply list_elem_of_filter.
Qed.

Lemma selectEligible_finalist r l :
  l <> [] -> Forall routable l -> Forall (fun c => ca_inflight c <= MaxInt) l ->
  flt (ro_epsilon r) fzero = false -> IsNaN (ro_epsilon r) = false ->
  exists c, selectEligible r l = Some (inr c) /\ c ∈ finalists r l.
Proof.
  intros Hne Hall Hmax He Hn. pose proof (finalists_nonempty r l Hne Hall Hmax He Hn) as Hf.
  set (fs := finalists r l) in *.
  assert (Hlen : 0 < Z.of_nat (length fs)) by (destruct fs; [done|cbn; lia]).
  pose proof (Intn_range _ Hlen) as Hr.
  destruct (lookup_lt_is_Some_2 fs (Z.to_nat (Intn (Z.of_nat (length fs))))) as [c Hc]; [lia|].
  exists c. split; [|by eapply list_elem_of_lookup_2].
  unfold selectEligible. destruct l as [|c0 l']; [done|]. fold fs. cbn zeta. by rewrite Hc.
Qed.

Lemma router_epsilon e m :
  flt (ro_epsilon (NewWithSessionAffinity e m)) fzero = false /\
  IsNaN (ro_epsilon (NewWithSessionAffinity e m)) = false.
Proof. cbn. destruct e as [|[]| |[]]; done. Qed.

Lemma finalist_optimal r l c :
  Forall routable l -> Forall (fun c => ca_inflight c <= MaxInt) l -> c ∈ finalists r l ->
  exists best, best ∈ l /\ (forall c', c' ∈ l -> flt (ca_pressure c') (ca_pressure best) = false) /\
    fle (fsub (ca_pressure c) (ca_pressure best)) (ro_epsilon r) = true /\
    forall c', c' ∈ l -> fle (fsub (ca_pressure c') (ca_pressure best)) (ro_epsilon r) = true ->
      ca_inflight c <= ca_inflight c'.
Proof.
  intros Hall Hmax (Hin & Htie & Hfl)%elem_of_finalists.
  destruct (minimum_pressure_spec l) as (best & Hb & Hm & Hmin); [by intros ->; apply elem_of_nil in Hin|done|].
  exists best. rewrite <- Hm. split_and!; [done|done|done|].
  intros c' Hc' Ht'. rewrite Hfl.
  assert (Hin' : c' ∈ pressure_ties r l) by by apply list_elem_of_filter.
  destruct (minimum_inflight_spec (pressure_ties r l)) as (? & ? & ? & Hle).
  - intros Hnil. rewrite Hnil in Hin'. by apply elem_of_nil in Hin'.
  - apply Forall_forall. intros x [_ Hx]%list_elem_of_filter. by apply (proj1 (Forall_forall _ _) Hmax).
  - by apply Hle.
Qed.

(** ** Rendezvous preference *)

Abbreviation bid c := (be_ID (ca_backend c)) (only parsing).

(** [a] beats [b]: a higher score, or the same score and a lower identifier. *)
Definition beats (key : string) (a b : Candidate) : Prop :=
  rendezvousScore key (bid b) < rendezvousScore key (bid a) \/
  (rendezvousScore key (bid b) = rendezvousScore key (bid a) /\ bid a < bid b).

Lemma preferred_spec key rest first :
  let p := fold_left (prefers key) rest first in
  p ∈ first :: rest /\ forall c, c ∈ first :: rest -> bid c = bid p \/ beats key p c.
Proof.
  revert first. induction rest as [|c rest IH]; intros first; cbn zeta; cbn [fold_left].
  { split; [left|]. intros c [->|?%elem_of_nil]%elem_of_cons; [by left|done]. }
  destruct (IH (prefers key first c)) as [Hin Hbest]. set (p := fold_left _ rest _) in *.
  assert (Hstep : (prefers key first c = first /\ (bid c = bid first \/ beats key first c)) \/
                  (prefers key first c = c /\ beats key c first)).
  { unfold prefers, beats. cbn zeta.
    set (s1 := rendezvousScore key (bid c)). set (s2 := rendezvousScore key (bid first)).
    destruct ((s2 <? s1) || ((s1 =? s2) && (bid c <? bid first))) eqn:E.
    - right. split; [done|]. apply orb_true_iff in E as [E|E]; b2p; lia.
    - left. split; [done|]. b2p. apply andb_false_iff in H0 as [E|E]; b2p; lia. }
  assert (Htrans : forall x y, beats key y x -> bid y = bid p \/ beats key p y -> bid x = bid p \/ beats key p x).
  { unfold beats. intros x y Hyx [Hy|Hy]; [rewrite Hy in Hyx|]; lia. }
  assert (Hcong : forall x y, bid x = bid y -> bid y = bid p \/ beats key p y -> bid x = bid p \/ beats key p x).
  { unfold beats. intros x y Hxy. by rewrite Hxy. }
  split.
  - apply elem_of_cons in Hin as [Hp|Hin]; [|by do 2 right]. rewrite Hp.
    destruct Hstep as [[-> _]|[-> _]]; [left|right; left].
  - intros x [->|[->|Hx]%elem_of_cons]%elem_of_cons; [| |apply Hbest; by right].
    + destruct Hstep as [[E _]|[E Hb]]; [apply Hbest; rewrite E; left|].
      apply (Htrans _ c Hb), Hbest. rewrite E. left.
    + destruct Hstep as [[E [Hid|Hb]]|[E _]]; [apply (Hcong _ first Hid)|apply (Htrans _ first Hb)|];
        apply Hbest; rewrite E; left.
Qed.

(** C30. A router built by [NewWithSessionAffinity] answers every request: it fails
    with [ErrNoBackend] exactly when no candidate is routable (eligible, enabled,
    not draining, with a finite pressure, not excluded), never panics, and
    otherwise returns a routable candidate whose pressure is within the tolerance
    of the least one and whose load is the least among those within it. *)
Theorem select_least_loaded e m cs ex :
  Forall (fun c => ca_inflight c <= MaxInt) cs ->
  let r := NewWithSessionAffinity e m in
  let l := eligibleCandidates cs ex in
  (l = [] /\ Select r cs ex = Some (inl ErrNoBackend)) \/
  exists c best, Select r cs ex = Some (inr c) /\ c ∈ cs /\ eligible_candidate ex c = true /\
    best ∈ l /\ (forall c', c' ∈ l -> flt (ca_pressure c') (ca_pressure best) = false) /\
    fle (fsub (ca_pressure c) (ca_pressure best)) (ro_epsilon r) = true /\
    forall c', c' ∈ l -> fle (fsub (ca_pressure c') (ca_pressure best)) (ro_epsilon r) = true ->
      ca_inflight c <= ca_inflight c'.
Proof.
  intros Hmax r l. destruct (decide (l = [])) as [Hl|Hl].
  { left. split; [done|]. unfold Select. fold l. by rewrite Hl. }
  right. destruct (router_epsilon e m) as [He Hn]. pose proof (eligible_routable cs ex) as Hall.
  assert (Hmax' : Forall (fun c => ca_inflight c <= MaxInt) l).
  { apply Forall_forall. intros x [_ Hx]%list_elem_of_filter. by apply (proj1 (Forall_forall _ _) Hmax). }
  destruct (selectEligible_finalist r l Hl Hall Hmax' He Hn) as (c & Hsel & Hf).
  destruct (finalist_optimal r l c Hall Hmax' Hf) as (best & ? & ? & ? & ?).
  apply elem_of_finalists in Hf as ([Hel Hin]%list_elem_of_filter & _).
  exists c, best. by split_and!.
Qed.

(** Whatever is selected is one of the eligible candidates. *)
Lemma affinity_eligible r cs ex key c :
  SelectWithSessionAffinity r cs ex key = Some (inr c) -> c ∈ cs /\ eligible_candidate ex c = true.
Proof.
  intros H. assert (Hin : c ∈ eligibleCandidates cs ex); [|by apply list_elem_of_filter in Hin as [? ?]].
  unfold SelectWithSessionAffinity in H. destruct (eligibleCandidates cs ex) as [|first rest]; [done|].
  assert (Hsel : selectEligible r (first :: rest) = Some (inr c) -> c ∈ first :: rest).
  { unfold selectEligible. destruct (_ !! _) as [c'|] eqn:E; [|done]. intros [= <-].
    apply list_elem_of_lookup_2, elem_of_finalists in E. tauto. }
  destruct (bool_decide _); [auto|]. destruct (flt _ _); [|auto]. injection H as <-. apply preferred_spec.
Qed.

(** C31. Session affinity is consistent.  Each session key and each set of routable
    backends determine one backend such that under any other router, candidate
    list and exclusion set (backends reordered, gone, or under another pressure)
    whose routable backends are among the old ones and contain that backend below
    the pressure limit, the session is routed to it. *)
Theorem affinity_consistent cs ex key :
  key <> ""%string -> eligibleCandidates cs ex <> [] ->
  exists p, p ∈ eligibleCandidates cs ex /\
    forall r' cs' ex',
      (forall c, c ∈ eligibleCandidates cs' ex' -> exists o : Candidate, o ∈ eligibleCandidates cs ex /\ bid o = bid c) ->
      (exists c : Candidate, c ∈ eligibleCandidates cs' ex' /\ bid c = bid p) ->
      (forall c, c ∈ eligibleCandidates cs' ex' -> bid c = bid p -> flt (ca_pressure c) (ro_maxPressure r') = true) ->
      exists c, SelectWithSessionAffinity r' cs' ex' key = Some (inr c) /\
        c ∈ eligibleCandidates cs' ex' /\ bid c = bid p.
Proof.
  intros Hkey Hne. destruct (eligibleCandidates cs ex) as [|first rest]; [done|].
  destruct (preferred_spec key rest first) as [Hp Hbest]. set (p := fold_left _ rest first) in *.
  exists p. split; [done|]. intros r' cs' ex' Hsub (c0 & Hin0 & Hid0) Hlim.
  unfold SelectWithSessionAffinity.
  destruct (eligibleCandidates cs' ex') as [|f' rest']; [by apply elem_of_nil in Hin0|].
  destruct (preferred_spec key rest' f') as [Hq Hbq]. set (q := fold_left _ rest' f') in *.
  assert (Hid : bid q = bid p).
  { destruct (Hsub q Hq) as (o & Ho & Hoq). destruct (Hbq c0 Hin0) as [H|Hb']; [congruence|].
    destruct (Hbest o Ho) as [H|Hb]; [congruence|]. unfold beats in *. rewrite Hoq in Hb. rewrite Hid0 in Hb'. lia. }
  rewrite (bool_decide_eq_false_2 _ Hkey), (Hlim q Hq Hid). by exists q.
Qed.
End Select.

(** ** Witnesses *)

Definition sample_backend (id : Z) (draining : bool) : Backend :=
  {| be_ID := id; be_Revision := 1; be_ModelPoolID := 1; be_Name := "b"; be_BaseURL := "http://b";
     be_Enabled := true; be_Draining := draining; be_CapacityHint := fone; be_RunningSoftLimit := fone;
     be_UpstreamAPIKeyEnv := ""; be_CreatedAt := 0; be_UpdatedAt := 0 |}.

Definition sample_candidate (id : Z) (pressure : float64) (inflight : Z) : Candidate :=
  {| ca_backend := sample_backend id false; ca_pressure := pressure; ca_inflight := inflight; ca_eligible := true |}.

Definition sample_candidates : list Candidate :=
  [sample_candidate 1 fone 4; sample_candidate 2 fhalf 7; sample_candidate 3 fhalf 2].

Lemma fixedSource_range s n : 0 < n -> 0 <= fixedSource_Intn s n < n.
Proof.
  intros Hn. unfold fixedSource_Intn. pose proof (Z.rem_bound_abs s n ltac:(lia)).
  destruct (Z.ltb_spec (Z.rem s n) 0); lia.
Qed.

(** Backend 3 is chosen: the least pressure, and fewer requests than backend 2. *)
Lemma select_least_loaded_witness :
  Select (fixedSource_Intn 0) (NewWithSessionAffinity fzero fone) sample_candidates ∅ =
    Some (inr (sample_candidate 3 fhalf 2)) /\
  exists c best, Select (fixedSource_Intn 0) (NewWithSessionAffinity fzero fone) sample_candidates ∅ = Some (inr c) /\
    best ∈ eligibleCandidates sample_candidates ∅ /\
    fle (fsub (ca_pressure c) (ca_pressure best)) fzero = true.
Proof.
  split; [vm_compute; reflexivity|].
  assert (Hmax : Forall (fun c => ca_inflight c <= MaxInt) sample_candidates).
  { unfold sample_candidates. rewrite !Forall_cons.
    split_and!; [vm_compute; discriminate..|apply Forall_nil_2]. }
  destruct (select_least_loaded (fixedSource_Intn 0) (fixedSource_range 0) fzero fone sample_candidates ∅ Hmax)
    as [[Hnil _]|(c & best & Hsel & _ & _ & Hb & _ & Hle & _)].
  - vm_compute in Hnil. discriminate.
  - exists c, best. split_and!; [exact Hsel|exact Hb|exact Hle].
Defined.

Lemma affinity_consistent_witness :
  exists p, p ∈ eligibleCandidates sample_candidates ∅ /\
    exists c, SelectWithSessionAffinity (fixedSource_Intn 0) (fun l => fold_left Z.add l 0)
        (NewWithSessionAffinity fzero (of_int 2)) (rev sample_candidates) ∅ "session" = Some (inr c) /\
    be_ID (ca_backend c) = be_ID (ca_backend p).
Proof.
  destruct (affinity_consistent (fixedSource_Intn 0) (fun l => fold_left Z.add l 0) sample_candidates ∅ "session")
    as (p & Hp & Hall); [discriminate|vm_compute; discriminate|].
  exists p. split; [exact Hp|].
  destruct (Hall (NewWithSessionAffinity fzero (of_int 2)) (rev sample_candidates) ∅) as (c & Hsel & _ & Hid).
  - intros c Hc. exists c. split; [|reflexivity].
    apply list_elem_of_filter in Hc as [He Hc]. apply list_elem_of_filter. split; [exact He|].
    by rewrite list_elem_of_In, <- in_rev, <- list_elem_of_In in Hc.
  - exists p. split; [|reflexivity]. apply list_elem_of_filter in Hp as [He Hp]. apply list_elem_of_filter.
    split; [exact He|]. by rewrite list_elem_of_In, <- in_rev, <- list_elem_of_In.
  - intros c [_ Hc]%list_elem_of_filter _. cbn in Hc. rewrite !elem_of_cons in Hc.
    destruct Hc as [->|[->|[->|Hc%elem_of_nil]]]; [vm_compute; reflexivity..|done].
  - exists c. split; [exact Hsel|exact Hid].
Defined.
