(* ===== verification/JsonValidator.v ===== *)
(** The incremental JSON validator of the response inspector
    ([src/internal/proxy/json_validator.go], with [isJSONWhitespace] and the
    nesting bound of [usage.go]).

    Bytes are [ascii]; the fixed array [stack] is a list of
    [maxJSONNestingDepth] elements.  [None] is an index out of range.  The
    theorems relate the byte-at-a-time machine to the grammar of RFC 8259. *)

From S2P Require Import Prelude.
From Stdlib Require Import Ascii.

(** ** Bytes *)

Definition byte_leb (a b : ascii) : bool := (N_of_ascii a <=? N_of_ascii b)%N.

(** [c] is the byte [b]. *)
Definition isb (b c : ascii) : bool := bool_decide (c = b).

(** [lo <= c && c <= hi] *)
Definition in_range (lo hi c : ascii) : bool := byte_leb lo c && byte_leb c hi.

Definition LF : ascii := "010".
Definition CR : ascii := "013".
Definition TAB : ascii := "009".
Definition QUOTE : ascii := "034".

Definition isJSONWhitespace (value : ascii) : bool :=
  isb " " value || isb TAB value || isb CR value || isb LF value.

Definition is_digit (c : ascii) : bool := in_range "0" "9" c.
Definition is_digit19 (c : ascii) : bool := in_range "1" "9" c.
Definition is_exp (c : ascii) : bool := isb "e" c || isb "E" c.

(** ** The machine *)

Inductive jsonScanOp := jsonScanContinue | jsonScanEndObject | jsonScanError.

Inductive jsonScanState :=
| jsonStateBeginValue
| jsonStateBeginValueOrEmpty
| jsonStateBeginStringOrEmpty
| jsonStateBeginString
| jsonStateEndValue
| jsonStateEndTop
| jsonStateInString
| jsonStateInStringEscape
| jsonStateInStringUnicode1
| jsonStateInStringUnicode2
| jsonStateInStringUnicode3
| jsonStateInStringUnicode4
| jsonStateNegative
| jsonStateZero
| jsonStateInteger
| jsonStateDecimalPoint
| jsonStateDecimal
| jsonStateExponent
| jsonStateExponentSign
| jsonStateExponentDigits
| jsonStateTrueR
| jsonStateTrueU
| jsonStateTrueE
| jsonStateFalseA
| jsonStateFalseL
| jsonStateFalseS
| jsonStateFalseE
| jsonStateNullU
| jsonStateNullL1
| jsonStateNullL2
| jsonStateError.

Inductive jsonParseState := jsonParseObjectKey | jsonParseObjectValue | jsonParseArrayValue.

#[global] Instance jsonScanOp_eq_dec : EqDecision jsonScanOp.
Proof. solve_decision. Defined.
#[global] Instance jsonScanState_eq_dec : EqDecision jsonScanState.
Proof. solve_decision. Defined.
#[global] Instance jsonParseState_eq_dec : EqDecision jsonParseState.
Proof. solve_decision. Defined.

Definition maxJSONNestingDepth : nat := 256.

Record incrementalJSONValidator := {
  jv_state : jsonScanState;
  jv_stack : list jsonParseState;
  jv_depth : nat;
  jv_endTop : bool;
  jv_failed : bool
}.

(** The zero value of the struct. *)
Definition zeroValidator : incrementalJSONValidator :=
  {| jv_state := jsonStateBeginValue; jv_stack := replicate maxJSONNestingDepth jsonParseObjectKey;
     jv_depth := 0; jv_endTop := false; jv_failed := false |}.

(** [reset] leaves the array as it is. *)
Definition reset (v : incrementalJSONValidator) : incrementalJSONValidator :=
  {| jv_state := jsonStateBeginValue; jv_stack := jv_stack v; jv_depth := 0; jv_endTop := false;
     jv_failed := false |}.

Definition expectsTopLevelObjectKey (v : incrementalJSONValidator) : bool :=
  if negb (bool_decide (jv_depth v = 1%nat)) ||
     negb (bool_decide (jv_stack v !! 0%nat = Some jsonParseObjectKey)) then false
  else bool_decide (jv_state v = jsonStateBeginStringOrEmpty) ||
       bool_decide (jv_state v = jsonStateBeginString).

(** The result of a method of the validator: the new state and the operation. *)
Definition step_result : Type := option (incrementalJSONValidator * jsonScanOp).

Definition to_state (v : incrementalJSONValidator) (s : jsonScanState) : incrementalJSONValidator :=
  {| v with jv_state := s |}.

Definition continue (v : incrementalJSONValidator) : step_result := Some (v, jsonScanContinue).

Definition fail (v : incrementalJSONValidator) : step_result :=
  Some ({| v with jv_failed := true; jv_state := jsonStateError |}, jsonScanError).

(** The element [v.stack[v.depth-1]], and the assignment to it. *)
Definition top (v : incrementalJSONValidator) : option jsonParseState :=
  match jv_depth v with O => None | S d => jv_stack v !! d end.

Definition set_top (v : incrementalJSONValidator) (p : jsonParseState) : option incrementalJSONValidator :=
  match jv_depth v with
  | O => None
  | S d => if (d <? length (jv_stack v))%nat
           then Some {| v with jv_stack := <[d := p]> (jv_stack v) |} else None
  end.

(** [push]: the new state and whether there was room; without room it fails. *)
Definition push (v : incrementalJSONValidator) (p : jsonParseState) : option (incrementalJSONValidator * bool) :=
  if bool_decide (jv_depth v = length (jv_stack v)) then
    '(v', _) ← fail v; Some (v', false)
  else if (jv_depth v <? length (jv_stack v))%nat then
    Some ({| v with jv_stack := <[jv_depth v := p]> (jv_stack v); jv_depth := S (jv_depth v) |}, true)
  else None.

Definition pop (v : incrementalJSONValidator) : incrementalJSONValidator :=
  let d := Nat.pred (jv_depth v) in
  if bool_decide (d = 0%nat)
  then {| v with jv_depth := d; jv_state := jsonStateEndTop; jv_endTop := true |}
  else {| v with jv_depth := d; jv_state := jsonStateEndValue |}.

Definition literal (v : incrementalJSONValidator) (current expected : ascii) (next : jsonScanState) : step_result :=
  if negb (isb expected current) then fail v else continue (to_state v next).

Definition unicode (v : incrementalJSONValidator) (current : ascii) (next : jsonScanState) : step_result :=
  if negb (in_range "0" "9" current || in_range "a" "f" current || in_range "A" "F" current)
  then fail v else continue (to_state v next).

Definition exponentDigit (v : incrementalJSONValidator) (current : ascii) : step_result :=
  if negb (is_digit current) then fail v else continue (to_state v jsonStateExponentDigits).

Definition endValue (v : incrementalJSONValidator) (current : ascii) : step_result :=
  if bool_decide (jv_depth v = 0%nat) then
    let v' := {| v with jv_state := jsonStateEndTop; jv_endTop := true |} in
    if negb (isJSONWhitespace current) then fail v' else continue v'
  else if isJSONWhitespace current then continue (to_state v jsonStateEndValue)
  else
    t ← top v;
    match t with
    | jsonParseObjectKey =>
      if negb (isb ":" current) then fail v
      else v' ← set_top v jsonParseObjectValue; continue (to_state v' jsonStateBeginValue)
    | jsonParseObjectValue =>
      if isb "," current then
        v' ← set_top v jsonParseObjectKey; continue (to_state v' jsonStateBeginString)
      else if negb (isb "}" current) then fail v
      else Some (pop v, jsonScanEndObject)
    | jsonParseArrayValue =>
      if isb "," current then continue (to_state v jsonStateBeginValue)
      else if negb (isb "]" current) then fail v
      else continue (pop v)
    end.

Definition afterInteger (v : incrementalJSONValidator) (current : ascii) : step_result :=
  if isb "." current then continue (to_state v jsonStateDecimalPoint)
  else if is_exp current then continue (to_state v jsonStateExponent)
  else endValue v current.

Definition beginString (v : incrementalJSONValidator) (current : ascii) : step_result :=
  if isJSONWhitespace current then continue v
  else if negb (isb QUOTE current) then fail v
  else continue (to_state v jsonStateInString).

(** [push] and the state that follows it. *)
Definition open_container (v : incrementalJSONValidator) (p : jsonParseState) (next : jsonScanState) : step_result :=
  '(v', room) ← push v p;
  if negb room then Some (v', jsonScanError) else continue (to_state v' next).

Definition beginValue (v : incrementalJSONValidator) (current : ascii) : step_result :=
  if isJSONWhitespace current then continue v
  else if isb "{" current then open_container v jsonParseObjectKey jsonStateBeginStringOrEmpty
  else if isb "[" current then open_container v jsonParseArrayValue jsonStateBeginValueOrEmpty
  else if isb QUOTE current then continue (to_state v jsonStateInString)
  else if isb "-" current then continue (to_state v jsonStateNegative)
  else if isb "0" current then continue (to_state v jsonStateZero)
  else if isb "t" current then continue (to_state v jsonStateTrueR)
  else if isb "f" current then continue (to_state v jsonStateFalseA)
  else if isb "n" current then continue (to_state v jsonStateNullU)
  else if is_digit19 current then continue (to_state v jsonStateInteger)
  else fail v.

(** [None]: the state is not one of the group, [handled] is false. *)
Definition stepString (v : incrementalJSONValidator) (current : ascii) : option step_result :=
  match jv_state v with
  | jsonStateInString => Some (
    if isb QUOTE current then continue (to_state v jsonStateEndValue)
    else if isb "\" current then continue (to_state v jsonStateInStringEscape)
    else if negb (byte_leb "032" current) then fail v
    else continue v)
  | jsonStateInStringEscape => Some (
    if isb "b" current || isb "f" current || isb "n" current || isb "r" current || isb "t" current ||
       isb "\" current || isb "/" current || isb QUOTE current
    then continue (to_state v jsonStateInString)
    else if isb "u" current then continue (to_state v jsonStateInStringUnicode1)
    else fail v)
  | jsonStateInStringUnicode1 => Some (unicode v current jsonStateInStringUnicode2)
  | jsonStateInStringUnicode2 => Some (unicode v current jsonStateInStringUnicode3)
  | jsonStateInStringUnicode3 => Some (unicode v current jsonStateInStringUnicode4)
  | jsonStateInStringUnicode4 => Some (unicode v current jsonStateInString)
  | _ => None
  end.

Definition stepNumber (v : incrementalJSONValidator) (current : ascii) : option step_result :=
  match jv_state v with
  | jsonStateNegative => Some (
    if isb "0" current then continue (to_state v jsonStateZero)
    else if is_digit19 current then continue (to_state v jsonStateInteger)
    else fail v)
  | jsonStateInteger => Some (if is_digit current then continue v else afterInteger v current)
  | jsonStateZero => Some (afterInteger v current)
  | jsonStateDecimalPoint => Some (
    if negb (is_digit current) then fail v else continue (to_state v jsonStateDecimal))
  | jsonStateDecimal => Some (
    if is_digit current then continue v
    else if is_exp current then continue (to_state v jsonStateExponent)
    else endValue v current)
  | jsonStateExponent => Some (
    if isb "+" current || isb "-" current then continue (to_state v jsonStateExponentSign)
    else exponentDigit v current)
  | jsonStateExponentSign => Some (exponentDigit v current)
  | jsonStateExponentDigits => Some (if is_digit current then continue v else endValue v current)
  | _ => None
  end.

Definition stepLiteral (v : incrementalJSONValidator) (current : ascii) : option step_result :=
  match jv_state v with
  | jsonStateTrueR => Some (literal v current "r" jsonStateTrueU)
  | jsonStateTrueU => Some (literal v current "u" jsonStateTrueE)
  | jsonStateTrueE => Some (literal v current "e" jsonStateEndValue)
  | jsonStateFalseA => Some (literal v current "a" jsonStateFalseL)
  | jsonStateFalseL => Some (literal v current "l" jsonStateFalseS)
  | jsonStateFalseS => Some (literal v current "s" jsonStateFalseE)
  | jsonStateFalseE => Some (literal v current "e" jsonStateEndValue)
  | jsonStateNullU => Some (literal v current "u" jsonStateNullL1)
  | jsonStateNullL1 => Some (literal v current "l" jsonStateNullL2)
  | jsonStateNullL2 => Some (literal v current "l" jsonStateEndValue)
  | _ => None
  end.

(** The [switch] of [stepByte] on the remaining states. *)
Definition stepStructure (v : incrementalJSONValidator) (current : ascii) : step_result :=
  match jv_state v with
  | jsonStateBeginValue => beginValue v current
  | jsonStateBeginValueOrEmpty =>
    if isJSONWhitespace current then continue v
    else if isb "]" current then endValue v current
    else beginValue v current
  | jsonStateBeginStringOrEmpty =>
    if isJSONWhitespace current then continue v
    else if isb "}" current then v' ← set_top v jsonParseObjectValue; endValue v' current
    else beginString v current
  | jsonStateBeginString => beginString v current
  | jsonStateEndValue => endValue v current
  | jsonStateEndTop => if negb (isJSONWhitespace current) then fail v else continue v
  | _ => fail v
  end.

Definition stepByte (v : incrementalJSONValidator) (current : ascii) : step_result :=
  if jv_failed v then Some (v, jsonScanError)
  else match stepString v current with
       | Some r => r
       | None =>
         match stepNumber v current with
         | Some r => r
         | None =>
           match stepLiteral v current with
           | Some r => r
           | None => stepStructure v current
           end
         end
       end.

(** [eof]: it may step the machine by a space. *)
Definition eof (v : incrementalJSONValidator) : option (incrementalJSONValidator * bool) :=
  if jv_failed v then Some (v, false)
  else if jv_endTop v then Some (v, true)
  else
    '(v', op) ← stepByte v " ";
    Some (v', negb (bool_decide (op = jsonScanError)) && jv_endTop v').

(** The machine on a whole input, one byte at a time, then [eof]. *)
Fixpoint steps (v : incrementalJSONValidator) (input : list ascii) : option incrementalJSONValidator :=
  match input with
  | [] => Some v
  | c :: input' => '(v', _) ← stepByte v c; steps v' input'
  end.

Definition validate (input : list ascii) : option bool :=
  v ← steps (reset zeroValidator) input;
  '(_, ok) ← eof v;
  Some ok.

(** ** The grammar of JSON (RFC 8259)

    The index of [jvalue], [jelements] and [jmembers] bounds the nesting of
    arrays and objects. *)

Definition ws (w : list ascii) : Prop := Forall (fun c => isJSONWhitespace c = true) w.
Definition digits (w : list ascii) : Prop := Forall (fun c => is_digit c = true) w.
Definition is_hex (c : ascii) : bool := in_range "0" "9" c || in_range "a" "f" c || in_range "A" "F" c.

Definition is_simple_escape (c : ascii) : bool :=
  isb "b" c || isb "f" c || isb "n" c || isb "r" c || isb "t" c || isb "\" c || isb "/" c || isb QUOTE c.

Inductive jchars : list ascii -> Prop :=
| jchars_nil : jchars []
| jchars_plain c u : isb QUOTE c = false -> isb "\" c = false -> byte_leb "032" c = true ->
    jchars u -> jchars (c :: u)
| jchars_escape c u : is_simple_escape c = true -> jchars u -> jchars ("\"%char :: c :: u)
| jchars_unicode a b c d u : is_hex a = true -> is_hex b = true -> is_hex c = true -> is_hex d = true ->
    jchars u -> jchars ("\"%char :: "u"%char :: a :: b :: c :: d :: u).

Definition jstring (w : list ascii) : Prop := exists u, jchars u /\ w = QUOTE :: u ++ [QUOTE].

Definition jint (w : list ascii) : Prop :=
  w = ["0"%char] \/ exists c d, w = c :: d /\ is_digit19 c = true /\ digits d.

Definition jfrac (w : list ascii) : Prop :=
  w = [] \/ exists c d, w = "."%char :: c :: d /\ digits (c :: d).

Definition jexp_tail (w : list ascii) : Prop :=
  (exists c d, w = c :: d /\ digits (c :: d)) \/
  exists sg c d, w = sg :: c :: d /\ (isb "+" sg || isb "-" sg = true) /\ digits (c :: d).

Definition jexp (w : list ascii) : Prop := w = [] \/ exists x t, w = x :: t /\ is_exp x = true /\ jexp_tail t.

Definition junsigned (w : list ascii) : Prop := exists i f e, w = i ++ f ++ e /\ jint i /\ jfrac f /\ jexp e.

Definition jnumber (w : list ascii) : Prop := junsigned w \/ exists u, w = "-"%char :: u /\ junsigned u.

Inductive jvalue : nat -> list ascii -> Prop :=
| jvalue_string d w : jstring w -> jvalue d w
| jvalue_number d w : jnumber w -> jvalue d w
| jvalue_true d : jvalue d ["t"; "r"; "u"; "e"]%char
| jvalue_false d : jvalue d ["f"; "a"; "l"; "s"; "e"]%char
| jvalue_null d : jvalue d ["n"; "u"; "l"; "l"]%char
| jvalue_array_empty d w : ws w -> jvalue (S d) ("["%char :: w ++ ["]"%char])
| jvalue_array d e : jelements d e -> jvalue (S d) ("["%char :: e ++ ["]"%char])
| jvalue_object_empty d w : ws w -> jvalue (S d) ("{"%char :: w ++ ["}"%char])
| jvalue_object d m : jmembers d m -> jvalue (S d) ("{"%char :: m ++ ["}"%char])
with jelements : nat -> list ascii -> Prop :=
| jelements_one d w v w' : ws w -> jvalue d v -> ws w' -> jelements d (w ++ v ++ w')
| jelements_more d w v w' e : ws w -> jvalue d v -> ws w' -> jelements d e ->
    jelements d (w ++ v ++ w' ++ ","%char :: e)
with jmembers : nat -> list ascii -> Prop :=
| jmembers_one d w k w1 w2 v w' : ws w -> jstring k -> ws w1 -> ws w2 -> jvalue d v -> ws w' ->
    jmembers d (w ++ k ++ w1 ++ ":"%char :: w2 ++ v ++ w')
| jmembers_more d w k w1 w2 v w' m : ws w -> jstring k -> ws w1 -> ws w2 -> jvalue d v -> ws w' ->
    jmembers d m -> jmembers d (w ++ k ++ w1 ++ ":"%char :: w2 ++ v ++ w' ++ ","%char :: m).

(** A JSON text: a value between white space, nested at most [d] deep. *)
Definition json_text (d : nat) (s : list ascii) : Prop :=
  exists w v w', s = w ++ v ++ w' /\ ws w /\ jvalue d v /\ ws w'.

(** ** Tokens

    [tok st u]: the bytes [u] complete the string, number or literal the machine
    is inside when its state is [st]. *)

Definition tok_string (u : list ascii) : Prop := exists cs, jchars cs /\ u = cs ++ [QUOTE].

Fixpoint tok_unicode (n : nat) (u : list ascii) : Prop :=
  match n with
  | O => tok_string u
  | S n => exists h t, u = h :: t /\ is_hex h = true /\ tok_unicode n t
  end.

Definition tok (st : jsonScanState) (u : list ascii) : Prop :=
  match st with
  | jsonStateEndValue => u = []
  | jsonStateInString => tok_string u
  | jsonStateInStringEscape =>
    exists c t, u = c :: t /\ ((is_simple_escape c = true /\ tok_string t) \/ (c = "u"%char /\ tok_unicode 4 t))
  | jsonStateInStringUnicode1 => tok_unicode 4 u
  | jsonStateInStringUnicode2 => tok_unicode 3 u
  | jsonStateInStringUnicode3 => tok_unicode 2 u
  | jsonStateInStringUnicode4 => tok_unicode 1 u
  | jsonStateNegative => junsigned u
  | jsonStateZero => exists f e, u = f ++ e /\ jfrac f /\ jexp e
  | jsonStateInteger => exists d f e, u = d ++ f ++ e /\ digits d /\ jfrac f /\ jexp e
  | jsonStateDecimalPoint => exists c d e, u = c :: d ++ e /\ is_digit c = true /\ digits d /\ jexp e
  | jsonStateDecimal => exists d e, u = d ++ e /\ digits d /\ jexp e
  | jsonStateExponent => jexp_tail u
  | jsonStateExponentSign => exists c d, u = c :: d /\ is_digit c = true /\ digits d
  | jsonStateExponentDigits => digits u
  | jsonStateTrueR => u = ["r"; "u"; "e"]%char
  | jsonStateTrueU => u = ["u"; "e"]%char
  | jsonStateTrueE => u = ["e"]%char
  | jsonStateFalseA => u = ["a"; "l"; "s"; "e"]%char
  | jsonStateFalseL => u = ["l"; "s"; "e"]%char
  | jsonStateFalseS => u = ["s"; "e"]%char
  | jsonStateFalseE => u = ["e"]%char
  | jsonStateNullU => u = ["u"; "l"; "l"]%char
  | jsonStateNullL1 => u = ["l"; "l"]%char
  | jsonStateNullL2 => u = ["l"]%char
  | _ => False
  end.

(** The states inside or right after a token. *)
Definition token_state (st : jsonScanState) : bool :=
  match st with
  | jsonStateBeginValue | jsonStateBeginValueOrEmpty | jsonStateBeginStringOrEmpty
  | jsonStateBeginString | jsonStateEndTop | jsonStateError => false
  | _ => true
  end.

(** The tokens that may end at any byte. *)
Definition final (st : jsonScanState) : bool :=
  match st with
  | jsonStateEndValue | jsonStateZero | jsonStateInteger | jsonStateDecimal | jsonStateExponentDigits => true
  | _ => false
  end.

Definition when (b : bool) (st : jsonScanState) : option jsonScanState := if b then Some st else None.

Definition after_int_next (c : ascii) : option jsonScanState :=
  if isb "." c then Some jsonStateDecimalPoint else when (is_exp c) jsonStateExponent.

(** The state inside the same token after the byte [c], if [c] continues it. *)
Definition tok_next (st : jsonScanState) (c : ascii) : option jsonScanState :=
  match st with
  | jsonStateInString =>
    if isb QUOTE c then Some jsonStateEndValue
    else if isb "\" c then Some jsonStateInStringEscape
    else when (byte_leb "032" c) jsonStateInString
  | jsonStateInStringEscape =>
    if is_simple_escape c then Some jsonStateInString else when (isb "u" c) jsonStateInStringUnicode1
  | jsonStateInStringUnicode1 => when (is_hex c) jsonStateInStringUnicode2
  | jsonStateInStringUnicode2 => when (is_hex c) jsonStateInStringUnicode3
  | jsonStateInStringUnicode3 => when (is_hex c) jsonStateInStringUnicode4
  | jsonStateInStringUnicode4 => when (is_hex c) jsonStateInString
  | jsonStateNegative =>
    if isb "0" c then Some jsonStateZero else when (is_digit19 c) jsonStateInteger
  | jsonStateInteger => if is_digit c then Some jsonStateInteger else after_int_next c
  | jsonStateZero => after_int_next c
  | jsonStateDecimalPoint => when (is_digit c) jsonStateDecimal
  | jsonStateDecimal => if is_digit c then Some jsonStateDecimal else when (is_exp c) jsonStateExponent
  | jsonStateExponent =>
    if isb "+" c || isb "-" c then Some jsonStateExponentSign else when (is_digit c) jsonStateExponentDigits
  | jsonStateExponentSign => when (is_digit c) jsonStateExponentDigits
  | jsonStateExponentDigits => when (is_digit c) jsonStateExponentDigits
  | jsonStateTrueR => when (isb "r" c) jsonStateTrueU
  | jsonStateTrueU => when (isb "u" c) jsonStateTrueE
  | jsonStateTrueE => when (isb "e" c) jsonStateEndValue
  | jsonStateFalseA => when (isb "a" c) jsonStateFalseL
  | jsonStateFalseL => when (isb "l" c) jsonStateFalseS
  | jsonStateFalseS => when (isb "s" c) jsonStateFalseE
  | jsonStateFalseE => when (isb "e" c) jsonStateEndValue
  | jsonStateNullU => when (isb "u" c) jsonStateNullL1
  | jsonStateNullL1 => when (isb "l" c) jsonStateNullL2
  | jsonStateNullL2 => when (isb "l" c) jsonStateEndValue
  | _ => None
  end.

(** ** Lemmas on bytes *)

Lemma isb_true b c : isb b c = true <-> c = b.
Proof. unfold isb. apply bool_decide_eq_true. Qed.

Lemma isb_refl b : isb b b = true.
Proof. by apply isb_true. Qed.

(** Replaces a byte known by name in the context and computes. *)
Ltac bytes :=
  repeat match goal with
  | H : isb _ _ = true |- _ => apply isb_true in H; subst
  | H : orb _ _ = true |- _ => apply orb_true_iff in H as [H|H]
  | H : isJSONWhitespace _ = true |- _ => unfold isJSONWhitespace in H
  | H : is_exp _ = true |- _ => unfold is_exp in H
  | H : is_simple_escape _ = true |- _ => unfold is_simple_escape in H
  end; try (vm_compute in *; congruence).

Lemma digit19_digit c : is_digit19 c = true -> is_digit c = true.
Proof.
  unfold is_digit19, is_digit, in_range, byte_leb. rewrite !andb_true_iff, !N.leb_le. cbn. lia.
Qed.

Lemma digit_or_zero c : is_digit c = true -> isb "0" c = false -> is_digit19 c = true.
Proof.
  unfold is_digit19, is_digit, in_range, byte_leb. rewrite !andb_true_iff, !N.leb_le. cbn.
  intros [Hlo Hhi] Hz. split; [|done]. destruct (decide (N_of_ascii c = 48%N)) as [E|E]; [|lia].
  apply (f_equal ascii_of_N) in E. rewrite ascii_N_embedding in E. subst c. discriminate.
Qed.

(** ** Derivatives of the tokens *)

Lemma when_some b st st' : when b st = Some st' <-> b = true /\ st' = st.
Proof.
  unfold when. destruct b; split; [intros [= ->]; done|by intros [_ ->]|done|by intros [? _]].
Qed.

Lemma ex_when b st (P : jsonScanState -> Prop) :
  (exists st', when b st = Some st' /\ P st') <-> b = true /\ P st.
Proof.
  split; [intros (st' & [Hb ->]%when_some & HP); done|].
  intros [Hb HP]. exists st. by rewrite when_some.
Qed.

Lemma ex_if (b : bool) st o (P : jsonScanState -> Prop) :
  (exists st', (if b then Some st else o) = Some st' /\ P st') <->
  (b = true /\ P st) \/ (b = false /\ exists st', o = Some st' /\ P st').
Proof.
  destruct b; split.
  - intros (st' & [= ->] & HP). by left.
  - intros [[_ HP]|[? _]]; [by exists st|done].
  - intros HP. by right.
  - by intros [[? _]|[_ HP]].
Qed.

Lemma tok_string_cons c u :
  tok_string (c :: u) <->
  (isb QUOTE c = true /\ u = []) \/
  (isb QUOTE c = false /\ ((isb "\" c = true /\ tok jsonStateInStringEscape u) \/
    (isb "\" c = false /\ byte_leb "032" c = true /\ tok_string u))).
Proof.
  split.
  - intros (cs & Hcs & E). destruct Hcs as [|c' cs' Hq Hb Hp Hcs|e cs' He Hcs|h1 h2 h3 h4 cs' H1 H2 H3 H4 Hcs];
      cbn in E; injection E as -> ->; [by left|right; split; [done|]..].
    + right. split_and!; [done..|]. by exists cs'.
    + left. split; [done|]. exists e, (cs' ++ [QUOTE]). split; [done|]. left. split; [done|]. by exists cs'.
    + left. split; [done|]. exists "u"%char, (h1 :: h2 :: h3 :: h4 :: cs' ++ [QUOTE]). split; [done|].
      right. split; [done|]. cbn. repeat (eexists _, _; split; [done|split; [done|]]). by exists cs'.
  - intros [[Hq%isb_true ->]|[Hq [[->%isb_true Ht]|(Hb & Hp & cs & Hcs & ->)]]].
    + subst c. exists []. split; [constructor|done].
    + destruct Ht as (c & t & -> & [[He (cs & Hcs & ->)]|[-> Hu]]).
      * exists ("\"%char :: c :: cs). split; [by constructor|done].
      * cbn in Hu. destruct Hu as (h1 & ? & -> & ? & h2 & ? & -> & ? & h3 & ? & -> & ? & h4 & ? & -> & ? & cs & Hcs & ->).
        exists ("\"%char :: "u"%char :: h1 :: h2 :: h3 :: h4 :: cs). split; [by constructor|done].
    + exists (c :: cs). split; [by constructor|done].
Qed.

Lemma tok_unicode_cons n c u : tok_unicode (S n) (c :: u) <-> is_hex c = true /\ tok_unicode n u.
Proof.
  cbn. split; [by intros (h & t & E & Hh & Ht); injection E as -> ->|].
  intros [Hc Hu]. by exists c, u.
Qed.

Lemma digits_cons c d : digits (c :: d) <-> is_digit c = true /\ digits d.
Proof. unfold digits. by rewrite Forall_cons. Qed.

Lemma jexp_cons c u : jexp (c :: u) <-> is_exp c = true /\ jexp_tail u.
Proof.
  unfold jexp. split.
  - intros [?|(x & t & E & Hx & Ht)]; [done|]. by injection E as -> ->.
  - intros [Hc Hu]. right. by exists c, u.
Qed.

Lemma jexp_nil : jexp [].
Proof. by left. Qed.

Lemma jfrac_nil : jfrac [].
Proof. by left. Qed.

Lemma zero_cons c u :
  tok jsonStateZero (c :: u) <->
  (isb "." c = true /\ tok jsonStateDecimalPoint u) \/ (isb "." c = false /\ is_exp c = true /\ jexp_tail u).
Proof.
  cbn. split.
  - intros (f & e & E & [->|(x & d & -> & [Hx Hd]%digits_cons)] & He); cbn in E.
    + subst e. apply jexp_cons in He as [Hc Hu]. right. split_and!; [|done..].
      destruct (isb "." c) eqn:Hd; [bytes|done].
    + injection E as -> ->. left. split; [done|]. by exists x, d, e.
  - intros [[->%isb_true (x & d & e & -> & Hx & Hd & He)]|(_ & Hc & Hu)].
    + exists ("."%char :: x :: d), e. split_and!; [done| |done]. right. exists x, d. by rewrite digits_cons.
    + exists [], (c :: u). split_and!; [done|apply jfrac_nil|by apply jexp_cons].
Qed.

Lemma integer_cons c u :
  tok jsonStateInteger (c :: u) <->
  (is_digit c = true /\ tok jsonStateInteger u) \/ (is_digit c = false /\ tok jsonStateZero (c :: u)).
Proof.
  split.
  - intros (d & f & e & E & Hd & Hf & He). destruct d as [|x d].
    + cbn in E. right. split; [|by exists f, e].
      destruct Hf as [->|(y & d & -> & _)]; cbn in E; [subst e|by injection E as -> _].
      apply jexp_cons in He as [Hc _]. destruct (is_digit c) eqn:Hdc; [bytes|done].
    + injection E as -> ->. apply digits_cons in Hd as [Hx Hd]. left. split; [done|]. by exists d, f, e.
  - intros [[Hc (d & f & e & -> & Hd & Hf & He)]|[_ (f & e & E & Hf & He)]].
    + exists (c :: d), f, e. by rewrite digits_cons.
    + exists [], f, e. split_and!; [done|constructor|done..].
Qed.

Lemma decimal_cons c u :
  tok jsonStateDecimal (c :: u) <->
  (is_digit c = true /\ tok jsonStateDecimal u) \/ (is_digit c = false /\ is_exp c = true /\ jexp_tail u).
Proof.
  cbn. split.
  - intros (d & e & E & Hd & He). destruct d as [|x d]; cbn in E.
    + subst e. apply jexp_cons in He as [Hc Hu]. right. split_and!; [|done..].
      destruct (is_digit c) eqn:Hdc; [bytes|done].
    + injection E as -> ->. apply digits_cons in Hd as [Hx Hd]. left. split; [done|]. by exists d, e.
  - intros [[Hc (d & e & -> & Hd & He)]|(_ & Hc & Hu)].
    + exists (c :: d), e. by rewrite digits_cons.
    + exists [], (c :: u). split_and!; [done|constructor|by apply jexp_cons].
Qed.

Lemma decimal_point_cons c u :
  tok jsonStateDecimalPoint (c :: u) <-> is_digit c = true /\ tok jsonStateDecimal u.
Proof.
  cbn. split; [|intros [Hc (d & e & -> & Hd & He)]; by exists c, d, e].
  intros (x & d & e & E & Hx & Hd & He). injection E as -> ->. split; [done|]. by exists d, e.
Qed.

Lemma exponent_cons c u :
  jexp_tail (c :: u) <->
  (isb "+" c || isb "-" c = true /\ tok jsonStateExponentSign u) \/
  (isb "+" c || isb "-" c = false /\ is_digit c = true /\ digits u).
Proof.
  unfold jexp_tail. split.
  - intros [(x & d & E & [Hx Hd]%digits_cons)|(sg & x & d & E & Hsg & [Hx Hd]%digits_cons)]; injection E as -> ->.
    + right. split_and!; [|done..]. destruct (_ || _) eqn:E; [bytes|done].
    + left. split; [done|]. by exists x, d.
  - intros [[Hc (x & d & -> & Hx & Hd)]|(_ & Hc & Hd)].
    + right. exists c, x, d. by rewrite digits_cons.
    + left. exists c, u. by rewrite digits_cons.
Qed.

Lemma negative_cons c u :
  junsigned (c :: u) <->
  (isb "0" c = true /\ tok jsonStateZero u) \/ (isb "0" c = false /\ is_digit19 c = true /\ tok jsonStateInteger u).
Proof.
  unfold junsigned. split.
  - intros (i & f & e & E & [->|(x & d & -> & Hx & Hd)] & Hf & He); injection E as -> ->.
    + left. split; [done|]. by exists f, e.
    + right. split_and!; [|done|by exists d, f, e]. destruct (isb "0" x) eqn:E; [bytes|done].
  - intros [[->%isb_true (f & e & -> & Hf & He)]|(_ & Hc & d & f & e & -> & Hd & Hf & He)].
    + exists ["0"%char], f, e. split_and!; [done|by left|done..].
    + exists (c :: d), f, e. split_and!; [done| |done..]. right. by exists c, d.
Qed.

Lemma literal_cons b c (t u : list ascii) : c :: u = b :: t <-> isb b c = true /\ u = t.
Proof. rewrite isb_true. split; [by intros [= -> ->]|by intros [-> ->]]. Qed.

(** A byte continues a token exactly when [tok_next] says so. *)
Lemma tok_cons st c u : tok st (c :: u) <-> exists st', tok_next st c = Some st' /\ tok st' u.
Proof.
  destruct st; cbn [tok_next]; unfold after_int_next; rewrite ?ex_if, ?ex_when;
    try (cbn [tok]; rewrite literal_cons; done);
    try (split; [done|by intros (? & ? & _)]).
  - apply tok_string_cons.
  - cbn [tok]. split.
    + intros (x & t & E & H). injection E as <- <-. destruct H as [H|[-> H]]; [by left|]. by right.
    + intros [H|(_ & ->%isb_true & H)]; [exists c, u; auto|]. exists "u"%char, u. auto.
  - apply tok_unicode_cons.
  - apply tok_unicode_cons.
  - apply tok_unicode_cons.
  - apply tok_unicode_cons.
  - apply negative_cons.
  - apply zero_cons.
  - by rewrite integer_cons, zero_cons.
  - apply decimal_point_cons.
  - apply decimal_cons.
  - apply exponent_cons.
  - cbn [tok]. rewrite <- digits_cons. split; [|intros [??]%digits_cons; by exists c, u].
    intros (x & d & E & Hx & Hd). injection E as -> ->. by apply digits_cons.
  - apply digits_cons.
Qed.

Lemma tok_nil st : tok st [] <-> final st = true.
Proof.
  destruct st; cbn; try (split; done).
  - split; [|done]. by intros ([] & _ & E).
  - split; [|done]. by intros (? & ? & ? & _).
  - split; [|done]. by intros (? & ? & ? & _).
  - split; [|done]. by intros (? & ? & ? & _).
  - split; [|done]. by intros (? & ? & ? & _).
  - split; [|done]. by intros (? & ? & ? & _).
  - split; [|done]. by intros (i & f & e & E & [->|(? & ? & -> & _)] & _).
  - split; [done|]. intros _. exists [], []. split_and!; [done|apply jfrac_nil|apply jexp_nil].
  - split; [done|]. intros _. exists [], [], []. split_and!; [done|constructor|apply jfrac_nil|apply jexp_nil].
  - split; [|done]. by intros (? & ? & ? & ? & _).
  - split; [done|]. intros _. exists [], []. split_and!; [done|constructor|apply jexp_nil].
  - split; [|done]. by intros [(? & ? & ? & _)|(? & ? & ? & ? & _)].
  - split; [|done]. by intros (? & ? & ? & _).
  - split; [done|]. intros _. constructor.
Qed.

(** ** Languages of the configurations

    [K stk] is what may follow a complete value inside the containers [stk]
    (innermost first), [L st stk] what may follow the state [st]. *)

Definition room (stk : list jsonParseState) : nat := maxJSONNestingDepth - length stk.

Definition ftail_array (d : nat) (a : list ascii) : Prop :=
  exists w, ws w /\ (a = w ++ ["]"%char] \/ exists e, a = w ++ ","%char :: e ++ ["]"%char] /\ jelements d e).

Definition ftail_object (d : nat) (a : list ascii) : Prop :=
  exists w, ws w /\ (a = w ++ ["}"%char] \/ exists m, a = w ++ ","%char :: m ++ ["}"%char] /\ jmembers d m).

Definition ftail_key (d : nat) (a : list ascii) : Prop :=
  exists w w2 v t, a = w ++ ":"%char :: w2 ++ v ++ t /\ ws w /\ ws w2 /\ jvalue d v /\ ftail_object d t.

Definition ftail (f : jsonParseState) : nat -> list ascii -> Prop :=
  match f with
  | jsonParseArrayValue => ftail_array
  | jsonParseObjectValue => ftail_object
  | jsonParseObjectKey => ftail_key
  end.

Fixpoint K (stk : list jsonParseState) (r : list ascii) : Prop :=
  match stk with
  | [] => ws r
  | f :: stk' => exists a b, r = a ++ b /\ ftail f (room (f :: stk')) a /\ K stk' b
  end.

(** White space, then a suffix in [Q]. *)
Definition wsthen (Q : list ascii -> Prop) (s : list ascii) : Prop :=
  exists w x, s = w ++ x /\ ws w /\ Q x.

Definition value_then (stk : list jsonParseState) (x : list ascii) : Prop :=
  exists v r, x = v ++ r /\ jvalue (room stk) v /\ K stk r.

Definition string_then (stk : list jsonParseState) (x : list ascii) : Prop :=
  exists u r, x = QUOTE :: u ++ r /\ tok_string u /\ K stk r.

Definition byte_then (c : ascii) (Q : list ascii -> Prop) (x : list ascii) : Prop :=
  exists s, x = c :: s /\ Q s.

Definition Ltok (st : jsonScanState) (stk : list jsonParseState) (s : list ascii) : Prop :=
  exists u r, s = u ++ r /\ tok st u /\ K stk r.

Definition L (st : jsonScanState) (stk : list jsonParseState) (s : list ascii) : Prop :=
  match st with
  | jsonStateBeginValue => wsthen (value_then stk) s
  | jsonStateBeginValueOrEmpty =>
    wsthen (byte_then "]" (K (tail stk))) s \/ wsthen (value_then stk) s
  | jsonStateBeginStringOrEmpty =>
    wsthen (byte_then "}" (K (tail stk))) s \/ wsthen (string_then stk) s
  | jsonStateBeginString => wsthen (string_then stk) s
  | jsonStateEndTop => ws s
  | jsonStateError => False
  | _ => Ltok st stk s
  end.

Lemma ws_cons c w : ws (c :: w) <-> isJSONWhitespace c = true /\ ws w.
Proof. unfold ws. by rewrite Forall_cons. Qed.

Lemma ws_nil : ws [].
Proof. constructor. Qed.
#[local] Hint Resolve ws_nil : core.

Lemma wsthen_cons (Q : list ascii -> Prop) c s :
  (forall x, Q (c :: x) -> isJSONWhitespace c = false) ->
  wsthen Q (c :: s) <-> if isJSONWhitespace c then wsthen Q s else Q (c :: s).
Proof.
  intros HQ. split.
  - intros ([|a w] & x & E & Hw & Hx); cbn in E.
    + subst x. by rewrite (HQ s Hx).
    + injection E as -> ->. apply ws_cons in Hw as [-> Hw]. by exists w, x.
  - destruct (isJSONWhitespace c) eqn:Hc.
    + intros (w & x & -> & Hw & Hx). exists (c :: w), x. by rewrite ws_cons.
    + intros Hx. by exists [], (c :: s).
Qed.

Lemma wsthen_or (P Q : list ascii -> Prop) s : wsthen (fun x => P x \/ Q x) s <-> wsthen P s \/ wsthen Q s.
Proof.
  split.
  - intros (w & x & -> & Hw & [Hx|Hx]); [left|right]; by exists w, x.
  - intros [(w & x & -> & Hw & Hx)|(w & x & -> & Hw & Hx)]; exists w, x; auto.
Qed.

Lemma wsthen_impl (P Q : list ascii -> Prop) s : (forall x, P x -> Q x) -> wsthen P s -> wsthen Q s.
Proof. intros HPQ (w & x & -> & Hw & Hx). exists w, x. auto. Qed.

(** Reassociates concatenations to the right. *)
Ltac app_norm := repeat (rewrite <- ?app_assoc; cbn [app]).

(** The elements of an array and its bracket: a value, then what follows it. *)
Lemma elements_split d a :
  (exists e, jelements d e /\ a = e ++ ["]"%char]) <->
  exists w v t, a = w ++ v ++ t /\ ws w /\ jvalue d v /\ ftail_array d t.
Proof.
  split.
  - intros (e & He & ->). destruct He as [d w v w' Hw Hv Hw'|d w v w' e Hw Hv Hw' He].
    + exists w, v, (w' ++ ["]"%char]). split_and!; [by rewrite <- !app_assoc|done..|]. exists w'. auto.
    + exists w, v, (w' ++ ","%char :: e ++ ["]"%char]).
      split_and!; [by rewrite <- !app_assoc|done..|]. exists w'. eauto.
  - intros (w & v & t & -> & Hw & Hv & w' & Hw' & [->|(e & -> & He)]).
    + exists (w ++ v ++ w'). rewrite <- !app_assoc. split; [by constructor|done].
    + exists (w ++ v ++ w' ++ ","%char :: e). rewrite <- !app_assoc. split; [by constructor|done].
Qed.

Lemma members_split d a :
  (exists m, jmembers d m /\ a = m ++ ["}"%char]) <->
  exists w k t, a = w ++ k ++ t /\ ws w /\ jstring k /\ ftail_key d t.
Proof.
  split.
  - intros (m & Hm & ->). destruct Hm as [d w k w1 w2 v w' Hw Hk Hw1 Hw2 Hv Hw'|d w k w1 w2 v w' m Hw Hk Hw1 Hw2 Hv Hw' Hm].
    + exists w, k, (w1 ++ ":"%char :: w2 ++ v ++ w' ++ ["}"%char]).
      split_and!; [by app_norm|done..|].
      exists w1, w2, v, (w' ++ ["}"%char]). split_and!; [done..|]. exists w'. auto.
    + exists w, k, (w1 ++ ":"%char :: w2 ++ v ++ w' ++ ","%char :: m ++ ["}"%char]).
      split_and!; [by app_norm|done..|].
      exists w1, w2, v, (w' ++ ","%char :: m ++ ["}"%char]). split_and!; [done..|]. exists w'. eauto.
  - intros (w & k & t & -> & Hw & Hk & w1 & w2 & v & t' & -> & Hw1 & Hw2 & Hv & w' & Hw' & [->|(m & -> & Hm)]).
    + exists (w ++ k ++ w1 ++ ":"%char :: w2 ++ v ++ w'). split; [by constructor|].
      by app_norm.
    + exists (w ++ k ++ w1 ++ ":"%char :: w2 ++ v ++ w' ++ ","%char :: m). split; [by constructor|].
      by app_norm.
Qed.

(** An opened array: empty, or a value and what follows it. *)
Lemma array_split stk s :
  (exists a b, s = a ++ b /\ (exists e, jelements (room (jsonParseArrayValue :: stk)) e /\ a = e ++ ["]"%char]) /\ K stk b) <->
  wsthen (value_then (jsonParseArrayValue :: stk)) s.
Proof.
  split.
  - intros (a & b & -> & (w & v & t & -> & Hw & Hv & Ht)%elements_split & Hb).
    exists w, (v ++ t ++ b). rewrite <- !app_assoc. split_and!; [done..|].
    exists v, (t ++ b). split_and!; [done..|]. by exists t, b.
  - intros (w & x & -> & Hw & v & r & -> & Hv & t & b & -> & Ht & Hb).
    exists (w ++ v ++ t), b. rewrite <- !app_assoc. split_and!; [done| |done].
    apply elements_split. by exists w, v, t.
Qed.

Lemma object_split stk s :
  (exists a b, s = a ++ b /\ (exists m, jmembers (room (jsonParseObjectKey :: stk)) m /\ a = m ++ ["}"%char]) /\ K stk b) <->
  wsthen (string_then (jsonParseObjectKey :: stk)) s.
Proof.
  split.
  - intros (a & b & -> & (w & k & t & -> & Hw & (u & Hu & ->) & Ht)%members_split & Hb).
    exists w, (QUOTE :: (u ++ [QUOTE]) ++ t ++ b). split_and!; [by app_norm|done|].
    exists (u ++ [QUOTE]), (t ++ b). split_and!; [done|by exists u|]. by exists t, b.
  - intros (w & x & -> & Hw & u & r & -> & (cs & Hcs & ->) & t & b & -> & Ht & Hb).
    exists (w ++ (QUOTE :: cs ++ [QUOTE]) ++ t), b.
    split_and!; [by app_norm| |done].
    apply members_split. exists w, (QUOTE :: cs ++ [QUOTE]), t. split_and!; [done|done|by exists cs|done].
Qed.

Lemma K_array stk r :
  K (jsonParseArrayValue :: stk) r <->
  wsthen (fun x => byte_then "]" (K stk) x \/
    byte_then "," (wsthen (value_then (jsonParseArrayValue :: stk))) x) r.
Proof.
  split.
  - intros (a & b & -> & (w & Hw & Ha) & Hb). destruct Ha as [->|(e & -> & He)].
    + exists w, ("]"%char :: b). rewrite <- app_assoc. split_and!; [done..|]. left. by exists b.
    + exists w, (","%char :: (e ++ ["]"%char]) ++ b). split_and!; [by app_norm|done|].
      right. exists ((e ++ ["]"%char]) ++ b). split; [done|]. apply array_split.
      exists (e ++ ["]"%char]), b. eauto.
  - intros (w & x & -> & Hw & [(b & -> & Hb)|(s & -> & Hs)]).
    + exists (w ++ ["]"%char]), b. rewrite <- app_assoc. split_and!; [done| |done]. exists w. auto.
    + apply array_split in Hs as (a & b & -> & (e & He & ->) & Hb).
      exists (w ++ ","%char :: e ++ ["]"%char]), b.
      split_and!; [by app_norm| |done]. exists w. eauto.
Qed.

Lemma K_object stk r :
  K (jsonParseObjectValue :: stk) r <->
  wsthen (fun x => byte_then "}" (K stk) x \/
    byte_then "," (wsthen (string_then (jsonParseObjectKey :: stk))) x) r.
Proof.
  split.
  - intros (a & b & -> & (w & Hw & Ha) & Hb). destruct Ha as [->|(e & -> & He)].
    + exists w, ("}"%char :: b). rewrite <- app_assoc. split_and!; [done..|]. left. by exists b.
    + exists w, (","%char :: (e ++ ["}"%char]) ++ b). split_and!; [by app_norm|done|].
      right. exists ((e ++ ["}"%char]) ++ b). split; [done|]. apply object_split.
      exists (e ++ ["}"%char]), b. eauto.
  - intros (w & x & -> & Hw & [(b & -> & Hb)|(s & -> & Hs)]).
    + exists (w ++ ["}"%char]), b. rewrite <- app_assoc. split_and!; [done| |done]. exists w. auto.
    + apply object_split in Hs as (a & b & -> & (e & He & ->) & Hb).
      exists (w ++ ","%char :: e ++ ["}"%char]), b.
      split_and!; [by app_norm| |done]. exists w. eauto.
Qed.

Lemma K_key stk r :
  K (jsonParseObjectKey :: stk) r <->
  wsthen (byte_then ":" (wsthen (value_then (jsonParseObjectValue :: stk)))) r.
Proof.
  split.
  - intros (a & b & -> & (w & w2 & v & t & -> & Hw & Hw2 & Hv & Ht) & Hb).
    exists w, (":"%char :: w2 ++ v ++ t ++ b). split_and!; [by app_norm|done|].
    exists (w2 ++ v ++ t ++ b). split; [done|]. exists w2, (v ++ t ++ b). split_and!; [done..|].
    exists v, (t ++ b). split_and!; [done..|]. by exists t, b.
  - intros (w & x & -> & Hw & s & -> & w2 & y & -> & Hw2 & v & q & -> & Hv & t & b & -> & Ht & Hb).
    exists (w ++ ":"%char :: w2 ++ v ++ t), b. split_and!; [by app_norm| |done].
    exists w, w2, v, t. by split_and!.
Qed.

(** ** Derivatives of the languages *)

Lemma byte_then_cons b Q c s : byte_then b Q (c :: s) <-> isb b c = true /\ Q s.
Proof.
  rewrite isb_true. split; [by intros (x & [= -> ->] & Hx)|]. intros [-> HQ]. by exists s.
Qed.

Lemma byte_then_not_ws b Q c s :
  isJSONWhitespace b = false -> byte_then b Q (c :: s) -> isJSONWhitespace c = false.
Proof. by intros Hb [->%isb_true _]%byte_then_cons. Qed.

(** The state in which a token that starts with [c] goes on. *)
Definition value_start (c : ascii) : option jsonScanState :=
  if isb QUOTE c then Some jsonStateInString
  else if isb "-" c then Some jsonStateNegative
  else if isb "0" c then Some jsonStateZero
  else if isb "t" c then Some jsonStateTrueR
  else if isb "f" c then Some jsonStateFalseA
  else if isb "n" c then Some jsonStateNullU
  else when (is_digit19 c) jsonStateInteger.

Lemma value_start_byte c st :
  value_start c = Some st -> isJSONWhitespace c = false /\ isb "[" c = false /\ isb "{" c = false.
Proof.
  intros Hst. destruct (isJSONWhitespace c) eqn:Hw; [bytes|].
  destruct (isb "[" c) eqn:H1; [bytes|]. destruct (isb "{" c) eqn:H2; [bytes|]. done.
Qed.

(** Computes the tests on known bytes. *)
Ltac eval_bytes :=
  repeat match goal with
  | |- context [isb ?a ?b] => let r := eval vm_compute in (isb a b) in
      lazymatch r with true => idtac | false => idtac end; change (isb a b) with r
  | |- context [is_digit19 ?a] => let r := eval vm_compute in (is_digit19 a) in
      lazymatch r with true => idtac | false => idtac end; change (is_digit19 a) with r
  end.

Lemma token_value c u :
  (exists st, value_start c = Some st /\ tok st u) <->
  (jstring (c :: u) \/ jnumber (c :: u) \/ c :: u = ["t"; "r"; "u"; "e"]%char \/
   c :: u = ["f"; "a"; "l"; "s"; "e"]%char \/ c :: u = ["n"; "u"; "l"; "l"]%char).
Proof.
  unfold value_start. rewrite !ex_if, ex_when, !literal_cons.
  assert (Hs : jstring (c :: u) <-> isb QUOTE c = true /\ tok_string u).
  { rewrite isb_true. unfold jstring, tok_string. split.
    - intros (cs & Hcs & [= -> ->]). eauto.
    - intros [-> (cs & Hcs & ->)]. eauto. }
  assert (Hn : jnumber (c :: u) <-> junsigned (c :: u) \/ (isb "-" c = true /\ junsigned u)).
  { rewrite isb_true. unfold jnumber. split; (intros [H|H]; [by left|right]).
    - destruct H as (x & [= -> ->] & H). done.
    - destruct H as [-> H]. by exists u. }
  rewrite Hs, Hn, negative_cons.
  do 6 (match goal with |- context [isb ?b c] =>
    let E := fresh in destruct (isb b c) eqn:E; [apply isb_true in E; subst c; eval_bytes; cbn [tok]; intuition congruence|] end).
  cbn [tok]. intuition congruence.
Qed.

Lemma value_cons d c u :
  jvalue d (c :: u) <->
  (exists st, value_start c = Some st /\ tok st u) \/
  (isb "[" c = true /\ exists d', d = S d' /\
    ((exists w, ws w /\ u = w ++ ["]"%char]) \/ exists e, jelements d' e /\ u = e ++ ["]"%char])) \/
  (isb "{" c = true /\ exists d', d = S d' /\
    ((exists w, ws w /\ u = w ++ ["}"%char]) \/ exists m, jmembers d' m /\ u = m ++ ["}"%char])).
Proof.
  rewrite !isb_true. split.
  - intros Hv. inversion Hv; subst; try (left; apply token_value; by eauto 6).
    + right. left. split; [done|]. eexists. split; [done|]. eauto.
    + right. left. split; [done|]. eexists. split; [done|]. eauto.
    + right. right. split; [done|]. eexists. split; [done|]. eauto.
    + right. right. split; [done|]. eexists. split; [done|]. eauto.
  - intros [Ht%token_value|[(Hc & d' & -> & H)|(Hc & d' & -> & H)]];
      [|subst c; destruct H as [(w & Hw & ->)|(e & He & ->)]; by constructor..].
    destruct Ht as [?|[?|[-> |[-> | -> ]]]]; by constructor.
Qed.

Lemma value_nil d : ¬ jvalue d [].
Proof.
  intros Hv. inversion Hv as [? ? (? & _ & ?)|? ? [(i & f & e & E & [->|(? & ? & -> & _)] & _)|(? & ? & _)]| | | | | | |]; done.
Qed.

Lemma array_open_split stk s :
  (exists u r, s = u ++ r /\ ((exists w, ws w /\ u = w ++ ["]"%char]) \/
     exists e, jelements (room (jsonParseArrayValue :: stk)) e /\ u = e ++ ["]"%char]) /\ K stk r) <->
  L jsonStateBeginValueOrEmpty (jsonParseArrayValue :: stk) s.
Proof.
  cbn [L tail]. rewrite <- array_split. split.
  - intros (u & r & -> & [(w & Hw & ->)|He] & Hr); [left|right; eauto].
    exists w, ("]"%char :: r). rewrite <- app_assoc. split_and!; [done..|]. by exists r.
  - intros [(w & x & -> & Hw & b & -> & Hb)|(u & r & -> & He & Hr)]; [|eauto 6].
    exists (w ++ ["]"%char]), b. rewrite <- app_assoc. split_and!; [done|eauto|done].
Qed.

Lemma object_open_split stk s :
  (exists u r, s = u ++ r /\ ((exists w, ws w /\ u = w ++ ["}"%char]) \/
     exists m, jmembers (room (jsonParseObjectKey :: stk)) m /\ u = m ++ ["}"%char]) /\ K stk r) <->
  L jsonStateBeginStringOrEmpty (jsonParseObjectKey :: stk) s.
Proof.
  cbn [L tail]. rewrite <- object_split. split.
  - intros (u & r & -> & [(w & Hw & ->)|He] & Hr); [left|right; eauto].
    exists w, ("}"%char :: r). rewrite <- app_assoc. split_and!; [done..|]. by exists r.
  - intros [(w & x & -> & Hw & b & -> & Hb)|(u & r & -> & He & Hr)]; [|eauto 6].
    exists (w ++ ["}"%char]), b. rewrite <- app_assoc. split_and!; [done|eauto|done].
Qed.

Lemma room_succ stk p d : room stk = S d <-> (length stk < maxJSONNestingDepth)%nat /\ d = room (p :: stk).
Proof. unfold room. cbn [length]. lia. Qed.

Lemma value_then_cons stk c s :
  value_then stk (c :: s) <->
  (exists st, value_start c = Some st /\ Ltok st stk s) \/
  (isb "[" c = true /\ (length stk < maxJSONNestingDepth)%nat /\
    L jsonStateBeginValueOrEmpty (jsonParseArrayValue :: stk) s) \/
  (isb "{" c = true /\ (length stk < maxJSONNestingDepth)%nat /\
    L jsonStateBeginStringOrEmpty (jsonParseObjectKey :: stk) s).
Proof.
  rewrite <- array_open_split, <- object_open_split. split.
  - intros ([|c' u] & r & E & Hv & Hr); [by apply value_nil in Hv|]. injection E as <- ->.
    apply value_cons in Hv as [(st & Hst & Ht)|[(Hc & d' & Hd & Hu)|(Hc & d' & Hd & Hu)]].
    + left. exists st. split; [done|]. by exists u, r.
    + apply (room_succ _ jsonParseArrayValue) in Hd as [Hlt ->]. right. left. split_and!; eauto.
    + apply (room_succ _ jsonParseObjectKey) in Hd as [Hlt ->]. right. right. split_and!; eauto.
  - intros [(st & Hst & u & r & -> & Ht & Hr)|[(Hc & Hlt & u & r & -> & Hu & Hr)|(Hc & Hlt & u & r & -> & Hu & Hr)]];
      exists (c :: u), r; (split_and!; [done| |done]); apply value_cons; [left; eauto|right; left|right; right];
      (split; [done|]); exists (room (jsonParseArrayValue :: stk));
      (split; [by apply (proj2 (room_succ _ jsonParseArrayValue _))|done]).
Qed.

Lemma value_then_not_ws stk c s : value_then stk (c :: s) -> isJSONWhitespace c = false.
Proof.
  intros [(st & Hst & _)|[(->%isb_true & _)|(->%isb_true & _)]]%value_then_cons; [|done..].
  by apply value_start_byte in Hst as [? _].
Qed.

Lemma string_then_cons stk c s :
  string_then stk (c :: s) <-> isb QUOTE c = true /\ Ltok jsonStateInString stk s.
Proof.
  rewrite isb_true. split; [intros (u & r & [= -> ->] & Hu & Hr); split; [done|by exists u, r]|].
  intros [-> (u & r & -> & Hu & Hr)]. by exists u, r.
Qed.

Lemma string_then_not_ws stk c s : string_then stk (c :: s) -> isJSONWhitespace c = false.
Proof. by intros [->%isb_true _]%string_then_cons. Qed.

(** ** The machine on an abstract stack

    [astep] is the step of the machine with the containers as a list, innermost
    first; [None] is an error. *)

Definition apop (stk : list jsonParseState) : jsonScanState * list jsonParseState :=
  (if bool_decide (stk = []) then jsonStateEndTop else jsonStateEndValue, stk).

Definition aend (stk : list jsonParseState) (c : ascii) : option (jsonScanState * list jsonParseState) :=
  match stk with
  | [] => if isJSONWhitespace c then Some (jsonStateEndTop, []) else None
  | f :: stk' =>
    if isJSONWhitespace c then Some (jsonStateEndValue, stk)
    else match f with
         | jsonParseObjectKey =>
           if isb ":" c then Some (jsonStateBeginValue, jsonParseObjectValue :: stk') else None
         | jsonParseObjectValue =>
           if isb "," c then Some (jsonStateBeginString, jsonParseObjectKey :: stk')
           else if isb "}" c then Some (apop stk') else None
         | jsonParseArrayValue =>
           if isb "," c then Some (jsonStateBeginValue, stk)
           else if isb "]" c then Some (apop stk') else None
         end
  end.

Definition abegin (stk : list jsonParseState) (c : ascii) : option (jsonScanState * list jsonParseState) :=
  match value_start c with
  | Some st => Some (st, stk)
  | None =>
    if isb "[" c then
      if (length stk <? maxJSONNestingDepth)%nat
      then Some (jsonStateBeginValueOrEmpty, jsonParseArrayValue :: stk) else None
    else if isb "{" c then
      if (length stk <? maxJSONNestingDepth)%nat
      then Some (jsonStateBeginStringOrEmpty, jsonParseObjectKey :: stk) else None
    else None
  end.

Definition astring (stk : list jsonParseState) (c : ascii) : option (jsonScanState * list jsonParseState) :=
  if isb QUOTE c then Some (jsonStateInString, stk) else None.

Definition astep (st : jsonScanState) (stk : list jsonParseState) (c : ascii)
    : option (jsonScanState * list jsonParseState) :=
  if token_state st then
    match tok_next st c with
    | Some st' => Some (st', stk)
    | None => if final st then aend stk c else None
    end
  else if bool_decide (st = jsonStateError) then None
  else if isJSONWhitespace c then Some (st, stk)
  else match st with
       | jsonStateBeginValue => abegin stk c
       | jsonStateBeginValueOrEmpty => if isb "]" c then Some (apop (tail stk)) else abegin stk c
       | jsonStateBeginStringOrEmpty => if isb "}" c then Some (apop (tail stk)) else astring stk c
       | jsonStateBeginString => astring stk c
       | _ => None
       end.

(** The residual language of a result of [astep]. *)
Definition Lres (r : option (jsonScanState * list jsonParseState)) (s : list ascii) : Prop :=
  match r with Some (st, stk) => L st stk s | None => False end.

Lemma L_token st stk s : token_state st = true -> L st stk s <-> Ltok st stk s.
Proof. by destruct st. Qed.

Lemma Ltok_end stk s : Ltok jsonStateEndValue stk s <-> K stk s.
Proof.
  split; [by intros (u & r & -> & -> & Hr)|]. intros Hr. by exists [], s.
Qed.

Lemma Lres_apop stk s : Lres (Some (apop stk)) s <-> K stk s.
Proof.
  unfold apop. cbn [Lres]. destruct stk as [|f stk]; [done|].
  rewrite (bool_decide_eq_false_2 (f :: stk = [])) by done. apply Ltok_end.
Qed.

Lemma K_cons stk c s : K stk (c :: s) <-> Lres (aend stk c) s.
Proof.
  unfold aend. destruct stk as [|[] stk].
  - cbn [K]. rewrite ws_cons. destruct (isJSONWhitespace c); cbn; intuition congruence.
  - rewrite K_key, wsthen_cons by (intros x; by apply byte_then_not_ws). destruct (isJSONWhitespace c).
    + cbn [Lres L]. by rewrite Ltok_end, K_key.
    + rewrite byte_then_cons. destruct (isb ":" c); cbn [Lres L]; intuition congruence.
  - rewrite K_object, wsthen_cons by (intros x [H|H]; by apply byte_then_not_ws in H). destruct (isJSONWhitespace c).
    + cbn [Lres L]. by rewrite Ltok_end, K_object.
    + rewrite !byte_then_cons. destruct (isb "," c) eqn:E; [apply isb_true in E as ->; eval_bytes; cbn [Lres L]; intuition congruence|].
      destruct (isb "}" c); [rewrite Lres_apop|cbn [Lres]]; intuition congruence.
  - rewrite K_array, wsthen_cons by (intros x [H|H]; by apply byte_then_not_ws in H). destruct (isJSONWhitespace c).
    + cbn [Lres L]. by rewrite Ltok_end, K_array.
    + rewrite !byte_then_cons. destruct (isb "," c) eqn:E; [apply isb_true in E as ->; eval_bytes; cbn [Lres L]; intuition congruence|].
      destruct (isb "]" c); [rewrite Lres_apop|cbn [Lres]]; intuition congruence.
Qed.

Lemma abegin_correct stk c s : value_then stk (c :: s) <-> Lres (abegin stk c) s.
Proof.
  rewrite value_then_cons. unfold abegin. destruct (value_start c) as [st|] eqn:Hst.
  - pose proof (value_start_byte c st Hst) as (_ & -> & ->). cbn [Lres].
    assert (Htk : token_state st = true).
    { unfold value_start, when in Hst. by repeat case_match; simplify_eq. }
    rewrite (L_token st) by done. split; [|by left; exists st].
    intros [(st2 & E & Hl)|[[? _]|[? _]]]; [by injection E as <-|done..].
  - destruct (isb "[" c) eqn:E1; [assert (isb "{" c = false) as -> by bytes|destruct (isb "{" c)];
      try (destruct (Nat.ltb_spec (length stk) maxJSONNestingDepth)); cbn [Lres];
      (split; [intros [(? & ? & _)|[(? & ? & ?)|(? & ? & ?)]]; by (done || lia)|intros ?; by auto]).
Qed.

Lemma astring_correct stk c s : string_then stk (c :: s) <-> Lres (astring stk c) s.
Proof.
  rewrite string_then_cons. unfold astring. destruct (isb QUOTE c); cbn [Lres L]; intuition congruence.
Qed.

(** A byte that continues a number cannot follow it. *)
Lemma final_next_end st c st' stk : final st = true -> tok_next st c = Some st' -> aend stk c = None.
Proof.
  intros Hf Hn.
  assert (Hc : is_digit c = true \/ isb "." c = true \/ is_exp c = true).
  { destruct st; try discriminate; cbn in Hn; unfold after_int_next, when in Hn; repeat case_match; intuition congruence. }
  assert (Hw : isJSONWhitespace c = false) by (destruct (isJSONWhitespace c) eqn:E; [by destruct Hc as [?|[?|?]]; bytes|done]).
  unfold aend. rewrite Hw.
  destruct (isb ":" c) eqn:E1; [by destruct Hc as [?|[?|?]]; bytes|]. destruct (isb "," c) eqn:E2; [by destruct Hc as [?|[?|?]]; bytes|].
  destruct (isb "}" c) eqn:E3; [by destruct Hc as [?|[?|?]]; bytes|]. destruct (isb "]" c) eqn:E4; [by destruct Hc as [?|[?|?]]; bytes|].
  by destruct stk as [|[] stk].
Qed.

Lemma Ltok_cons st stk c s :
  Ltok st stk (c :: s) <->
  match tok_next st c with
  | Some st' => Ltok st' stk s
  | None => final st = true /\ K stk (c :: s)
  end.
Proof.
  destruct (tok_next st c) as [st'|] eqn:Hn.
  - split.
    + intros ([|x u] & r & E & Hu & Hr); cbn in E.
      * subst r. apply tok_nil in Hu. apply K_cons in Hr. by rewrite (final_next_end st c st') in Hr.
      * injection E as <- ->. apply tok_cons in Hu as (st2 & Hn2 & Hu). rewrite Hn in Hn2. injection Hn2 as <-.
        by exists u, r.
    + intros (u & r & -> & Hu & Hr). exists (c :: u), r. split_and!; [done| |done]. apply tok_cons. eauto.
  - split.
    + intros ([|x u] & r & E & Hu & Hr); cbn in E; [subst r; by rewrite tok_nil in Hu|].
      injection E as <- ->. apply tok_cons in Hu as (st2 & Hn2 & _). by rewrite Hn in Hn2.
    + intros [Hf Hr]. exists [], (c :: s). by rewrite tok_nil.
Qed.

Lemma tok_next_token st c st' : tok_next st c = Some st' -> token_state st' = true.
Proof. destruct st; cbn; unfold after_int_next, when; intros; repeat case_match; by simplify_eq. Qed.

(** The language of a configuration is the language after its first byte. *)
Lemma astep_correct st stk c s : L st stk (c :: s) <-> Lres (astep st stk c) s.
Proof.
  unfold astep. destruct (token_state st) eqn:Htk.
  { rewrite L_token, Ltok_cons by done. destruct (tok_next st c) as [st'|] eqn:Hn.
    - apply tok_next_token in Hn. cbn [Lres]. by rewrite L_token.
    - destruct (final st); [rewrite K_cons|cbn [Lres]]; intuition congruence. }
  destruct st; try discriminate; cbn [L]; rewrite ?bool_decide_eq_false_2 by done.
  - rewrite wsthen_cons by (intros x; apply value_then_not_ws). destruct (isJSONWhitespace c); [done|].
    apply abegin_correct.
  - rewrite !wsthen_cons by (intros x; first [by apply byte_then_not_ws|apply value_then_not_ws]).
    destruct (isJSONWhitespace c); [done|]. rewrite byte_then_cons, abegin_correct.
    destruct (isb "]" c) eqn:E; [|intuition congruence]. rewrite Lres_apop. apply isb_true in E as ->.
    change (abegin stk "]") with (@None (jsonScanState * list jsonParseState)). cbn [Lres]. tauto.
  - rewrite !wsthen_cons by (intros x; first [by apply byte_then_not_ws|apply string_then_not_ws]).
    destruct (isJSONWhitespace c); [done|]. rewrite byte_then_cons, astring_correct.
    destruct (isb "}" c) eqn:E; [|intuition congruence]. rewrite Lres_apop. apply isb_true in E as ->.
    change (astring stk "}") with (@None (jsonScanState * list jsonParseState)). cbn [Lres]. tauto.
  - rewrite wsthen_cons by (intros x; apply string_then_not_ws). destruct (isJSONWhitespace c); [done|].
    apply astring_correct.
  - rewrite ws_cons. destruct (isJSONWhitespace c); cbn [Lres]; intuition congruence.
  - by rewrite bool_decide_eq_true_2.
Qed.

(** ** The machine refines [astep] *)

Definition stack_rel (v : incrementalJSONValidator) (stk : list jsonParseState) : Prop :=
  length (jv_stack v) = maxJSONNestingDepth /\ jv_depth v = length stk /\
  take (length stk) (jv_stack v) = reverse stk.

(** The containers the states between tokens are reached in. *)
Definition wf_state (st : jsonScanState) (stk : list jsonParseState) : Prop :=
  match st with
  | jsonStateBeginValueOrEmpty => exists stk', stk = jsonParseArrayValue :: stk'
  | jsonStateBeginStringOrEmpty => exists stk', stk = jsonParseObjectKey :: stk'
  | jsonStateEndTop => stk = []
  | jsonStateError => False
  | _ => True
  end.

Record rel (v : incrementalJSONValidator) (stk : list jsonParseState) : Prop := {
  rel_failed : jv_failed v = false;
  rel_stack : stack_rel v stk;
  rel_endTop : jv_endTop v = bool_decide (jv_state v = jsonStateEndTop);
  rel_wf : wf_state (jv_state v) stk
}.

(** A step of the machine agrees with a result of [astep]. *)
Definition refines (r : step_result) (a : option (jsonScanState * list jsonParseState)) : Prop :=
  match a with
  | None => exists v', r = Some (v', jsonScanError) /\ jv_failed v' = true
  | Some (st, stk) => exists v' op, r = Some (v', op) /\ op <> jsonScanError /\ jv_state v' = st /\ rel v' stk
  end.

Lemma stack_rel_bound v stk : stack_rel v stk -> (length stk <= maxJSONNestingDepth)%nat.
Proof.
  intros (Hlen & _ & Ht). apply (f_equal length) in Ht. rewrite length_take, length_reverse in Ht. lia.
Qed.

Lemma stack_rel_top v f stk : stack_rel v (f :: stk) -> top v = Some f.
Proof.
  intros (Hlen & Hd & Ht). unfold top. rewrite Hd. cbn [length].
  apply (f_equal (lookup (length stk))) in Ht. cbn [length] in Ht.
  rewrite lookup_take_lt, reverse_cons, lookup_app_r in Ht by (rewrite ?length_reverse; lia).
  by rewrite length_reverse, Nat.sub_diag in Ht.
Qed.

Lemma take_insert_last {A : Type} (l : list A) n x : (n < length l)%nat -> take (S n) (<[n := x]> l) = take n l ++ [x].
Proof.
  intros Hn. rewrite (take_S_r _ _ x) by (apply list_lookup_insert_eq; lia). by rewrite take_insert_ge by lia.
Qed.

Lemma stack_rel_tail v f stk : stack_rel v (f :: stk) -> take (length stk) (jv_stack v) = reverse stk.
Proof.
  intros (Hlen & Hd & Ht). apply (f_equal (take (length stk))) in Ht. cbn [length] in Ht.
  rewrite take_take, reverse_cons, take_app_le in Ht by (rewrite length_reverse; lia).
  rewrite Nat.min_l in Ht by lia. rewrite Ht. apply take_ge. by rewrite length_reverse.
Qed.

Lemma stack_rel_set_top v f p stk :
  stack_rel v (f :: stk) ->
  set_top v p = Some {| v with jv_stack := <[length stk := p]> (jv_stack v) |} /\
  stack_rel {| v with jv_stack := <[length stk := p]> (jv_stack v) |} (p :: stk).
Proof.
  intros Hs. pose proof (stack_rel_bound _ _ Hs) as Hb. cbn [length] in Hb.
  pose proof (stack_rel_tail _ _ _ Hs) as Ht. destruct Hs as (Hlen & Hd & _).
  unfold set_top. rewrite Hd. cbn [length]. rewrite (proj2 (Nat.ltb_lt _ _)) by lia. split; [done|].
  split_and!; [cbn; by rewrite length_insert|done|]. cbn [jv_stack length].
  rewrite take_insert_last by lia. by rewrite Ht, reverse_cons.
Qed.

Lemma stack_rel_push v p stk :
  stack_rel v stk -> (length stk < maxJSONNestingDepth)%nat ->
  push v p = Some ({| v with jv_stack := <[length stk := p]> (jv_stack v); jv_depth := S (length stk) |}, true) /\
  stack_rel {| v with jv_stack := <[length stk := p]> (jv_stack v); jv_depth := S (length stk) |} (p :: stk).
Proof.
  intros (Hlen & Hd & Ht) Hlt. unfold push. rewrite Hd, Hlen, bool_decide_eq_false_2 by lia.
  rewrite (proj2 (Nat.ltb_lt _ _)) by lia. split; [done|].
  split_and!; [cbn; by rewrite length_insert|done|]. cbn [jv_stack length].
  rewrite take_insert_last by lia. by rewrite Ht, reverse_cons.
Qed.

Lemma refines_fail v : refines (fail v) None.
Proof. eexists. split; [done|done]. Qed.

Lemma refines_to_state v st stk :
  jv_failed v = false -> jv_endTop v = false -> stack_rel v stk -> wf_state st stk -> st <> jsonStateEndTop ->
  refines (continue (to_state v st)) (Some (st, stk)).
Proof.
  intros Hf He Hs Hw Hst. exists (to_state v st), jsonScanContinue. split_and!; [done..|].
  constructor; [done|done| |done]. cbn. rewrite He. by rewrite bool_decide_eq_false_2.
Qed.

Lemma refines_pop v f stk op :
  op <> jsonScanError -> jv_failed v = false -> jv_endTop v = false -> stack_rel v (f :: stk) ->
  refines (Some (pop v, op)) (Some (apop stk)).
Proof.
  intros Hop Hf He Hs. pose proof (stack_rel_tail _ _ _ Hs) as Ht. destruct Hs as (Hlen & Hd & _).
  unfold pop, apop. rewrite Hd. cbn [length Nat.pred]. destruct stk as [|g stk].
  - rewrite !bool_decide_eq_true_2 by done. eexists _, op. split_and!; [done..|]. constructor; [done| |done|done]. by split_and!.
  - rewrite (bool_decide_eq_false_2 (length (g :: stk) = 0%nat)), (bool_decide_eq_false_2 (g :: stk = [])) by done.
    eexists _, op. split_and!; [done..|]. constructor; [done| |done|done]. by split_and!.
Qed.

Lemma value_start_wf c st : value_start c = Some st -> token_state st = true.
Proof. unfold value_start, when. intros. by repeat case_match; simplify_eq. Qed.

Lemma token_wf st stk' : token_state st = true -> wf_state st stk' /\ st <> jsonStateEndTop.
Proof. by destruct st. Qed.

Lemma to_state_self v st : jv_state v = st -> v = to_state v st.
Proof. intros <-. by destruct v. Qed.

(** Inside a token the machine follows [tok_next]. *)
Lemma stepByte_token v c :
  jv_failed v = false -> token_state (jv_state v) = true ->
  stepByte v c =
  match tok_next (jv_state v) c with
  | Some st' => continue (to_state v st')
  | None => if final (jv_state v) then endValue v c else fail v
  end.
Proof.
  intros Hf Htk. unfold stepByte. rewrite Hf. unfold stepString, stepNumber, stepLiteral, stepStructure.
  destruct (jv_state v) eqn:Hst; try discriminate; cbn [tok_next final];
    unfold after_int_next, when, afterInteger, exponentDigit, unicode, literal, is_hex, is_simple_escape;
    repeat (match goal with |- context [if ?b then _ else _] => destruct b eqn:? end; cbn [negb]);
    try done; by rewrite <- (to_state_self _ _ Hst).
Qed.

Section Refinement.
Variables (v : incrementalJSONValidator) (stk : list jsonParseState).
Hypothesis Hf : jv_failed v = false.
Hypothesis He : jv_endTop v = false.
Hypothesis Hs : stack_rel v stk.

Lemma endValue_refines c : refines (endValue v c) (aend stk c).
Proof.
  pose proof Hs as (_ & Hd & _). unfold endValue, aend. rewrite Hd. destruct stk as [|f stk'].
  - cbn [length]. rewrite bool_decide_eq_true_2 by done. destruct (isJSONWhitespace c); [|apply refines_fail].
    cbn. eexists _, _. split_and!; [done..|]. constructor; [done| |done|done].
    destruct Hs as (? & ? & ?). by split_and!.
  - rewrite bool_decide_eq_false_2 by done. rewrite (stack_rel_top _ _ _ Hs). cbn [mbind option_bind].
    destruct (isJSONWhitespace c); [by apply refines_to_state|]. destruct f.
    + destruct (isb ":" c); [|apply refines_fail].
      destruct (stack_rel_set_top _ _ jsonParseObjectValue _ Hs) as [-> Hs']. cbn [negb mbind option_bind].
      by apply refines_to_state.
    + destruct (isb "," c).
      * destruct (stack_rel_set_top _ _ jsonParseObjectKey _ Hs) as [-> Hs']. cbn [mbind option_bind].
        by apply refines_to_state.
      * destruct (isb "}" c); [by eapply refines_pop|apply refines_fail].
    + destruct (isb "," c); [by apply refines_to_state|].
      destruct (isb "]" c); [by eapply refines_pop|apply refines_fail].
Qed.

Lemma open_container_refines p st :
  st <> jsonStateEndTop -> wf_state st (p :: stk) ->
  refines (open_container v p st)
    (if (length stk <? maxJSONNestingDepth)%nat then Some (st, p :: stk) else None).
Proof.
  intros Hst Hw. unfold open_container. destruct (Nat.ltb_spec (length stk) maxJSONNestingDepth) as [Hlt|Hge].
  - destruct (stack_rel_push _ p _ Hs Hlt) as [-> Hs']. cbn [mbind option_bind negb]. by apply refines_to_state.
  - pose proof (stack_rel_bound _ _ Hs) as Hb. destruct Hs as (Hlen & Hd & _). unfold push.
    rewrite Hd, Hlen, bool_decide_eq_true_2 by lia. eexists. split; [done|done].
Qed.

Lemma beginValue_refines c : isJSONWhitespace c = false -> refines (beginValue v c) (abegin stk c).
Proof.
  intros Hw. unfold beginValue, abegin. rewrite Hw.
  destruct (value_start c) as [st|] eqn:Hst.
  - destruct (value_start_byte c st Hst) as (_ & -> & ->).
    destruct (token_wf st stk (value_start_wf c st Hst)) as [Hwf Hne].
    unfold value_start, when in Hst. repeat case_match; simplify_eq; by apply refines_to_state.
  - destruct (isb "[" c) eqn:E1.
    { assert (isb "{" c = false) as -> by bytes. apply open_container_refines; [done|by eexists]. }
    destruct (isb "{" c) eqn:E2; [apply open_container_refines; [done|by eexists]|].
    unfold value_start, when in Hst. repeat case_match; simplify_eq. apply refines_fail.
Qed.

Lemma beginString_refines c : isJSONWhitespace c = false -> refines (beginString v c) (astring stk c).
Proof.
  intros Hw. unfold beginString, astring. rewrite Hw.
  destruct (isb QUOTE c); [by apply refines_to_state|apply refines_fail].
Qed.

End Refinement.

(** One step of the machine is a step of [astep]. *)
Lemma stepByte_refines v stk c : rel v stk -> refines (stepByte v c) (astep (jv_state v) stk c).
Proof.
  intros [Hf Hs He Hwf]. unfold astep. destruct (token_state (jv_state v)) eqn:Htk.
  { destruct (token_wf _ stk Htk) as [_ Hne]. rewrite bool_decide_eq_false_2 in He by done.
    rewrite (stepByte_token v c Hf Htk). destruct (tok_next (jv_state v) c) as [st'|] eqn:Hn.
    - apply tok_next_token in Hn. destruct (token_wf st' stk Hn). by apply refines_to_state.
    - destruct (final _); [by apply endValue_refines|apply refines_fail]. }
  unfold stepByte, stepString, stepNumber, stepLiteral, stepStructure. rewrite Hf.
  destruct (jv_state v) eqn:Hst; try discriminate; [..|done]; cbn in Hwf;
    rewrite ?bool_decide_eq_false_2 in He by done; rewrite ?(bool_decide_eq_false_2 (_ = jsonStateError)) by done;
    destruct (isJSONWhitespace c) eqn:Hw; cbn [negb]; try apply refines_fail.
  - unfold beginValue. rewrite Hw, (to_state_self v _ Hst) at 1. by apply refines_to_state.
  - by apply beginValue_refines.
  - rewrite (to_state_self v _ Hst) at 1. by apply refines_to_state.
  - destruct Hwf as [stk' ->]. destruct (isb "]" c) eqn:E; [|by apply beginValue_refines].
    apply isb_true in E as ->. by apply (endValue_refines v (jsonParseArrayValue :: stk') Hf He Hs "]").
  - rewrite (to_state_self v _ Hst) at 1. by apply refines_to_state.
  - destruct Hwf as [stk' ->]. destruct (isb "}" c) eqn:E; [|by apply beginString_refines].
    apply isb_true in E as ->. destruct (stack_rel_set_top _ _ jsonParseObjectValue _ Hs) as [-> Hs'].
    by refine (endValue_refines _ (jsonParseObjectValue :: stk') _ _ Hs' "}").
  - unfold beginString. rewrite Hw, (to_state_self v _ Hst) at 1. by apply refines_to_state.
  - by apply beginString_refines.
  - exists v, jsonScanContinue. split_and!; [done..|]. constructor; [done|done|by rewrite Hst, He|by rewrite Hst].
Qed.

Lemma failed_steps v s : jv_failed v = true -> steps v s = Some v.
Proof.
  intros Hf. induction s as [|c s IH]; [done|]. cbn [steps]. unfold stepByte. by rewrite Hf.
Qed.

(** The machine accepts what its configuration has left. *)
Lemma steps_correct v stk s :
  rel v stk ->
  exists v', steps v s = Some v' /\
    ((jv_failed v' = true /\ ¬ L (jv_state v) stk s) \/
     exists stk', rel v' stk' /\ (L (jv_state v) stk s <-> L (jv_state v') stk' [])).
Proof.
  revert v stk. induction s as [|c s IH]; intros v stk Hrel; [exists v; eauto|].
  pose proof (stepByte_refines v stk c Hrel) as Hstep. pose proof (astep_correct (jv_state v) stk c s) as HL.
  cbn [steps]. destruct (astep (jv_state v) stk c) as [[st' stk']|].
  - destruct Hstep as (v' & op & -> & _ & <- & Hrel'). cbn [mbind option_bind].
    destruct (IH v' stk' Hrel') as (v2 & Hv2 & H). exists v2. split; [done|].
    cbn [Lres] in HL. destruct H as [[Hf Hn]|(stk2 & Hr2 & Hl2)]; [left; split; [done|by intros ?%HL]|].
    right. exists stk2. by rewrite HL.
  - destruct Hstep as (v' & -> & Hf). cbn [mbind option_bind]. rewrite failed_steps by done.
    exists v'. split; [done|]. left. split; [done|]. by intros ?%HL.
Qed.

Lemma K_nil stk : K stk [] <-> stk = [].
Proof.
  split; [|intros ->; apply ws_nil]. destruct stk as [|f stk]; [done|].
  intros (a & b & E & Ha & _). symmetry in E. apply app_nil in E as [-> _]. exfalso.
  assert (Hnil : forall (w : list ascii) c t, [] = w ++ c :: t -> False).
  { intros w c t E. symmetry in E. by apply app_nil in E as [_ ?]. }
  destruct f; cbn in Ha.
  - destruct Ha as (w & w2 & v & t & E & _). by apply Hnil in E.
  - destruct Ha as (w & _ & [E|(m & E & _)]); by apply Hnil in E.
  - destruct Ha as (w & _ & [E|(m & E & _)]); by apply Hnil in E.
Qed.

Lemma wsthen_nil (Q : list ascii -> Prop) : wsthen Q [] <-> Q [].
Proof.
  split; [|intros HQ; by exists [], []]. intros (w & x & E & _ & HQ). symmetry in E.
  by apply app_nil in E as [-> ->].
Qed.

(** [eof] accepts exactly in the configurations that have the empty rest. *)
Lemma L_nil st stk :
  wf_state st stk -> L st stk [] <-> st = jsonStateEndTop \/ (token_state st = true /\ final st = true /\ stk = []).
Proof.
  intros Hwf. destruct (token_state st) eqn:Htk.
  - rewrite L_token by done. destruct (token_wf st stk Htk) as [_ Hne]. split.
    + intros (u & r & E & Hu & Hr). symmetry in E. apply app_nil in E as [-> ->]. right.
      by apply tok_nil in Hu; apply K_nil in Hr.
    + intros [?|(_ & Hfin & ->)]; [done|]. exists [], []. rewrite tok_nil. split_and!; [done|done|apply ws_nil].
  - assert (Hv : ¬ value_then stk []).
    { intros (v & r & E & Hv & _). symmetry in E. apply app_nil in E as [-> _]. by apply value_nil in Hv. }
    assert (Hs : ¬ string_then stk []) by by intros (? & ? & ? & _).
    assert (Hb : forall b Q, ¬ byte_then b Q []) by by intros b Q (? & ? & _).
    destruct st; try discriminate; cbn [L]; rewrite ?wsthen_nil;
      (split; [|intros [?|[? _]]; first [done|apply ws_nil]]).
    + by intros ?%Hv.
    + by intros [?%Hb|?%Hv].
    + by intros [?%Hb|?%Hs].
    + by intros ?%Hs.
    + by left.
    + done.
Qed.

Lemma eof_correct v stk :
  rel v stk -> exists v' b, eof v = Some (v', b) /\ (b = true <-> L (jv_state v) stk []).
Proof.
  intros Hrel. pose proof Hrel as [Hf Hs He Hwf]. unfold eof. rewrite Hf, He. pose proof (L_nil _ _ Hwf) as HL.
  case_bool_decide as Hst; [exists v, true; split; [done|rewrite HL; intuition]|].
  pose proof (stepByte_refines v stk " " Hrel) as Hstep.
  destruct (astep (jv_state v) stk " ") as [[st' stk']|] eqn:Ha.
  - destruct Hstep as (v' & op & -> & Hop & Hv' & [_ _ He' _]). cbn [mbind option_bind].
    exists v', (negb (bool_decide (op = jsonScanError)) && jv_endTop v'). split; [done|]. rewrite HL.
    rewrite bool_decide_eq_false_2 by done. cbn [negb andb]. rewrite He', Hv', bool_decide_eq_true.
    clear -Ha Hst. destruct (jv_state v); vm_compute in Ha; destruct stk; simplify_eq;
      cbn [token_state final]; intuition congruence.
  - destruct Hstep as (v' & -> & _). cbn [mbind option_bind]. eexists v', _. split; [done|]. rewrite HL.
    rewrite bool_decide_eq_true_2 by done. cbn [negb andb]. split; [done|].
    intros [?|(_ & Hfin & ->)]; [done|]. exfalso. by destruct (jv_state v).
Qed.

Lemma reset_rel : rel (reset zeroValidator) [].
Proof. by constructor; [|split_and!| |]. Qed.

Lemma validator_verdict input :
  exists b, validate input = Some b /\ (b = true <-> json_text maxJSONNestingDepth input).
Proof.
  destruct (steps_correct _ _ input reset_rel) as (v & Hv & H). unfold validate. rewrite Hv. cbn [mbind option_bind].
  assert (HL : json_text maxJSONNestingDepth input <-> L (jv_state (reset zeroValidator)) [] input).
  { cbn [reset jv_state L]. unfold json_text, wsthen, value_then. cbn [K]. split.
    - intros (w & u & w' & -> & Hw & Hu & Hw'). exists w, (u ++ w'). eauto 8.
    - intros (w & x & -> & Hw & u & r & -> & Hu & Hr). exists w, u, r. auto. }
  destruct H as [[Hf Hn]|(stk & Hrel & Hl)].
  - unfold eof. rewrite Hf. exists false. split; [done|]. split; [done|by intros ?%HL].
  - destruct (eof_correct v stk Hrel) as (v' & b & -> & Hb). exists b. split; [done|]. by rewrite HL, Hl.
Qed.

(** C28. The validator decides JSON.  On every byte sequence it reaches a verdict
    without panic, whatever the bytes; and the verdict is positive exactly for the
    JSON texts of RFC 8259 (bytes above 0x7f are not checked to be UTF-8) whose
    arrays and objects are nested at most [maxJSONNestingDepth] deep. *)
Theorem validator_decides_json input :
  exists b, validate input = Some b /\ (b = true <-> json_text maxJSONNestingDepth input).
Proof. apply validator_verdict. Qed.
