(* ===== verification/UsageInspector.v ===== *)
(** The inspector that reads token usage out of a proxied response without
    changing it ([src/internal/proxy/usage.go]).

    A response arrives in chunks; [Write] consumes one, [Result] closes the
    inspector.  The decoder of [encoding/json] and [mime.ParseMediaType] are
    parameters.  [None] is a panic (an index or slice out of range). *)

From S2P Require Import Prelude Domain JsonValidator.
From Stdlib Require Import Ascii.

(** ** Bytes and strings of Go's standard library *)

Definition bytes := list ascii.

Definition of_string (s : string) : bytes := String.list_ascii_of_string s.

(** [bytes.TrimSuffix(line, []byte{'\r'})] *)
Definition TrimSuffixCR (line : bytes) : bytes :=
  match reverse line with
  | c :: rest => if isb CR c then reverse rest else line
  | [] => line
  end.

(** [bytes.Split(event, []byte{'\n'})] *)
Fixpoint SplitLF (event : bytes) : list bytes :=
  match event with
  | [] => [[]]
  | c :: rest =>
    if isb LF c then [] :: SplitLF rest
    else match SplitLF rest with
         | line :: lines => (c :: line) :: lines
         | [] => [[c]]
         end
  end.

(** [bytes.Cut(line, []byte{':'})] *)
Fixpoint CutColon (line : bytes) : option (bytes * bytes) :=
  match line with
  | [] => None
  | c :: rest =>
    if isb ":" c then Some ([], rest)
    else '(before, after) ← CutColon rest; Some (c :: before, after)
  end.

(** [bytes.Join(lines, []byte{'\n'})] *)
Fixpoint JoinLF (lines : list bytes) : bytes :=
  match lines with
  | [] => []
  | [line] => line
  | line :: rest => line ++ LF :: JoinLF rest
  end.

(** The UTF-8 encodings of the code points [unicode.IsSpace] accepts. *)
Definition space_encodings : list bytes :=
  map (map (fun n => ascii_of_N n))
    ([[9]; [10]; [11]; [12]; [13]; [32]; [194; 133]; [194; 160]; [225; 154; 128]; [226; 128; 128];
      [226; 128; 129]; [226; 128; 130]; [226; 128; 131]; [226; 128; 132]; [226; 128; 133];
      [226; 128; 134]; [226; 128; 135]; [226; 128; 136]; [226; 128; 137]; [226; 128; 138];
      [226; 128; 168]; [226; 128; 169]; [226; 128; 175]; [226; 129; 159]; [227; 128; 128]]%N).

Fixpoint strip_prefix (p s : bytes) : option bytes :=
  match p, s with
  | [], _ => Some s
  | a :: p', b :: s' => if isb a b then strip_prefix p' s' else None
  | _ :: _, [] => None
  end.

Fixpoint strip_any (ps : list bytes) (s : bytes) : option bytes :=
  match ps with
  | [] => None
  | p :: ps' => match strip_prefix p s with Some r => Some r | None => strip_any ps' s end
  end.

Fixpoint trim_left (fuel : nat) (ps : list bytes) (s : bytes) : bytes :=
  match fuel with
  | O => s
  | S fuel' => match strip_any ps s with Some r => trim_left fuel' ps r | None => s end
  end.

(** [bytes.TrimSpace]: every removed space has at least one byte, so the length
    of the input bounds the number of rounds. *)
Definition TrimSpace (s : bytes) : bytes :=
  let l := trim_left (length s) space_encodings s in
  reverse (trim_left (length l) (map reverse space_encodings) (reverse l)).

(** [strconv.ParseInt(s, 10, 64)], its value when the error is [nil]. *)
Fixpoint parse_digits (acc : Z) (s : bytes) : option Z :=
  match s with
  | [] => Some acc
  | c :: s' =>
    if is_digit c then parse_digits (acc * 10 + (Z.of_N (N_of_ascii c) - 48)) s' else None
  end.

Definition ParseInt (s : bytes) : option Z :=
  let '(sign, ds) :=
    match s with
    | c :: rest => if isb "-" c then (-1, rest) else if isb "+" c then (1, rest) else (1, s)
    | [] => (1, [])
    end in
  match ds with
  | [] => None
  | _ => n ← parse_digits 0 ds;
         if (- 2 ^ 63 <=? sign * n) && (sign * n <=? 2 ^ 63 - 1) then Some (sign * n) else None
  end.

(** ** Decoded JSON

    [any] as [encoding/json] fills it with [UseNumber]; a [map[string]any] is the
    list of its entries with distinct keys. *)

Inductive JSON :=
| JNull
| JBool (b : bool)
| JNumber (literal : bytes)
| JString (s : string)
| JArray (elements : list JSON)
| JObject (entries : list (string * JSON)).

(** What [Decoder.Decode] answers: a value and the unread rest, [io.EOF], or
    another error. *)
Inductive DecodeResult :=
| Decoded (value : JSON) (rest : bytes)
| DecodeEOF
| DecodeError.

Fixpoint entry (m : list (string * JSON)) (key : string) : option JSON :=
  match m with
  | [] => None
  | (k, v) :: m' => if bool_decide (k = key) then Some v else entry m' key
  end.

(** The value of [object[key]]: the nil interface when the key is absent. *)
Definition member (m : list (string * JSON)) (key : string) : JSON := default JNull (entry m key).

Definition is_null (v : JSON) : bool := match v with JNull => true | _ => false end.

Definition parseTokenCount (value : JSON) : option Z :=
  match value with
  | JNumber literal =>
    parsed ← ParseInt literal;
    if 0 <=? parsed then Some parsed else None
  | _ => None
  end.

(** The keys of the two dialects: input, output and details. *)
Definition usage_keys (object : list (string * JSON)) : option (string * string * string) :=
  if bool_decide (is_Some (entry object "prompt_tokens")) ||
     bool_decide (is_Some (entry object "completion_tokens"))
  then Some ("prompt_tokens", "completion_tokens", "prompt_tokens_details")%string
  else if bool_decide (is_Some (entry object "input_tokens")) ||
          bool_decide (is_Some (entry object "output_tokens"))
  then Some ("input_tokens", "output_tokens", "input_tokens_details")%string
  else None.

(** The usage, whether it is valid, and whether validation failed. *)
Definition normalizeTokenUsage (value : JSON) : option TokenUsage * bool * bool :=
  match value with
  | JObject object =>
    match usage_keys object with
    | None => (None, false, true)
    | Some (inputKey, outputKey, detailsKey) =>
      match parseTokenCount (member object inputKey), parseTokenCount (member object outputKey) with
      | Some input, Some output =>
        let usage := {| du_InputTokens := input; du_OutputTokens := output; du_CacheReadTokens := None |} in
        match entry object detailsKey with
        | None | Some JNull => (Some usage, true, false)
        | Some (JObject details) =>
          match entry details "cached_tokens" with
          | None | Some JNull => (Some usage, true, false)
          | Some cacheValue =>
            match parseTokenCount cacheValue with
            | Some cache =>
              if input <? cache then (Some usage, true, true)
              else (Some {| usage with du_CacheReadTokens := Some cache |}, true, false)
            | None => (Some usage, true, true)
            end
          end
        | Some _ => (Some usage, true, true)
        end
      | _, _ => (None, false, true)
      end
    end
  | _ => (None, false, true)
  end.

(** [None]: no usage in this event. *)
Definition findAuthoritativeSSEUsage (root : JSON) : option JSON :=
  match root with
  | JObject object =>
    match entry object "usage" with
    | Some ((JBool _ | JNumber _ | JString _ | JArray _ | JObject _) as usage) => Some usage
    | _ =>
      match member object "type" with
      | JString "response.completed" =>
        match member object "response" with
        | JObject response => Some (member response "usage")
        | _ => Some JNull
        end
      | _ => None
      end
    end
  | _ => None
  end.

(** ** The inspector *)

Definition maxUsageCaptureSize : Z := Z.shiftl 64 10.

(** [len] *)
Abbreviation len s := (Z.of_nat (length s)) (only parsing).

Record usageInspector := {
  ui_format : string;
  ui_disabled : bool;
  ui_failed : bool;
  ui_finalized : bool;
  ui_usage : option TokenUsage;
  ui_jsonValidator : incrementalJSONValidator;
  ui_jsonInString : bool;
  ui_jsonEscaped : bool;
  ui_jsonStringMatches : bool;
  ui_jsonStringPosition : nat;
  ui_jsonStringIsTopKey : bool;
  ui_jsonUsageKey : bool;
  ui_jsonAwaitingValue : bool;
  ui_jsonCapturing : bool;
  ui_jsonCaptureBase : nat;
  ui_jsonCapture : bytes;
  ui_invalidUsageCandidate : bool;
  ui_sseEvent : bytes;
  ui_sseLineStart : nat
}.

Definition zeroInspector : usageInspector :=
  {| ui_format := ""; ui_disabled := false; ui_failed := false; ui_finalized := false; ui_usage := None;
     ui_jsonValidator := zeroValidator; ui_jsonInString := false; ui_jsonEscaped := false;
     ui_jsonStringMatches := false; ui_jsonStringPosition := 0; ui_jsonStringIsTopKey := false;
     ui_jsonUsageKey := false; ui_jsonAwaitingValue := false; ui_jsonCapturing := false;
     ui_jsonCaptureBase := 0; ui_jsonCapture := []; ui_invalidUsageCandidate := false;
     ui_sseEvent := []; ui_sseLineStart := 0 |}.

Definition disableInspection (i : usageInspector) : usageInspector :=
  {| i with ui_disabled := true; ui_failed := true; ui_usage := None; ui_jsonCapture := []; ui_sseEvent := [] |}.

Definition consumeNormalizedUsage (i : usageInspector) (value : JSON) : usageInspector :=
  let '(usage, valid, validationFailed) := normalizeTokenUsage value in
  let i := if validationFailed then {| i with ui_failed := true |} else i in
  if negb valid then {| i with ui_invalidUsageCandidate := true; ui_usage := None |}
  else if negb (ui_invalidUsageCandidate i) then {| i with ui_usage := usage |} else i.

(** The new state and whether there was room. *)
Definition appendJSONCapture (i : usageInspector) (current : ascii) : usageInspector * bool :=
  if bool_decide (len (ui_jsonCapture i) = maxUsageCaptureSize) then (disableInspection i, false)
  else ({| i with ui_jsonCapture := ui_jsonCapture i ++ [current] |}, true).

Definition usageKey : bytes := of_string "usage".

(** The first part of the loop body of [writeJSON]: from the key [usage] to the
    brace that opens its value. *)
Definition track_usage_key (i : usageInspector) (current : ascii) : usageInspector * bool :=
  if negb (ui_jsonInString i) && negb (ui_jsonCapturing i) && ui_jsonUsageKey i &&
     negb (isJSONWhitespace current) then
    let i := {| i with ui_jsonUsageKey := false |} in
    (if isb ":" current then {| i with ui_jsonAwaitingValue := true |} else i, true)
  else if negb (ui_jsonInString i) && negb (ui_jsonCapturing i) && ui_jsonAwaitingValue i &&
          negb (isJSONWhitespace current) then
    let i := {| i with ui_jsonAwaitingValue := false |} in
    if isb "{" current then
      appendJSONCapture
        {| i with ui_jsonCapturing := true; ui_jsonCaptureBase := jv_depth (ui_jsonValidator i);
                  ui_jsonCapture := [] |} current
    else ({| i with ui_failed := true; ui_invalidUsageCandidate := true; ui_usage := None |}, true)
  else (i, true).

(** The loop body inside a string. *)
Definition track_in_string (i : usageInspector) (current : ascii) : usageInspector :=
  if ui_jsonEscaped i then {| i with ui_jsonEscaped := false; ui_jsonStringMatches := false |}
  else if isb "\" current then {| i with ui_jsonEscaped := true; ui_jsonStringMatches := false |}
  else if isb QUOTE current then
    let i := {| i with ui_jsonInString := false |} in
    if negb (ui_jsonCapturing i) && ui_jsonStringIsTopKey i
    then {| i with ui_jsonUsageKey :=
                     ui_jsonStringMatches i && bool_decide (ui_jsonStringPosition i = length usageKey) |}
    else i
  else
    let i :=
      if ui_jsonStringMatches i && negb (bool_decide (usageKey !! ui_jsonStringPosition i = Some current))
      then {| i with ui_jsonStringMatches := false |} else i in
    {| i with ui_jsonStringPosition := S (ui_jsonStringPosition i) |}.

Section Decoder.
Context (Decode : bytes -> DecodeResult).

Definition decodeJSONValue (data : bytes) : option JSON :=
  match Decode data with
  | Decoded value rest => match Decode rest with DecodeEOF => Some value | _ => None end
  | _ => None
  end.

Definition consumeUsageObject (i : usageInspector) (object : bytes) : usageInspector :=
  match decodeJSONValue object with
  | None => {| i with ui_failed := true |}
  | Some value => consumeNormalizedUsage i value
  end.

(** The loop body outside strings, after the validator's step. *)
Definition track_structure (i : usageInspector) (current : ascii) (startsTopLevelKey : bool) (op : jsonScanOp)
    : usageInspector :=
  let i :=
    if isb QUOTE current then
      {| i with ui_jsonInString := true; ui_jsonEscaped := false; ui_jsonStringMatches := startsTopLevelKey;
                ui_jsonStringPosition := 0; ui_jsonStringIsTopKey := startsTopLevelKey |}
    else i in
  if ui_jsonCapturing i && bool_decide (op = jsonScanEndObject) &&
     bool_decide (jv_depth (ui_jsonValidator i) = ui_jsonCaptureBase i) then
    let i := {| i with ui_jsonCapturing := false |} in
    let i := consumeUsageObject i (ui_jsonCapture i) in
    {| i with ui_jsonCapture := [] |}
  else i.

(** The loop body of [writeJSON]; [true] when it returns from the function. *)
Definition json_byte (i : usageInspector) (current : ascii) : option (usageInspector * bool) :=
  if ui_disabled i then Some (i, true)
  else
    let '(i, ok) := if ui_jsonCapturing i then appendJSONCapture i current else (i, true) in
    if negb ok then Some (i, true)
    else
      let startsTopLevelKey :=
        negb (ui_jsonInString i) && isb QUOTE current && expectsTopLevelObjectKey (ui_jsonValidator i) in
      let '(i, ok) := track_usage_key i current in
      if negb ok then Some (i, true)
      else
        '(v, op) ← stepByte (ui_jsonValidator i) current;
        let i := {| i with ui_jsonValidator := v |} in
        if bool_decide (op = jsonScanError) then Some (disableInspection i, true)
        else if ui_jsonInString i then Some (track_in_string i current, false)
        else Some (track_structure i current startsTopLevelKey op, false).

Fixpoint writeJSON (i : usageInspector) (data : bytes) : option usageInspector :=
  match data with
  | [] => Some i
  | current :: data' =>
    '(i', return_) ← json_byte i current;
    if (return_ : bool) then Some i' else writeJSON i' data'
  end.

(** The value of a [data] line, if it is one. *)
Definition sse_data (line : bytes) : option bytes :=
  let line := TrimSuffixCR line in
  match line with
  | [] => None
  | c :: _ =>
    if isb ":" c then None
    else
      let '(field, value) := match CutColon line with Some fv => fv | None => (line, []) end in
      if negb (bool_decide (field = of_string "data")) then None
      else Some (match value with
                 | b :: rest => if isb " " b then rest else value
                 | [] => value
                 end)
  end.

Definition consumeSSEEvent (i : usageInspector) (event : bytes) : usageInspector :=
  match omap sse_data (SplitLF event) with
  | [] => i
  | dataLines =>
    let payload := JoinLF dataLines in
    if bool_decide (TrimSpace payload = of_string "[DONE]") then i
    else match decodeJSONValue payload with
         | None => {| i with ui_failed := true |}
         | Some value =>
           match findAuthoritativeSSEUsage value with
           | None => i
           | Some candidate => consumeNormalizedUsage i candidate
           end
         end
  end.

(** [s[lo:hi]] *)
Definition slice (s : bytes) (lo hi : nat) : option bytes :=
  if ((lo <=? hi) && (hi <=? length s))%nat then Some (take (hi - lo) (drop lo s)) else None.

Definition sse_byte (i : usageInspector) (current : ascii) : option (usageInspector * bool) :=
  if bool_decide (len (ui_sseEvent i) = maxUsageCaptureSize) then Some (disableInspection i, true)
  else
    let i := {| i with ui_sseEvent := ui_sseEvent i ++ [current] |} in
    if negb (isb LF current) then Some (i, false)
    else
      line ← slice (ui_sseEvent i) (ui_sseLineStart i) (length (ui_sseEvent i) - 1);
      if negb (bool_decide (TrimSuffixCR line = []))
      then Some ({| i with ui_sseLineStart := length (ui_sseEvent i) |}, false)
      else
        event ← slice (ui_sseEvent i) 0 (ui_sseLineStart i);
        let i := consumeSSEEvent i event in
        Some ({| i with ui_sseEvent := []; ui_sseLineStart := 0 |}, false).

Fixpoint writeSSE (i : usageInspector) (data : bytes) : option usageInspector :=
  match data with
  | [] => Some i
  | current :: data' =>
    '(i', return_) ← sse_byte i current;
    if (return_ : bool) then Some i' else writeSSE i' data'
  end.

Definition Write (i : usageInspector) (data : bytes) : option usageInspector :=
  if ui_disabled i || ui_finalized i || bool_decide (data = []) then Some i
  else if bool_decide (ui_format i = "json"%string) then writeJSON i data
  else if bool_decide (ui_format i = "sse"%string) then writeSSE i data
  else Some i.

(** The body of [if !i.finalized] in [Result]. *)
Definition finalize (i : usageInspector) : option usageInspector :=
  let i := {| i with ui_finalized := true |} in
  if bool_decide (ui_format i = "json"%string) then
    '(v, ok) ← eof (ui_jsonValidator i);
    let i := {| i with ui_jsonValidator := v |} in
    Some (if negb ok then {| i with ui_failed := true; ui_usage := None |} else i)
  else if bool_decide (ui_format i = "sse"%string) then
    Some (if negb (ui_disabled i) && negb (bool_decide (ui_sseEvent i = [])) then
            let i := consumeSSEEvent i (ui_sseEvent i) in
            {| i with ui_sseEvent := []; ui_sseLineStart := 0 |}
          else i)
  else Some i.

(** The usage, the format whose inspection failed ([""] if it did not), and
    whether it failed. *)
Definition Result (i : usageInspector)
    : option (usageInspector * (option TokenUsage * string * bool)) :=
  i ← (if ui_finalized i then Some i else finalize i);
  Some (i, if ui_failed i then (ui_usage i, ui_format i, true) else (ui_usage i, ""%string, false)).

End Decoder.

(** ** Construction *)

Section New.
Context (ParseMediaType : string -> option string) (ToLower : string -> string).

Definition HasSuffix (s suffix : string) : bool :=
  let n := String.length s in
  let k := String.length suffix in
  (k <=? n)%nat && bool_decide (String.substring (n - k) k s = suffix).

Definition newUsageInspector (contentType : string) : usageInspector :=
  match ParseMediaType contentType with
  | None => zeroInspector
  | Some mediaType =>
    let mediaType := ToLower mediaType in
    if bool_decide (mediaType = "text/event-stream"%string)
    then {| zeroInspector with ui_format := "sse" |}
    else if bool_decide (mediaType = "application/json"%string) || HasSuffix mediaType "+json"
    then {| zeroInspector with ui_format := "json"; ui_jsonValidator := reset zeroValidator |}
    else zeroInspector
  end.
End New.

(** ** Invariant *)

Definition usage_ok (u : TokenUsage) : Prop :=
  0 <= du_InputTokens u < 2 ^ 63 /\ 0 <= du_OutputTokens u < 2 ^ 63 /\
  forall c, du_CacheReadTokens u = Some c -> 0 <= c <= du_InputTokens u.

Record inspector_ok (i : usageInspector) : Prop := {
  ok_capture : len (ui_jsonCapture i) <= maxUsageCaptureSize;
  ok_event : len (ui_sseEvent i) <= maxUsageCaptureSize;
  ok_line : ui_disabled i = false -> (ui_sseLineStart i <= length (ui_sseEvent i))%nat;
  ok_validator : jv_failed (ui_jsonValidator i) = true \/ exists stk, rel (ui_jsonValidator i) stk;
  ok_disabled : ui_disabled i = true -> ui_failed i = true /\ ui_usage i = None;
  ok_usage : forall u, ui_usage i = Some u -> usage_ok u
}.

(** [j] is [i] with another verdict: the fields the consumption of a usage
    object leaves alone, and the verdict that only gets worse. *)
Record same_input (i j : usageInspector) : Prop := {
  si_format : ui_format j = ui_format i;
  si_disabled : ui_disabled j = ui_disabled i;
  si_finalized : ui_finalized j = ui_finalized i;
  si_validator : ui_jsonValidator j = ui_jsonValidator i;
  si_event : ui_sseEvent j = ui_sseEvent i;
  si_line : ui_sseLineStart j = ui_sseLineStart i;
  si_failed : ui_failed i = true -> ui_failed j = true
}.

Lemma ParseInt_range s n : ParseInt s = Some n -> - 2 ^ 63 <= n <= 2 ^ 63 - 1.
Proof.
  unfold ParseInt. intros H.
  destruct (match s with [] => _ | _ => _ end) as [sign ds]. destruct ds; [done|].
  destruct (parse_digits 0 _) as [m|]; [|done]. cbn [mbind option_bind] in H.
  destruct (_ && _) eqn:E in H; [|done]. injection H as <-. b2p. lia.
Qed.

Lemma parseTokenCount_range v n : parseTokenCount v = Some n -> 0 <= n < 2 ^ 63.
Proof.
  destruct v as [| |lit| | |]; try done. cbn [parseTokenCount]. destruct (ParseInt lit) as [m|] eqn:E; [|done].
  cbn [mbind option_bind]. apply ParseInt_range in E. destruct (0 <=? m) eqn:E0; [|done].
  intros [= <-]. b2p. lia.
Qed.

Lemma normalizeTokenUsage_ok value u valid failed :
  normalizeTokenUsage value = (Some u, valid, failed) -> usage_ok u.
Proof.
  unfold normalizeTokenUsage. intros H.
  destruct value as [| | | | |object]; try done. destruct (usage_keys object) as [[[ik ok] dk]|]; [|done].
  destruct (parseTokenCount (member object ik)) as [input|] eqn:Hi; [|done].
  destruct (parseTokenCount (member object ok)) as [output|] eqn:Ho; [|done].
  apply parseTokenCount_range in Hi, Ho.
  assert (Hplain : usage_ok {| du_InputTokens := input; du_OutputTokens := output; du_CacheReadTokens := None |}).
  { by split_and!; cbn; [lia..|]. }
  destruct (entry object dk) as [[| | | | |details]|]; simplify_eq; try done.
  destruct (entry details "cached_tokens") as [cv|]; [|by simplify_eq].
  destruct (is_null cv) eqn:Hn; [destruct cv; by simplify_eq|].
  destruct (parseTokenCount cv) as [cache|] eqn:Hc; [|destruct cv; by simplify_eq].
  apply parseTokenCount_range in Hc. destruct (input <? cache) eqn:Hlt; [destruct cv; by simplify_eq|].
  assert (Hfull : usage_ok {| du_InputTokens := input; du_OutputTokens := output; du_CacheReadTokens := Some cache |}).
  { b2p. split_and!; cbn; [lia..|]. intros c [= <-]. lia. }
  destruct cv; by simplify_eq.
Qed.

Lemma consumeNormalizedUsage_same i v : same_input i (consumeNormalizedUsage i v).
Proof.
  unfold consumeNormalizedUsage. destruct (normalizeTokenUsage v) as [[u valid] failed].
  destruct failed, valid; cbn [negb]; destruct (ui_invalidUsageCandidate i) eqn:E; cbn; rewrite ?E; by constructor.
Qed.

Lemma consumeNormalizedUsage_ok i v :
  ui_disabled i = false -> inspector_ok i -> inspector_ok (consumeNormalizedUsage i v).
Proof.
  intros Hd [H1 H2 H3 H4 H5 H6]. unfold consumeNormalizedUsage.
  destruct (normalizeTokenUsage v) as [[u valid] failed] eqn:E.
  assert (Hu : forall x, u = Some x -> usage_ok x) by (intros x ->; by apply normalizeTokenUsage_ok in E).
  destruct failed, valid; cbn [negb]; destruct (ui_invalidUsageCandidate i) eqn:Ei; cbn; rewrite ?Ei;
    constructor; cbn; (done || by rewrite Hd).
Qed.

Lemma disableInspection_ok i : inspector_ok i -> inspector_ok (disableInspection i).
Proof. intros [H1 H2 H3 H4 H5 H6]. constructor; cbn; try done; lia. Qed.

Lemma appendJSONCapture_ok i c : inspector_ok i -> inspector_ok (appendJSONCapture i c).1.
Proof.
  intros Hi. unfold appendJSONCapture. case_bool_decide as Hlen; [by apply disableInspection_ok|].
  destruct Hi as [H1 H2 H3 H4 H5 H6]. constructor; cbn; try done. rewrite length_app. cbn. lia.
Qed.

Lemma appendJSONCapture_same i c :
  (appendJSONCapture i c).2 = true -> same_input i (appendJSONCapture i c).1.
Proof. unfold appendJSONCapture. case_bool_decide; [done|]. by constructor. Qed.

Lemma appendJSONCapture_full i c :
  (appendJSONCapture i c).2 = false -> ui_disabled (appendJSONCapture i c).1 = true /\ ui_failed (appendJSONCapture i c).1 = true.
Proof. unfold appendJSONCapture. by case_bool_decide. Qed.

Lemma track_usage_key_spec i c :
  inspector_ok i ->
  let j := (track_usage_key i c).1 in
  inspector_ok j /\ ui_format j = ui_format i /\
  if (track_usage_key i c).2 then same_input i j else ui_disabled j = true /\ ui_failed j = true.
Proof.
  intros Hi. unfold track_usage_key. destruct (_ && _) eqn:E1; [|clear E1; destruct (_ && _) eqn:E2].
  - destruct Hi as [H1 H2 H3 H4 H5 H6]. destruct (isb ":" c); cbn; split_and!; by constructor.
  - destruct (isb "{" c).
    + set (i1 := {| i with ui_jsonAwaitingValue := false; ui_jsonCapturing := true;
        ui_jsonCaptureBase := jv_depth (ui_jsonValidator i); ui_jsonCapture := [] |}).
      assert (Hok1 : inspector_ok i1) by (destruct Hi; constructor; cbn; try done; lia).
      change (inspector_ok (appendJSONCapture i1 c).1 /\ ui_format (appendJSONCapture i1 c).1 = ui_format i1 /\
        if (appendJSONCapture i1 c).2 then same_input i (appendJSONCapture i1 c).1
        else ui_disabled (appendJSONCapture i1 c).1 = true /\ ui_failed (appendJSONCapture i1 c).1 = true).
      split_and!; [by apply appendJSONCapture_ok|unfold appendJSONCapture; by case_bool_decide|].
      destruct (appendJSONCapture i1 c).2 eqn:E; [|by apply appendJSONCapture_full].
      apply appendJSONCapture_same in E as []. by constructor.
    + destruct Hi as [H1 H2 H3 H4 H5 H6]. cbn. split_and!; by constructor.
  - cbn. split_and!; [done|done|]. by constructor.
Qed.

Lemma track_in_string_spec i c :
  inspector_ok i -> inspector_ok (track_in_string i c) /\ same_input i (track_in_string i c).
Proof.
  intros [H1 H2 H3 H4 H5 H6]. unfold track_in_string. repeat case_match; cbn; split; by constructor.
Qed.

Section Proofs.
Context (Decode : bytes -> DecodeResult).

Lemma consumeUsageObject_spec i o :
  ui_disabled i = false -> inspector_ok i -> inspector_ok (consumeUsageObject Decode i o) /\ same_input i (consumeUsageObject Decode i o).
Proof.
  intros Hd Hi. unfold consumeUsageObject. destruct (decodeJSONValue Decode o) as [v|].
  - auto using consumeNormalizedUsage_ok, consumeNormalizedUsage_same.
  - destruct Hi. split; constructor; (done || cbn; by rewrite Hd).
Qed.

Lemma track_structure_spec i c b op :
  ui_disabled i = false -> inspector_ok i -> inspector_ok (track_structure Decode i c b op) /\ same_input i (track_structure Decode i c b op).
Proof.
  intros Hd Hi. unfold track_structure. cbn zeta.
  set (i1 := if isb QUOTE c then _ else i).
  assert (H1 : inspector_ok i1 /\ same_input i i1).
  { unfold i1. destruct Hi. destruct (isb QUOTE c); split; by constructor. }
  clearbody i1. destruct H1 as [Hok Hs]. destruct (_ && _); [|done].
  set (i2 := {| i1 with ui_jsonCapturing := false |}).
  assert (Hok2 : inspector_ok i2) by by destruct Hok; constructor.
  assert (Hd2 : ui_disabled i2 = false) by (destruct Hs; cbn; congruence).
  destruct (consumeUsageObject_spec i2 (ui_jsonCapture i2) Hd2 Hok2) as [Hok3 Hs3].
  set (i3 := consumeUsageObject _ _ _) in *. destruct Hok3 as [G1 G2 G3 G4 G5 G6], Hs3, Hs. split.
  - constructor; cbn; try done; lia.
  - constructor; cbn; (etrans; [by eassumption|done]) || auto.
Qed.

Lemma stepByte_total v c :
  jv_failed v = true \/ (exists stk, rel v stk) ->
  exists v' op, stepByte v c = Some (v', op) /\ (jv_failed v' = true \/ exists stk, rel v' stk).
Proof.
  intros [Hf|[stk Hr]].
  - exists v, jsonScanError. unfold stepByte. rewrite Hf. auto.
  - pose proof (stepByte_refines v stk c Hr) as H. destruct (astep _ _ _) as [[st' stk']|].
    + destruct H as (v' & op & -> & _ & _ & Hr'). eauto 6.
    + destruct H as (v' & -> & Hf). eauto 6.
Qed.

Lemma with_validator_ok i v :
  inspector_ok i -> jv_failed v = true \/ (exists stk, rel v stk) -> inspector_ok {| i with ui_jsonValidator := v |}.
Proof. intros [H1 H2 H3 H4 H5 H6] Hv. by constructor. Qed.

(** What a byte of a body does to the inspector, in the JSON and the SSE format. *)
Record byte_spec (i j : usageInspector) (stop : bool) : Prop := {
  bs_ok : inspector_ok j;
  bs_format : ui_format j = ui_format i;
  bs_finalized : ui_finalized j = ui_finalized i;
  bs_disabled : ui_disabled j = stop;
  bs_failed : ui_failed i = true -> ui_failed j = true
}.

Lemma disable_spec i j :
  inspector_ok j -> ui_format j = ui_format i -> ui_finalized j = ui_finalized i ->
  byte_spec i (disableInspection j) true.
Proof. intros. constructor; [by apply disableInspection_ok|done..]. Qed.

Lemma appendJSONCapture_fields i c :
  ui_format (appendJSONCapture i c).1 = ui_format i /\ ui_finalized (appendJSONCapture i c).1 = ui_finalized i.
Proof. unfold appendJSONCapture. by case_bool_decide. Qed.

Lemma track_usage_key_finalized i c : ui_finalized (track_usage_key i c).1 = ui_finalized i.
Proof.
  unfold track_usage_key, appendJSONCapture. by repeat case_match.
Qed.

Lemma json_byte_spec i c :
  inspector_ok i -> ui_disabled i = false ->
  exists j stop, json_byte Decode i c = Some (j, stop) /\ byte_spec i j stop /\
    (stop = false -> exists op, stepByte (ui_jsonValidator i) c = Some (ui_jsonValidator j, op)).
Proof.
  intros Hi Hd. unfold json_byte. rewrite Hd.
  set (a := if ui_jsonCapturing i then appendJSONCapture i c else (i, true)).
  assert (Ha : inspector_ok a.1 /\ ui_format a.1 = ui_format i /\ ui_finalized a.1 = ui_finalized i /\
    if a.2 then same_input i a.1 else ui_disabled a.1 = true /\ ui_failed a.1 = true).
  { unfold a. destruct (ui_jsonCapturing i); [|by split_and!; [..|constructor]].
    destruct (appendJSONCapture_fields i c). split_and!; [by apply appendJSONCapture_ok|done..|].
    destruct (appendJSONCapture i c).2 eqn:E; [by apply appendJSONCapture_same|by apply appendJSONCapture_full]. }
  destruct a as [i1 ok1]. cbn [fst snd] in Ha. destruct Ha as (Hok1 & Hfm1 & Hfin1 & H1).
  destruct ok1; cbn [negb]; [|exists i1, true; split; [done|split; [|done]]; by destruct H1; constructor; auto].
  destruct (track_usage_key_spec i1 c Hok1) as (Hok2 & Hfm2 & H2).
  pose proof (track_usage_key_finalized i1 c) as Hfin2.
  destruct (track_usage_key i1 c) as [i2 ok2]. cbn [fst snd] in *.
  destruct ok2; cbn [negb];
    [|exists i2, true; split; [done|split; [|done]]; destruct H2; constructor; congruence || done].
  destruct (stepByte_total (ui_jsonValidator i2) c) as (v & op & Hstep & Hv); [apply Hok2|].
  rewrite Hstep. cbn [mbind option_bind].
  assert (Hok3 := with_validator_ok i2 v Hok2 Hv). set (i3 := {| i2 with ui_jsonValidator := v |}) in *.
  case_bool_decide as Hop.
  { exists (disableInspection i3), true. split; [done|]. split; [|done].
    apply disable_spec; [done|cbn; congruence..]. }
  assert (Hfin : forall j, inspector_ok j -> same_input i3 j -> byte_spec i j false /\
    (false = false -> exists op, stepByte (ui_jsonValidator i) c = Some (ui_jsonValidator j, op))).
  { intros j Hj Hs. destruct H1 as [? ? ? Hv1 ? ? Hf1], H2 as [? ? ? Hv2 ? ? Hf2], Hs as [? ? ? Hv3 ? ? Hf3].
    cbn in *. split; [constructor; congruence || auto|]. intros _. exists op. by rewrite <- Hv1, <- Hv2, Hv3. }
  assert (Hd3 : ui_disabled i3 = false) by (destruct H1, H2; cbn; congruence).
  destruct (ui_jsonInString i3); eexists _, false; (split; [done|]); apply Hfin;
    first [apply track_in_string_spec|apply track_structure_spec]; done.
Qed.

(** The bytes of a JSON body go through the validator one after the other. *)
Lemma writeJSON_spec data : forall i,
  inspector_ok i -> ui_disabled i = false ->
  exists j, writeJSON Decode i data = Some j /\ inspector_ok j /\ ui_format j = ui_format i /\
    ui_finalized j = ui_finalized i /\ (ui_failed i = true -> ui_failed j = true) /\
    (ui_disabled j = false -> steps (ui_jsonValidator i) data = Some (ui_jsonValidator j)).
Proof.
  induction data as [|c data IH]; intros i Hi Hd; [exists i; auto 6|].
  cbn [writeJSON]. destruct (json_byte_spec i c Hi Hd) as (j & stop & -> & [Hok Hfm Hfin Hdis Hf] & Hstep).
  cbn [mbind option_bind]. destruct stop.
  - exists j. split_and!; [done..|]. by rewrite Hdis.
  - destruct (IH j Hok Hdis) as (k & -> & Hk & Hfm' & Hfin' & Hf' & Hs').
    exists k. split_and!; [done|done|congruence|congruence|auto|].
    intros Hdk. destruct (Hstep eq_refl) as [op Hop]. cbn [steps]. rewrite Hop. by apply Hs'.
Qed.

Lemma consumeSSEEvent_spec i e :
  ui_disabled i = false -> inspector_ok i -> inspector_ok (consumeSSEEvent Decode i e) /\ same_input i (consumeSSEEvent Decode i e).
Proof.
  intros Hd Hi. unfold consumeSSEEvent.
  assert (Hfail : inspector_ok {| i with ui_failed := true |} /\ same_input i {| i with ui_failed := true |}).
  { destruct Hi. split; constructor; (done || cbn; by rewrite Hd). }
  assert (Hself : inspector_ok i /\ same_input i i) by by split; [|constructor].
  repeat case_match; try done. auto using consumeNormalizedUsage_ok, consumeNormalizedUsage_same.
Qed.

Lemma clear_event_ok i : inspector_ok i -> inspector_ok {| i with ui_sseEvent := []; ui_sseLineStart := 0 |}.
Proof. intros [H1 H2 H3 H4 H5 H6]. constructor; cbn; try done; lia. Qed.

Lemma slice_ok s lo hi :
  (lo <= hi)%nat -> (hi <= length s)%nat -> slice s lo hi = Some (take (hi - lo) (drop lo s)).
Proof. intros. unfold slice. by rewrite !(proj2 (Nat.leb_le _ _)). Qed.

Lemma sse_byte_spec i c :
  inspector_ok i -> ui_disabled i = false ->
  exists j stop, sse_byte Decode i c = Some (j, stop) /\ byte_spec i j stop.
Proof.
  intros Hi Hd. unfold sse_byte. case_bool_decide as Hlen.
  { eexists _, true. split; [done|]. by apply disable_spec. }
  pose proof Hi as [H1 H2 H3 H4 H5 H6]. specialize (H3 Hd).
  set (i1 := {| i with ui_sseEvent := ui_sseEvent i ++ [c] |}).
  assert (Hn : length (ui_sseEvent i1) = S (length (ui_sseEvent i))) by (cbn; rewrite length_app; cbn; lia).
  assert (Hok1 : inspector_ok i1) by (constructor; try done; [lia|cbn -[app] in *; lia]).
  destruct (isb LF c); cbn [negb]; [|exists i1, false; split; [done|by constructor]].
  change (ui_sseLineStart i1) with (ui_sseLineStart i).
  rewrite !slice_ok by lia. cbn [mbind option_bind].
  case_bool_decide as Hline; cbn [negb].
  - match goal with |- context [consumeSSEEvent _ i1 ?e] => destruct (consumeSSEEvent_spec i1 e Hd Hok1) as [Hc [? ? ? ? ? ? ?]] end.
    eexists _, false. split; [done|]. constructor; [by apply clear_event_ok|cbn in *; congruence || auto..].
  - eexists _, false. split; [done|]. constructor; [|done..]. destruct Hok1. by constructor.
Qed.

Lemma writeSSE_spec data : forall i,
  inspector_ok i -> ui_disabled i = false ->
  exists j, writeSSE Decode i data = Some j /\ inspector_ok j /\ ui_format j = ui_format i /\
    ui_finalized j = ui_finalized i /\ (ui_failed i = true -> ui_failed j = true).
Proof.
  induction data as [|c data IH]; intros i Hi Hd; [exists i; auto 6|].
  cbn [writeSSE]. destruct (sse_byte_spec i c Hi Hd) as (j & stop & -> & [Hok Hfm Hfin Hdis Hf]).
  cbn [mbind option_bind]. destruct stop; [exists j; by split_and!|].
  destruct (IH j Hok Hdis) as (k & -> & Hk & Hfm' & Hfin' & Hf').
  exists k. split_and!; [done|done|congruence|congruence|auto].
Qed.

Lemma Write_spec i data :
  inspector_ok i ->
  exists j, Write Decode i data = Some j /\ inspector_ok j /\ ui_format j = ui_format i /\
    ui_finalized j = ui_finalized i /\ (ui_failed i = true -> ui_failed j = true).
Proof.
  intros Hi. unfold Write. destruct (ui_disabled i) eqn:Hd; cbn [orb]; [exists i; auto 6|].
  destruct (_ || _); [exists i; auto 6|].
  case_bool_decide; [|case_bool_decide; [by apply writeSSE_spec|exists i; auto 6]].
  destruct (writeJSON_spec data i Hi Hd) as (j & ? & ? & ? & ? & ? & _). exists j. by split_and!.
Qed.
Lemma eof_total v :
  jv_failed v = true \/ (exists stk, rel v stk) ->
  exists v' b, eof v = Some (v', b) /\ (jv_failed v' = true \/ exists stk, rel v' stk).
Proof.
  intros Hv. unfold eof. destruct (jv_failed v) eqn:Hf; [eauto|].
  destruct (jv_endTop v); [exists v, true; by rewrite Hf|].
  rewrite <- Hf in Hv. destruct (stepByte_total v " " Hv) as (v' & op & -> & Hv'). cbn [mbind option_bind]. eauto.
Qed.

Lemma finalize_spec i :
  inspector_ok i ->
  exists j, finalize Decode i = Some j /\ inspector_ok j /\ ui_finalized j = true /\ ui_format j = ui_format i /\
    (ui_failed i = true -> ui_failed j = true) /\
    (ui_format i = "json"%string ->
      (ui_disabled i = true -> ui_failed j = true /\ ui_usage j = None) /\
      forall v, eof (ui_jsonValidator i) = Some (v, false) -> ui_failed j = true /\ ui_usage j = None).
Proof.
  intros Hi. unfold finalize. set (i1 := {| i with ui_finalized := true |}).
  assert (Hok1 : inspector_ok i1) by by destruct Hi; constructor.
  case_bool_decide as Hj; [|case_bool_decide as Hs].
  - destruct (eof_total _ (ok_validator _ Hok1)) as (v & b & Hb & Hv). rewrite Hb. cbn [mbind option_bind].
    pose proof (with_validator_ok _ _ Hok1 Hv) as Hok2. pose proof (ok_disabled _ Hi) as Hdis.
    eexists. split; [done|]. destruct b; cbn [negb]; split_and!; try done.
    + intros _. split; [done|]. intros v' Hv'. change (eof (ui_jsonValidator i1) = Some (v', false)) in Hv'. congruence.
    + destruct Hok2. constructor; cbn; by auto.
  - eexists. split; [done|]. destruct (negb (ui_disabled i1) && _) eqn:E.
    + b2p. destruct (consumeSSEEvent_spec i1 (ui_sseEvent i1)) as [Hc [? ? ? ? ? ? ?]]; [done..|].
      split_and!; [by apply clear_event_ok|done..|]. intros Hjs. by destruct Hj.
    + split_and!; [done..|]. intros Hjs. by destruct Hj.
  - exists i1. split_and!; [done..|]. intros Hjs. by destruct Hj.
Qed.

Lemma Result_finalized i :
  ui_finalized i = true ->
  Result Decode i = Some (i, if ui_failed i then (ui_usage i, ui_format i, true) else (ui_usage i, ""%string, false)).
Proof. intros Hf. unfold Result. by rewrite Hf. Qed.

Lemma Result_spec i :
  inspector_ok i -> ui_finalized i = false ->
  exists j r, Result Decode i = Some (j, r) /\ inspector_ok j /\ ui_finalized j = true /\
    Result Decode j = Some (j, r) /\ finalize Decode i = Some j /\
    r = if ui_failed j then (ui_usage j, ui_format j, true) else (ui_usage j, ""%string, false).
Proof.
  intros Hi Hf. destruct (finalize_spec i Hi) as (j & Hj & Hok & Hfin & _).
  unfold Result at 1. rewrite Hf, Hj. cbn [mbind option_bind].
  eexists j, _. split_and!; [done..|by apply Result_finalized|done|done].
Qed.

Context (ParseMediaType : string -> option string) (ToLower : string -> string).
Abbreviation new := (newUsageInspector ParseMediaType ToLower) (only parsing).

Lemma reset_zero_rel : rel (reset zeroValidator) [].
Proof. exact reset_rel. Qed.

Lemma zero_rel : rel zeroValidator [].
Proof. exact reset_rel. Qed.

Lemma new_ok ct : inspector_ok (new ct) /\ ui_finalized (new ct) = false /\ ui_disabled (new ct) = false /\
  ui_jsonValidator (new ct) = zeroValidator.
Proof.
  unfold newUsageInspector.
  assert (Hz : forall f, inspector_ok {| zeroInspector with ui_format := f |}).
  { intros f. constructor; cbn; try done; [lia..|]. right. exists []. apply zero_rel. }
  repeat case_match; split_and!; try done; apply Hz.
Qed.

Lemma Write_nil i : Write Decode i [] = Some i.
Proof. unfold Write. rewrite bool_decide_eq_true_2 by done. by rewrite orb_true_r. Qed.

Lemma Write_on i d :
  ui_disabled i = false -> ui_finalized i = false -> d <> [] ->
  Write Decode i d =
  if bool_decide (ui_format i = "json"%string) then writeJSON Decode i d
  else if bool_decide (ui_format i = "sse"%string) then writeSSE Decode i d else Some i.
Proof. intros Hd Hf Hne. unfold Write. by rewrite Hd, Hf, (bool_decide_eq_false_2 _ Hne). Qed.

Lemma writeJSON_app a : forall i b,
  inspector_ok i -> ui_disabled i = false -> ui_finalized i = false -> ui_format i = "json"%string ->
  writeJSON Decode i (a ++ b) = writeJSON Decode i a ≫= fun j => Write Decode j b.
Proof.
  induction a as [|c a IH]; intros i b Hi Hd Hf Hj; cbn [app writeJSON mbind option_bind].
  - unfold Write. rewrite Hd, Hf, Hj. cbn [orb]. by case_bool_decide; subst.
  - destruct (json_byte_spec i c Hi Hd) as (j & stop & -> & [Hok Hfm Hfin Hdis _] & _). cbn [mbind option_bind].
    destruct stop; [cbn [mbind option_bind]; unfold Write; by rewrite Hdis|]. apply IH; congruence || done.
Qed.

Lemma writeSSE_app a : forall i b,
  inspector_ok i -> ui_disabled i = false -> ui_finalized i = false -> ui_format i = "sse"%string ->
  writeSSE Decode i (a ++ b) = writeSSE Decode i a ≫= fun j => Write Decode j b.
Proof.
  induction a as [|c a IH]; intros i b Hi Hd Hf Hj; cbn [app writeSSE mbind option_bind].
  - unfold Write. rewrite Hd, Hf, Hj. cbn [orb]. by case_bool_decide; subst.
  - destruct (sse_byte_spec i c Hi Hd) as (j & stop & -> & [Hok Hfm Hfin Hdis _]). cbn [mbind option_bind].
    destruct stop; [cbn [mbind option_bind]; unfold Write; by rewrite Hdis|]. apply IH; congruence || done.
Qed.

Lemma Write_app i a b :
  inspector_ok i -> Write Decode i (a ++ b) = Write Decode i a ≫= fun j => Write Decode j b.
Proof.
  intros Hi. destruct (ui_disabled i || ui_finalized i) eqn:Hoff.
  { assert (Hw : forall d, Write Decode i d = Some i) by (intros d; unfold Write; by rewrite Hoff).
    rewrite !Hw. cbn [mbind option_bind]. by rewrite Hw. }
  b2p. rename H into Hd, H0 into Hf. destruct a as [|c a].
  { by rewrite Write_nil. }
  rewrite !(Write_on i) by done.
  case_bool_decide; [by apply writeJSON_app|]. case_bool_decide; [by apply writeSSE_app|].
  cbn [mbind option_bind]. destruct b as [|c' b]; [by rewrite Write_nil|]. rewrite Write_on by done.
  by rewrite !bool_decide_eq_false_2.
Qed.

Lemma Write_chunks chunks : forall i,
  inspector_ok i -> foldM (Write Decode) i chunks = Write Decode i (concat chunks).
Proof.
  induction chunks as [|a chunks IH]; intros i Hi; cbn [foldM concat].
  - by rewrite Write_nil.
  - rewrite Write_app by done. destruct (Write_spec i a Hi) as (j & -> & Hj & _).
    cbn [mbind option_bind]. by apply IH.
Qed.

(** C29. How the body is cut into chunks does not matter: writing the chunks one by
    one leaves the inspector in the state the whole body written at once does. *)
Theorem inspector_chunk_invariant ct chunks :
  foldM (Write Decode) (new ct) chunks = Write Decode (new ct) (concat chunks).
Proof. apply Write_chunks, new_ok. Qed.

(** On every body, however chunked, the inspector neither panics nor buffers
    more than [maxUsageCaptureSize] bytes; [Result] can be asked again and gives the
    same answer, later bytes change nothing, and a usage it reports has counts in
    the range of [int64], none negative, and no more cached than input tokens. *)
Theorem inspector_bounded ct chunks :
  exists i j u f failed,
    foldM (Write Decode) (new ct) chunks = Some i /\
    len (ui_jsonCapture i) <= maxUsageCaptureSize /\ len (ui_sseEvent i) <= maxUsageCaptureSize /\
    Result Decode i = Some (j, (u, f, failed)) /\ Result Decode j = Some (j, (u, f, failed)) /\
    (forall data, Write Decode j data = Some j) /\
    (forall usage, u = Some usage -> usage_ok usage).
Proof.
  destruct (new_ok ct) as (Hi & Hf & _). rewrite Write_chunks by done.
  destruct (Write_spec (new ct) (concat chunks) Hi) as (i & Hw & Hok & _ & Hfin & _).
  rewrite Hf in Hfin. destruct (Result_spec i Hok Hfin) as (j & r & Hr & Hj & Hfj & Hr' & _ & Er).
  destruct r as [[u f] failed]. exists i, j, u, f, failed. split_and!; [done|apply Hok|apply Hok|done|done| |].
  - intros data. unfold Write. by rewrite Hfj, orb_true_r.
  - intros usage ->. apply (ok_usage j Hj). by destruct (ui_failed j); simplify_eq.
Qed.

(** The inspection of a JSON response is trustworthy: when it reports a usage,
    or reports no failure, the body it saw is a JSON text. *)
Theorem json_result_trustworthy ct chunks i j u f failed :
  ui_format (new ct) = "json"%string ->
  foldM (Write Decode) (new ct) chunks = Some i -> Result Decode i = Some (j, (u, f, failed)) ->
  u <> None \/ failed = false ->
  json_text maxJSONNestingDepth (concat chunks).
Proof.
  intros Hjs Hw Hr Hgood. destruct (new_ok ct) as (Hi & Hf & Hd & Hv). rewrite Write_chunks in Hw by done.
  assert (Hw' : writeJSON Decode (new ct) (concat chunks) = Some i).
  { destruct (decide (concat chunks = [])) as [E|E]; [rewrite E, Write_nil in Hw; by rewrite E|].
    by rewrite Write_on, bool_decide_eq_true_2 in Hw. }
  destruct (writeJSON_spec (concat chunks) (new ct) Hi Hd) as (i' & Hi' & Hok & Hfm & Hfin & _ & Hsteps).
  rewrite Hw' in Hi'. injection Hi' as <-. rewrite Hf in Hfin. rewrite Hjs in Hfm.
  destruct (Result_spec i Hok Hfin) as (j' & r & Hr1 & _ & _ & _ & Hfz & Er). rewrite Hr1 in Hr. injection Hr as -> ->.
  destruct (finalize_spec i Hok) as (j2 & Hj2 & _ & _ & _ & _ & Hjson). rewrite Hfz in Hj2. injection Hj2 as <-.
  destruct (Hjson Hfm) as [Hdis Heof]. assert (Hno : ¬ (ui_failed j = true /\ ui_usage j = None)).
  { intros [E1 E2]. rewrite E1, E2 in Er. injection Er as -> -> ->. by destruct Hgood. }
  assert (Hdi : ui_disabled i = false) by (destruct (ui_disabled i); auto; by destruct Hno; apply Hdis).
  specialize (Hsteps Hdi). rewrite Hv in Hsteps. destruct (validator_verdict (concat chunks)) as (b & Hb & Hiff).
  unfold validate in Hb. change (reset zeroValidator) with zeroValidator in Hb. rewrite Hsteps in Hb.
  cbn [mbind option_bind] in Hb. destruct (eof (ui_jsonValidator i)) as [[v ok]|] eqn:E; [|done].
  cbn in Hb. injection Hb as ->. apply Hiff. destruct b; [done|]. destruct Hno. by eapply Heof.
Qed.
End Proofs.

(** ** Witness *)

(** Bytes with single quotes for the double quotes of JSON. *)
Definition quoted (s : string) : bytes := map (fun c => if isb "'" c then QUOTE else c) (of_string s).

Definition sample_usage : bytes := quoted "{'prompt_tokens':3,'completion_tokens':4}".

(** A decoder that knows one object. *)
Definition sample_decode (data : bytes) : DecodeResult :=
  if bool_decide (data = sample_usage)
  then Decoded (JObject [("prompt_tokens", JNumber ["3"%char]); ("completion_tokens", JNumber ["4"%char])]%string) []
  else DecodeEOF.

Definition sample_chunks : list bytes :=
  [quoted "{'id':'x', 'us"; quoted "age' : {'prompt_tokens':3,"; quoted "'completion_tokens':4}}"].

Definition sample_result : option TokenUsage * string * bool :=
  (Some {| du_InputTokens := 3; du_OutputTokens := 4; du_CacheReadTokens := None |}, ""%string, false).

Lemma json_result_trustworthy_witness :
  (exists i j, foldM (Write sample_decode) (newUsageInspector Some id "application/json") sample_chunks = Some i /\
    Result sample_decode i = Some (j, sample_result)) /\
  json_text maxJSONNestingDepth (concat sample_chunks).
Proof.
  assert (Hrun : match foldM (Write sample_decode) (newUsageInspector Some id "application/json") sample_chunks with
    | Some i => option_map snd (Result sample_decode i) = Some sample_result
    | None => False
    end) by (vm_compute; reflexivity).
  destruct (foldM _ _ _) as [i|] eqn:Hw; [|contradiction].
  destruct (Result sample_decode i) as [[j r]|] eqn:Hr; [|discriminate].
  cbn [option_map snd] in Hrun. injection Hrun as ->.
  split; [exists i, j; split; [reflexivity|exact Hr]|].
  refine (json_result_trustworthy sample_decode Some id "application/json" sample_chunks i j _ _ _ _ Hw Hr _);
    [vm_compute; reflexivity|right; reflexivity].
Defined.
