(* ===== verification/Recovery.v ===== *)
(** Recovery from a coordination outage ([src/internal/coordination/recovery.go]).

    [Recover] runs its steps one after the other without holding the state
    mutex, so failures reported by other goroutines interleave with it.  A call
    of [Recover] is a sequence of events: its start, one event per step with the
    result of the step, and its end; the reports are events of their own.
    [None] of [exec]: the event cannot happen in this state. *)

From S2P Require Import Prelude Domain Float64 Coordination.

Inductive RecoveryState := RecoveryReady | RecoveryDegraded | RecoveryPermanentFault.

#[global] Instance RecoveryState_eq_dec : EqDecision RecoveryState.
Proof. solve_decision. Defined.

(** Which steps are set (a nil step is skipped), in the order they run. *)
Record RecoverySteps := {
  rs_Ping : bool;
  rs_CheckFingerprint : bool;
  rs_ReloadConfiguration : bool;
  rs_ReconcileLeases : bool;
  rs_ReplayFailures : bool;
  rs_RefreshCircuits : bool
}.

Inductive RecoveryStep :=
  StepPing | StepCheckFingerprint | StepReloadConfiguration | StepReconcileLeases
  | StepReplayFailures | StepRefreshCircuits.

#[global] Instance RecoveryStep_eq_dec : EqDecision RecoveryStep.
Proof. solve_decision. Defined.

(** The steps of the loop in [Recover] that are not nil. *)
Definition configured (s : RecoverySteps) : list RecoveryStep :=
  (if rs_Ping s then [StepPing] else []) ++
  (if rs_CheckFingerprint s then [StepCheckFingerprint] else []) ++
  (if rs_ReloadConfiguration s then [StepReloadConfiguration] else []) ++
  (if rs_ReconcileLeases s then [StepReconcileLeases] else []) ++
  (if rs_ReplayFailures s then [StepReplayFailures] else []) ++
  (if rs_RefreshCircuits s then [StepRefreshCircuits] else []).

Record RecoveryStatus := {
  rst_State : RecoveryState;
  rst_LastError : option Error;
  rst_LastSuccess : Time
}.

(** [rm_failures] is a [uint64]; [rm_observed] are the transitions the observer
    was told, oldest first. *)
Record RecoveryManager := {
  rm_steps : RecoverySteps;
  rm_status : RecoveryStatus;
  rm_failures : Z;
  rm_observed : list (RecoveryState * RecoveryState)
}.

Definition NewRecoveryManager (steps : RecoverySteps) : RecoveryManager :=
  {| rm_steps := steps;
     rm_status := {| rst_State := RecoveryReady; rst_LastError := None; rst_LastSuccess := GoTime.zero |};
     rm_failures := 0; rm_observed := [] |}.

Definition observeTransition (from to : RecoveryState) (m : RecoveryManager) : RecoveryManager :=
  if bool_decide (from = to) then m else {| m with rm_observed := rm_observed m ++ [(from, to)] |}.

Definition count_failure (m : RecoveryManager) : Z := (rm_failures m + 1) mod 2 ^ 64.

Definition MarkDegraded (err : option Error) (m : RecoveryManager) : RecoveryManager :=
  if bool_decide (rst_State (rm_status m) = RecoveryPermanentFault) then m
  else
    let previous := rst_State (rm_status m) in
    observeTransition previous RecoveryDegraded
      {| m with rm_status := {| rst_State := RecoveryDegraded; rst_LastError := err;
                                rst_LastSuccess := rst_LastSuccess (rm_status m) |};
                rm_failures := count_failure m |}.

Definition MarkPermanent (err : option Error) (m : RecoveryManager) : RecoveryManager :=
  let previous := rst_State (rm_status m) in
  observeTransition previous RecoveryPermanentFault
    {| m with rm_status := {| rst_State := RecoveryPermanentFault; rst_LastError := err;
                              rst_LastSuccess := rst_LastSuccess (rm_status m) |};
              rm_failures := count_failure m |}.

Definition CoordinationFailure (err : option Error) (m : RecoveryManager) : RecoveryManager :=
  match err with
  | Some e => if AsPermanent e then MarkPermanent err m else MarkDegraded err m
  | None => MarkDegraded err m
  end.

(** A call of [Recover] in progress: the failure count it started from and the
    steps it has left. *)
Record Recovery := {
  rc_startingFailures : Z;
  rc_todo : list RecoveryStep
}.

Record RState := {
  manager : RecoveryManager;
  recovery : option Recovery
}.

(** What a call of [Recover] returns: [None] is the nil error. *)
Definition Returned := option Error.

Inductive Event :=
| EvMarkDegraded (err : option Error)
| EvMarkPermanent (err : option Error)
| EvCoordinationFailure (err : option Error)
| EvRecover
| EvStep (step : RecoveryStep) (result : option Error)
| EvFinish (now : Time).

(** The beginning of [Recover]: it holds [recoverMu] until it returns. *)
Definition recover_begin (s : RState) : option (RState * option Returned) :=
  match recovery s with
  | Some _ => None
  | None =>
    let m := manager s in
    if bool_decide (rst_State (rm_status m) = RecoveryPermanentFault)
    then Some (s, Some (Some (PermanentError (rst_LastError (rm_status m)))))
    else Some ({| s with recovery := Some {| rc_startingFailures := rm_failures m;
                                             rc_todo := configured (rm_steps m) |} |}, None)
  end.

(** The body of the loop over the steps. *)
Definition recover_step (step : RecoveryStep) (result : option Error) (s : RState)
    : option (RState * option Returned) :=
  match recovery s with
  | Some {| rc_startingFailures := f; rc_todo := next :: todo |} =>
    if negb (bool_decide (next = step)) then None
    else match result with
         | None => Some ({| s with recovery := Some {| rc_startingFailures := f; rc_todo := todo |} |}, None)
         | Some err =>
           Some ({| manager := if AsPermanent err then MarkPermanent (Some err) (manager s)
                               else MarkDegraded (Some err) (manager s);
                    recovery := None |}, Some (Some err))
         end
  | _ => None
  end.

(** The end of [Recover], after the last step. *)
Definition recover_finish (now : Time) (s : RState) : option (RState * option Returned) :=
  match recovery s with
  | Some {| rc_startingFailures := f; rc_todo := [] |} =>
    let m := manager s in
    if negb (bool_decide (rm_failures m = f)) then
      let status := rm_status m in
      Some ({| s with recovery := None |},
            Some (if bool_decide (rst_State status = RecoveryPermanentFault)
                  then Some (PermanentError (rst_LastError status)) else rst_LastError status))
    else
      let previous := rst_State (rm_status m) in
      Some ({| manager := observeTransition previous RecoveryReady
                 {| m with rm_status := {| rst_State := RecoveryReady; rst_LastError := None;
                                           rst_LastSuccess := now |} |};
               recovery := None |}, Some None)
  | _ => None
  end.

Definition exec (s : RState) (e : Event) : option (RState * option Returned) :=
  match e with
  | EvMarkDegraded err => Some ({| s with manager := MarkDegraded err (manager s) |}, None)
  | EvMarkPermanent err => Some ({| s with manager := MarkPermanent err (manager s) |}, None)
  | EvCoordinationFailure err => Some ({| s with manager := CoordinationFailure err (manager s) |}, None)
  | EvRecover => recover_begin s
  | EvStep step result => recover_step step result s
  | EvFinish now => recover_finish now s
  end.

Definition run (s : RState) (events : list Event) : option RState :=
  foldM (fun s e => option_map fst (exec s e)) s events.

Definition start (steps : RecoverySteps) : RState := {| manager := NewRecoveryManager steps; recovery := None |}.

(** ** Lemmas *)

Definition reports_failure (e : Event) : bool :=
  match e with EvMarkDegraded _ | EvMarkPermanent _ | EvCoordinationFailure _ => true | _ => false end.

(** The steps an event completes. *)
Definition succeeded (e : Event) : list RecoveryStep :=
  match e with EvStep step None => [step] | _ => [] end.

(** The state is not the permanent fault. *)
Definition sound (m : RecoveryManager) : bool := negb (bool_decide (rst_State (rm_status m) = RecoveryPermanentFault)).

Lemma observeTransition_fields from to m :
  rm_steps (observeTransition from to m) = rm_steps m /\ rm_status (observeTransition from to m) = rm_status m /\
  rm_failures (observeTransition from to m) = rm_failures m.
Proof. unfold observeTransition. by case_match. Qed.

(** A report either counts, or finds the permanent fault and changes nothing. *)
Lemma report_counts m e :
  reports_failure e = true ->
  exists m', exec {| manager := m; recovery := None |} e = Some ({| manager := m'; recovery := None |}, None) /\
    (forall r, exec {| manager := m; recovery := r |} e = Some ({| manager := m'; recovery := r |}, None)) /\
    rm_steps m' = rm_steps m /\
    (m' = m /\ sound m = false \/ rm_failures m' = count_failure m /\ rst_State (rm_status m') <> RecoveryReady).
Proof.
  intros He.
  assert (Hd : forall err, let m' := MarkDegraded err m in rm_steps m' = rm_steps m /\
    (m' = m /\ sound m = false \/ rm_failures m' = count_failure m /\ rst_State (rm_status m') <> RecoveryReady)).
  { intros err. unfold MarkDegraded, sound. cbn zeta. case_bool_decide as Hp; [by auto|].
    destruct (observeTransition_fields (rst_State (rm_status m)) RecoveryDegraded
      {| m with rm_status := {| rst_State := RecoveryDegraded; rst_LastError := err;
                                rst_LastSuccess := rst_LastSuccess (rm_status m) |};
                rm_failures := count_failure m |}) as (-> & -> & ->). auto. }
  assert (Hp : forall err, let m' := MarkPermanent err m in rm_steps m' = rm_steps m /\
    (m' = m /\ sound m = false \/ rm_failures m' = count_failure m /\ rst_State (rm_status m') <> RecoveryReady)).
  { intros err. unfold MarkPermanent. cbn zeta.
    destruct (observeTransition_fields (rst_State (rm_status m)) RecoveryPermanentFault
      {| m with rm_status := {| rst_State := RecoveryPermanentFault; rst_LastError := err;
                                rst_LastSuccess := rst_LastSuccess (rm_status m) |};
                rm_failures := count_failure m |}) as (-> & -> & ->). auto. }
  destruct e as [err|err|err| | |]; try discriminate; eexists; (split_and!; [done|done|..]).
  - apply Hd.
  - apply Hd.
  - apply Hp.
  - apply Hp.
  - destruct err as [e|]; cbn; [destruct (AsPermanent e)|]; first [apply Hd|apply Hp].
  - destruct err as [e|]; cbn; [destruct (AsPermanent e)|]; first [apply Hd|apply Hp].
Qed.

(** How the failure count and the steps of the call in progress relate to the
    events since it began. *)
Record progress (m : RecoveryManager) (r : Recovery) (mid : list Event) : Prop := {
  pr_steps : configured (rm_steps m) = (mid ≫= succeeded) ++ rc_todo r;
  pr_only : Forall (fun e => reports_failure e = true \/ succeeded e <> []) mid;
  pr_range : 0 <= rc_startingFailures r < 2 ^ 64;
  pr_quiet : exists n, 0 <= n <= Z.of_nat (length mid) /\
    rm_failures m = (rc_startingFailures r + n) mod 2 ^ 64 /\
    (if bool_decide (n = 0) then Forall (fun e => reports_failure e = false) mid /\ sound m = true
     else rst_State (rm_status m) <> RecoveryReady)
}.

Definition recovery_inv (steps : RecoverySteps) (s : RState) (events : list Event) : Prop :=
  rm_steps (manager s) = steps /\ 0 <= rm_failures (manager s) < 2 ^ 64 /\
  forall r, recovery s = Some r -> exists pre mid, events = pre ++ EvRecover :: mid /\ progress (manager s) r mid.

Lemma count_failure_range m : 0 <= count_failure m < 2 ^ 64.
Proof. apply Z.mod_pos_bound. lia. Qed.

Lemma progress_report m m' r mid e :
  reports_failure e = true -> rm_steps m' = rm_steps m ->
  m' = m /\ sound m = false \/ rm_failures m' = count_failure m /\ rst_State (rm_status m') <> RecoveryReady ->
  progress m r mid -> progress m' r (mid ++ [e]).
Proof.
  intros He Hst Hm [Hs Ho Hr (n & Hn & Hf & Hq)]. constructor; [| |done|].
  - rewrite Hst, bind_app, Hs. cbn. replace (succeeded e) with (@nil RecoveryStep) by by destruct e. by rewrite !app_nil_r.
  - apply Forall_app. split; [done|]. by constructor; [left|].
  - destruct Hm as [[-> Hns]|[Hc Hnr]].
    + exists n. rewrite length_app. cbn. split_and!; [lia..|done|]. case_bool_decide; [|done]. by destruct Hq; congruence.
    + exists (n + 1). rewrite length_app. cbn. split_and!; [lia..| |].
      * rewrite Hc. unfold count_failure. rewrite Hf, Zplus_mod_idemp_l. f_equal. lia.
      * by rewrite bool_decide_eq_false_2 by lia.
Qed.

Lemma progress_step m f step todo mid :
  progress m {| rc_startingFailures := f; rc_todo := step :: todo |} mid ->
  progress m {| rc_startingFailures := f; rc_todo := todo |} (mid ++ [EvStep step None]).
Proof.
  intros [Hs Ho Hr (n & Hn & Hf & Hq)]. cbn in *. constructor; cbn; [| |done|].
  - rewrite Hs, bind_app. cbn. by rewrite <- app_assoc.
  - apply Forall_app. split; [done|]. by constructor; [right|].
  - exists n. rewrite length_app. cbn. split_and!; [lia..|done|]. case_bool_decide; [|done].
    destruct Hq as [Hq ?]. split; [|done]. apply Forall_app. split; [done|by constructor].
Qed.

Lemma recovery_inv_idle steps m events :
  rm_steps m = steps -> 0 <= rm_failures m < 2 ^ 64 -> recovery_inv steps {| manager := m; recovery := None |} events.
Proof. by intros Hs Hf. Qed.

Lemma recovery_inv_exec steps s events e s' r :
  recovery_inv steps s events -> exec s e = Some (s', r) -> recovery_inv steps s' (events ++ [e]).
Proof.
  intros (Hst & Hf & Hin) He. unfold recovery_inv. destruct (reports_failure e) eqn:Hrep.
  { destruct s as [m rec]. destruct (report_counts m e Hrep) as (m' & _ & Hany & Hst' & Hm).
    rewrite Hany in He. injection He as <- <-. cbn in *. split; [congruence|].
    split; [destruct Hm as [[-> _]|[-> _]]; [done|apply count_failure_range]|].
    intros r' Hr'. destruct (Hin r' Hr') as (pre & mid & -> & Hp). exists pre, (mid ++ [e]).
    split; [by rewrite <- app_assoc|]. by eapply progress_report. }
  destruct e as [| | | |step result|now]; try discriminate; cbn [exec] in He.
  - unfold recover_begin in He. destruct (recovery s) as [|] eqn:Hrec; [done|].
    case_bool_decide as Hp; injection He as <- <-.
    + split; [done|split; [done|]]. intros r' Hr'. congruence.
    + split; [done|split; [done|]]. intros r' [= <-]. exists events, []. split; [done|].
      constructor; cbn; [done|constructor|done|]. exists 0. cbn. split_and!; [lia..| |].
      * rewrite Z.add_0_r, Z.mod_small; done.
      * split; [constructor|]. unfold sound. by rewrite bool_decide_eq_false_2.
  - unfold recover_step in He. destruct (recovery s) as [[f [|next todo]]|] eqn:Hrec; [done| |done].
    case_bool_decide as Hn; [subst next|done]. cbn [negb] in He. destruct result as [err|].
    + assert (Hrep' : reports_failure (EvCoordinationFailure (Some err)) = true) by done.
      destruct (report_counts (manager s) _ Hrep') as (m' & Hx & _ & Hst' & Hm).
      injection He as <- <-. injection Hx as Hx. cbn [CoordinationFailure] in Hx. rewrite Hx.
      apply recovery_inv_idle; [congruence|]. destruct Hm as [[-> _]|[-> _]]; [done|apply count_failure_range].
    + injection He as <- <-. split; [done|split; [done|]]. intros r' [= <-].
      destruct (Hin _ eq_refl) as (pre & mid & -> & Hp). exists pre, (mid ++ [EvStep step None]).
      split; [by rewrite <- app_assoc|by apply progress_step].
  - unfold recover_finish in He. destruct (recovery s) as [[f [|]]|] eqn:Hrec; [|done..].
    case_bool_decide as Hff; cbn [negb] in He; injection He as <- <-.
    + match goal with |- context [observeTransition ?a ?b ?m] =>
        destruct (observeTransition_fields a b m) as (E1 & _ & E3) end.
      apply recovery_inv_idle; [by rewrite E1|by rewrite E3].
    + split; [done|split; [done|]]. by intros r'.
Qed.

Lemma recovery_inv_run steps events s :
  run (start steps) events = Some s -> recovery_inv steps s events.
Proof.
  revert s. induction events as [|e events IH] using rev_ind; intros s Hrun.
  { injection Hrun as <-. split; [done|split; [done|]]. by intros r. }
  unfold run in Hrun. rewrite foldM_app in Hrun.
  destruct (foldM _ (start steps) events) as [s0|] eqn:E0; [|done]. cbn in Hrun.
  destruct (exec s0 e) as [[s1 r]|] eqn:E1; [|done]. injection Hrun as <-.
  eapply recovery_inv_exec; [by apply IH|done].
Qed.

(** A quiet [mid] of step successes is the list of the steps. *)
Lemma quiet_mid mid steps :
  Forall (fun e => reports_failure e = true \/ succeeded e <> []) mid ->
  Forall (fun e => reports_failure e = false) mid -> steps = mid ≫= succeeded ->
  mid = map (fun step => EvStep step None) steps.
Proof.
  intros Ho Hq ->. induction mid as [|e mid IH]; [done|].
  apply Forall_cons in Ho as [He Ho], Hq as [Hr Hq]. cbn. rewrite map_app, <- IH by done.
  destruct e as [| | | |step [|]|]; cbn in *; destruct He; done.
Qed.

Lemma finish_ready steps events s now s' r :
  Z.of_nat (length events) < 2 ^ 64 -> recovery_inv steps s events ->
  exec s (EvFinish now) = Some (s', r) -> rst_State (rm_status (manager s')) = RecoveryReady ->
  exists pre, events = pre ++ EvRecover :: map (fun step => EvStep step None) (configured steps) /\
    r = Some None /\ rst_LastSuccess (rm_status (manager s')) = now.
Proof.
  intros Hlen (Hst & Hf & Hin) He Hready. cbn [exec] in He. unfold recover_finish in He.
  destruct (recovery s) as [[f [|]]|] eqn:Hrec; [|done..].
  destruct (Hin _ eq_refl) as (pre & mid & -> & [Hsteps Ho Hr (n & Hn & Hfn & Hq)]). cbn in *.
  rewrite app_nil_r, Hst in Hsteps.
  destruct (bool_decide (rm_failures (manager s) = f)) eqn:Hff; cbn [negb] in He; injection He as <- <-; b2p.
  - assert (n = 0) as ->.
    { rewrite length_app in Hlen. cbn in Hlen. rewrite Hff in Hfn.
      assert (Hmod : (f + n - f) mod 2 ^ 64 = 0).
      { rewrite Zminus_mod, <- Hfn, (Z.mod_small f) by lia. by rewrite Z.sub_diag. }
      replace (f + n - f) with n in Hmod by lia. rewrite Z.mod_small in Hmod; lia. }
    rewrite bool_decide_eq_true_2 in Hq by done. destruct Hq as [Hq _].
    exists pre. rewrite <- (quiet_mid mid (configured steps)) by done. split_and!; [done..|].
    cbn. by rewrite (proj1 (proj2 (observeTransition_fields _ _ _))).
  - exfalso. cbn in Hready. case_bool_decide; [|done]. subst n. rewrite Z.add_0_r, Z.mod_small in Hfn by lia. done.
Qed.

(** ** Properties *)

(** C32. The recovery barrier.  However failure reports of other goroutines
    interleave with [Recover], when its end leaves the gateway ready, the last
    thing that happened is one call of [Recover] whose steps (ping, fingerprint,
    configuration, leases, replay, circuits) all ran in this order, all succeeded,
    and with no failure reported since the call began; it returns nil and records
    the time.  The failure counter is 64 bits wide, so fewer than 2^64 events are
    assumed. *)
Theorem recovery_barrier steps events s now s' r :
  Z.of_nat (length events) < 2 ^ 64 ->
  run (start steps) events = Some s ->
  exec s (EvFinish now) = Some (s', r) -> rst_State (rm_status (manager s')) = RecoveryReady ->
  exists pre, events = pre ++ EvRecover :: map (fun step => EvStep step None) (configured steps) /\
    r = Some None /\ rst_LastSuccess (rm_status (manager s')) = now.
Proof. intros Hlen Hrun. apply finish_ready; [done|by apply recovery_inv_run]. Qed.

Definition all_steps : RecoverySteps :=
  {| rs_Ping := true; rs_CheckFingerprint := true; rs_ReloadConfiguration := true; rs_ReconcileLeases := true;
     rs_ReplayFailures := true; rs_RefreshCircuits := true |}.

Definition outage : list Event :=
  EvCoordinationFailure (Some (ErrOpaque "down")) :: EvRecover :: EvStep StepPing None ::
  EvMarkDegraded (Some (ErrOpaque "again")) :: EvStep StepCheckFingerprint (Some (ErrOpaque "gone")) ::
  EvRecover :: map (fun step => EvStep step None) (configured all_steps).

Lemma recovery_barrier_witness :
  exists s s' r pre, run (start all_steps) outage = Some s /\ exec s (EvFinish 7) = Some (s', r) /\
    outage = pre ++ EvRecover :: map (fun step => EvStep step None) (configured all_steps) /\
    rst_LastSuccess (rm_status (manager s')) = 7.
Proof.
  eexists _, _, _.
  destruct (recovery_barrier all_steps outage _ 7 _ _ ltac:(vm_compute; reflexivity) ltac:(vm_compute; reflexivity)
    ltac:(vm_compute; reflexivity) ltac:(vm_compute; reflexivity)) as (pre & Hpre & _ & Ht).
  exists pre. split_and!; [vm_compute; reflexivity..|exact Hpre|exact Ht].
Defined.

Lemma permanent_exec s e s' r :
  rst_State (rm_status (manager s)) = RecoveryPermanentFault -> exec s e = Some (s', r) ->
  (forall f todo, recovery s = Some {| rc_startingFailures := f; rc_todo := todo |} -> rm_failures (manager s) <> f) ->
  rst_State (rm_status (manager s')) = RecoveryPermanentFault.
Proof.
  intros Hp He Hne. destruct e as [err|err|err| |step result|now]; cbn [exec] in He.
  - injection He as <- <-. cbn. unfold MarkDegraded. by rewrite bool_decide_eq_true_2.
  - injection He as <- <-. cbn. unfold MarkPermanent. by rewrite (proj1 (proj2 (observeTransition_fields _ _ _))).
  - injection He as <- <-. cbn. unfold CoordinationFailure, MarkDegraded, MarkPermanent.
    rewrite (bool_decide_eq_true_2 _ Hp). destruct err as [e|]; [|done]. destruct (AsPermanent e); [|done].
    by rewrite (proj1 (proj2 (observeTransition_fields _ _ _))).
  - unfold recover_begin in He. destruct (recovery s); [done|]. rewrite bool_decide_eq_true_2 in He by done.
    by injection He as <- <-.
  - unfold recover_step in He. destruct (recovery s) as [[f [|next todo]]|] eqn:Hrec; [done| |done].
    case_bool_decide; [|done]. cbn [negb] in He. destruct result as [err|]; injection He as <- <-; [|done].
    cbn. unfold MarkDegraded, MarkPermanent. rewrite (bool_decide_eq_true_2 _ Hp).
    destruct (AsPermanent err); [|done]. by rewrite (proj1 (proj2 (observeTransition_fields _ _ _))).
  - unfold recover_finish in He. destruct (recovery s) as [[f [|]]|] eqn:Hrec; [|done..].
    rewrite bool_decide_eq_false_2 in He by by eapply Hne. cbn [negb] in He. by injection He as <- <-.
Qed.

Lemma permanent_counted steps s events f todo :
  Z.of_nat (length events) < 2 ^ 64 -> recovery_inv steps s events ->
  rst_State (rm_status (manager s)) = RecoveryPermanentFault ->
  recovery s = Some {| rc_startingFailures := f; rc_todo := todo |} -> rm_failures (manager s) <> f.
Proof.
  intros Hlen (_ & _ & Hin) Hp Hrec Hff. destruct (Hin _ Hrec) as (pre & mid & -> & [_ _ Hr (n & Hn & Hfn & Hq)]).
  cbn in *. rewrite length_app in Hlen. cbn in Hlen. case_bool_decide as Hn0.
  - destruct Hq as [_ Hs]. unfold sound in Hs. by rewrite bool_decide_eq_true_2 in Hs.
  - assert (Hmod : (f + n - f) mod 2 ^ 64 = 0).
    { rewrite Zminus_mod, <- Hfn, Hff, (Z.mod_small f) by lia. by rewrite Z.sub_diag. }
    replace (f + n - f) with n in Hmod by lia. rewrite Z.mod_small in Hmod; lia.
Qed.

(** A permanent fault is final: after it, whatever failures are reported and
    whatever recovery was in progress, the state stays the permanent fault, and a
    call of [Recover] returns a [PermanentError] without running a step. *)
Theorem permanent_fault_final steps before after s1 s2 :
  Z.of_nat (length (before ++ after)) < 2 ^ 64 ->
  run (start steps) before = Some s1 -> rst_State (rm_status (manager s1)) = RecoveryPermanentFault ->
  run s1 after = Some s2 ->
  rst_State (rm_status (manager s2)) = RecoveryPermanentFault /\
  (recovery s2 = None ->
   exec s2 EvRecover = Some (s2, Some (Some (PermanentError (rst_LastError (rm_status (manager s2))))))).
Proof.
  intros Hlen H1 Hp. revert s2 Hlen. induction after as [|e after IH] using rev_ind; intros s2 Hlen H2.
  - injection H2 as <-. split; [done|]. intros Hrec. cbn. unfold recover_begin.
    by rewrite Hrec, bool_decide_eq_true_2.
  - unfold run in H2. rewrite foldM_app in H2. destruct (foldM _ s1 after) as [s|] eqn:E; [|done]. cbn in H2.
    destruct (exec s e) as [[s' r]|] eqn:He; [|done]. injection H2 as <-.
    rewrite app_assoc, length_app in Hlen. cbn in Hlen. destruct (IH s ltac:(lia) E) as [Hs _].
    assert (Hinv : recovery_inv steps s (before ++ after)).
    { apply recovery_inv_run. unfold run in *. rewrite foldM_app, H1. exact E. }
    assert (Hs' : rst_State (rm_status (manager s')) = RecoveryPermanentFault).
    { eapply permanent_exec; [done..|]. intros f todo Hrec.
      by eapply (permanent_counted steps s (before ++ after)); [lia|..]. }
    split; [done|]. intros Hrec. cbn. unfold recover_begin. by rewrite Hrec, bool_decide_eq_true_2.
Qed.

Lemma permanent_fault_final_witness :
  exists s2, run (start all_steps) ([EvRecover; EvMarkPermanent (Some (ErrOpaque "fingerprint"))] ++
      map (fun step => EvStep step None) (configured all_steps) ++ [EvFinish 7]) = Some s2 /\
    rst_State (rm_status (manager s2)) = RecoveryPermanentFault.
Proof.
  eexists. split; [vm_compute; reflexivity|].
  refine (proj1 (permanent_fault_final all_steps [EvRecover; EvMarkPermanent (Some (ErrOpaque "fingerprint"))]
    (map (fun step => EvStep step None) (configured all_steps) ++ [EvFinish 7]) _ _ _ _ _ _));
    vm_compute; reflexivity.
Defined.
