(* ===== verification/LeaseManager.v ===== *)
(** The lease manager ([src/internal/coordination/lease_manager.go]): it tracks
    the leases of requests in progress, renews them, and delivers their
    completions to the admission coordinator in batches, with retries.

    The coordinator is the environment: the answers of its [Renew] and [Complete]
    are arguments of the steps.  The goroutines of the manager and its callers
    interleave between the steps of [exec], which are the sections the source
    runs under the mutex or between two calls of the coordinator. *)

From S2P Require Import Prelude Domain Float64 Coordination.

Record pendingCompletion := {
  pc_items : list LeaseCompletion;
  pc_next : Time;
  pc_backoff : Duration
}.

(** A handle is an index into the list of handles. *)
Record LeaseHandle := {
  lh_lease : LeaseIdentity;
  lh_completed : bool
}.

(** [lm_completions] is the buffered channel, [lm_backlogCap] its capacity;
    [lm_dropped] is a [uint64]; the last fields are what the observer, if there
    is one, was told. *)
Record LeaseManager := {
  lm_completions : list LeaseCompletion;
  lm_backlogCap : Z;
  lm_pending : list pendingCompletion;
  lm_active : gmap UUID LeaseIdentity;
  lm_dropped : Z;
  lm_handles : list LeaseHandle;
  lm_observer : bool;
  lm_dropObserver : bool;
  lm_renewFailures : Z;
  lm_leaseLost : Z;
  lm_completionDropped : Z
}.

Definition NewLeaseManager (backlog : Z) (observer dropObserver : bool) : LeaseManager :=
  {| lm_completions := []; lm_backlogCap := if backlog <=? 0 then 4096 else backlog; lm_pending := [];
     lm_active := ∅; lm_dropped := 0; lm_handles := []; lm_observer := observer;
     lm_dropObserver := dropObserver; lm_renewFailures := 0; lm_leaseLost := 0; lm_completionDropped := 0 |}.

Abbreviation len l := (Z.of_nat (length l)) (only parsing).

Definition Track (l : LeaseIdentity) (m : LeaseManager) : LeaseManager :=
  {| m with lm_active := <[li_LeaseID l := l]> (lm_active m);
            lm_handles := lm_handles m ++ [{| lh_lease := l; lh_completed := false |}] |}.

Definition remove (l : LeaseIdentity) (m : LeaseManager) : LeaseManager :=
  {| m with lm_active := delete (li_LeaseID l) (lm_active m) |}.

Definition observeDropped (count : Z) (m : LeaseManager) : LeaseManager :=
  if count <=? 0 then m
  else {| m with lm_dropped := (lm_dropped m + count) mod 2 ^ 64;
                 lm_completionDropped :=
                   if lm_dropObserver m then lm_completionDropped m + count else lm_completionDropped m |}.

(** [func (h *LeaseHandle) Complete] for handle [i]: the item is queued, or
    dropped when the channel is full. *)
Definition HandleComplete (i : nat) (usage : option TokenUsage) (m : LeaseManager) : LeaseManager * bool :=
  match lm_handles m !! i with
  | None => (m, false)
  | Some h =>
    if lh_completed h then (m, false)
    else
      let m := {| m with lm_handles := <[i := {| h with lh_completed := true |}]> (lm_handles m) |} in
      if len (lm_completions m) <? lm_backlogCap m
      then ({| m with lm_completions := lm_completions m ++ [{| lc_Lease := lh_lease h; lc_Usage := usage |}] |}, true)
      else (observeDropped 1 (remove (lh_lease h) m), false)
  end.

Definition ActiveCount (m : LeaseManager) : Z := Z.of_nat (size (lm_active m)).

Definition pending_items (m : LeaseManager) : list LeaseCompletion := concat (map pc_items (lm_pending m)).
Arguments pending_items : simpl never.

Definition PendingCompletions (m : LeaseManager) : Z := len (lm_completions m) + len (pending_items m).

Definition lost_result (r : CompleteResult) : bool :=
  bool_decide (cr_Result r = CompletionLeaseLost) || bool_decide (cr_Reason r = ReasonLeaseLost) ||
  (bool_decide (cr_Result r = CompletionAlreadyCompleted) &&
   bool_decide (cr_OriginalResult r = CompletionLeaseLost)).

Definition observeLost (results : list CompleteResult) (m : LeaseManager) : LeaseManager :=
  if negb (lm_observer m) then m
  else {| m with lm_leaseLost := lm_leaseLost m + len (filter (fun r => lost_result r = true) results) |}.

(** The results name the items in order. *)
Fixpoint results_match (items : list LeaseCompletion) (results : list CompleteResult) : bool :=
  match results, items with
  | [], _ => true
  | r :: results', i :: items' =>
    bool_decide (cr_LeaseID r = li_LeaseID (lc_Lease i)) && results_match items' results'
  | _ :: _, [] => false
  end.

(** How many of the items an answer settles. *)
Definition settled_count (items : list LeaseCompletion) (results : list CompleteResult) (err : option Error) : nat :=
  match err with
  | None => length items
  | Some _ =>
    if (length items <? length results)%nat then 0
    else if results_match items results then length results else 0
  end.

Definition removeAll (items : list LeaseCompletion) (m : LeaseManager) : LeaseManager :=
  fold_left (fun m i => remove (lc_Lease i) m) items m.

Definition remainingCompletions (items : list LeaseCompletion) (results : list CompleteResult)
    (err : option Error) (m : LeaseManager) : LeaseManager * list LeaseCompletion :=
  let completed := settled_count items results err in
  let completedResults := match err with None => results | Some _ => take completed results end in
  let m := observeLost completedResults m in
  (removeAll (take completed items) m, drop completed items).

(** The manager and whether the retry was queued rather than dropped. *)
Definition queueRetry (p : pendingCompletion) (m : LeaseManager) : LeaseManager * bool :=
  if len (pending_items m) + len (pc_items p) <=? lm_backlogCap m
  then ({| m with lm_pending := lm_pending m ++ [p] |}, true)
  else (observeDropped (len (pc_items p)) (removeAll (pc_items p) m), false).

(** [complete] up to the call of the coordinator: at most 64 queued items. *)
Definition complete_batch (m : LeaseManager) : LeaseManager * list LeaseCompletion :=
  ({| m with lm_completions := drop 64 (lm_completions m) |}, take 64 (lm_completions m)).

Definition initialBackoff : Duration := 10 * GoTime.Millisecond.

(** What [complete] and [retryPending] do with an answer: the items that remain
    are queued as [next], or dropped; the retry that was dropped is returned. *)
Definition answer (items : list LeaseCompletion) (next : list LeaseCompletion -> pendingCompletion)
    (results : list CompleteResult) (err : option Error) (m : LeaseManager)
    : LeaseManager * option pendingCompletion :=
  let '(m, remaining) := remainingCompletions items results err m in
  match remaining with
  | [] => (m, None)
  | _ =>
    let '(m, queued) := queueRetry (next remaining) m in
    (m, if queued then None else Some (next remaining))
  end.

(** [complete] after the call. *)
Definition complete_answer (batch : list LeaseCompletion) (results : list CompleteResult) (err : option Error)
    (now : Time) (m : LeaseManager) : LeaseManager * option pendingCompletion :=
  answer batch
    (fun remaining => {| pc_items := remaining; pc_next := GoTime.Add now initialBackoff;
                         pc_backoff := initialBackoff |}) results err m.

(** [retryPending] up to its loop: the retries that are due leave the queue. *)
Definition retry_due (now : Time) (m : LeaseManager) : LeaseManager * list pendingCompletion :=
  ({| m with lm_pending := filter (fun p => GoTime.After (pc_next p) now = true) (lm_pending m) |},
   filter (fun p => GoTime.After (pc_next p) now = false) (lm_pending m)).

Definition maxBackoff : Duration := 5 * GoTime.Second.

(** The body of the loop of [retryPending], after the call. *)
Definition retry_answer (now : Time) (p : pendingCompletion) (results : list CompleteResult) (err : option Error)
    (m : LeaseManager) : LeaseManager * option pendingCompletion :=
  let backoff := if maxBackoff <? pc_backoff p * 2 then maxBackoff else pc_backoff p * 2 in
  answer (pc_items p)
    (fun remaining => {| pc_items := remaining; pc_next := GoTime.Add now backoff; pc_backoff := backoff |})
    results err m.

(** The batch [renewContext] sends; with none it does nothing. *)
Definition renew_batch (m : LeaseManager) : list LeaseIdentity := (map_to_list (lm_active m)).*2.

(** The loop body of [renewContext] over the results. *)
Definition renew_result (m : LeaseManager) (r : RenewResult) : LeaseManager :=
  let id := li_LeaseID (rr_Lease r) in
  if bool_decide (rr_Reason r = ReasonLeaseLost) then
    {| m with lm_active := delete id (lm_active m);
              lm_leaseLost := if lm_observer m then lm_leaseLost m + 1 else lm_leaseLost m |}
  else if bool_decide (id = uuidNil) then m
  else if bool_decide (is_Some (lm_active m !! id))
  then {| m with lm_active := <[id := rr_Lease r]> (lm_active m) |}
  else m.

Definition renew_answer (results : list RenewResult) (err : option Error) (m : LeaseManager) : LeaseManager :=
  let m :=
    match err with
    | Some _ => if lm_observer m then {| m with lm_renewFailures := lm_renewFailures m + 1 |} else m
    | None => m
    end in
  fold_left renew_result results m.

(** [drainShutdown] up to its loop. *)
Definition drain_items (m : LeaseManager) : LeaseManager * list LeaseCompletion :=
  ({| m with lm_completions := []; lm_pending := [] |}, lm_completions m ++ pending_items m).

(** The end of [drainShutdown] when its context expires. *)
Definition drain_expired (items : list LeaseCompletion) (m : LeaseManager) : LeaseManager :=
  observeDropped (len items) (removeAll items m).

(** ** The manager with its goroutines

    [w_loop] is what the goroutine of [run] holds between two steps; the last
    fields record, for the theorems, what became of the completions. *)

Inductive Loop :=
| LoopIdle
| LoopCompleting (batch : list LeaseCompletion)
| LoopRetrying (now : Time) (due : list pendingCompletion)
| LoopDraining (items : list LeaseCompletion)
| LoopClosed.

Record World := {
  w_manager : LeaseManager;
  w_loop : Loop;
  w_tracked : list LeaseIdentity;
  w_accepted : list LeaseCompletion;
  w_refused : list LeaseIdentity;
  w_delivered : list LeaseCompletion;
  w_dropped : list LeaseCompletion;
  w_lost : list UUID
}.

Inductive Op :=
| OpTrack (l : LeaseIdentity)
| OpHandleComplete (i : nat) (usage : option TokenUsage)
| OpRenewed (results : list RenewResult) (err : option Error)
| OpComplete
| OpCompleted (results : list CompleteResult) (err : option Error) (now : Time)
| OpRetry (now : Time)
| OpRetried (results : list CompleteResult) (err : option Error)
| OpClose
| OpDrained (results : list CompleteResult) (err : option Error)
| OpDrainExpired.

Definition settle (items : list LeaseCompletion) (results : list CompleteResult) (err : option Error)
    : list LeaseCompletion := take (settled_count items results err) items.

Definition dropped_items (p : option pendingCompletion) : list LeaseCompletion :=
  match p with Some p => pc_items p | None => [] end.

Definition lost_ids (results : list RenewResult) : list UUID :=
  map (fun r => li_LeaseID (rr_Lease r)) (filter (fun r => rr_Reason r = ReasonLeaseLost) results).

(** [None]: the step cannot happen now. *)
Definition exec (w : World) (op : Op) : option World :=
  let m := w_manager w in
  match op, w_loop w with
  | OpTrack l, _ => Some {| w with w_manager := Track l m; w_tracked := w_tracked w ++ [l] |}
  | OpHandleComplete i usage, _ =>
    let fresh := match lm_handles m !! i with Some h => negb (lh_completed h) | None => false end in
    let lease := match lm_handles m !! i with Some h => [lh_lease h] | None => [] end in
    let '(m', queued) := HandleComplete i usage m in
    Some (if queued
          then {| w with w_manager := m';
                    w_accepted := w_accepted w ++ map (fun l => {| lc_Lease := l; lc_Usage := usage |}) lease |}
          else if fresh then {| w with w_manager := m'; w_refused := w_refused w ++ lease |}
          else {| w with w_manager := m' |})
  | OpRenewed results err, _ =>
    Some {| w with w_manager := renew_answer results err m;
              w_lost := w_lost w ++ filter (fun id => id ∈ map li_LeaseID (w_tracked w)) (lost_ids results) |}
  | OpComplete, LoopIdle =>
    match lm_completions m with
    | [] => None
    | _ => let '(m', batch) := complete_batch m in Some {| w with w_manager := m'; w_loop := LoopCompleting batch |}
    end
  | OpCompleted results err now, LoopCompleting batch =>
    let '(m', gone) := complete_answer batch results err now m in
    Some {| w with w_manager := m'; w_loop := LoopIdle; w_delivered := w_delivered w ++ settle batch results err;
                   w_dropped := w_dropped w ++ dropped_items gone |}
  | OpRetry now, LoopIdle =>
    let '(m', due) := retry_due now m in
    Some {| w with w_manager := m'; w_loop := match due with [] => LoopIdle | _ => LoopRetrying now due end |}
  | OpRetried results err, LoopRetrying now (p :: due) =>
    let '(m', gone) := retry_answer now p results err m in
    Some {| w with w_manager := m'; w_loop := match due with [] => LoopIdle | _ => LoopRetrying now due end;
                   w_delivered := w_delivered w ++ settle (pc_items p) results err;
                   w_dropped := w_dropped w ++ dropped_items gone |}
  | OpClose, LoopIdle =>
    let '(m', items) := drain_items m in
    Some {| w with w_manager := m'; w_loop := match items with [] => LoopClosed | _ => LoopDraining items end |}
  | OpDrained results err, LoopDraining items =>
    let '(m', remaining) := remainingCompletions items results err m in
    Some {| w with w_manager := m'; w_loop := match remaining with [] => LoopClosed | _ => LoopDraining remaining end;
                   w_delivered := w_delivered w ++ settle items results err |}
  | OpDrainExpired, LoopDraining items =>
    Some {| w with w_manager := drain_expired items m; w_loop := LoopClosed; w_dropped := w_dropped w ++ items |}
  | _, _ => None
  end.

Definition world (m : LeaseManager) : World :=
  {| w_manager := m; w_loop := LoopIdle; w_tracked := []; w_accepted := []; w_refused := []; w_delivered := [];
     w_dropped := []; w_lost := [] |}.

Definition run (w : World) (ops : list Op) : option World := foldM exec w ops.

(** ** Frames *)

Definition item_id (i : LeaseCompletion) : UUID := li_LeaseID (lc_Lease i).

(** [m'] is [m] up to its active leases and what the observer was told. *)
Record same_queues (m m' : LeaseManager) : Prop := {
  sq_completions : lm_completions m' = lm_completions m;
  sq_cap : lm_backlogCap m' = lm_backlogCap m;
  sq_pending : lm_pending m' = lm_pending m;
  sq_handles : lm_handles m' = lm_handles m;
  sq_dropped : lm_dropped m' = lm_dropped m
}.

#[local] Instance same_queues_refl : Reflexive same_queues.
Proof. by constructor. Qed.
#[local] Instance same_queues_trans : Transitive same_queues.
Proof. intros m1 m2 m3 [] []. constructor; congruence. Qed.

Definition ids (l : list UUID) : gset UUID := list_to_set l.

Abbreviation active m := (dom (lm_active m)) (only parsing).

Lemma removeAll_spec items m :
  same_queues m (removeAll items m) /\ active (removeAll items m) = active m ∖ ids (map item_id items).
Proof.
  unfold removeAll, ids. revert m. induction items as [|i items IH]; intros m; cbn [fold_left map].
  { split; [done|]. cbn. by rewrite difference_empty_L. }
  destruct (IH (remove (lc_Lease i) m)) as [Hs Hd]. split.
  - etrans; [|exact Hs]. by constructor.
  - rewrite Hd. cbn. rewrite dom_delete_L. set_solver.
Qed.

Lemma observeLost_spec results m : same_queues m (observeLost results m) /\ active (observeLost results m) = active m.
Proof. unfold observeLost. case_match; by split. Qed.

Lemma remainingCompletions_spec items results err m :
  let '(m', remaining) := remainingCompletions items results err m in
  same_queues m m' /\ items = settle items results err ++ remaining /\
  active m' = active m ∖ ids (map item_id (settle items results err)).
Proof.
  unfold remainingCompletions, settle. cbn zeta.
  match goal with |- context [observeLost ?r m] => destruct (observeLost_spec r m) as [Hs Hd] end.
  match goal with |- context [removeAll ?i ?m'] => destruct (removeAll_spec i m') as [Hs' Hd'] end.
  split_and!; [by etrans|by rewrite take_drop|by rewrite Hd', Hd].
Qed.

Lemma observeDropped_spec count m :
  0 <= count -> 0 <= lm_dropped m < 2 ^ 64 ->
  let m' := observeDropped count m in
  lm_completions m' = lm_completions m /\ lm_backlogCap m' = lm_backlogCap m /\ lm_pending m' = lm_pending m /\
  lm_handles m' = lm_handles m /\ lm_active m' = lm_active m /\ lm_dropped m' = (lm_dropped m + count) mod 2 ^ 64.
Proof.
  intros Hc Hd. unfold observeDropped. cbn zeta. destruct (Z.leb_spec count 0); [|done].
  replace count with 0 by lia. rewrite Z.add_0_r, Z.mod_small by done. done.
Qed.

Lemma renew_result_spec m r :
  same_queues m (renew_result m r) /\
  active (renew_result m r) = active m ∖ ids (if bool_decide (rr_Reason r = ReasonLeaseLost) then [li_LeaseID (rr_Lease r)] else []).
Proof.
  unfold renew_result, ids. cbn zeta. case_bool_decide; cbn [list_to_set].
  { split; [done|]. cbn. rewrite dom_delete_L. set_solver. }
  rewrite difference_empty_L. case_bool_decide; [done|]. case_bool_decide as Ha; [|done].
  split; [done|]. cbn. rewrite dom_insert_L. apply elem_of_dom in Ha. set_solver.
Qed.

Lemma renew_answer_spec results err m :
  same_queues m (renew_answer results err m) /\ active (renew_answer results err m) = active m ∖ ids (lost_ids results).
Proof.
  unfold renew_answer. cbn zeta.
  match goal with |- context [fold_left _ _ ?x] => set (m1 := x) end.
  assert (H1 : same_queues m m1 /\ active m1 = active m).
  { unfold m1. repeat case_match; by split. }
  clearbody m1. destruct H1 as [Hs1 Hd1]. rewrite <- Hd1. clear Hd1.
  assert (Hgen : same_queues m1 (fold_left renew_result results m1) /\
    active (fold_left renew_result results m1) = active m1 ∖ ids (lost_ids results)).
  { clear Hs1 m. unfold lost_ids, ids. revert m1. induction results as [|r results IH]; intros m; cbn [fold_left].
    { split; [done|]. cbn. by rewrite difference_empty_L. }
    destruct (renew_result_spec m r) as [Hs Hd]. destruct (IH (renew_result m r)) as [Hs' Hd'].
    split; [by etrans|]. rewrite Hd', Hd. unfold ids. rewrite filter_cons.
    case_bool_decide as Hr; case_decide; try done; cbn; set_solver. }
  destruct Hgen as [Hs2 Hd2]. split; [by etrans|done].
Qed.

(** ** Invariant *)

(** How often a completion occurs in a list. *)
Definition occ (i : LeaseCompletion) (l : list LeaseCompletion) : Z := count_list (fun j => j = i) l.

Lemma occ_app i l1 l2 : occ i (l1 ++ l2) = occ i l1 + occ i l2.
Proof. apply count_list_app. Qed.

Lemma occ_nil i : occ i [] = 0.
Proof. apply count_list_nil. Qed.

Lemma occ_elem i l : 0 < occ i l <-> i ∈ l.
Proof.
  induction l as [|j l IH]; [rewrite occ_nil; split; [lia|by intros ?%elem_of_nil]|].
  unfold occ in *. rewrite count_list_cons, elem_of_cons. pose proof (count_list_nonneg (fun j => j = i) l).
  case_decide; split; intros Hx; [by left|lia|right; apply IH; lia|]. destruct Hx as [->|Hx]; [done|]. apply IH in Hx. lia.
Qed.

Lemma occ_nonneg i l : 0 <= occ i l.
Proof. apply count_list_nonneg. Qed.

Definition holding (l : Loop) : list LeaseCompletion :=
  match l with
  | LoopIdle | LoopClosed => []
  | LoopCompleting batch => batch
  | LoopRetrying _ due => concat (map pc_items due)
  | LoopDraining items => items
  end.

(** The leases that are done with: delivered, dropped, refused or lost. *)
Definition settled (w : World) : list UUID :=
  map item_id (w_delivered w) ++ map item_id (w_dropped w) ++ map li_LeaseID (w_refused w) ++ w_lost w.

Record winv (w : World) : Prop := {
  wi_conserved : forall i, occ i (w_accepted w) =
    occ i (lm_completions (w_manager w)) + occ i (holding (w_loop w)) + occ i (pending_items (w_manager w)) +
    occ i (w_delivered w) + occ i (w_dropped w);
  wi_dropped : lm_dropped (w_manager w) = (len (w_refused w) + len (w_dropped w)) mod 2 ^ 64;
  wi_queue : len (lm_completions (w_manager w)) <= lm_backlogCap (w_manager w);
  wi_pending : len (pending_items (w_manager w)) <= lm_backlogCap (w_manager w);
  wi_handles : map lh_lease (lm_handles (w_manager w)) = w_tracked w;
  wi_owned : forall i, i ∈ w_accepted w -> lc_Lease i ∈ w_tracked w;
  wi_settled : forall id, id ∈ settled w -> id ∈ map li_LeaseID (w_tracked w)
}.

(** The active leases are those tracked and not settled. *)
Definition winv_active (w : World) : Prop :=
  active (w_manager w) = ids (map li_LeaseID (w_tracked w)) ∖ ids (settled w).

Lemma pending_items_app m p :
  pending_items {| m with lm_pending := lm_pending m ++ [p] |} = pending_items m ++ pc_items p.
Proof. unfold pending_items. cbn. rewrite map_app, concat_app. cbn. by rewrite app_nil_r. Qed.

Lemma same_queues_items m m' : same_queues m m' -> pending_items m' = pending_items m.
Proof. intros []. unfold pending_items. congruence. Qed.

(** Queueing a retry keeps its items or drops them. *)
Lemma queueRetry_spec p m :
  0 <= lm_dropped m < 2 ^ 64 -> len (pending_items m) <= lm_backlogCap m ->
  let '(m', queued) := queueRetry p m in
  let gone := if queued then [] else pc_items p in
  lm_completions m' = lm_completions m /\ lm_backlogCap m' = lm_backlogCap m /\ lm_handles m' = lm_handles m /\
  (forall i, occ i (pending_items m') + occ i gone = occ i (pending_items m) + occ i (pc_items p)) /\
  len (pending_items m') <= lm_backlogCap m /\
  lm_dropped m' = (lm_dropped m + len gone) mod 2 ^ 64 /\
  active m' = active m ∖ ids (map item_id gone).
Proof.
  intros Hd Hp. unfold queueRetry. destruct (Z.leb_spec (len (pending_items m) + len (pc_items p)) (lm_backlogCap m)).
  - rewrite pending_items_app. cbn [length]. unfold ids. cbn. split_and!; [done..| | | |by rewrite difference_empty_L].
    + intros i. rewrite occ_app, occ_nil. lia.
    + rewrite length_app. lia.
    + rewrite Z.add_0_r, Z.mod_small; done.
  - destruct (removeAll_spec (pc_items p) m) as [[? ? Hsp ? Hsd] Ha].
    destruct (observeDropped_spec (len (pc_items p)) (removeAll (pc_items p) m) ltac:(lia) ltac:(by rewrite Hsd))
      as (E1 & E2 & E3 & E4 & E5 & E6). cbn zeta in *.
    assert (Hpi : pending_items (observeDropped (len (pc_items p)) (removeAll (pc_items p) m)) = pending_items m).
    { unfold pending_items. by rewrite E3, Hsp. }
    rewrite Hpi, E1, E2, E4, E5, E6, Hsd. split_and!; congruence || done.
Qed.

(** An answer of the coordinator to [items], and the retry it made the manager drop. *)
Record answered (items : list LeaseCompletion) (results : list CompleteResult) (err : option Error)
    (m m' : LeaseManager) (gone : list LeaseCompletion) : Prop := {
  an_completions : lm_completions m' = lm_completions m;
  an_cap : lm_backlogCap m' = lm_backlogCap m;
  an_handles : lm_handles m' = lm_handles m;
  an_items : forall i, occ i (pending_items m') + occ i gone + occ i (settle items results err) =
               occ i (pending_items m) + occ i items;
  an_pending : len (pending_items m') <= lm_backlogCap m;
  an_dropped : lm_dropped m' = (lm_dropped m + len gone) mod 2 ^ 64;
  an_active : active m' = active m ∖ (ids (map item_id (settle items results err)) ∪ ids (map item_id gone))
}.

Lemma answer_spec items next results err m :
  (forall r, pc_items (next r) = r) -> 0 <= lm_dropped m < 2 ^ 64 -> len (pending_items m) <= lm_backlogCap m ->
  let '(m', gone) := answer items next results err m in
  answered items results err m m' (dropped_items gone).
Proof.
  intros Hnext Hd Hp. unfold answer. pose proof (remainingCompletions_spec items results err m) as Hr.
  destruct (remainingCompletions items results err m) as [m1 remaining].
  destruct Hr as (Hs & Hi & Ha). pose proof (same_queues_items _ _ Hs) as Hpi. destruct Hs as [S1 S2 S3 S4 S5].
  assert (Hocc : forall i, occ i items = occ i (settle items results err) + occ i remaining).
  { intros i. rewrite Hi at 1. apply occ_app. }
  destruct remaining as [|r0 rs].
  - cbn [dropped_items].
    constructor; rewrite ?Hpi; try (congruence || done).
    + intros i. rewrite occ_nil, Hocc, occ_nil. lia.
    + cbn. by rewrite Z.add_0_r, Z.mod_small.
    + unfold ids. cbn. by rewrite union_empty_r_L.
  - pose proof (queueRetry_spec (next (r0 :: rs)) m1) as Hq. rewrite Hpi, S2, S5 in Hq. specialize (Hq Hd Hp).
    destruct (queueRetry (next (r0 :: rs)) m1) as [m2 queued].
    destruct Hq as (Q1 & Q2 & Q3 & Q4 & Q5 & Q6 & Q7). rewrite Hnext in *.
    assert (Hg : dropped_items (if queued then None else Some (next (r0 :: rs))) = if queued then [] else r0 :: rs).
    { destruct queued; [done|]. apply Hnext. }
    rewrite Hg. constructor; try congruence.
    + intros i. specialize (Q4 i). rewrite Hocc. lia.
    + rewrite Q7, Ha. by rewrite difference_difference_l_L.
Qed.

Lemma mod_add_count a b : ((a mod 2 ^ 64) + b) mod 2 ^ 64 = (a + b) mod 2 ^ 64.
Proof. apply Zplus_mod_idemp_l. Qed.

Lemma winv_dropped_range w : winv w -> 0 <= lm_dropped (w_manager w) < 2 ^ 64.
Proof. intros []. rewrite wi_dropped0. apply Z.mod_pos_bound. lia. Qed.

(** An item of a batch was accepted, so its lease was tracked. *)
Lemma settle_owned w items results err :
  winv w -> (forall i, occ i items <= occ i (w_accepted w)) ->
  forall i, i ∈ settle items results err -> item_id i ∈ map li_LeaseID (w_tracked w).
Proof.
  intros Hw Hle i Hi. unfold settle in Hi. apply elem_of_take in Hi as (k & Hk & _).
  apply list_elem_of_lookup_2, occ_elem in Hk. specialize (Hle i).
  apply list_elem_of_fmap. exists (lc_Lease i). split; [done|]. apply (wi_owned _ Hw), occ_elem. lia.
Qed.

Lemma dropped_owned w items results err m' gone :
  winv w -> answered items results err (w_manager w) m' gone ->
  (forall i, occ i items + occ i (pending_items (w_manager w)) <= occ i (w_accepted w)) ->
  forall i, i ∈ gone -> item_id i ∈ map li_LeaseID (w_tracked w).
Proof.
  intros Hw Ha Hle i Hi%occ_elem. specialize (Hle i). pose proof (an_items _ _ _ _ _ _ Ha i).
  pose proof (occ_nonneg i (pending_items m')). pose proof (occ_nonneg i (settle items results err)).
  apply list_elem_of_fmap. exists (lc_Lease i). split; [done|]. apply (wi_owned _ Hw), occ_elem. lia.
Qed.

(** What the coordinator answers is accounted for. *)
Lemma answered_inv w m' gone items results err loop :
  winv w -> (forall i, occ i (holding (w_loop w)) = occ i items + occ i (holding loop)) ->
  answered items results err (w_manager w) m' gone ->
  winv {| w with w_manager := m'; w_loop := loop; w_delivered := w_delivered w ++ settle items results err;
                 w_dropped := w_dropped w ++ gone |}.
Proof.
  intros Hw Hloop Han. pose proof Han as [E1 E2 E3 Hocc Hp Hd _].
  assert (Hle : forall i, occ i items + occ i (pending_items (w_manager w)) <= occ i (w_accepted w)).
  { intros i. rewrite (wi_conserved _ Hw i), (Hloop i).
    pose proof (occ_nonneg i (lm_completions (w_manager w))). pose proof (occ_nonneg i (holding loop)).
    pose proof (occ_nonneg i (w_delivered w)). pose proof (occ_nonneg i (w_dropped w)). lia. }
  constructor; cbn.
  - intros i. rewrite (wi_conserved _ Hw i), (Hloop i), !occ_app, E1. specialize (Hocc i). lia.
  - rewrite Hd, (wi_dropped _ Hw), mod_add_count, length_app. f_equal. lia.
  - rewrite E1, E2. apply Hw.
  - by rewrite E2.
  - rewrite E3. apply Hw.
  - apply Hw.
  - intros id. unfold settled. cbn. rewrite !map_app, !elem_of_app.
    intros [[Hi|Hi]|[[Hi|Hi]|Hi]].
    1, 3: apply (wi_settled _ Hw); unfold settled; rewrite !elem_of_app; auto.
    + apply list_elem_of_fmap in Hi as (i & -> & Hi). eapply settle_owned; [done| |done].
      intros j. specialize (Hle j). pose proof (occ_nonneg j (pending_items (w_manager w))). lia.
    + apply list_elem_of_fmap in Hi as (i & -> & Hi). by eapply dropped_owned.
    + apply (wi_settled _ Hw); unfold settled; rewrite !elem_of_app. tauto.
Qed.

Lemma settle_all items : settle items [] None = items.
Proof. unfold settle. cbn. apply firstn_all. Qed.

Lemma settle_none items e : settle items [] (Some e) = [].
Proof. unfold settle, settled_count. cbn. by destruct items. Qed.

(** Completions that leave the manager for good, all at once. *)
Lemma leaving_answered items gone m m' :
  0 <= lm_dropped m < 2 ^ 64 -> len (pending_items m) <= lm_backlogCap m ->
  lm_completions m' = lm_completions m -> lm_backlogCap m' = lm_backlogCap m -> lm_pending m' = lm_pending m ->
  lm_handles m' = lm_handles m -> lm_dropped m' = (lm_dropped m + len gone) mod 2 ^ 64 ->
  active m' = active m ∖ (ids (map item_id items) ∪ ids (map item_id gone)) ->
  items = [] \/ gone = [] ->
  answered (items ++ gone) [] (if bool_decide (gone = []) then None else Some (ErrOpaque "")) m m' gone.
Proof.
  intros Hd Hp E1 E2 E3 E4 E5 E6 Hor.
  assert (Hpi : pending_items m' = pending_items m) by (unfold pending_items; by rewrite E3).
  assert (Hs : settle (items ++ gone) [] (if bool_decide (gone = []) then None else Some (ErrOpaque "")) = items).
  { case_bool_decide as Hg; [subst gone; by rewrite app_nil_r, settle_all|].
    destruct Hor as [->|?]; [apply settle_none|done]. }
  constructor; rewrite ?Hs, ?Hpi; try done. intros i. rewrite occ_app. lia.
Qed.

Lemma retry_holding now due i :
  occ i (holding match due with [] => LoopIdle | _ => LoopRetrying now due end) = occ i (concat (map pc_items due)).
Proof. by destruct due. Qed.

Lemma drain_holding items i :
  occ i (holding match items with [] => LoopClosed | _ => LoopDraining items end) = occ i items.
Proof. by destruct items. Qed.

Lemma occ_filter_pending i (l : list pendingCompletion) now :
  occ i (concat (map pc_items (filter (fun p => GoTime.After (pc_next p) now = true) l))) +
  occ i (concat (map pc_items (filter (fun p => GoTime.After (pc_next p) now = false) l))) =
  occ i (concat (map pc_items l)).
Proof.
  induction l as [|p l IH]; [done|]. rewrite !filter_cons.
  destruct (GoTime.After (pc_next p) now) eqn:E; repeat case_decide; try done; cbn [map concat]; rewrite !occ_app; lia.
Qed.

Lemma concat_filter_le (l : list pendingCompletion) now :
  len (concat (map pc_items (filter (fun p => GoTime.After (pc_next p) now = true) l))) <= len (concat (map pc_items l)).
Proof.
  induction l as [|p l IH]; [done|]. rewrite filter_cons. case_decide; cbn [map concat]; rewrite ?length_app; lia.
Qed.

(** A step that only moves completions between the queues. *)
Lemma moved_inv w m' loop :
  winv w ->
  (forall i, occ i (lm_completions m') + occ i (holding loop) + occ i (pending_items m') =
             occ i (lm_completions (w_manager w)) + occ i (holding (w_loop w)) + occ i (pending_items (w_manager w))) ->
  lm_dropped m' = lm_dropped (w_manager w) -> lm_handles m' = lm_handles (w_manager w) ->
  lm_backlogCap m' = lm_backlogCap (w_manager w) ->
  len (lm_completions m') <= len (lm_completions (w_manager w)) ->
  len (pending_items m') <= len (pending_items (w_manager w)) ->
  winv {| w with w_manager := m'; w_loop := loop |}.
Proof.
  intros [H1 H2 H3 H4 H5 H6 H7] Hocc Hd Hh Hc Hl1 Hl2. constructor; cbn; try done.
  - intros i. rewrite H1. specialize (Hocc i). lia.
  - congruence.
  - rewrite Hc. lia.
  - rewrite Hc. lia.
  - congruence.
Qed.

Lemma handle_inv w i usage w' : winv w -> exec w (OpHandleComplete i usage) = Some w' -> winv w'.
Proof.
  intros Hw He. cbn [exec] in He. unfold HandleComplete in He.
  pose proof (winv_dropped_range w Hw) as Hdr. pose proof Hw as [H1 H2 H3 H4 H5 H6 H7].
  destruct (lm_handles (w_manager w) !! i) as [h|] eqn:Hh; [|by injection He as <-].
  assert (Hlh : forall h', lh_lease h' = lh_lease h ->
    map lh_lease (<[i := h']> (lm_handles (w_manager w))) = w_tracked w).
  { intros h' Eh. rewrite list_fmap_insert, Eh, <- H5. apply list_insert_id. by rewrite list_lookup_fmap, Hh. }
  assert (Hin : lh_lease h ∈ w_tracked w).
  { rewrite <- H5. apply list_elem_of_fmap. exists h. split; [done|]. by eapply list_elem_of_lookup_2. }
  destruct (lh_completed h); [by injection He as <-|]. cbn [negb] in He.
  cbn [lm_completions lm_backlogCap] in He.
  destruct (len (lm_completions (w_manager w)) <? lm_backlogCap (w_manager w)) eqn:Hlt; b2p; injection He as <-.
  - constructor; cbn; try done.
    + intros j. change (pending_items _) with (pending_items (w_manager w)). rewrite !occ_app, H1. lia.
    + rewrite length_app. cbn. lia.
    + by apply Hlh.
    + intros j [Hj|Hj]%elem_of_app; [by apply H6|]. apply list_elem_of_singleton in Hj as ->. done.
  - match goal with |- context [observeDropped 1 ?x] => set (m1 := x) end.
    destruct (observeDropped_spec 1 m1 ltac:(lia) Hdr) as (E1 & E2 & E3 & E4 & E5 & E6). cbn zeta in *.
    assert (Hpi : pending_items (observeDropped 1 m1) = pending_items (w_manager w)) by (unfold pending_items; by rewrite E3).
    constructor; cbn -[observeDropped]; rewrite ?Hpi, ?E1, ?E2, ?E4; try done.
    + rewrite E6. cbn. rewrite H2, mod_add_count, length_app. f_equal. cbn. lia.
    + by apply Hlh.
    + intros id. unfold settled. cbn. rewrite map_app, !elem_of_app.
      intros [Hi|[Hi|[[Hi|Hi]|Hi]]]; try (apply H7; unfold settled; rewrite !elem_of_app; tauto).
      apply list_elem_of_singleton in Hi as ->. apply list_elem_of_fmap. eauto.
Qed.


Lemma completed_inv w results err now w' :
  winv w -> exec w (OpCompleted results err now) = Some w' -> winv w'.
Proof.
  intros Hw He. cbn [exec] in He. destruct (w_loop w) as [|batch| | |] eqn:Hl; try done. unfold complete_answer in He.
  match type of He with context [answer ?b ?n ?r ?e ?m] =>
    pose proof (answer_spec b n r e m (fun _ => eq_refl) (winv_dropped_range w Hw) (wi_pending w Hw)) as Ha;
    destruct (answer b n r e m) as [m' gone] end.
  injection He as <-. apply answered_inv; [done| |done].
  intros i. rewrite Hl. cbn [holding]. rewrite occ_nil. lia.
Qed.

Lemma retried_inv w results err w' : winv w -> exec w (OpRetried results err) = Some w' -> winv w'.
Proof.
  intros Hw He. cbn [exec] in He. destruct (w_loop w) as [| |now [|p due]| |] eqn:Hl; try done.
  unfold retry_answer in He.
  match type of He with context [answer ?b ?n ?r ?e ?m] =>
    pose proof (answer_spec b n r e m (fun _ => eq_refl) (winv_dropped_range w Hw) (wi_pending w Hw)) as Ha;
    destruct (answer b n r e m) as [m' gone] end.
  injection He as <-. apply answered_inv; [done| |done].
  intros i. rewrite Hl, retry_holding. cbn [holding map concat]. by rewrite occ_app.
Qed.

Lemma drained_inv w results err w' : winv w -> exec w (OpDrained results err) = Some w' -> winv w'.
Proof.
  intros Hw He. cbn [exec] in He. destruct (w_loop w) as [| | |items|] eqn:Hl; try done.
  pose proof (remainingCompletions_spec items results err (w_manager w)) as Hr.
  destruct (remainingCompletions items results err (w_manager w)) as [m' remaining].
  injection He as <-. destruct Hr as ([S1 S2 S3 S4 S5] & Hi & Ha). pose proof (winv_dropped_range w Hw) as Hdr.
  pose proof (leaving_answered (settle items results err) [] (w_manager w) m' Hdr (wi_pending w Hw)) as Hleave.
  rewrite app_nil_r in Hleave. rewrite bool_decide_eq_true_2 in Hleave by done.
  pose proof (answered_inv w m' [] (settle items results err) [] None
    match remaining with [] => LoopClosed | _ => LoopDraining remaining end Hw) as Hinv.
  rewrite settle_all, app_nil_r in Hinv. apply Hinv; [|apply Hleave; try done].
  - intros i. rewrite Hl, drain_holding. cbn [holding]. rewrite Hi at 1. apply occ_app.
  - cbn. by rewrite Z.add_0_r, S5, Z.mod_small.
  - rewrite Ha. unfold ids. cbn. by rewrite union_empty_r_L.
  - by right.
Qed.

Lemma drain_expired_spec items m :
  0 <= lm_dropped m < 2 ^ 64 -> len (pending_items m) <= lm_backlogCap m -> items <> [] ->
  answered items [] (Some (ErrOpaque "")) m (drain_expired items m) items.
Proof.
  intros Hd Hp Hne. unfold drain_expired. destruct (removeAll_spec items m) as [[S1 S2 S3 S4 S5] Ha].
  destruct (observeDropped_spec (len items) (removeAll items m) ltac:(lia) ltac:(by rewrite S5))
    as (E1 & E2 & E3 & E4 & E5 & E6). cbn zeta in *.
  pose proof (leaving_answered [] items m (observeDropped (len items) (removeAll items m)) Hd Hp) as Hleave.
  rewrite bool_decide_eq_false_2 in Hleave by done. apply Hleave; try congruence; [|by left].
  rewrite E5, Ha. unfold ids. cbn. by rewrite union_empty_l_L.
Qed.

Lemma expired_inv w w' : winv w -> exec w OpDrainExpired = Some w' -> winv w'.
Proof.
  intros Hw He. cbn [exec] in He. destruct (w_loop w) as [| | |items|] eqn:Hl; try done. injection He as <-.
  destruct (decide (items = [])) as [->|Hne].
  { pose proof (answered_inv w (w_manager w) [] [] [] None LoopClosed Hw) as Hinv.
    cbn in Hinv. rewrite !app_nil_r in *. apply Hinv; [by rewrite Hl|].
    pose proof (leaving_answered [] [] (w_manager w) (w_manager w) (winv_dropped_range w Hw) (wi_pending w Hw)) as Hlv.
    apply Hlv; try done; [cbn; rewrite Z.add_0_r, Z.mod_small; [done|by apply winv_dropped_range]| |by left].
    unfold ids. cbn. by rewrite union_empty_l_L, difference_empty_L. }
  pose proof (answered_inv w (drain_expired items (w_manager w)) items items [] (Some (ErrOpaque "")) LoopClosed Hw) as Hinv.
  rewrite settle_none, app_nil_r in Hinv. apply Hinv.
  - intros i. rewrite Hl. cbn [holding]. rewrite occ_nil. lia.
  - apply drain_expired_spec; [by apply winv_dropped_range|apply Hw|done].
Qed.

Lemma moving_inv w op w' :
  (op = OpComplete \/ (exists now, op = OpRetry now) \/ op = OpClose) ->
  winv w -> exec w op = Some w' -> winv w'.
Proof.
  intros Hop Hw He. destruct Hop as [-> |[[now ->]| -> ]]; cbn [exec] in He;
    destruct (w_loop w) eqn:Hl; try done.
  - destruct (lm_completions (w_manager w)) as [|c cs]; [done|].
    injection He as <-. apply moved_inv; cbn [lm_dropped lm_handles lm_backlogCap lm_completions holding]; try done.
    + intros i. rewrite Hl. cbn [holding]. rewrite occ_nil.
      pose proof (occ_app i (take 64 (lm_completions (w_manager w))) (drop 64 (lm_completions (w_manager w)))) as Ho.
      rewrite take_drop in Ho. change (pending_items _) with (pending_items (w_manager w)). lia.
    + rewrite length_drop. lia.
  - injection He as <-. apply moved_inv; cbn [lm_dropped lm_handles lm_backlogCap lm_completions]; try done.
    + intros i. rewrite Hl, retry_holding. cbn [holding]. rewrite occ_nil.
      pose proof (occ_filter_pending i (lm_pending (w_manager w)) now). unfold pending_items. cbn. lia.
    + unfold pending_items. cbn. apply concat_filter_le.
  - injection He as <-. apply moved_inv; cbn [lm_dropped lm_handles lm_backlogCap lm_completions]; try done.
    + intros i. rewrite Hl, drain_holding, occ_app. cbn [holding].
      match goal with |- context [pending_items ?x] => change (pending_items x) with (@nil LeaseCompletion) end.
      rewrite !occ_nil. lia.
    + cbn. lia.
    + unfold pending_items. cbn. lia.
Qed.

Lemma exec_winv w op w' : winv w -> exec w op = Some w' -> winv w'.
Proof.
  intros Hw He. destruct op as [l|i usage|results err| |results err now|now|results err| |results err|].
  - injection He as <-. destruct Hw as [H1 H2 H3 H4 H5 H6 H7]. constructor; cbn; try done.
    + by rewrite map_app, H5.
    + intros i Hi. apply elem_of_app. left. by apply H6.
    + intros id Hid. rewrite map_app. apply elem_of_app. left. by apply H7.
  - by eapply handle_inv.
  - injection He as <-. destruct (renew_answer_spec results err (w_manager w)) as [Hs _].
    pose proof (same_queues_items _ _ Hs) as Hpi. destruct Hs as [S1 S2 S3 S4 S5], Hw as [H1 H2 H3 H4 H5 H6 H7].
    constructor; cbn; rewrite ?Hpi, ?S1, ?S2, ?S4, ?S5; try done.
    intros id. unfold settled. cbn. rewrite !elem_of_app.
    intros [Hi|[Hi|[Hi|[Hi|Hi]]]]; try (apply H7; unfold settled; rewrite !elem_of_app; tauto).
    by apply list_elem_of_filter in Hi as [? _].
  - eapply (moving_inv w OpComplete); eauto.
  - by eapply completed_inv.
  - eapply (moving_inv w (OpRetry now)); eauto.
  - by eapply retried_inv.
  - eapply (moving_inv w OpClose); eauto.
  - by eapply drained_inv.
  - by eapply expired_inv.
Qed.

(** ** The active leases *)

Lemma ids_app l1 l2 : ids (l1 ++ l2) = ids l1 ∪ ids l2.
Proof. apply list_to_set_app_L. Qed.

Lemma settled_ids w :
  ids (settled w) = ids (map item_id (w_delivered w)) ∪ ids (map item_id (w_dropped w)) ∪
    ids (map li_LeaseID (w_refused w)) ∪ ids (w_lost w).
Proof. unfold settled. rewrite !ids_app. set_solver. Qed.

Lemma answered_active w m' gone items results err loop :
  winv_active w -> answered items results err (w_manager w) m' gone ->
  winv_active {| w with w_manager := m'; w_loop := loop; w_delivered := w_delivered w ++ settle items results err;
                        w_dropped := w_dropped w ++ gone |}.
Proof.
  unfold winv_active. intros Hw [_ _ _ _ _ _ Ha]. cbn. rewrite Ha, Hw, !settled_ids. cbn. rewrite !map_app, !ids_app.
  set_solver.
Qed.

Lemma handle_active w i usage w' :
  winv w -> winv_active w -> exec w (OpHandleComplete i usage) = Some w' -> winv_active w'.
Proof.
  unfold winv_active. intros Hinv Hw He. cbn [exec] in He. unfold HandleComplete in He.
  destruct (lm_handles (w_manager w) !! i) as [h|] eqn:Hh; [|by injection He as <-].
  destruct (lh_completed h); [by injection He as <-|]. cbn [negb lm_completions lm_backlogCap] in He.
  destruct (_ <? _); injection He as <-; [done|]. cbn -[observeDropped].
  match goal with |- context [observeDropped 1 ?x] =>
    destruct (observeDropped_spec 1 x ltac:(lia) (winv_dropped_range w Hinv)) as (_ & _ & _ & _ & E5 & _) end.
  rewrite E5. cbn. rewrite dom_delete_L, Hw, !settled_ids. cbn. rewrite map_app, ids_app. cbn. set_solver.
Qed.

Lemma exec_active w op w' :
  winv w -> winv_active w -> exec w op = Some w' ->
  (forall l, op = OpTrack l -> li_LeaseID l ∉ map li_LeaseID (w_tracked w)) -> winv_active w'.
Proof.
  intros Hinv Hw He Hfresh. pose proof (winv_dropped_range w Hinv) as Hdr. pose proof (wi_pending w Hinv) as Hp.
  destruct op as [l|i usage|results err| |results err now|now|results err| |results err|];
    [|by eapply handle_active|..]; cbn [exec] in He;
    [| |destruct (w_loop w) as [|batch|now' due|items|] eqn:Hl; try done..].
  - injection He as <-. unfold winv_active in *. cbn. specialize (Hfresh l eq_refl).
    change (settled _) with (settled w). rewrite dom_insert_L, Hw, map_app, ids_app. cbn.
    assert (Hns : li_LeaseID l ∉ ids (settled w)).
    { unfold ids. rewrite elem_of_list_to_set. intros Hs. by apply Hfresh, (wi_settled _ Hinv). }
    set_solver.
  - injection He as <-. unfold winv_active in *. destruct (renew_answer_spec results err (w_manager w)) as [_ Ha].
    rewrite !settled_ids. cbn [w_manager w_tracked w_delivered w_dropped w_refused w_lost].
    rewrite Ha, Hw, settled_ids, ids_app.
    apply set_eq. intros id. unfold ids. rewrite !elem_of_difference, !elem_of_union, !elem_of_list_to_set, list_elem_of_filter.
    tauto.
  - destruct (lm_completions (w_manager w)); [done|]. by injection He as <-.
  - unfold complete_answer in He. match type of He with context [answer ?b ?n ?r ?e ?m] =>
      pose proof (answer_spec b n r e m (fun _ => eq_refl) Hdr Hp) as Ha; destruct (answer b n r e m) as [m' gone] end.
    injection He as <-. by apply answered_active.
  - by injection He as <-.
  - destruct due as [|p due]; [done|]. unfold retry_answer in He. match type of He with context [answer ?b ?n ?r ?e ?m] =>
      pose proof (answer_spec b n r e m (fun _ => eq_refl) Hdr Hp) as Ha; destruct (answer b n r e m) as [m' gone] end.
    injection He as <-. by apply answered_active.
  - by injection He as <-.
  - pose proof (remainingCompletions_spec items results err (w_manager w)) as Hr.
    destruct (remainingCompletions items results err (w_manager w)) as [m' remaining].
    injection He as <-. destruct Hr as (_ & _ & Ha). unfold winv_active in *. cbn.
    rewrite Ha, Hw, !settled_ids. cbn. rewrite map_app, ids_app. set_solver.
  - injection He as <-. unfold winv_active in *. unfold drain_expired.
    destruct (removeAll_spec items (w_manager w)) as [[_ _ _ _ S5] Ha].
    destruct (observeDropped_spec (len items) (removeAll items (w_manager w)) ltac:(lia) ltac:(by rewrite S5))
      as (_ & _ & _ & _ & E5 & _). cbn -[observeDropped]. rewrite E5, Ha, Hw, !settled_ids. cbn. rewrite map_app, ids_app.
    set_solver.
Qed.

Lemma world_inv backlog o d :
  let w := world (NewLeaseManager backlog o d) in winv w /\ winv_active w.
Proof.
  cbn zeta. split.
  - assert (Hcap : 0 <= lm_backlogCap (NewLeaseManager backlog o d)) by (cbn; destruct (Z.leb_spec backlog 0); lia).
    constructor; try done; cbn in *; by intros ? ?%elem_of_nil.
  - unfold winv_active. cbn. set_solver.
Qed.

(** The leases an operation starts to track. *)
Definition tracks (op : Op) : list UUID := match op with OpTrack l => [li_LeaseID l] | _ => [] end.

Lemma exec_tracked w op w' :
  exec w op = Some w' -> map li_LeaseID (w_tracked w') = map li_LeaseID (w_tracked w) ++ tracks op.
Proof.
  intros He. destruct op; cbn [exec] in He; cbn [tracks]; rewrite ?app_nil_r;
    try (injection He as <-; cbn; by rewrite ?map_app); repeat (case_match; try done); by simplify_eq.
Qed.

Lemma run_inv backlog o d ops w :
  run (world (NewLeaseManager backlog o d)) ops = Some w ->
  winv w /\ map li_LeaseID (w_tracked w) = ops ≫= tracks /\ (NoDup (ops ≫= tracks) -> winv_active w).
Proof.
  revert w. induction ops as [|op ops IH] using rev_ind; intros w Hrun.
  { injection Hrun as <-. destruct (world_inv backlog o d). by split_and!. }
  unfold run in Hrun. rewrite foldM_app in Hrun.
  destruct (foldM exec (world (NewLeaseManager backlog o d)) ops) as [w0|] eqn:E; [|done]. cbn in Hrun.
  destruct (exec w0 op) as [w1|] eqn:He; [|done]. injection Hrun as <-. destruct (IH w0 E) as (Hw & Ht & Ha).
  rewrite bind_app. cbn. rewrite app_nil_r. split_and!.
  - by eapply exec_winv.
  - by rewrite (exec_tracked _ _ _ He), Ht.
  - intros Hnd. apply NoDup_app in Hnd as (Hnd & Hdis & _). eapply exec_active; [done|by apply Ha|done|].
    intros l -> Hin. rewrite Ht in Hin. apply (Hdis _ Hin). by left.
Qed.

(** ** Properties *)

(** C33. No completion is lost silently.  However the callers, the renewals, the
    deliveries, the retries and the shutdown interleave, every completion that
    [Complete] accepted is, as often as it was accepted, in the channel, held by the
    worker, queued for a retry, delivered, or counted as dropped; both queues stay
    within the backlog, and the drop counter is the number of refused and dropped
    completions (modulo its 64 bits). *)
Theorem completions_conserved backlog o d ops w :
  run (world (NewLeaseManager backlog o d)) ops = Some w ->
  (forall i, occ i (w_accepted w) =
     occ i (lm_completions (w_manager w)) + occ i (holding (w_loop w)) + occ i (pending_items (w_manager w)) +
     occ i (w_delivered w) + occ i (w_dropped w)) /\
  len (lm_completions (w_manager w)) <= lm_backlogCap (w_manager w) /\
  len (pending_items (w_manager w)) <= lm_backlogCap (w_manager w) /\
  lm_dropped (w_manager w) = (len (w_refused w) + len (w_dropped w)) mod 2 ^ 64.
Proof. intros Hrun. destruct (run_inv _ _ _ _ _ Hrun) as [[] _]. by split_and!. Qed.

(** A lease is kept alive until it is settled.  When the tracked leases have
    distinct identifiers, the leases the manager renews are exactly those tracked
    whose completion has been neither delivered nor dropped nor refused and that no
    renewal reported lost. *)
Theorem active_until_settled backlog o d ops w id :
  run (world (NewLeaseManager backlog o d)) ops = Some w -> NoDup (ops ≫= tracks) ->
  is_Some (lm_active (w_manager w) !! id) <->
  (id ∈ map li_LeaseID (w_tracked w)) /\ (id ∉ map item_id (w_delivered w)) /\ (id ∉ map item_id (w_dropped w)) /\
  (id ∉ map li_LeaseID (w_refused w)) /\ (id ∉ w_lost w).
Proof.
  intros Hrun Hnd. destruct (run_inv _ _ _ _ _ Hrun) as (_ & _ & Ha). specialize (Ha Hnd).
  rewrite <- elem_of_dom. unfold winv_active in Ha. rewrite Ha. unfold settled, ids.
  rewrite elem_of_difference, !elem_of_list_to_set, !elem_of_app. tauto.
Qed.

Definition lease_of (n : N) : LeaseIdentity :=
  {| li_LeaseID := n; li_ClientID := 1; li_PoolID := 1; li_RequestID := ""; li_ReplicaID := 9%N;
     li_ExpiresAt := 100; li_TTL := 100 |}.

Definition result_of (n : N) : CompleteResult :=
  {| cr_LeaseID := n; cr_Result := CompletionReleased; cr_OriginalResult := CompletionNone; cr_Reason := ReasonNone |}.

(** Three leases over a backlog of two: the third completion is refused, the first
    delivery fails after one item, the retry delivers the other. *)
Definition lease_calls : list Op :=
  [OpTrack (lease_of 1); OpTrack (lease_of 2); OpTrack (lease_of 3); OpTrack (lease_of 4);
   OpHandleComplete 0 None; OpHandleComplete 1 None; OpHandleComplete 2 None; OpComplete;
   OpRenewed [{| rr_Lease := lease_of 2; rr_Reason := ReasonNone |}] None;
   OpCompleted [result_of 1] (Some (ErrOpaque "timeout")) 0; OpRetry GoTime.Second;
   OpRetried [result_of 2] None].

Abbreviation lease_run := (run (world (NewLeaseManager 2 true true)) lease_calls) (only parsing).

Lemma completions_conserved_witness :
  exists w, lease_run = Some w /\ w_delivered w = w_accepted w /\ lm_dropped (w_manager w) = 1 /\
    forall i, occ i (w_accepted w) =
      occ i (lm_completions (w_manager w)) + occ i (holding (w_loop w)) + occ i (pending_items (w_manager w)) +
      occ i (w_delivered w) + occ i (w_dropped w).
Proof.
  assert (Hrun : match lease_run with
    | Some w => w_delivered w = w_accepted w /\ lm_dropped (w_manager w) = 1 | None => False end)
    by (vm_compute; split; reflexivity).
  destruct lease_run as [w|] eqn:Hw; [|contradiction]. destruct Hrun as [H1 H2].
  exists w. split_and!; [reflexivity|exact H1|exact H2|].
  exact (proj1 (completions_conserved 2 true true lease_calls w Hw)).
Defined.

Lemma active_until_settled_witness :
  exists w, lease_run = Some w /\ is_Some (lm_active (w_manager w) !! (4%N : UUID)) /\
    ¬ is_Some (lm_active (w_manager w) !! (2%N : UUID)).
Proof.
  assert (Hnd : NoDup (lease_calls ≫= tracks)) by (apply (bool_decide_eq_true (NoDup (lease_calls ≫= tracks))); vm_compute; reflexivity).
  assert (Hrun : match lease_run with
    | Some w => bool_decide ((4%N : UUID) ∈ map li_LeaseID (w_tracked w) /\ ((4%N : UUID) ∉ settled w) /\
                             ((2%N : UUID) ∈ map item_id (w_delivered w))) = true
    | None => False end) by (vm_compute; reflexivity).
  destruct lease_run as [w|] eqn:Hw; [|contradiction]. apply bool_decide_eq_true in Hrun as (H1 & H2 & H3).
  exists w. split_and!; [reflexivity| |].
  - apply (active_until_settled 2 true true lease_calls w 4%N Hw Hnd).
    unfold settled in H2. rewrite !elem_of_app in H2. tauto.
  - intros H. apply (active_until_settled 2 true true lease_calls w 2%N Hw Hnd) in H. tauto.
Defined.
