(* ===== verification/Registry.v ===== *)
(** The configuration registry ([src/internal/registry/registry.go]) and its
    revision guard ([revision_guard.go]).

    Every publication holds the publication mutex, so the compare-and-swap loops
    succeed at their first round and each operation is one step on the published
    snapshot.  Published snapshots are never mutated; they are values here. *)

From S2P Require Import Prelude Domain Float64.

Record Data := {
  da_Revision : Z;
  da_Clients : list Client;
  da_Keys : list APIKey;
  da_Pools : list ModelPool;
  da_Access : list ClientModelAccess;
  da_Backends : list Backend
}.

Record Snapshot := {
  sn_Revision : Z;
  sn_Clients : gmap Z Client;
  sn_KeyCandidates : gmap string (list APIKey);
  sn_PoolsByID : gmap Z ModelPool;
  sn_PoolsByName : gmap string ModelPool;
  sn_Access : gmap Z (gmap Z bool);
  sn_BackendsByID : gmap Z Backend;
  sn_BackendsByPool : gmap Z (list Backend)
}.

Definition newSnapshot : Snapshot :=
  {| sn_Revision := 0; sn_Clients := ∅; sn_KeyCandidates := ∅; sn_PoolsByID := ∅; sn_PoolsByName := ∅;
     sn_Access := ∅; sn_BackendsByID := ∅; sn_BackendsByPool := ∅ |}.

(** The errors of [indexData]. *)
Inductive IndexError :=
| DuplicateClient (id : Z)
| DuplicatePool (id : Z)
| DuplicateModelName (name : string)
| KeyMissingClient (key client : Z)
| AccessMissingClient (client : Z)
| AccessMissingPool (pool : Z)
| BackendMissingPool (backend pool : Z)
| DuplicateBackend (id : Z).

(** A loop whose body returns an error. *)
Fixpoint foldE {A B E : Type} (body : B -> A -> E + B) (s : B) (l : list A) : E + B :=
  match l with
  | [] => inr s
  | x :: l' => match body s x with inl e => inl e | inr s' => foldE body s' l' end
  end.

Definition known {K A : Type} `{Countable K} (m : gmap K A) (k : K) : bool := bool_decide (is_Some (m !! k)).

Definition index_client (s : Snapshot) (c : Client) : IndexError + Snapshot :=
  if known (sn_Clients s) (cl_ID c) then inl (DuplicateClient (cl_ID c))
  else inr {| s with sn_Clients := <[cl_ID c := c]> (sn_Clients s) |}.

Definition index_pool (s : Snapshot) (p : ModelPool) : IndexError + Snapshot :=
  if known (sn_PoolsByID s) (mp_ID p) then inl (DuplicatePool (mp_ID p))
  else if known (sn_PoolsByName s) (mp_PublicModelName p) then inl (DuplicateModelName (mp_PublicModelName p))
  else inr {| s with sn_PoolsByID := <[mp_ID p := p]> (sn_PoolsByID s);
                     sn_PoolsByName := <[mp_PublicModelName p := p]> (sn_PoolsByName s) |}.

Definition index_key (s : Snapshot) (k : APIKey) : IndexError + Snapshot :=
  if negb (known (sn_Clients s) (ak_ClientID k)) then inl (KeyMissingClient (ak_ID k) (ak_ClientID k))
  else inr {| s with sn_KeyCandidates :=
                <[ak_Prefix k := default [] (sn_KeyCandidates s !! ak_Prefix k) ++ [k]]> (sn_KeyCandidates s) |}.

Definition index_access (s : Snapshot) (a : ClientModelAccess) : IndexError + Snapshot :=
  if negb (known (sn_Clients s) (ac_ClientID a)) then inl (AccessMissingClient (ac_ClientID a))
  else if negb (known (sn_PoolsByID s) (ac_ModelPoolID a)) then inl (AccessMissingPool (ac_ModelPoolID a))
  else inr {| s with sn_Access :=
                <[ac_ClientID a := <[ac_ModelPoolID a := ac_Enabled a]> (default ∅ (sn_Access s !! ac_ClientID a))]>
                  (sn_Access s) |}.

Definition index_backend (s : Snapshot) (b : Backend) : IndexError + Snapshot :=
  if negb (known (sn_PoolsByID s) (be_ModelPoolID b)) then inl (BackendMissingPool (be_ID b) (be_ModelPoolID b))
  else if known (sn_BackendsByID s) (be_ID b) then inl (DuplicateBackend (be_ID b))
  else inr {| s with sn_BackendsByID := <[be_ID b := b]> (sn_BackendsByID s);
                     sn_BackendsByPool :=
                       <[be_ModelPoolID b := default [] (sn_BackendsByPool s !! be_ModelPoolID b) ++ [b]]>
                         (sn_BackendsByPool s) |}.

Definition indexData (data : Data) : IndexError + Snapshot :=
  match foldE index_client {| newSnapshot with sn_Revision := da_Revision data |} (da_Clients data) with
  | inl e => inl e
  | inr s =>
    match foldE index_pool s (da_Pools data) with
    | inl e => inl e
    | inr s =>
      match foldE index_key s (da_Keys data) with
      | inl e => inl e
      | inr s =>
        match foldE index_access s (da_Access data) with
        | inl e => inl e
        | inr s => foldE index_backend s (da_Backends data)
        end
      end
    end
  end.

(** The registry is the published snapshot. *)
Definition Registry := Snapshot.

Definition New : Registry := {| newSnapshot with sn_Revision := -1 |}.

Section Registry.
(** The order in which [range] visits the prefixes of a snapshot. *)
Context (range_keys : gmap string (list APIKey) -> list (string * list APIKey)).

(** [currentByID] in [mergeKeyRuntimeState]: the last visited key of an
    identifier wins. *)
Definition currentByID (current : Snapshot) : gmap Z APIKey :=
  fold_left (fun m k => <[ak_ID k := k]> m) (concat (map snd (range_keys (sn_KeyCandidates current)))) ∅.

Definition merge_key (current : gmap Z APIKey) (k : APIKey) : APIKey :=
  match current !! ak_ID k with
  | None => k
  | Some state =>
    let k :=
      match ak_RevokedAt k, ak_RevokedAt state with
      | None, Some at_ => {| k with ak_RevokedAt := Some at_ |}
      | _, _ => k
      end in
    match ak_LastUsedAt state, ak_LastUsedAt k with
    | Some at_, None => {| k with ak_LastUsedAt := Some at_ |}
    | Some at_, Some own =>
      if GoTime.After at_ own then {| k with ak_LastUsedAt := Some at_ |} else k
    | None, _ => k
    end
  end.

Definition mergeKeyRuntimeState (candidate current : Snapshot) : Snapshot :=
  {| candidate with sn_KeyCandidates := map (merge_key (currentByID current)) <$> sn_KeyCandidates candidate |}.

(** What the loader answered: its error, or the data. *)
Definition Reload {LoadError : Type} (loaded : LoadError + Data) (r : Registry) : Registry * option (LoadError + IndexError) :=
  match loaded with
  | inl e => (r, Some (inl e))
  | inr data =>
    match indexData data with
    | inl e => (r, Some (inr e))
    | inr snapshot =>
      if sn_Revision snapshot <=? sn_Revision r then (r, None)
      else (mergeKeyRuntimeState snapshot r, None)
    end
  end.

Definition has_key (id : Z) (s : Snapshot) : bool :=
  existsb (fun kv => existsb (fun k => ak_ID k =? id) kv.2) (map_to_list (sn_KeyCandidates s)).

Definition updateKey (id : Z) (update : APIKey -> APIKey) (r : Registry) : Registry * bool :=
  if has_key id r
  then ({| r with sn_KeyCandidates := map (fun k => if ak_ID k =? id then update k else k) <$> sn_KeyCandidates r |}, true)
  else (r, false).

Definition MarkKeyRevoked (id : Z) (at_ : Time) (r : Registry) : Registry * bool :=
  updateKey id (fun k => {| k with ak_RevokedAt := Some at_ |}) r.

Definition MarkKeyUsed (id : Z) (at_ : Time) (r : Registry) : Registry * bool :=
  updateKey id (fun k => {| k with ak_LastUsedAt := Some at_ |}) r.

(** The loop body over the pools of [MarkBackendDeleted]. *)
Definition drop_backend (id pool poolID : Z) (candidates : list Backend) : option (list Backend) :=
  let copied := filter (fun b => be_ID b <> id) candidates in
  if negb (bool_decide (copied = [])) || negb (poolID =? pool) then Some copied else None.

Definition MarkBackendDeleted (id : Z) (r : Registry) : Registry * bool :=
  match sn_BackendsByID r !! id with
  | None => (r, false)
  | Some backend =>
    ({| r with sn_BackendsByID := delete id (sn_BackendsByID r);
               sn_BackendsByPool := map_imap (drop_backend id (be_ModelPoolID backend)) (sn_BackendsByPool r) |}, true)
  end.

Inductive Op :=
| OpReload (loaded : unit + Data)
| OpRevoke (id : Z) (at_ : Time)
| OpUsed (id : Z) (at_ : Time)
| OpDeleteBackend (id : Z).

Definition exec (r : Registry) (op : Op) : Registry :=
  match op with
  | OpReload loaded => (Reload loaded r).1
  | OpRevoke id at_ => (MarkKeyRevoked id at_ r).1
  | OpUsed id at_ => (MarkKeyUsed id at_ r).1
  | OpDeleteBackend id => (MarkBackendDeleted id r).1
  end.

(** ** Well-formed snapshots *)

(** Identifiers index the right records, references lead somewhere, and the two
    views of the pools and of the backends agree. *)
Record snapshot_wf (s : Snapshot) : Prop := {
  wf_clients : forall id c, sn_Clients s !! id = Some c -> cl_ID c = id;
  wf_pools : forall id p, sn_PoolsByID s !! id = Some p -> mp_ID p = id /\ sn_PoolsByName s !! mp_PublicModelName p = Some p;
  wf_names : forall n p, sn_PoolsByName s !! n = Some p -> mp_PublicModelName p = n /\ sn_PoolsByID s !! mp_ID p = Some p;
  wf_keys : forall p l k, sn_KeyCandidates s !! p = Some l -> k ∈ l ->
    ak_Prefix k = p /\ is_Some (sn_Clients s !! ak_ClientID k);
  wf_access : forall c m p e, sn_Access s !! c = Some m -> m !! p = Some e ->
    is_Some (sn_Clients s !! c) /\ is_Some (sn_PoolsByID s !! p);
  wf_backends : forall id b, sn_BackendsByID s !! id = Some b ->
    be_ID b = id /\ is_Some (sn_PoolsByID s !! be_ModelPoolID b) /\
    exists l, sn_BackendsByPool s !! be_ModelPoolID b = Some l /\ b ∈ l;
  wf_by_pool : forall p l b, sn_BackendsByPool s !! p = Some l -> b ∈ l ->
    be_ModelPoolID b = p /\ sn_BackendsByID s !! be_ID b = Some b
}.

Lemma foldE_ind {A B E : Type} (body : B -> A -> E + B) (I : B -> list A -> Prop) s l s' :
  I s [] -> (forall s s1 x done, I s done -> body s x = inr s1 -> I s1 (done ++ [x])) ->
  foldE body s l = inr s' -> I s' l.
Proof.
  intros H0 Hstep. rewrite <- (app_nil_l l) at 2. revert s H0. generalize (@nil A) as done.
  induction l as [|x l IH]; intros done s H0 Hf; cbn in Hf; [injection Hf as <-; by rewrite app_nil_r|].
  destruct (body s x) as [|s1] eqn:E1; [done|]. rewrite (cons_middle x done l), app_assoc. eapply IH; [|exact Hf].
  by eapply Hstep.
Qed.

Lemma known_false {K A : Type} `{Countable K} (m : gmap K A) (k : K) : known m k = false -> m !! k = None.
Proof. unfold known. rewrite bool_decide_eq_false, <- eq_None_not_Some. done. Qed.

Lemma known_true {K A : Type} `{Countable K} (m : gmap K A) (k : K) : negb (known m k) = false -> is_Some (m !! k).
Proof. unfold known. rewrite negb_false_iff. apply bool_decide_eq_true. Qed.

Lemma lookup_insert_is_Some' {A : Type} (m : gmap Z A) i j x : is_Some (m !! j) -> is_Some (<[i := x]> m !! j).
Proof. intros H. apply lookup_insert_is_Some. destruct (decide (i = j)); auto. Qed.
#[local] Hint Resolve lookup_insert_is_Some' : core.

Lemma index_client_wf s c s1 : snapshot_wf s -> index_client s c = inr s1 -> snapshot_wf s1.
Proof.
  intros [H1 H2 H3 H4 H5 H6 H7] Hi. unfold index_client in Hi. destruct (known _ _) eqn:Hk; [done|]. injection Hi as <-.
  constructor; cbn; try done.
  - intros id c'. rewrite lookup_insert_Some. intros [[<- <-]|[_ Hc]]; [done|by apply H1].
  - intros p l k Hp Hin. destruct (H4 p l k Hp Hin). auto.
  - intros c' m p e Hc Hm. destruct (H5 c' m p e Hc Hm). auto.
Qed.

Lemma index_pool_wf s p s1 : snapshot_wf s -> index_pool s p = inr s1 -> snapshot_wf s1.
Proof.
  intros [H1 H2 H3 H4 H5 H6 H7] Hi. unfold index_pool in Hi. destruct (known _ _) eqn:Hk; [done|].
  destruct (known (sn_PoolsByName s) _) eqn:Hn; [done|]. injection Hi as <-. apply known_false in Hk, Hn.
  constructor; cbn; try done.
  - intros id q. rewrite lookup_insert_Some. intros [[<- <-]|[Hne Hq]]; [by rewrite lookup_insert_eq|].
    destruct (H2 id q Hq) as [Hid Hname]. split; [done|]. rewrite lookup_insert_ne; [done|]. intros E. rewrite E in Hn. congruence.
  - intros n q. rewrite lookup_insert_Some. intros [[<- <-]|[Hne Hq]]; [by rewrite lookup_insert_eq|].
    destruct (H3 n q Hq) as [Hid Hname]. split; [done|]. rewrite lookup_insert_ne; [done|]. intros E. rewrite E in Hk. congruence.
  - intros c m q e Hc Hm. destruct (H5 c m q e Hc Hm). auto.
  - intros id b Hb. destruct (H6 id b Hb) as (? & ? & ?). auto.
Qed.

Lemma index_key_wf s k s1 : snapshot_wf s -> index_key s k = inr s1 -> snapshot_wf s1.
Proof.
  intros [H1 H2 H3 H4 H5 H6 H7] Hi. unfold index_key in Hi. destruct (negb _) eqn:Hk; [done|]. injection Hi as <-.
  apply known_true in Hk. constructor; cbn; try done.
  intros p l k'. rewrite lookup_insert_Some. intros [[<- <-]|[_ Hp]] Hin; [|by eapply H4].
  apply elem_of_app in Hin as [Hin|Hin]; [|apply list_elem_of_singleton in Hin as ->; done].
  destruct (sn_KeyCandidates s !! ak_Prefix k) as [l0|] eqn:E; [by eapply H4|by apply elem_of_nil in Hin].
Qed.

Lemma index_access_wf s a s1 : snapshot_wf s -> index_access s a = inr s1 -> snapshot_wf s1.
Proof.
  intros [H1 H2 H3 H4 H5 H6 H7] Hi. unfold index_access in Hi. destruct (negb (known (sn_Clients s) _)) eqn:Hc; [done|].
  destruct (negb (known (sn_PoolsByID s) _)) eqn:Hp; [done|]. injection Hi as <-. apply known_true in Hc, Hp.
  constructor; cbn; try done.
  intros c m p e. rewrite lookup_insert_Some. intros [[<- <-]|[_ Hm]] Hin; [|by eapply H5].
  rewrite lookup_insert_Some in Hin. destruct Hin as [[<- <-]|[_ Hin]]; [done|].
  destruct (sn_Access s !! ac_ClientID a) as [m0|] eqn:E; [by eapply H5|]. cbn in Hin. by rewrite lookup_empty in Hin.
Qed.

Lemma index_backend_wf s b s1 : snapshot_wf s -> index_backend s b = inr s1 -> snapshot_wf s1.
Proof.
  intros [H1 H2 H3 H4 H5 H6 H7] Hi. unfold index_backend in Hi. destruct (negb (known (sn_PoolsByID s) _)) eqn:Hp; [done|].
  destruct (known (sn_BackendsByID s) _) eqn:Hb; [done|]. injection Hi as <-.
  apply known_true in Hp. apply known_false in Hb. constructor; cbn; try done.
  - intros id b'. rewrite lookup_insert_Some. intros [[<- <-]|[Hne Hb']].
    + split_and!; [done|done|]. eexists. rewrite lookup_insert_eq. split; [done|]. apply elem_of_app. right. by left.
    + destruct (H6 id b' Hb') as (Hid & Hpool & l & Hl & Hin). split_and!; [done|done|].
      destruct (decide (be_ModelPoolID b = be_ModelPoolID b')) as [E|E].
      * rewrite E, lookup_insert_eq, Hl. eexists. split; [done|]. apply elem_of_app. by left.
      * rewrite lookup_insert_ne by done. eauto.
  - intros p l b'. rewrite lookup_insert_Some. intros [[<- <-]|[_ Hl]] Hin.
    + apply elem_of_app in Hin as [Hin|Hin]; [|apply list_elem_of_singleton in Hin as ->; by rewrite lookup_insert_eq].
      destruct (sn_BackendsByPool s !! be_ModelPoolID b) as [l0|] eqn:E; [|by apply elem_of_nil in Hin].
      destruct (H7 _ _ _ E Hin) as [Hpool Hid]. split; [done|]. rewrite lookup_insert_ne; [done|]. intros E'. congruence.
    + destruct (H7 _ _ _ Hl Hin) as [Hpool Hid]. split; [done|]. rewrite lookup_insert_ne; [done|]. intros E'. congruence.
Qed.

Lemma empty_wf rev : snapshot_wf {| newSnapshot with sn_Revision := rev |}.
Proof. by constructor; cbn; intros; rewrite ?lookup_empty in *. Qed.

(** The five loops of [indexData]. *)
Lemma indexData_stages data s :
  indexData data = inr s ->
  exists s1 s2 s3 s4,
    foldE index_client {| newSnapshot with sn_Revision := da_Revision data |} (da_Clients data) = inr s1 /\
    foldE index_pool s1 (da_Pools data) = inr s2 /\ foldE index_key s2 (da_Keys data) = inr s3 /\
    foldE index_access s3 (da_Access data) = inr s4 /\ foldE index_backend s4 (da_Backends data) = inr s.
Proof.
  unfold indexData. intros Hi.
  destruct (foldE index_client _ _) as [|s1] eqn:E1; [done|]. destruct (foldE index_pool _ _) as [|s2] eqn:E2; [done|].
  destruct (foldE index_key _ _) as [|s3] eqn:E3; [done|]. destruct (foldE index_access _ _) as [|s4] eqn:E4; [done|].
  by exists s1, s2, s3, s4.
Qed.

Lemma stage_ind {A : Type} (body : Snapshot -> A -> IndexError + Snapshot) (I : Snapshot -> Prop) s l s' :
  (forall s x s1, I s -> body s x = inr s1 -> I s1) -> I s -> foldE body s l = inr s' -> I s'.
Proof. intros Hstep H0 Hf. refine (foldE_ind body (fun s _ => I s) s l s' H0 _ Hf). eauto. Qed.

Lemma indexData_wf data s : indexData data = inr s -> snapshot_wf s /\ sn_Revision s = da_Revision data.
Proof.
  intros (s1 & s2 & s3 & s4 & E1 & E2 & E3 & E4 & E5)%indexData_stages.
  set (I := fun s => snapshot_wf s /\ sn_Revision s = da_Revision data).
  assert (Hgen : forall {A : Type} (body : Snapshot -> A -> IndexError + Snapshot),
    (forall s x s1, snapshot_wf s -> body s x = inr s1 -> snapshot_wf s1 /\ sn_Revision s1 = sn_Revision s) ->
    forall s l s', I s -> foldE body s l = inr s' -> I s').
  { intros A body Hb s0 l s'. apply (stage_ind body I). intros s6 x s5 [Hw Hr] Hx. destruct (Hb _ _ _ Hw Hx). split; [done|congruence]. }
  assert (I1 : I s1).
  { refine (Hgen _ index_client _ _ _ _ _ E1); [|split; [apply empty_wf|done]].
    intros s0 x s' Hw Hx. split; [by eapply index_client_wf|]. unfold index_client in Hx. case_match; by simplify_eq. }
  assert (I2 : I s2).
  { refine (Hgen _ index_pool _ _ _ _ I1 E2). intros s0 x s' Hw Hx. split; [by eapply index_pool_wf|].
    unfold index_pool in Hx. repeat case_match; by simplify_eq. }
  assert (I3 : I s3).
  { refine (Hgen _ index_key _ _ _ _ I2 E3). intros s0 x s' Hw Hx. split; [by eapply index_key_wf|].
    unfold index_key in Hx. repeat case_match; by simplify_eq. }
  assert (I4 : I s4).
  { refine (Hgen _ index_access _ _ _ _ I3 E4). intros s0 x s' Hw Hx. split; [by eapply index_access_wf|].
    unfold index_access in Hx. repeat case_match; by simplify_eq. }
  refine (Hgen _ index_backend _ _ _ _ I4 E5). intros s0 x s' Hw Hx. split; [by eapply index_backend_wf|].
  unfold index_backend in Hx. repeat case_match; by simplify_eq.
Qed.

(** Replacing keys by keys of the same identity. *)
Lemma map_keys_wf s (f : APIKey -> APIKey) :
  (forall k, ak_Prefix (f k) = ak_Prefix k /\ ak_ClientID (f k) = ak_ClientID k) ->
  snapshot_wf s -> snapshot_wf {| s with sn_KeyCandidates := map f <$> sn_KeyCandidates s |}.
Proof.
  intros Hf [H1 H2 H3 H4 H5 H6 H7]. constructor; cbn; try done.
  intros p l k. rewrite lookup_fmap. intros (l0 & Hl & ->)%fmap_Some Hin.
  apply list_elem_of_fmap in Hin as (k0 & -> & Hin). destruct (Hf k0) as [-> ->]. by eapply H4.
Qed.

Lemma merge_key_identity cur k :
  ak_Prefix (merge_key cur k) = ak_Prefix k /\ ak_ClientID (merge_key cur k) = ak_ClientID k /\
  ak_ID (merge_key cur k) = ak_ID k.
Proof. unfold merge_key. repeat case_match; done. Qed.

Lemma delete_wf s id : snapshot_wf s -> snapshot_wf (MarkBackendDeleted id s).1.
Proof.
  intros Hw. unfold MarkBackendDeleted. destruct (sn_BackendsByID s !! id) as [b0|] eqn:Hb0; [|done].
  destruct Hw as [H1 H2 H3 H4 H5 H6 H7]. constructor; cbn; try done.
  - intros i b. rewrite lookup_delete_Some. intros [Hne Hb]. destruct (H6 i b Hb) as (Hid & Hp & l & Hl & Hin).
    split_and!; [done|done|]. rewrite map_lookup_imap, Hl. cbn. unfold drop_backend.
    assert (Hin' : b ∈ filter (fun b => be_ID b <> id) l) by (apply list_elem_of_filter; split; [congruence|done]).
    rewrite bool_decide_eq_false_2; [by eexists|]. intros E. rewrite E in Hin'. by apply elem_of_nil in Hin'.
  - intros p l b. rewrite map_lookup_imap. destruct (sn_BackendsByPool s !! p) as [l0|] eqn:Hl; [|done].
    cbn. unfold drop_backend. case_match; [|done]. intros [= <-] Hin. apply list_elem_of_filter in Hin as [Hne Hin].
    destruct (H7 _ _ _ Hl Hin) as [Hp Hid]. split; [done|]. by rewrite lookup_delete_ne.
Qed.

Lemma registry_exec_wf r op : snapshot_wf r -> snapshot_wf (exec r op) /\ sn_Revision r <= sn_Revision (exec r op).
Proof.
  intros Hw. destruct op as [[e|data]|id at_|id at_|id]; cbn [exec].
  - split; [done|cbn; lia].
  - unfold Reload. destruct (indexData data) as [|s] eqn:Hi; [by split|].
    destruct (Z.leb_spec (sn_Revision s) (sn_Revision r)); [by split|].
    cbn. split; [|lia]. apply map_keys_wf; [|by eapply indexData_wf].
    intros k. by destruct (merge_key_identity (currentByID r) k) as (? & ? & _).
  - unfold MarkKeyRevoked, updateKey. destruct (has_key id r); [|by split]. cbn. split; [|lia].
    apply map_keys_wf; [|done]. intros k. by destruct (_ =? _).
  - unfold MarkKeyUsed, updateKey. destruct (has_key id r); [|by split]. cbn. split; [|lia].
    apply map_keys_wf; [|done]. intros k. by destruct (_ =? _).
  - split; [by apply delete_wf|]. unfold MarkBackendDeleted. case_match; cbn; lia.
Qed.

Lemma registry_run_wf r ops : snapshot_wf r -> snapshot_wf (fold_left exec ops r) /\ sn_Revision r <= sn_Revision (fold_left exec ops r).
Proof.
  revert r. induction ops as [|op ops IH]; intros r Hw; cbn; [split; [done|lia]|].
  destruct (registry_exec_wf r op Hw) as [Hw' Hr]. destruct (IH _ Hw'). split; [done|lia].
Qed.

(** C34. Whatever reloads (failed, stale or successful), revocations, uses and
    deletions are published, in any order, the snapshot a reader sees is well
    formed: references lead to existing records, the indexes by identifier, by name
    and by pool agree; and the revision never goes back. *)
Theorem registry_consistent before after :
  let r := fold_left exec before New in
  snapshot_wf (fold_left exec after r) /\ sn_Revision r <= sn_Revision (fold_left exec after r).
Proof. cbn zeta. apply registry_run_wf, registry_run_wf, empty_wf. Qed.

(** ** Revocation *)

Hypothesis range_keys_perm : forall m, range_keys m ≡ₚ map_to_list m.

Definition has_id (id : Z) (s : Snapshot) : Prop :=
  exists p l k, sn_KeyCandidates s !! p = Some l /\ k ∈ l /\ ak_ID k = id.

(** Every key of that identifier is revoked. *)
Definition revoked (id : Z) (s : Snapshot) : Prop :=
  forall p l k, sn_KeyCandidates s !! p = Some l -> k ∈ l -> ak_ID k = id -> ak_RevokedAt k <> None.

Lemma elem_of_visited s k :
  k ∈ concat (map snd (range_keys (sn_KeyCandidates s))) <-> exists p l, sn_KeyCandidates s !! p = Some l /\ k ∈ l.
Proof.
  rewrite list_elem_of_In, in_concat. split.
  - intros (l & Hl & Hk). apply in_map_iff in Hl as ([p l'] & <- & Hin). exists p, l'. split.
    + by apply elem_of_map_to_list; rewrite <- range_keys_perm; apply list_elem_of_In.
    + by apply list_elem_of_In.
  - intros (p & l & Hl & Hk). exists l. split; [|by apply list_elem_of_In].
    apply in_map_iff. exists (p, l). split; [done|]. apply list_elem_of_In. rewrite range_keys_perm.
    by apply elem_of_map_to_list.
Qed.

(** The runtime state found for an identifier is that of some visited key. *)
Lemma fold_keys_lookup l (m : gmap Z APIKey) id :
  (forall k, m !! id = Some k -> ak_ID k = id) ->
  (exists k, k ∈ l /\ ak_ID k = id) ->
  exists k, fold_left (fun m k => <[ak_ID k := k]> m) l m !! id = Some k /\ k ∈ l /\ ak_ID k = id.
Proof.
  revert m. induction l as [|k0 l IH] using rev_ind; intros m Hm (k & Hk & Hid); [by apply elem_of_nil in Hk|].
  rewrite fold_left_app. cbn. destruct (decide (ak_ID k0 = id)) as [E|E].
  - exists k0. rewrite E, lookup_insert_eq. split_and!; [done| |done]. apply elem_of_app. right. by left.
  - rewrite lookup_insert_ne by done. apply elem_of_app in Hk as [Hk|Hk]; [|apply list_elem_of_singleton in Hk as ->; done].
    destruct (IH m Hm) as (k' & ? & ? & ?); [by exists k|]. exists k'. split_and!; [done| |done]. apply elem_of_app. by left.
Qed.

Lemma merge_revoked candidate current id :
  has_id id current -> revoked id current -> revoked id (mergeKeyRuntimeState candidate current).
Proof.
  intros (p0 & l0 & k0 & Hl0 & Hk0 & Hid0) Hrev p l k. cbn. rewrite lookup_fmap.
  intros (l1 & Hl1 & ->)%fmap_Some Hin Hid. apply list_elem_of_fmap in Hin as (k1 & -> & Hin).
  destruct (merge_key_identity (currentByID current) k1) as (_ & _ & Hsame). rewrite Hsame in Hid.
  destruct (fold_keys_lookup (concat (map snd (range_keys (sn_KeyCandidates current)))) ∅ id) as (st & Hst & Hin' & Hst_id).
  { intros k. by rewrite lookup_empty. }
  { exists k0. split; [|done]. apply elem_of_visited. eauto. }
  apply elem_of_visited in Hin' as (p' & l' & Hl' & Hk'). specialize (Hrev p' l' st Hl' Hk' Hst_id).
  unfold merge_key. unfold currentByID. rewrite Hid, Hst.
  destruct (ak_RevokedAt k1) eqn:E1, (ak_RevokedAt st) eqn:E2; try done; repeat case_match; cbn; congruence.
Qed.

Lemma update_revoked id id' (f : APIKey -> APIKey) r :
  (forall k, ak_RevokedAt k <> None -> ak_RevokedAt (f k) <> None) -> (forall k, ak_ID (f k) = ak_ID k) ->
  has_id id r -> revoked id r -> has_id id (updateKey id' f r).1 /\ revoked id (updateKey id' f r).1.
Proof.
  intros Hf Hfid (p0 & l0 & k0 & Hl0 & Hk0 & Hid0) Hrev. unfold updateKey. destruct (has_key id' r); [|by split; [exists p0, l0, k0|]].
  set (g := fun k => if ak_ID k =? id' then f k else k).
  assert (Hg : forall k, ak_ID (g k) = ak_ID k) by (intros k; unfold g; destruct (_ =? _); auto).
  cbn [fst]. split.
  - exists p0, (map g l0), (g k0). cbn. rewrite lookup_fmap, Hl0. split_and!; [done| |by rewrite Hg].
    apply list_elem_of_fmap. eauto.
  - intros p l k. cbn. rewrite lookup_fmap. intros (l1 & Hl1 & ->)%fmap_Some Hin Hid.
    apply list_elem_of_fmap in Hin as (k1 & -> & Hin). rewrite Hg in Hid. specialize (Hrev _ _ _ Hl1 Hin Hid).
    unfold g. destruct (_ =? _); auto.
Qed.

(** The keys of a snapshot are the keys of its data, by prefix. *)
Lemma index_key_candidates s l s' :
  foldE index_key s l = inr s' ->
  forall p, default [] (sn_KeyCandidates s' !! p) =
    default [] (sn_KeyCandidates s !! p) ++ filter (fun k => ak_Prefix k = p) l.
Proof.
  refine (foldE_ind index_key (fun s1 done => forall p, default [] (sn_KeyCandidates s1 !! p) =
    default [] (sn_KeyCandidates s !! p) ++ filter (fun k => ak_Prefix k = p) done) s l s' _ _).
  - intros p. cbn. by rewrite app_nil_r.
  - intros s0 s1 k done IH Hk p. unfold index_key in Hk. destruct (negb _); [done|]. injection Hk as <-. cbn.
    rewrite filter_app, app_assoc, <- IH. destruct (decide (ak_Prefix k = p)) as [<-|Hne].
    + rewrite lookup_insert_eq, filter_cons_True by done. done.
    + rewrite lookup_insert_ne, filter_cons_False by done. cbn. by rewrite app_nil_r.
Qed.

Lemma indexData_keys data s :
  indexData data = inr s -> forall k, k ∈ da_Keys data -> exists l, sn_KeyCandidates s !! ak_Prefix k = Some l /\ k ∈ l.
Proof.
  intros (s1 & s2 & s3 & s4 & E1 & E2 & E3 & E4 & E5)%indexData_stages k Hk.
  assert (Hsame : forall {A : Type} (body : Snapshot -> A -> IndexError + Snapshot),
    (forall s x s', body s x = inr s' -> sn_KeyCandidates s' = sn_KeyCandidates s) ->
    forall s l s', foldE body s l = inr s' -> sn_KeyCandidates s' = sn_KeyCandidates s).
  { intros A body Hb s0 l s'. apply (stage_ind body (fun s => sn_KeyCandidates s = sn_KeyCandidates s0)); [|done].
    intros s5 x s6 IH Hx. rewrite (Hb _ _ _ Hx). done. }
  assert (K5 : sn_KeyCandidates s = sn_KeyCandidates s4).
  { refine (Hsame _ index_backend _ _ _ _ E5). intros s0 x s' Hx. unfold index_backend in Hx. repeat case_match; by simplify_eq. }
  assert (K4 : sn_KeyCandidates s4 = sn_KeyCandidates s3).
  { refine (Hsame _ index_access _ _ _ _ E4). intros s0 x s' Hx. unfold index_access in Hx. repeat case_match; by simplify_eq. }
  rewrite K5, K4.
  pose proof (index_key_candidates _ _ _ E3 (ak_Prefix k)) as Hc.
  assert (Hin : k ∈ default [] (sn_KeyCandidates s3 !! ak_Prefix k)).
  { rewrite Hc. apply elem_of_app. right. by apply list_elem_of_filter. }
  destruct (sn_KeyCandidates s3 !! ak_Prefix k) as [l|]; [by exists l|by apply elem_of_nil in Hin].
Qed.

(** The database still holds the key: a loaded configuration lists it. *)
Definition lists_key (id : Z) (op : Op) : Prop :=
  match op with OpReload (inr data) => exists k, k ∈ da_Keys data /\ ak_ID k = id | _ => True end.

Lemma exec_revoked id r op :
  lists_key id op -> has_id id r /\ revoked id r -> has_id id (exec r op) /\ revoked id (exec r op).
Proof.
  intros Hop [Hhas Hrev]. destruct op as [[e|data]|id' t|id' t|id']; cbn [exec].
  - by split.
  - unfold Reload. destruct (indexData data) as [|s] eqn:Hi; [by split|].
    destruct (_ <=? _); [by split|]. cbn [fst]. split; [|by apply merge_revoked].
    destruct Hop as (k & Hk & Hid). destruct (indexData_keys _ _ Hi k Hk) as (l & Hl & Hin).
    exists (ak_Prefix k), (map (merge_key (currentByID r)) l), (merge_key (currentByID r) k).
    destruct (merge_key_identity (currentByID r) k) as (_ & _ & ->). cbn. rewrite lookup_fmap, Hl. split_and!; [done| |done].
    apply list_elem_of_fmap. eauto.
  - by apply update_revoked.
  - by apply update_revoked.
  - unfold MarkBackendDeleted. by destruct (sn_BackendsByID r !! id').
Qed.

Lemma marked_revoked id t r r' : MarkKeyRevoked id t r = (r', true) -> has_id id r' /\ revoked id r'.
Proof.
  unfold MarkKeyRevoked, updateKey, has_key. destruct (existsb _ _) eqn:E; [|done]. intros [= <-].
  apply existsb_exists in E as ([p l] & Hin & Hl). apply existsb_exists in Hl as (k & Hk & Hid). cbn in Hk.
  apply list_elem_of_In, elem_of_map_to_list in Hin. apply Z.eqb_eq in Hid. split.
  - exists p. eexists _, _. cbn. rewrite lookup_fmap, Hin. split; [done|]. split.
    + apply list_elem_of_fmap. exists k. split; [done|]. by apply list_elem_of_In.
    + cbn. rewrite Hid, Z.eqb_refl. done.
  - intros p' l' k'. cbn. rewrite lookup_fmap. intros (l0 & Hl0 & ->)%fmap_Some Hin' Hid'.
    apply list_elem_of_fmap in Hin' as (k0 & -> & _). destruct (ak_ID k0 =? id) eqn:E; [done|].
    by apply Z.eqb_neq in E.
Qed.

(** Once [MarkKeyRevoked] has found a key, every entry of that key stays
    revoked in every later snapshot, whatever reloads, usage marks, further
    revocations and backend deletions follow and however stale the loaded
    configuration is, as long as the loaded configurations still list the key. *)
Theorem revocation_sticky (id : Z) (t : Time) (r r' : Registry) (ops : list Op) :
  MarkKeyRevoked id t r = (r', true) -> Forall (lists_key id) ops -> revoked id (fold_left exec ops r').
Proof.
  intros Hm Hops. apply (proj2 (A := has_id id (fold_left exec ops r'))). apply marked_revoked in Hm.
  revert r' Hm. induction Hops as [|op ops Hop _ IH]; intros r' Hm; [done|]. cbn. apply IH. by apply exec_revoked.
Qed.
End Registry.

(** The revision guard: the highest revision published and the latched fault. *)
Record RevisionGuard := { rg_highest : Z; rg_faulted : bool }.

Definition ObservePublished (revision : Z) (g : RevisionGuard) : RevisionGuard :=
  if revision <=? rg_highest g then g else {| g with rg_highest := revision |}.

(** The two errors of [VerifyFresh]. *)
Inductive RevisionError := ErrRevisionFault | ErrRevisionRegressed.

Definition VerifyFresh (capturedHighest freshRevision : Z) (g : RevisionGuard) : RevisionGuard * option RevisionError :=
  if rg_faulted g then (g, Some ErrRevisionFault)
  else if freshRevision <? capturedHighest then ({| g with rg_faulted := true |}, Some ErrRevisionRegressed)
  else (ObservePublished freshRevision g, None).

Inductive GuardOp := GuardObserve (revision : Z) | GuardVerify (capturedHighest freshRevision : Z).

Definition guard_exec (g : RevisionGuard) (op : GuardOp) : RevisionGuard :=
  match op with
  | GuardObserve revision => ObservePublished revision g
  | GuardVerify captured fresh => (VerifyFresh captured fresh g).1
  end.

Lemma guard_exec_monotone g op :
  rg_highest g <= rg_highest (guard_exec g op) /\ (rg_faulted g = true -> rg_faulted (guard_exec g op) = true).
Proof.
  destruct op as [rev|captured fresh]; cbn; unfold VerifyFresh, ObservePublished; repeat case_match; b2p; cbn; split; try done; lia.
Qed.

Lemma guard_run_monotone g ops :
  rg_highest g <= rg_highest (fold_left guard_exec ops g) /\
  (rg_faulted g = true -> rg_faulted (fold_left guard_exec ops g) = true).
Proof.
  revert g. induction ops as [|op ops IH]; intros g; cbn; [split; [lia|done]|].
  destruct (guard_exec_monotone g op), (IH (guard_exec g op)). split; [lia|auto].
Qed.

(** A revision that went back against what was captured is refused then and at
    every later verification; the highest revision never goes back. *)
Lemma regression_latched captured fresh g ops captured' fresh' :
  rg_faulted g = false -> fresh < captured ->
  (VerifyFresh captured fresh g).2 = Some ErrRevisionRegressed /\
  (VerifyFresh captured' fresh' (fold_left guard_exec ops (guard_exec g (GuardVerify captured fresh)))).2 = Some ErrRevisionFault.
Proof.
  intros Hf Hlt. unfold guard_exec at 2. unfold VerifyFresh at 1 3. rewrite Hf.
  destruct (Z.ltb_spec fresh captured); [|lia]. split; [done|]. cbn [fst].
  unfold VerifyFresh. destruct (guard_run_monotone {| g with rg_faulted := true |} ops) as [_ Hl]. rewrite Hl by done. done.
Qed.

(** ** A concrete registry *)

Definition sample_client : Client :=
  {| cl_ID := 1; cl_Revision := 1; cl_Name := "a"; cl_Enabled := true; cl_PriorityClass := PriorityNormal; cl_VLLMPriority := 0;
     cl_MaxConcurrency := 4; cl_RequestsPerMinute := 0; cl_TokensPerMinute := 0; cl_CreatedAt := 0; cl_UpdatedAt := 0 |}.

Definition sample_key : APIKey :=
  {| ak_ID := 7; ak_ClientID := 1; ak_Prefix := "abc"; ak_SecretHash := 0; ak_CreatedAt := 0; ak_ExpiresAt := None;
     ak_RevokedAt := None; ak_LastUsedAt := None |}.

(** A configuration of that revision in which the key is still valid. *)
Definition sample_data (revision : Z) : Data :=
  {| da_Revision := revision; da_Clients := [sample_client]; da_Keys := [sample_key]; da_Pools := []; da_Access := [];
     da_Backends := [] |}.

Definition sample_registry : Registry := (Reload (LoadError := unit) map_to_list (inr (sample_data 3)) New).1.

Lemma revocation_sticky_witness :
  revoked 7 (fold_left (exec map_to_list) [OpUsed 7 20; OpReload (inr (sample_data 4)); OpDeleteBackend 1]
    (MarkKeyRevoked 7 10 sample_registry).1).
Proof.
  apply (revocation_sticky map_to_list (fun m => reflexivity _) 7 10 sample_registry
    (MarkKeyRevoked 7 10 sample_registry).1).
  - vm_compute. reflexivity.
  - repeat constructor. exists sample_key. split; [by left|reflexivity].
Defined.
