(* ===== verification/Tokenization.v ===== *)
(** Admission of tokenization requests: the policy and the request of
    [src/internal/coordination/tokenization.go] and the process-local coordinator
    [src/internal/coordination/local/tokenization.go].

    The struct is a record without its mutex, clock and policy; the policy is
    fixed at construction and is an argument.  Every method runs under the mutex
    and takes the clock reading as [now].  [ctxErr] is what [ctx.Err()] gave.  The
    SHA-256 fingerprint of the encoded request is a parameter. *)

From Stdlib Require Import Sorted.
From S2P Require Import Prelude Domain Float64 Coordination ExpiryQueue.

(** The [Reason] of a decision; [TokenizationNoReason] is the empty string. *)
Inductive TokenizationReason :=
| TokenizationNoReason
| TokenizationClientLimit
| TokenizationBackendLimit
| TokenizationRateLimit
| TokenizationUnavailable
| TokenizationStaleConfiguration
| TokenizationStaleOperation
| TokenizationConflict
| TokenizationLeaseLost.

Record TokenizationPolicy := {
  tp_ClientMaxInflight : Z;
  tp_BackendMaxInflight : Z;
  tp_ClientRPM : Z;
  tp_Timeout : Duration
}.

Definition DefaultTokenizationPolicy : TokenizationPolicy :=
  {| tp_ClientMaxInflight := 4; tp_BackendMaxInflight := 8; tp_ClientRPM := 120; tp_Timeout := 30 * GoTime.Second |}.

(** [Validate() == nil] *)
Definition Validate (p : TokenizationPolicy) : bool :=
  negb ((tp_ClientMaxInflight p <? 1) || (10000 <? tp_ClientMaxInflight p) || (tp_BackendMaxInflight p <? 1) ||
        (10000 <? tp_BackendMaxInflight p) || (tp_ClientRPM p <? 1) || (10000000 <? tp_ClientRPM p) ||
        (tp_Timeout p <=? 0) || (5 * GoTime.Minute <? tp_Timeout p)).

Definition LeaseTTL (p : TokenizationPolicy) : Duration := tp_Timeout p + 15 * GoTime.Second.

Definition Burst (p : TokenizationPolicy) : float64 := of_int (Z.min (tp_ClientRPM p) 10).

Record TokenizationCandidate := {
  tc_BackendID : Z;
  tc_BackendRevision : Z
}.

Record TokenizationAcquireRequest := {
  tr_OperationID : UUID;
  tr_ReplicaID : UUID;
  tr_RequestID : string;
  tr_OperationStartedAt : Time;
  tr_ConfigurationRevision : Z;
  tr_APIKeyID : Z;
  tr_ClientID : Z;
  tr_PoolID : Z;
  tr_PoolRevision : Z;
  tr_Candidates : list TokenizationCandidate
}.

Definition ValidAt (r : TokenizationAcquireRequest) (now : Time) : bool :=
  negb (bool_decide (tr_OperationID r = uuidNil)) && negb (bool_decide (tr_ReplicaID r = uuidNil)) &&
  (0 <? tr_ClientID r) && (0 <? tr_PoolID r) &&
  GoTime.After (tr_OperationStartedAt r) (GoTime.Add now (- (24 * GoTime.Hour))) &&
  negb (GoTime.After (tr_OperationStartedAt r) (GoTime.Add now (5 * GoTime.Minute))).

Record TokenizationLease := {
  tl_OperationID : UUID;
  tl_ReplicaID : UUID;
  tl_ClientID : Z;
  tl_PoolID : Z;
  tl_BackendID : Z;
  tl_BackendRevision : Z;
  tl_AcquiredAt : Time;
  tl_ExpiresAt : Time
}.

#[global] Instance TokenizationLease_eq_dec : EqDecision TokenizationLease.
Proof. solve_decision. Defined.

Record TokenizationDecision := {
  td_Lease : option TokenizationLease;
  td_Reason : TokenizationReason;
  td_RetryAt : option Time
}.

Definition Matches (l other : TokenizationLease) : bool :=
  bool_decide (tl_OperationID l = tl_OperationID other) && bool_decide (tl_ReplicaID l = tl_ReplicaID other) &&
  (tl_ClientID l =? tl_ClientID other) && (tl_PoolID l =? tl_PoolID other) &&
  (tl_BackendID l =? tl_BackendID other) && (tl_BackendRevision l =? tl_BackendRevision other) &&
  GoTime.Equal (tl_AcquiredAt l) (tl_AcquiredAt other) && GoTime.Equal (tl_ExpiresAt l) (tl_ExpiresAt other).

(** A decision that carries only a reason. *)
Definition refuse (reason : TokenizationReason) : TokenizationDecision :=
  {| td_Lease := None; td_Reason := reason; td_RetryAt := None |}.

(** ** The local coordinator *)

Record tokenizationRate := {
  tkr_balance : float64;
  tkr_at : Time
}.

Definition tokenizationReceiptsPerClient : Z := 65536.

(** The built-in [min] and [max] on floats: NaN wins, and -0 is below 0. *)
Definition go_min (x y : float64) : float64 :=
  if IsNaN x || IsNaN y then S754_nan
  else match x, y with
       | S754_zero s, S754_zero s' => S754_zero (s || s')
       | _, _ => if flt y x then y else x
       end.

Definition go_max (x y : float64) : float64 :=
  if IsNaN x || IsNaN y then S754_nan
  else match x, y with
       | S754_zero s, S754_zero s' => S754_zero (s && s')
       | _, _ => if flt x y then y else x
       end.

Definition maxTime (a b : Time) : Time := if GoTime.After a b then a else b.

Section Tokenization.
Context {FP : Type} `{!EqDecision FP} (Fingerprint : TokenizationAcquireRequest -> FP) (policy : TokenizationPolicy).

Record tokenizationReceipt := {
  tkc_clientID : Z;
  tkc_fingerprint : FP;
  tkc_decision : TokenizationDecision;
  tkc_retainUntil : Time;
  tkc_completed : bool
}.

Record TokenizationCoordinator := {
  receipts : gmap UUID tokenizationReceipt;
  rates : gmap Z tokenizationRate;
  receiptCounts : gmap Z Z;
  receiptExpiries : expiryQueue;
  leaseExpiries : expiryQueue;
  active : gmap UUID TokenizationLease;
  clientInflight : gmap Z Z;
  backendInflight : gmap Z Z
}.

Implicit Types (c : TokenizationCoordinator) (r : TokenizationAcquireRequest) (now : Time).

Definition NewTokenizationCoordinator : TokenizationCoordinator :=
  {| receipts := ∅; rates := ∅; receiptCounts := ∅; receiptExpiries := []; leaseExpiries := []; active := ∅;
     clientInflight := ∅; backendInflight := ∅ |}.

(** [Status().Available] *)
Definition TokenizationStatus : bool := Validate policy.

Definition releaseTokenization (c : TokenizationCoordinator) (id : UUID) : TokenizationCoordinator :=
  match active c !! id with
  | None => c
  | Some l =>
    {| c with active := delete id (active c);
              clientInflight := mdecr (clientInflight c) (tl_ClientID l);
              backendInflight := mdecr (backendInflight c) (tl_BackendID l) |}
  end.

(** The bodies of the first two loops of [cleanup]. *)
Definition cleanup_lease (c : TokenizationCoordinator) (entry : expiryEntry) : option TokenizationCoordinator :=
  Some (releaseTokenization c (ee_id entry)).

Definition cleanup_receipt (c : TokenizationCoordinator) (entry : expiryEntry) : option TokenizationCoordinator :=
  match receipts c !! ee_id entry with
  | None => Some c
  | Some rec =>
    Some {| c with receipts := delete (ee_id entry) (receipts c);
                   receiptCounts := mdecr (receiptCounts c) (tkc_clientID rec) |}
  end.

Definition cleanup_rates (now : Time) (m : gmap Z tokenizationRate) : gmap Z tokenizationRate :=
  filter (fun '(_, s) => ~ 24 * GoTime.Hour <= GoTime.Sub now (tkr_at s)) m.

Definition cleanup (now : Time) (c : TokenizationCoordinator) : option TokenizationCoordinator :=
  '(q, c) ← drain (S (length (leaseExpiries c))) now cleanup_lease (leaseExpiries c) c;
  let c := {| c with leaseExpiries := q |} in
  '(q, c) ← drain (S (length (receiptExpiries c))) now cleanup_receipt (receiptExpiries c) c;
  Some {| c with receiptExpiries := q; rates := cleanup_rates now (rates c) |}.

(** The replay of an operation that has a receipt. *)
Definition replay (now : Time) (r : TokenizationAcquireRequest) (old : tokenizationReceipt) : TokenizationDecision :=
  if negb (bool_decide (tkc_fingerprint old = Fingerprint r)) then refuse TokenizationConflict
  else if tkc_completed old ||
          match td_Lease (tkc_decision old) with Some l => negb (GoTime.After (tl_ExpiresAt l) now) | None => false end
  then refuse TokenizationLeaseLost
  else tkc_decision old.

(** The loop over the candidates; the zero [TokenizationCandidate] is no choice
    yet. *)
Definition better (c : TokenizationCoordinator) (selected b : TokenizationCandidate) : bool :=
  (0 <? tc_BackendID b) && (mget (backendInflight c) (tc_BackendID b) <? tp_BackendMaxInflight policy) &&
  ((tc_BackendID selected =? 0) ||
   (mget (backendInflight c) (tc_BackendID b) <? mget (backendInflight c) (tc_BackendID selected)) ||
   (mget (backendInflight c) (tc_BackendID b) =? mget (backendInflight c) (tc_BackendID selected)) &&
   (tc_BackendID b <? tc_BackendID selected)).

Definition select_candidate (c : TokenizationCoordinator) (candidates : list TokenizationCandidate) : TokenizationCandidate :=
  fold_left (fun selected b => if better c selected b then b else selected) candidates
    {| tc_BackendID := 0; tc_BackendRevision := 0 |}.

(** The refilled bucket of a client. *)
Definition refill (now : Time) (clientID : Z) (c : TokenizationCoordinator) : tokenizationRate :=
  let state := default {| tkr_balance := Burst policy; tkr_at := now |} (rates c !! clientID) in
  {| tkr_balance :=
       go_min (Burst policy)
         (fadd (tkr_balance state)
            (fdiv (fmul (go_max fzero (Seconds (GoTime.Sub now (tkr_at state)))) (of_int (tp_ClientRPM policy))) (of_int 60)));
     tkr_at := now |}.

Definition retry_at (now : Time) (balance : float64) : Time :=
  GoTime.Add now
    (trunc_to_int
       (fmul (fdiv (fmul (fsub fone balance) (of_int 60)) (of_int (tp_ClientRPM policy))) (of_int GoTime.Second))).

(** Storing the decision of a new operation in its receipt. *)
Definition decide_receipt (id : UUID) (rec : tokenizationReceipt) (d : TokenizationDecision) (c : TokenizationCoordinator)
    : TokenizationCoordinator * TokenizationDecision :=
  ({| c with receipts := <[id := {| rec with tkc_decision := d |}]> (receipts c) |}, d).

(** The decision on an operation whose receipt [rec] was just added. *)
Definition decide_new (now : Time) (r : TokenizationAcquireRequest) (rec : tokenizationReceipt) (c : TokenizationCoordinator)
    : TokenizationCoordinator * TokenizationDecision :=
  let id := tr_OperationID r in
  if tp_ClientMaxInflight policy <=? mget (clientInflight c) (tr_ClientID r)
  then decide_receipt id rec (refuse TokenizationClientLimit) c
  else
    let selected := select_candidate c (tr_Candidates r) in
    if tc_BackendID selected =? 0 then decide_receipt id rec (refuse TokenizationBackendLimit) c
    else
      let state := refill now (tr_ClientID r) c in
      if flt (tkr_balance state) fone
      then decide_receipt id rec
             {| td_Lease := None; td_Reason := TokenizationRateLimit; td_RetryAt := Some (retry_at now (tkr_balance state)) |} c
      else
        let lease :=
          {| tl_OperationID := id; tl_ReplicaID := tr_ReplicaID r; tl_ClientID := tr_ClientID r; tl_PoolID := tr_PoolID r;
             tl_BackendID := tc_BackendID selected; tl_BackendRevision := tc_BackendRevision selected;
             tl_AcquiredAt := now; tl_ExpiresAt := GoTime.Add now (LeaseTTL policy) |} in
        decide_receipt id rec {| td_Lease := Some lease; td_Reason := TokenizationNoReason; td_RetryAt := None |}
          {| c with rates := <[tr_ClientID r := {| tkr_balance := fsub (tkr_balance state) fone; tkr_at := now |}]> (rates c);
                    active := <[id := lease]> (active c);
                    clientInflight := mincr (clientInflight c) (tr_ClientID r);
                    backendInflight := mincr (backendInflight c) (tc_BackendID selected);
                    leaseExpiries := add (leaseExpiries c) admissionLeaseExpiry id (tl_ExpiresAt lease) |}.

Definition new_receipt (now : Time) (r : TokenizationAcquireRequest) : tokenizationReceipt :=
  {| tkc_clientID := tr_ClientID r; tkc_fingerprint := Fingerprint r; tkc_decision := refuse TokenizationNoReason;
     tkc_retainUntil := GoTime.Add (maxTime now (tr_OperationStartedAt r)) (LeaseTTL policy); tkc_completed := false |}.

(** The context's error, or the decision. *)
Definition Acquire (ctxErr : option Error) (now : Time) (r : TokenizationAcquireRequest) (c : TokenizationCoordinator)
    : option (TokenizationCoordinator * (Error + TokenizationDecision)) :=
  match ctxErr with
  | Some e => Some (c, inl e)
  | None =>
    if negb (Validate policy) then Some (c, inr (refuse TokenizationUnavailable))
    else
      c ← cleanup now c;
      match receipts c !! tr_OperationID r with
      | Some old => Some (c, inr (replay now r old))
      | None =>
        if negb (ValidAt r now) || negb (GoTime.After (tr_OperationStartedAt r) (GoTime.Add now (- LeaseTTL policy)))
        then Some (c, inr (refuse TokenizationStaleOperation))
        else if tokenizationReceiptsPerClient <=? mget (receiptCounts c) (tr_ClientID r)
        then Some (c, inr (refuse TokenizationUnavailable))
        else
          let rec := new_receipt now r in
          let c :=
            {| c with receipts := <[tr_OperationID r := rec]> (receipts c);
                      receiptCounts := mincr (receiptCounts c) (tr_ClientID r);
                      receiptExpiries := add (receiptExpiries c) admissionReceiptExpiry (tr_OperationID r) (tkc_retainUntil rec) |} in
          let '(c, d) := decide_new now r rec c in
          Some (c, inr d)
      end
  end.

(** The errors of [Complete]. *)
Inductive CompleteError := ContextError (e : Error) | UnknownLease | IdentityMismatch.

Definition Complete (ctxErr : option Error) (l : TokenizationLease) (c : TokenizationCoordinator)
    : TokenizationCoordinator * option CompleteError :=
  match ctxErr with
  | Some e => (c, Some (ContextError e))
  | None =>
    match receipts c !! tl_OperationID l with
    | None => (c, Some UnknownLease)
    | Some rec =>
      if match td_Lease (tkc_decision rec) with None => true | Some lease => negb (Matches lease l) end
      then (c, Some IdentityMismatch)
      else
        let c := {| c with receipts := <[tl_OperationID l := {| rec with tkc_completed := true |}]> (receipts c) |} in
        (releaseTokenization c (tl_OperationID l), None)
    end
  end.

(** ** The representation invariant *)

Definition of_client (k : Z) (_ : UUID) (l : TokenizationLease) : bool := tl_ClientID l =? k.
Definition of_backend (k : Z) (_ : UUID) (l : TokenizationLease) : bool := tl_BackendID l =? k.
Definition receipt_of (k : Z) (_ : UUID) (rec : tokenizationReceipt) : bool := tkc_clientID rec =? k.

Definition lease_entry (l : TokenizationLease) : expiryEntry := ExpiryEntry (tl_ExpiresAt l) (tl_OperationID l) admissionLeaseExpiry.
Definition receipt_entry (id : UUID) (rec : tokenizationReceipt) : expiryEntry :=
  ExpiryEntry (tkc_retainUntil rec) id admissionReceiptExpiry.

(** The counters are the numbers of leases and of receipts, within the limits. *)
Record counted c : Prop := {
  co_client : counts (clientInflight c) (fun k => count_if (of_client k) (active c));
  co_backend : counts (backendInflight c) (fun k => count_if (of_backend k) (active c));
  co_receipts : counts (receiptCounts c) (fun k => count_if (receipt_of k) (receipts c));
  co_client_limit : forall k, count_if (of_client k) (active c) <= Z.max 0 (tp_ClientMaxInflight policy);
  co_backend_limit : forall k, count_if (of_backend k) (active c) <= Z.max 0 (tp_BackendMaxInflight policy);
  co_receipt_limit : forall k, count_if (receipt_of k) (receipts c) <= tokenizationReceiptsPerClient
}.

(** An active lease is the lease of its uncompleted receipt and has its entry in
    the queue; every entry of the lease queue belongs to a receipt, which outlives
    it; the receipt queue holds exactly the receipts. *)
Record wf c : Prop := {
  wf_counted : counted c;
  wf_heaps : heap_ok (leaseExpiries c) /\ heap_ok (receiptExpiries c);
  wf_active : forall id l, active c !! id = Some l ->
    tl_OperationID l = id /\ lease_entry l ∈ leaseExpiries c /\
    exists rec, receipts c !! id = Some rec /\ td_Lease (tkc_decision rec) = Some l /\ tkc_completed rec = false;
  wf_entries : forall e, e ∈ leaseExpiries c ->
    exists rec l, receipts c !! ee_id e = Some rec /\ td_Lease (tkc_decision rec) = Some l /\ tl_ExpiresAt l = ee_at e;
  wf_retained : forall id rec l, receipts c !! id = Some rec -> td_Lease (tkc_decision rec) = Some l ->
    tl_OperationID l = id /\ tl_ExpiresAt l <= tkc_retainUntil rec;
  wf_receipts : forall e, e ∈ receiptExpiries c <-> exists rec, receipts c !! ee_id e = Some rec /\ e = receipt_entry (ee_id e) rec
}.

(** ** Releasing and cleaning up *)

Lemma count_if_delete_le {A : Type} (p : UUID -> A -> bool) (m : gmap UUID A) k : count_if p (delete k m) <= count_if p m.
Proof. apply count_if_mono. intros j a [_ Hj]%lookup_delete_Some Hp. eauto. Qed.

(** Taking one element out of a counted map. *)
Lemma counts_delete {A : Type} (f : A -> Z) (counter : gmap Z Z) (m : gmap UUID A) id a :
  counts counter (fun k => count_if (fun _ a => f a =? k) m) -> m !! id = Some a ->
  counts (mdecr counter (f a)) (fun k => count_if (fun _ a => f a =? k) (delete id m)).
Proof.
  intros Hc Ha. eapply counts_ext.
  - apply counts_mdecr; [exact Hc|]. eapply count_if_pos; [exact Ha|]. apply Z.eqb_refl.
  - intros k. cbn. rewrite (count_if_delete _ _ _ _ Ha). destruct (decide (k = f a)) as [->|]; [by rewrite Z.eqb_refl|].
    destruct (Z.eqb_spec (f a) k); [congruence|done].
Qed.

Lemma counts_insert {A : Type} (f : A -> Z) (counter : gmap Z Z) (m : gmap UUID A) id a :
  counts counter (fun k => count_if (fun _ a => f a =? k) m) -> m !! id = None ->
  counts (mincr counter (f a)) (fun k => count_if (fun _ a => f a =? k) (<[id := a]> m)).
Proof.
  intros Hc Ha. eapply counts_ext.
  - apply counts_mincr; [exact Hc|]. apply count_if_nonneg.
  - intros k. cbn. rewrite (count_if_insert _ _ _ _ Ha). destruct (decide (k = f a)) as [->|]; [by rewrite Z.eqb_refl|].
    destruct (Z.eqb_spec (f a) k); [congruence|done].
Qed.

Lemma release_counted c id : counted c -> counted (releaseTokenization c id).
Proof.
  intros Hc. unfold releaseTokenization. destruct (active c !! id) as [l|] eqn:Hl; [|done].
  destruct Hc as [H1 H2 H3 H4 H5 H6]. constructor; cbn; try done.
  - by apply (counts_delete tl_ClientID).
  - by apply (counts_delete tl_BackendID).
  - intros k. etrans; [apply count_if_delete_le|done].
  - intros k. etrans; [apply count_if_delete_le|done].
Qed.

(** Releasing only touches the leases and their counters. *)
Lemma release_frame c id :
  let c' := releaseTokenization c id in
  receipts c' = receipts c /\ receiptExpiries c' = receiptExpiries c /\ leaseExpiries c' = leaseExpiries c /\
  rates c' = rates c /\ receiptCounts c' = receiptCounts c /\ active c' = delete id (active c).
Proof.
  cbn. unfold releaseTokenization. destruct (active c !! id) eqn:E; [done|]. by rewrite delete_id.
Qed.

Lemma delete_unless {A : Type} (m : gmap UUID A) (j : UUID) (l : list UUID) (id : UUID) :
  (if decide (id ∈ l) then None else delete j m !! id) = if decide (id ∈ j :: l) then None else m !! id.
Proof.
  destruct (decide (id ∈ l)) as [Hin|Hin]; [rewrite decide_True; [done|by right]|].
  destruct (decide (id = j)) as [->|Hne]; [rewrite lookup_delete_eq, decide_True; [done|by left]|].
  rewrite lookup_delete_ne, decide_False; [done| |done]. by intros [?|?]%elem_of_cons.
Qed.

(** The first loop of [cleanup]. *)
Lemma release_all c es :
  counted c ->
  exists c', foldM cleanup_lease c es = Some c' /\ counted c' /\
    receipts c' = receipts c /\ receiptExpiries c' = receiptExpiries c /\ leaseExpiries c' = leaseExpiries c /\
    rates c' = rates c /\
    forall id, active c' !! id = if decide (id ∈ map ee_id es) then None else active c !! id.
Proof.
  revert c. induction es as [|e es IH]; intros c Hc.
  - by exists c.
  - cbn. destruct (IH (releaseTokenization c (ee_id e))) as (c' & Hf & Hc' & E1 & E2 & E3 & E4 & Ha).
    { by apply release_counted. }
    destruct (release_frame c (ee_id e)) as (F1 & F2 & F3 & F4 & _ & F6).
    exists c'. split_and!; try done; try congruence. intros id. rewrite Ha, F6.
    apply delete_unless.
Qed.

(** The second loop of [cleanup]. *)
Lemma forget_all c es :
  counted c ->
  exists c', foldM cleanup_receipt c es = Some c' /\ counted c' /\
    active c' = active c /\ receiptExpiries c' = receiptExpiries c /\ leaseExpiries c' = leaseExpiries c /\
    rates c' = rates c /\
    forall id, receipts c' !! id = if decide (id ∈ map ee_id es) then None else receipts c !! id.
Proof.
  revert c. induction es as [|e es IH]; intros c Hc.
  - by exists c.
  - assert (exists c1, cleanup_receipt c e = Some c1 /\ counted c1 /\ active c1 = active c /\
      receiptExpiries c1 = receiptExpiries c /\ leaseExpiries c1 = leaseExpiries c /\ rates c1 = rates c /\
      receipts c1 = delete (ee_id e) (receipts c)) as (c1 & F0 & F1 & F2 & F3 & F4 & F5 & F6).
    { unfold cleanup_receipt. destruct (receipts c !! ee_id e) as [rec|] eqn:Hr.
      - eexists. split_and!; try done. destruct Hc as [H1 H2 H3 H4 H5 H6]. constructor; cbn; try done.
        + by apply (counts_delete tkc_clientID).
        + intros k. etrans; [apply count_if_delete_le|done].
      - exists c. rewrite delete_id by done. by split_and!. }
    cbn. rewrite F0. cbn. destruct (IH c1 F1) as (c' & Hf & Hc' & E1 & E2 & E3 & E4 & Ha).
    exists c'. split_and!; try done; try congruence. intros id. rewrite Ha, F6.
    apply delete_unless.
Qed.

(** Dropping the expired leases and receipts together with their entries. *)
Lemma cleaned_wf now c c' :
  wf c -> counted c' -> heap_ok (leaseExpiries c') /\ heap_ok (receiptExpiries c') ->
  (forall e, e ∈ leaseExpiries c' <-> ~ is_due now e /\ e ∈ leaseExpiries c) ->
  (forall e, e ∈ receiptExpiries c' <-> ~ is_due now e /\ e ∈ receiptExpiries c) ->
  (forall id, active c' !! id = l ← active c !! id; if tl_ExpiresAt l <=? now then None else Some l) ->
  (forall id, receipts c' !! id = rec ← receipts c !! id; if tkc_retainUntil rec <=? now then None else Some rec) ->
  wf c'.
Proof.
  intros [Hco [Hh1 Hh2] Ha He Hret Hrec] Hco' Hh Hq1 Hq2 Hact Hrcp. constructor; [done|done| | | |].
  - intros id l. rewrite Hact. destruct (active c !! id) as [l0|] eqn:Hl; [|done]. cbn.
    destruct (Z.leb_spec (tl_ExpiresAt l0) now) as [|Hgt]; [done|]. intros [= <-].
    destruct (Ha id l0 Hl) as (Hid & Hin & rec & Hr & Hl' & Hcp). split_and!; [done| |].
    + apply Hq1. split; [|done]. unfold is_due. cbn. lia.
    + exists rec. rewrite Hrcp, Hr. cbn. destruct (Hret id rec l0 Hr Hl') as [_ Hle].
      destruct (Z.leb_spec (tkc_retainUntil rec) now); [lia|done].
  - intros e [Hnd Hin]%Hq1.
    destruct (He e Hin) as (rec & l & Hr & Hl & Hat). exists rec, l. split_and!; [|done|done].
    rewrite Hrcp, Hr. cbn. destruct (Hret _ rec l Hr Hl) as [_ Hle]. unfold is_due in Hnd.
    destruct (Z.leb_spec (tkc_retainUntil rec) now); [lia|done].
  - intros id rec l. rewrite Hrcp. intros (rec0 & Hr & Hlt)%bind_Some. case_match; [done|]. simplify_eq. by apply Hret.
  - intros e. rewrite Hq2, Hrec. unfold is_due. split.
    + intros (Hnd & rec & Hr & He'). rewrite He' in Hnd. cbn in Hnd. exists rec. rewrite Hrcp, Hr. cbn.
      destruct (Z.leb_spec (tkc_retainUntil rec) now); [lia|done].
    + intros (rec & Hr & He'). rewrite Hrcp in Hr. apply bind_Some in Hr as (rec0 & Hr0 & Hlt). case_match; [done|]. b2p.
      simplify_eq. split; [rewrite He'; cbn; lia|]. by exists rec.
Qed.

(** [cleanup] never fails; it ends exactly the expired leases and forgets exactly
    the receipts past their retention. *)
Lemma cleanup_spec now c :
  wf c ->
  exists c', cleanup now c = Some c' /\ wf c' /\ rates c' = cleanup_rates now (rates c) /\
    (forall id, active c' !! id = l ← active c !! id; if tl_ExpiresAt l <=? now then None else Some l) /\
    (forall id, receipts c' !! id = rec ← receipts c !! id; if tkc_retainUntil rec <=? now then None else Some rec).
Proof.
  intros [Hco [Hh1 Hh2] Ha He Hret Hrec]. unfold cleanup.
  destruct (drain_correct cleanup_lease (S (length (leaseExpiries c))) now (leaseExpiries c) Hh1 ltac:(lia))
    as (es1 & q1 & Hd1 & _ & Hes1 & Hq1 & Hok1).
  destruct (release_all c es1 Hco) as (c1 & Hf1 & Hco1 & R1 & R2 & R3 & R4 & R5). rewrite Hd1, Hf1. cbn -[drain cleanup_rates].
  destruct (drain_correct cleanup_receipt (S (length (receiptExpiries c1))) now (receiptExpiries c1)) as (es2 & q2 & Hd2 & _ & Hes2 & Hq2 & Hok2).
  { by rewrite R2. } { lia. }
  destruct (forget_all {| c1 with leaseExpiries := q1 |} es2) as (c2 & Hf2 & Hco2 & S1 & S2 & S3 & S4 & S5).
  { destruct Hco1. by constructor. }
  cbn in S1, S2, S3, S4, S5. rewrite Hd2, Hf2. cbn -[cleanup_rates]. rewrite R2 in Hes2, Hq2. rewrite R1 in S5.
  assert (Hids1 : forall id l, active c !! id = Some l -> id ∈ map ee_id es1 <-> tl_ExpiresAt l <= now).
  { intros id l Hl. destruct (Ha id l Hl) as (Hid & Hin & rec & Hr & Hl' & _). split.
    - intros (e & -> & Hin')%list_elem_of_fmap. rewrite Hes1 in Hin'. apply list_elem_of_filter in Hin' as [Hdue Hin'].
      destruct (He e Hin') as (rec' & l' & Hr' & Hl'' & Hat). unfold is_due in Hdue. simplify_eq. congruence.
    - intros Hle. apply list_elem_of_fmap. exists (lease_entry l). split; [done|].
      rewrite Hes1. apply list_elem_of_filter. done. }
  assert (Hids2 : forall id rec, receipts c !! id = Some rec -> id ∈ map ee_id es2 <-> tkc_retainUntil rec <= now).
  { intros id rec Hr. split.
    - intros (e & -> & Hin')%list_elem_of_fmap. rewrite Hes2 in Hin'. apply list_elem_of_filter in Hin' as [Hdue Hin'].
      apply Hrec in Hin' as (rec' & Hr' & He'). unfold is_due in Hdue. rewrite He' in Hdue. cbn in Hdue. congruence.
    - intros Hle. apply list_elem_of_fmap. exists (receipt_entry id rec). split; [done|].
      rewrite Hes2. apply list_elem_of_filter. split; [done|]. apply Hrec. by exists rec. }

  assert (Hact : forall id, active c2 !! id = l ← active c !! id; if tl_ExpiresAt l <=? now then None else Some l).
  { intros id. rewrite S1, R5. specialize (Hids1 id). destruct (active c !! id) as [l|]; cbn; [|by destruct (decide _)].
    destruct (decide _) as [D|D]; rewrite (Hids1 l eq_refl) in D; destruct (Z.leb_spec (tl_ExpiresAt l) now); done || lia. }
  assert (Hrcp : forall id, receipts c2 !! id = rec ← receipts c !! id; if tkc_retainUntil rec <=? now then None else Some rec).
  { intros id. rewrite S5. specialize (Hids2 id). destruct (receipts c !! id) as [rec|]; cbn; [|by destruct (decide _)].
    destruct (decide _) as [D|D]; rewrite (Hids2 rec eq_refl) in D; destruct (Z.leb_spec (tkc_retainUntil rec) now); done || lia. }
  eexists. split_and!; [done| |cbn; congruence|done|done].
  apply (cleaned_wf now c); cbn; [by constructor| | | | |done|done].
  - destruct Hco2. by constructor.
  - by rewrite S3.
  - intros e. by rewrite S3, Hq1, list_elem_of_filter.
  - intros e. by rewrite Hq2, list_elem_of_filter.
Qed.

(** ** The operations keep the invariant *)

(** Adding the receipt of a new operation, without a lease. *)
Lemma add_receipt_wf id rec c :
  wf c -> receipts c !! id = None -> td_Lease (tkc_decision rec) = None ->
  mget (receiptCounts c) (tkc_clientID rec) < tokenizationReceiptsPerClient ->
  wf {| c with receipts := <[id := rec]> (receipts c); receiptCounts := mincr (receiptCounts c) (tkc_clientID rec);
               receiptExpiries := add (receiptExpiries c) admissionReceiptExpiry id (tkc_retainUntil rec) |}.
Proof.
  intros [[H1 H2 H3 H4 H5 H6] [Hh1 Hh2] Ha He Hret Hrec] Hno Hlease Hlim.
  assert (Hkeep : forall j x, receipts c !! j = Some x -> <[id := rec]> (receipts c) !! j = Some x).
  { intros j x Hj. rewrite lookup_insert_ne; [done|]. congruence. }
  constructor; cbn.
  - constructor; cbn; try done; [by apply (counts_insert tkc_clientID)|]. intros k.
    rewrite count_if_insert by done. unfold receipt_of at 2. destruct (Z.eqb_spec (tkc_clientID rec) k) as [<-|]; [|by rewrite Z.add_0_r].
    rewrite (counts_mget _ _ _ H3) in Hlim. lia.
  - split; [done|]. by apply add_spec.
  - intros j l Hl. destruct (Ha j l Hl) as (? & ? & x & Hx & ?). split_and!; [done|done|]. exists x. auto.
  - intros e Hin. destruct (He e Hin) as (x & l & Hx & ?). exists x, l. auto.
  - intros j x l. rewrite lookup_insert_Some. intros [[<- <-]|[_ Hj]] Hl; [congruence|by apply Hret].
  - intros e. rewrite (elem_of_add _ _ _ _ _ Hh2), Hrec. split.
    + intros [->|(x & Hx & Hex)]; cbn; [exists rec; by rewrite lookup_insert_eq|]. exists x. auto.
    + intros (x & Hx & Hex). rewrite lookup_insert_Some in Hx. destruct Hx as [[Hid <-]|[_ Hx]]; [left; by rewrite Hid|right; eauto].
Qed.

(** Changing the decision of a receipt without a lease to another without one. *)
Lemma set_reason_wf id rec d c :
  wf c -> receipts c !! id = Some rec -> td_Lease (tkc_decision rec) = None -> td_Lease d = None ->
  wf {| c with receipts := <[id := {| rec with tkc_decision := d |}]> (receipts c) |}.
Proof.
  intros [[H1 H2 H3 H4 H5 H6] Hh Ha He Hret Hrec] Hr Hlease Hd.
  assert (Hne : forall j x l, receipts c !! j = Some x -> td_Lease (tkc_decision x) = Some l ->
    <[id := {| rec with tkc_decision := d |}]> (receipts c) !! j = Some x).
  { intros j x l Hj Hl. rewrite lookup_insert_ne; [done|]. congruence. }
  assert (Hcount : forall k, count_if (receipt_of k) (<[id := {| rec with tkc_decision := d |}]> (receipts c)) =
    count_if (receipt_of k) (receipts c)) by (intros k; by apply (count_if_replace _ _ _ rec)).
  constructor; cbn; try done.
  - constructor; cbn; try done; [|intros k; by rewrite Hcount]. eapply counts_ext; [exact H3|]. intros k. by rewrite Hcount.
  - intros j l Hl. destruct (Ha j l Hl) as (? & ? & x & Hx & Hxl & ?). split_and!; [done|done|]. exists x. eauto.
  - intros e Hin. destruct (He e Hin) as (x & l & Hx & Hxl & ?). exists x, l. eauto.
  - intros j x l. rewrite lookup_insert_Some. intros [[<- <-]|[_ Hj]] Hl; [cbn in Hl; congruence|by apply Hret].
  - intros e. rewrite Hrec. split; intros (x & Hx & Hex).
    + destruct (decide (ee_id e = id)) as [E|E]; [|exists x; by rewrite lookup_insert_ne].
      rewrite E, Hr in Hx. injection Hx as <-. exists {| rec with tkc_decision := d |}. by rewrite E, lookup_insert_eq, Hex, E.
    + rewrite lookup_insert_Some in Hx. destruct Hx as [[Hj <-]|[_ Hx]]; [|eauto]. exists rec. split; [by rewrite <- Hj|exact Hex].
Qed.

(** Giving the operation of a fresh receipt its lease. *)
Lemma grant_lease_wf id rec lease d c :
  wf c -> receipts c !! id = Some rec -> td_Lease (tkc_decision rec) = None -> tkc_completed rec = false ->
  td_Lease d = Some lease -> tl_OperationID lease = id -> tl_ExpiresAt lease <= tkc_retainUntil rec ->
  mget (clientInflight c) (tl_ClientID lease) < tp_ClientMaxInflight policy ->
  mget (backendInflight c) (tl_BackendID lease) < tp_BackendMaxInflight policy ->
  wf {| c with receipts := <[id := {| rec with tkc_decision := d |}]> (receipts c);
               active := <[id := lease]> (active c);
               clientInflight := mincr (clientInflight c) (tl_ClientID lease);
               backendInflight := mincr (backendInflight c) (tl_BackendID lease);
               leaseExpiries := add (leaseExpiries c) admissionLeaseExpiry id (tl_ExpiresAt lease) |}.
Proof.
  intros [[H1 H2 H3 H4 H5 H6] [Hh1 Hh2] Ha He Hret Hrec] Hr Hnone Hcp Hd Hid Hexp Hcl Hbl.
  assert (Hno : active c !! id = None).
  { destruct (active c !! id) as [l|] eqn:E; [|done]. destruct (Ha id l E) as (_ & _ & x & Hx & Hl & _). congruence. }
  assert (Hne : forall j x l, receipts c !! j = Some x -> td_Lease (tkc_decision x) = Some l ->
    <[id := {| rec with tkc_decision := d |}]> (receipts c) !! j = Some x).
  { intros j x l Hj Hl. rewrite lookup_insert_ne; [done|]. congruence. }
  assert (Hcount : forall k, count_if (receipt_of k) (<[id := {| rec with tkc_decision := d |}]> (receipts c)) =
    count_if (receipt_of k) (receipts c)) by (intros k; by apply (count_if_replace _ _ _ rec)).
  rewrite (counts_mget _ _ _ H1) in Hcl. rewrite (counts_mget _ _ _ H2) in Hbl.
  constructor; cbn.
  - constructor; cbn; [by apply (counts_insert tl_ClientID)|by apply (counts_insert tl_BackendID)| | | |].
    + eapply counts_ext; [exact H3|]. intros k. by rewrite Hcount.
    + intros k. rewrite count_if_insert by done. unfold of_client at 2. destruct (Z.eqb_spec (tl_ClientID lease) k) as [<-|]; [lia|].
      rewrite Z.add_0_r. done.
    + intros k. rewrite count_if_insert by done. unfold of_backend at 2. destruct (Z.eqb_spec (tl_BackendID lease) k) as [<-|]; [lia|].
      rewrite Z.add_0_r. done.
    + intros k. by rewrite Hcount.
  - split; [by apply add_spec|done].
  - intros j l. rewrite lookup_insert_Some. intros [[<- <-]|[_ Hj]].
    + split_and!; [done| |]; [apply elem_of_add; [done|left; by rewrite <- Hid at 1]|]. eexists. by rewrite lookup_insert_eq.
    + destruct (Ha j l Hj) as (? & ? & x & Hx & Hxl & ?). split_and!; [done|apply elem_of_add; auto|]. exists x. eauto.
  - intros e. rewrite (elem_of_add _ _ _ _ _ Hh1). intros [->|Hin]; cbn; [eexists _, lease; by rewrite lookup_insert_eq|].
    destruct (He e Hin) as (x & l & Hx & Hxl & ?). exists x, l. eauto.
  - intros j x l. rewrite lookup_insert_Some. intros [[<- <-]|[_ Hj]] Hl; [cbn in Hl; simplify_eq; done|by apply Hret].
  - intros e. rewrite Hrec. split; intros (x & Hx & Hex).
    + destruct (decide (ee_id e = id)) as [E|E]; [|exists x; by rewrite lookup_insert_ne].
      rewrite E, Hr in Hx. injection Hx as <-. exists {| rec with tkc_decision := d |}. by rewrite E, lookup_insert_eq, Hex, E.
    + rewrite lookup_insert_Some in Hx. destruct Hx as [[Hj <-]|[_ Hx]]; [|eauto]. exists rec. split; [by rewrite <- Hj|exact Hex].
Qed.

(** ** The choice of a backend *)

Definition load c (b : TokenizationCandidate) : Z := mget (backendInflight c) (tc_BackendID b).

(** A usable candidate: a positive identifier below the backend limit. *)
Definition usable c (b : TokenizationCandidate) : Prop := 0 < tc_BackendID b /\ load c b < tp_BackendMaxInflight policy.

(** Fewer leases first, then the smaller identifier. *)
Definition ahead c (a b : TokenizationCandidate) : Prop :=
  load c a < load c b \/ load c a = load c b /\ tc_BackendID a <= tc_BackendID b.

Lemma better_spec c selected b :
  better c selected b = true <->
  usable c b /\ (tc_BackendID selected = 0 \/ load c b < load c selected \/
                 load c b = load c selected /\ tc_BackendID b < tc_BackendID selected).
Proof.
  unfold better, usable, load. rewrite !andb_true_iff, !orb_true_iff, andb_true_iff, !Z.ltb_lt, !Z.eqb_eq. tauto.
Qed.

(** The loop picks the first usable candidate in that order, or none when there
    is no usable one. *)
Lemma select_candidate_spec c l :
  let s := select_candidate c l in
  (tc_BackendID s = 0 /\ forall b, b ∈ l -> ~ usable c b) \/
  ((s ∈ l) /\ usable c s /\ forall b, b ∈ l -> usable c b -> ahead c s b).
Proof.
  cbn zeta. unfold select_candidate. induction l as [|b l IH] using rev_ind.
  { left. split; [done|]. intros b Hb. by apply elem_of_nil in Hb. }
  rewrite fold_left_app. cbn. set (s := fold_left _ l _) in *.
  pose proof (better_spec c s b) as Hb. destruct (better c s b).
  - right. destruct Hb as [[Hu Hlt] _]; [done|]. split_and!; [apply elem_of_app; right; by left|done|].
    intros b' [Hin|Hin%list_elem_of_singleton]%elem_of_app Hu'; [|subst b'; right; lia].
    destruct IH as [[_ Hno]|(_ & [Hpos _] & Hall)]; [by destruct (Hno b' Hin)|].
    specialize (Hall b' Hin Hu'). unfold ahead in *. lia.
  - assert (Hn : ~ (usable c b /\ (tc_BackendID s = 0 \/ load c b < load c s \/
      load c b = load c s /\ tc_BackendID b < tc_BackendID s))) by (intros H; by apply Hb in H).
    destruct IH as [[Hz Hno]|(Hin & Hu & Hall)].
    + left. split; [done|]. intros b' [Hin|Hin%list_elem_of_singleton]%elem_of_app; [by apply Hno|]. subst b'. tauto.
    + right. split_and!; [apply elem_of_app; by left|done|].
      intros b' [Hin'|Hin'%list_elem_of_singleton]%elem_of_app Hu'; [by apply Hall|]. subst b'.
      unfold ahead. apply Decidable.not_not; [unfold Decidable.decidable; lia|]. intros Hc. apply Hn. split; [done|lia].
Qed.

(** ** Acquire and Complete keep the invariant *)

Lemma decide_new_wf now r c :
  wf c -> receipts c !! tr_OperationID r = None ->
  mget (receiptCounts c) (tr_ClientID r) < tokenizationReceiptsPerClient ->
  let rec := new_receipt now r in
  let c1 := {| c with receipts := <[tr_OperationID r := rec]> (receipts c);
                      receiptCounts := mincr (receiptCounts c) (tr_ClientID r);
                      receiptExpiries := add (receiptExpiries c) admissionReceiptExpiry (tr_OperationID r) (tkc_retainUntil rec) |} in
  wf (decide_new now r rec c1).1.
Proof.
  intros Hw Hno Hlim rec c1.
  assert (Hw1 : wf c1) by (by apply (add_receipt_wf (tr_OperationID r) rec)).
  assert (Hr : receipts c1 !! tr_OperationID r = Some rec) by apply lookup_insert_eq.
  unfold decide_new. destruct (tp_ClientMaxInflight policy <=? _) eqn:Hcl; b2p.
  { by apply (set_reason_wf _ rec (refuse TokenizationClientLimit)). }
  pose proof (select_candidate_spec c1 (tr_Candidates r)) as Hsel. cbn zeta in Hsel.
  set (s := select_candidate c1 (tr_Candidates r)) in *.
  destruct (tc_BackendID s =? 0) eqn:Hs; b2p; [by apply (set_reason_wf _ rec (refuse TokenizationBackendLimit))|].
  destruct Hsel as [[? _]|(_ & [_ Hu] & _)]; [done|].
  destruct (flt _ _); [by eapply set_reason_wf|]. unfold decide_receipt. cbn [fst].
  set (lease := {| tl_OperationID := _ |}). set (d := {| td_Lease := Some lease |}).
  pose proof (grant_lease_wf (tr_OperationID r) rec lease d c1) as Hg. cbn [tl_ClientID tl_BackendID lease] in Hg.
  assert (Hexp : tl_ExpiresAt lease <= tkc_retainUntil rec).
  { unfold lease, rec, new_receipt, maxTime. cbn. time_unfold. destruct (_ <? now) eqn:?; b2p; lia. }
  specialize (Hg Hw1 Hr eq_refl eq_refl eq_refl eq_refl Hexp Hcl Hu).
  destruct Hg as [[? ? ? ? ? ?] ? ? ? ? ?]. by constructor.
Qed.

Lemma Acquire_wf ctxErr now r c : wf c -> exists c' d, Acquire ctxErr now r c = Some (c', d) /\ wf c'.
Proof.
  intros Hw. unfold Acquire. destruct ctxErr as [e|]; [by exists c, (inl e)|]. destruct (Validate policy); cbn [negb]; [|by eexists _, _].
  destruct (cleanup_spec now c Hw) as (c1 & -> & Hw1 & _). cbn [mbind option_bind].
  destruct (receipts c1 !! tr_OperationID r) as [old|] eqn:Hr; [by eexists _, _|].
  destruct (_ || _); [by eexists _, _|]. destruct (tokenizationReceiptsPerClient <=? _) eqn:Hl; b2p; [by eexists _, _|].
  pose proof (decide_new_wf now r c1 Hw1 Hr Hl) as Hd. cbn zeta in Hd. destruct (decide_new _ _ _ _) as [c2 d]. by exists c2, (inr d).
Qed.

Lemma Matches_id l l' : Matches l l' = true -> l = l'.
Proof. unfold Matches. time_unfold. intros H. b2p. destruct l, l'. cbn in *. congruence. Qed.

Lemma Complete_wf ctxErr l c : wf c -> wf (Complete ctxErr l c).1.
Proof.
  intros Hw. unfold Complete. destruct ctxErr; [done|]. destruct (receipts c !! tl_OperationID l) as [rec|] eqn:Hr; [|done].
  destruct (td_Lease (tkc_decision rec)) as [lease|] eqn:Hl; [|done]. destruct (Matches lease l) eqn:Hm; [|done]. cbn [negb fst].
  apply Matches_id in Hm as ->.
  destruct Hw as [[H1 H2 H3 H4 H5 H6] Hh Ha He Hret Hrec].
  set (id := tl_OperationID l) in *. set (rec' := {| rec with tkc_completed := true |}).
  set (c1 := {| c with receipts := <[id := rec']> (receipts c) |}).
  assert (Hcount : forall k, count_if (receipt_of k) (receipts c1) = count_if (receipt_of k) (receipts c))
    by (intros k; by apply (count_if_replace _ _ _ rec)).
  assert (Hco : counted c1).
  { constructor; try done; [|intros k; by rewrite Hcount]. eapply counts_ext; [exact H3|]. intros k. by rewrite Hcount. }
  destruct (release_frame c1 id) as (F1 & F2 & F3 & _ & _ & F6).
  assert (Hrc : forall j x, receipts c !! j = Some x -> exists x', receipts c1 !! j = Some x' /\
    tkc_decision x' = tkc_decision x /\ tkc_retainUntil x' = tkc_retainUntil x /\ (j <> id -> x' = x)).
  { intros j x Hj. destruct (decide (j = id)) as [->|Hne].
    - exists rec'. cbn. rewrite lookup_insert_eq. simplify_eq. done.
    - exists x. cbn. by rewrite lookup_insert_ne. }
  constructor; [by apply release_counted|by rewrite F2, F3| | | |].
  - intros j l'. rewrite F6, F1, F3. intros [Hne Hj]%lookup_delete_Some. destruct (Ha j l' Hj) as (? & ? & x & Hx & ?).
    split_and!; [done|done|]. exists x. cbn. by rewrite lookup_insert_ne.
  - intros e. rewrite F3, F1. intros Hin. destruct (He e Hin) as (x & l' & Hx & Hl' & Hat).
    destruct (Hrc _ _ Hx) as (x' & Hx' & Hd & _). exists x', l'. by rewrite Hd.
  - intros j x l'. rewrite F1. cbn. rewrite lookup_insert_Some. intros [[<- <-]|[_ Hj]]; [by apply (Hret _ rec)|by apply Hret].
  - intros e. rewrite F2, F1. cbn. rewrite Hrec. split; intros (x & Hx & Hex).
    + destruct (Hrc _ _ Hx) as (x' & Hx' & _ & Hu & _). exists x'. split; [done|]. unfold receipt_entry in *. by rewrite Hu.
    + rewrite lookup_insert_Some in Hx. destruct Hx as [[Hj <-]|[_ Hx]]; [|eauto]. exists rec. split; [by rewrite <- Hj|exact Hex].
Qed.

(** ** Runs *)

Inductive Op :=
| OpAcquire (ctxErr : option Error) (now : Time) (r : TokenizationAcquireRequest)
| OpComplete (ctxErr : option Error) (l : TokenizationLease).

(** The coordinator and the operations that were charged: identifier and start. *)
Record World := {
  w_coordinator : TokenizationCoordinator;
  w_charged : list (UUID * Time)
}.

(** [Acquire] gave the operation a lease it did not have. *)
Definition newly_granted now r c (d : Error + TokenizationDecision) : bool :=
  match d, cleanup now c with
  | inr d, Some c1 => bool_decide (is_Some (td_Lease d)) && bool_decide (receipts c1 !! tr_OperationID r = None)
  | _, _ => false
  end.

Definition exec (w : World) (op : Op) : option World :=
  match op with
  | OpAcquire ctxErr now r =>
    '(c, d) ← Acquire ctxErr now r (w_coordinator w);
    Some {| w_coordinator := c;
            w_charged := w_charged w ++
              (if newly_granted now r (w_coordinator w) d then [(tr_OperationID r, tr_OperationStartedAt r)] else []) |}
  | OpComplete ctxErr l => Some {| w with w_coordinator := (Complete ctxErr l (w_coordinator w)).1 |}
  end.

Definition start : World := {| w_coordinator := NewTokenizationCoordinator; w_charged := [] |}.

Definition run (ops : list Op) : option World := foldM exec start ops.

Definition clock (op : Op) : list Time := match op with OpAcquire _ now _ => [now] | OpComplete _ _ => [] end.

Lemma start_wf : wf NewTokenizationCoordinator.
Proof.
  constructor; cbn.
  - constructor; cbn; try (apply counts_empty; intros k; apply count_if_empty); intros k; rewrite count_if_empty;
      unfold tokenizationReceiptsPerClient; lia.
  - split; apply heap_ok_nil.
  - intros id l. by rewrite lookup_empty.
  - intros e He. by apply elem_of_nil in He.
  - intros id rec l. by rewrite lookup_empty.
  - intros e. rewrite elem_of_nil. split; [done|]. intros (rec & Hr & _). by rewrite lookup_empty in Hr.
Qed.

Lemma tokenization_exec_wf w op : wf (w_coordinator w) -> exists w', exec w op = Some w' /\ wf (w_coordinator w').
Proof.
  intros Hw. destruct op as [ctxErr now r|ctxErr l]; cbn.
  - destruct (Acquire_wf ctxErr now r _ Hw) as (c' & d & -> & Hw'). by eexists.
  - eexists. split; [done|]. by apply Complete_wf.
Qed.

Lemma tokenization_run_wf ops : exists w, run ops = Some w /\ wf (w_coordinator w).
Proof.
  unfold run. apply (foldM_ind exec (fun w => wf (w_coordinator w))); [apply start_wf|]. intros w op _. apply tokenization_exec_wf.
Qed.

(** ** At most one charge *)

(** A charged operation still has its receipt, or is stale. *)
Definition charged_ok (t : Time) (w : World) : Prop :=
  NoDup (w_charged w) /\
  forall id started, (id, started) ∈ w_charged w ->
    started + LeaseTTL policy <= t \/
    exists rec, receipts (w_coordinator w) !! id = Some rec /\ started + LeaseTTL policy <= tkc_retainUntil rec.

(** What one [Acquire] does to the receipts and the budgets. *)
Lemma Acquire_effect ctxErr now r c c' d :
  wf c -> Acquire ctxErr now r c = Some (c', d) ->
  (c' = c /\ newly_granted now r c d = false) \/
  exists c1, cleanup now c = Some c1 /\ wf c1 /\
    (forall id, receipts c1 !! id = rec ← receipts c !! id; if tkc_retainUntil rec <=? now then None else Some rec) /\
    (forall id, id <> tr_OperationID r -> receipts c' !! id = receipts c1 !! id) /\
    (is_Some (receipts c1 !! tr_OperationID r) -> receipts c' !! tr_OperationID r = receipts c1 !! tr_OperationID r) /\
    (newly_granted now r c d = true ->
      receipts c1 !! tr_OperationID r = None /\ now < tr_OperationStartedAt r + LeaseTTL policy /\
      exists rec, receipts c' !! tr_OperationID r = Some rec /\
        tr_OperationStartedAt r + LeaseTTL policy <= tkc_retainUntil rec) /\
    (newly_granted now r c d = false -> rates c' ⊆ rates c /\ active c' ⊆ active c).
Proof.
  intros Hw. unfold Acquire. destruct ctxErr as [e|]; [intros [= <- <-]; by left|].
  destruct (Validate policy); cbn [negb]; [|intros [= <- <-]; left; split; [done|]; unfold newly_granted; by destruct (cleanup now c)].
  destruct (cleanup_spec now c Hw) as (c1 & Hc & Hw1 & Hrt & Hac & Hrcp).
  assert (Hsub : rates c1 ⊆ rates c /\ active c1 ⊆ active c).
  { split; [rewrite Hrt; apply map_filter_subseteq|]. apply map_subseteq_spec. intros id l. rewrite Hac.
    intros (l0 & Hl0 & Hl)%bind_Some. case_match; [done|]. congruence. }
  rewrite Hc. cbn [mbind option_bind]. unfold newly_granted. rewrite Hc.
  destruct (receipts c1 !! tr_OperationID r) as [old|] eqn:Hr.
  { intros [= <- <-]. right. exists c1. rewrite (bool_decide_eq_false_2 (_ = None)) by done. rewrite andb_false_r.
    split_and!; try done. }
  destruct (negb (ValidAt r now) || _) eqn:Hst.
  { intros [= <- <-]. right. exists c1. rewrite bool_decide_eq_false_2 by (cbn; by intros [? ?]). cbn [andb].
    split_and!; try done. }
  destruct (_ <=? _); [intros [= <- <-]; right; exists c1;
    rewrite bool_decide_eq_false_2 by (cbn; by intros [? ?]); cbn [andb]; split_and!; done|].
  b2p. unfold decide_new.
  assert (Hrej : forall d0, td_Lease d0 = None -> bool_decide (is_Some (td_Lease d0)) = false)
    by (intros d0 ->; apply bool_decide_eq_false_2; by intros [? ?]).
  destruct (_ <=? mget (clientInflight _) _); [|destruct (tc_BackendID _ =? 0); [|destruct (flt _ _)]];
    intros [= <- <-]; right; exists c1; rewrite ?(bool_decide_eq_true_2 (None = None)), ?andb_true_r by done;
    rewrite ?Hrej by done; cbn [andb]; split_and!; cbn; try done;
    try (intros id Hne; by rewrite !lookup_insert_ne); try (intros [? ?]; congruence).
  intros _. split; [done|]. split; [time_unfold; b2p; lia|]. eexists. rewrite lookup_insert_eq. split; [done|]. cbn.
  unfold maxTime. time_unfold. case_match; b2p; lia.
Qed.

Lemma exec_charged t w op w' :
  wf (w_coordinator w) -> charged_ok t w -> (forall now, now ∈ clock op -> t <= now) -> exec w op = Some w' ->
  charged_ok (default t (head (clock op))) w'.
Proof.
  intros Hw [Hnd Hch] Ht Hex. destruct op as [ctxErr now r|ctxErr l]; cbn in Hex.
  - destruct (Acquire ctxErr now r (w_coordinator w)) as [[c' d]|] eqn:Ha; [|done]. injection Hex as <-.
    assert (Hle : t <= now) by (apply Ht; by left). unfold charged_ok. cbn.
    destruct (Acquire_effect _ _ _ _ _ _ Hw Ha) as [[-> ->]|(c1 & _ & _ & Hrcp & Hother & Hsame & Hgrant & _)].
    { rewrite app_nil_r. split; [done|]. intros id st Hin. destruct (Hch id st Hin) as [?|?]; [left; lia|by right]. }
    assert (Hold : forall id st, (id, st) ∈ w_charged w -> st + LeaseTTL policy <= now \/
      (exists rec, receipts c1 !! id = Some rec /\ st + LeaseTTL policy <= tkc_retainUntil rec)).
    { intros id st Hin. destruct (Hch id st Hin) as [?|(rec & Hr & Hle')]; [left; lia|].
      destruct (Z.leb_spec (tkc_retainUntil rec) now); [left; lia|]. right. exists rec. split; [|done].
      rewrite Hrcp, Hr. cbn. destruct (Z.leb_spec (tkc_retainUntil rec) now); [lia|done]. }
    assert (Hkeep : forall id rec, receipts c1 !! id = Some rec -> receipts c' !! id = Some rec).
    { intros id rec Hr. destruct (decide (id = tr_OperationID r)) as [->|Hne]; [|by rewrite Hother]. rewrite Hsame; eauto. }
    destruct (newly_granted now r (w_coordinator w) d); [|rewrite app_nil_r].
    + destruct (Hgrant eq_refl) as (Hno & Hfresh & rec & Hr & Hret). split.
      * apply NoDup_app. split_and!; [done| |apply NoDup_singleton]. intros [id st] Hin [= -> ->]%list_elem_of_singleton.
        destruct (Hold _ _ Hin) as [?|(rec' & Hr' & _)]; [lia|congruence].
      * intros id st [Hin|[= -> ->]%list_elem_of_singleton]%elem_of_app; [|eauto].
        destruct (Hold _ _ Hin) as [?|(rec' & Hr' & ?)]; [by left|eauto].
    + split; [done|]. intros id st Hin. destruct (Hold _ _ Hin) as [?|(rec' & Hr' & ?)]; [by left|eauto].
  - injection Hex as <-. split; [done|]. cbn. intros id st Hin. destruct (Hch id st Hin) as [?|(rec & Hr & Hret)]; [by left|right].
    unfold Complete. destruct ctxErr; [eauto|]. destruct (receipts (w_coordinator w) !! tl_OperationID l) as [rec0|] eqn:Hl; [|eauto].
    destruct (td_Lease (tkc_decision rec0)) as [lease|]; [|eauto]. destruct (Matches lease l); [|eauto]. cbn [negb fst].
    match goal with |- context [releaseTokenization ?c ?i] => destruct (release_frame c i) as (-> & _) end. cbn.
    destruct (decide (id = tl_OperationID l)) as [->|Hne]; [|rewrite lookup_insert_ne by done; eauto].
    eexists. rewrite lookup_insert_eq. split; [done|]. cbn. congruence.
Qed.

Lemma run_charged ops t w w' :
  wf (w_coordinator w) -> charged_ok t w -> Sorted Z.le (t :: ops ≫= clock) -> foldM exec w ops = Some w' ->
  wf (w_coordinator w') /\ NoDup (w_charged w').
Proof.
  revert t w. induction ops as [|op ops IH]; intros t w Hw Hch Hs Hrun; cbn in Hrun.
  { injection Hrun as <-. split; [done|apply Hch]. }
  destruct (tokenization_exec_wf w op Hw) as (w1 & Hex & Hw1). rewrite Hex in Hrun. cbn in Hrun.
  assert (Hs' : (forall now, now ∈ clock op -> t <= now) /\ Sorted Z.le (default t (head (clock op)) :: ops ≫= clock)).
  { destruct op as [e now r|e l]; cbn in Hs |- *.
    - apply Sorted_inv in Hs as [Hs1 Hhd]. apply HdRel_inv in Hhd. split; [|done]. intros ? ->%list_elem_of_singleton. exact Hhd.
    - split; [by intros ? ?%elem_of_nil|done]. }
  destruct Hs' as [Hle Hs']. apply (IH (default t (head (clock op))) w1); [done| |done|done].
  exact (exec_charged t w op w1 Hw Hch Hle Hex).
Qed.

(** ** Properties *)

(** Whatever is asked of the tokenization coordinator, in whatever order and
    with whatever clock readings, it does not fail, no client and no backend has
    more leases than its limit, no client has more than 65536 receipts, and the
    counters are those numbers. *)
Theorem tokenization_limits_hold ops :
  exists w, run ops = Some w /\
    let c := w_coordinator w in
    forall k,
      mget (clientInflight c) k = count_if (of_client k) (active c) /\
      mget (backendInflight c) k = count_if (of_backend k) (active c) /\
      mget (receiptCounts c) k = count_if (receipt_of k) (receipts c) /\
      mget (clientInflight c) k <= Z.max 0 (tp_ClientMaxInflight policy) /\
      mget (backendInflight c) k <= Z.max 0 (tp_BackendMaxInflight policy) /\
      mget (receiptCounts c) k <= tokenizationReceiptsPerClient.
Proof.
  destruct (tokenization_run_wf ops) as (w & Hrun & [[H1 H2 H3 H4 H5 H6] _ _ _ _ _]). exists w. split; [done|]. cbn zeta. intros k.
  rewrite (counts_mget _ _ _ H1), (counts_mget _ _ _ H2), (counts_mget _ _ _ H3). split_and!; auto.
Qed.

(** With a clock that does not go back, a tokenization operation is charged at
    most once: no identifier is granted two leases for the same start, even after
    the receipt of the first was forgotten; and a call that does not grant a new
    lease takes nothing from a rate budget and starts no lease. *)
Theorem tokenization_charged_once ops w :
  Sorted Z.le (ops ≫= clock) -> run ops = Some w ->
  NoDup (w_charged w) /\
  forall ctxErr now r c' d, Acquire ctxErr now r (w_coordinator w) = Some (c', d) ->
    newly_granted now r (w_coordinator w) d = false ->
    rates c' ⊆ rates (w_coordinator w) /\ active c' ⊆ active (w_coordinator w).
Proof.
  intros Hs Hrun.
  destruct (run_charged ops (default (0 : Time) (head (ops ≫= clock))) start w) as [Hw Hnd]; [apply start_wf| | |exact Hrun|].
  - split; [constructor|]. cbn. intros id st Hin. by apply elem_of_nil in Hin.
  - constructor; [done|]. destruct (ops ≫= clock); constructor. apply Z.le_refl.
  - split; [done|]. intros ctxErr now r c' d Ha Hn. destruct (Acquire_effect _ _ _ _ _ _ Hw Ha) as [[-> _]|H]; [done|].
    destruct H as (c1 & _ & _ & _ & _ & _ & _ & H). by apply H.
Qed.
End Tokenization.

(** ** A concrete run *)

Definition sample_request (id : UUID) : TokenizationAcquireRequest :=
  {| tr_OperationID := id; tr_ReplicaID := 1%N; tr_RequestID := "r"; tr_OperationStartedAt := 1000 * GoTime.Second;
     tr_ConfigurationRevision := 1; tr_APIKeyID := 1; tr_ClientID := 1; tr_PoolID := 1; tr_PoolRevision := 1;
     tr_Candidates := [{| tc_BackendID := 2; tc_BackendRevision := 1 |}; {| tc_BackendID := 1; tc_BackendRevision := 1 |}] |}.

(** An operation, its replay, another one, and the first again once its receipt is
    gone. *)
Definition sample_ops : list Op :=
  [OpAcquire None (1000 * GoTime.Second) (sample_request 7%N); OpAcquire None (1001 * GoTime.Second) (sample_request 7%N);
   OpAcquire None (1002 * GoTime.Second) (sample_request 8%N); OpAcquire None (1100 * GoTime.Second) (sample_request 7%N)].

Lemma tokenization_charged_once_witness :
  match run tr_RequestID DefaultTokenizationPolicy sample_ops with
  | Some w => NoDup (w_charged w) /\ length (w_charged w) = 2%nat
  | None => False
  end.
Proof.
  assert (Hrun : match run tr_RequestID DefaultTokenizationPolicy sample_ops with
    | Some w => length (w_charged w) = 2%nat | None => False end) by (vm_compute; reflexivity).
  destruct (run tr_RequestID DefaultTokenizationPolicy sample_ops) as [w|] eqn:Hw; [|contradiction].
  split; [|exact Hrun].
  refine (proj1 (tokenization_charged_once tr_RequestID DefaultTokenizationPolicy sample_ops w _ Hw)).
  repeat constructor; vm_compute; discriminate.
Defined.
