(* ===== verification/GoStrings.v ===== *)
(** Strings and HTTP headers as the sources use them: [strings.TrimSpace],
    [strings.TrimRight], [strings.Split], [http.CanonicalHeaderKey] and the methods
    of [http.Header].

    A Go string is its bytes.  [TrimSpace] strips the UTF-8 encodings of the
    Unicode white space. *)

From Stdlib Require Import Ascii.
From S2P Require Import Prelude.

Abbreviation bytes := String.list_ascii_of_string.
Abbreviation of_bytes := String.string_of_list_ascii.

Lemma of_bytes_bytes s : of_bytes (bytes s) = s.
Proof. apply String.string_of_list_ascii_of_string. Qed.

Lemma bytes_of_bytes l : bytes (of_bytes l) = l.
Proof. apply String.list_ascii_of_string_of_list_ascii. Qed.

(** ** strings *)

Definition chr (n : N) : ascii := ascii_of_N n.

(** The encodings of the white space characters. *)
Definition spaces : list (list ascii) :=
  Eval vm_compute in
    map (map chr)
      ([[9]; [10]; [11]; [12]; [13]; [32]; [194; 133]; [194; 160]; [225; 154; 128]; [226; 128; 168]; [226; 128; 169];
        [226; 128; 175]; [226; 129; 159]; [227; 128; 128]] ++ map (fun k => [226; 128; 128 + N.of_nat k]) (seq 0 11))%N.

(** What remains of [l] after a prefix [p]. *)
Fixpoint strip (p l : list ascii) : option (list ascii) :=
  match p, l with
  | [], _ => Some l
  | c :: p', d :: l' => if Ascii.eqb c d then strip p' l' else None
  | _ :: _, [] => None
  end.

Fixpoint strip_any (ps : list (list ascii)) (l : list ascii) : option (list ascii) :=
  match ps with
  | [] => None
  | p :: ps' => match strip p l with Some r => Some r | None => strip_any ps' l end
  end.

(** Stripping as often as possible; every round shortens the list. *)
Fixpoint trim_left (fuel : nat) (ps : list (list ascii)) (l : list ascii) : list ascii :=
  match fuel with
  | O => l
  | S fuel => match strip_any ps l with Some r => trim_left fuel ps r | None => l end
  end.

Definition trim_with (ps : list (list ascii)) (l : list ascii) : list ascii := trim_left (length l) ps l.

Definition TrimSpace (s : string) : string :=
  let l := trim_with spaces (bytes s) in
  of_bytes (rev (trim_with (map (@rev ascii) spaces) (rev l))).

(** [strings.TrimRight(s, c)] for a single character. *)
Definition TrimRight (c : ascii) (s : string) : string := of_bytes (rev (trim_with [[c]] (rev (bytes s)))).

#[global] Arguments TrimSpace : simpl never.
#[global] Arguments TrimRight : simpl never.

Definition HasPrefix (s prefix : string) : bool := String.prefix prefix s.

(** [strings.Split(s, c)] for a single character. *)
Fixpoint split_bytes (c : ascii) (l acc : list ascii) : list (list ascii) :=
  match l with
  | [] => [rev acc]
  | d :: l' => if Ascii.eqb c d then rev acc :: split_bytes c l' [] else split_bytes c l' (d :: acc)
  end.

Definition Split (c : ascii) (s : string) : list string := map of_bytes (split_bytes c (bytes s) []).

(** ** http.CanonicalHeaderKey *)

Definition in_range (a b : ascii) (c : ascii) : bool :=
  (N_of_ascii a <=? N_of_ascii c)%N && (N_of_ascii c <=? N_of_ascii b)%N.

Definition is_upper := in_range "A" "Z".
Definition is_lower := in_range "a" "z".

(** The bytes of a header field name. *)
Definition validHeaderFieldByte (c : ascii) : bool :=
  is_upper c || is_lower c || in_range "0" "9" c ||
  existsb (Ascii.eqb c) (bytes "!#$%&'*+-.^_`|~").

Definition to_upper (c : ascii) : ascii := if is_lower c then chr (N_of_ascii c - 32) else c.
Definition to_lower (c : ascii) : ascii := if is_upper c then chr (N_of_ascii c + 32) else c.

Fixpoint canonical (upper : bool) (l : list ascii) : list ascii :=
  match l with
  | [] => []
  | c :: l' =>
    let c := if upper then to_upper c else to_lower c in
    c :: canonical (Ascii.eqb c "-") l'
  end.

Definition CanonicalHeaderKey (s : string) : string :=
  if forallb validHeaderFieldByte (bytes s) then of_bytes (canonical true (bytes s)) else s.

(** ** http.Header *)

Abbreviation Header := (gmap string (list string)).

Module Header.

Definition Values (h : Header) (key : string) : list string := default [] (h !! CanonicalHeaderKey key).

Definition Get (h : Header) (key : string) : string := default EmptyString (head (Values h key)).

Definition Del (h : Header) (key : string) : Header := delete (CanonicalHeaderKey key) h.

Definition Set_ (h : Header) (key value : string) : Header := <[CanonicalHeaderKey key := [value]]> h.

Definition Add (h : Header) (key value : string) : Header := <[CanonicalHeaderKey key := Values h key ++ [value]]> h.

End Header.

(** ** Trimming *)

Lemma strip_app p l r : strip p l = Some r <-> l = p ++ r.
Proof.
  revert l. induction p as [|c p IH]; intros l; cbn; [split; congruence|]. destruct l as [|d l]; [done|].
  destruct (Ascii.eqb_spec c d) as [->|Hne]; [rewrite IH; split; congruence|]. split; [done|]. intros [= ? _]. congruence.
Qed.

Lemma strip_any_Some ps l r : strip_any ps l = Some r -> exists p, p ∈ ps /\ l = p ++ r.
Proof.
  induction ps as [|p ps IH]; cbn; [done|]. destruct (strip p l) as [r0|] eqn:E.
  - intros [= ->]. apply strip_app in E. exists p. split; [by left|done].
  - intros H. destruct (IH H) as (q & ? & ?). exists q. split; [by right|done].
Qed.

Lemma strip_any_None ps l : strip_any ps l = None <-> forall p r, p ∈ ps -> l <> p ++ r.
Proof.
  induction ps as [|p ps IH]; cbn.
  - split; [|done]. intros _ p r Hp. by apply elem_of_nil in Hp.
  - destruct (strip p l) as [r0|] eqn:E.
    + split; [done|]. intros H. apply strip_app in E. by destruct (H p r0); [left|].
    + rewrite IH. split; [|intros H q r Hq; apply H; by right]. intros H q r [->|Hq]%elem_of_cons; [|by apply H].
      intros Heq. apply strip_app in Heq. congruence.
Qed.

(** Trimming strips a sequence of the patterns and leaves nothing to strip. *)
Lemma trim_with_spec ps l :
  (forall p, p ∈ ps -> p <> []) ->
  exists qs, Forall (.∈ ps) qs /\ l = concat qs ++ trim_with ps l /\ strip_any ps (trim_with ps l) = None.
Proof.
  intros Hne. unfold trim_with. assert (H : forall n l, (length l <= n)%nat ->
    exists qs, Forall (.∈ ps) qs /\ l = concat qs ++ trim_left n ps l /\ strip_any ps (trim_left n ps l) = None); [|by apply H].
  clear l. induction n as [|n IH]; intros l Hl; cbn.
  - destruct l; [|cbn in Hl; lia]. exists []. split_and!; [constructor|done|]. apply strip_any_None.
    intros p r Hp Heq. destruct p; [by apply (Hne [])|done].
  - destruct (strip_any ps l) as [r|] eqn:E; [|exists []; by split_and!]. apply strip_any_Some in E as (p & Hp & ->).
    rewrite length_app in Hl. assert (length p <> 0)%nat by (intros H0%nil_length_inv; by apply (Hne p)).
    destruct (IH r ltac:(lia)) as (qs & Hqs & Heq & Hno). exists (p :: qs). split_and!; [by constructor| |done].
    cbn. by rewrite <- app_assoc, <- Heq.
Qed.

Lemma trim_with_fix ps l : (forall p, p ∈ ps -> p <> []) -> strip_any ps l = None -> trim_with ps l = l.
Proof. intros Hne H. unfold trim_with. destruct (length l); cbn; [done|by rewrite H]. Qed.

Lemma spaces_nonempty p : p ∈ spaces -> p <> [].
Proof.
  assert (H : Forall (fun p : list ascii => p <> []) spaces) by (repeat constructor; discriminate).
  rewrite Forall_forall in H. apply H.
Qed.

Lemma rev_spaces_nonempty p : p ∈ map (@rev ascii) spaces -> p <> [].
Proof.
  intros (q & -> & Hq)%list_elem_of_fmap H. apply (spaces_nonempty q Hq). by rewrite <- (rev_involutive q), H.
Qed.

(** A string without white space at its ends. *)
Definition trimmed (s : string) : Prop :=
  strip_any spaces (bytes s) = None /\ strip_any (map (@rev ascii) spaces) (rev (bytes s)) = None.

Lemma TrimSpace_trimmed s : trimmed (TrimSpace s).
Proof.
  unfold trimmed, TrimSpace. rewrite bytes_of_bytes, rev_involutive.
  destruct (trim_with_spec spaces (bytes s) spaces_nonempty) as (qs & _ & _ & Hl). set (l := trim_with spaces (bytes s)) in *.
  destruct (trim_with_spec (map (@rev ascii) spaces) (rev l) rev_spaces_nonempty) as (qs' & _ & Heq & Hr).
  split; [|done]. apply strip_any_None. intros p r Hp Hpr. rewrite strip_any_None in Hl.
  apply (Hl p (r ++ rev (concat qs')) Hp). rewrite app_assoc, <- Hpr, <- rev_app_distr, <- Heq. by rewrite rev_involutive.
Qed.

Lemma TrimSpace_fix s : trimmed s -> TrimSpace s = s.
Proof.
  intros [H1 H2]. unfold TrimSpace. rewrite (trim_with_fix spaces) by (done || apply spaces_nonempty).
  rewrite trim_with_fix by (done || apply rev_spaces_nonempty). by rewrite rev_involutive, of_bytes_bytes.
Qed.
