(* ===== verification/Validate.v ===== *)
(** Validation of the configuration records ([src/internal/domain/validate.go]).

    The methods normalise their receiver in place and return an error; here they
    give the normalised record or the error.  [net/url] is a parameter: [url_parse]
    is [url.Parse] on a string and [url_string] the [String] method of a URL. *)

From Stdlib Require Import Ascii.
From S2P Require Import Prelude Domain Float64 GoStrings.

Definition MaxPublicModelNameBytes : Z := 256.
Definition MaxClientConcurrency : Z := 10000.
Definition MaxPoolGatewayInflight : Z := 100000.
Definition MaxRequestsPerMinute : Z := 10000000.
Definition MaxTokensPerMinute : Z := 10000000000000.

Definition MinInt32 : Z := - 2 ^ 31.
Definition MaxInt32 : Z := 2 ^ 31 - 1.

(** One constructor per error message. *)
Inductive ValidationError :=
| ClientNameRequired
| InvalidPriorityClass
| PriorityOutOfRange
| NegativeConcurrency
| ConcurrencyTooLarge
| RequestsPerMinuteOutOfRange
| TokensPerMinuteOutOfRange
| PublicModelNameRequired
| PublicModelNameTooLong
| UpstreamModelNameRequired
| NegativeGatewayInflight
| GatewayInflightTooLarge
| InvalidHighPriorityReserve
| NegativeMaxWaiting
| BackendNameRequired
| InvalidCapacityHint
| InvalidRunningSoftLimit
| BadBaseURL
| BaseURLScheme
| BaseURLNotAbsolute
| BaseURLUserInformation
| BaseURLQueryOrFragment.

(** [len(s)] *)
Definition slen (s : string) : Z := Z.of_nat (String.length s).

Definition Client_validatePolicy (previous : option Client) (c : Client) : ValidationError + Client :=
  let c := {| c with cl_Name := TrimSpace (cl_Name c) |} in
  if bool_decide (cl_Name c = EmptyString) then inl ClientNameRequired
  else if negb (PriorityClass_Valid (cl_PriorityClass c)) then inl InvalidPriorityClass
  else if (cl_VLLMPriority c <? MinInt32) || (MaxInt32 <? cl_VLLMPriority c) then inl PriorityOutOfRange
  else if cl_MaxConcurrency c <? 0 then inl NegativeConcurrency
  else if (MaxClientConcurrency <? cl_MaxConcurrency c) &&
          match previous with None => true | Some p => negb (cl_MaxConcurrency c =? cl_MaxConcurrency p) end
  then inl ConcurrencyTooLarge
  else if (cl_RequestsPerMinute c <? 0) || (MaxRequestsPerMinute <? cl_RequestsPerMinute c)
  then inl RequestsPerMinuteOutOfRange
  else if (cl_TokensPerMinute c <? 0) || (MaxTokensPerMinute <? cl_TokensPerMinute c) then inl TokensPerMinuteOutOfRange
  else inr c.

Definition Client_Validate (c : Client) : ValidationError + Client := Client_validatePolicy None c.
Definition Client_ValidateUpdate (previous c : Client) : ValidationError + Client := Client_validatePolicy (Some previous) c.

Definition Pool_validatePolicy (previous : option ModelPool) (p : ModelPool) : ValidationError + ModelPool :=
  let p := {| p with mp_PublicModelName := TrimSpace (mp_PublicModelName p);
                     mp_UpstreamModelName := TrimSpace (mp_UpstreamModelName p) |} in
  if bool_decide (mp_PublicModelName p = EmptyString) then inl PublicModelNameRequired
  else if MaxPublicModelNameBytes <? slen (mp_PublicModelName p) then inl PublicModelNameTooLong
  else if bool_decide (mp_UpstreamModelName p = EmptyString) then inl UpstreamModelNameRequired
  else if mp_MaxGatewayInflight p <? 0 then inl NegativeGatewayInflight
  else if (MaxPoolGatewayInflight <? mp_MaxGatewayInflight p) &&
          match previous with None => true | Some q => negb (mp_MaxGatewayInflight p =? mp_MaxGatewayInflight q) end
  then inl GatewayInflightTooLarge
  else if (mp_HighPriorityReserve p <? 0) ||
          ((0 <? mp_HighPriorityReserve p) &&
           ((mp_MaxGatewayInflight p <=? 0) || (mp_MaxGatewayInflight p <? mp_HighPriorityReserve p)))
  then inl InvalidHighPriorityReserve
  else if mp_MaxWaiting p <? 0 then inl NegativeMaxWaiting
  else inr p.

Definition Pool_Validate (p : ModelPool) : ValidationError + ModelPool := Pool_validatePolicy None p.
Definition Pool_ValidateUpdate (previous p : ModelPool) : ValidationError + ModelPool := Pool_validatePolicy (Some previous) p.

(** The fields of [url.URL] that [Validate] reads or sets; the rest is opaque. *)
Record URL {Rest : Type} := {
  url_Scheme : string;
  url_Host : string;
  url_User : bool;
  url_RawQuery : string;
  url_Fragment : string;
  url_Path : string;
  url_RawPath : string;
  url_rest : Rest
}.
Arguments URL : clear implicits.

(** [math.IsNaN(x) || math.IsInf(x, 0) || x <= 0] *)
Definition not_positive (x : float64) : bool := IsNaN x || IsInf x || fle x fzero.

Section Backend.
Context {Rest : Type} (url_parse : string -> option (URL Rest)) (url_string : URL Rest -> string).

Definition trim_paths (u : URL Rest) : URL Rest :=
  {| u with url_Path := TrimRight "/"%char (url_Path u); url_RawPath := TrimRight "/"%char (url_RawPath u) |}.

Definition Backend_Validate (b : Backend) : ValidationError + Backend :=
  let b := {| b with be_Name := TrimSpace (be_Name b) |} in
  if bool_decide (be_Name b = EmptyString) then inl BackendNameRequired
  else if not_positive (be_CapacityHint b) then inl InvalidCapacityHint
  else if not_positive (be_RunningSoftLimit b) then inl InvalidRunningSoftLimit
  else
    match url_parse (TrimSpace (be_BaseURL b)) with
    | None => inl BadBaseURL
    | Some parsed =>
      if negb (bool_decide (url_Scheme parsed = "http")) && negb (bool_decide (url_Scheme parsed = "https")) then inl BaseURLScheme
      else if bool_decide (url_Host parsed = EmptyString) then inl BaseURLNotAbsolute
      else if url_User parsed then inl BaseURLUserInformation
      else if negb (bool_decide (url_RawQuery parsed = EmptyString)) || negb (bool_decide (url_Fragment parsed = EmptyString))
      then inl BaseURLQueryOrFragment
      else
        inr {| b with be_BaseURL := url_string (trim_paths parsed);
                      be_UpstreamAPIKeyEnv := TrimSpace (be_UpstreamAPIKeyEnv b) |}
    end.

End Backend.

(** ** What a validated record satisfies *)

Record client_ok (previous : option Client) (c : Client) : Prop := {
  cok_name : trimmed (cl_Name c) /\ cl_Name c <> EmptyString;
  cok_class : PriorityClass_Valid (cl_PriorityClass c) = true;
  cok_priority : MinInt32 <= cl_VLLMPriority c <= MaxInt32;
  cok_concurrency : 0 <= cl_MaxConcurrency c /\
    (cl_MaxConcurrency c <= MaxClientConcurrency \/ exists p, previous = Some p /\ cl_MaxConcurrency c = cl_MaxConcurrency p);
  cok_rates : 0 <= cl_RequestsPerMinute c <= MaxRequestsPerMinute /\ 0 <= cl_TokensPerMinute c <= MaxTokensPerMinute
}.

Record pool_ok (previous : option ModelPool) (p : ModelPool) : Prop := {
  pok_public : trimmed (mp_PublicModelName p) /\ mp_PublicModelName p <> EmptyString /\
    slen (mp_PublicModelName p) <= MaxPublicModelNameBytes;
  pok_upstream : trimmed (mp_UpstreamModelName p) /\ mp_UpstreamModelName p <> EmptyString;
  pok_inflight : 0 <= mp_MaxGatewayInflight p /\
    (mp_MaxGatewayInflight p <= MaxPoolGatewayInflight \/
     exists q, previous = Some q /\ mp_MaxGatewayInflight p = mp_MaxGatewayInflight q);
  pok_reserve : 0 <= mp_HighPriorityReserve p <= mp_MaxGatewayInflight p \/ mp_HighPriorityReserve p = 0;
  pok_waiting : 0 <= mp_MaxWaiting p
}.

(** Validation accepts exactly the records that satisfy the type once their names
    are trimmed, and changes nothing else. *)
Lemma Client_validate_spec previous c c' :
  Client_validatePolicy previous c = inr c' <->
  c' = {| c with cl_Name := TrimSpace (cl_Name c) |} /\ client_ok previous c'.
Proof.
  unfold Client_validatePolicy. set (d := {| c with cl_Name := _ |}). split.
  - intros H. repeat case_match; try discriminate; injection H as <-; b2p; (split; [done|]); constructor;
      try (split; [apply TrimSpace_trimmed|done]); try done; try lia;
      repeat match goal with H : _ && _ = false |- _ => apply andb_false_iff in H as [H|H]; b2p end; subst; eauto with lia.
  - intros [-> [[_ Hn] Hc Hp [H0 H1] [H2 H3]]]. fold d in Hn, Hc, Hp, H0, H1, H2, H3 |- *.
    rewrite bool_decide_eq_false_2 by done. rewrite Hc. cbn [negb].
    destruct ((cl_VLLMPriority d <? MinInt32) || (MaxInt32 <? cl_VLLMPriority d)) eqn:E1; [lia|].
    destruct (cl_MaxConcurrency d <? 0) eqn:E2; [lia|].
    assert (E3 : (MaxClientConcurrency <? cl_MaxConcurrency d) &&
      match previous with None => true | Some p => negb (cl_MaxConcurrency d =? cl_MaxConcurrency p) end = false).
    { destruct H1 as [H1|(p & -> & H1)]; [|by rewrite H1, Z.eqb_refl, andb_false_r].
      destruct (Z.ltb_spec MaxClientConcurrency (cl_MaxConcurrency d)); [lia|done]. }
    rewrite E3. destruct ((cl_RequestsPerMinute d <? 0) || _) eqn:E4; [lia|]. destruct ((cl_TokensPerMinute d <? 0) || _) eqn:E5; [lia|done].
Qed.

Lemma Pool_validate_spec previous p p' :
  Pool_validatePolicy previous p = inr p' <->
  p' = {| p with mp_PublicModelName := TrimSpace (mp_PublicModelName p);
                 mp_UpstreamModelName := TrimSpace (mp_UpstreamModelName p) |} /\ pool_ok previous p'.
Proof.
  unfold Pool_validatePolicy. set (d := {| p with mp_PublicModelName := TrimSpace (mp_PublicModelName p); mp_UpstreamModelName := TrimSpace (mp_UpstreamModelName p) |}). split.
  - intros H. repeat case_match; try discriminate; injection H as <-; b2p; (split; [done|]); constructor;
      try (split_and!; [apply TrimSpace_trimmed|done..]); try done; try lia;
      repeat match goal with H : _ && _ = false |- _ => apply andb_false_iff in H as [H|H]; b2p end; subst; eauto with lia.
  - intros [-> [(_ & Hn & Hl) [_ Hu] [H0 H1] H2 H3]]. fold d in Hn, Hl, Hu, H0, H1, H2, H3 |- *.
    rewrite !bool_decide_eq_false_2 by done. cbn [negb].
    destruct (MaxPublicModelNameBytes <? slen (mp_PublicModelName d)) eqn:E1; [lia|].
    destruct (mp_MaxGatewayInflight d <? 0) eqn:E2; [lia|].
    assert (E3 : (MaxPoolGatewayInflight <? mp_MaxGatewayInflight d) &&
      match previous with None => true | Some q => negb (mp_MaxGatewayInflight d =? mp_MaxGatewayInflight q) end = false).
    { destruct H1 as [H1|(q & -> & H1)]; [|by rewrite H1, Z.eqb_refl, andb_false_r].
      destruct (Z.ltb_spec MaxPoolGatewayInflight (mp_MaxGatewayInflight d)); [lia|done]. }
    rewrite E3. destruct ((mp_HighPriorityReserve d <? 0) || _) eqn:E4; [lia|]. destruct (mp_MaxWaiting d <? 0) eqn:E5; [lia|done].
Qed.

Lemma client_ok_trimmed previous c : client_ok previous c -> {| c with cl_Name := TrimSpace (cl_Name c) |} = c.
Proof. intros [[H _] _ _ _ _]. rewrite (TrimSpace_fix _ H). by destruct c. Qed.

Lemma pool_ok_trimmed previous p :
  pool_ok previous p ->
  {| p with mp_PublicModelName := TrimSpace (mp_PublicModelName p); mp_UpstreamModelName := TrimSpace (mp_UpstreamModelName p) |} = p.
Proof. intros [[H _] [H' _] _ _ _]. rewrite (TrimSpace_fix _ H), (TrimSpace_fix _ H'). by destruct p. Qed.

(** C36. Validation is a type check.  A client or pool is accepted exactly when,
    with its names trimmed, it is in the declared ranges (a grandfathered limit
    may stay as it was); the trimmed record is the result, and validating the result
    again accepts it unchanged. *)
Theorem validation_exact (previousClient : option Client) (previousPool : option ModelPool) (c c' : Client) (p p' : ModelPool) :
  (Client_validatePolicy previousClient c = inr c' <->
   c' = {| c with cl_Name := TrimSpace (cl_Name c) |} /\ client_ok previousClient c') /\
  (Client_validatePolicy previousClient c = inr c' -> Client_validatePolicy previousClient c' = inr c') /\
  (Pool_validatePolicy previousPool p = inr p' <->
   p' = {| p with mp_PublicModelName := TrimSpace (mp_PublicModelName p);
                  mp_UpstreamModelName := TrimSpace (mp_UpstreamModelName p) |} /\ pool_ok previousPool p') /\
  (Pool_validatePolicy previousPool p = inr p' -> Pool_validatePolicy previousPool p' = inr p').
Proof.
  split_and!; [apply Client_validate_spec| |apply Pool_validate_spec|].
  - intros [_ Hok]%Client_validate_spec. apply Client_validate_spec. split; [|done]. symmetry. by eapply client_ok_trimmed.
  - intros [_ Hok]%Pool_validate_spec. apply Pool_validate_spec. split; [|done]. symmetry. by eapply pool_ok_trimmed.
Qed.

(** A validated backend has a positive finite capacity and soft limit, a name, and
    an absolute http or https base URL without user information, query or fragment. *)
Lemma Backend_validate_ok {Rest : Type} (url_parse : string -> option (URL Rest)) (url_string : URL Rest -> string) b b' :
  Backend_Validate url_parse url_string b = inr b' ->
  trimmed (be_Name b') /\ be_Name b' <> EmptyString /\ not_positive (be_CapacityHint b') = false /\
  not_positive (be_RunningSoftLimit b') = false /\ trimmed (be_UpstreamAPIKeyEnv b') /\
  exists u, url_parse (TrimSpace (be_BaseURL b)) = Some u /\ be_BaseURL b' = url_string (trim_paths u) /\
    (url_Scheme u = "http" \/ url_Scheme u = "https") /\ url_Host u <> EmptyString /\ url_User u = false /\
    url_RawQuery u = EmptyString /\ url_Fragment u = EmptyString.
Proof.
  unfold Backend_Validate. intros H. repeat case_match; try discriminate; injection H as <-; b2p.
  split; [apply TrimSpace_trimmed|]. do 3 (split; [done|]). split; [apply TrimSpace_trimmed|]. eexists.
  split; [done|]. split; [done|]. split_and!; try done.
  match goal with H : _ && _ = false |- _ => apply andb_false_iff in H as [H|H]; b2p; auto end.
Qed.
