(* ===== verification/ApiKey.v ===== *)
(** API keys ([src/internal/apikey/apikey.go]) and the recorder of their last use
    ([usage.go]).

    Bytes are integers from 0 to 255.  The base64 encoder is the standard
    library's [RawURLEncoding].  HMAC-SHA-256 is a parameter: a function of the
    secret and the message. *)

From Stdlib Require Import Ascii.
From S2P Require Import Prelude Domain.

(** ** base64.RawURLEncoding *)

Definition alphabet : string := "ABCDEFGHIJKLMNOPQRSTUVWXYZabcdefghijklmnopqrstuvwxyz0123456789-_".

Definition encode_digit (v : Z) : ascii := default "?"%char (String.get (Z.to_nat v) alphabet).

(** The digit a character stands for. *)
Fixpoint index_from (c : ascii) (s : string) (v : Z) : option Z :=
  match s with
  | EmptyString => None
  | String c' s' => if Ascii.eqb c c' then Some v else index_from c s' (v + 1)
  end.

Definition decode_digit (c : ascii) : option Z := index_from c alphabet 0.

(** [EncodeToString]: three bytes make four characters, without padding. *)
Fixpoint encode (bytes : list Z) : list ascii :=
  match bytes with
  | a :: b :: c :: rest =>
    let v := a * 65536 + b * 256 + c in
    encode_digit (v / 262144) :: encode_digit (v / 4096 mod 64) :: encode_digit (v / 64 mod 64) :: encode_digit (v mod 64) ::
    encode rest
  | [a; b] =>
    let v := a * 65536 + b * 256 in
    [encode_digit (v / 262144); encode_digit (v / 4096 mod 64); encode_digit (v / 64 mod 64)]
  | [a] => let v := a * 65536 in [encode_digit (v / 262144); encode_digit (v / 4096 mod 64)]
  | [] => []
  end.

(** [DecodeString] of the same encoding. *)
Fixpoint decode (chars : list ascii) : option (list Z) :=
  match chars with
  | c1 :: c2 :: c3 :: c4 :: rest =>
    d1 ← decode_digit c1; d2 ← decode_digit c2; d3 ← decode_digit c3; d4 ← decode_digit c4;
    let v := d1 * 262144 + d2 * 4096 + d3 * 64 + d4 in
    bytes ← decode rest;
    Some (v / 65536 :: v / 256 mod 256 :: v mod 256 :: bytes)
  | [c1; c2; c3] =>
    d1 ← decode_digit c1; d2 ← decode_digit c2; d3 ← decode_digit c3;
    let v := d1 * 262144 + d2 * 4096 + d3 * 64 in
    Some [v / 65536; v / 256 mod 256]
  | [c1; c2] =>
    d1 ← decode_digit c1; d2 ← decode_digit c2;
    let v := d1 * 262144 + d2 * 4096 in
    Some [v / 65536]
  | [_] => None
  | [] => Some []
  end.

(** ** Keys *)

Definition keyPrefix : string := "llmgw_".
Definition randomByteCount : nat := 32.
Definition displayPrefixLen : nat := 12.

Record Plaintext := {
  pt_Value : string;
  pt_Prefix : string
}.

(** [entropy] is what reading [randomByteCount] bytes gave: an error or the bytes. *)
Definition Generate {ReadError : Type} (entropy : ReadError + list Z) : ReadError + Plaintext :=
  match entropy with
  | inl e => inl e
  | inr bytes =>
    let value := String.append keyPrefix (String.string_of_list_ascii (encode bytes)) in
    inr {| pt_Value := value; pt_Prefix := String.substring 0 displayPrefixLen value |}
  end.

Section Digest.
(** HMAC-SHA-256 under a secret. *)
Context {Secret : Type} (hmac : Secret -> string -> N).

Definition Digest (secret : Secret) (raw : string) : N := hmac secret raw.

Definition Verify (secret : Secret) (raw : string) (expected : N) : bool := bool_decide (Digest secret raw = expected).

End Digest.

(** ** Last use *)

Record usageEvent := {
  ue_keyID : Z;
  ue_at : Time
}.

(** The buffered channel and the map of the goroutine. *)
Record UsageRecorder := {
  ur_events : list usageEvent;
  ur_last : gmap Z Time
}.

Definition NewUsageRecorder : UsageRecorder := {| ur_events := []; ur_last := ∅ |}.

Definition Record_ (keyID : Z) (usedAt : Time) (r : UsageRecorder) : UsageRecorder :=
  if (length (ur_events r) <? 256)%nat
  then {| r with ur_events := ur_events r ++ [{| ue_keyID := keyID; ue_at := usedAt |}] |}
  else r.

(** One round of the goroutine on the first queued event: the write it attempts,
    if any, which succeeds when [stored]. *)
Definition round (stored : bool) (r : UsageRecorder) : UsageRecorder * option usageEvent :=
  match ur_events r with
  | [] => (r, None)
  | event :: rest =>
    let r := {| r with ur_events := rest |} in
    let previous := default GoTime.zero (ur_last r !! ue_keyID event) in
    if negb (GoTime.IsZero previous) && (GoTime.Sub (ue_at event) previous <? GoTime.Minute) then (r, None)
    else if stored
    then ({| r with ur_last := <[ue_keyID event := ue_at event]> (ur_last r) |}, Some event)
    else (r, Some event)
  end.

(** ** The encoding is injective *)

Definition byte (b : Z) : Prop := 0 <= b < 256.

Lemma decode_encode_digit v : 0 <= v < 64 -> decode_digit (encode_digit v) = Some v.
Proof.
  intros Hv. rewrite <- (Z2Nat.id v) at 2 by lia. unfold encode_digit.
  assert (Hn : (Z.to_nat v < 64)%nat) by lia. revert Hn. generalize (Z.to_nat v) as n. intros n Hn.
  do 64 (destruct n as [|n]; [vm_compute; reflexivity|]). lia.
Qed.

(** Splitting a 24-bit value into four digits and putting it together again. *)
Lemma digits_value v :
  v / 262144 * 262144 + v / 4096 mod 64 * 4096 + v / 64 mod 64 * 64 + v mod 64 = v.
Proof. Z.to_euclidean_division_equations. lia. Qed.

Lemma digits_bounds v :
  0 <= v < 16777216 ->
  0 <= v / 262144 < 64 /\ 0 <= v / 4096 mod 64 < 64 /\ 0 <= v / 64 mod 64 < 64 /\ 0 <= v mod 64 < 64.
Proof. Z.to_euclidean_division_equations. lia. Qed.

Lemma bytes_value a b c :
  byte a -> byte b -> byte c ->
  let v := a * 65536 + b * 256 + c in v / 65536 = a /\ v / 256 mod 256 = b /\ v mod 256 = c.
Proof. unfold byte. Z.to_euclidean_division_equations. lia. Qed.

Lemma list_ind3 {A : Type} (P : list A -> Prop) :
  P [] -> (forall a, P [a]) -> (forall a b, P [a; b]) -> (forall a b c l, P l -> P (a :: b :: c :: l)) -> forall l, P l.
Proof.
  intros H0 H1 H2 H3. refine (fix go l := _).
  destruct l as [|a [|b [|c l]]]; [done|apply H1|apply H2|]. apply H3, go.
Qed.

Lemma decode_encode bytes : Forall byte bytes -> decode (encode bytes) = Some bytes.
Proof.
  induction bytes as [|a|a b|a b c rest IH] using list_ind3; intros Hb; [done| | |].
  - apply Forall_cons in Hb as [Hb _]. destruct (bytes_value a 0 0) as (E1 & _); [done|unfold byte; lia..|].
    cbn [encode]. set (v := a * 65536). replace (a * 65536 + 0 * 256 + 0) with v in E1 by lia.
    destruct (digits_bounds v) as (B1 & B2 & B3 & B4); [unfold v, byte in *; lia|].
    cbn [decode]. rewrite !decode_encode_digit by done. cbn. do 2 f_equal.
    unfold v, byte in *. Z.to_euclidean_division_equations. lia.
  - apply Forall_cons in Hb as [Ha Hb]. apply Forall_cons in Hb as [Hb _].
    cbn [encode]. set (v := a * 65536 + b * 256).
    destruct (digits_bounds v) as (B1 & B2 & B3 & B4); [unfold v, byte in *; lia|].
    cbn [decode]. rewrite !decode_encode_digit by done. cbn.
    destruct (bytes_value a b 0) as (E1 & E2 & _); [done|done|unfold byte; lia|].
    replace (v / 262144 * 262144 + v / 4096 mod 64 * 4096 + v / 64 mod 64 * 64) with v by (unfold v; Z.to_euclidean_division_equations; lia).
    unfold v. rewrite Z.add_0_r in E1, E2. by rewrite E1, E2.
  - apply Forall_cons in Hb as [Ha Hb]. apply Forall_cons in Hb as [Hb Hc]. apply Forall_cons in Hc as [Hc Hr].
    cbn [encode]. set (v := a * 65536 + b * 256 + c).
    destruct (digits_bounds v) as (B1 & B2 & B3 & B4); [unfold v, byte in *; lia|].
    cbn [decode]. rewrite !decode_encode_digit by done. cbn. rewrite digits_value, (IH Hr). cbn.
    destruct (bytes_value a b c Ha Hb Hc) as (E1 & E2 & E3). unfold v. by rewrite E1, E2, E3.
Qed.

Lemma length_encode bytes : length (encode bytes) = ((4 * length bytes + 2) / 3)%nat.
Proof.
  induction bytes as [|a|a b|a b c rest IH] using list_ind3; [done..|]. cbn [encode length]. rewrite IH.
  replace (4 * S (S (S (length rest))) + 2)%nat with ((4 * length rest + 2) + 4 * 3)%nat by lia. rewrite Nat.div_add by lia. lia.
Qed.

(** ** Keys *)

Lemma length_string_of_list l : String.length (String.string_of_list_ascii l) = length l.
Proof. induction l as [|c l IH]; cbn; [done|by rewrite IH]. Qed.

Lemma append_assoc_length s t : String.length (String.append s t) = (String.length s + String.length t)%nat.
Proof. induction s as [|c s IH]; [done|]. change (String.append (String c s) t) with (String c (String.append s t)). cbn. by rewrite IH. Qed.

(** The first characters of a long enough string. *)
Lemma substring_prefix n s :
  (n <= String.length s)%nat ->
  String.length (String.substring 0 n s) = n /\ String.prefix (String.substring 0 n s) s = true.
Proof.
  revert s. induction n as [|n IH]; intros [|c s] Hn; cbn in *; try done; [lia|].
  destruct (IH s) as [E1 E2]; [lia|]. rewrite E1. split; [done|]. by destruct (ascii_dec c c).
Qed.

Lemma prefix_append s t : String.prefix s (String.append s t) = true.
Proof.
  induction s as [|c s IH]; [by destruct t|]. change (String.append (String c s) t) with (String c (String.append s t)).
  cbn. by destruct (ascii_dec c c).
Qed.

Lemma list_of_append s t :
  String.list_ascii_of_string (String.append s t) = String.list_ascii_of_string s ++ String.list_ascii_of_string t.
Proof. induction s as [|c s IH]; [done|]. change (String.append (String c s) t) with (String c (String.append s t)). cbn. by rewrite IH. Qed.

(** C35. Generating a key loses no entropy.  From 32 random bytes [Generate] makes a
    key of 49 characters that starts with [llmgw_] and whose remaining characters
    decode to those bytes, so different entropy gives different keys; its display
    prefix is the first 12 characters of the key. *)
Theorem generate_roundtrip (bytes : list Z) :
  Forall byte bytes -> length bytes = randomByteCount ->
  exists p, Generate (ReadError := unit) (inr bytes) = inr p /\
    String.length (pt_Value p) = 49%nat /\ String.prefix keyPrefix (pt_Value p) = true /\
    decode (drop 6 (String.list_ascii_of_string (pt_Value p))) = Some bytes /\
    String.length (pt_Prefix p) = displayPrefixLen /\ String.prefix (pt_Prefix p) (pt_Value p) = true.
Proof.
  intros Hb Hlen. eexists. split; [reflexivity|]. cbn [pt_Value pt_Prefix].
  set (s := String.string_of_list_ascii (encode bytes)).
  assert (Hs : String.length (String.append keyPrefix s) = 49%nat).
  { rewrite append_assoc_length. unfold s. by rewrite length_string_of_list, length_encode, Hlen. }
  split; [done|]. split; [apply prefix_append|]. split.
  - rewrite list_of_append. cbn [app drop keyPrefix String.list_ascii_of_string]. unfold s.
    rewrite String.list_ascii_of_string_of_list_ascii. by apply decode_encode.
  - apply substring_prefix. rewrite Hs. unfold displayPrefixLen. lia.
Qed.

Lemma generate_roundtrip_witness :
  exists p, Generate (ReadError := unit) (inr (repeat 66 32)) = inr p /\
    pt_Value p = "llmgw_QkJCQkJCQkJCQkJCQkJCQkJCQkJCQkJCQkJCQkJCQkI" /\
    decode (drop 6 (String.list_ascii_of_string (pt_Value p))) = Some (repeat 66 32).
Proof.
  destruct (generate_roundtrip (repeat 66 32)) as (p & Hp & _ & _ & Hd & _).
  - apply Forall_forall. intros x Hx. apply repeat_spec in Hx || (apply list_elem_of_In, repeat_spec in Hx).
    subst x. split; [discriminate|reflexivity].
  - reflexivity.
  - exists p. split; [exact Hp|]. split; [|exact Hd]. vm_compute in Hp. injection Hp as <-. reflexivity.
Defined.

(** ** Writes of the last use are spaced *)

Inductive UsageOp := UsageRecord (keyID : Z) (usedAt : Time) | UsageRound (stored : bool).

(** The recorder and the successful writes, oldest first. *)
Definition usage_exec (w : UsageRecorder * list usageEvent) (op : UsageOp) : UsageRecorder * list usageEvent :=
  match op with
  | UsageRecord keyID usedAt => (Record_ keyID usedAt w.1, w.2)
  | UsageRound stored =>
    let '(r, write) := round stored w.1 in
    (r, w.2 ++ match write with Some e => if stored then [e] else [] | None => [] end)
  end.

(** Two consecutive writes of a key are a minute apart (unless the first carries
    the zero time). *)
Definition spaced (writes : list usageEvent) : Prop :=
  forall l1 e l2 e' l3, writes = l1 ++ e :: l2 ++ e' :: l3 -> ue_keyID e' = ue_keyID e ->
    (forall x, x ∈ l2 -> ue_keyID x <> ue_keyID e) -> ue_at e <> GoTime.zero -> ue_at e + GoTime.Minute <= ue_at e'.

Fixpoint last_write (k : Z) (writes : list usageEvent) : option Time :=
  match writes with
  | [] => None
  | e :: rest => match last_write k rest with Some t => Some t | None => if ue_keyID e =? k then Some (ue_at e) else None end
  end.

Lemma last_write_app k l e : last_write k (l ++ [e]) = if ue_keyID e =? k then Some (ue_at e) else last_write k l.
Proof. induction l as [|x l IH]; cbn; [done|]. rewrite IH. destruct (ue_keyID e =? k); [done|]. done. Qed.

Lemma last_write_middle k l1 e l2 :
  ue_keyID e = k -> (forall x, x ∈ l2 -> ue_keyID x <> k) -> last_write k (l1 ++ e :: l2) = Some (ue_at e).
Proof.
  intros He Hl. assert (Hn : last_write k l2 = None).
  { induction l2 as [|x l2 IH]; [done|]. cbn. rewrite IH by (intros y Hy; apply Hl; by right).
    destruct (Z.eqb_spec (ue_keyID x) k); [by destruct (Hl x); [left|]|done]. }
  induction l1 as [|x l1 IH]; cbn; [rewrite Hn, He, Z.eqb_refl; done|by rewrite IH].
Qed.

Lemma usage_exec_spaced w op :
  (forall k, ur_last w.1 !! k = last_write k w.2) -> spaced w.2 ->
  (forall k, ur_last (usage_exec w op).1 !! k = last_write k (usage_exec w op).2) /\ spaced (usage_exec w op).2.
Proof.
  intros Hl Hs. destruct w as [r writes], op as [keyID usedAt|stored]; cbn in *.
  - unfold Record_. by destruct (_ <? _)%nat.
  - unfold round. destruct (ur_events r) as [|e rest]; [by rewrite app_nil_r|]. cbn.
    destruct (negb _ && _) eqn:Hc; [by rewrite app_nil_r|]. destruct stored; [|by rewrite app_nil_r]. cbn. split.
    + intros k. rewrite last_write_app. destruct (Z.eqb_spec (ue_keyID e) k) as [<-|Hne]; [by rewrite lookup_insert_eq|].
      by rewrite lookup_insert_ne.
    + intros l1 a l2 b l3 Heq Hk Hno Hz. destruct l3 as [|x l3 _] using rev_ind.
      * rewrite app_comm_cons, app_assoc in Heq. apply app_inj_tail in Heq as [-> ->].
        rewrite Hl, Hk, (last_write_middle (ue_keyID a)) in Hc by done. cbn in Hc.
        apply andb_false_iff in Hc as [Hc|Hc]; b2p.
        -- unfold GoTime.IsZero in Hc. b2p. done.
        -- unfold GoTime.Sub, GoTime.minDuration, GoTime.maxDuration, GoTime.Minute, GoTime.Second in *. repeat case_match; b2p; lia.
      * rewrite !app_comm_cons, !app_assoc in Heq. apply app_inj_tail in Heq as [-> _].
        rewrite <- !app_assoc, <- !app_comm_cons in Hs. by apply (Hs l1 a l2 b l3).
Qed.

(** Whatever is recorded, successful writes of a key are at least a minute apart. *)
Lemma usage_writes_spaced ops : spaced (fold_left usage_exec ops (NewUsageRecorder, [])).2.
Proof.
  assert (H : forall w, (forall k, ur_last w.1 !! k = last_write k w.2) -> spaced w.2 -> spaced (fold_left usage_exec ops w).2).
  { induction ops as [|op ops IH]; intros w Hl Hs; [done|]. cbn. destruct (usage_exec_spaced w op Hl Hs). by apply IH. }
  apply H; [done|]. intros l1 e l2 e' l3 Heq. by destruct l1.
Qed.
