(* ===== verification/Payload.v ===== *)
(** What the gateway changes of a request on its way to a backend: the JSON payload
    ([rewritePayload], [forceStreamingUsage] and [replaceModel] of
    [src/internal/gateway/service.go]), the session identifier and its headers
    ([src/internal/gateway/session_affinity.go]) and the HTTP headers
    ([src/internal/proxy/headers.go]).

    [encoding/json] is a parameter: [Bytes] is a JSON text, as a body or as a
    [json.RawMessage].  [strings.ToLower] is a parameter. *)

From Stdlib Require Import Ascii.
From stdpp Require Import pretty.
From S2P Require Import Prelude GoStrings Validate.

(** ** The payload *)

(** The errors of [rewritePayload]. *)
Inductive PayloadError := BodyNotObject | ModelRequired | ModelNotString | ModelTooLong | EncodeFailed.

(** [json.Unmarshal] into a map gives an error, a nil map (for [null]) or the
    members; into a string or a bool, an error or the value.  [json.Marshal] of a map
    of raw messages fails when one is not valid. *)
Class Json (Bytes : Type) := {
  unmarshal_map : Bytes -> option (option (gmap string Bytes));
  unmarshal_string : Bytes -> option string;
  unmarshal_bool : Bytes -> option bool;
  marshal_map : gmap string Bytes -> option Bytes;
  marshal_string : string -> Bytes;
  raw_true : Bytes
}.

Section Payload.
Context {Bytes : Type} `{!Json Bytes}.
Implicit Types (body : Bytes) (payload : gmap string Bytes).

Definition rewritePayload (body : Bytes) : PayloadError + Bytes * string :=
  match unmarshal_map body with
  | Some (Some payload) =>
    match payload !! "model" with
    | None => inl ModelRequired
    | Some encodedModel =>
      match unmarshal_string encodedModel with
      | None => inl ModelNotString
      | Some model =>
        if bool_decide (TrimSpace model = EmptyString) then inl ModelNotString
        else if MaxPublicModelNameBytes <? slen model then inl ModelTooLong
        else match marshal_map (delete "priority" payload) with
             | None => inl EncodeFailed
             | Some returnBody => inr (returnBody, model)
             end
      end
    end
  | _ => inl BodyNotObject
  end.

(** The outer [None] is the panic of an assignment to a nil map, the inner one an
    error. *)
Definition replaceModel (body : Bytes) (model : string) : option (option Bytes) :=
  match unmarshal_map body with
  | None => Some None
  | Some None => None
  | Some (Some payload) => Some (marshal_map (<["model" := marshal_string model]> payload))
  end.

Definition streaming payload : bool :=
  match payload !! "stream" with
  | None => false
  | Some encodedStream => default false (unmarshal_bool encodedStream)
  end.

(** The options already in the payload. *)
Definition stream_options payload : gmap string Bytes :=
  match payload !! "stream_options" with
  | None => ∅
  | Some encodedOptions =>
    match unmarshal_map encodedOptions with Some (Some existing) => existing | _ => ∅ end
  end.

Definition forceStreamingUsage (body : Bytes) (path : string) : option Bytes :=
  if negb (bool_decide (path = "/v1/chat/completions")) && negb (bool_decide (path = "/v1/completions")) then Some body
  else
    match unmarshal_map body with
    | None => None
    | Some payload =>
      let payload := default ∅ payload in
      if negb (streaming payload) then Some body
      else
        match marshal_map (<["include_usage" := raw_true]> (stream_options payload)) with
        | None => None
        | Some encodedOptions => marshal_map (<["stream_options" := encodedOptions]> payload)
        end
    end.

(** The payload part of [prepareForwardPayload]. *)
Definition prepare_payload (path upstream : string) (body : Bytes) : option (option Bytes) :=
  match forceStreamingUsage body path with
  | None => Some None
  | Some payload => replaceModel payload upstream
  end.

End Payload.

(** ** Session affinity *)

Definition SessionAffinityHeader : string := "X-LLM-Session-Id".
Definition MaxSessionAffinityIDBytes : Z := 256.
Definition piSessionAffinityFallbackHeader : string := "X-Client-Request-Id".
Definition piUserAgentPrefix : string := "pi (".

Definition sessionAffinityHeaders : list string :=
  [SessionAffinityHeader; "X-Opencode-Session"; "X-Claude-Code-Session-Id"; "Session-Id"; "Session_id"; "X-Session-Affinity";
   "X-Session-Id"].

(** The error names the header. *)
Inductive SessionError := SessionTooLong (name : string) | SessionConflict (name : string).

Fixpoint session_values (name identifier : string) (raws : list string) : SessionError + string :=
  match raws with
  | [] => inr identifier
  | raw :: raws' =>
    let value := TrimSpace raw in
    if MaxSessionAffinityIDBytes <? slen value then inl (SessionTooLong name)
    else if bool_decide (value = EmptyString) then session_values name identifier raws'
    else if negb (bool_decide (identifier = EmptyString)) && negb (bool_decide (identifier = value))
    then inl (SessionConflict name)
    else session_values name value raws'
  end.

Definition validatedSessionAffinityHeader (headers : Header) (name : string) : SessionError + string :=
  session_values name EmptyString (Header.Values headers name).

Section Session.
Context (ToLower : string -> string).

Definition isPiCodingAgent (headers : Header) : bool :=
  HasPrefix (ToLower (TrimSpace (Header.Get headers "User-Agent"))) piUserAgentPrefix.

(** The loop over the header names: the first non-empty identifier wins, but every
    header is checked. *)
Fixpoint first_identifier (headers : Header) (names : list string) (selected : string) : SessionError + string :=
  match names with
  | [] => inr selected
  | name :: names' =>
    match validatedSessionAffinityHeader headers name with
    | inl e => inl e
    | inr identifier =>
      first_identifier headers names' (if bool_decide (selected = EmptyString) then identifier else selected)
    end
  end.

Definition sessionAffinityID (headers : Header) : SessionError + string :=
  match first_identifier headers sessionAffinityHeaders EmptyString with
  | inl e => inl e
  | inr selected =>
    if isPiCodingAgent headers then first_identifier headers [piSessionAffinityFallbackHeader] selected else inr selected
  end.

Definition stripSessionAffinityHeaders (headers : Header) : Header :=
  let headers := fold_left Header.Del sessionAffinityHeaders headers in
  if isPiCodingAgent headers then Header.Del headers piSessionAffinityFallbackHeader else headers.

End Session.

(** ** Upstream headers *)

Definition hopByHopHeaders : list string :=
  ["Connection"; "Proxy-Connection"; "Keep-Alive"; "Proxy-Authenticate"; "Proxy-Authorization"; "Te"; "Trailer";
   "Transfer-Encoding"; "Upgrade"].

(** The header names listed by the [Connection] headers. *)
Definition connectionTokens (source : Header) : gset string :=
  list_to_set
    (filter (fun t => t <> EmptyString)
       (map (fun token => CanonicalHeaderKey (TrimSpace token))
          (concat (map (Split ","%char)(Header.Values source "Connection"))))).

Definition hop (source : Header) : gset string :=
  list_to_set (map CanonicalHeaderKey hopByHopHeaders) ∪ connectionTokens source.

Section Headers.
(** The order in which [range] visits the headers. *)
Context (range_headers : Header -> list (string * list string)).

Definition cloneEndToEndHeaders (source : Header) : Header :=
  fold_left
    (fun (destination : Header) '(key, values) =>
       if bool_decide (CanonicalHeaderKey key ∈ hop source) then destination
       else <[CanonicalHeaderKey key := values]> destination)
    (range_headers source) ∅.

(** [strconv.Itoa] is the decimal representation. *)
Definition Itoa (n : Z) : string := pretty n.

Definition PrepareUpstreamHeaders (source : Header) (requestID : string) (priority : Z) (upstreamAPIKey : string) : Header :=
  let headers := cloneEndToEndHeaders source in
  let headers := Header.Del headers "Authorization" in
  let headers := Header.Set_ headers "X-Request-Id" requestID in
  let headers := Header.Set_ headers "X-Vllm-Priority" (Itoa priority) in
  if bool_decide (upstreamAPIKey = EmptyString) then headers
  else Header.Set_ headers "Authorization" (String.append "Bearer " upstreamAPIKey).

Definition PrepareTokenizationHeaders (source : Header) (requestID upstreamAPIKey : string) : Header :=
  let headers := cloneEndToEndHeaders source in
  let headers := fold_left Header.Del
    ["Authorization"; "X-Vllm-Priority"; "X-LLM-Session-Id"; "X-Session-Id"; "Content-Length"; "Idempotency-Key";
     "X-Idempotency-Key"] headers in
  let headers := Header.Set_ headers "X-Request-Id" requestID in
  let headers := Header.Set_ headers "Content-Type" "application/json" in
  if bool_decide (upstreamAPIKey = EmptyString) then headers
  else Header.Set_ headers "Authorization" (String.append "Bearer " upstreamAPIKey).

Definition CopyResponseHeaders (destination source : Header) : Header :=
  fold_left (fun destination '(key, values) => fold_left (fun d v => Header.Add d key v) values (Header.Del destination key))
    (range_headers (cloneEndToEndHeaders source)) destination.

End Headers.

(** ** What [encoding/json] promises *)

(** [utf8.ValidString]: the lead byte gives the length and, with the ranges of the second
    byte, excludes overlong forms, surrogates and what is above U+10FFFF. *)
Fixpoint valid_utf8 (l : list Z) : bool :=
  let between lo hi b := (lo <=? b) && (b <=? hi) in
  let tail := between 128 191 in
  match l with
  | [] => true
  | a :: l1 =>
    if a <? 128 then valid_utf8 l1
    else
      match l1 with
      | [] => false
      | b :: l2 =>
        if between 194 223 a then tail b && valid_utf8 l2
        else
          match l2 with
          | [] => false
          | c :: l3 =>
            if between 224 239 a
            then between (if a =? 224 then 160 else 128) (if a =? 237 then 159 else 191) b && tail c && valid_utf8 l3
            else
              match l3 with
              | [] => false
              | d :: l4 =>
                between 240 244 a && between (if a =? 240 then 144 else 128) (if a =? 244 then 143 else 191) b && tail c && tail d && valid_utf8 l4
              end
          end
      end
  end.

Definition ValidString (s : string) : bool := valid_utf8 (map (fun a => Z.of_N (N_of_ascii a)) (String.list_ascii_of_string s)).

(** The scanner refuses what nests deeper. *)
Definition maxNestingDepth : Z := 10000.

(** [compact] is the form [json.Marshal] gives to a raw message: it changes white space and
    escapes only.  [nesting] is how deep arrays and objects nest.  A decoded key is valid
    UTF-8, since the decoder replaces what is not, and a decoded text does not nest too
    deep; a string, and a map, of which this holds survives encoding. *)
Class JsonLaws (Bytes : Type) `{!Json Bytes} := {
  compact : Bytes -> Bytes;
  nesting : Bytes -> Z;
  compact_idem b : compact (compact b) = compact b;
  nesting_compact b : nesting (compact b) = nesting b;
  nesting_string s : nesting (marshal_string s) = 0;
  nesting_true : nesting raw_true = 0;
  nesting_marshal m b n : marshal_map m = Some b -> 0 <= n -> (forall k v, m !! k = Some v -> nesting v <= n) -> nesting b <= n + 1;
  unmarshal_keys b m k v : unmarshal_map b = Some (Some m) -> m !! k = Some v -> ValidString k = true /\ nesting v + 1 <= nesting b <= maxNestingDepth;
  unmarshal_marshal m b : (forall k v, m !! k = Some v -> ValidString k = true /\ nesting v < maxNestingDepth) ->
    marshal_map m = Some b -> unmarshal_map b = Some (Some (compact <$> m));
  unmarshal_compact b : unmarshal_map (compact b) = option_map (option_map (fmap compact)) (unmarshal_map b);
  string_compact b : unmarshal_string (compact b) = unmarshal_string b;
  bool_compact b : unmarshal_bool (compact b) = unmarshal_bool b;
  unmarshal_marshal_string s : ValidString s = true -> unmarshal_string (marshal_string s) = Some s;
  unmarshal_true : unmarshal_bool raw_true = Some true
}.

Section PayloadLaws.
Context {Bytes : Type} `{JsonLaws Bytes}.
Implicit Types (body : Bytes) (m : gmap string Bytes).

Lemma compact_twice m : compact <$> (compact <$> m) = compact <$> m.
Proof. rewrite <- map_fmap_compose. apply map_fmap_ext. intros k b _. apply compact_idem. Qed.

Lemma streaming_compact m : streaming (compact <$> m) = streaming m.
Proof. unfold streaming. rewrite lookup_fmap. destruct (m !! "stream"); cbn; [by rewrite bool_compact|done]. Qed.

Lemma stream_options_compact m : stream_options (compact <$> m) = compact <$> stream_options m.
Proof.
  unfold stream_options. rewrite lookup_fmap. destruct (m !! "stream_options") as [o|]; cbn; [|by rewrite fmap_empty].
  rewrite unmarshal_compact. destruct (unmarshal_map o) as [[e|]|]; cbn; [done|by rewrite fmap_empty..].
Qed.

(** A map that survives encoding: what is decoded, with members removed or others added. *)
Definition encodable m : Prop := forall k v, m !! k = Some v -> ValidString k = true /\ nesting v < maxNestingDepth.

Lemma decoded_encodable body m : unmarshal_map body = Some (Some m) -> encodable m.
Proof. intros Hm k v Hv. destruct (unmarshal_keys body m k v Hm Hv). split; [done|lia]. Qed.

Lemma encodable_delete k m : encodable m -> encodable (delete k m).
Proof. intros He j v [_ Hj]%lookup_delete_Some. by apply He. Qed.

Lemma encodable_insert k v m : ValidString k = true -> nesting v < maxNestingDepth -> encodable m -> encodable (<[k := v]> m).
Proof. intros Hk Hv He j x [[<- <-]|[_ Hj]]%lookup_insert_Some; [done|by apply He]. Qed.

(** The options leave room for the payload around them. *)
Lemma options_nesting body m k v : unmarshal_map body = Some (Some m) -> stream_options m !! k = Some v ->
  ValidString k = true /\ nesting v + 2 <= maxNestingDepth.
Proof.
  intros Hm. unfold stream_options. destruct (m !! "stream_options") as [o|] eqn:Ho; [|by rewrite lookup_empty].
  destruct (unmarshal_map o) as [[e|]|] eqn:He; [|by rewrite lookup_empty..]. intros Hv.
  destruct (unmarshal_keys _ _ _ _ Hm Ho) as [_ ?], (unmarshal_keys _ _ _ _ He Hv) as [? ?]. split; [done|lia].
Qed.

Lemma options_encodable body m options : unmarshal_map body = Some (Some m) -> marshal_map (<["include_usage" := raw_true]> (stream_options m)) = Some options ->
  encodable (<["include_usage" := raw_true]> (stream_options m)) /\ nesting options < maxNestingDepth.
Proof.
  intros Hm Ho. split.
  - apply encodable_insert; [done|by rewrite nesting_true|]. intros k v Hv. destruct (options_nesting _ _ _ _ Hm Hv). split; [done|lia].
  - apply (nesting_marshal _ _ (maxNestingDepth - 2)) in Ho; [lia|done|]. intros k v [[<- <-]|[_ Hv]]%lookup_insert_Some; [by rewrite nesting_true|].
    destruct (options_nesting _ _ _ _ Hm Hv). lia.
Qed.

(** [stream_options] asks for the usage and keeps what was asked before. *)
Definition asks_usage m (options : option Bytes) : Prop :=
  exists o, options ≫= unmarshal_map = Some (Some o) /\ o !! "include_usage" ≫= unmarshal_bool = Some true /\
    forall k, k <> "include_usage" -> o !! k = compact <$> stream_options m !! k.

(** The two chat endpoints. *)
Definition completion_path (path : string) : bool :=
  bool_decide (path = "/v1/chat/completions") || bool_decide (path = "/v1/completions").

(** [forceStreamingUsage] on an encoded payload changes [stream_options] only. *)
Lemma force_spec m body path b :
  unmarshal_map body = Some (Some (compact <$> m)) -> forceStreamingUsage body path = Some b ->
  exists m', unmarshal_map b = Some (Some (compact <$> m')) /\ (forall k, k <> "stream_options" -> m' !! k = compact <$> m !! k) /\
    if completion_path path && streaming m then asks_usage m (compact <$> m' !! "stream_options")
    else m' !! "stream_options" = compact <$> m !! "stream_options".
Proof.
  intros Hm. unfold forceStreamingUsage, completion_path. rewrite <- negb_orb.
  destruct (bool_decide _ || bool_decide _) eqn:Hp; cbn [negb andb].
  2: { intros [= <-]. exists (compact <$> m). rewrite compact_twice. split_and!; [done| |]; intros; by rewrite lookup_fmap. }
  rewrite Hm. cbn [from_option id]. rewrite streaming_compact. destruct (streaming m); cbn [negb].
  2: { intros [= <-]. exists (compact <$> m). rewrite compact_twice. split_and!; [done| |]; intros; by rewrite lookup_fmap. }
  destruct (marshal_map _) as [options|] eqn:Ho; [|done]. intros Hb. destruct (options_encodable _ _ _ Hm Ho) as [Heo Hno].
  rewrite stream_options_compact in Ho, Heo. apply (unmarshal_marshal _ _ Heo) in Ho.
  apply unmarshal_marshal in Hb; [|apply encodable_insert; [done|done|by eapply decoded_encodable]]. eexists. split; [exact Hb|]. split.
  - intros k Hk. rewrite lookup_insert_ne by done. by rewrite lookup_fmap.
  - rewrite lookup_insert_eq. eexists. cbn. rewrite unmarshal_compact, Ho. cbn. split; [done|]. split.
    + rewrite !lookup_fmap, lookup_insert_eq. cbn. rewrite !bool_compact. apply unmarshal_true.
    + intros k Hk. rewrite !lookup_fmap, lookup_insert_ne by done. rewrite lookup_fmap.
      destruct (stream_options m !! k); cbn; [by rewrite !compact_idem|done].
Qed.

(** C37. The payload reaches the backend as the client sent it, except for what the
    gateway owns.  Once [rewritePayload] accepted a body, preparing it never panics;
    and the prepared body decodes to the client's members, with no [priority], with
    the pool's upstream model, and, for a streaming completion, with
    [stream_options.include_usage] set and the other options kept; every other member
    is unchanged up to white space. *)
Theorem payload_preserved (body b1 : Bytes) (model path upstream : string) :
  rewritePayload body = inr (b1, model) -> ValidString upstream = true ->
  exists m, unmarshal_map body = Some (Some m) /\ m !! "model" ≫= unmarshal_string = Some model /\
  exists r, prepare_payload path upstream b1 = Some r /\
  forall b, r = Some b ->
    exists m', unmarshal_map b = Some (Some m') /\ m' !! "priority" = None /\
      m' !! "model" ≫= unmarshal_string = Some upstream /\
      (forall k, k <> "priority" -> k <> "model" -> k <> "stream_options" -> m' !! k = compact <$> m !! k) /\
      (if completion_path path && streaming m then asks_usage m (m' !! "stream_options")
       else m' !! "stream_options" = compact <$> m !! "stream_options").
Proof.
  intros Hr Hu. unfold rewritePayload in Hr. destruct (unmarshal_map body) as [[m|]|] eqn:Hm; [|done|done].
  destruct (m !! "model") as [em|] eqn:Hem; [|done]. destruct (unmarshal_string em) as [s|] eqn:Hs; [|done].
  destruct (bool_decide _); [done|]. destruct (_ <? _); [done|]. destruct (marshal_map _) as [b0|] eqn:Hb0; [|done].
  injection Hr as <- <-. apply unmarshal_marshal in Hb0; [|by eapply encodable_delete, decoded_encodable]. exists m. split; [done|]. rewrite Hem. split; [exact Hs|].
  unfold prepare_payload. destruct (forceStreamingUsage b0 path) as [b2|] eqn:Hf; [|by exists None].
  destruct (force_spec _ _ _ _ Hb0 Hf) as (m2 & Hm2 & Hother & Hopt). unfold replaceModel. rewrite Hm2.
  eexists. split; [done|]. intros b Hb.
  apply unmarshal_marshal in Hb; [|apply encodable_insert; [done|by rewrite nesting_string|by eapply decoded_encodable]]. eexists. split; [exact Hb|].
  assert (Hso : stream_options (delete "priority" m) = stream_options m) by (unfold stream_options; by rewrite lookup_delete_ne).
  assert (Hst : streaming (delete "priority" m) = streaming m) by (unfold streaming; by rewrite lookup_delete_ne).
  unfold asks_usage in *. rewrite Hso, Hst in Hopt. rewrite !lookup_fmap. split_and!.
  - rewrite lookup_insert_ne, lookup_fmap, Hother, lookup_delete_eq by done. done.
  - rewrite lookup_insert_eq. cbn. rewrite string_compact. by apply unmarshal_marshal_string.
  - intros k H1 H2 H3. rewrite lookup_fmap, lookup_insert_ne, lookup_fmap, Hother, lookup_delete_ne by done.
    destruct (m !! k); cbn; [by rewrite !compact_idem|done].
  - rewrite lookup_insert_ne, lookup_fmap by done. destruct (completion_path path && streaming m).
    + destruct (m2 !! "stream_options"); cbn in *; [|done]. by rewrite compact_idem.
    + rewrite Hopt, lookup_delete_ne by done. destruct (m !! "stream_options"); cbn; [by rewrite !compact_idem|done].
Qed.

(** ** Prepared bodies *)

(** A body without [priority], and one that also names [upstream] as its model. *)
Definition clean (b : Bytes) : Prop := exists m, unmarshal_map b = Some (Some (compact <$> m)) /\ m !! "priority" = None.
Definition serves (b : Bytes) (upstream : string) : Prop :=
  exists m, unmarshal_map b = Some (Some (compact <$> m)) /\ m !! "priority" = None /\ m !! "model" = Some (marshal_string upstream).

Lemma rewrite_clean body b model : rewritePayload body = inr (b, model) -> clean b.
Proof.
  unfold rewritePayload. intros Hr. repeat case_match; try discriminate. injection Hr as <- <-.
  eexists. split; [by eapply unmarshal_marshal; [eapply encodable_delete, decoded_encodable|]|]. apply lookup_delete_eq.
Qed.

Lemma force_clean body path b : clean body -> forceStreamingUsage body path = Some b -> clean b.
Proof.
  intros (m & Hm & Hp) Hf. destruct (force_spec _ _ _ _ Hm Hf) as (m2 & Hm2 & Hother & _). exists m2. split; [done|]. by rewrite Hother, Hp.
Qed.

Lemma replace_serves body b upstream : clean body -> replaceModel body upstream = Some (Some b) -> serves b upstream.
Proof.
  intros (m & Hm & Hp) Hr. unfold replaceModel in Hr. rewrite Hm in Hr. injection Hr as Hr.
  apply unmarshal_marshal in Hr; [|apply encodable_insert; [done|by rewrite nesting_string|by eapply decoded_encodable]].
  eexists. split; [exact Hr|]. rewrite lookup_insert_eq, lookup_insert_ne, lookup_fmap by done. by rewrite Hp.
Qed.

End PayloadLaws.

(** ** Headers *)

(** The headers [Forward] hands to the proxy. *)
Definition forward_headers (ToLower : string -> string) (source : Header) : Header :=
  Header.Del (stripSessionAffinityHeaders ToLower (Header.Del source "X-Vllm-Priority")) "Authorization".

(** The keys of a header map are in canonical form, as [net/http] keeps them. *)
Definition canonical_keys (h : Header) : Prop := forall k v, h !! k = Some v -> CanonicalHeaderKey k = k.

Lemma canonical_delete h k : canonical_keys h -> canonical_keys (delete k h).
Proof. intros Hc j v [_ Hj]%lookup_delete_Some. by eapply Hc. Qed.

Section HeaderLaws.
Context (range_headers : Header -> list (string * list string)).
Hypothesis range_headers_perm : forall h, range_headers h ≡ₚ map_to_list h.
Context (ToLower : string -> string).

(** The loop of [cloneEndToEndHeaders]. *)
Definition clone_step (blocked : gset string) (destination : Header) (kv : string * list string) : Header :=
  let '(key, values) := kv in
  if bool_decide (CanonicalHeaderKey key ∈ blocked) then destination else <[CanonicalHeaderKey key := values]> destination.

Lemma clone_fold blocked l acc k :
  Forall (fun kv => CanonicalHeaderKey kv.1 = kv.1) l -> NoDup (map fst l) ->
  (forall v, (k, v) ∈ l -> k ∉ blocked -> fold_left (clone_step blocked) l acc !! k = Some v) /\
  ((k ∉ map fst l) \/ k ∈ blocked -> fold_left (clone_step blocked) l acc !! k = acc !! k).
Proof.
  revert acc. induction l as [|[key values] l IH]; intros acc Hc Hnd.
  { split; [intros v Hv; by apply elem_of_nil in Hv|done]. }
  apply Forall_cons in Hc as [Hkey Hc]. cbn in Hkey, Hnd. apply NoDup_cons in Hnd as [Hni Hnd].
  cbn [fold_left]. destruct (IH (clone_step blocked acc (key, values)) Hc Hnd) as [IH1 IH2]. split.
  - intros v [[= -> ->]|Hv]%elem_of_cons Hb; [|by apply IH1]. rewrite IH2 by by left. unfold clone_step. rewrite Hkey.
    rewrite bool_decide_eq_false_2 by done. cbn. by rewrite lookup_insert_eq.
  - intros Hk. rewrite IH2.
    + unfold clone_step. rewrite Hkey. destruct (bool_decide (key ∈ blocked)) eqn:E; [done|]. b2p.
      rewrite lookup_insert_ne; [done|]. intros ->. destruct Hk as [Hk|Hk]; [|done]. apply Hk. by left.
    + destruct Hk as [Hk|Hk]; [left|by right]. intros Hin. apply Hk. by right.
Qed.

Lemma clone_lookup h k :
  canonical_keys h -> cloneEndToEndHeaders range_headers h !! k = if bool_decide (k ∈ hop h) then None else h !! k.
Proof.
  intros Hc. unfold cloneEndToEndHeaders.
  assert (Hin : forall j v, (j, v) ∈ range_headers h <-> h !! j = Some v)
    by (intros j v; rewrite range_headers_perm; apply elem_of_map_to_list).
  destruct (clone_fold (hop h) (range_headers h) ∅ k) as [H1 H2].
  { apply Forall_forall. intros [j v] Hj. apply Hin in Hj. by eapply Hc. }
  { rewrite range_headers_perm. apply NoDup_fst_map_to_list. }
  change (fold_left _ (range_headers h) ∅) with (fold_left (clone_step (hop h)) (range_headers h) ∅).
  case_bool_decide; [apply H2; by right|]. destruct (h !! k) as [v|] eqn:E; [apply H1; [by apply Hin|done]|].
  apply H2. left. intros ([j v] & -> & Hj)%list_elem_of_fmap. apply Hin in Hj. cbn in E. congruence.
Qed.

(** The session headers that [stripSessionAffinityHeaders] removes. *)
Definition session_keys (h : Header) : list string :=
  map CanonicalHeaderKey (sessionAffinityHeaders ++ if isPiCodingAgent ToLower h then [piSessionAffinityFallbackHeader] else []).

Lemma del_all_lookup names h k :
  fold_left Header.Del names h !! k = if bool_decide (k ∈ map CanonicalHeaderKey names) then None else h !! k.
Proof.
  revert h. induction names as [|n names IH]; intros h; [done|]. cbn [fold_left]. rewrite IH. unfold Header.Del.
  destruct (bool_decide (k ∈ map CanonicalHeaderKey names)) eqn:E; b2p.
  - by rewrite bool_decide_eq_true_2 by (cbn; by right).
  - destruct (decide (k = CanonicalHeaderKey n)) as [->|Hne].
    + rewrite lookup_delete_eq, bool_decide_eq_true_2 by (cbn; by left). done.
    + rewrite lookup_delete_ne, bool_decide_eq_false_2; [done| |done]. by intros [?|?]%elem_of_cons.
Qed.

(** Removing other headers does not change the user agent. *)
Lemma pi_agent_del names h :
  "User-Agent" ∉ map CanonicalHeaderKey names -> isPiCodingAgent ToLower (fold_left Header.Del names h) = isPiCodingAgent ToLower h.
Proof.
  intros Hn. unfold isPiCodingAgent, Header.Get, Header.Values.
  change (CanonicalHeaderKey "User-Agent") with "User-Agent". by rewrite del_all_lookup, bool_decide_eq_false_2.
Qed.

Lemma forward_headers_lookup h k :
  forward_headers ToLower h !! k =
  if bool_decide (k ∈ "X-Vllm-Priority" :: "Authorization" :: session_keys h) then None else h !! k.
Proof.
  set (agent := if isPiCodingAgent ToLower h then [piSessionAffinityFallbackHeader] else []).
  assert (Hall : forward_headers ToLower h = fold_left Header.Del (["X-Vllm-Priority"] ++ (sessionAffinityHeaders ++ agent) ++ ["Authorization"]) h).
  { unfold forward_headers, stripSessionAffinityHeaders. rewrite pi_agent_del.
    - change (Header.Del h "X-Vllm-Priority") with (fold_left Header.Del ["X-Vllm-Priority"] h).
      rewrite pi_agent_del by (apply (proj1 (bool_decide_eq_true _)); vm_compute; reflexivity). unfold agent.
      rewrite !fold_left_app. by destruct (isPiCodingAgent ToLower h).
    - apply (proj1 (bool_decide_eq_true _)). vm_compute. reflexivity. }
  rewrite Hall, del_all_lookup. rewrite !map_app. unfold session_keys. fold agent.
  assert (Hp : map CanonicalHeaderKey ["X-Vllm-Priority"] ++ (map CanonicalHeaderKey sessionAffinityHeaders ++ map CanonicalHeaderKey agent) ++
    map CanonicalHeaderKey ["Authorization"] ≡ₚ "X-Vllm-Priority" :: "Authorization" :: map CanonicalHeaderKey (sessionAffinityHeaders ++ agent)).
  { rewrite map_app. change (map CanonicalHeaderKey ["X-Vllm-Priority"]) with ["X-Vllm-Priority"].
    change (map CanonicalHeaderKey ["Authorization"]) with ["Authorization"]. cbn [app]. constructor. by rewrite Permutation_app_comm. }
  assert (Hd : forall l l' : list string, l ≡ₚ l' -> bool_decide (k ∈ l) = bool_decide (k ∈ l'))
    by (intros l l' Hl; apply bool_decide_ext; by rewrite Hl).
  by rewrite (Hd _ _ Hp).
Qed.

Lemma hop_forward h : hop (forward_headers ToLower h) = hop h.
Proof.
  unfold hop, connectionTokens, Header.Values. change (CanonicalHeaderKey "Connection") with "Connection".
  rewrite forward_headers_lookup, bool_decide_eq_false_2; [done|]. unfold session_keys.
  destruct (isPiCodingAgent ToLower h); apply (proj1 (bool_decide_eq_true _)); vm_compute; reflexivity.
Qed.

Lemma canonical_forward h : canonical_keys h -> canonical_keys (forward_headers ToLower h).
Proof. intros Hc k v. rewrite forward_headers_lookup. case_bool_decide; [done|]. apply Hc. Qed.

(** C38. Exactly the gateway's headers and the client's end-to-end headers go to the
    backend.  The request identifier and the priority are the gateway's; the
    authorization is the backend's secret, or absent, never the client's key; the
    hop-by-hop headers, those named by [Connection] and the session headers are
    removed; every other header is forwarded unchanged. *)
Theorem upstream_headers_exact (h : Header) (requestID : string) (priority : Z) (secret : string) :
  canonical_keys h ->
  let out := PrepareUpstreamHeaders range_headers (forward_headers ToLower h) requestID priority secret in
  out !! "X-Request-Id" = Some [requestID] /\ out !! "X-Vllm-Priority" = Some [Itoa priority] /\
  out !! "Authorization" = (if bool_decide (secret = EmptyString) then None else Some [String.append "Bearer " secret]) /\
  forall k, k <> "X-Request-Id" -> k <> "X-Vllm-Priority" -> k <> "Authorization" ->
    out !! k = if bool_decide (k ∈ hop h) || bool_decide (k ∈ session_keys h) then None else h !! k.
Proof.
  intros Hc. unfold PrepareUpstreamHeaders, Header.Set_, Header.Del.
  change (CanonicalHeaderKey "X-Request-Id") with "X-Request-Id". change (CanonicalHeaderKey "X-Vllm-Priority") with "X-Vllm-Priority".
  change (CanonicalHeaderKey "Authorization") with "Authorization".
  set (base := delete "Authorization" (cloneEndToEndHeaders range_headers (forward_headers ToLower h))).
  assert (Hbase : forall k, k <> "X-Vllm-Priority" -> k <> "Authorization" ->
    base !! k = if bool_decide (k ∈ hop h) || bool_decide (k ∈ session_keys h) then None else h !! k).
  { intros k H1 H2. unfold base. rewrite lookup_delete_ne, clone_lookup, hop_forward, forward_headers_lookup by (done || by apply canonical_forward).
    destruct (bool_decide (k ∈ hop h)); [done|]. cbn [orb].
    rewrite (bool_decide_ext (k ∈ "X-Vllm-Priority" :: _) (k ∈ session_keys h)); [done|]. rewrite !elem_of_cons. tauto. }
  assert (Hauth : base !! "Authorization" = None) by apply lookup_delete_eq.
  clearbody base. cbn zeta. destruct (bool_decide (secret = EmptyString)).
  - split_and!; try by rewrite ?lookup_insert_eq, ?lookup_insert_ne, ?lookup_insert_eq by done.
    intros k H1 H2 H3. rewrite !lookup_insert_ne by done. by apply Hbase.
  - split_and!; try by rewrite ?lookup_insert_eq, ?lookup_insert_ne, ?lookup_insert_eq by done.
    intros k H1 H2 H3. rewrite !lookup_insert_ne by done. by apply Hbase.
Qed.
End HeaderLaws.

(** A session alias is kept in the headers of a tokenization request. *)
Lemma tokenization_keeps_session_alias :
  PrepareTokenizationHeaders map_to_list {[ "X-Opencode-Session" := ["private"] ]} "id" EmptyString !! "X-Opencode-Session" =
  Some ["private"].
Proof. vm_compute. reflexivity. Qed.

(** ** Concrete instances *)

(** JSON values as trees: decoding checks the keys and the nesting, encoding lists the
    members. *)
Inductive tree := TString (s : string) | TBool (b : bool) | TObject (members : list (string * tree)).

Fixpoint tree_nesting (t : tree) : Z :=
  match t with TObject l => 1 + fold_right (fun '(_, v) n => Z.max (tree_nesting v) n) 0 l | _ => 0 end.

#[local] Instance tree_json : Json tree := {
  unmarshal_map t :=
    match t with
    | TObject l => if forallb (fun kv => ValidString kv.1) l && (tree_nesting t <=? maxNestingDepth) then Some (Some (list_to_map l)) else None
    | _ => None
    end;
  unmarshal_string t := match t with TString s => Some s | _ => None end;
  unmarshal_bool t := match t with TBool b => Some b | _ => None end;
  marshal_map m := Some (TObject (map_to_list m));
  marshal_string := TString;
  raw_true := TBool true
}.

Lemma tree_nesting_member l k v : (k, v) ∈ l -> tree_nesting v + 1 <= tree_nesting (TObject l).
Proof.
  cbn [tree_nesting]. induction l as [|[j x] l IH]; [by intros ?%elem_of_nil|]. cbn. intros [[= -> ->]|Hin]%elem_of_cons; [lia|]. specialize (IH Hin). lia.
Qed.

Lemma tree_nesting_bound l n : 0 <= n -> (forall k v, (k, v) ∈ l -> tree_nesting v <= n) -> tree_nesting (TObject l) <= n + 1.
Proof.
  intros Hn. cbn [tree_nesting]. induction l as [|[j x] l IH]; cbn; [lia|]. intros Hl.
  assert (Hx : tree_nesting x <= n) by (apply (Hl j); by left). specialize (IH (fun k v Hin => Hl k v (list_elem_of_further _ _ _ Hin))). lia.
Qed.

#[local] Instance tree_laws : JsonLaws tree.
Proof.
  refine {| compact := fun t => t; nesting := tree_nesting |}; try done.
  - intros m b n [= <-] Hn Hm. apply tree_nesting_bound; [done|]. intros k v Hin%elem_of_map_to_list. by eapply Hm.
  - intros b m k v Hb Hv. destruct b as [| |l]; [done|done|]. cbn [unmarshal_map tree_json] in Hb. destruct (forallb _ l && _) eqn:E; [|done]. injection Hb as <-.
    apply andb_true_iff in E as [Hk Hn]. rewrite forallb_forall in Hk. apply elem_of_list_to_map_2 in Hv. split; [|pose proof (tree_nesting_member _ _ _ Hv); lia].
    by apply (Hk (k, v)), list_elem_of_In.
  - intros m b He [= <-]. cbn [unmarshal_map tree_json]. rewrite map_fmap_id, list_to_map_to_list. rewrite (proj2 (andb_true_iff _ _)); [done|]. split.
    + apply forallb_forall. intros [k v] Hin%list_elem_of_In%elem_of_map_to_list. by apply (He k v).
    + pose proof (tree_nesting_bound (map_to_list m) (maxNestingDepth - 1)). enough (tree_nesting (TObject (map_to_list m)) <= maxNestingDepth - 1 + 1) by lia. apply H; [done|].
      intros k v Hin%elem_of_map_to_list. destruct (He k v Hin). lia.
  - intros b. destruct (unmarshal_map b) as [[m|]|]; cbn; [by rewrite map_fmap_id|done..].
Defined.

Definition sample_body : tree :=
  TObject [("model", TString "public"); ("priority", TString "-100"); ("stream", TBool true); ("prompt", TString "hello")].

Lemma payload_preserved_witness :
  match rewritePayload sample_body with
  | inr (b1, model) =>
    model = "public" /\ exists r, prepare_payload "/v1/completions" "upstream" b1 = Some r /\
      forall b, r = Some b -> exists m', unmarshal_map b = Some (Some m') /\ m' !! "priority" = None /\
        m' !! "model" ≫= unmarshal_string = Some "upstream"
  | inl _ => False
  end.
Proof.
  assert (Hr : match rewritePayload sample_body with inr (_, model) => model = "public" | inl _ => False end)
    by (vm_compute; reflexivity).
  destruct (rewritePayload sample_body) as [|[b1 model]] eqn:E; [contradiction|]. subst model. split; [reflexivity|].
  assert (Hu : ValidString "upstream" = true) by reflexivity.
  destruct (payload_preserved sample_body b1 "public" "/v1/completions" "upstream" E Hu) as (m & _ & _ & r & Hr & Hb).
  exists r. split; [exact Hr|]. intros b Hrb. destruct (Hb b Hrb) as (m' & H1 & H2 & H3 & _). exists m'. split; [exact H1|]. split; [exact H2|exact H3].
Defined.

Definition sample_headers : Header :=
  {[ "Authorization" := ["Bearer llmgw_client"]; "X-Vllm-Priority" := ["-100"]; "Accept" := ["text/event-stream"];
     "X-Llm-Session-Id" := ["session"] ]}.

Lemma upstream_headers_exact_witness :
  PrepareUpstreamHeaders map_to_list (forward_headers (fun s => s) sample_headers) "r1" 5 "secret" !! "Authorization" =
  Some ["Bearer secret"].
Proof.
  refine (proj1 (proj2 (proj2 (upstream_headers_exact map_to_list (fun h => reflexivity _) (fun s => s) sample_headers "r1" 5 "secret" _)))).
  intros k v Hk.
  assert (H : map_Forall (fun k _ => CanonicalHeaderKey k = k) sample_headers)
    by (apply (proj1 (bool_decide_eq_true _)); vm_compute; reflexivity).
  exact (H k v Hk).
Defined.
