(* ===== verification/Effects.v ===== *)
(** Programs that talk to their environment, with Go's panics and deferred calls.

    A program makes calls; the environment answers each one as it likes, depending on
    everything that was called and answered before, or makes it panic.  A theorem that
    holds for every environment holds however other goroutines, the network, the clock
    and the callers behave.  [Exhausted] is the end of the fuel of a loop. *)

From S2P Require Import Prelude.

Section Effects.
(** The calls, each with the type of its answer. *)
Context {Call : Type -> Type}.

(** A call with its answer, or a call that panicked. *)
Inductive Event :=
| Answered {A : Type} (c : Call A) (a : A)
| Panicked {A : Type} (c : Call A).

Record Env := {
  answer : forall A, Call A -> list Event -> A;
  panics : forall A, Call A -> list Event -> bool
}.

Inductive Outcome (A : Type) := Returned (a : A) | Panicking | Exhausted.
#[global] Arguments Returned {A}.
#[global] Arguments Panicking {A}.
#[global] Arguments Exhausted {A}.

(** Programs with a mutable state. *)
Definition M (S A : Type) : Type := Env -> list Event -> S -> Outcome A * list Event * S.

Context {S : Type}.
Implicit Types (env : Env) (h : list Event) (s : S).

Definition ret {A : Type} (a : A) : M S A := fun _ h s => (Returned a, h, s).

Definition bind {A B : Type} (m : M S A) (k : A -> M S B) : M S B :=
  fun env h s =>
    match m env h s with
    | (Returned a, h, s) => k a env h s
    | (Panicking, h, s) => (Panicking, h, s)
    | (Exhausted, h, s) => (Exhausted, h, s)
    end.

#[global] Instance M_ret : MRet (M S) := fun A a => ret a.
#[global] Instance M_bind : MBind (M S) := fun A B k m => bind m k.

(** A call that may panic, and one that does not. *)
Definition call {A : Type} (c : Call A) : M S A :=
  fun env h s =>
    if panics env A c h then (Panicking, h ++ [Panicked c], s)
    else let a := answer env A c h in (Returned a, h ++ [Answered c a], s).

Definition call_ok {A : Type} (c : Call A) : M S A :=
  fun env h s => let a := answer env A c h in (Returned a, h ++ [Answered c a], s).

Definition get : M S S := fun _ h s => (Returned s, h, s).
Definition put (s : S) : M S unit := fun _ h _ => (Returned tt, h, s).
Definition modify (f : S -> S) : M S unit := fun _ h s => (Returned tt, h, f s).
Definition panic {A : Type} : M S A := fun _ h s => (Panicking, h, s).
Definition exhausted {A : Type} : M S A := fun _ h s => (Exhausted, h, s).

(** [defer f()], followed by the rest [m] of the function: [f] runs when [m] has
    returned or panicked, and learns which.  A panic of [f] replaces the outcome. *)
Definition defer {A : Type} (m : M S A) (f : bool -> M S unit) : M S A :=
  fun env h s =>
    let '(o, h, s) := m env h s in
    match o with
    | Exhausted => (Exhausted, h, s)
    | _ =>
      match f (match o with Panicking => true | _ => false end) env h s with
      | (Returned _, h, s) => (o, h, s)
      | (Panicking, h, s) => (Panicking, h, s)
      | (Exhausted, h, s) => (Exhausted, h, s)
      end
    end.

(** [defer func() { _ = recover() }()], followed by [m]. *)
Definition recovered (m : M S unit) : M S unit :=
  fun env h s =>
    match m env h s with
    | (Panicking, h, s) => (Returned tt, h, s)
    | r => r
    end.

(** ** Reasoning

    [wp env m Q h s]: run from history [h] and state [s], [m] ends with an outcome,
    a history and a state that satisfy [Q]. *)
Definition wp {A : Type} env (m : M S A) (Q : Outcome A -> list Event -> S -> Prop) h s : Prop :=
  let '(o, h', s') := m env h s in Q o h' s'.

Lemma wp_ret {A : Type} env (a : A) Q h s : Q (Returned a) h s -> wp env (ret a) Q h s.
Proof. done. Qed.

Lemma wp_bind {A B : Type} env (m : M S A) (k : A -> M S B) Q h s :
  wp env m (fun o h s =>
    match o with
    | Returned a => wp env (k a) Q h s
    | Panicking => Q Panicking h s
    | Exhausted => Q Exhausted h s
    end) h s ->
  wp env (m ≫= k) Q h s.
Proof. unfold wp, mbind, M_bind, bind. by destruct (m env h s) as [[[a| |] h'] s']. Qed.

Lemma wp_call {A : Type} env (c : Call A) Q h s :
  (forall a, Q (Returned a) (h ++ [Answered c a]) s) -> Q Panicking (h ++ [Panicked c]) s -> wp env (call c) Q h s.
Proof. intros H1 H2. unfold wp, call. destruct (panics env A c h); [done|apply H1]. Qed.

Lemma wp_call_ok {A : Type} env (c : Call A) Q h s :
  (forall a, Q (Returned a) (h ++ [Answered c a]) s) -> wp env (call_ok c) Q h s.
Proof. intros H. apply H. Qed.

Lemma wp_get env Q h s : Q (Returned s) h s -> wp env get Q h s.
Proof. done. Qed.

Lemma wp_put env s' Q h s : Q (Returned tt) h s' -> wp env (put s') Q h s.
Proof. done. Qed.

Lemma wp_modify env f Q h s : Q (Returned tt) h (f s) -> wp env (modify f) Q h s.
Proof. done. Qed.

Lemma wp_defer {A : Type} env (m : M S A) f Q h s :
  wp env m (fun o h s =>
    match o with
    | Exhausted => Q Exhausted h s
    | _ => wp env (f (match o with Panicking => true | _ => false end)) (fun o' h s =>
        match o' with
        | Returned _ => Q o h s
        | Panicking => Q Panicking h s
        | Exhausted => Q Exhausted h s
        end) h s
    end) h s ->
  wp env (defer m f) Q h s.
Proof.
  unfold wp, defer. destruct (m env h s) as [[o h'] s'].
  destruct o; [destruct (f false env h' s') as [[[[]| |] ?] ?]|destruct (f true env h' s') as [[[[]| |] ?] ?]|]; done.
Qed.

Lemma wp_recovered env m Q h s :
  wp env m (fun o h s => match o with Panicking => Q (Returned tt) h s | _ => Q o h s end) h s -> wp env (recovered m) Q h s.
Proof. unfold wp, recovered. by destruct (m env h s) as [[[a| |] h'] s']. Qed.

Lemma wp_mono {A : Type} env (m : M S A) (Q Q' : Outcome A -> list Event -> S -> Prop) h s :
  wp env m Q h s -> (forall o h s, Q o h s -> Q' o h s) -> wp env m Q' h s.
Proof. unfold wp. destruct (m env h s) as [[o h'] s']. auto. Qed.

Lemma wp_and {A : Type} env (m : M S A) Q1 Q2 h s :
  wp env m Q1 h s -> wp env m Q2 h s -> wp env m (fun o h s => Q1 o h s /\ Q2 o h s) h s.
Proof. unfold wp. by destruct (m env h s) as [[o h'] s']. Qed.

(** ** What a program does at all

    [runs P R m]: whatever happens, [m] makes only calls with [P], and relates the
    states before and after by [R]. *)
Definition runs {A : Type} (P : Event -> Prop) (R : S -> S -> Prop) (m : M S A) : Prop :=
  forall env h s, wp env m (fun _ h' s' => (exists t, h' = h ++ t /\ Forall P t) /\ R s s') h s.

(** No relation at all. *)
Definition anywhere (s s' : S) : Prop := True.
#[global] Instance anywhere_preorder : PreOrder anywhere.
Proof. by split. Qed.

Section Runs.
Context (P : Event -> Prop) (R : S -> S -> Prop) `{!PreOrder R}.

Lemma runs_still {A : Type} (o : Outcome A) : runs P R (fun _ h s => (o, h, s)).
Proof. intros env h s. split; [|reflexivity]. exists []. by rewrite app_nil_r. Qed.

Lemma runs_ret {A : Type} (a : A) : runs P R (ret a).
Proof. apply runs_still. Qed.

Lemma runs_panic {A : Type} : runs P R (panic : M S A).
Proof. apply runs_still. Qed.

Lemma runs_exhausted {A : Type} : runs P R (exhausted : M S A).
Proof. apply runs_still. Qed.

Lemma runs_get : runs P R get.
Proof. intros env h s. split; [|reflexivity]. exists []. by rewrite app_nil_r. Qed.

Lemma runs_modify f : (forall s, R s (f s)) -> runs P R (modify f).
Proof. intros Hf env h s. split; [|apply Hf]. exists []. by rewrite app_nil_r. Qed.

Lemma runs_put s' : (forall s, R s s') -> runs P R (put s').
Proof. intros Hs env h s. split; [|apply Hs]. exists []. by rewrite app_nil_r. Qed.

Lemma runs_call {A : Type} (c : Call A) : (forall a, P (Answered c a)) -> P (Panicked c) -> runs P R (call c).
Proof. intros Ha Hp env h s. apply wp_call; [intros a|]; (split; [|reflexivity]); eexists; (split; [done|]); by repeat constructor. Qed.

Lemma runs_call_ok {A : Type} (c : Call A) : (forall a, P (Answered c a)) -> runs P R (call_ok c).
Proof. intros Ha env h s. apply wp_call_ok. intros a. split; [|reflexivity]. eexists. split; [done|]. by repeat constructor. Qed.

(** One run after another. *)
Lemma runs_trans {A : Type} env (m : M S A) h0 s0 h s :
  runs P R m -> (exists t, h = h0 ++ t /\ Forall P t) /\ R s0 s ->
  wp env m (fun _ h' s' => (exists t, h' = h0 ++ t /\ Forall P t) /\ R s0 s') h s.
Proof.
  intros Hm [(t & -> & Ht) Hs]. eapply wp_mono; [apply Hm|]. intros o h' s' [(t' & -> & Ht') Hs'].
  split; [|by etrans]. exists (t ++ t'). rewrite <- app_assoc. split; [done|by apply Forall_app].
Qed.

Lemma runs_bind {A B : Type} (m : M S A) (k : A -> M S B) : runs P R m -> (forall a, runs P R (k a)) -> runs P R (m ≫= k).
Proof.
  intros Hm Hk env h s. apply wp_bind. eapply wp_mono; [apply Hm|]. intros [a| |] h1 s1 H1; [|done|done]. by apply runs_trans.
Qed.

Lemma runs_defer {A : Type} (m : M S A) f : runs P R m -> (forall b, runs P R (f b)) -> runs P R (defer m f).
Proof.
  intros Hm Hf env h s. apply wp_defer. eapply wp_mono; [apply Hm|]. intros [a| |] h1 s1 H1; [| |done];
    (eapply wp_mono; [eapply runs_trans; [apply Hf|exact H1]|]); by intros [| |].
Qed.

Lemma runs_recovered m : runs P R m -> runs P R (recovered m).
Proof. intros Hm env h s. apply wp_recovered. eapply wp_mono; [apply Hm|]. by intros [| |]. Qed.

End Runs.

Lemma runs_mono {A : Type} (P P' : Event -> Prop) (R R' : S -> S -> Prop) (m : M S A) :
  runs P R m -> (forall e, P e -> P' e) -> (forall s s', R s s' -> R' s s') -> runs P' R' m.
Proof.
  intros Hm HP HR env h s. eapply wp_mono; [apply Hm|]. intros o h' s' [(t & -> & Ht) Hs]. split; [|auto].
  exists t. split; [done|]. eapply Forall_impl; [exact Ht|done].
Qed.

(** What a program returns. *)
Definition yields {A : Type} (Q : A -> Prop) (m : M S A) : Prop :=
  forall env h s, wp env m (fun o _ _ => match o with Returned a => Q a | _ => True end) h s.

Lemma yields_ret {A : Type} (Q : A -> Prop) a : Q a -> yields Q (ret a).
Proof. by intros H env h s. Qed.

Lemma yields_bind {A B : Type} (Q : A -> Prop) (Q' : B -> Prop) (m : M S A) k :
  yields Q m -> (forall a, Q a -> yields Q' (k a)) -> yields Q' (m ≫= k).
Proof. intros Hm Hk env h s. apply wp_bind. eapply wp_mono; [apply Hm|]. intros [a| |] h1 s1 H; [by apply Hk|done|done]. Qed.

Lemma yields_any {A : Type} (m : M S A) : yields (fun _ => True) m.
Proof. intros env h s. unfold wp. by destruct (m env h s) as [[[] ?] ?]. Qed.

Lemma yields_defer {A : Type} (Q : A -> Prop) (m : M S A) f : yields Q m -> yields Q (defer m f).
Proof.
  intros Hm env h s. apply wp_defer. eapply wp_mono; [apply Hm|]. intros o h1 s1 H. destruct o; [| |done];
    (eapply wp_mono; [apply (yields_any (f _))|]); by intros [| |].
Qed.

Lemma yields_mono {A : Type} (Q Q' : A -> Prop) (m : M S A) : yields Q m -> (forall a, Q a -> Q' a) -> yields Q' m.
Proof. intros Hm HQ env h s. eapply wp_mono; [apply Hm|]. intros [a| |] h1 s1; auto. Qed.

End Effects.

Arguments Event : clear implicits.
Arguments Env : clear implicits.
Arguments M : clear implicits.

(** Decomposes a program into its calls; what the lemmas of the database [runs] and
    computation do not settle is left. *)
Create HintDb runs.
Ltac runs_leaf := hnf; intros; solve [reflexivity | repeat split].
Ltac runs_step :=
  lazymatch goal with
  | |- PreOrder _ => exact _
  | |- runs _ _ (_ ≫= _) => apply runs_bind; [..|intros ?]
  | |- runs _ _ (ret _) => apply runs_ret
  | |- runs _ _ panic => apply runs_panic
  | |- runs _ _ exhausted => apply runs_exhausted
  | |- runs _ _ get => apply runs_get
  | |- runs _ _ (modify _) => apply runs_modify; intros ?; hnf; repeat split
  | |- runs _ _ (put _) => apply runs_put; intros ?; hnf; repeat split
  | |- runs _ _ (call _) => apply runs_call; [..|intros ?; runs_leaf|runs_leaf]
  | |- runs _ _ (call_ok _) => apply runs_call_ok; [..|intros ?; runs_leaf]
  | |- runs _ _ (defer _ _) => apply runs_defer; [..|intros ?]
  | |- runs _ _ (recovered _) => apply runs_recovered
  | |- runs _ _ (if ?b then _ else _) => destruct b
  | |- runs _ _ (match ?x with _ => _ end) => destruct x
  end.
Ltac runs := repeat (cbv zeta; first [assumption | progress auto with runs | runs_step]).
