(* ===== verification/Calls.v ===== *)
(** The data of a forwarded request and the calls the gateway makes while it
    serves one: the records of [src/internal/gateway/observer.go], the API errors of
    [src/internal/gateway/service.go], and the request, target and result of
    [src/internal/proxy/proxy.go].

    The registry, the runtime monitor, the admission components, the observers, the
    clock, the HTTP client and the response writer are the environment: each of
    their methods is a call. *)

From Stdlib Require Import Ascii.
From S2P Require Import Prelude Domain Float64 Coordination Registry Tokenization GoStrings Effects.

(** ** Errors *)

(** What [ctx.Err()] gives. *)
Inductive ContextError := Canceled | DeadlineExceeded.

(** The errors a request meets.  An error of the environment says whether
    [errors.Is(err, context.Canceled)] holds of it. *)
Inductive RequestError :=
| ErrEnvironment (canceled : bool)
| ErrContext (e : ContextError)
| ErrShortWrite
| ErrRoute
| ErrAPIKeyBecameInvalid
| ErrWrap (e : RequestError).

Fixpoint is_canceled (e : RequestError) : bool :=
  match e with
  | ErrEnvironment canceled => canceled
  | ErrContext Canceled => true
  | ErrWrap e => is_canceled e
  | _ => false
  end.

Fixpoint is_key_invalid (e : RequestError) : bool :=
  match e with
  | ErrAPIKeyBecameInvalid => true
  | ErrWrap e => is_key_invalid e
  | _ => false
  end.

(** ** observer.go *)

(** [DecisionNone] is the zero value [""]. *)
Inductive DecisionReason :=
| DecisionNone
| DecisionPoolWaitingLimit
| DecisionPoolInflightLimit
| DecisionPoolPriorityReserve
| DecisionPriorityConcurrencyLimit
| DecisionPoolUnavailable
| DecisionNoEligibleBackend
| DecisionGatewayBackpressure
| DecisionModelNotAllowed
| DecisionInvalidRequest
| DecisionInvalidAPIKey
| DecisionUpstreamFailure.

(** [QueueNone] is the zero value [""]. *)
Inductive QueueOutcome := QueueNone | QueueSelected | QueueRejected.

#[global] Instance QueueOutcome_eq_dec : EqDecision QueueOutcome.
Proof. solve_decision. Defined.

Record InflightEvent := {
  ie_Client : string;
  ie_Model : string;
  ie_Backend : string;
  ie_PriorityClass : PriorityClass
}.

#[global] Instance InflightEvent_eq_dec : EqDecision InflightEvent.
Proof. solve_decision. Defined.

Record RequestEvent := {
  ev_OccurredAt : Time;
  ev_RequestID : string;
  ev_ParentRequestID : string;
  ev_ClientID : Z;
  ev_ModelPoolID : Z;
  ev_Client : string;
  ev_Model : string;
  ev_Backend : string;
  ev_PriorityClass : PriorityClass;
  ev_VLLMPriority : Z;
  ev_PoolState : PoolState;
  ev_BackendPressure : float64;
  ev_Status : Z;
  ev_Reason : string;
  ev_DecisionReason : DecisionReason;
  ev_QueueWait : Duration;
  ev_QueueOutcome : QueueOutcome;
  ev_Duration : Duration;
  ev_TTFT : Duration;
  ev_Disconnect : bool;
  ev_RetryCount : Z;
  ev_Usage : option Domain.TokenUsage;
  ev_UsageParseFailure : string;
  ev_SoftTPMExpected : bool;
  ev_UpstreamFailure : string
}.

(** [TokenizationEvent] of [tokenization.go]. *)
Record TokenizationEvent := {
  te_RequestID : string;
  te_Client : string;
  te_Model : string;
  te_Backend : string;
  te_Reason : string;
  te_Status : Z;
  te_Duration : Duration;
  te_Cancelled : bool
}.

Definition zeroEvent : RequestEvent :=
  {| ev_OccurredAt := 0; ev_RequestID := ""; ev_ParentRequestID := ""; ev_ClientID := 0; ev_ModelPoolID := 0; ev_Client := "";
     ev_Model := ""; ev_Backend := ""; ev_PriorityClass := ""%string; ev_VLLMPriority := 0; ev_PoolState := PoolUnset;
     ev_BackendPressure := fzero; ev_Status := 0; ev_Reason := ""; ev_DecisionReason := DecisionNone; ev_QueueWait := 0;
     ev_QueueOutcome := QueueNone; ev_Duration := 0; ev_TTFT := 0; ev_Disconnect := false; ev_RetryCount := 0; ev_Usage := None;
     ev_UsageParseFailure := ""; ev_SoftTPMExpected := false; ev_UpstreamFailure := "" |}.

(** ** API errors *)

Record APIError := {
  ae_HTTPStatus : Z;
  ae_Message : string;
  ae_Type : string;
  ae_Code : string;
  ae_RetryAfter : Duration;
  ae_DecisionReason : DecisionReason
}.

Definition invalidAPIKey : APIError :=
  {| ae_HTTPStatus := 401; ae_Message := "Invalid API key"; ae_Type := "authentication_error"; ae_Code := "invalid_api_key";
     ae_RetryAfter := 0; ae_DecisionReason := DecisionInvalidAPIKey |}.

Definition invalidRequest (message : string) : APIError :=
  {| ae_HTTPStatus := 400; ae_Message := message; ae_Type := "invalid_request_error"; ae_Code := "invalid_request_error";
     ae_RetryAfter := 0; ae_DecisionReason := DecisionInvalidRequest |}.

Definition modelNotAllowed : APIError :=
  {| ae_HTTPStatus := 403; ae_Message := "The requested model is not available to this client"; ae_Type := "invalid_request_error";
     ae_Code := "model_not_allowed"; ae_RetryAfter := 0; ae_DecisionReason := DecisionModelNotAllowed |}.

Definition overloaded (retryAfter : Duration) (reason : DecisionReason) : APIError :=
  {| ae_HTTPStatus := 429; ae_Message := "Inference cluster is currently overloaded"; ae_Type := "rate_limit_error";
     ae_Code := "gateway_overloaded"; ae_RetryAfter := retryAfter; ae_DecisionReason := reason |}.

Definition backendUnavailable (retryAfter : Duration) (reason : DecisionReason) : APIError :=
  {| ae_HTTPStatus := 503; ae_Message := "No healthy inference backend is currently available"; ae_Type := "server_error";
     ae_Code := "backend_unavailable"; ae_RetryAfter := retryAfter; ae_DecisionReason := reason |}.

Definition gatewayUnavailable (retryAfter : Duration) : APIError :=
  {| ae_HTTPStatus := 503; ae_Message := "The gateway is temporarily unable to accept requests"; ae_Type := "server_error";
     ae_Code := "gateway_unavailable"; ae_RetryAfter := retryAfter; ae_DecisionReason := DecisionGatewayBackpressure |}.

Definition upstreamError : APIError :=
  {| ae_HTTPStatus := 502; ae_Message := "The inference backend could not complete the request"; ae_Type := "server_error";
     ae_Code := "upstream_error"; ae_RetryAfter := 0; ae_DecisionReason := DecisionUpstreamFailure |}.

(** The string of a rate-limit reason. *)
Definition rate_code (reason : Reason) : string :=
  match reason with ReasonRPMExhausted => "rpm_exhausted" | _ => "tpm_exhausted" end.

Definition coordinationAPIError (reason : Reason) (retryAfter : Duration) (retryAt : option Time) (now : Time) : APIError :=
  let retryAfter :=
    match retryAt with
    | Some t => let d := GoTime.Sub t now in if 0 <? d then d else retryAfter
    | None => retryAfter
    end in
  match reason with
  | ReasonRPMExhausted | ReasonTPMExhausted =>
    {| ae_HTTPStatus := 429; ae_Message := "Rate limit exceeded"; ae_Type := "rate_limit_exceeded"; ae_Code := rate_code reason;
       ae_RetryAfter := retryAfter; ae_DecisionReason := DecisionNone |}
  | ReasonPoolPriorityReserve => overloaded retryAfter DecisionPoolPriorityReserve
  | ReasonConcurrencyExhausted => overloaded retryAfter DecisionPriorityConcurrencyLimit
  | _ => gatewayUnavailable retryAfter
  end.

(** ** proxy.go *)

(** [Complete] is the completion registered at [tg_index] of the request. *)
Record Target := {
  tg_Backend : Backend;
  tg_UpstreamAPIKey : string;
  tg_index : nat
}.

Record Result := {
  re_BackendID : Z;
  re_Status : Z;
  re_BytesSent : Z;
  re_FirstByte : Duration;
  re_RetryCount : Z;
  re_ResponseStarted : bool;
  re_Cancelled : bool;
  re_Usage : option Domain.TokenUsage;
  re_UsageParseFailure : string;
  re_UpstreamFailure : string;
  re_Err : option RequestError
}.

Definition zeroResult : Result :=
  {| re_BackendID := 0; re_Status := 0; re_BytesSent := 0; re_FirstByte := 0; re_RetryCount := 0; re_ResponseStarted := false;
     re_Cancelled := false; re_Usage := None; re_UsageParseFailure := ""; re_UpstreamFailure := ""; re_Err := None |}.

(** The request sent upstream, and the head of the response. *)
Record UpstreamRequest {Bytes : Type} := {
  up_Backend : Z;
  up_Method : string;
  up_URL : string;
  up_Header : Header;
  up_Body : Bytes
}.
Arguments UpstreamRequest : clear implicits.

Record ResponseHead := {
  rh_StatusCode : Z;
  rh_Header : Header
}.

(** The error of a read of the response body. *)
Inductive ReadError := EOF | ReadFailed (canceled : bool).

(** What a [ResponseController] reports: [http.ErrNotSupported], or another error. *)
Inductive ControllerError := NotSupported | ControllerFailed.

(** ** The calls *)

(** What [ReserveResponseComplete] returned: a handle, a rollback, and success. *)
Record Reservation := {
  rv_handle : bool;
  rv_rollback : bool;
  rv_reserved : bool
}.

Inductive Call {Bytes : Type} : Type -> Type :=
(* registry, clock and process *)
| CSnapshot : Call Snapshot
| CLockSnapshot : Call Snapshot
| CUnlockSnapshot : Call unit
| CReload : Call bool
| CNow : Call Time
| CTimeNow : Call Time
| CSince (t : Time) : Call Duration
| CLookupEnv (name : string) : Call (option string)
| CNewUUID : Call UUID
| CContextErr : Call (option ContextError)
(* runtime monitor and router *)
| CPoolSnapshot (pool : Z) (at_ : Time) : Call PoolRuntime
| CAcquirePool (pool maximum : Z) : Call bool
| CReleasePool (pool : Z) : Call unit
| CBackendSnapshot (backend : Z) (at_ : Time) : Call BackendRuntime
| CAcquireBackend (backend : Backend) (at_ : Time) : Call bool
| CCompleteBackend (backend : Backend) (outcome : InferenceOutcome) : Call unit
| CBackendHealth (backend : Backend) (at_ : Time) : Call (BackendRuntime * bool)
| CRandom : Call (Z -> Z)
(* admission *)
| CCoordinationAllowed : Call bool
| CCoordinationReady : Call bool
| CAdmissionAcquire (req : AdmissionRequest) : Call (AdmissionDecision * option Error)
| CAdmissionComplete (lease : LeaseIdentity) (usage : option Coordination.TokenUsage) : Call unit
| CTrack (lease : LeaseIdentity) : Call unit
| CHandleComplete (lease : LeaseIdentity) (usage : option Coordination.TokenUsage) : Call unit
| CObserveRatePolicy (policy : ClientRatePolicy) : Call unit
| CLimiterAcquire (client limit : Z) : Call bool
| CLimiterRelease (client : Z) : Call unit
| CEmergencyAcquire (class : PriorityClass) (client limit : Z) : Call bool
| CEmergencyRelease (class : PriorityClass) (client : Z) : Call unit
| CEmergencyCanServe (class : PriorityClass) (client limit : Z) : Call bool
| CTokenizationAcquire (req : TokenizationAcquireRequest) : Call (option TokenizationDecision)
| CTokenizationComplete (lease : TokenizationLease) : Call unit
(* observers *)
| CUsageRecord (key : Z) (at_ : Time) : Call unit
| CEmergencyObserved (class : PriorityClass) (admitted : bool) : Call unit
| CClientInflight (e : InflightEvent) (delta : Z) : Call unit
| CBackendInflight (e : InflightEvent) (delta : Z) : Call unit
| CComplete (e : RequestEvent) : Call unit
| CReserve (requestID : string) : Call Reservation
| CRollbackReservation : Call unit
| CStage (e : RequestEvent) : Call unit
| CResponseComplete : Call unit
| CTokenizationObserved (e : TokenizationEvent) : Call unit
(* the HTTP client and the response writer *)
| CNewRequest (method url : string) : Call bool
| CDo (request : UpstreamRequest Bytes) : Call (RequestError + ResponseHead)
| CRead : Call (list ascii * option ReadError)
| CCloseBody : Call unit
| CResponseHeader : Call Header
| CWriteHeader (status : Z) (header : Header) : Call unit
| CWrite (data : list ascii) : Call (Z * option RequestError)
| CFlush : Call unit
| CDeadline : Call (option Time)
| CSetWriteDeadline (deadline : Time) : Call (option ControllerError)
| CControllerFlush : Call (option ControllerError).
Arguments Call : clear implicits.

(** ** What a history shows *)

Section Histories.
Context {Bytes : Type}.
Abbreviation History := (list (Event (Call Bytes))).

(** A request sent upstream. *)
Definition sent (e : Event (Call Bytes)) : option (UpstreamRequest Bytes) :=
  match e with
  | Answered c _ => match c with CDo r => Some r | _ => None end
  | Panicked c => match c with CDo r => Some r | _ => None end
  end.
Definition sends (h : History) : list (UpstreamRequest Bytes) := omap sent h.

(** A head handed to the response writer. *)
Definition head_of (e : Event (Call Bytes)) : list (Z * Header) :=
  match e with
  | Answered c _ => match c with CWriteHeader status header => [(status, header)] | _ => [] end
  | Panicked c => match c with CWriteHeader status header => [(status, header)] | _ => [] end
  end.
Definition heads (h : History) : list (Z * Header) := h ≫= head_of.

(** The bytes the response writer accepted. *)
Definition written_of (e : Event (Call Bytes)) : list ascii :=
  match e with
  | Answered c a =>
    match c in Call _ A return A -> list ascii with
    | CWrite data => fun '(n, _) => take (Z.to_nat n) data
    | _ => fun _ => []
    end a
  | Panicked _ => []
  end.
Definition written (h : History) : list ascii := h ≫= written_of.

(** The bytes read from the upstream. *)
Definition received_of (e : Event (Call Bytes)) : list ascii :=
  match e with
  | Answered c a => match c in Call _ A return A -> list ascii with CRead => fun '(data, _) => data | _ => fun _ => [] end a
  | Panicked _ => []
  end.
Definition received (h : History) : list ascii := h ≫= received_of.

(** The response writer was given something. *)
Definition touches (e : Event (Call Bytes)) : bool :=
  match e with
  | Answered c _ => match c with CWriteHeader _ _ | CWrite _ => true | _ => false end
  | Panicked c => match c with CWriteHeader _ _ | CWrite _ => true | _ => false end
  end.
Definition untouched (h : History) : Prop := Forall (fun e => touches e = false) h.

(** The configuration was read or reloaded. *)
Definition reads_config (e : Event (Call Bytes)) : bool :=
  match e with
  | Answered c _ => match c with CSnapshot | CLockSnapshot | CReload => true | _ => false end
  | Panicked c => match c with CSnapshot | CLockSnapshot | CReload => true | _ => false end
  end.

Definition is_read (e : Event (Call Bytes)) : bool := match e with Answered CRead _ => true | _ => false end.

Lemma untouched_written h : untouched h -> heads h = [] /\ written h = [].
Proof.
  induction 1 as [|e h He _ [IH1 IH2]]; [done|]. unfold heads, written in *. cbn. rewrite IH1, IH2, !app_nil_r.
  destruct e as [A c a|A c]; [|split; [|done]]; by destruct c.
Qed.

(** Every send of [t], after the history [h], has [Good]. *)
Fixpoint sends_ok (Good : History -> UpstreamRequest Bytes -> Prop) (h t : History) : Prop :=
  match t with
  | [] => True
  | e :: t => (forall req, sent e = Some req -> Good h req) /\ sends_ok Good (h ++ [e]) t
  end.

Lemma sends_ok_app Good h t1 t2 : sends_ok Good h (t1 ++ t2) <-> sends_ok Good h t1 /\ sends_ok Good (h ++ t1) t2.
Proof.
  revert h. induction t1 as [|e t1 IH]; intros h; cbn; [rewrite app_nil_r; tauto|].
  rewrite IH, <- app_assoc. cbn. tauto.
Qed.

Lemma sends_ok_none Good h t : sends t = [] -> sends_ok Good h t.
Proof.
  revert h. induction t as [|e t IH]; intros h; cbn; [done|]. unfold sends. cbn. destruct (sent e) eqn:E; [done|].
  intros H. split; [done|]. by apply IH.
Qed.

Lemma sends_ok_elim Good h t t1 e t2 req : sends_ok Good h t -> t = t1 ++ e :: t2 -> sent e = Some req -> Good (h ++ t1) req.
Proof. intros H -> He. apply sends_ok_app in H as [_ [H _]]. auto. Qed.

End Histories.
