(* ===== verification/Proxy.v ===== *)
(** The proxy ([src/internal/proxy/proxy.go]): it sends a request to its target,
    copies the response back while the usage inspector reads along, and retries once
    on another backend when nothing was sent to the client yet.

    [complete] is [target.Complete]; [select] is [request.SelectAlternate].  [fuel]
    bounds the reads of one response body.  A [nil] completion does not occur: the
    gateway's targets always have one. *)

From Stdlib Require Import Ascii.
From S2P Require Import Prelude Domain GoStrings Payload UsageInspector Effects Calls.

Record Request {Bytes : Type} := {
  rq_Method : string;
  rq_Path : string;
  rq_Headers : Header;
  rq_Body : Bytes;
  rq_RequestID : string;
  rq_Priority : Z;
  rq_Target : Target
}.
Arguments Request : clear implicits.

Definition completedOutcome (status : Z) : InferenceOutcome := if 500 <=? status then InferenceFailure else InferenceSuccess.

Definition interruptedOutcome (status : Z) (provenReadFailure : bool) : InferenceOutcome :=
  if (500 <=? status) || provenReadFailure then InferenceFailure else InferenceNeutral.

Section Proxy.
Context {Bytes St : Type}.
(** The standard library: the order of [range] over headers, the JSON decoder and
    the media type parser of the inspector, [strings.ToLower]. *)
Context (range_headers : Header -> list (string * list string)) (Decode : list ascii -> DecodeResult)
  (ParseMediaType : string -> option string) (ToLower : string -> string).
Context (complete : Target -> InferenceOutcome -> M (Call Bytes) St unit)
  (select : gset Z -> M (Call Bytes) St (RequestError + Target)).
Context (fuel : nat).

Abbreviation P := (M (Call Bytes) St).

(** A run-time panic where the partial operation has no result. *)
Definition or_panic {A : Type} (o : option A) : P A := match o with Some a => ret a | None => panic end.

(** [responseCopier]: the response head, the start of the request and, threaded
    through, the result and the inspector. *)
Record Copier := {
  cp_response : ResponseHead;
  cp_started : Time;
  cp_result : Result;
  cp_inspector : usageInspector
}.

Definition set_result (f : Result -> Result) (c : Copier) : Copier := {| c with cp_result := f (cp_result c) |}.

Definition commit (c : Copier) : P Copier :=
  if re_ResponseStarted (cp_result c) then ret c
  else
    destination ← call CResponseHeader;
    call (CWriteHeader (rh_StatusCode (cp_response c)) (CopyResponseHeaders range_headers destination (rh_Header (cp_response c))));;
    elapsed ← call_ok (CSince (cp_started c));
    ret (set_result (fun r => {| r with re_FirstByte := elapsed; re_ResponseStarted := true |}) c).

(** The copier and, when the copy is over, its outcome.  A count that the contract of
    [io.Writer] rules out, below zero or above the length of the data, is a panic; for one
    that is above the length but fits the buffer, Go would hand the inspector what an
    earlier read left there. *)
Definition write (data : list ascii) (provenReadFailure : bool) (c : Copier) : P (Copier * option InferenceOutcome) :=
  c ← commit c;
  '(written, writeErr) ← call (CWrite data);
  let c := set_result (fun r => {| r with re_BytesSent := re_BytesSent r + written |}) c in
  call CFlush;;
  inspector ← or_panic (if (0 <=? written) && (written <=? Z.of_nat (length data))
                        then Write Decode (cp_inspector c) (take (Z.to_nat written) data) else None);
  let c := {| c with cp_inspector := inspector |} in
  if match writeErr with None => written =? Z.of_nat (length data) | Some _ => false end then ret (c, None)
  else
    let writeErr := default ErrShortWrite writeErr in
    ctxErr ← call_ok CContextErr;
    let c := set_result (fun r => {| r with re_Err := Some writeErr;
                                            re_Cancelled := bool_decide (is_Some (ctxErr : option ContextError)) |}) c in
    ret (c, Some (interruptedOutcome (rh_StatusCode (cp_response c)) provenReadFailure)).

Definition completeUsageInspection (c : Copier) : P Copier :=
  '(inspector, (usage, format, failed)) ← or_panic (UsageInspector.Result Decode (cp_inspector c));
  ret {| c with cp_inspector := inspector;
                cp_result := let r := cp_result c in
                  {| r with re_Usage := usage;
                            re_UsageParseFailure := if (failed : bool) then format else re_UsageParseFailure r |} |}.

(** [ctx.Err() != nil] *)
Definition cancelled : P bool := e ← call_ok CContextErr; ret (bool_decide (is_Some (e : option ContextError))).

(** The end of [copy] after a read error that is not [io.EOF]. *)
Definition read_failed (readErr : RequestError) (firstRead : bool) (count : nat) (provenReadFailure : bool) (c : Copier)
    : P (Copier * bool * InferenceOutcome) :=
  over ← cancelled;
  let c := set_result (fun r => {| r with re_Err := Some readErr; re_Cancelled := over;
                                          re_UpstreamFailure := if over then re_UpstreamFailure r else "upstream_body_read_error" |}) c in
  if (over : bool) then
    c ← (if firstRead && (count =? 0)%nat then
           e ← call_ok CContextErr;
           ret (set_result (fun r => {| r with re_Err := option_map ErrContext e |}) c)
         else ret c);
    ret (c, false, interruptedOutcome (rh_StatusCode (cp_response c)) provenReadFailure)
  else
    let retryable := firstRead && (count =? 0)%nat && negb (re_ResponseStarted (cp_result c)) &&
                     (200 <=? rh_StatusCode (cp_response c)) && (rh_StatusCode (cp_response c) <? 300) in
    ret (c, retryable, InferenceFailure).

Fixpoint copy (fuel : nat) (firstRead : bool) (c : Copier) : P (Copier * bool * InferenceOutcome) :=
  match fuel with
  | O => exhausted
  | S fuel =>
    '(data, readErr) ← call CRead;
    provenReadFailure ← match readErr with
                        | Some (ReadFailed _) => over ← cancelled; ret (negb over)
                        | _ => ret false
                        end;
    let c := if (provenReadFailure : bool)
             then set_result (fun r => {| r with re_UpstreamFailure := "upstream_body_read_error" |}) c else c in
    '(c, terminal) ← (if (0 <? length data)%nat then write data provenReadFailure c else ret (c, None));
    match terminal with
    | Some outcome => ret (c, false, outcome)
    | None =>
      match readErr with
      | Some EOF =>
        c ← commit c;
        c ← completeUsageInspection c;
        ret (c, false, completedOutcome (rh_StatusCode (cp_response c)))
      | Some (ReadFailed canceled) => read_failed (ErrEnvironment canceled) firstRead (length data) provenReadFailure c
      | None => copy fuel false c
      end
    end
  end.

Definition zero_result_of (target : Target) : Result := {| zeroResult with re_BackendID := be_ID (tg_Backend target) |}.

Definition forwardOnce (request : Request Bytes) (target : Target) (started : Time) : P (Result * bool * InferenceOutcome) :=
  let result := zero_result_of target in
  let upstreamURL := String.append (TrimRight "/"%char (be_BaseURL (tg_Backend target))) (rq_Path request) in
  created ← call (CNewRequest (rq_Method request) upstreamURL);
  if negb created then ret ({| result with re_Err := Some (ErrWrap (ErrEnvironment false)) |}, false, InferenceNeutral)
  else
    response ← call (CDo {| up_Backend := be_ID (tg_Backend target); up_Method := rq_Method request; up_URL := upstreamURL;
                            up_Header := PrepareUpstreamHeaders range_headers (rq_Headers request) (rq_RequestID request)
                                           (rq_Priority request) (tg_UpstreamAPIKey target);
                            up_Body := rq_Body request |});
    match response with
    | inl err =>
      over ← cancelled;
      if (over : bool) then
        e ← call_ok CContextErr;
        ret ({| result with re_Err := option_map ErrContext e; re_Cancelled := true |}, false, InferenceNeutral)
      else ret ({| result with re_Err := Some err |}, true, InferenceFailure)
    | inr head =>
      defer
        (let c := {| cp_response := head; cp_started := started;
                     cp_result := {| result with re_Status := rh_StatusCode head |};
                     cp_inspector := newUsageInspector ParseMediaType ToLower (Header.Get (rh_Header head) "Content-Type") |} in
         c ← (if (rh_StatusCode head <? 200) || (300 <=? rh_StatusCode head) then commit c else ret c);
         '(c, retryable, outcome) ← copy fuel true c;
         ret (cp_result c, retryable, outcome))
        (fun _ => call_ok CCloseBody)
    end.

(** The completion runs once: when [forwardOnce] panicked, with a neutral outcome,
    and otherwise with the outcome. *)
Definition forwardAttempt (request : Request Bytes) (target : Target) (started : Time) : P (Result * bool) :=
  '(result, retryable, outcome) ←
    defer (forwardOnce request target started)
      (fun panicked => if (panicked : bool) then recovered (complete target InferenceNeutral) else ret tt);
  complete target outcome;;
  ret (result, retryable).

(** [attempts] counts the attempts that remain. *)
Fixpoint attempt_loop (attempts : nat) (request : Request Bytes) (target : Target) (started : Time) (excluded : gset Z)
    (retryCount : Z) : P Result :=
  let excluded := {[be_ID (tg_Backend target)]} ∪ excluded in
  '(attemptResult, retryable) ← forwardAttempt request target started;
  let result := {| attemptResult with re_RetryCount := retryCount |} in
  match attempts with
  | S attempts =>
    if negb retryable then ret result
    else
      next ← select excluded;
      match next with
      | inl err => ret {| result with re_Err := Some (ErrWrap err) |}
      | inr target => attempt_loop attempts request target started excluded (retryCount + 1)
      end
  | O => ret result
  end.

Definition Forward (request : Request Bytes) : P Result :=
  started ← call_ok CTimeNow;
  attempt_loop 1 request (rq_Target request) started ∅ 0.

End Proxy.
