(* ===== verification/Service.v ===== *)
(** The gateway service: the way of a request through authentication, admission,
    routing, proxying and the release of everything it held
    ([src/internal/gateway/service.go], [forward.go] and [forward_admission.go]).

    The state of a request is its [Lifecycle], with the named results of [Forward].
    The optional collaborators of the service are booleans of [Service]. *)

From Stdlib Require Import Ascii.
From S2P Require Import Prelude Domain Float64 Coordination Admission Registry Routing GoStrings ApiKey Payload UsageInspector Effects Calls Proxy.

Record Service := {
  sv_admission : bool;
  sv_leases : bool;
  sv_policyObserver : bool;
  sv_reloader : bool;
  sv_guarded : bool;
  sv_usage : bool;
  sv_observer : bool;
  sv_emergencyObserver : bool;
  sv_reserver : bool;
  sv_replicaID : UUID;
  sv_leaseTTL : Duration;
  sv_retryAfter : Duration;
  sv_router : Router
}.

Record ForwardRequest {Bytes : Type} := {
  fr_Method : string;
  fr_Path : string;
  fr_Headers : Header;
  fr_Body : Bytes;
  fr_APIKey : string;
  fr_RequestID : string;
  fr_ParentRequestID : string
}.
Arguments ForwardRequest : clear implicits.

Record resolvedForwardRequest {Bytes : Type} := {
  rs_client : Client;
  rs_pool : ModelPool;
  rs_snapshot : Snapshot;
  rs_payload : Bytes;
  rs_publicModel : string;
  rs_sessionID : string;
  rs_affinityKey : string
}.
Arguments resolvedForwardRequest : clear implicits.

(** A completion registered by [selectTarget]: the backend, the gauge it counts in
    and whether its [sync.Once] is spent. *)
Record TargetState := {
  ts_backend : Backend;
  ts_inflight : InflightEvent;
  ts_done : bool
}.

Record Lifecycle := {
  lf_started : Time;
  lf_admissionStarted : Time;
  lf_event : RequestEvent;
  lf_rollback : bool;
  lf_targets : list TargetState;
  lf_result : Result;
  lf_reservation : bool;
  lf_apiErr : option APIError
}.

Definition set_event (f : RequestEvent -> RequestEvent) (l : Lifecycle) : Lifecycle := {| l with lf_event := f (lf_event l) |}.

Definition zeroPoolRuntime : PoolRuntime :=
  {| po_PoolID := 0; po_State := PoolUnset; po_BestBackendPressure := fzero; po_AvailableBackends := 0; po_AllBackendsWaiting := false;
     po_GatewayInflight := 0; po_TotalWaiting := fzero |}.

(** What admission gave, and so what its release returns. *)
Inductive Admittance :=
| ByLimiter (client : Z)
| ByEmergency (class : PriorityClass) (client : Z)
| ByLease (lease : LeaseIdentity) (tracked : bool).

(** [snapshot.Access[client][pool]] *)
Definition allowed (s : Snapshot) (client pool : Z) : bool :=
  default false (default ∅ (sn_Access s !! client) !! pool).

Definition currentAdmissionPool (snapshot : Snapshot) (clientID : Z) (original : ModelPool) : option ModelPool :=
  match sn_PoolsByID snapshot !! mp_ID original, sn_Clients snapshot !! clientID with
  | Some pool, Some client =>
    if mp_Enabled pool && bool_decide (mp_PublicModelName pool = mp_PublicModelName original) &&
       bool_decide (mp_UpstreamModelName pool = mp_UpstreamModelName original) && cl_Enabled client &&
       allowed snapshot clientID (mp_ID pool)
    then Some pool else None
  | _, _ => None
  end.

Definition coordinationTokenUsage (usage : option Domain.TokenUsage) : option Coordination.TokenUsage :=
  match usage with
  | None => None
  | Some u => Some {| tu_InputTokens := du_InputTokens u; tu_OutputTokens := du_OutputTokens u;
                      tu_CacheReadTokens := default 0 (du_CacheReadTokens u) |}
  end.

Definition session_message (e : SessionError) : string :=
  match e with
  | SessionTooLong name => String.append name " must not exceed 256 bytes"
  | SessionConflict name => String.append name " must not contain conflicting session identifiers"
  end.

Definition payload_message (e : PayloadError) : string :=
  match e with
  | BodyNotObject => "request body must be a JSON object"
  | ModelRequired => "model is required"
  | ModelNotString => "model must be a non-empty string"
  | ModelTooLong => "model must not exceed 256 bytes"
  | EncodeFailed => "encode upstream request"
  end.

(** [strconv.FormatInt(client, 10) + "\x00" + strconv.FormatInt(pool, 10) + "\x00" + session] *)
Definition affinity_key (client pool : Z) (session : string) : string :=
  String.append (Itoa client) (String (chr 0) (String.append (Itoa pool) (String (chr 0) session))).

Section Service.
Context {Bytes Secret : Type} `{!Json Bytes}.
(** The standard library and the environment of the process. *)
Context (hmac : Secret -> string -> N) (secret : Secret)
  (range_headers : Header -> list (string * list string)) (Decode : list ascii -> DecodeResult)
  (ParseMediaType : string -> option string) (ToLower : string -> string) (sha256_prefix : list Z -> Z).
Context (s : Service).
(** The bound on the rounds of the loops. *)
Context (fuel : nat).

Abbreviation G := (M (Call Bytes) Lifecycle).

(** ** Authentication *)

(** The last candidate whose hash the key matches. *)
Definition matching (raw : string) (candidates : list APIKey) : option APIKey :=
  fold_left (fun matched candidate => if Verify hmac secret raw (ak_SecretHash candidate) then Some candidate else matched)
    candidates None.

(** The decision of [validateAPIKeySnapshot] at the instant [now]. *)
Definition key_valid (raw : string) (snapshot : Snapshot) (now : Time) : option (Client * APIKey) :=
  matched ← matching raw (default [] (sn_KeyCandidates snapshot !! String.substring 0 12 raw));
  if bool_decide (is_Some (ak_RevokedAt matched)) ||
     match ak_ExpiresAt matched with Some t => negb (GoTime.After t now) | None => false end
  then None
  else
    client ← sn_Clients snapshot !! ak_ClientID matched;
    if cl_Enabled client then Some (client, matched) else None.

(** [len(raw) >= 12 && strings.HasPrefix(raw, "llmgw_")] *)
Definition key_shaped (raw : string) : bool := (12 <=? String.length raw)%nat && HasPrefix raw "llmgw_".

Definition validateAPIKeySnapshot {St : Type} (raw : string) (snapshot : Snapshot) : M (Call Bytes) St (APIError + Client * APIKey) :=
  if negb (key_shaped raw) then ret (inl invalidAPIKey)
  else
    now ← call_ok CNow;
    match key_valid raw snapshot now with
    | None => ret (inl invalidAPIKey)
    | Some r => ret (inr r)
    end.

Definition authenticate {St : Type} (raw : string) : M (Call Bytes) St (APIError + Client * APIKey) :=
  snapshot ← call_ok CSnapshot;
  r ← validateAPIKeySnapshot raw snapshot;
  match r with
  | inl e => ret (inl e)
  | inr (client, matched) =>
    (if sv_usage s then now ← call_ok CNow; call (CUsageRecord (ak_ID matched) now) else ret tt);;
    ret (inr (client, matched))
  end.

Definition upstreamSecret {St : Type} (backend : Backend) : M (Call Bytes) St (string * bool) :=
  if bool_decide (be_UpstreamAPIKeyEnv backend = EmptyString) then ret (EmptyString, true)
  else
    found ← call_ok (CLookupEnv (be_UpstreamAPIKeyEnv backend));
    match found with
    | Some value => ret (value, negb (bool_decide (value = EmptyString)))
    | None => ret (EmptyString, false)
    end.

(** ** Resolution *)

Definition resolveForwardRequest (request : ForwardRequest Bytes) : G (APIError + resolvedForwardRequest Bytes) :=
  auth ← authenticate (fr_APIKey request);
  match auth with
  | inl e => ret (inl e)
  | inr (client, _) =>
    modify (set_event (fun e => {| e with ev_ClientID := cl_ID client; ev_Client := cl_Name client;
                                          ev_PriorityClass := cl_PriorityClass client; ev_VLLMPriority := cl_VLLMPriority client |}));;
    match sessionAffinityID ToLower (fr_Headers request) with
    | inl e => ret (inl (invalidRequest (session_message e)))
    | inr sessionID =>
      match rewritePayload (fr_Body request) with
      | inl e => ret (inl (invalidRequest (payload_message e)))
      | inr (payload, publicModel) =>
        snapshot ← call_ok CSnapshot;
        match sn_PoolsByName snapshot !! publicModel with
        | None => ret (inl modelNotAllowed)
        | Some pool =>
          modify (set_event (fun e => {| e with ev_ModelPoolID := mp_ID pool; ev_Model := mp_PublicModelName pool |}));;
          ret (inr {| rs_client := client; rs_pool := pool; rs_snapshot := snapshot; rs_payload := payload;
                      rs_publicModel := publicModel; rs_sessionID := sessionID; rs_affinityKey := EmptyString |})
        end
      end
    end
  end.

Definition prepareForwardPayload (request : ForwardRequest Bytes) (resolved : resolvedForwardRequest Bytes)
    : G (APIError + resolvedForwardRequest Bytes) :=
  let client := cl_ID (rs_client resolved) in
  let pool := mp_ID (rs_pool resolved) in
  if negb (mp_Enabled (rs_pool resolved)) || negb (allowed (rs_snapshot resolved) client pool) then ret (inl modelNotAllowed)
  else
    let affinityKey := if bool_decide (rs_sessionID resolved = EmptyString) then rs_affinityKey resolved
                       else affinity_key client pool (rs_sessionID resolved) in
    match forceStreamingUsage (rs_payload resolved) (fr_Path request) with
    | None => ret (inl (invalidRequest "Failed to encode the upstream request"))
    | Some payload =>
      replaced ← or_panic (replaceModel payload (mp_UpstreamModelName (rs_pool resolved)));
      match replaced with
      | None => ret (inl (invalidRequest "Failed to encode the upstream model"))
      | Some payload => ret (inr {| resolved with rs_payload := payload; rs_affinityKey := affinityKey |})
      end
    end.

(** ** Pool capacity *)

(** What [release()] gives back: a place of the pool, or nothing. *)
Definition release_pool (held : option Z) : G unit :=
  match held with Some pool => call_ok (CReleasePool pool) | None => ret tt end.

Definition unavailable_pool (original : ModelPool) : PoolRuntime :=
  {| zeroPoolRuntime with po_PoolID := mp_ID original; po_State := PoolUnavailable |}.

(** The runtime of the pool, and an error or what is held. *)
Fixpoint acquirePool (rounds : nat) (clientID : Z) (original : ModelPool) : G (PoolRuntime * (APIError + option Z)) :=
  match rounds with
  | O => exhausted
  | S rounds =>
    before ← call_ok CSnapshot;
    match currentAdmissionPool before clientID original with
    | None => ret (unavailable_pool original, inl (backendUnavailable (sv_retryAfter s) DecisionPoolUnavailable))
    | Some pool =>
      if negb (sv_admission s) && (0 <? mp_HighPriorityReserve pool)
      then ret (zeroPoolRuntime, inl (gatewayUnavailable (sv_retryAfter s)))
      else
        now ← call_ok CNow;
        runtime ← call_ok (CPoolSnapshot (mp_ID pool) now);
        if bool_decide (po_State runtime = PoolUnavailable)
        then ret (runtime, inl (backendUnavailable (sv_retryAfter s) DecisionPoolUnavailable))
        else if (0 <? mp_MaxWaiting pool) && fle (of_int (mp_MaxWaiting pool)) (po_TotalWaiting runtime)
        then ret (runtime, inl (overloaded (sv_retryAfter s) DecisionPoolWaitingLimit))
        else if sv_admission s then
          after ← call_ok CSnapshot;
          match currentAdmissionPool after clientID original with
          | None => ret (unavailable_pool original, inl (backendUnavailable (sv_retryAfter s) DecisionPoolUnavailable))
          | Some _ => ret (runtime, inr None)
          end
        else
          ok ← call_ok (CAcquirePool (mp_ID pool) (mp_MaxGatewayInflight pool));
          if negb ok then ret (runtime, inl (overloaded (sv_retryAfter s) DecisionPoolInflightLimit))
          else
            after ← call_ok CSnapshot;
            match currentAdmissionPool after clientID original with
            | None =>
              call_ok (CReleasePool (mp_ID pool));;
              ret (unavailable_pool original, inl (backendUnavailable (sv_retryAfter s) DecisionPoolUnavailable))
            | Some validatedPool =>
              if negb (mp_HighPriorityReserve validatedPool =? mp_HighPriorityReserve pool) ||
                 negb (mp_MaxGatewayInflight validatedPool =? mp_MaxGatewayInflight pool) ||
                 negb (mp_MaxWaiting validatedPool =? mp_MaxWaiting pool)
              then
                call_ok (CReleasePool (mp_ID pool));;
                ctxErr ← call_ok CContextErr;
                if bool_decide (is_Some (ctxErr : option ContextError))
                then ret (runtime, inl (backendUnavailable (sv_retryAfter s) DecisionPoolUnavailable))
                else acquirePool rounds clientID original
              else ret (runtime, inr (Some (mp_ID pool)))
            end
    end
  end.

(** ** Admission *)

Definition emergency (client : Client) (limit : Z) : G (APIError + Admittance) :=
  ok ← call_ok (CEmergencyAcquire (cl_PriorityClass client) (cl_ID client) limit);
  (if sv_emergencyObserver s then call (CEmergencyObserved (cl_PriorityClass client) ok) else ret tt);;
  if negb ok then ret (inl (gatewayUnavailable (sv_retryAfter s)))
  else ret (inr (ByEmergency (cl_PriorityClass client) (cl_ID client))).

(** The [acquire] closure: the request is refused as stale unless the snapshot still
    says what the request was made from. *)
Definition admit_current (rawKey : string) (req : AdmissionRequest) (current : Snapshot) : G (AdmissionDecision * option Error) :=
  auth ← validateAPIKeySnapshot rawKey current;
  let stale := ret ({| ad_Lease := None; ad_Reason := ReasonStaleConfiguration; ad_RetryAt := None;
                       ad_ConcurrencyScope := AdmissionNoScope |}, None) in
  match auth, sn_PoolsByID current !! ar_PoolID req with
  | inr (client, key), Some pool =>
    if negb (sn_Revision current =? ar_ConfigurationRevision req) || negb (ak_ID key =? ar_APIKeyID req) ||
       negb (cl_ID client =? ar_ClientID req) || negb (bool_decide (cl_PriorityClass client = ar_PriorityClass req)) ||
       negb (cl_Revision client =? ar_ClientPolicyRevision req) || negb (mp_Enabled pool) ||
       negb (allowed current (ar_ClientID req) (ar_PoolID req)) ||
       negb (mp_MaxGatewayInflight pool =? ar_PoolGatewayInflightLimit req) ||
       negb (mp_HighPriorityReserve pool =? ar_PoolHighPriorityReserve req)
    then stale
    else call (CAdmissionAcquire req)
  | _, _ => stale
  end.

Definition acquireConfiguredAdmission (rawKey : string) (req : AdmissionRequest) : G (AdmissionDecision * option Error) :=
  if sv_guarded s then
    current ← call_ok CLockSnapshot;
    defer (admit_current rawKey req current) (fun _ => call_ok CUnlockSnapshot)
  else
    current ← call_ok CSnapshot;
    admit_current rawKey req current.

(** The request of one attempt. *)
Definition admission_request (request : ForwardRequest Bytes) (resolved : resolvedForwardRequest Bytes) (client : Client)
    (key : APIKey) (limit : Z) (id : UUID) (now : Time) : AdmissionRequest :=
  {| ar_LeaseID := id; ar_OperationStartedAt := now; ar_RequestID := fr_RequestID request; ar_ReplicaID := sv_replicaID s;
     ar_ConfigurationRevision := sn_Revision (rs_snapshot resolved); ar_APIKeyID := ak_ID key; ar_ClientID := cl_ID client;
     ar_PoolID := mp_ID (rs_pool resolved); ar_ClientPolicyRevision := cl_Revision client; ar_EffectiveClientLimit := limit;
     ar_ConfiguredClientLimit := cl_MaxConcurrency client; ar_PoolGatewayInflightLimit := mp_MaxGatewayInflight (rs_pool resolved);
     ar_PoolHighPriorityReserve := mp_HighPriorityReserve (rs_pool resolved); ar_PriorityClass := cl_PriorityClass client;
     ar_RequestsPerMinute := cl_RequestsPerMinute client; ar_TokensPerMinute := cl_TokensPerMinute client;
     ar_LeaseTTL := sv_leaseTTL s |}.

(** How the loop over the attempts ends: with an API error, or with the decision, its
    error, the request as it is resolved then and the limit. *)
Abbreviation Decided := (APIError + (AdmissionDecision * option Error) * resolvedForwardRequest Bytes * Z)%type.

(** After a stale decision: the configuration is reloaded and the request resolved
    again.  [inr None] is a failed reload. *)
Definition resolve_again (request : ForwardRequest Bytes) (resolved : resolvedForwardRequest Bytes)
    : G (APIError + option (resolvedForwardRequest Bytes * Z)) :=
  reloaded ← (if sv_reloader s then call CReload else ret false);
  if negb reloaded then ret (inr None)
  else
    snapshot ← call_ok CSnapshot;
    auth ← validateAPIKeySnapshot (fr_APIKey request) snapshot;
    match auth with
    | inl e => ret (inl e)
    | inr (client, _) =>
      match sn_PoolsByName snapshot !! rs_publicModel resolved with
      | None => ret (inl modelNotAllowed)
      | Some pool =>
        prepared ← prepareForwardPayload request {| resolved with rs_snapshot := snapshot; rs_client := client; rs_pool := pool |};
        match prepared with
        | inl e => ret (inl e)
        | inr resolved =>
          '(runtime, held) ← acquirePool fuel (cl_ID client) pool;
          match held with
          | inl e => ret (inl e)
          | inr release =>
            release_pool release;;
            modify (set_event (fun e => {| e with
              ev_ClientID := cl_ID client; ev_Client := cl_Name client; ev_PriorityClass := cl_PriorityClass client;
              ev_VLLMPriority := cl_VLLMPriority client; ev_ModelPoolID := mp_ID pool; ev_Model := mp_PublicModelName pool;
              ev_PoolState := po_State runtime |}));;
            ret (inr (Some (resolved, EffectiveLimit (cl_PriorityClass client) (po_State runtime) (cl_MaxConcurrency client))))
          end
        end
      end
    end.

(** [attempts] counts the attempts that remain after this one. *)
Fixpoint admission_attempts (attempts : nat) (request : ForwardRequest Bytes) (resolved : resolvedForwardRequest Bytes) (limit : Z)
    : G Decided :=
  auth ← validateAPIKeySnapshot (fr_APIKey request) (rs_snapshot resolved);
  match auth with
  | inl e => ret (inl e)
  | inr (client, key) =>
    id ← call_ok CNewUUID;
    now ← call_ok CNow;
    decided ← acquireConfiguredAdmission (fr_APIKey request) (admission_request request resolved client key limit id now);
    match attempts with
    | O => ret (inr (decided, resolved, limit))
    | S attempts =>
      if negb (bool_decide (ad_Reason decided.1 = ReasonStaleConfiguration)) then ret (inr (decided, resolved, limit))
      else
        again ← resolve_again request resolved;
        match again with
        | inl e => ret (inl e)
        | inr None => ret (inr ((decided.1, Some (ErrOpaque "configuration reload failed")), resolved, limit))
        | inr (Some (resolved, limit)) => admission_attempts attempts request resolved limit
        end
    end
  end.

(** The resolved request, which a reload may have changed, and what admission gave. *)
Definition acquireForwardAdmission (request : ForwardRequest Bytes) (resolved : resolvedForwardRequest Bytes) (poolRuntime : PoolRuntime)
    : G (APIError + resolvedForwardRequest Bytes * Admittance) :=
  let client := rs_client resolved in
  let limit := EffectiveLimit (cl_PriorityClass client) (po_State poolRuntime) (cl_MaxConcurrency client) in
  if negb (sv_admission s) then
    ok ← call_ok (CLimiterAcquire (cl_ID client) limit);
    if negb ok then ret (inl (overloaded (sv_retryAfter s) DecisionPriorityConcurrencyLimit))
    else ret (inr (resolved, ByLimiter (cl_ID client)))
  else
    allowed ← call_ok CCoordinationAllowed;
    if negb allowed then ret (inl (gatewayUnavailable (sv_retryAfter s)))
    else
      let with_emergency resolved limit : G (APIError + resolvedForwardRequest Bytes * Admittance) :=
        e ← emergency (rs_client resolved) limit;
        ret (match e with inl e => inl e | inr a => inr (resolved, a) end) in
      ready ← call_ok CCoordinationReady;
      if negb ready then with_emergency resolved limit
      else
        decided ← admission_attempts 1 request resolved limit;
        match decided with
        | inl e => ret (inl e)
        | inr (decision, err, resolved, limit) =>
          if bool_decide (is_Some err) || bool_decide (ad_Reason decision = ReasonCoordinationUnavailable) then
            if match err with Some e => AsPermanent e | None => false end
            then ret (inl (gatewayUnavailable (sv_retryAfter s)))
            else with_emergency resolved limit
          else if negb (isAdmitted decision) then
            now ← call_ok CNow;
            let apiErr := coordinationAPIError (ad_Reason decision) (sv_retryAfter s) (ad_RetryAt decision) now in
            ret (inl (if bool_decide (ad_Reason decision = ReasonConcurrencyExhausted) &&
                         bool_decide (ad_ConcurrencyScope decision = AdmissionPoolScope)
                      then {| apiErr with ae_DecisionReason := DecisionPoolInflightLimit |} else apiErr))
          else
            modify (set_event (fun e => {| e with ev_SoftTPMExpected := 0 <? cl_TokensPerMinute (rs_client resolved) |}));;
            match ad_Lease decision with
            | None => panic
            | Some lease =>
              (if sv_leases s then call_ok (CTrack lease) else ret tt);;
              ret (inr (resolved, ByLease lease (sv_leases s)))
            end
        end.

(** The function [acquireForwardAdmission] returns, applied to the usage. *)
Definition releaseAdmission (resolved : resolvedForwardRequest Bytes) (admitted : Admittance) (usage : option Coordination.TokenUsage)
    : G unit :=
  match admitted with
  | ByLimiter client => call_ok (CLimiterRelease client)
  | ByEmergency class client => call_ok (CEmergencyRelease class client)
  | ByLease lease tracked =>
    (if sv_policyObserver s then
       snapshot ← call_ok CSnapshot;
       match sn_Clients snapshot !! cl_ID (rs_client resolved) with
       | Some client => call_ok (CObserveRatePolicy {| rp_ClientID := cl_ID client; rp_Revision := cl_Revision client;
           rp_RequestsPerMinute := cl_RequestsPerMinute client; rp_TokensPerMinute := cl_TokensPerMinute client |})
       | None => ret tt
       end
     else ret tt);;
    if tracked then call_ok (CHandleComplete lease usage) else call_ok (CAdmissionComplete lease usage)
  end.

(** ** Targets *)

(** The completion at [index]: it runs at most once. *)
Definition completeTarget (index : nat) (outcome : InferenceOutcome) : G unit :=
  l ← get;
  match lf_targets l !! index with
  | None => ret tt
  | Some t =>
    if ts_done t then ret tt
    else
      put {| l with lf_targets := <[index := {| t with ts_done := true |}]> (lf_targets l) |};;
      defer (call_ok (CCompleteBackend (ts_backend t) outcome))
        (fun _ => if sv_observer s then call (CBackendInflight (ts_inflight t) (-1)) else ret tt)
  end.

(** The candidates, each with the runtime and the secret read for it. *)
Fixpoint candidates_of (backends : list Backend) (selectionTime : Time) : G (list Candidate) :=
  match backends with
  | [] => ret []
  | backend :: backends =>
    runtime ← call_ok (CBackendSnapshot (be_ID backend) selectionTime);
    '(_, secretOK) ← upstreamSecret backend;
    rest ← candidates_of backends selectionTime;
    ret ({| ca_backend := backend; ca_pressure := br_Pressure runtime; ca_inflight := br_GatewayInflight runtime;
            ca_eligible := br_Healthy runtime && br_MetricsFresh runtime && br_CircuitAvailable runtime && secretOK |} :: rest)
  end.

Record targetSelector := {
  sl_client : Client;
  sl_pool : ModelPool;
  sl_affinity : string;
  sl_inflight : InflightEvent;
  sl_rawAPIKey : string
}.

(** The configuration still allows the client to use the pool. *)
Definition still_allowed (sel : targetSelector) (current : Snapshot) (currentClient : Client) : bool :=
  match sn_PoolsByID current !! mp_ID (sl_pool sel), sn_Clients current !! cl_ID (sl_client sel) with
  | Some currentPool, Some _ =>
    mp_Enabled currentPool && bool_decide (mp_PublicModelName currentPool = mp_PublicModelName (sl_pool sel)) &&
    bool_decide (mp_UpstreamModelName currentPool = mp_UpstreamModelName (sl_pool sel)) && cl_Enabled currentClient &&
    allowed current (cl_ID (sl_client sel)) (mp_ID (sl_pool sel))
  | _, _ => false
  end.

(** After a backend was acquired: the completion is registered and the event says
    where the request goes. *)
Definition take_target (sel : targetSelector) (candidate : Candidate) : G Target :=
  let backend := ca_backend candidate in
  let inflight := sl_inflight sel in
  let inflight := {| inflight with ie_Backend := be_Name backend |} in
  l ← get;
  let index := length (lf_targets l) in
  put {| l with lf_targets := lf_targets l ++ [{| ts_backend := backend; ts_inflight := inflight; ts_done := false |}] |};;
  '(key, _) ← upstreamSecret backend;
  modify (set_event (fun e => {| e with ev_Backend := be_Name backend; ev_BackendPressure := ca_pressure candidate |}));;
  l ← get;
  (if bool_decide (ev_QueueOutcome (lf_event l) = QueueNone) then
     wait ← call_ok (CSince (lf_admissionStarted l));
     modify (set_event (fun e => {| e with ev_QueueWait := wait; ev_QueueOutcome := QueueSelected |}))
   else ret tt);;
  (if sv_observer s then call (CBackendInflight inflight 1) else ret tt);;
  ret {| tg_Backend := backend; tg_UpstreamAPIKey := key; tg_index := index |}.

Fixpoint selectTarget (rounds : nat) (sel : targetSelector) (excluded : gset Z) : G (RequestError + Target) :=
  match rounds with
  | O => exhausted
  | S rounds =>
    current ← call_ok CSnapshot;
    auth ← validateAPIKeySnapshot (sl_rawAPIKey sel) current;
    match auth with
    | inl _ => ret (inl ErrAPIKeyBecameInvalid)
    | inr (currentClient, _) =>
      if negb (cl_ID currentClient =? cl_ID (sl_client sel)) then ret (inl ErrAPIKeyBecameInvalid)
      else if negb (still_allowed sel current currentClient) then ret (inl ErrRoute)
      else
        selectionTime ← call_ok CNow;
        candidates ← candidates_of (default [] (sn_BackendsByPool current !! mp_ID (sl_pool sel))) selectionTime;
        random ← call_ok CRandom;
        selected ← or_panic (SelectWithSessionAffinity random sha256_prefix (sv_router s) candidates excluded (sl_affinity sel));
        match selected with
        | inl ErrNoBackend => ret (inl ErrRoute)
        | inr candidate =>
          acquired ← call_ok (CAcquireBackend (ca_backend candidate) selectionTime);
          if negb acquired then selectTarget rounds sel ({[be_ID (ca_backend candidate)]} ∪ excluded)
          else target ← take_target sel candidate; ret (inr target)
        end
    end
  end.

(** ** Forward *)

Definition finish : G unit :=
  now ← call_ok CNow;
  l ← get;
  elapsed ← call_ok (CSince (lf_started l));
  let result := lf_result l in
  modify (set_event (fun e => {| e with
    ev_OccurredAt := now; ev_Duration := elapsed; ev_TTFT := re_FirstByte result; ev_Disconnect := re_Cancelled result;
    ev_RetryCount := re_RetryCount result; ev_Usage := re_Usage result; ev_UsageParseFailure := re_UsageParseFailure result;
    ev_UpstreamFailure := re_UpstreamFailure result |}));;
  match lf_apiErr l with
  | Some apiErr =>
    modify (set_event (fun e => {| e with ev_Status := ae_HTTPStatus apiErr; ev_Reason := ae_Code apiErr;
                                          ev_DecisionReason := ae_DecisionReason apiErr |}));;
    if negb (GoTime.IsZero (lf_admissionStarted l)) && bool_decide (ev_QueueOutcome (lf_event l) = QueueNone) then
      wait ← call_ok (CSince (lf_admissionStarted l));
      modify (set_event (fun e => {| e with ev_QueueWait := wait; ev_QueueOutcome := QueueRejected |}))
    else ret tt
  | None => modify (set_event (fun e => {| e with ev_Status := re_Status result |}))
  end;;
  l ← get;
  (if lf_reservation l then call (CStage (lf_event l)) else ret tt);;
  (if sv_observer s then call (CComplete (lf_event l)) else ret tt).

Fixpoint complete_all (n index : nat) : G unit :=
  match n with
  | O => ret tt
  | S n => recovered (completeTarget index InferenceNeutral);; complete_all n (S index)
  end.

Definition rollbackOnPanic (panicked : bool) : G unit :=
  if negb panicked then ret tt
  else
    l ← get;
    complete_all (length (lf_targets l)) 0;;
    (if lf_rollback l then recovered (call CRollbackReservation) else ret tt).

(** [return result, reservation, apiErr] *)
Definition return_ (result : Result) (reservation : bool) (apiErr : option APIError) : G unit :=
  modify (fun l => {| l with lf_result := result; lf_reservation := reservation; lf_apiErr := apiErr |}).

Definition refuse (reservation : bool) (e : APIError) : G unit := return_ zeroResult reservation (Some e).

(** From the selection of a target to the end. *)
Definition forward_to_target (request : ForwardRequest Bytes) (resolved : resolvedForwardRequest Bytes) (inflight : InflightEvent)
    (reservation : bool) : G unit :=
  let sel := {| sl_client := rs_client resolved; sl_pool := rs_pool resolved; sl_affinity := rs_affinityKey resolved;
                sl_inflight := inflight; sl_rawAPIKey := fr_APIKey request |} in
  selected ← selectTarget fuel sel ∅;
  match selected with
  | inl err => refuse reservation (if is_key_invalid err then invalidAPIKey
                                   else backendUnavailable (sv_retryAfter s) DecisionNoEligibleBackend)
  | inr target =>
    result ← Proxy.Forward range_headers Decode ParseMediaType ToLower (fun t => completeTarget (tg_index t)) (selectTarget fuel sel) fuel
      {| rq_Method := fr_Method request; rq_Path := fr_Path request; rq_Headers := forward_headers ToLower (fr_Headers request);
         rq_Body := rs_payload resolved; rq_RequestID := fr_RequestID request;
         rq_Priority := cl_VLLMPriority (rs_client resolved); rq_Target := target |};
    modify (fun l => {| l with lf_result := result |});;
    return_ result reservation
      (match re_Err result with
       | Some err =>
         if re_ResponseStarted result then None
         else if is_key_invalid err then Some invalidAPIKey
         else if re_Cancelled result || is_canceled err then None
         else Some upstreamError
       | None => None
       end)
  end.

(** From admission to the end, with what admission holds. *)
Definition forward_admitted (request : ForwardRequest Bytes) (resolved : resolvedForwardRequest Bytes) (runtime : PoolRuntime)
    (reservation : bool) : G unit :=
  admitted ← acquireForwardAdmission request resolved runtime;
  match admitted with
  | inl e => refuse reservation e
  | inr (resolved, admitted) =>
    defer
      (let inflight := {| ie_Client := cl_Name (rs_client resolved); ie_Model := rs_publicModel resolved; ie_Backend := "";
                          ie_PriorityClass := cl_PriorityClass (rs_client resolved) |} in
       if sv_observer s then
         call (CClientInflight inflight 1);;
         defer (forward_to_target request resolved inflight reservation) (fun _ => call (CClientInflight inflight (-1)))
       else forward_to_target request resolved inflight reservation)
      (fun _ => l ← get; releaseAdmission resolved admitted (coordinationTokenUsage (re_Usage (lf_result l))))
  end.

(** From the second validation, after the reservation, to the end. *)
Definition forward_reserved (request : ForwardRequest Bytes) (resolved : resolvedForwardRequest Bytes) (reservation : bool) : G unit :=
  current ← call_ok CSnapshot;
  auth ← validateAPIKeySnapshot (fr_APIKey request) current;
  match auth with
  | inl e => refuse reservation e
  | inr (currentClient, _) =>
    match sn_PoolsByName current !! rs_publicModel resolved with
    | None => refuse reservation modelNotAllowed
    | Some currentPool =>
      modify (set_event (fun e => {| e with
        ev_ClientID := cl_ID currentClient; ev_Client := cl_Name currentClient; ev_PriorityClass := cl_PriorityClass currentClient;
        ev_VLLMPriority := cl_VLLMPriority currentClient; ev_ModelPoolID := mp_ID currentPool |}));;
      prepared ← prepareForwardPayload request
        {| resolved with rs_client := currentClient; rs_pool := currentPool; rs_snapshot := current |};
      match prepared with
      | inl e => refuse reservation e
      | inr resolved =>
        admissionStarted ← call_ok CTimeNow;
        modify (fun l => {| l with lf_admissionStarted := admissionStarted |});;
        '(runtime, held) ← acquirePool fuel (cl_ID (rs_client resolved)) (rs_pool resolved);
        modify (set_event (fun e => {| e with ev_PoolState := po_State runtime |}));;
        match held with
        | inl e => refuse reservation e
        | inr release => defer (forward_admitted request resolved runtime reservation) (fun _ => release_pool release)
        end
      end
    end
  end.

Definition forward_body (request : ForwardRequest Bytes) : G unit :=
  resolved ← resolveForwardRequest request;
  match resolved with
  | inl e => refuse false e
  | inr resolved =>
    if negb (sv_reserver s) then forward_reserved request resolved false
    else
      rv ← call (CReserve (fr_RequestID request));
      if negb (rv_reserved rv) || negb (rv_handle rv) then
        (if rv_rollback rv then call CRollbackReservation else ret tt);;
        ctxErr ← call_ok CContextErr;
        match ctxErr with
        | Some e => return_ {| zeroResult with re_Cancelled := true; re_Err := Some (ErrContext e) |} false None
        | None => refuse false (gatewayUnavailable (sv_retryAfter s))
        end
      else
        modify (fun l => {| l with lf_reservation := true; lf_rollback := rv_rollback rv |});;
        forward_reserved request resolved true
  end.

(** [Forward]; its results are those of the final [Lifecycle]. *)
Definition Forward (request : ForwardRequest Bytes) : G unit :=
  started ← call_ok CTimeNow;
  put {| lf_started := started; lf_admissionStarted := GoTime.zero;
         lf_event := {| zeroEvent with ev_RequestID := fr_RequestID request; ev_ParentRequestID := fr_ParentRequestID request |};
         lf_rollback := false; lf_targets := []; lf_result := zeroResult; lf_reservation := false; lf_apiErr := None |};;
  defer (defer (forward_body request) (fun _ => finish)) rollbackOnPanic.
End Service.
