(* ===== verification/Tokenize.v ===== *)
(** The tokenization endpoint: [Service.Tokenize]
    ([src/internal/gateway/tokenization.go]) and the forwarder
    ([src/internal/proxy/tokenization.go]).

    One request goes to one backend, under a lease of the tokenization coordinator that
    is completed when the function ends.  The context of the request has the deadline of
    the policy; [CContextErr] and [CDeadline] ask it. *)

From Stdlib Require Import Ascii.
From S2P Require Import Prelude Domain Float64 Coordination Registry Tokenization Routing GoStrings ApiKey Payload UsageInspector Effects Calls Proxy Service.

(** ** proxy/tokenization.go *)

Record TokenizationRequest {Bytes : Type} := {
  tq_Headers : Header;
  tq_Body : Bytes;
  tq_RequestID : string;
  tq_Backend : Backend;
  tq_UpstreamAPIKey : string
}.
Arguments TokenizationRequest : clear implicits.

(** The part of the service that tokenization uses beside [Service]. *)
Record Tokenizer := {
  tz_tokenization : bool;
  tz_forwarder : bool;
  tz_runtime : bool;
  tz_observer : bool;
  tz_policy : TokenizationPolicy;
  tz_healthMaxAge : Duration
}.

(** The locals of [Tokenize] that its deferred function reads. *)
Record TokenizeState := {
  tz_event : TokenizationEvent;
  tz_result : Result;
  tz_apiErr : option APIError
}.

Definition tokenizationError (status : Z) (reason : string) (retry : Duration) : APIError :=
  {| ae_HTTPStatus := status; ae_Message := "Tokenization request could not be completed";
     ae_Type := if status =? 429 then "rate_limit_error" else "server_error"; ae_Code := String.append "tokenization_" reason;
     ae_RetryAfter := retry; ae_DecisionReason := DecisionNone |}.

(** The string of a reason. *)
Definition reason_string (r : TokenizationReason) : string :=
  match r with
  | TokenizationNoReason => ""
  | TokenizationClientLimit => "client_concurrency"
  | TokenizationBackendLimit => "backend_capacity"
  | TokenizationRateLimit => "client_rate"
  | TokenizationUnavailable => "coordination_unavailable"
  | TokenizationStaleConfiguration => "stale_configuration"
  | TokenizationStaleOperation => "stale_operation"
  | TokenizationConflict => "idempotency_conflict"
  | TokenizationLeaseLost => "lease_lost"
  end.

Section Tokenize.
Context {Bytes Secret : Type} `{!Json Bytes}.
Context (hmac : Secret -> string -> N) (secret : Secret)
  (range_headers : Header -> list (string * list string)).
(** [sort.Slice] by backend ID. *)
Context (sort_candidates : list TokenizationCandidate -> list TokenizationCandidate).
Context (s : Service) (z : Tokenizer) (fuel : nat).

Abbreviation T := (M (Call Bytes) TokenizeState).

(** *** The forwarder *)

(** [Proxy.Tokenize]. *)
Definition tokenize_upstream (r : TokenizationRequest Bytes) : T (RequestError + ResponseHead) :=
  let url := String.append (TrimRight "/"%char (be_BaseURL (tq_Backend r))) "/tokenize" in
  created ← call (CNewRequest "POST" url);
  if negb created then ret (inl (ErrEnvironment false))
  else call (CDo {| up_Backend := be_ID (tq_Backend r); up_Method := "POST"; up_URL := url;
                    up_Header := PrepareTokenizationHeaders range_headers (tq_Headers r) (tq_RequestID r) (tq_UpstreamAPIKey r);
                    up_Body := tq_Body r |}).

Definition tokenize_commit (requestID : string) (started : Time) (response : ResponseHead) (result : Result) : T Result :=
  if re_ResponseStarted result then ret result
  else
    destination ← call CResponseHeader;
    let h := CopyResponseHeaders range_headers destination (rh_Header response) in
    let h := Header.Set_ h "Content-Type" "application/json" in
    let h := Header.Set_ h "X-Content-Type-Options" "nosniff" in
    let h := Header.Set_ h "X-Request-Id" requestID in
    call (CWriteHeader (rh_StatusCode response) h);;
    elapsed ← call_ok (CSince started);
    ret {| result with re_ResponseStarted := true; re_FirstByte := elapsed |}.

(** The part of the loop that writes [data]: the result, and whether the loop ends. *)
Definition tokenize_write (data : list ascii) (requestID : string) (started : Time) (response : ResponseHead) (result : Result)
    : T (Result * bool) :=
  result ← tokenize_commit requestID started response result;
  '(written, writeErr) ← call (CWrite data);
  let result := {| result with re_BytesSent := re_BytesSent result + written |} in
  match writeErr with
  | Some e => ret ({| result with re_Err := Some e |}, true)
  | None =>
    if negb (written =? Z.of_nat (length data)) then ret ({| result with re_Err := Some ErrShortWrite |}, true)
    else
      flushed ← call CControllerFlush;
      match flushed with
      | Some ControllerFailed => ret ({| result with re_Err := Some (ErrEnvironment false) |}, true)
      | _ => ret (result, false)
      end
  end.

Fixpoint tokenize_copy (fuel : nat) (requestID : string) (started : Time) (response : ResponseHead) (result : Result) : T Result :=
  match fuel with
  | O => exhausted
  | S fuel =>
    '(data, readErr) ← call CRead;
    '(result, over) ← (if (0 <? length data)%nat then tokenize_write data requestID started response result
                       else ret (result, false));
    if (over : bool) then ret result
    else
      match readErr with
      | None => tokenize_copy fuel requestID started response result
      | Some EOF => tokenize_commit requestID started response result
      | Some (ReadFailed canceled) =>
        ret {| result with re_Err := Some (ErrEnvironment canceled); re_UpstreamFailure := "upstream_body_read_error" |}
      end
  end.

(** From the request to the end, once the write deadline is set. *)
Definition tokenize_exchange (r : TokenizationRequest Bytes) (started : Time) (result : Result) : T Result :=
  response ← tokenize_upstream r;
  match response with
  | inl e =>
    over ← call_ok CContextErr;
    match over with
    | Some _ =>
      e' ← call_ok CContextErr;
      ret {| result with re_Err := option_map ErrContext e'; re_Cancelled := true |}
    | None => ret {| result with re_Err := Some e |}
    end
  | inr response =>
    defer
      (let result := {| result with re_Status := rh_StatusCode response |} in
       result ← (if (rh_StatusCode response <? 200) || (300 <=? rh_StatusCode response)
                 then tokenize_commit (tq_RequestID r) started response result else ret result);
       result ← tokenize_copy fuel (tq_RequestID r) started response result;
       over ← call_ok CContextErr;
       match over with
       | None => ret result
       | Some _ =>
         match re_Err result with
         | Some _ => ret {| result with re_Cancelled := true |}
         | None =>
           e' ← call_ok CContextErr;
           ret {| result with re_Cancelled := true; re_Err := option_map ErrContext e' |}
         end
       end)
      (fun _ => call_ok CCloseBody)
  end.

Definition ForwardTokenization (r : TokenizationRequest Bytes) : T Result :=
  started ← call_ok CTimeNow;
  let result := {| zeroResult with re_BackendID := be_ID (tq_Backend r) |} in
  deadline ← call_ok CDeadline;
  match deadline with
  | None => tokenize_exchange r started result
  | Some deadline =>
    set ← call (CSetWriteDeadline deadline);
    match set with
    | Some ControllerFailed => ret {| result with re_Err := Some (ErrEnvironment false) |}
    | _ => defer (tokenize_exchange r started result) (fun _ => call (CSetWriteDeadline GoTime.zero);; ret tt)
    end
  end.

(** *** The service *)

Definition tokenizationContextError : T APIError :=
  e ← call_ok CContextErr;
  match e with
  | Some DeadlineExceeded => ret (tokenizationError 504 "timeout" 0)
  | _ =>
    e ← call_ok CContextErr;
    match e with
    | Some Canceled => ret (tokenizationError 499 "cancelled" 0)
    | _ => ret (tokenizationError 502 "upstream_error" 0)
    end
  end.


Definition set_tevent (f : TokenizationEvent -> TokenizationEvent) (l : TokenizeState) : TokenizeState := {| l with tz_event := f (tz_event l) |}.

Definition with_reason (reason : string) : T unit := modify (set_tevent (fun e => {| e with te_Reason := reason |})).

(** [return result, apiErr], with the result as it is. *)
Definition fail_with (e : APIError) : T unit := modify (fun l => {| l with tz_apiErr := Some e |}).

(** The runtime of the gateway is always set; [tz_runtime] says that it is a
    [TokenizationRuntime]. *)
Definition tokenizationEligible (b : Backend) (now : Time) : T bool :=
  if negb (be_Enabled b) || be_Draining b then ret false
  else
    '(_, ok) ← upstreamSecret b;
    if negb ok || negb (tz_runtime z) then ret false
    else
      '(r, matched) ← call_ok (CBackendHealth b now);
      ret ((matched : bool) && br_Healthy r && negb (GoTime.IsZero (br_LastHealthAt r)) && negb (GoTime.After (br_LastHealthAt r) now) &&
           (0 <? tz_healthMaxAge z) && (GoTime.Sub now (br_LastHealthAt r) <=? tz_healthMaxAge z)).

Fixpoint eligible_candidates (backends : list Backend) (now : Time) : T (list TokenizationCandidate) :=
  match backends with
  | [] => ret []
  | b :: backends =>
    ok ← tokenizationEligible b now;
    rest ← eligible_candidates backends now;
    ret (if (ok : bool) then {| tc_BackendID := be_ID b; tc_BackendRevision := be_Revision b |} :: rest else rest)
  end.

(** [!s.coordinationAllowed() || !s.coordinationReady()], negated. *)
Definition coordination_usable : T bool :=
  allowed ← call_ok CCoordinationAllowed;
  if negb allowed then ret false else call_ok CCoordinationReady.

(** The comparisons of the current configuration with what was admitted. *)
Definition unchanged (snapshot current : Snapshot) (client : Client) (key currentKey : APIKey) (pool : ModelPool)
    (lease : TokenizationLease) (b : Backend) : bool :=
  (sn_Revision current =? sn_Revision snapshot) &&
  bool_decide (sn_PoolsByID current !! mp_ID pool = Some pool) && (ak_ID currentKey =? ak_ID key) &&
  allowed current (cl_ID client) (mp_ID pool) &&
  bool_decide (sn_BackendsByID snapshot !! tl_BackendID lease = Some b) && (be_Revision b =? tl_BackendRevision lease) &&
  (be_ModelPoolID b =? mp_ID pool) && (tl_ClientID lease =? cl_ID client) && (tl_PoolID lease =? mp_ID pool).

(** With an unchanged configuration, the backend is still eligible and coordination
    still usable. *)
Definition lease_current (snapshot current : Snapshot) (client : Client) (key currentKey : APIKey) (pool : ModelPool)
    (lease : TokenizationLease) : T (option Backend) :=
  match sn_BackendsByID current !! tl_BackendID lease with
  | None => ret None
  | Some b =>
    if negb (unchanged snapshot current client key currentKey pool lease b) then ret None
    else
      now ← call_ok CNow;
      ok ← tokenizationEligible b now;
      if negb ok then ret None
      else
        ok ← coordination_usable;
        ret (if (ok : bool) then Some b else None)
  end.

(** The request goes out. *)
Definition tokenize_send (r : ForwardRequest Bytes) (pool : ModelPool) (key : APIKey) (body : Bytes) (b : Backend) : T unit :=
  modify (set_tevent (fun e => {| e with te_Backend := be_Name b |}));;
  replaced ← or_panic (replaceModel body (mp_UpstreamModelName pool));
  match replaced with
  | None => fail_with (invalidRequest "Failed to encode upstream model")
  | Some body =>
    (if sv_usage s then now ← call_ok CNow; call (CUsageRecord (ak_ID key) now) else ret tt);;
    '(upstreamKey, _) ← upstreamSecret b;
    result ← ForwardTokenization {| tq_Headers := fr_Headers r; tq_Body := body; tq_RequestID := fr_RequestID r; tq_Backend := b;
                                    tq_UpstreamAPIKey := upstreamKey |};
    modify (fun l => {| l with tz_result := result |});;
    match re_Err result with
    | Some _ => if negb (re_ResponseStarted result) then e ← tokenizationContextError; fail_with e else ret tt
    | None => ret tt
    end
  end.

(** Under the lease. *)
Definition tokenize_leased (r : ForwardRequest Bytes) (snapshot : Snapshot) (client : Client) (key : APIKey) (pool : ModelPool) (body : Bytes)
    (lease : TokenizationLease) : T unit :=
  over ← call_ok CContextErr;
  match over with
  | Some _ => e ← tokenizationContextError; fail_with e
  | None =>
    current ← call_ok CSnapshot;
    auth ← validateAPIKeySnapshot hmac secret (fr_APIKey r) current;
    match auth with
    | inl e => with_reason "invalid_api_key";; fail_with e
    | inr (_, currentKey) =>
      found ← lease_current snapshot current client key currentKey pool lease;
      match found with
      | None =>
        with_reason "stale_configuration";; fail_with (tokenizationError 503 "stale_configuration" (sv_retryAfter s))
      | Some b => tokenize_send r pool key body b
      end
    end
  end.

(** The answer to a refusal of the coordinator. *)
Definition tokenize_refused (decision : TokenizationDecision) : T unit :=
  let reason := reason_string (td_Reason decision) in
  let status := match td_Reason decision with
                | TokenizationClientLimit | TokenizationBackendLimit | TokenizationRateLimit => 429
                | _ => 503
                end in
  with_reason reason;;
  retry ← match td_RetryAt decision with
          | Some at_ => now ← call_ok CNow; ret (Z.max GoTime.Second (GoTime.Sub at_ now))
          | None => ret (sv_retryAfter s)
          end;
  fail_with (tokenizationError status reason retry).

(** From the policy check to the end. *)
Definition tokenize_admitted (r : ForwardRequest Bytes) (snapshot : Snapshot) (client : Client) (key : APIKey) (pool : ModelPool) (body : Bytes)
    : T unit :=
  usable ← (if tz_tokenization z && tz_forwarder z && Validate (tz_policy z) then coordination_usable else ret false);
  if negb usable then
    with_reason "coordination_unavailable";; fail_with (tokenizationError 503 "coordination_unavailable" (sv_retryAfter s))
  else
    now ← call_ok CNow;
    candidates ← eligible_candidates (default [] (sn_BackendsByPool snapshot !! mp_ID pool)) now;
    match candidates with
    | [] => with_reason "no_eligible_backend";; fail_with (tokenizationError 503 "no_eligible_backend" (sv_retryAfter s))
    | _ =>
      id ← call_ok CNewUUID;
      decision ← call (CTokenizationAcquire
        {| tr_OperationID := id; tr_ReplicaID := sv_replicaID s; tr_RequestID := fr_RequestID r; tr_OperationStartedAt := now;
           tr_ConfigurationRevision := sn_Revision snapshot; tr_APIKeyID := ak_ID key; tr_ClientID := cl_ID client;
           tr_PoolID := mp_ID pool; tr_PoolRevision := mp_Revision pool; tr_Candidates := sort_candidates candidates |});
      match decision with
      | None =>
        with_reason "coordination_unavailable";;
        over ← call_ok CContextErr;
        match over with
        | Some _ => e ← tokenizationContextError; fail_with e
        | None => fail_with (tokenizationError 503 "coordination_unavailable" (sv_retryAfter s))
        end
      | Some decision =>
        match td_Lease decision with
        | None => tokenize_refused decision
        | Some lease =>
          defer (tokenize_leased r snapshot client key pool body lease) (fun _ => call (CTokenizationComplete lease))
        end
      end
    end.

Definition tokenize_body (r : ForwardRequest Bytes) : T unit :=
  snapshot ← call_ok CSnapshot;
  auth ← validateAPIKeySnapshot hmac secret (fr_APIKey r) snapshot;
  match auth with
  | inl e => with_reason "invalid_api_key";; fail_with e
  | inr (client, key) =>
    modify (set_tevent (fun e => {| e with te_Client := cl_Name client |}));;
    match rewritePayload (fr_Body r) with
    | inl e => with_reason "invalid_request";; fail_with (invalidRequest (payload_message e))
    | inr (body, model) =>
      match sn_PoolsByName snapshot !! model with
      | Some pool =>
        if negb (mp_Enabled pool) || negb (allowed snapshot (cl_ID client) (mp_ID pool))
        then with_reason "model_not_allowed";; fail_with modelNotAllowed
        else
          modify (set_tevent (fun e => {| e with te_Model := mp_PublicModelName pool |}));;
          tokenize_admitted r snapshot client key pool body
      | None => with_reason "model_not_allowed";; fail_with modelNotAllowed
      end
    end
  end.

Definition ObserveTokenization : T unit :=
  l ← get;
  if tz_observer z then call (CTokenizationObserved (tz_event l)) else ret tt.

(** The event of a call that returned. *)
Definition final_event (l : TokenizeState) (elapsed : Duration) : TokenizationEvent :=
  let e := tz_event l in
  let result := tz_result l in
  let e := {| e with te_Status := re_Status result; te_Cancelled := re_Cancelled result; te_Duration := elapsed |} in
  match tz_apiErr l with
  | Some apiErr =>
    {| e with te_Status := ae_HTTPStatus apiErr;
              te_Reason := if bool_decide (te_Reason e = "success"%string) then "rejected" else te_Reason e |}
  | None =>
    match re_Err result with
    | Some _ => {| e with te_Reason := if re_Cancelled result then "cancelled" else "transport_error";
                          te_Status := if te_Status e =? 0 then 499 else te_Status e |}
    | None => if 400 <=? re_Status result then {| e with te_Reason := "upstream_error" |} else e
    end
  end.

Definition tokenize_finish (started : Time) (panicked : bool) : T unit :=
  elapsed ← call_ok (CSince started);
  (if panicked then modify (set_tevent (fun e => {| e with te_Status := 500; te_Reason := "panic"; te_Duration := elapsed |}))
   else l ← get; modify (set_tevent (fun _ => final_event l elapsed)));;
  ObserveTokenization.

(** [Tokenize]; its results are those of the final state. *)
Definition Tokenize (r : ForwardRequest Bytes) : T unit :=
  started ← call_ok CTimeNow;
  put {| tz_event := {| te_RequestID := fr_RequestID r; te_Client := ""; te_Model := ""; te_Backend := ""; te_Reason := "success";
                        te_Status := 0; te_Duration := 0; te_Cancelled := false |};
         tz_result := zeroResult; tz_apiErr := None |};;
  defer (tokenize_body r) (tokenize_finish started).

End Tokenize.
