(* ===== verification/Traces.v ===== *)
(** What the parts of the gateway call at all.

    The events of a history fall into three classes: those that send, read or write the
    proxied exchange, those that acquire or release something, and the [quiet] rest.
    An event that is not of the exchange is [foreign] to it. *)

From Stdlib Require Import Ascii.
From S2P Require Import Prelude Domain Float64 Coordination Admission Registry Routing GoStrings ApiKey Payload UsageInspector Effects Calls Proxy Service.

(** Calls of the proxied exchange. *)
Definition exchange_call {Bytes A : Type} (c : Call Bytes A) : bool :=
  match c with CDo _ | CRead | CWriteHeader _ _ | CWrite _ => true | _ => false end.

(** Calls that acquire or release, and the observation of an emergency slot, which comes
    between its grant and its use. *)
Definition resource_call {Bytes A : Type} (c : Call Bytes A) : bool :=
  match c with
  | CAcquirePool _ _ | CReleasePool _ | CLimiterAcquire _ _ | CLimiterRelease _ | CEmergencyAcquire _ _ _
  | CEmergencyRelease _ _ | CAdmissionAcquire _ | CHandleComplete _ _ | CAdmissionComplete _ _ | CAcquireBackend _ _
  | CCompleteBackend _ _ | CTokenizationAcquire _ | CTokenizationComplete _ | CEmergencyObserved _ _ => true
  | _ => false
  end.

Definition event_call {Bytes B : Type} (f : forall A, Call Bytes A -> B) (e : Event (Call Bytes)) : B :=
  match e with Answered c _ => f _ c | Panicked c => f _ c end.

Definition foreign {Bytes : Type} : Event (Call Bytes) -> bool := event_call (fun _ c => negb (exchange_call c)).
Definition quiet {Bytes : Type} : Event (Call Bytes) -> bool := event_call (fun _ c => negb (exchange_call c || resource_call c)).

(** The targets and the result of the request are unchanged. *)
Definition same (l l' : Lifecycle) : Prop := lf_targets l' = lf_targets l /\ lf_result l' = lf_result l.
Definition same_result (l l' : Lifecycle) : Prop := lf_result l' = lf_result l.

#[global] Instance same_preorder : PreOrder same.
Proof. split; [done|]. intros l1 l2 l3 [? ?] [? ?]. split; congruence. Qed.
#[global] Instance same_result_preorder : PreOrder same_result.
Proof. split; [done|]. intros l1 l2 l3. unfold same_result. congruence. Qed.

Section Traces.
Context {Bytes Secret : Type} `{!Json Bytes}.
Context (hmac : Secret -> string -> N) (secret : Secret)
  (range_headers : Header -> list (string * list string)) (Decode : list ascii -> DecodeResult)
  (ParseMediaType : string -> option string) (ToLower : string -> string) (sha256_prefix : list Z -> Z)
  (s : Service) (fuel : nat).

Abbreviation G := (M (Call Bytes) Lifecycle).
Abbreviation quietly := (runs (fun e : Event (Call Bytes) => quiet e = true) same).
Abbreviation apart := (runs (fun e : Event (Call Bytes) => foreign e = true) same).

Lemma quiet_foreign (e : Event (Call Bytes)) : quiet e = true -> foreign e = true.
Proof. unfold quiet, foreign, event_call. destruct e; rewrite negb_orb; intros H; by apply andb_true_iff in H as [H _]. Qed.

Lemma quietly_apart {A : Type} (m : G A) : quietly m -> apart m.
Proof. intros Hm. eapply runs_mono; [apply Hm|apply quiet_foreign|done]. Qed.

Lemma or_panic_quietly {A : Type} (o : option A) : quietly (or_panic o).
Proof. unfold or_panic. runs. Qed.
#[local] Hint Resolve or_panic_quietly : runs.

(** Foreign events show nothing of the exchange. *)
Lemma foreign_history (t : list (Event (Call Bytes))) : Forall (fun e => foreign e = true) t ->
  untouched t /\ heads t = [] /\ written t = [] /\ received t = [] /\ sends t = [].
Proof.
  intros Ht. assert (Hu : untouched t).
  { eapply Forall_impl; [exact Ht|]. intros e He. destruct e as [A c a|A c]; by destruct c. }
  split; [done|]. destruct (untouched_written t Hu) as [-> ->]. do 2 (split; [done|]). clear Hu.
  induction Ht as [|e t He _ [IH1 IH2]]; [done|]. unfold received, sends in *. cbn. rewrite IH1, app_nil_r.
  destruct e as [A c a|A c]; destruct c; try done; cbn in *; by split.
Qed.

(** The check of a key reads the clock once. *)
Lemma validate_spec {St : Type} raw snap env h (st : St) :
  wp env (validateAPIKeySnapshot hmac secret raw snap : M (Call Bytes) St _) (fun o h' _ =>
    match o with
    | Returned (inr (client, key)) => exists now, h' = h ++ [Answered CNow now] /\ key_shaped raw = true /\
        key_valid hmac secret raw snap now = Some (client, key)
    | Returned (inl _) => h' = h \/ exists now, h' = h ++ [Answered CNow now]
    | _ => False
    end) h st.
Proof.
  unfold validateAPIKeySnapshot. destruct (key_shaped raw); [|by left]. apply wp_bind, wp_call_ok. intros now.
  destruct (key_valid _ _ _ _ _) as [[client key]|] eqn:E; [|right; by exists now]. apply wp_ret. by exists now.
Qed.

(** ** Quiet parts *)

Lemma validate_quietly raw snap : quietly (validateAPIKeySnapshot hmac secret raw snap).
Proof. unfold validateAPIKeySnapshot. runs. Qed.
#[local] Hint Resolve validate_quietly : runs.

Lemma authenticate_quietly raw : quietly (authenticate hmac secret s raw : G _).
Proof. unfold authenticate. runs. Qed.
#[local] Hint Resolve authenticate_quietly : runs.

Lemma upstreamSecret_quietly b : quietly (upstreamSecret b).
Proof. unfold upstreamSecret. runs. Qed.
#[local] Hint Resolve upstreamSecret_quietly : runs.

Lemma resolve_quietly request : quietly (resolveForwardRequest hmac secret ToLower s request).
Proof. unfold resolveForwardRequest. runs. Qed.

Lemma prepare_quietly request resolved : quietly (prepareForwardPayload request resolved).
Proof. unfold prepareForwardPayload. runs. Qed.
#[local] Hint Resolve prepare_quietly : runs.

Lemma candidates_quietly backends t : quietly (candidates_of backends t).
Proof. induction backends as [|b backends IH]; cbn [candidates_of]; runs. Qed.

Lemma finish_quietly : quietly (finish s).
Proof. unfold finish. runs. Qed.

(** ** Parts that acquire and release *)

#[local] Hint Resolve quietly_apart : runs.

Lemma acquirePool_apart n client original : apart (acquirePool s n client original).
Proof. induction n as [|n IH]; cbn [acquirePool]; runs. Qed.

Lemma release_pool_apart held : apart (release_pool held).
Proof. unfold release_pool. runs. Qed.

Lemma emergency_apart client limit : apart (emergency s client limit).
Proof. unfold emergency. runs. Qed.
#[local] Hint Resolve acquirePool_apart release_pool_apart emergency_apart : runs.

Lemma configured_apart raw req : apart (acquireConfiguredAdmission hmac secret s raw req).
Proof. unfold acquireConfiguredAdmission, admit_current. runs. Qed.

Lemma resolve_again_apart request resolved : apart (resolve_again hmac secret s fuel request resolved).
Proof. unfold resolve_again. runs. Qed.
#[local] Hint Resolve configured_apart resolve_again_apart : runs.

Lemma attempts_apart n request resolved limit : apart (admission_attempts hmac secret s fuel n request resolved limit).
Proof. revert resolved limit. induction n as [|n IH]; intros resolved limit; cbn [admission_attempts]; runs. Qed.
#[local] Hint Resolve attempts_apart : runs.

Lemma admission_apart request resolved runtime : apart (acquireForwardAdmission hmac secret s fuel request resolved runtime).
Proof. unfold acquireForwardAdmission. runs. Qed.

Lemma releaseAdmission_apart resolved admitted usage : apart (releaseAdmission s resolved admitted usage).
Proof. unfold releaseAdmission. runs. Qed.

End Traces.

#[export] Hint Resolve or_panic_quietly validate_quietly authenticate_quietly upstreamSecret_quietly resolve_quietly prepare_quietly
  candidates_quietly finish_quietly acquirePool_apart release_pool_apart emergency_apart configured_apart resolve_again_apart
  attempts_apart admission_apart releaseAdmission_apart quietly_apart : runs.
