(* ===== verification/Exchange.v ===== *)
(** The exchange of the proxy with a backend and with the client.

    For every behaviour of the environment: one head is written to the client at most,
    the bytes written are those read from the backend, in order and from the start, and
    a request is sent a second time only to another backend and only while nothing was
    written.  What the proxy asks of its caller is the class [Callbacks]. *)

From Stdlib Require Import Ascii.
From S2P Require Import Prelude Domain GoStrings Payload UsageInspector Effects Calls Proxy Service Traces.

(** The request that is sent to a target. *)
Definition upstream_request {Bytes : Type} (range_headers : Header -> list (string * list string)) (request : Request Bytes)
    (target : Target) : UpstreamRequest Bytes :=
  {| up_Backend := be_ID (tg_Backend target); up_Method := rq_Method request;
     up_URL := String.append (TrimRight "/"%char (be_BaseURL (tg_Backend target))) (rq_Path request);
     up_Header := PrepareUpstreamHeaders range_headers (rq_Headers request) (rq_RequestID request) (rq_Priority request)
                    (tg_UpstreamAPIKey target);
     up_Body := rq_Body request |}.

Section Exchange.
Context {Bytes St : Type}.
Context (range_headers : Header -> list (string * list string)) (Decode : list ascii -> DecodeResult)
  (ParseMediaType : string -> option string) (ToLower : string -> string).

Abbreviation History := (list (Event (Call Bytes))).
Abbreviation P := (M (Call Bytes) St).

(** ** One response *)

(** [r] says what the history [t] of the copy did to the client. *)
Definition recorded (head : ResponseHead) (r : Result) (t : History) : Prop :=
  re_Status r = rh_StatusCode head /\ re_BytesSent r = Z.of_nat (length (written t)) /\
  (if re_ResponseStarted r
   then exists dest, heads t = [(rh_StatusCode head, CopyResponseHeaders range_headers dest (rh_Header head))]
   else untouched t).

(** The copy since [h0]: [rest] was read and not yet written. *)
Definition copying (h0 : History) (head : ResponseHead) (rest : list ascii) (h : History) (c : Copier) : Prop :=
  exists t, h = h0 ++ t /\ cp_response c = head /\ recorded head (cp_result c) t /\ received t = written t ++ rest /\ sends t = [].

Definition orderly (t : History) : Prop := (length (heads t) <= 1)%nat /\ written t `prefix_of` received t.

(** The copy since [h0] when it was cut short. *)
Definition stopped (h0 h : History) : Prop := exists t, h = h0 ++ t /\ orderly t /\ sends t = [].

Lemma copying_stopped h0 head rest h c : copying h0 head rest h c -> stopped h0 h.
Proof.
  intros (t & -> & _ & (_ & _ & Hs) & Hr & Hn). exists t. split; [done|]. split; [|done]. split; [|rewrite Hr; by apply prefix_app_r].
  destruct (re_ResponseStarted _); [by destruct Hs as [? ->]|]. destruct (untouched_written t Hs) as [-> _]. cbn. lia.
Qed.

(** Events that are not of the exchange change nothing. *)
Lemma copying_foreign h0 head rest h c e : copying h0 head rest h c -> foreign e = true -> copying h0 head rest (h ++ [e]) c.
Proof.
  intros (t & -> & Hc & (Hst & Hb & Hs) & Hr & Hn) He.
  destruct (foreign_history [e]) as (Hu & Eh & Ew & Er & En); [by constructor|].
  exists (t ++ [e]). rewrite app_assoc. unfold recorded, heads, written, received, sends in *.
  rewrite !bind_app, omap_app, Eh, Ew, Er, En, !app_nil_r. split; [done|]. split; [done|]. split; [|done]. do 2 (split; [done|]).
  destruct (re_ResponseStarted _); [done|]. by apply Forall_app.
Qed.

(** The copy looks at these fields of the copier only. *)
Lemma copying_ext h0 head rest h c c' :
  cp_response c' = cp_response c -> re_Status (cp_result c') = re_Status (cp_result c) ->
  re_BytesSent (cp_result c') = re_BytesSent (cp_result c) -> re_ResponseStarted (cp_result c') = re_ResponseStarted (cp_result c) ->
  copying h0 head rest h c -> copying h0 head rest h c'.
Proof. intros E1 E2 E3 E4 (t & ? & ? & Hr & ?). exists t. unfold recorded in *. by rewrite E1, E2, E3, E4. Qed.

Definition unchanged (c c' : Copier) : Prop :=
  re_Err (cp_result c') = re_Err (cp_result c) /\ re_Cancelled (cp_result c') = re_Cancelled (cp_result c).

Lemma commit_copies h0 head rest env h (st : St) c :
  copying h0 head rest h c ->
  wp env (commit range_headers c) (fun o h' _ =>
    match o with
    | Returned c' => copying h0 head rest h' c' /\ re_ResponseStarted (cp_result c') = true /\ unchanged c c'
    | _ => stopped h0 h'
    end) h st.
Proof.
  intros Hc. unfold commit. destruct (re_ResponseStarted (cp_result c)) eqn:Hs; [by apply wp_ret|].
  apply wp_bind, wp_call; [intros dest|by eapply copying_stopped, copying_foreign].
  apply (copying_foreign _ _ _ _ _ (Answered CResponseHeader dest)) in Hc; [|done]. revert Hc. generalize (h ++ [Answered CResponseHeader dest]).
  clear h. intros h (t & -> & Hr & (Hst & Hb & Hu) & Hrec & Hn). rewrite Hs in Hu. destruct (untouched_written t Hu) as [Eh Ew].
  rewrite Ew in *. unfold heads, written, received, sends in *. apply wp_bind, wp_call; [intros []|].
  - apply wp_bind, wp_call_ok. intros elapsed. apply wp_ret. split; [|done].
    eexists (t ++ [_; _]). split; [rewrite <- !app_assoc; reflexivity|]. cbn [cp_response set_result cp_result].
    split; [done|]. unfold recorded, heads, written, received, sends. cbn [re_Status re_BytesSent re_ResponseStarted].
    rewrite !bind_app, omap_app, Eh, Ew, Hrec, Hn. rewrite Hr. cbn. rewrite !app_nil_r. split; [|done]. split; [done|]. split; [done|]. by eexists.
  - eexists (t ++ [_]). split; [by rewrite app_assoc|]. unfold orderly, heads, written, received, sends.
    rewrite !bind_app, omap_app, Eh, Ew, Hn. cbn. split; [|done]. split; [lia|apply prefix_nil].
Qed.

(** One write of [data], of which the writer accepts [n] bytes. *)
Lemma copying_write h0 head data h c n err :
  copying h0 head data h c -> re_ResponseStarted (cp_result c) = true -> 0 <= n <= Z.of_nat (length data) ->
  copying h0 head (drop (Z.to_nat n) data) (h ++ [Answered (CWrite data) (n, err)])
    (set_result (fun r => {| r with re_BytesSent := re_BytesSent r + n |}) c).
Proof.
  intros (t & -> & Hr & (Hst & Hb & Hh) & Hrec & Hsn) Hs Hn. eexists (t ++ [_]). split; [by rewrite app_assoc|]. split; [done|].
  rewrite Hs in Hh. unfold recorded, heads, written, received, sends in *. rewrite !bind_app, omap_app, Hsn. cbn. rewrite Hs, !app_nil_r.
  split; [split; [done|]; split; [rewrite length_app, length_take; lia|done]|]. split; [|done]. by rewrite Hrec, <- app_assoc, take_drop.
Qed.

(** Whatever becomes of a write, the client has a prefix. *)
Lemma write_stops h0 head data h c e : copying h0 head data h c -> re_ResponseStarted (cp_result c) = true ->
  e = Panicked (CWrite data) \/ (exists a, e = Answered (CWrite data) a) -> stopped h0 (h ++ [e]).
Proof.
  intros (t & -> & _ & (_ & _ & Hh) & Hrec & Hsn) Hs He. rewrite Hs in Hh. destruct Hh as [dest Hh]. exists (t ++ [e]).
  split; [by rewrite app_assoc|]. unfold orderly, heads, written, received, sends in *. rewrite !bind_app, omap_app, Hsn, Hh, Hrec.
  destruct He as [->|[[n err] ->]]; cbn; rewrite !app_nil_r; (split; [|done]); (split; [done|]); [by apply prefix_app_r|].
  apply prefix_app. rewrite <- (take_drop (Z.to_nat n) data) at 2. by apply prefix_app_r.
Qed.

Lemma stopped_foreign h0 h e : stopped h0 h -> foreign e = true -> stopped h0 (h ++ [e]).
Proof.
  intros (t & -> & [Hh Hp] & Hn) He. destruct (foreign_history [e]) as (_ & Fh & Fw & Fr & Fn); [by constructor|].
  exists (t ++ [e]). split; [by rewrite app_assoc|]. unfold orderly, heads, written, received, sends in *.
  by rewrite !bind_app, omap_app, Fh, Fw, Fr, Fn, !app_nil_r, Hn.
Qed.

(** The write of what was read: on success nothing is left, and otherwise the result
    has an error. *)
Lemma write_copies h0 head data proven env h (st : St) c :
  copying h0 head data h c ->
  wp env (write range_headers Decode data proven c) (fun o h' _ =>
    match o with
    | Returned (c', None) => copying h0 head [] h' c' /\ re_ResponseStarted (cp_result c') = true /\ unchanged c c'
    | Returned (c', Some _) => (exists rest, copying h0 head rest h' c') /\ re_Err (cp_result c') <> None
    | _ => stopped h0 h'
    end) h st.
Proof.
  intros Hc. unfold write. apply wp_bind. eapply wp_mono; [by apply commit_copies|].
  intros [c1| |] h1 s1; [|done|done]. intros (H1 & Hs & Hun). apply wp_bind, wp_call; [intros [n err]|eapply write_stops; eauto].
  assert (Hstop : stopped h0 (h1 ++ [Answered (CWrite data) (n, err)])) by (eapply write_stops; eauto).
  apply wp_bind, wp_call; [intros []|by apply stopped_foreign].
  destruct ((0 <=? n) && (n <=? Z.of_nat (length data))) eqn:Hn; [|by apply stopped_foreign].
  apply wp_bind. unfold or_panic. case_match; [|by apply stopped_foreign]. apply wp_ret. b2p.
  assert (Hw : copying h0 head (drop (Z.to_nat n) data) (h1 ++ [Answered (CWrite data) (n, err)])
    (set_result (fun r => {| r with re_BytesSent := re_BytesSent r + n |}) c1)) by (apply copying_write; [done|done|lia]).
  apply (copying_foreign _ _ _ _ _ (Answered CFlush tt)) in Hw; [|done].
  case_match eqn:Hdone.
  - apply wp_ret. split; [|by split]. destruct err; [done|]. b2p. rewrite drop_ge in Hw by lia. by eapply copying_ext; [..|apply Hw].
  - apply wp_bind, wp_call_ok. intros ctxErr. apply wp_ret. split; [|done]. eexists. eapply copying_foreign; [|done].
    by eapply copying_ext; [..|apply Hw].
Qed.

Lemma copying_read h0 head h c data e :
  copying h0 head [] h c -> copying h0 head data (h ++ [Answered CRead (data, e)]) c.
Proof.
  intros (t & -> & Hr & (Hst & Hb & Hh) & Hrec & Hn). eexists (t ++ [_]). split; [by rewrite app_assoc|]. split; [done|].
  unfold recorded, heads, written, received, sends in *. rewrite !bind_app, omap_app, Hn, Hrec. cbn. rewrite !app_nil_r.
  split; [|done]. do 2 (split; [done|]). destruct (re_ResponseStarted _); [done|]. apply Forall_app. by repeat constructor.
Qed.

Lemma read_stops h0 head rest h c : copying h0 head rest h c -> stopped h0 (h ++ [Panicked CRead]).
Proof.
  intros Hc. apply copying_stopped in Hc as (t & -> & Ho & Hn). eexists (t ++ [_]). split; [by rewrite app_assoc|].
  unfold orderly, heads, written, received, sends in *. rewrite !bind_app, omap_app, Hn. cbn. by rewrite !app_nil_r.
Qed.

(** How a copy ended: without an error nothing is left, and it may be retried only
    when the client has nothing and nothing was read. *)
Definition copied (h0 : History) (head : ResponseHead) (h : History) (c : Copier) (retryable : bool) : Prop :=
  (exists rest, copying h0 head rest h c) /\
  (re_Err (cp_result c) = None -> re_Cancelled (cp_result c) = false -> copying h0 head [] h c /\ re_ResponseStarted (cp_result c) = true) /\
  (retryable = true -> copying h0 head [] h c /\ re_ResponseStarted (cp_result c) = false).

Lemma cancelled_copies h0 head rest env h (st : St) c :
  copying h0 head rest h c -> wp env cancelled (fun o h' _ => o <> Exhausted /\ o <> Panicking /\ copying h0 head rest h' c) h st.
Proof. intros Hc. unfold cancelled. apply wp_bind, wp_call_ok. intros e. apply wp_ret. do 2 (split; [done|]). by apply copying_foreign. Qed.

Lemma read_failed_copies h0 head rest env h (st : St) e first count proven c :
  copying h0 head rest h c -> (count = 0%nat -> rest = []) ->
  wp env (read_failed e first count proven c) (fun o h' _ =>
    match o with Returned (c', retryable, _) => copied h0 head h' c' retryable | _ => stopped h0 h' end) h st.
Proof.
  intros Hc Hrest. unfold read_failed. apply wp_bind. eapply wp_mono; [by apply (cancelled_copies _ _ _ _ _ _ _ Hc)|].
  intros [over| |] h1 s1 (? & ? & H1); [|done|done]. destruct over.
  - destruct (first && _); apply wp_bind.
    + apply wp_bind, wp_call_ok. intros ctx. apply wp_ret, wp_ret. split; [|split; [|done]].
      * exists rest. eapply copying_foreign; [|done]. by eapply copying_ext; [..|exact H1].
      * done.
    + apply wp_ret, wp_ret. split; [|done]. exists rest. by eapply copying_ext; [..|exact H1].
  - apply wp_ret. split; [|split; [done|]].
    + exists rest. by eapply copying_ext; [..|exact H1].
    + intros Hr. cbn in Hr. b2p. split; [|done]. rewrite Hrest in H1 by (apply Nat.eqb_eq; assumption). by eapply copying_ext; [..|exact H1].
Qed.

(** The step of the loop that hands the data to the client. *)
Lemma step_copies h0 head data proven env h (st : St) c :
  copying h0 head data h c ->
  wp env (if (0 <? length data)%nat then write range_headers Decode data proven c else ret (c, None)) (fun o h' _ =>
    match o with
    | Returned (c', None) => copying h0 head [] h' c' /\ unchanged c c'
    | Returned (c', Some _) => (exists rest, copying h0 head rest h' c') /\ re_Err (cp_result c') <> None
    | _ => stopped h0 h'
    end) h st.
Proof.
  intros Hc. destruct data as [|a data]; [by apply wp_ret|]. cbn [length Nat.ltb Nat.leb].
  eapply wp_mono; [by apply write_copies|]. intros [[c' [|]]| |] h' st'; try done. by intros (? & _ & ?).
Qed.

Lemma end_copies h0 head env h (st : St) c :
  copying h0 head [] h c ->
  wp env (c ← commit range_headers c; c ← completeUsageInspection Decode c;
          ret (c, false, completedOutcome (rh_StatusCode (cp_response c)))) (fun o h' _ =>
    match o with Returned (c', retryable, _) => copied h0 head h' c' retryable | _ => stopped h0 h' end) h st.
Proof.
  intros Hc. apply wp_bind. eapply wp_mono; [by apply commit_copies|]. intros [c1| |] h1 s1; [|done|done]. intros (H1 & Hs & _).
  apply wp_bind. unfold completeUsageInspection, or_panic. apply wp_bind.
  case_match; [|by eapply copying_stopped]. apply wp_ret. destruct p as [ins [[usage format] failed]]. apply wp_ret, wp_ret.
  assert (H2 : copying h0 head [] h1 {| c1 with cp_inspector := ins;
    cp_result := let r := cp_result c1 in
      {| r with re_Usage := usage; re_UsageParseFailure := if (failed : bool) then format else re_UsageParseFailure r |} |})
    by (by eapply copying_ext; [..|exact H1]).
  split; [by exists []|]. split; [done|done].
Qed.

Lemma copy_copies n h0 head first env h (st : St) c :
  copying h0 head [] h c -> re_Err (cp_result c) = None -> re_Cancelled (cp_result c) = false ->
  wp env (copy range_headers Decode n first c) (fun o h' _ =>
    match o with Returned (c', retryable, _) => copied h0 head h' c' retryable | _ => stopped h0 h' end) h st.
Proof.
  revert first h st c. induction n as [|n IH]; intros first h st c Hc Herr Hcan; cbn [copy]; [by eapply copying_stopped|].
  apply wp_bind, wp_call; [intros [data readErr]|by eapply read_stops].
  apply (copying_read _ _ _ _ data readErr) in Hc. apply wp_bind.
  eapply (wp_mono _ _ (fun o h' _ => o <> Exhausted /\ o <> Panicking /\ copying h0 head data h' c)).
  { destruct readErr as [[|canceled]|]; [apply wp_ret; by split_and!| |apply wp_ret; by split_and!]. apply wp_bind.
    eapply wp_mono; [by apply (cancelled_copies _ _ _ _ _ _ _ Hc)|]. intros [over| |] h1 s1 (? & ? & ?); [|done|done]. apply wp_ret. by split_and!. }
  clear Hc. intros [proven| |] h1 s1 (Hx1 & Hx2 & Hc); [|done|done]. clear Hx1 Hx2. cbv zeta. set (c0 := if proven then _ else c).
  assert (H0 : copying h0 head data h1 c0 /\ re_Err (cp_result c0) = None /\ re_Cancelled (cp_result c0) = false).
  { unfold c0. destruct proven; [|done]. split; [|done]. by eapply copying_ext; [..|exact Hc]. }
  clearbody c0. clear c Hc Herr Hcan. destruct H0 as (Hc & Herr & Hcan).
  apply wp_bind. eapply wp_mono; [by apply step_copies|].
  intros [[c1 [outcome|]]| |] h2 s2; [| |done|done]; [intros [Hr He]; apply wp_ret; by split; [|split]|intros [H1 [Ee Ec]]].
  destruct readErr as [[|canceled]|]; [by apply end_copies|by apply (read_failed_copies _ _ [])|apply IH; congruence].
Qed.

(** ** One attempt *)

(** The result [r] tells what the history [t] did: the head is that of a backend's
    answer, and without an error the client has everything that was read. *)
Definition faithful (r : Result) (t : History) : Prop :=
  re_BytesSent r = Z.of_nat (length (written t)) /\
  (if re_ResponseStarted r
   then exists req head dest, Answered (CDo req) (inr head) ∈ t /\ re_Status r = rh_StatusCode head /\
     heads t = [(rh_StatusCode head, CopyResponseHeaders range_headers dest (rh_Header head))]
   else untouched t) /\
  (re_Err r = None -> re_Cancelled r = false -> re_ResponseStarted r = true /\ written t = received t).

Definition untold (t : History) : Prop := untouched t /\ received t = [].

(** An attempt from [h]: what it sends is [Good]. *)
Definition attempted (Good : History -> UpstreamRequest Bytes -> Prop) (request : Request Bytes) (target : Target) (h : History)
    (o : Outcome (Result * bool)) (h' : History) : Prop :=
  exists t, h' = h ++ t /\ orderly t /\ sends_ok Good h t /\
    (sends t = [] \/ sends t = [upstream_request range_headers request target]) /\
    match o with Returned (r, retryable) => faithful r t /\ (retryable = true -> untold t) | _ => True end.

Lemma untold_orderly t : untold t -> orderly t.
Proof. intros [Hu Hr]. unfold orderly. destruct (untouched_written t Hu) as [-> ->]. split; [cbn; lia|apply prefix_nil]. Qed.

(** A short attempt, without a response. *)
Lemma attempted_untold Good request target h (t : History) (o : Outcome (Result * bool)) :
  untold t -> sends_ok Good h t -> (sends t = [] \/ sends t = [upstream_request range_headers request target]) ->
  match o with
  | Returned (r, _) => re_BytesSent r = 0 /\ re_ResponseStarted r = false /\ (re_Err r <> None \/ re_Cancelled r = true)
  | _ => True
  end -> attempted Good request target h o (h ++ t).
Proof.
  intros Hu Hg Hs Ho. exists t. split; [done|]. split; [by apply untold_orderly|]. do 2 (split; [done|]). destruct o as [[r retryable]| |]; [|done|done].
  destruct Ho as (Hb & Hst & He). split; [|done]. destruct Hu as [Hu Hr]. destruct (untouched_written t Hu) as [_ Hw].
  split; [by rewrite Hw, Hb|]. rewrite Hst. split; [done|]. intros E1 E2. destruct He; congruence.
Qed.

(** An attempt that got a response: [h0] is the history when the copy began. *)
Lemma attempted_copied Good request target h pre head (o : Outcome (Result * bool)) h' :
  let req := upstream_request range_headers request target in
  untold pre -> Answered (CDo req) (inr head) ∈ pre -> sends_ok Good h pre -> sends pre = [req] ->
  match o with
  | Returned (r, retryable) => exists c, r = cp_result c /\ copied (h ++ pre) head h' c retryable
  | _ => stopped (h ++ pre) h'
  end -> attempted Good request target h o h'.
Proof.
  intros req [Hpu Hpr] Hin Hg Hs Ho. destruct (untouched_written pre Hpu) as [Hph Hpw].
  assert (Hstop : stopped (h ++ pre) h').
  { destruct o as [[r retryable]| |]; [|done|done]. destruct Ho as (c & _ & ([rest Hc] & _)). by eapply copying_stopped. }
  destruct Hstop as (t & -> & Hord & Hn). exists (pre ++ t). rewrite <- app_assoc. split; [done|].
  unfold orderly, faithful, untold, heads, written, received, sends in *. rewrite !bind_app, omap_app, Hph, Hpw, Hpr, Hs, Hn. cbn.
  split; [done|]. split; [apply sends_ok_app; split; [done|by apply sends_ok_none]|]. split; [by right|].
  destruct o as [[r retryable]| |]; [|done|done]. destruct Ho as (c & -> & ([rest Hc] & Hfull & Hretry)).
  destruct Hc as (t' & E & _ & (Hst & Hb & Hh) & Hrec & _). apply app_inv_head in E as <-.
  assert (Hfull' : forall c', copying (h ++ pre) head [] ((h ++ pre) ++ t) c' -> t ≫= received_of = t ≫= written_of).
  { intros c' (t' & E & _ & _ & H & _). apply app_inv_head in E as <-. unfold received, written in H. by rewrite H, app_nil_r. }
  split; [split; [done|split]|].
  - destruct (re_ResponseStarted (cp_result c)) eqn:Hs'; [|by apply Forall_app]. destruct Hh as [dest Hh]. exists req, head, dest.
    split; [apply elem_of_app; by left|]. by split.
  - intros E1 E2. destruct (Hfull E1 E2) as [Hc ?]. split; [done|]. symmetry. by eapply Hfull'.
  - intros Hr. destruct (Hretry Hr) as [Hc Hns]. rewrite Hns in Hh. rewrite (Hfull' c Hc). destruct (untouched_written t Hh) as [_ Hw].
    split; [by apply Forall_app|done].
Qed.

Definition without_outcome (o : Outcome (Result * bool * InferenceOutcome)) : Outcome (Result * bool) :=
  match o with Returned (r, retryable, _) => Returned (r, retryable) | Panicking => Panicking | Exhausted => Exhausted end.

Lemma copied_foreign h0 head h c retryable e : copied h0 head h c retryable -> foreign e = true -> copied h0 head (h ++ [e]) c retryable.
Proof.
  intros ([rest Hc] & Hf & Hr) He. split; [exists rest; by apply copying_foreign|].
  split; intros; [destruct Hf as [? ?]|destruct Hr as [? ?]]; (try done); (split; [by apply copying_foreign|done]).
Qed.

(** The answer is copied, and the body closed. *)
Lemma response_copies n h0 head target started env (st : St) :
  wp env (defer
    (let c := {| cp_response := head; cp_started := started;
                 cp_result := (let result := zero_result_of target in {| result with re_Status := rh_StatusCode head |});
                 cp_inspector := newUsageInspector ParseMediaType ToLower (Header.Get (rh_Header head) "Content-Type") |} in
     c ← (if (rh_StatusCode head <? 200) || (300 <=? rh_StatusCode head) then commit range_headers c else ret c);
     '(c, retryable, outcome) ← copy range_headers Decode n true c;
     ret (cp_result c, retryable, outcome))
    (fun _ => call_ok CCloseBody)) (fun o h' _ =>
      match without_outcome o with
      | Returned (r, retryable) => exists c, r = cp_result c /\ copied h0 head h' c retryable
      | _ => stopped h0 h'
      end) h0 st.
Proof.
  cbv zeta. set (c0 := {| cp_response := head |}).
  assert (H0 : copying h0 head [] h0 c0) by (exists []; rewrite app_nil_r; do 2 (split; [done|]); split; [|done]; do 2 (split; [done|]); constructor).
  apply wp_defer. eapply (wp_mono _ _ (fun o h' _ => match without_outcome o with
    | Returned (r, retryable) => exists c, r = cp_result c /\ copied h0 head h' c retryable | _ => stopped h0 h' end)).
  - apply wp_bind. eapply (wp_mono _ _ (fun o h' _ => match o with
      | Returned c => copying h0 head [] h' c /\ unchanged c0 c | _ => stopped h0 h' end)).
    + destruct (_ || _); [|by apply wp_ret]. eapply wp_mono; [by apply commit_copies|]. intros [c| |] h1 s1; [|done|done]. by intros (? & _ & ?).
    + intros [c| |] h1 s1; [|done|done]. intros [H1 [Ee Ec]]. apply wp_bind. eapply wp_mono; [by apply (copy_copies _ _ _ _ _ _ _ _ H1)|].
      intros [[[c1 retryable] outcome]| |] h2 s2 H2; [|done|done]. apply wp_ret. by exists c1.
  - intros [[[r retryable] outcome]| |] h1 s1; cbn [without_outcome]; [| |done].
    + intros (c & -> & Hc). apply wp_call_ok. intros []. exists c. split; [done|]. by apply copied_foreign.
    + intros Hs. apply wp_call_ok. intros []. by apply stopped_foreign.
Qed.

Lemma once_attempts Good n request target started env h (st : St) :
  (forall url, Good (h ++ [Answered (CNewRequest (rq_Method request) url) true]) (upstream_request range_headers request target)) ->
  wp env (forwardOnce range_headers Decode ParseMediaType ToLower n request target started) (fun o h' _ =>
    attempted Good request target h (without_outcome o) h') h st.
Proof.
  intros HG. unfold forwardOnce. cbv zeta. apply wp_bind, wp_call.
  2: { apply attempted_untold; [by repeat constructor|done|by left|done]. }
  intros created. destruct created; cbn [negb].
  2: { apply wp_ret, attempted_untold; [by repeat constructor|done|by left|]. cbn. split_and!; [done|done|by left]. }
  apply wp_bind, wp_call.
  2: { rewrite <- app_assoc. apply attempted_untold; [by repeat constructor| |by right|done]. cbn. split_and!; [done| |done]. intros req [= <-]. apply HG. }
  fold (upstream_request range_headers request target). intros [err|head].
  - apply wp_bind. unfold cancelled. apply wp_bind, wp_call_ok. intros e. apply wp_ret. destruct (bool_decide _).
    + apply wp_bind, wp_call_ok. intros e'. apply wp_ret. rewrite <- !app_assoc. apply attempted_untold; [by repeat constructor| |by right|].
      * cbn. split_and!; [done| |done|done|done]. intros req [= <-]. apply HG.
      * cbn. split_and!; [done|done|by right].
    + apply wp_ret. rewrite <- !app_assoc. apply attempted_untold; [by repeat constructor| |by right|].
      * cbn. split_and!; [done| |done|done]. intros req [= <-]. apply HG.
      * cbn. split_and!; [done|done|by left].
  - eapply wp_mono; [apply response_copies|]. intros o h' s'. rewrite <- app_assoc. apply attempted_copied.
    + by repeat constructor.
    + cbn. right. left.
    + cbn. split_and!; [done| |done]. intros req [= <-]. apply HG.
    + done.
Qed.

(** ** The attempts of a request *)

(** What the proxy asks of the completion and of the selection of a target: neither
    touches the exchange, and a selected target is not among the excluded ones and has
    [auth], which lasts until the configuration is read again. *)
Class Callbacks (complete : Target -> InferenceOutcome -> P unit) (select : gset Z -> P (RequestError + Target))
    (auth : History -> Target -> Prop) := {
  complete_apart target outcome : runs (fun e => foreign e = true) anywhere (complete target outcome);
  select_apart excluded : runs (fun e => foreign e = true) anywhere (select excluded);
  select_authorizes excluded env h st :
    wp env (select excluded) (fun o h' _ =>
      match o with Returned (inr target) => auth h' target /\ be_ID (tg_Backend target) ∉ excluded | _ => True end) h st;
  auth_lasts h target e : auth h target -> reads_config e = false -> auth (h ++ [e]) target
}.

Lemma attempted_foreign Good request target h o h' u :
  attempted Good request target h o h' -> Forall (fun e => foreign e = true) u -> attempted Good request target h o (h' ++ u).
Proof.
  intros (t & -> & Ho & Hg & Hs & Hr) Hu. destruct (foreign_history u Hu) as (Fu & Fh & Fw & Fr & Fn). exists (t ++ u).
  rewrite <- app_assoc. split; [done|]. unfold orderly, faithful, untold, heads, written, received, sends in *.
  rewrite !bind_app, omap_app, Fh, Fw, Fr, Fn, !app_nil_r. split; [done|]. split; [apply sends_ok_app; split; [done|by apply sends_ok_none]|].
  split; [done|]. destruct o as [[r retryable]| |]; [|done|done]. destruct Hr as ((Hb & Hh & Hc) & Hretry). split; [|intros H; split; [|by apply Hretry]].
  - split; [done|]. split; [|done]. destruct (re_ResponseStarted r); [|by apply Forall_app].
    destruct Hh as (req & head & dest & Hin & ?). exists req, head, dest. split; [apply elem_of_app; by left|done].
  - apply Forall_app. split; [by apply Hretry|done].
Qed.

Lemma attempted_panic Good request target h o h' : attempted Good request target h o h' -> attempted Good request target h Panicking h'.
Proof. intros (t & ? & ? & ? & ? & _). exists t. by split_and!. Qed.

Lemma attempted_exhausted Good request target h o h' : attempted Good request target h o h' -> attempted Good request target h Exhausted h'.
Proof. intros (t & ? & ? & ? & ? & _). exists t. by split_and!. Qed.

Section Attempts.
Context (complete : Target -> InferenceOutcome -> P unit) (select : gset Z -> P (RequestError + Target))
  (auth : History -> Target -> Prop) `{!Callbacks complete select auth}.
Context (n : nat) (request : Request Bytes).

(** Each send goes to an authorized target, when nothing was written to the client and
    at most one request was sent, to another backend. *)
Definition proper (h : History) (req : UpstreamRequest Bytes) : Prop :=
  (exists target, auth h target /\ req = upstream_request range_headers request target) /\ untouched h /\
  (length (sends h) <= 1)%nat /\ forall r, r ∈ sends h -> up_Backend r <> up_Backend req.

Lemma attempt_attempts Good target started env h (st : St) :
  (forall url, Good (h ++ [Answered (CNewRequest (rq_Method request) url) true]) (upstream_request range_headers request target)) ->
  wp env (forwardAttempt range_headers Decode ParseMediaType ToLower complete n request target started) (fun o h' _ =>
    attempted Good request target h o h') h st.
Proof.
  intros HG. unfold forwardAttempt. apply wp_bind, wp_defer. eapply wp_mono; [by apply once_attempts|].
  intros [[[r retryable] outcome]| |] h1 s1 H1; cbn [without_outcome] in H1; [| |done].
  - apply wp_ret, wp_bind. eapply wp_mono; [apply complete_apart|]. intros o h2 s2 [(u & -> & Hu) _].
    apply (attempted_foreign _ _ _ _ _ _ u) in H1; [|done]. destruct o; [by apply wp_ret|by eapply attempted_panic|by eapply attempted_exhausted].
  - apply wp_recovered. eapply wp_mono; [apply complete_apart|]. intros o h2 s2 [(u & -> & Hu) _].
    apply (attempted_foreign _ _ _ _ _ _ u) in H1; [|done]. destruct o; [done|done|by eapply attempted_exhausted].
Qed.

(** The whole exchange from [h]. *)
Definition exchanged (h : History) (o : Outcome Result) (h' : History) : Prop :=
  exists t, h' = h ++ t /\ orderly t /\ sends_ok proper h t /\ match o with Returned r => faithful r t | _ => True end.

(** The first attempt left nothing behind, and the exchange went on. *)
Lemma exchanged_after h t o h' : untold t -> sends_ok proper h t -> exchanged (h ++ t) o h' -> exchanged h o h'.
Proof.
  intros [Hu Hr] Hg (u & -> & Ho & Hg' & Hf). destruct (untouched_written t Hu) as [Hh Hw]. exists (t ++ u).
  rewrite <- app_assoc. split; [done|]. unfold orderly, faithful, heads, written, received in *. rewrite !bind_app, Hh, Hw, Hr. cbn.
  split; [done|]. split; [by apply sends_ok_app|]. destruct o as [r| |]; [|done|done]. destruct Hf as (Hb & Hs & Hc). split; [done|]. split; [|done].
  destruct (re_ResponseStarted r); [|by apply Forall_app]. destruct Hs as (req & head & dest & Hin & ?). exists req, head, dest.
  split; [apply elem_of_app; by right|done].
Qed.

(** How a result that ends the attempts is adjusted. *)
Lemma faithful_ext r r' t :
  re_BytesSent r' = re_BytesSent r -> re_ResponseStarted r' = re_ResponseStarted r -> re_Status r' = re_Status r ->
  re_Cancelled r' = re_Cancelled r -> (re_Err r' = None -> re_Err r = None) -> faithful r t -> faithful r' t.
Proof. intros E1 E2 E3 E4 E5 (Hb & Hs & Hc). unfold faithful. rewrite E1, E2, E3, E4. split_and!; auto. Qed.

(** A target that is authorized and new may be sent to. *)
Lemma proper_target target (excluded : gset Z) h e :
  auth h target -> untouched h -> (length (sends h) <= 1)%nat -> (forall r, r ∈ sends h -> up_Backend r ∈ excluded) ->
  be_ID (tg_Backend target) ∉ excluded -> reads_config e = false -> foreign e = true ->
  proper (h ++ [e]) (upstream_request range_headers request target).
Proof.
  intros Ha Hu Hl Hex Hnew He Hf. destruct (foreign_history [e]) as (Fu & _ & _ & _ & Fn); [by constructor|].
  unfold proper, sends in *. rewrite omap_app, Fn, app_nil_r. split_and!; [|by apply Forall_app|done|].
  - exists target. split; [by apply auth_lasts|done].
  - intros r Hr E. apply Hnew. cbn in E. rewrite <- E. by apply Hex.
Qed.

(** An attempt that ends the request. *)
Lemma attempted_exchanged target h r r' retryable h' :
  attempted proper request target h (Returned (r, retryable)) h' ->
  re_BytesSent r' = re_BytesSent r -> re_ResponseStarted r' = re_ResponseStarted r -> re_Status r' = re_Status r ->
  re_Cancelled r' = re_Cancelled r -> (re_Err r' = None -> re_Err r = None) -> exchanged h (Returned r') h'.
Proof. intros (t & -> & Ho & Hg & _ & Hf & _) E1 E2 E3 E4 E5. exists t. split_and!; [done|done|done|]. by eapply faithful_ext. Qed.

Lemma attempted_stopped target h (o : Outcome (Result * bool)) h' :
  attempted proper request target h o h' -> exchanged h Panicking h' /\ exchanged h Exhausted h'.
Proof. intros (t & -> & Ho & Hg & _). split; by exists t. Qed.

(** A selection after an attempt that may be retried. *)
Lemma attempted_retry target h r h' u :
  attempted proper request target h (Returned (r, true)) h' -> Forall (fun e => foreign e = true) u ->
  exists t, h' ++ u = h ++ t /\ untold t /\ sends_ok proper h t /\
    (sends t = [] \/ sends t = [upstream_request range_headers request target]).
Proof.
  intros Ha Hu. destruct (attempted_foreign _ _ _ _ _ _ u Ha Hu) as (t & -> & _ & Hg & Hs & _ & Hr). exists t. split_and!; [done|by apply Hr..|done|done].
Qed.

Lemma loop_exchanges attempts target started excluded retries env h (st : St) :
  auth h target -> untouched h -> (length (sends h) + attempts <= 1)%nat -> (forall r, r ∈ sends h -> up_Backend r ∈ excluded) ->
  be_ID (tg_Backend target) ∉ excluded ->
  wp env (attempt_loop range_headers Decode ParseMediaType ToLower complete select n attempts request target started excluded retries)
    (fun o h' _ => exchanged h o h') h st.
Proof.
  revert target excluded retries h st. induction attempts as [|attempts IH]; intros target excluded retries h st Ha Hu Hl Hex Hnew;
    cbn [attempt_loop]; apply wp_bind;
    (eapply wp_mono; [apply (attempt_attempts proper); intros url; eapply proper_target; eauto; lia|]);
    intros [[r retryable]| |] h1 s1 Hatt; try (by eapply attempted_stopped).
  - apply wp_ret. by eapply attempted_exchanged.
  - destruct retryable; cbn [negb]; [|apply wp_ret; by eapply attempted_exchanged].
    apply wp_bind. eapply wp_mono; [exact (wp_and _ _ _ _ _ _ (select_apart _ _ _ _) (select_authorizes _ _ _ _))|].
    intros o h2 s2 [[(u & -> & Hfu) _] Hsel].
    pose proof (attempted_foreign _ _ _ _ _ _ u Hatt Hfu) as Hatt'.
    destruct o as [[err|next]| |]; [apply wp_ret; by eapply attempted_exchanged| |by eapply attempted_stopped..].
    destruct (attempted_retry _ _ _ _ u Hatt Hfu) as (t & E & Hun & Hg & Hs). rewrite E in *. destruct Hsel as [Hauth Hnext].
    assert (Hst : sends (h ++ t) = sends h ++ sends t) by (unfold sends; apply omap_app).
    eapply wp_mono; [apply IH; [exact Hauth| | | |exact Hnext]|].
    + apply Forall_app. split; [done|apply Hun].
    + rewrite Hst, length_app. destruct Hs as [->| ->]; cbn; lia.
    + intros q. rewrite Hst, elem_of_app. intros [Hq|Hq]; [apply elem_of_union_r; by apply Hex|]. destruct Hs as [Es|Es]; rewrite Es in Hq.
      * by apply elem_of_nil in Hq.
      * apply list_elem_of_singleton in Hq as ->. cbn. set_solver.
    + intros o h' s'. by apply exchanged_after.
Qed.

(** The proxied request. *)
Lemma forward_exchanges env h (st : St) :
  (forall t, auth (h ++ [Answered CTimeNow t]) (rq_Target request)) -> untouched h -> sends h = [] ->
  wp env (Proxy.Forward range_headers Decode ParseMediaType ToLower complete select n request)
    (fun o h' _ => exchanged h o h') h st.
Proof.
  intros Ha Hu Hn. unfold Proxy.Forward. apply wp_bind, wp_call_ok. intros t.
  assert (Hn' : sends (h ++ [Answered CTimeNow t]) = []) by (unfold sends in *; rewrite omap_app, Hn; done).
  eapply wp_mono; [apply loop_exchanges; [done|apply Forall_app; by repeat constructor|rewrite Hn'; cbn; lia|rewrite Hn'; by intros r ?%elem_of_nil|set_solver]|].
  intros o h' s'. apply exchanged_after; [by repeat constructor|done].
Qed.

End Attempts.
End Exchange.
