(* ===== verification/Scenario.v ===== *)
(** A concrete request: the configuration, the environment and the body with which the
    theorems about [Forward] are evaluated.  The first backend refuses the connection
    and the second answers; coordination grants a lease. *)

From Stdlib Require Import Ascii.
From S2P Require Import Prelude Domain Float64 Coordination Registry Tokenization Routing GoStrings Payload UsageInspector Effects Calls Service.

#[export] Existing Instance tree_json.
#[export] Existing Instance tree_laws.

Definition s_client : Client :=
  {| cl_ID := 1; cl_Revision := 1; cl_Name := "team"; cl_Enabled := true; cl_PriorityClass := PriorityHigh; cl_VLLMPriority := 5;
     cl_MaxConcurrency := 4; cl_RequestsPerMinute := 0; cl_TokensPerMinute := 0; cl_CreatedAt := 0; cl_UpdatedAt := 0 |}.

Definition s_key : APIKey :=
  {| ak_ID := 7; ak_ClientID := 1; ak_Prefix := "llmgw_abcdef"; ak_SecretHash := 18; ak_CreatedAt := 0; ak_ExpiresAt := Some 1000;
     ak_RevokedAt := None; ak_LastUsedAt := None |}.

Definition s_pool : ModelPool :=
  {| mp_ID := 3; mp_Revision := 1; mp_PublicModelName := "public"; mp_UpstreamModelName := "upstream"; mp_Enabled := true;
     mp_MaxGatewayInflight := 8; mp_HighPriorityReserve := 0; mp_MaxWaiting := 0; mp_CreatedAt := 0; mp_UpdatedAt := 0 |}.

Definition s_backend (id : Z) (name url : string) : Backend :=
  {| be_ID := id; be_Revision := 1; be_ModelPoolID := 3; be_Name := name; be_BaseURL := url; be_Enabled := true;
     be_Draining := false; be_CapacityHint := fone; be_RunningSoftLimit := fone; be_UpstreamAPIKeyEnv := ""; be_CreatedAt := 0;
     be_UpdatedAt := 0 |}.

Definition s_backends : list Backend := [s_backend 10 "a" "http://a/"; s_backend 11 "b" "http://b"].

Definition s_snapshot : Snapshot :=
  {| sn_Revision := 1; sn_Clients := {[1 := s_client]}; sn_KeyCandidates := {["llmgw_abcdef" := [s_key]]};
     sn_PoolsByID := {[3 := s_pool]}; sn_PoolsByName := {["public" := s_pool]}; sn_Access := {[1 := {[3 := true]}]};
     sn_BackendsByID := {[10 := s_backend 10 "a" "http://a/"; 11 := s_backend 11 "b" "http://b"]};
     sn_BackendsByPool := {[3 := s_backends]} |}.

Definition s_runtime (id : Z) : BackendRuntime :=
  {| br_BackendID := id; br_State := BackendHealthy; br_CircuitState := Some CircuitClosed; br_CircuitFailures := 0;
     br_CircuitRetryAt := 0; br_CircuitProbesInFlight := 0; br_CircuitAvailable := true; br_Healthy := true;
     br_MetricsFresh := true; br_Running := fzero; br_Waiting := fzero; br_KVCacheUsage := fzero; br_RawPressure := fzero;
     br_Pressure := fzero; br_GatewayInflight := 0; br_LastHealthAt := 5; br_LastMetricsAt := 0; br_ConsecutiveFailure := 0;
     br_ConsecutiveSuccess := 0 |}.

Definition s_pool_runtime : PoolRuntime := {| zeroPoolRuntime with po_PoolID := 3; po_State := PoolNormal; po_AvailableBackends := 2 |}.

Definition s_lease (r : AdmissionRequest) : LeaseIdentity :=
  {| li_LeaseID := ar_LeaseID r; li_ClientID := ar_ClientID r; li_PoolID := ar_PoolID r; li_RequestID := ar_RequestID r;
     li_ReplicaID := ar_ReplicaID r; li_ExpiresAt := 500; li_TTL := 500 |}.

Definition s_tokenization (r : TokenizationAcquireRequest) : TokenizationDecision :=
  {| td_Lease := Some {| tl_OperationID := tr_OperationID r; tl_ReplicaID := tr_ReplicaID r; tl_ClientID := tr_ClientID r;
       tl_PoolID := tr_PoolID r; tl_BackendID := 10; tl_BackendRevision := 1; tl_AcquiredAt := 10; tl_ExpiresAt := 55 |};
     td_Reason := TokenizationNoReason; td_RetryAt := None |}.

Definition s_answer (A : Type) (c : Call tree A) : list (Event (Call tree)) -> A :=
  match c in Call _ A return list (Event (Call tree)) -> A with
  | CSnapshot | CLockSnapshot => fun _ => s_snapshot
  | CReload | CCoordinationAllowed | CCoordinationReady | CNewRequest _ _ => fun _ => true
  | CNow | CTimeNow | CSince _ => fun _ => 10
  | CLookupEnv _ => fun _ => None
  | CNewUUID => fun _ => 42%N
  | CContextErr => fun _ => None
  | CPoolSnapshot _ _ => fun _ => s_pool_runtime
  | CBackendSnapshot b _ => fun _ => s_runtime b
  | CBackendHealth b _ => fun _ => (s_runtime (be_ID b), true)
  | CAcquirePool _ _ | CAcquireBackend _ _ | CLimiterAcquire _ _ | CEmergencyAcquire _ _ _ | CEmergencyCanServe _ _ _ => fun _ => true
  | CRandom => fun _ _ => 0
  | CAdmissionAcquire r => fun _ =>
      ({| ad_Lease := Some (s_lease r); ad_Reason := ReasonNone; ad_RetryAt := None; ad_ConcurrencyScope := AdmissionNoScope |}, None)
  | CTokenizationAcquire r => fun _ => Some (s_tokenization r)
  | CDeadline => fun _ => Some 40
  | CSetWriteDeadline _ | CControllerFlush => fun _ => None
  | CReserve _ => fun _ => {| rv_handle := true; rv_rollback := true; rv_reserved := true |}
  | CDo _ => fun h => if existsb (fun e => bool_decide (is_Some (sent e))) h
                      then inr {| rh_StatusCode := 200; rh_Header := {["Content-Type" := ["text/plain"]]} |}
                      else inl (ErrEnvironment false)
  | CRead => fun h => if existsb is_read h then ([], Some EOF) else (["o"%char; "k"%char], None)
  | CResponseHeader => fun _ => ∅
  | CWrite data => fun _ => (Z.of_nat (length data), None)
  | CReleasePool _ | CCompleteBackend _ _ | CUnlockSnapshot | CAdmissionComplete _ _ | CTrack _ | CHandleComplete _ _
  | CObserveRatePolicy _ | CLimiterRelease _ | CEmergencyRelease _ _ | CUsageRecord _ _ | CEmergencyObserved _ _
  | CClientInflight _ _ | CBackendInflight _ _ | CComplete _ | CRollbackReservation | CStage _ | CResponseComplete | CTokenizationComplete _ | CTokenizationObserved _ | CCloseBody
  | CWriteHeader _ _ | CFlush => fun _ => tt
  end.

(** Nothing panics; or the read of the response does. *)
Definition s_env : Env (Call tree) := {| answer := s_answer; panics := fun _ _ _ => false |}.
Definition s_env_panic : Env (Call tree) :=
  {| answer := s_answer; panics := fun _ c _ => match c with CRead => true | _ => false end |}.

Definition s_service : Service :=
  {| sv_admission := true; sv_leases := true; sv_policyObserver := true; sv_reloader := true; sv_guarded := true; sv_usage := true;
     sv_observer := true; sv_emergencyObserver := true; sv_reserver := true; sv_replicaID := 1%N; sv_leaseTTL := 500;
     sv_retryAfter := 1; sv_router := NewWithSessionAffinity fzero fone |}.

Definition s_request : ForwardRequest tree :=
  {| fr_Method := "POST"; fr_Path := "/v1/completions"; fr_Headers := sample_headers; fr_Body := sample_body;
     fr_APIKey := "llmgw_abcdefghijkl"; fr_RequestID := "r1"; fr_ParentRequestID := "" |}.

Definition s_hmac (_ : unit) (raw : string) : N := N.of_nat (String.length raw).

Definition s_lifecycle : Lifecycle :=
  {| lf_started := 0; lf_admissionStarted := 0; lf_event := zeroEvent; lf_rollback := false; lf_targets := []; lf_result := zeroResult;
     lf_reservation := false; lf_apiErr := None |}.

Definition s_forward (env : Env (Call tree)) :=
  Forward s_hmac tt map_to_list (fun _ => DecodeEOF) (fun _ => None) (fun x => x) (fun _ => 0) s_service 5 s_request env [] s_lifecycle.
