(* ===== verification/Status.v ===== *)
(** What the gateway reports about itself: the rest of
    [src/internal/gateway/service.go].  The order of [range] over the maps of a snapshot
    and [sort.Slice] are parameters. *)

From Stdlib Require Import Ascii.
From S2P Require Import Prelude Domain Float64 Coordination Admission Registry Routing GoStrings ApiKey Payload UsageInspector Effects Calls Proxy Service Traces Scenario.

(** The defaults of [New]; [fresh] is the answer of [uuid.New]. *)
Definition New (fresh : UUID) (s : Service) : Service :=
  let s := if sv_retryAfter s <=? 0 then {| s with sv_retryAfter := 2 * GoTime.Second |} else s in
  let s := if (sv_replicaID s =? uuidNil)%N then {| s with sv_replicaID := fresh |} else s in
  if sv_leaseTTL s <=? 0 then {| s with sv_leaseTTL := 90 * GoTime.Second |} else s.

Record InferenceReadiness := {
  ir_Status : string;
  ir_Revision : Z;
  ir_PoolAvailability : Z;
  ir_BackendAvailability : Z
}.

Inductive LoadLevel := LoadFree | LoadMedium | LoadLoaded | LoadUnavailable.

Record LoadStatus := {
  ls_Model : string;
  ls_Level : LoadLevel;
  ls_PoolState : PoolState;
  ls_BestBackendPressure : float64;
  ls_AvailableBackends : Z;
  ls_WaitingRequests : float64;
  ls_GatewayInflight : Z;
  ls_ConfigRevision : Z;
  ls_EvaluatedAt : Time
}.

Definition loadLevel (state : PoolState) : LoadLevel :=
  match state with
  | PoolNormal => LoadFree
  | PoolBusy => LoadMedium
  | PoolSaturated | PoolEmergency => LoadLoaded
  | _ => LoadUnavailable
  end.

Section Readiness.
Context {Bytes : Type} (range_pools : gmap Z ModelPool -> list ModelPool) (range_access : gmap Z (gmap Z bool) -> list (Z * gmap Z bool)).
Context (s : Service).

Abbreviation R := (M (Call Bytes) unit).

Fixpoint available_of (backends : list Backend) (at_ : Time) : R Z :=
  match backends with
  | [] => ret 0
  | backend :: backends =>
    if negb (be_Enabled backend) || be_Draining backend then available_of backends at_
    else
      runtime ← call_ok (CBackendSnapshot (be_ID backend) at_);
      '(_, secretAvailable) ← upstreamSecret backend;
      rest ← available_of backends at_;
      ret ((if br_Healthy runtime && br_MetricsFresh runtime && br_CircuitAvailable runtime && secretAvailable then 1 else 0) + rest)
  end.

Definition availableBackends (snapshot : Snapshot) (poolID : Z) (at_ : Time) : R Z :=
  available_of (default [] (sn_BackendsByPool snapshot !! poolID)) at_.

(** Whether emergency admission could serve a client of the pool. *)
Fixpoint emergency_serves (snapshot : Snapshot) (pool : ModelPool) (at_ : Time) (accesses : list (Z * gmap Z bool)) : R bool :=
  match accesses with
  | [] => ret false
  | (clientID, access) :: accesses =>
    match sn_Clients snapshot !! clientID with
    | Some client =>
      if cl_Enabled client && default false (access !! mp_ID pool) then
        runtime ← call_ok (CPoolSnapshot (mp_ID pool) at_);
        served ← call_ok (CEmergencyCanServe (cl_PriorityClass client) (cl_ID client)
                            (EffectiveLimit (cl_PriorityClass client) (po_State runtime) (cl_MaxConcurrency client)));
        if (served : bool) then ret true else emergency_serves snapshot pool at_ accesses
      else emergency_serves snapshot pool at_ accesses
    | None => emergency_serves snapshot pool at_ accesses
    end
  end.

Fixpoint readiness_of (snapshot : Snapshot) (degraded : bool) (at_ : Time) (pools : list ModelPool) (readiness : InferenceReadiness) : R InferenceReadiness :=
  match pools with
  | [] => ret readiness
  | pool :: pools =>
    if negb (mp_Enabled pool) then readiness_of snapshot degraded at_ pools readiness
    else
      policyAvailable ← (if degraded then emergency_serves snapshot pool at_ (range_access (sn_Access snapshot)) else ret true);
      if negb policyAvailable then readiness_of snapshot degraded at_ pools readiness
      else
        available ← availableBackends snapshot (mp_ID pool) at_;
        readiness_of snapshot degraded at_ pools
          {| readiness with ir_BackendAvailability := ir_BackendAvailability readiness + available;
                            ir_PoolAvailability := ir_PoolAvailability readiness + if 0 <? available then 1 else 0 |}
  end.

Definition InferenceReadiness_ : R InferenceReadiness :=
  snapshot ← call_ok CSnapshot;
  let readiness := {| ir_Status := "unavailable"; ir_Revision := sn_Revision snapshot; ir_PoolAvailability := 0; ir_BackendAvailability := 0 |} in
  allowed ← call_ok CCoordinationAllowed;
  if negb allowed then ret readiness
  else
    ready ← (if sv_admission s then call_ok CCoordinationReady else ret true);
    at_ ← call_ok CNow;
    readiness ← readiness_of snapshot (sv_admission s && negb ready) at_ (range_pools (sn_PoolsByID snapshot)) readiness;
    ret (if (0 <? ir_PoolAvailability readiness) || (0 <? ir_BackendAvailability readiness)
         then {| readiness with ir_Status := "ready" |} else readiness).

End Readiness.

Section Keys.
Context {Bytes Secret : Type} (hmac : Secret -> string -> N) (secret : Secret).
Context (range_allowed : gmap Z bool -> list (Z * bool)) (sort_models : list ModelPool -> list ModelPool) (s : Service).

Abbreviation R := (M (Call Bytes) unit).

Definition LoadStatus_ (rawKey model : string) : R (APIError + LoadStatus) :=
  snapshot ← call_ok CSnapshot;
  auth ← validateAPIKeySnapshot hmac secret rawKey snapshot;
  match auth with
  | inl e => ret (inl e)
  | inr (client, _) =>
    let model := GoStrings.TrimSpace model in
    if bool_decide (model = EmptyString) then ret (inl (invalidRequest "Model is required"))
    else
      match sn_PoolsByName snapshot !! model with
      | Some pool =>
        if negb (mp_Enabled pool) || negb (allowed snapshot (cl_ID client) (mp_ID pool)) then ret (inl modelNotAllowed)
        else
          at_ ← call_ok CNow;
          runtime ← call_ok (CPoolSnapshot (mp_ID pool) at_);
          available ← availableBackends snapshot (mp_ID pool) at_;
          let state := if available =? 0 then PoolUnavailable else po_State runtime in
          ret (inr {| ls_Model := model; ls_Level := loadLevel state; ls_PoolState := state;
                      ls_BestBackendPressure := po_BestBackendPressure runtime; ls_AvailableBackends := available;
                      ls_WaitingRequests := po_TotalWaiting runtime; ls_GatewayInflight := po_GatewayInflight runtime;
                      ls_ConfigRevision := sn_Revision snapshot; ls_EvaluatedAt := at_ |})
      | None => ret (inl modelNotAllowed)
      end
  end.

(** The pools of the loop of [Models]. *)
Definition listed (snapshot : Snapshot) (client : Client) : list ModelPool :=
  omap (fun '(poolID, allowed) =>
    match sn_PoolsByID snapshot !! poolID with
    | Some pool => if (allowed : bool) && mp_Enabled pool then Some pool else None
    | None => None
    end) (range_allowed (default ∅ (sn_Access snapshot !! cl_ID client))).

Definition Models (rawKey : string) : R (APIError + list ModelPool * Client) :=
  auth ← authenticate hmac secret s rawKey;
  match auth with
  | inl e => ret (inl e)
  | inr (client, _) =>
    snapshot ← call_ok CSnapshot;
    ret (inr (sort_models (listed snapshot client), client))
  end.

Definition ValidateAPIKey (rawKey : string) : R (APIError + Client) :=
  snapshot ← call_ok CSnapshot;
  auth ← validateAPIKeySnapshot hmac secret rawKey snapshot;
  ret match auth with inl e => inl e | inr (client, _) => inr client end.

Definition CompletePublic (event : RequestEvent) : R unit :=
  now ← call_ok CNow;
  if sv_observer s then call (CComplete {| event with ev_OccurredAt := now |}) else ret tt.

(** [ResponseComplete]; the observer of a reserver accepts it. *)
Definition ResponseComplete (reservation : bool) : R unit :=
  if negb reservation then ret tt
  else if sv_reserver s then call CResponseComplete else ret tt.

End Keys.

(** ** Under readings that do not change *)

Section ReadinessFacts.
Context {Bytes : Type} (range_pools : gmap Z ModelPool -> list ModelPool) (range_access : gmap Z (gmap Z bool) -> list (Z * gmap Z bool)).
Context (s : Service).

Abbreviation R := (M (Call Bytes) unit).

(** What the environment answers. *)
Record Readings := {
  rg_snapshot : Snapshot;
  rg_allowed : bool;
  rg_ready : bool;
  rg_now : Time;
  rg_backend : Z -> BackendRuntime;
  rg_pool : Z -> PoolRuntime;
  rg_env : string -> option string;
  rg_serves : PriorityClass -> Z -> Z -> bool
}.

Record answers (r : Readings) (env : Env (Call Bytes)) : Prop := {
  an_snapshot : forall h, answer env _ CSnapshot h = rg_snapshot r;
  an_allowed : forall h, answer env _ CCoordinationAllowed h = rg_allowed r;
  an_ready : forall h, answer env _ CCoordinationReady h = rg_ready r;
  an_now : forall h, answer env _ CNow h = rg_now r;
  an_backend : forall id at_ h, answer env _ (CBackendSnapshot id at_) h = rg_backend r id;
  an_pool : forall id at_ h, answer env _ (CPoolSnapshot id at_) h = rg_pool r id;
  an_env : forall name h, answer env _ (CLookupEnv name) h = rg_env r name;
  an_serves : forall class client limit h, answer env _ (CEmergencyCanServe class client limit) h = rg_serves r class client limit
}.

(** In this environment [m] returns a value with [Q], from any history. *)
Definition returns {S A : Type} (env : Env (Call Bytes)) (m : M (Call Bytes) S A) (Q : A -> Prop) : Prop :=
  forall h st, wp env m (fun o _ st' => match o with Returned a => Q a /\ st' = st | _ => False end) h st.

Lemma returns_ret {S A : Type} env (a : A) (Q : A -> Prop) : Q a -> returns (S := S) env (ret a) Q.
Proof. by intros H h st. Qed.

Lemma returns_mono {S A : Type} env (m : M (Call Bytes) S A) (Q Q' : A -> Prop) : (forall a, Q a -> Q' a) -> returns env m Q -> returns env m Q'.
Proof. intros HQ Hm h st. eapply wp_mono; [apply Hm|]. intros [a| |] h1 st1 H; [split; [apply HQ, H|apply H]|done|done]. Qed.

Lemma returns_bind {S A B : Type} env (m : M (Call Bytes) S A) (k : A -> M (Call Bytes) S B) Q Q' :
  returns env m Q -> (forall a, Q a -> returns env (k a) Q') -> returns env (m ≫= k) Q'.
Proof. intros Hm Hk h st. apply wp_bind. eapply wp_mono; [apply Hm|]. intros [a| |] h1 st1 H; [|done|done]. destruct H as [H ->]. exact (Hk a H h1 st). Qed.

Lemma returns_call {S A : Type} env (c : Call Bytes A) v : (forall h, answer env _ c h = v) -> returns (S := S) env (call_ok c) (fun a => a = v).
Proof. intros Hv h st. by split; [exact (Hv h)|]. Qed.

Context (r : Readings) (env : Env (Call Bytes)) (Henv : answers r env).

Definition secret_known (b : Backend) : bool :=
  bool_decide (be_UpstreamAPIKeyEnv b = EmptyString) ||
  match rg_env r (be_UpstreamAPIKeyEnv b) with Some v => negb (bool_decide (v = EmptyString)) | None => false end.

(** The backend could take a request. *)
Definition usable (b : Backend) : bool :=
  be_Enabled b && negb (be_Draining b) && br_Healthy (rg_backend r (be_ID b)) && br_MetricsFresh (rg_backend r (be_ID b)) &&
  br_CircuitAvailable (rg_backend r (be_ID b)) && secret_known b.

Lemma secret_returns {S : Type} b : returns (S := S) env (upstreamSecret b) (fun x => x.2 = secret_known b).
Proof.
  unfold upstreamSecret, secret_known. case_bool_decide; [by apply returns_ret|].
  eapply returns_bind; [apply returns_call; intros h; apply (an_env _ _ Henv)|]. intros a ->. case_match; by apply returns_ret.
Qed.

Lemma available_returns backends at_ : returns env (available_of backends at_) (fun n => n = count_list (fun b => usable b = true) backends).
Proof.
  induction backends as [|b backends IH]; cbn [available_of]; [by apply returns_ret|]. destruct (negb (be_Enabled b) || be_Draining b) eqn:E.
  - eapply returns_mono; [|apply IH]. intros n ->. rewrite count_list_cons, decide_False; [lia|].
    unfold usable. destruct (be_Enabled b), (be_Draining b); done.
  - eapply returns_bind; [apply returns_call; intros h; apply (an_backend _ _ Henv)|]. intros rt ->.
    eapply returns_bind; [apply secret_returns|]. intros [v ok] Hok. cbn in Hok. eapply returns_bind; [exact IH|]. intros n ->. apply returns_ret.
    apply orb_false_iff in E as [E1 E2]. apply negb_false_iff in E1. rewrite count_list_cons, Hok.
    assert (U : usable b = br_Healthy (rg_backend r (be_ID b)) && br_MetricsFresh (rg_backend r (be_ID b)) && br_CircuitAvailable (rg_backend r (be_ID b)) && secret_known b)
      by (unfold usable; by rewrite E1, E2). rewrite <- U. destruct (usable b) eqn:Eu; case_decide; done.
Qed.

Lemma available_pool_returns poolID at_ :
  returns env (availableBackends (rg_snapshot r) poolID at_) (fun n => 0 <= n /\ (0 < n <-> exists b, b ∈ default [] (sn_BackendsByPool (rg_snapshot r) !! poolID) /\ usable b = true)).
Proof.
  eapply returns_mono; [|apply available_returns]. intros n ->. split; [apply count_list_nonneg|].
  induction (default [] _) as [|b l IH]; [rewrite count_list_nil; split; [lia|intros (b & Hb & _); by apply elem_of_nil in Hb]|].
  rewrite count_list_cons. pose proof (count_list_nonneg (fun b => usable b = true) l). setoid_rewrite elem_of_cons. case_decide.
  - split; [eauto|lia].
  - rewrite Z.add_0_l, IH. naive_solver.
Qed.

(** A client of the pool that emergency admission could serve. *)
Definition served (pool : ModelPool) (clientID : Z) (access : gmap Z bool) : Prop :=
  exists client, sn_Clients (rg_snapshot r) !! clientID = Some client /\ cl_Enabled client = true /\ access !! mp_ID pool = Some true /\
    rg_serves r (cl_PriorityClass client) (cl_ID client)
      (EffectiveLimit (cl_PriorityClass client) (po_State (rg_pool r (mp_ID pool))) (cl_MaxConcurrency client)) = true.

Lemma emergency_returns pool at_ accesses :
  returns env (emergency_serves (rg_snapshot r) pool at_ accesses) (fun ok => ok = true <-> exists clientID access, (clientID, access) ∈ accesses /\ served pool clientID access).
Proof.
  induction accesses as [|[clientID access] accesses IH]; cbn [emergency_serves].
  { apply returns_ret. split; [done|]. intros (? & ? & Hin & _). by apply elem_of_nil in Hin. }
  assert (Hskip : ~ served pool clientID access -> returns env (emergency_serves (rg_snapshot r) pool at_ accesses)
    (fun ok => ok = true <-> exists c a, (c, a) ∈ (clientID, access) :: accesses /\ served pool c a)).
  { intros Hno. eapply returns_mono; [|apply IH]. intros ok H. rewrite H. setoid_rewrite elem_of_cons. naive_solver. }
  destruct (sn_Clients _ !! clientID) as [client|] eqn:Hc; [|apply Hskip; intros (? & ? & _); congruence].
  destruct (cl_Enabled client && default false (access !! mp_ID pool)) eqn:E.
  2: { apply Hskip. intros (client' & Hc' & He & Ha & _). rewrite Hc in Hc'. injection Hc' as <-. by rewrite He, Ha in E. }
  apply andb_true_iff in E as [He Ha]. assert (Ha' : access !! mp_ID pool = Some true) by (by destruct (access !! mp_ID pool) as [[]|]).
  eapply returns_bind; [apply returns_call; intros h; apply (an_pool _ _ Henv)|]. intros rt ->.
  eapply returns_bind; [apply returns_call; intros h; apply (an_serves _ _ Henv)|]. intros ok ->. destruct (rg_serves _ _ _ _) eqn:Es.
  - apply returns_ret. split; [|done]. intros _. exists clientID, access. split; [by left|]. by exists client.
  - apply Hskip. intros (client' & Hc' & _ & _ & Hs). rewrite Hc in Hc'. injection Hc' as <-. congruence.
Qed.

(** The pool can be served: its policy admits someone and a backend is usable. *)
Definition serviceable (degraded : bool) (pool : ModelPool) : Prop :=
  mp_Enabled pool = true /\
  (degraded = true -> exists clientID access, (clientID, access) ∈ range_access (sn_Access (rg_snapshot r)) /\ served pool clientID access) /\
  exists b, b ∈ default [] (sn_BackendsByPool (rg_snapshot r) !! mp_ID pool) /\ usable b = true.

Definition counted (x : InferenceReadiness) : Prop := 0 <= ir_PoolAvailability x /\ 0 <= ir_BackendAvailability x.

Lemma readiness_returns degraded at_ pools x : counted x ->
  returns env (readiness_of range_access (rg_snapshot r) degraded at_ pools x) (fun y => counted y /\ ir_Status y = ir_Status x /\
    (0 < ir_PoolAvailability y <-> 0 < ir_PoolAvailability x \/ exists pool, pool ∈ pools /\ serviceable degraded pool) /\
    (0 < ir_BackendAvailability y <-> 0 < ir_BackendAvailability x \/ exists pool, pool ∈ pools /\ serviceable degraded pool)).
Proof.
  revert x. induction pools as [|pool pools IH]; intros x Hx; cbn [readiness_of].
  { apply returns_ret. split; [done|]. split; [done|]. setoid_rewrite elem_of_nil. naive_solver. }
  assert (Hskip : ~ serviceable degraded pool -> returns env (readiness_of range_access (rg_snapshot r) degraded at_ pools x) (fun y => counted y /\ ir_Status y = ir_Status x /\
    (0 < ir_PoolAvailability y <-> 0 < ir_PoolAvailability x \/ exists p, p ∈ pool :: pools /\ serviceable degraded p) /\
    (0 < ir_BackendAvailability y <-> 0 < ir_BackendAvailability x \/ exists p, p ∈ pool :: pools /\ serviceable degraded p))).
  { intros Hno. eapply returns_mono; [|by apply IH]. intros y H. setoid_rewrite elem_of_cons. naive_solver. }
  destruct (mp_Enabled pool) eqn:He; cbn [negb]; [|apply Hskip; intros [? _]; congruence].
  eapply (returns_bind _ _ _ (fun ok => ok = true <-> (degraded = true -> exists clientID access, (clientID, access) ∈ range_access (sn_Access (rg_snapshot r)) /\ served pool clientID access))).
  { destruct degraded; [|apply returns_ret; done]. eapply returns_mono; [|apply emergency_returns]. intros ok H. rewrite H. naive_solver. }
  intros ok Hok. destruct ok; cbn [negb]; [|apply Hskip; intros (_ & Hp & _); by apply Hok in Hp].
  eapply returns_bind; [apply available_pool_returns|]. intros n [Hn Hpos]. eapply returns_mono; [|apply IH; unfold counted in *; cbn; destruct (0 <? n); lia].
  intros y H. destruct H as (H1 & H2 & H3 & H4). cbn in H2, H3, H4. split; [done|]. split; [done|].
  assert (Hs : 0 < n <-> serviceable degraded pool) by (rewrite Hpos; unfold serviceable; rewrite He; destruct Hok; naive_solver).
  rewrite H3, H4. unfold counted in Hx. setoid_rewrite elem_of_cons. destruct (Z.ltb_spec 0 n) as [Hlt|Hge].
  - assert (Hsv : serviceable degraded pool) by (by apply Hs). split; split; intros _; try (right; exists pool; by split; [left|]); left; lia.
  - assert (Hsv : ~ serviceable degraded pool) by (rewrite <- Hs; lia). replace n with 0 by lia. rewrite !Z.add_0_r. naive_solver.
Qed.

(** The candidates that [selectTarget] hands to the router, under these readings. *)
Lemma candidates_returns backends t :
  returns (S := Lifecycle) env (candidates_of backends t) (fun cs => cs = (fun b => let rt := rg_backend r (be_ID b) in
    {| ca_backend := b; ca_pressure := br_Pressure rt; ca_inflight := br_GatewayInflight rt;
       ca_eligible := br_Healthy rt && br_MetricsFresh rt && br_CircuitAvailable rt && secret_known b |}) <$> backends).
Proof.
  induction backends as [|b backends IH]; cbn [candidates_of]; [by apply returns_ret|].
  eapply returns_bind; [apply returns_call; intros h; apply (an_backend _ _ Henv)|]. intros rt ->.
  eapply returns_bind; [apply secret_returns|]. intros [v ok] Hok. cbn in Hok. subst ok. eapply returns_bind; [exact IH|]. intros cs ->. by apply returns_ret.
Qed.

Definition pressure_finite (b : Backend) : Prop :=
  IsNaN (br_Pressure (rg_backend r (be_ID b))) = false /\ IsInf (br_Pressure (rg_backend r (be_ID b))) = false.

(** The backends that are counted are those the router takes. *)
Lemma usable_routable backends t : (forall b, b ∈ backends -> pressure_finite b) -> returns (S := Lifecycle) env (candidates_of backends t)
  (fun cs => forall b, (b ∈ backends /\ usable b = true) <-> exists c, c ∈ eligibleCandidates cs ∅ /\ ca_backend c = b).
Proof.
  intros Hfin. eapply returns_mono; [|apply candidates_returns]. intros cs -> b. unfold eligibleCandidates. setoid_rewrite list_elem_of_filter.
  setoid_rewrite list_elem_of_fmap. unfold eligible_candidate, usable. split.
  - intros [Hin Hu]. destruct (Hfin b Hin) as [Hn Hi]. eexists. split; [split; [|by exists b]|done]. cbn. b2p. rewrite Hn, Hi, bool_decide_eq_false_2 by set_solver.
    repeat match goal with H : _ = _ |- _ => rewrite H; clear H end. done.
  - intros (c & [He (b' & -> & Hin)] & <-). cbn in *. split; [done|]. b2p. repeat match goal with H : _ = _ |- _ => rewrite H; clear H end. done.
Qed.

(** C27. Readiness is exact.  While its readings do not change, the gateway reports itself
    ready exactly when coordination is allowed and there is an enabled pool with a usable
    backend (enabled, not draining, healthy, with fresh metrics, a circuit that lets a request
    through and its upstream secret), and, if coordination is down, a client of that pool
    whom emergency admission could serve.  If the pressures read are finite, the usable
    backends of a pool are exactly those of the candidates that the selection of a target
    collects and that the router, with none excluded, keeps. *)
Theorem readiness_exact h :
  (forall x : gmap Z ModelPool, range_pools x ≡ₚ (map_to_list x).*2) ->
  (exists x h', InferenceReadiness_ range_pools range_access s env h tt = (Returned x, h', tt) /\
    (ir_Status x = "ready" <-> rg_allowed r = true /\ exists id pool, sn_PoolsByID (rg_snapshot r) !! id = Some pool /\
       serviceable (sv_admission s && negb (rg_ready r)) pool)) /\
  forall poolID t l, let backends := default [] (sn_BackendsByPool (rg_snapshot r) !! poolID) in
    (forall b, b ∈ backends -> pressure_finite b) ->
    exists cs h', candidates_of backends t env h l = (Returned cs, h', l) /\
      forall b, (b ∈ backends /\ usable b = true) <-> exists c, c ∈ eligibleCandidates cs ∅ /\ ca_backend c = b.
Proof.
  intros Hpools. split.
  2: { intros poolID t l backends Hfin. pose proof (usable_routable backends t Hfin h l) as H. unfold wp in H.
       destruct (candidates_of backends t env h l) as [[[cs| |] h'] l']; [|done|done]. destruct H as [H ->]. by exists cs, h'. }
  cut (returns env (InferenceReadiness_ range_pools range_access s) (fun x => ir_Status x = "ready" <-> rg_allowed r = true /\ exists id pool,
    sn_PoolsByID (rg_snapshot r) !! id = Some pool /\ serviceable (sv_admission s && negb (rg_ready r)) pool)).
  { intros H. specialize (H h tt). unfold wp in H. destruct (InferenceReadiness_ range_pools range_access s env h tt) as [[[x| |] h'] []]; [|done|done].
    destruct H as [H _]. by eauto. }
  unfold InferenceReadiness_. eapply returns_bind; [apply returns_call, (an_snapshot _ _ Henv)|]. intros snap ->.
  eapply returns_bind; [apply returns_call, (an_allowed _ _ Henv)|]. intros ok ->. destruct (rg_allowed r); cbn [negb]; [|apply returns_ret; naive_solver].
  eapply (returns_bind _ _ _ (fun ready => sv_admission s && negb ready = sv_admission s && negb (rg_ready r))).
  { destruct (sv_admission s); [|by apply returns_ret]. eapply returns_mono; [|apply returns_call, (an_ready _ _ Henv)]. by intros ? ->. }
  intros ready Hready. eapply returns_bind; [apply returns_call, (an_now _ _ Henv)|]. intros now ->. rewrite Hready.
  eapply returns_bind; [by apply readiness_returns|]. intros x (_ & Hs & Hp & Hb). apply returns_ret. cbn in Hs, Hp, Hb.
  assert (Hin : (exists pool, pool ∈ range_pools (sn_PoolsByID (rg_snapshot r)) /\ serviceable (sv_admission s && negb (rg_ready r)) pool) <->
    exists id pool, sn_PoolsByID (rg_snapshot r) !! id = Some pool /\ serviceable (sv_admission s && negb (rg_ready r)) pool).
  { setoid_rewrite Hpools. setoid_rewrite list_elem_of_fmap. setoid_rewrite elem_of_map_to_list'. split; [intros (? & ([id pool] & -> & ?) & ?); by eauto|].
    intros (id & pool & ? & ?). exists pool. split; [by exists (id, pool)|done]. }
  rewrite Hin in Hp, Hb. destruct (Z.ltb_spec 0 (ir_PoolAvailability x)); destruct (Z.ltb_spec 0 (ir_BackendAvailability x)); cbn; rewrite ?Hs; intuition (try done; try lia).
Qed.

End ReadinessFacts.

(** ** The list of models *)

Section ModelList.
Context {Bytes Secret : Type} (hmac : Secret -> string -> N) (secret : Secret).
Context (range_allowed : gmap Z bool -> list (Z * bool)) (sort_models : list ModelPool -> list ModelPool) (s : Service).
Context (range_law : forall x, range_allowed x ≡ₚ map_to_list x) (sort_law : forall l, sort_models l ≡ₚ l).

Lemma listed_spec snapshot client pool : pool ∈ listed range_allowed snapshot client <->
  exists id, sn_PoolsByID snapshot !! id = Some pool /\ mp_Enabled pool = true /\ allowed snapshot (cl_ID client) id = true.
Proof.
  unfold listed, allowed. rewrite list_elem_of_omap. setoid_rewrite range_law.
  destruct (sn_Access snapshot !! cl_ID client) as [access|]; cbn.
  - split.
    + intros ([id ok] & Hin & Hp). apply elem_of_map_to_list in Hin. destruct (sn_PoolsByID snapshot !! id) as [pool'|] eqn:E; [|done].
      destruct (ok && mp_Enabled pool') eqn:Eb; [|done]. injection Hp as ->. apply andb_true_iff in Eb as [-> ?]. exists id. rewrite Hin. done.
    + intros (id & Hp & He & Ha). exists (id, true). split; [apply elem_of_map_to_list; by destruct (access !! id) as [[]|]|]. by rewrite Hp, He.
  - split; [|by intros (? & _ & _ & ?)]. intros ([id ok] & Hin & _). rewrite map_to_list_empty in Hin. by apply elem_of_nil in Hin.
Qed.

(** The models listed are those a request may name.  When [Models] answers, the key was
    valid in a configuration it read, and in the last configuration it read a model name
    is listed exactly if a pool serves that name, is enabled and is open to the client,
    which is what [Forward] and [Tokenize] ask of the model of a request. *)
Theorem models_listed_exact rawKey env h st models client h' st' :
  Models (Bytes := Bytes) hmac secret range_allowed sort_models s rawKey env h st = (Returned (inr (models, client)), h', st') ->
  exists snap0 now key snap, Answered CSnapshot snap0 ∈ h' /\ key_valid hmac secret rawKey snap0 now = Some (client, key) /\
    last h' = Some (Answered CSnapshot snap) /\
    (snapshot_wf snap -> forall name, name ∈ mp_PublicModelName <$> models <->
       exists pool, sn_PoolsByName snap !! name = Some pool /\ mp_Enabled pool = true /\ allowed snap (cl_ID client) (mp_ID pool) = true).
Proof.
  set (Q := fun models client (h' : list (Event (Call Bytes))) => exists snap0 now key snap, Answered CSnapshot snap0 ∈ h' /\
    key_valid hmac secret rawKey snap0 now = Some (client, key) /\ last h' = Some (Answered CSnapshot snap) /\ models = sort_models (listed range_allowed snap client)).
  assert (H : wp env (Models hmac secret range_allowed sort_models s rawKey) (fun o h' _ => match o with Returned (inr (models, client)) => Q models client h' | _ => True end) h st).
  { unfold Models, authenticate. apply wp_bind, wp_bind, wp_call_ok. intros snap0. apply wp_bind. eapply wp_mono; [apply validate_spec|].
    intros [[e|[c key]]| |] h1 st1 H; [done| |done|done]. destruct H as (now & -> & _ & Hv). apply wp_bind.
    assert (Hlast : forall h0, Answered CSnapshot snap0 ∈ h0 -> forall st0 : unit, wp env (snapshot ← call_ok CSnapshot; ret (inr (sort_models (listed range_allowed snapshot c), c)))
      (fun (o : Outcome (APIError + list ModelPool * Client)) h' _ => match o with Returned (inr (models, client)) => Q models client h' | _ => True end) h0 st0).
    { intros h0 Hin st0. apply wp_bind, wp_call_ok. intros snap. apply wp_ret. exists snap0, now, key, snap. split_and!; [set_solver|done|by rewrite last_snoc|done]. }
    destruct (sv_usage s); [|apply wp_ret, wp_ret, Hlast; set_solver].
    apply wp_bind, wp_call_ok. intros now'. apply wp_call; [|done]. intros []. apply wp_ret, Hlast. set_solver. }
  unfold wp in H. intros E. rewrite E in H. destruct H as (snap0 & now & key & snap & H1 & H2 & H3 & ->). exists snap0, now, key, snap.
  split_and!; [done..|]. intros Hwf name. rewrite sort_law, list_elem_of_fmap. setoid_rewrite listed_spec. split.
  - intros (pool & -> & id & Hp & He & Ha). destruct (wf_pools _ Hwf id pool Hp) as [<- Hn]. by exists pool.
  - intros (pool & Hn & He & Ha). destruct (wf_names _ Hwf name pool Hn) as [<- Hp]. exists pool. split; [done|]. by exists (mp_ID pool).
Qed.

End ModelList.

(** ** Witnesses *)

Definition s_readings : Readings :=
  {| rg_snapshot := s_snapshot; rg_allowed := true; rg_ready := true; rg_now := 10; rg_backend := s_runtime; rg_pool := fun _ => s_pool_runtime;
     rg_env := fun _ => None; rg_serves := fun _ _ _ => true |}.

Definition s_range_pools (x : gmap Z ModelPool) : list ModelPool := (map_to_list x).*2.

Lemma readiness_exact_witness : exists x h',
  InferenceReadiness_ s_range_pools map_to_list s_service s_env [] tt = (Returned x, h', tt) /\ ir_Status x = "ready".
Proof.
  destruct (readiness_exact (Bytes := tree) s_range_pools map_to_list s_service s_readings s_env ltac:(constructor; reflexivity) [] (fun _ => reflexivity _))
    as ((x & h' & H1 & H2) & _). exists x, h'. split; [exact H1|]. apply H2. split; [reflexivity|]. exists 3, s_pool. split; [reflexivity|].
  split; [reflexivity|]. split; [discriminate|]. exists (s_backend 10 "a" "http://a/"). split; [left|reflexivity].
Defined.

Lemma models_listed_exact_witness :
  match Models (Bytes := tree) s_hmac tt map_to_list id s_service "llmgw_abcdefghijkl" s_env [] tt with
  | (Returned (inr (models, client)), h', _) => models = [s_pool] /\ exists snap, last h' = Some (Answered CSnapshot snap) /\
      (snapshot_wf snap -> "public" ∈ mp_PublicModelName <$> models <->
         exists pool, sn_PoolsByName snap !! "public" = Some pool /\ mp_Enabled pool = true /\ allowed snap (cl_ID client) (mp_ID pool) = true)
  | _ => False
  end.
Proof.
  assert (H : match Models (Bytes := tree) s_hmac tt map_to_list id s_service "llmgw_abcdefghijkl" s_env [] tt with
              | (Returned (inr (models, _)), _, _) => models = [s_pool]
              | _ => False
              end) by (vm_compute; reflexivity).
  destruct (Models _ _ _ _ _ _ _ _ _) as [[[[e|[models client]]| |] h'] st'] eqn:E; try contradiction. split; [exact H|].
  destruct (models_listed_exact s_hmac tt map_to_list id s_service (fun _ => reflexivity _) (fun _ => reflexivity _) _ _ _ _ _ _ _ _ E)
    as (_ & _ & _ & snap & _ & _ & Hl & Hw). exists snap. split; [exact Hl|]. intros Hwf. apply Hw, Hwf.
Defined.
