(* ===== verification/TokenizeSafety.v ===== *)
(** A tokenization request is sent at most once, to the backend of its lease and under
    the current configuration, and its lease is completed exactly once. *)

From Stdlib Require Import Ascii.
From S2P Require Import Prelude Domain Float64 Coordination Registry Tokenization Routing GoStrings ApiKey Payload UsageInspector Effects Calls Proxy Service Traces Tokenize Scenario.

(** Leases granted, and leases a completion was asked for. *)
Definition granted {Bytes : Type} (e : Event (Call Bytes)) : option TokenizationLease :=
  match e with
  | Answered c a => match c in Call _ A return A -> option TokenizationLease with
                    | CTokenizationAcquire _ => fun d => d ≫= td_Lease
                    | _ => fun _ => None
                    end a
  | Panicked _ => None
  end.

Definition completed {Bytes : Type} (e : Event (Call Bytes)) : option TokenizationLease :=
  match e with
  | Answered c _ => match c with CTokenizationComplete l => Some l | _ => None end
  | Panicked c => match c with CTokenizationComplete l => Some l | _ => None end
  end.

(** An event that neither sends nor touches a lease. *)
Definition idle {Bytes : Type} (e : Event (Call Bytes)) : Prop := sent e = None /\ granted e = None /\ completed e = None.

Section TokenizeSafety.
Context {Bytes Secret : Type} `{HJ : JsonLaws Bytes}.
Context (hmac : Secret -> string -> N) (secret : Secret)
  (range_headers : Header -> list (string * list string))
  (sort_candidates : list TokenizationCandidate -> list TokenizationCandidate) (s : Service) (z : Tokenizer) (fuel : nat).

Abbreviation T := (M (Call Bytes) TokenizeState).
Abbreviation History := (list (Event (Call Bytes))).
Abbreviation unread := (fun e : Event (Call Bytes) => reads_config e = false).
Abbreviation idly := (runs (fun e : Event (Call Bytes) => idle e) anywhere).

Lemma idle_history (t : History) : Forall idle t -> sends t = [] /\ omap granted t = [] /\ omap completed t = [].
Proof.
  induction 1 as [|e t (H1 & H2 & H3) _ (IH1 & IH2 & IH3)]; [done|]. unfold sends in *. cbn. by rewrite H1, H2, H3, IH1, IH2, IH3.
Qed.

(** ** One send *)

Definition token_request (r : TokenizationRequest Bytes) : UpstreamRequest Bytes :=
  {| up_Backend := be_ID (tq_Backend r); up_Method := "POST";
     up_URL := String.append (TrimRight "/"%char (be_BaseURL (tq_Backend r))) "/tokenize";
     up_Header := PrepareTokenizationHeaders range_headers (tq_Headers r) (tq_RequestID r) (tq_UpstreamAPIKey r); up_Body := tq_Body r |}.

(** What is sent has [Good], and is sent once; leases are left alone. *)
Definition sent_once (Good : History -> UpstreamRequest Bytes -> Prop) (h h' : History) : Prop :=
  exists t, h' = h ++ t /\ sends_ok Good h t /\ (length (sends t) <= 1)%nat /\ omap granted t = [] /\ omap completed t = [].

Lemma sent_once_idle Good h t : Forall idle t -> sent_once Good h (h ++ t).
Proof.
  intros Ht. destruct (idle_history t Ht) as (H1 & H2 & H3). exists t. rewrite H1. split_and!; [done|by apply sends_ok_none|cbn; lia|done|done].
Qed.

Lemma sent_once_before Good h t h' : Forall idle t -> sent_once Good (h ++ t) h' -> sent_once Good h h'.
Proof.
  intros Ht (u & -> & Hg & Hl & Hgr & Hc). destruct (idle_history t Ht) as (H1 & H2 & H3). exists (t ++ u). rewrite app_assoc.
  unfold sends in *. rewrite !omap_app, H1, H2, H3. split_and!; [done| |done|done|done]. apply sends_ok_app. split; [by apply sends_ok_none|done].
Qed.

Lemma sent_once_after Good h h' t : Forall idle t -> sent_once Good h h' -> sent_once Good h (h' ++ t).
Proof.
  intros Ht (u & -> & Hg & Hl & Hgr & Hc). destruct (idle_history t Ht) as (H1 & H2 & H3). exists (u ++ t). rewrite app_assoc.
  unfold sends in *. rewrite !omap_app, H1, H2, H3, !app_nil_r. split_and!; [done| |done|done|done].
  apply sends_ok_app. split; [done|by apply sends_ok_none].
Qed.

(** ** Programs that send *)

Section Sending.
(** What allows a send; it lasts until the configuration is read. *)
Context (pre : History -> Prop) (pre_lasts : forall h e, pre h -> reads_config e = false -> pre (h ++ [e])).
Context (Good : History -> UpstreamRequest Bytes -> Prop).

Definition calm (e : Event (Call Bytes)) : Prop := idle e /\ reads_config e = false.
Abbreviation calmly := (runs calm anywhere).

Lemma calm_idle e : calm e -> idle e.
Proof. by intros [? _]. Qed.

Lemma pre_app h t : pre h -> Forall calm t -> pre (h ++ t).
Proof.
  intros Hh Ht. revert h Hh. induction Ht as [|e t [_ He] _ IH]; intros h Hh; [by rewrite app_nil_r|].
  change (e :: t) with ([e] ++ t). rewrite app_assoc. by apply IH, pre_lasts.
Qed.

(** Every run of [m] from a history with [pre] sends once. *)
Definition sending {A : Type} (m : T A) : Prop := forall env h l, pre h -> wp env m (fun _ h' _ => sent_once Good h h') h l.

Lemma sending_idly {A : Type} (m : T A) : idly m -> sending m.
Proof. intros Hm env h l _. eapply wp_mono; [apply Hm|]. intros o h' l' [(t & -> & Ht) _]. by apply sent_once_idle. Qed.

(** The parts before the send are calm, those after it are idle. *)
Lemma sending_before_yields {A B : Type} (Y : A -> Prop) (m : T A) (k : A -> T B) :
  calmly m -> yields Y m -> (forall a, Y a -> sending (k a)) -> sending (m ≫= k).
Proof.
  intros Hm Hy Hk env h l Hh. apply wp_bind. eapply wp_mono; [apply wp_and; [apply Hm|apply Hy]|]. intros o h1 l1 [[(t & -> & Ht) _] Ha].
  assert (Hi : Forall idle t) by (eapply Forall_impl; [exact Ht|apply calm_idle]).
  destruct o as [a| |]; [|by apply sent_once_idle..].
  eapply wp_mono; [apply Hk; [done|by apply pre_app]|]. intros o h2 l2. by apply sent_once_before.
Qed.

Lemma sending_before {A B : Type} (m : T A) (k : A -> T B) : calmly m -> (forall a, sending (k a)) -> sending (m ≫= k).
Proof. intros Hm Hk. eapply sending_before_yields; [done|apply yields_any|]. intros a _. apply Hk. Qed.

Lemma sending_after {A B : Type} (m : T A) (k : A -> T B) : sending m -> (forall a, idly (k a)) -> sending (m ≫= k).
Proof.
  intros Hm Hk env h l Hh. apply wp_bind. eapply wp_mono; [by apply Hm|]. intros [a| |] h1 l1 H1; [|done|done].
  eapply wp_mono; [apply Hk|]. intros o h2 l2 [(t & -> & Ht) _]. by apply sent_once_after.
Qed.

Lemma sending_defer {A : Type} (m : T A) f : sending m -> (forall b, idly (f b)) -> sending (defer m f).
Proof.
  intros Hm Hf env h l Hh. apply wp_defer. eapply wp_mono; [by apply Hm|]. intros [a| |] h1 l1 H1; [| |done];
    (eapply wp_mono; [apply Hf|]); intros [| |] h2 l2 [(t & -> & Ht) _]; by apply sent_once_after.
Qed.

Lemma sending_call (req : UpstreamRequest Bytes) : (forall h, pre h -> Good h req) -> sending (call (CDo req)).
Proof.
  intros HG env h l Hh. apply wp_call; [intros a|]; eexists; (split; [done|]); cbn; split_and!; try done; try lia; intros r [= <-]; by apply HG.
Qed.

End Sending.

(** ** The forwarder *)

Lemma tcommit_idly id started response result : idly (tokenize_commit range_headers id started response result).
Proof. unfold tokenize_commit. runs. Qed.
#[local] Hint Resolve tcommit_idly : runs.

Lemma twrite_idly data id started response result : idly (tokenize_write range_headers data id started response result).
Proof. unfold tokenize_write. runs. Qed.
#[local] Hint Resolve twrite_idly : runs.

Lemma tcopy_idly n id started response result : idly (tokenize_copy range_headers n id started response result).
Proof. revert result. induction n as [|n IH]; intros result; cbn [tokenize_copy]; runs. Qed.
#[local] Hint Resolve tcopy_idly : runs.

Lemma exchange_sends pre Good r started result :
  (forall h e, pre h -> reads_config e = false -> pre (h ++ [e])) -> (forall h, pre h -> Good h (token_request r)) ->
  sending pre Good (tokenize_exchange range_headers fuel r started result).
Proof.
  intros Hl HG. unfold tokenize_exchange. apply sending_after; [|intros response; runs].
  unfold tokenize_upstream. cbv zeta. apply sending_before; [done|runs|]. intros []; cbn [negb]; [by apply sending_call|apply sending_idly; runs].
Qed.

Lemma forwarder_sends pre Good r :
  (forall h e, pre h -> reads_config e = false -> pre (h ++ [e])) -> (forall h, pre h -> Good h (token_request r)) ->
  sending pre Good (ForwardTokenization range_headers fuel r).
Proof.
  intros Hl HG. unfold ForwardTokenization. cbv zeta. do 2 (apply sending_before; [done|runs|intros ?]).
  case_match; [|by apply exchange_sends]. apply sending_before; [done|runs|]. intros set.
  assert (Hd : sending pre Good (defer (tokenize_exchange range_headers fuel r a {| zeroResult with re_BackendID := be_ID (tq_Backend r) |})
    (fun _ => call (CSetWriteDeadline GoTime.zero);; ret tt))) by (apply sending_defer; [by apply exchange_sends|intros b; runs]).
  destruct set as [[]|]; [exact Hd| |exact Hd]. apply sending_idly. runs.
Qed.

(** ** The service *)

(** The last configuration read is [snap], at [now] and after the decision [d]. *)
Definition token_read (req : TokenizationAcquireRequest) (d : TokenizationDecision) (snap : Snapshot) (now : Time) (h : History) : Prop :=
  exists h0 mid, h = h0 ++ Answered CSnapshot snap :: Answered CNow now :: mid /\ Forall unread mid /\
    Answered (CTokenizationAcquire req) (Some d) ∈ h0.

(** That configuration knows the key, the pool with the access of the lease's client,
    and the backend of the lease at its revision. *)
Definition token_authorized (raw : string) (pool : ModelPool) (b : Backend) (h : History) : Prop :=
  exists snap now client key req d lease,
    token_read req d snap now h /\ td_Lease d = Some lease /\
    key_shaped raw = true /\ key_valid hmac secret raw snap now = Some (client, key) /\
    sn_PoolsByID snap !! mp_ID pool = Some pool /\ mp_Enabled pool = true /\ allowed snap (tl_ClientID lease) (mp_ID pool) = true /\
    tl_PoolID lease = mp_ID pool /\ sn_BackendsByID snap !! tl_BackendID lease = Some b /\ be_Revision b = tl_BackendRevision lease /\
    be_ModelPoolID b = mp_ID pool /\ be_Enabled b = true /\ be_Draining b = false.

Lemma token_read_lasts req d snap now h e :
  token_read req d snap now h -> reads_config e = false -> token_read req d snap now (h ++ [e]).
Proof.
  intros (h0 & mid & -> & Hm & Hr) He. exists h0, (mid ++ [e]). split_and!; [by rewrite <- app_assoc| |done].
  apply Forall_app; by split; [|constructor].
Qed.

Lemma token_authorized_lasts raw pool b h e :
  token_authorized raw pool b h -> reads_config e = false -> token_authorized raw pool b (h ++ [e]).
Proof.
  intros (snap & now & client & key & req & d & lease & Hr & H) He. exists snap, now, client, key, req, d, lease.
  split; [by apply token_read_lasts|done].
Qed.

Lemma eligible_calm b now : runs calm anywhere (tokenizationEligible z b now : T _).
Proof. unfold tokenizationEligible, upstreamSecret. runs. Qed.

Lemma coordination_calm : runs calm anywhere (coordination_usable : T _).
Proof. unfold coordination_usable. runs. Qed.
#[local] Hint Resolve eligible_calm coordination_calm : runs.

Lemma lease_current_calm snap current client key key' pool lease :
  runs calm anywhere (lease_current z snap current client key key' pool lease : T _).
Proof. unfold lease_current. runs. Qed.

Lemma eligible_yields b now : yields (fun ok => ok = true -> be_Enabled b = true /\ be_Draining b = false) (tokenizationEligible z b now : T _).
Proof.
  unfold tokenizationEligible. destruct (be_Enabled b), (be_Draining b); cbn; try (by apply yields_ret).
  eapply yields_mono; [apply yields_any|done].
Qed.

(** What the comparison with the current configuration establishes. *)
Lemma lease_current_yields snap current client key key' pool lease :
  yields (fun found => forall b, found = Some b ->
    sn_PoolsByID current !! mp_ID pool = Some pool /\ allowed current (tl_ClientID lease) (mp_ID pool) = true /\
    tl_PoolID lease = mp_ID pool /\ sn_BackendsByID current !! tl_BackendID lease = Some b /\ be_Revision b = tl_BackendRevision lease /\
    be_ModelPoolID b = mp_ID pool /\ be_Enabled b = true /\ be_Draining b = false)
    (lease_current z snap current client key key' pool lease : T _).
Proof.
  unfold lease_current. destruct (sn_BackendsByID current !! _) as [b|] eqn:Hb; [|by apply yields_ret].
  destruct (unchanged _ _ _ _ _ _ _ _) eqn:Hu; cbn [negb]; [|by apply yields_ret]. eapply yields_bind; [apply yields_any|]. intros now _.
  eapply yields_bind; [apply eligible_yields|]. intros [] Hel; cbn [negb]; [|by apply yields_ret]. specialize (Hel eq_refl).
  eapply yields_bind; [apply yields_any|]. intros [] _; apply yields_ret; [|done]. intros ? [= <-]. unfold unchanged in Hu. b2p.
  destruct Hel. split_and!; try done. congruence.
Qed.

(** What is sent for a tokenization request. *)
Definition token_lawful (r : ForwardRequest Bytes) (h : History) (req : UpstreamRequest Bytes) : Prop :=
  exists pool b, token_authorized (fr_APIKey r) pool b h /\ up_Backend req = be_ID b /\
    up_URL req = String.append (TrimRight "/"%char (be_BaseURL b)) "/tokenize" /\ serves (up_Body req) (mp_UpstreamModelName pool).

Lemma context_error_idly : idly (tokenizationContextError : T _).
Proof. unfold tokenizationContextError. runs. Qed.
#[local] Hint Resolve context_error_idly : runs.

Lemma sending_or_panic pre Good {A B : Type} (o : option A) (k : A -> T B) :
  (forall x, o = Some x -> sending pre Good (k x)) -> sending pre Good (x ← or_panic o; k x).
Proof.
  intros Hk env h l Hh. apply wp_bind. destruct o as [x|]; [by apply wp_ret, Hk|]. change (sent_once Good h h).
  rewrite <- (app_nil_r h) at 2. by apply sent_once_idle.
Qed.

Lemma send_sends r pool key body b : clean body ->
  sending (token_authorized (fr_APIKey r) pool b) (token_lawful r) (tokenize_send range_headers s fuel r pool key body b).
Proof.
  intros Hc. pose proof (token_authorized_lasts (fr_APIKey r) pool b) as Hlast. unfold tokenize_send.
  apply sending_before; [done|runs|]. intros _. apply sending_or_panic. intros [body'|] Hr; [|apply sending_idly; unfold fail_with; runs].
  apply sending_before; [done|runs|]. intros _. apply sending_before; [done|unfold upstreamSecret; runs|]. intros [upstreamKey ok].
  apply sending_after; [|intros result; unfold fail_with; runs].
  apply forwarder_sends; [done|]. intros h Hh. exists pool, b. split_and!; [done|done|done|]. by eapply replace_serves.
Qed.

Lemma sending_weaken (pre pre' : History -> Prop) Good {A : Type} (m : T A) :
  (forall h, pre h -> pre' h) -> sending pre' Good m -> sending pre Good m.
Proof. intros Hp Hm env h l Hh. by apply Hm, Hp. Qed.

(** Once a configuration is read and the key is valid in it. *)
Lemma checked_sends r snap current now client key client' key' pool body lease req d :
  mp_Enabled pool = true -> clean body -> td_Lease d = Some lease -> key_shaped (fr_APIKey r) = true ->
  key_valid hmac secret (fr_APIKey r) current now = Some (client', key') ->
  sending (token_read req d current now) (token_lawful r)
    (found ← lease_current z snap current client key key' pool lease;
     match found with
     | None => with_reason "stale_configuration";; fail_with (tokenizationError 503 "stale_configuration" (sv_retryAfter s))
     | Some b => tokenize_send range_headers s fuel r pool key body b
     end).
Proof.
  intros Hen Hc Hl Hk Hv. eapply sending_before_yields; [by apply token_read_lasts|apply lease_current_calm|apply lease_current_yields|].
  intros [b|] Hy; [|apply sending_idly; unfold with_reason, fail_with; runs]. specialize (Hy b eq_refl).
  eapply sending_weaken; [|by apply send_sends]. intros h Hr. exists current, now, client', key', req, d, lease. naive_solver.
Qed.

Lemma leased_sends r snap client key pool body lease req d :
  mp_Enabled pool = true -> clean body -> td_Lease d = Some lease ->
  sending (fun h => Answered (CTokenizationAcquire req) (Some d) ∈ h) (token_lawful r)
    (tokenize_leased hmac secret range_headers s z fuel r snap client key pool body lease).
Proof.
  intros Hen Hc Hl. unfold tokenize_leased. apply sending_before; [set_solver|runs|].
  intros [e|]; [apply sending_idly; unfold fail_with; runs|]. intros env h l Hh. apply wp_bind, wp_call_ok. intros current.
  eapply wp_mono; [|intros o h' l'; apply (sent_once_before _ h [Answered CSnapshot current]); by constructor].
  apply wp_bind. eapply wp_mono; [apply validate_spec|]. intros [[e|[client' key']]| |] h1 l1; [| |done|done].
  - intros Hi. assert (Ht : exists t, h1 = (h ++ [Answered CSnapshot current]) ++ t /\ Forall idle t).
    { destruct Hi as [->|[now ->]]; [exists []; by rewrite app_nil_r|]. eexists. split; [done|]. by constructor. }
    destruct Ht as (t & -> & Ht). eapply wp_mono; [|intros o h' l'; by apply sent_once_before].
    apply (sending_idly (fun _ => True)); [|done]. unfold with_reason, fail_with; runs.
  - intros (now & -> & Hk & Hv). eapply wp_mono; [|intros o h' l'; apply (sent_once_before _ _ [Answered CNow now]); by constructor].
    eapply (checked_sends _ _ _ now); try done. exists h, []. by rewrite <- app_assoc.
Qed.

(** ** The whole request *)

(** From [h] at most one request is sent, under the rules, and at most one lease is
    granted; a run that ends has completed it. *)
Definition settled (r : ForwardRequest Bytes) {A : Type} (o : Outcome A) (h h' : History) : Prop :=
  exists t, h' = h ++ t /\ sends_ok (token_lawful r) h t /\ (length (sends t) <= 1)%nat /\ (length (omap granted t) <= 1)%nat /\
    (o <> Exhausted -> omap completed t = omap granted t).

Lemma settled_idle r {A : Type} (o : Outcome A) h t : Forall idle t -> settled r o h (h ++ t).
Proof. intros Ht. destruct (idle_history t Ht) as (H1 & H2 & H3). exists t. rewrite H1, H2, H3. split_and!; [done|by apply sends_ok_none|cbn; lia..|done]. Qed.

Lemma settled_before r {A : Type} (o : Outcome A) h t h' : Forall idle t -> settled r o (h ++ t) h' -> settled r o h h'.
Proof.
  intros Ht (u & -> & Hg & Hl & Hgr & Hc). destruct (idle_history t Ht) as (H1 & H2 & H3). exists (t ++ u). rewrite app_assoc.
  unfold sends in *. rewrite !omap_app, H1, H2, H3. split_and!; [done| |done|done|done]. apply sends_ok_app; split; [by apply sends_ok_none|done].
Qed.

Lemma settled_after r {A B : Type} (o : Outcome A) (o' : Outcome B) h h' t :
  Forall idle t -> o <> Exhausted -> settled r o h h' -> settled r o' h (h' ++ t).
Proof.
  intros Ht Ho (u & -> & Hg & Hl & Hgr & Hc). destruct (idle_history t Ht) as (H1 & H2 & H3). exists (u ++ t). rewrite app_assoc.
  unfold sends in *. rewrite !omap_app, H1, H2, H3, !app_nil_r. split_and!; [done| |done|done|intros _; by apply Hc].
  apply sends_ok_app; split; [done|by apply sends_ok_none].
Qed.

Abbreviation settles_all r m := (forall env h l, wp env m (fun o h' _ => settled r o h h') h l).

Lemma settles_idly r {A : Type} (m : T A) : idly m -> settles_all r m.
Proof. intros Hm env h l. eapply wp_mono; [apply Hm|]. intros o h' l' [(t & -> & Ht) _]. by apply settled_idle. Qed.

Lemma settles_before r {A B : Type} (m : T A) (k : A -> T B) : idly m -> (forall a, settles_all r (k a)) -> settles_all r (m ≫= k).
Proof.
  intros Hm Hk env h l. apply wp_bind. eapply wp_mono; [apply Hm|]. intros [a| |] h1 l1 [(t & -> & Ht) _]; [|by apply settled_idle..].
  eapply wp_mono; [apply Hk|]. intros o h2 l2. by apply settled_before.
Qed.

Lemma settles_call r {A : Type} (req : TokenizationAcquireRequest) (k : option TokenizationDecision -> T A) :
  (forall d, d ≫= td_Lease = None -> idly (k d)) ->
  (forall d lease, td_Lease d = Some lease -> exists m, k (Some d) = defer m (fun _ => call (CTokenizationComplete lease)) /\
     sending (fun h => Answered (CTokenizationAcquire req) (Some d) ∈ h) (token_lawful r) m) ->
  settles_all r (d ← call (CTokenizationAcquire req); k d).
Proof.
  intros Hnone Hsome env h l. apply wp_bind, wp_call; [|by apply settled_idle; constructor].
  intros d. destruct (d ≫= td_Lease) as [lease|] eqn:Hd.
  - destruct d as [d|]; [|done]. destruct (Hsome d lease Hd) as (m & -> & Hm). apply wp_defer.
    eapply wp_mono; [apply Hm; set_solver|]. intros o h1 l1 (t & -> & Hg & Hl & Hgr & Hc).
    assert (Hend : forall e, completed e = Some lease -> granted e = None -> sent e = None ->
      forall B (o : Outcome B), settled r o h (((h ++ [Answered (CTokenizationAcquire req) (Some d)]) ++ t) ++ [e])).
    { intros e He Hg' Hs B o'. exists (Answered (CTokenizationAcquire req) (Some d) :: t ++ [e]). rewrite <- !app_assoc.
      unfold sends in *. cbn. rewrite !omap_app, Hgr, Hc. cbn. cbn in Hd. rewrite Hd, He, Hg', Hs, app_nil_r. split_and!; try done.
      apply (sends_ok_app _ h [_]). split; [by apply sends_ok_none|]. apply sends_ok_app. split; [done|]. apply sends_ok_none. unfold sends. cbn. by rewrite Hs. }
    destruct o as [a| |].
    + apply wp_call; [intros []|]; by apply Hend.
    + apply wp_call; [intros []|]; by apply Hend.
    + exists (Answered (CTokenizationAcquire req) (Some d) :: t). rewrite <- app_assoc. unfold sends in *. cbn in Hd |- *. rewrite Hd, Hgr.
      cbn. split_and!; done.
  - eapply wp_mono; [by apply Hnone|]. intros o h1 l1 [(t & -> & Ht) _]. rewrite <- app_assoc. apply settled_idle.
    apply Forall_app. split; [|done]. constructor; [|done]. done.
Qed.

Lemma refused_idly d : idly (tokenize_refused s d : T _).
Proof. unfold tokenize_refused, with_reason, fail_with. runs. Qed.

Lemma coordination_idly : idly (coordination_usable : T _).
Proof. unfold coordination_usable. runs. Qed.

Lemma candidates_idly bs now : idly (eligible_candidates z bs now : T _).
Proof.
  induction bs as [|b bs IH]; cbn; [runs|]. unfold tokenizationEligible, upstreamSecret. runs.
Qed.
#[local] Hint Resolve refused_idly coordination_idly candidates_idly : runs.

Lemma token_admitted_settles r snap client key pool body : mp_Enabled pool = true -> clean body ->
  settles_all r (tokenize_admitted hmac secret range_headers sort_candidates s z fuel r snap client key pool body).
Proof.
  intros Hen Hc. unfold tokenize_admitted. apply settles_before; [runs|]. intros usable.
  destruct usable; cbn [negb]; [|apply settles_idly; unfold with_reason, fail_with; runs].
  apply settles_before; [runs|]. intros now. apply settles_before; [runs|]. intros [|c cs]; [apply settles_idly; unfold with_reason, fail_with; runs|].
  apply settles_before; [runs|]. intros id. apply settles_call.
  - intros [d|] Hd; [cbn in Hd; rewrite Hd; runs|]. unfold with_reason, fail_with. runs.
  - intros d lease Hd. eexists. split; [by rewrite Hd|]. by apply leased_sends.
Qed.

Lemma token_body_settles r : settles_all r (tokenize_body hmac secret range_headers sort_candidates s z fuel r).
Proof.
  unfold tokenize_body. apply settles_before; [runs|]. intros snap. apply settles_before; [unfold validateAPIKeySnapshot; runs|].
  intros [e|[client key]]; [apply settles_idly; unfold with_reason, fail_with; runs|]. apply settles_before; [runs|]. intros _.
  destruct (rewritePayload _) as [e|[body model]] eqn:Hp; [apply settles_idly; unfold with_reason, fail_with; runs|].
  destruct (sn_PoolsByName snap !! model) as [pool|]; [|apply settles_idly; unfold with_reason, fail_with; runs].
  destruct (mp_Enabled pool) eqn:Hen; cbn [negb orb]; [|apply settles_idly; unfold with_reason, fail_with; runs].
  destruct (allowed _ _ _); cbn [negb]; [|apply settles_idly; unfold with_reason, fail_with; runs].
  apply settles_before; [runs|]. intros _. apply token_admitted_settles; [done|]. by eapply rewrite_clean.
Qed.

Lemma finish_idly started b : idly (tokenize_finish z started b : T _).
Proof. unfold tokenize_finish, ObserveTokenization. runs. Qed.

Lemma tokenize_settles r : settles_all r (Tokenize hmac secret range_headers sort_candidates s z fuel r).
Proof.
  unfold Tokenize. apply settles_before; [runs|]. intros started. apply settles_before; [runs|]. intros _ env h l.
  apply wp_defer. eapply wp_mono; [apply token_body_settles|]. intros [a| |] h1 l1 H1; [| |done];
    (eapply wp_mono; [apply finish_idly|]); intros [b| |] h2 l2 [(t & -> & Ht) _]; (eapply settled_after; [exact Ht| |exact H1]; done).
Qed.

(** C5. A tokenization request is sent safely.  In every run of [Tokenize] at most one
    request is sent, to the backend of a lease that was granted before, after the last
    configuration read knew the key, the pool with the access of the lease's client and
    the backend at the lease's revision, enabled and not draining, and its body asks for
    the pool's upstream model.  At most one lease is granted, and a run that ends,
    with a panic too, has asked once for the completion of exactly that lease. *)
Theorem tokenize_safe r env l o h l' :
  Tokenize hmac secret range_headers sort_candidates s z fuel r env [] l = (o, h, l') ->
  (forall h1 e h2 req, h = h1 ++ e :: h2 -> sent e = Some req -> token_lawful r h1 req) /\
  (length (sends h) <= 1)%nat /\ (length (omap granted h) <= 1)%nat /\ (o <> Exhausted -> omap completed h = omap granted h).
Proof.
  intros E. pose proof (tokenize_settles r env [] l) as H0. unfold wp in H0. rewrite E in H0.
  destruct H0 as (t & -> & Hg & Hl & Hgr & Hc). split_and!; [|done..]. intros h1 e h2 req Hh He.
  by eapply (sends_ok_elim _ [] t).
Qed.

End TokenizeSafety.

(** ** Witness *)

Definition s_tokenizer : Tokenizer :=
  {| tz_tokenization := true; tz_policy := DefaultTokenizationPolicy; tz_healthMaxAge := 100; tz_observer := true; tz_forwarder := true; tz_runtime := true |}.

Definition s_tokenize (env : Env (Call tree)) :=
  Tokenize s_hmac tt map_to_list id s_service s_tokenizer 5 s_request env []
    {| tz_event := {| te_RequestID := ""; te_Client := ""; te_Model := ""; te_Backend := ""; te_Reason := ""; te_Status := 0; te_Duration := 0;
                      te_Cancelled := false |}; tz_result := zeroResult; tz_apiErr := None |}.

(** The send panics. *)
Definition s_env_send : Env (Call tree) := {| answer := s_answer; panics := fun _ c _ => match c with CDo _ => true | _ => false end |}.

Lemma tokenize_safe_witness :
  let '(o, h, _) := s_tokenize s_env_send in
  o = Panicking /\ length (sends h) = 1%nat /\ length (omap completed h) = 1%nat /\ omap completed h = omap granted h /\
  forall h1 e h2 req, h = h1 ++ e :: h2 -> sent e = Some req -> token_lawful s_hmac tt s_request h1 req.
Proof.
  assert (H : match s_tokenize s_env_send with
              | (Panicking, h, _) => length (sends h) = 1%nat /\ length (omap completed h) = 1%nat
              | _ => False
              end) by (vm_compute; split; reflexivity).
  destruct (s_tokenize s_env_send) as [[o h] l] eqn:E. destruct o as [a| |]; [contradiction| |contradiction]. destruct H as [H1 H2].
  unfold s_tokenize in E. destruct (tokenize_safe _ _ _ _ _ _ _ _ _ _ _ _ _ E) as (H3 & _ & _ & H4).
  split; [reflexivity|]. split; [exact H1|]. split; [exact H2|]. split; [apply H4; discriminate|exact H3].
Defined.
