(* ===== verification/Authorization.v ===== *)
(** What the gateway sends upstream is authorized, and what it returns is faithful.

    [forward_authorized]: when a request is sent to a backend, the configuration that was
    read last lets the owner of the key use the pool of that backend.
    [forward_exchange]: the client gets at most one response, a prefix of what the backend
    sent, and a retry happens only on another backend while the client has nothing. *)

From Stdlib Require Import Ascii.
From S2P Require Import Prelude Domain Coordination Admission Registry Routing GoStrings ApiKey Payload UsageInspector Effects Calls Proxy Service Traces Exchange Scenario.

Section Authorization.
Context {Bytes Secret : Type} `{JsonLaws Bytes}.
Context (hmac : Secret -> string -> N) (secret : Secret)
  (range_headers : Header -> list (string * list string)) (Decode : list ascii -> DecodeResult)
  (ParseMediaType : string -> option string) (ToLower : string -> string) (sha256_prefix : list Z -> Z)
  (s : Service) (fuel : nat).

Abbreviation G := (M (Call Bytes) Lifecycle).
Abbreviation History := (list (Event (Call Bytes))).

(** ** The payload *)

Definition ready (resolved : resolvedForwardRequest Bytes) : Prop :=
  serves (rs_payload resolved) (mp_UpstreamModelName (rs_pool resolved)).

Lemma ready_clean resolved : ready resolved -> clean (rs_payload resolved).
Proof. intros (m & ? & ? & _). by exists m. Qed.

Definition on_right {A B : Type} (Q : B -> Prop) (x : A + B) : Prop := match x with inl _ => True | inr b => Q b end.

Lemma prepare_yields request resolved : clean (rs_payload resolved) -> yields (on_right ready) (prepareForwardPayload request resolved : G _).
Proof.
  intros Hc. unfold prepareForwardPayload. destruct (negb _ || negb _); [by apply yields_ret|].
  destruct (forceStreamingUsage _ _) as [b2|] eqn:Hf; [|by apply yields_ret].
  unfold or_panic. destruct (replaceModel b2 _) as [o|] eqn:Hr; [|by intros env h l].
  eapply (yields_bind (fun x => x = o)); [by apply yields_ret|]. intros ? ->.
  destruct o as [b|]; apply yields_ret; [|done].
  eapply replace_serves; [by eapply force_clean|done].
Qed.

Lemma resolve_yields request :
  yields (on_right (fun resolved => clean (rs_payload resolved))) (resolveForwardRequest hmac secret ToLower s request).
Proof.
  unfold resolveForwardRequest. eapply yields_bind; [apply yields_any|]. intros [e|[client key]] _; [by apply yields_ret|].
  eapply yields_bind; [apply yields_any|]. intros [] _. case_match; [by apply yields_ret|]. case_match eqn:Hr; [by apply yields_ret|].
  destruct p as [payload model]. eapply yields_bind; [apply yields_any|]. intros snap _. case_match; [|by apply yields_ret].
  eapply yields_bind; [apply yields_any|]. intros [] _. apply yields_ret. by eapply rewrite_clean.
Qed.

Lemma resolve_again_yields request resolved : clean (rs_payload resolved) ->
  yields (on_right (fun r => match r with Some (resolved, _) => ready resolved | None => True end))
    (resolve_again hmac secret s fuel request resolved).
Proof.
  intros Hc. unfold resolve_again. eapply yields_bind; [apply yields_any|]. intros reloaded _. case_match; [by apply yields_ret|].
  do 2 (eapply yields_bind; [apply yields_any|]; intros ? _). case_match; [by apply yields_ret|]. case_match. case_match; [|by apply yields_ret].
  eapply yields_bind; [by apply prepare_yields|]. intros [e|resolved'] Hr; [by apply yields_ret|].
  eapply yields_bind; [apply yields_any|]. intros [runtime held] _. case_match; [by apply yields_ret|].
  do 2 (eapply yields_bind; [apply yields_any|]; intros ? _). by apply yields_ret.
Qed.

Lemma attempts_yields n request resolved limit : ready resolved ->
  yields (on_right (fun '(_, resolved, _) => ready resolved)) (admission_attempts hmac secret s fuel n request resolved limit).
Proof.
  revert resolved limit. induction n as [|n IH]; intros resolved limit Hr; cbn [admission_attempts];
    (eapply yields_bind; [apply yields_any|]; intros [e|[client key]] _; [by apply yields_ret|]);
    do 3 (eapply yields_bind; [apply yields_any|]; intros ? _); [by apply yields_ret|].
  case_match; [by apply yields_ret|]. eapply yields_bind; [apply resolve_again_yields; by apply ready_clean|].
  intros [e|[[resolved' limit']|]] Hr'; [by apply yields_ret|by apply IH|by apply yields_ret].
Qed.

Lemma admission_yields request resolved runtime : ready resolved ->
  yields (on_right (fun '(resolved, _) => ready resolved)) (acquireForwardAdmission hmac secret s fuel request resolved runtime).
Proof.
  intros Hr. unfold acquireForwardAdmission. cbv zeta.
  assert (Hem : forall resolved limit, ready resolved -> yields (on_right (fun '(resolved, _) => ready resolved))
    (e ← emergency s (rs_client resolved) limit; ret (match e with inl e => inl e | inr a => inr (resolved, a) end) : G _)).
  { intros resolved' limit Hr'. eapply yields_bind; [apply yields_any|]. intros [e|a] _; by apply yields_ret. }
  case_match; [eapply yields_bind; [apply yields_any|]; intros ok _; case_match; by apply yields_ret|].
  eapply yields_bind; [apply yields_any|]. intros allowed _. case_match; [by apply yields_ret|].
  eapply yields_bind; [apply yields_any|]. intros up _. case_match; [by apply Hem|].
  eapply yields_bind; [by apply attempts_yields|]. intros [e|[[[decision err] resolved'] limit']] Hr'; [by apply yields_ret|].
  case_match; [case_match; [by apply yields_ret|by apply Hem]|]. case_match; [eapply yields_bind; [apply yields_any|]; intros ? _; by apply yields_ret|].
  eapply yields_bind; [apply yields_any|]. intros [] _. case_match; [|by intros env h l]. eapply yields_bind; [apply yields_any|]. intros [] _.
  by apply yields_ret.
Qed.

(** ** The selection of a target *)

(** The configuration [snap], at the instant [now], lets the owner of the key send to
    [backend] what is prepared for the pool. *)
Definition permits (raw : string) (pool : ModelPool) (snap : Snapshot) (now : Time) (backend : Backend) : Prop :=
  exists client key current,
    key_shaped raw = true /\ key_valid hmac secret raw snap now = Some (client, key) /\
    sn_PoolsByID snap !! mp_ID pool = Some current /\ mp_Enabled current = true /\
    mp_PublicModelName current = mp_PublicModelName pool /\ mp_UpstreamModelName current = mp_UpstreamModelName pool /\
    allowed snap (cl_ID client) (mp_ID pool) = true /\
    backend ∈ default [] (sn_BackendsByPool snap !! mp_ID pool) /\ be_Enabled backend = true /\ be_Draining backend = false.

Definition usable (rt : BackendRuntime) : bool := br_Healthy rt && br_MetricsFresh rt && br_CircuitAvailable rt.

(** The last configuration read permits the backend; it was usable and was acquired. *)
Definition authorized (raw : string) (pool : ModelPool) (h : History) (backend : Backend) : Prop :=
  exists h0 snap now mid rt at_,
    h = h0 ++ Answered CSnapshot snap :: Answered CNow now :: mid /\ Forall (fun e => reads_config e = false) mid /\
    permits raw pool snap now backend /\
    Answered (CBackendSnapshot (be_ID backend) at_) rt ∈ mid /\ usable rt = true /\ Answered (CAcquireBackend backend at_) true ∈ mid.

Abbreviation unread := (fun e : Event (Call Bytes) => reads_config e = false).

Lemma authorized_app raw pool h backend u : authorized raw pool h backend -> Forall unread u -> authorized raw pool (h ++ u) backend.
Proof.
  intros (h0 & snap & now & mid & rt & t & -> & Hm & Hp & Hrt & Hu & Ha) Hf. exists h0, snap, now, (mid ++ u), rt, t.
  split; [rewrite <- app_assoc; done|]. split; [by apply Forall_app|]. split_and!; [done|apply elem_of_app; by left|done|apply elem_of_app; by left].
Qed.

Lemma secret_unread backend : runs unread anywhere (upstreamSecret backend : G _).
Proof. unfold upstreamSecret. runs. Qed.

(** The candidates come from the backends, the eligible ones from a usable runtime. *)
Lemma candidates_spec backends t env h l :
  wp env (candidates_of backends t : G _) (fun o h' _ => exists u, h' = h ++ u /\ Forall unread u /\
    match o with
    | Returned cs => forall c, c ∈ cs -> ca_backend c ∈ backends /\
        (ca_eligible c = true -> exists rt, Answered (CBackendSnapshot (be_ID (ca_backend c)) t) rt ∈ u /\ usable rt = true)
    | _ => True
    end) h l.
Proof.
  revert h l. induction backends as [|b backends IH]; intros h l; cbn [candidates_of].
  { apply wp_ret. exists []. rewrite app_nil_r. split; [done|]. split; [constructor|]. by intros c ?%elem_of_nil. }
  apply wp_bind, wp_call_ok. intros rt. apply wp_bind. eapply wp_mono; [apply secret_unread|]. intros o h1 l1 [(u1 & -> & Hu1) _].
  destruct o as [[key ok]| |]; [|eexists (_ :: u1); rewrite <- app_assoc; split; [done|]; by repeat constructor..].
  apply wp_bind. eapply wp_mono; [apply IH|]. intros o h2 l2 (u2 & -> & Hu2 & Hcs).
  assert (Hu : Forall unread (Answered (CBackendSnapshot (be_ID b) t) rt :: u1 ++ u2)) by (constructor; [done|by apply Forall_app]).
  destruct o as [cs| |]; [|exists (Answered (CBackendSnapshot (be_ID b) t) rt :: u1 ++ u2); rewrite <- !app_assoc; by split_and!..].
  apply wp_ret. eexists. rewrite <- !app_assoc. split; [done|]. split; [exact Hu|]. intros c [->|Hc]%elem_of_cons.
  - split; [left|]. cbn. intros He. exists rt. split; [left|]. unfold usable. by apply andb_true_iff in He as [-> _].
  - destruct (Hcs c Hc) as [Hin He]. split; [by right|]. intros E. destruct (He E) as (rt' & Hrt & ?). exists rt'. split; [|done].
    right. apply elem_of_app. by right.
Qed.

Lemma take_target_unread sel candidate : runs unread anywhere (take_target s sel candidate : G _).
Proof. unfold take_target, upstreamSecret. runs. Qed.

Lemma take_target_yields sel candidate : yields (fun t => tg_Backend t = ca_backend candidate) (take_target s sel candidate : G _).
Proof.
  unfold take_target. do 2 (eapply yields_bind; [apply yields_any|]; intros ? _).
  eapply yields_bind; [apply yields_any|]. intros [key ok] _. do 4 (eapply yields_bind; [apply yields_any|]; intros ? _). by apply yields_ret.
Qed.

(** The checks of [selectTarget] on the configuration. *)
Lemma checks_permit sel snap now client key backend :
  key_shaped (sl_rawAPIKey sel) = true -> key_valid hmac secret (sl_rawAPIKey sel) snap now = Some (client, key) ->
  cl_ID client = cl_ID (sl_client sel) -> still_allowed sel snap client = true ->
  backend ∈ default [] (sn_BackendsByPool snap !! mp_ID (sl_pool sel)) -> be_Enabled backend = true -> be_Draining backend = false ->
  permits (sl_rawAPIKey sel) (sl_pool sel) snap now backend.
Proof.
  intros Hs Hk Hc Ha Hb He Hd. unfold still_allowed in Ha. destruct (sn_PoolsByID snap !! _) as [pool|] eqn:Hp; [|done].
  destruct (sn_Clients snap !! _); [|done]. b2p. exists client, key, pool. rewrite Hc. by split_and!.
Qed.

Lemma selectTarget_authorizes n sel excluded env h l :
  wp env (selectTarget hmac secret sha256_prefix s n sel excluded) (fun o h' _ =>
    match o with
    | Returned (inr t) => authorized (sl_rawAPIKey sel) (sl_pool sel) h' (tg_Backend t) /\ be_ID (tg_Backend t) ∉ excluded
    | _ => True
    end) h l.
Proof.
  revert excluded h l. induction n as [|n IH]; intros excluded h l; cbn [selectTarget]; [done|].
  apply wp_bind, wp_call_ok. intros snap. apply wp_bind. eapply wp_mono; [apply validate_spec|].
  intros [[e|[client key]]| |] h1 l1 H1; [by apply wp_ret| |done|done]. destruct H1 as (now & -> & Hshape & Hkey).
  destruct (negb (cl_ID client =? _)) eqn:Hcl; [by apply wp_ret|]. destruct (negb (still_allowed _ _ _)) eqn:Hal; [by apply wp_ret|].
  apply wp_bind, wp_call_ok. intros selectionTime. apply wp_bind. eapply wp_mono; [apply candidates_spec|].
  intros [cs| |] h2 l2; [|done|done]. intros (u & -> & Hu & Hcs). apply wp_bind, wp_call_ok. intros random. apply wp_bind. unfold or_panic.
  destruct (SelectWithSessionAffinity _ _ _ _ _ _) as [[[]|c]|] eqn:Hsel; [by do 2 apply wp_ret| |done]. apply wp_ret.
  apply wp_bind, wp_call_ok. intros []; cbn [negb].
  - apply wp_bind. eapply wp_mono; [exact (wp_and _ _ _ _ _ _ (take_target_unread sel c _ _ _) (take_target_yields sel c _ _ _))|].
    intros [t| |] h3 l3 [[(u3 & -> & Hu3) _] Ht]; [|done|done]. apply wp_ret. apply affinity_eligible in Hsel as [Hin Hel].
    rewrite <- !app_assoc, Ht. cbn [app]. unfold eligible_candidate in Hel. b2p. destruct (Hcs c Hin) as [Hb He].
    destruct He as (rt & Hrt & Husable); [done|]. split; [|done].
    exists h, snap, now, (Answered CNow selectionTime :: u ++ Answered CRandom random ::
      Answered (CAcquireBackend (ca_backend c) selectionTime) true :: u3), rt, selectionTime. split; [done|]. split_and!.
    + constructor; [done|]. apply Forall_app. split; [done|]. by repeat constructor.
    + by eapply checks_permit.
    + right. apply elem_of_app. by left.
    + done.
    + right. apply elem_of_app. right. right. left.
  - eapply wp_mono; [apply IH|]. intros [[e|t]| |] h3 l3; [done| |done|done]. intros [Ha Hn]. split; [done|]. set_solver.
Qed.

Lemma runs_anywhere {A : Type} P R (m : G A) : runs P R m -> runs P anywhere m.
Proof. intros Hm. by eapply runs_mono; [apply Hm|..]. Qed.

Lemma quietly_foreign {A : Type} (m : G A) : runs (fun e => quiet e = true) same m -> runs (fun e => foreign e = true) anywhere m.
Proof. intros Hm. eapply runs_mono; [apply Hm|apply quiet_foreign|done]. Qed.
#[local] Hint Resolve quietly_foreign : runs.

Lemma completeTarget_apart i outcome : runs (fun e => foreign e = true) anywhere (completeTarget s i outcome : G _).
Proof. unfold completeTarget. runs. Qed.

Lemma take_target_apart sel candidate : runs (fun e => foreign e = true) anywhere (take_target s sel candidate : G _).
Proof. unfold take_target. runs. Qed.
#[local] Hint Resolve completeTarget_apart take_target_apart : runs.

Lemma selectTarget_apart n sel excluded : runs (fun e => foreign e = true) anywhere (selectTarget hmac secret sha256_prefix s n sel excluded : G _).
Proof. revert excluded. induction n as [|n IH]; intros excluded; cbn [selectTarget]; runs. Qed.

(** The gateway is a caller the proxy can rely on. *)
#[local] Instance gateway_callbacks sel :
  Callbacks (fun t => completeTarget s (tg_index t) : InferenceOutcome -> G unit) (selectTarget hmac secret sha256_prefix s fuel sel)
    (fun h t => authorized (sl_rawAPIKey sel) (sl_pool sel) h (tg_Backend t)).
Proof.
  split.
  - intros t outcome. apply completeTarget_apart.
  - intros excluded. apply selectTarget_apart.
  - intros excluded env h l. apply selectTarget_authorizes.
  - intros h t e Ha He. apply authorized_app; [done|by constructor].
Qed.

(** ** The whole request *)

(** What is sent: to an authorized backend, under its address, a body that names the
    model of the pool and no priority. *)
Definition lawful (request : ForwardRequest Bytes) (h : History) (req : UpstreamRequest Bytes) : Prop :=
  exists pool backend, authorized (fr_APIKey request) pool h backend /\ up_Backend req = be_ID backend /\
    up_URL req = String.append (TrimRight "/"%char (be_BaseURL backend)) (fr_Path request) /\
    serves (up_Body req) (mp_UpstreamModelName pool).

(** When it is sent: before the client got anything, and at most once before, to
    another backend. *)
Definition timely (h : History) (req : UpstreamRequest Bytes) : Prop :=
  untouched h /\ (length (sends h) <= 1)%nat /\ forall r, r ∈ sends h -> up_Backend r <> up_Backend req.

(** What the result of the request says of the history. *)
Definition told (r : Result) (t : History) : Prop :=
  re_BytesSent r = Z.of_nat (length (written t)) /\
  (if re_ResponseStarted r
   then (exists req head dest, Answered (CDo req) (inr head) ∈ t /\ re_Status r = rh_StatusCode head /\
          heads t = [(rh_StatusCode head, CopyResponseHeaders range_headers dest (rh_Header head))]) /\
        (re_Err r = None -> re_Cancelled r = false -> written t = received t)
   else untouched t).

Definition conducted (request : ForwardRequest Bytes) (h : History) (o : Outcome unit) (h' : History) (l' : Lifecycle) : Prop :=
  exists t, h' = h ++ t /\ orderly t /\ sends_ok (fun h req => lawful request h req /\ timely h req) h t /\
    (o = Returned tt -> told (lf_result l') t).

Definition conducts (request : ForwardRequest Bytes) (m : G unit) : Prop :=
  forall env h l, untouched h -> sends h = [] -> wp env m (conducted request h) h l.

Lemma foreign_fresh (h u : History) : untouched h -> sends h = [] -> Forall (fun e => foreign e = true) u ->
  untouched (h ++ u) /\ sends (h ++ u) = [].
Proof.
  intros Hh Hs Hu. destruct (foreign_history u Hu) as (Fu & _ & _ & _ & Fn). split; [by apply Forall_app|].
  unfold sends in *. by rewrite omap_app, Hs, Fn.
Qed.

(** Foreign events before and after. *)
Lemma conducted_before request h u o h' l' : Forall (fun e => foreign e = true) u ->
  conducted request (h ++ u) o h' l' -> conducted request h o h' l'.
Proof.
  intros Hu (t & -> & Ho & Hg & Ht). destruct (foreign_history u Hu) as (Fu & Fh & Fw & Fr & Fn). exists (u ++ t).
  rewrite <- app_assoc. split; [done|]. unfold orderly, told, heads, written, received in *. rewrite !bind_app, Fh, Fw, Fr. cbn.
  split; [done|]. split; [apply sends_ok_app; split; [by apply sends_ok_none|done]|].
  intros E. destruct (Ht E) as [Hb Hs]. split; [done|]. destruct (re_ResponseStarted _); [|by apply Forall_app].
  destruct Hs as [(req & head & dest & Hin & ?) Hc]. split; [|done]. exists req, head, dest. split; [apply elem_of_app; by right|done].
Qed.

Lemma conducted_after request h u o h' l l' : Forall (fun e => foreign e = true) u -> lf_result l' = lf_result l ->
  conducted request h o h' l -> conducted request h o (h' ++ u) l'.
Proof.
  intros Hu El (t & -> & Ho & Hg & Ht). destruct (foreign_history u Hu) as (Fu & Fh & Fw & Fr & Fn). exists (t ++ u).
  rewrite <- app_assoc. split; [done|]. unfold orderly, told, heads, written, received in *. rewrite !bind_app, Fh, Fw, Fr, !app_nil_r, El.
  split; [done|]. split; [apply sends_ok_app; split; [done|by apply sends_ok_none]|].
  intros E. destruct (Ht E) as [Hb Hs]. split; [done|]. destruct (re_ResponseStarted _); [|by apply Forall_app].
  destruct Hs as [(req & head & dest & Hin & ?) Hc]. split; [|done]. exists req, head, dest. split; [apply elem_of_app; by left|done].
Qed.

Lemma conducted_stopped request h o h' l' l : conducted request h o h' l' -> conducted request h Panicking h' l /\ conducted request h Exhausted h' l.
Proof. intros (t & ? & ? & ? & _). split; exists t; by split_and!. Qed.

(** A request that ended before the exchange. *)
Lemma conducted_foreign request h u o l' : Forall (fun e => foreign e = true) u ->
  (o = Returned tt -> re_BytesSent (lf_result l') = 0 /\ re_ResponseStarted (lf_result l') = false) -> conducted request h o (h ++ u) l'.
Proof.
  intros Hu Ho. destruct (foreign_history u Hu) as (Fu & Fh & Fw & Fr & Fn). exists u. unfold orderly, told. rewrite Fh, Fw, Fr.
  split; [done|]. split; [split; [cbn; lia|done]|]. split; [by apply sends_ok_none|]. intros E. by destruct (Ho E) as [-> ->].
Qed.

Lemma conducts_bind {A : Type} request R Q (m : G A) (k : A -> G unit) :
  runs (fun e => foreign e = true) R m -> yields Q m -> (forall a, Q a -> conducts request (k a)) -> conducts request (m ≫= k).
Proof.
  intros Hm HQ Hk env h l Hh Hs. apply wp_bind. eapply wp_mono; [exact (wp_and _ _ _ _ _ _ (Hm env h l) (HQ env h l))|].
  intros o h1 l1 [[(u & -> & Hu) _] Ha]. destruct (foreign_fresh h u Hh Hs Hu) as [Hh' Hs'].
  destruct o as [a| |]; [|by apply conducted_foreign..]. eapply wp_mono; [by apply Hk|]. intros o h2 l2. by apply conducted_before.
Qed.

Lemma conducts_skip {A : Type} request R (m : G A) (k : A -> G unit) :
  runs (fun e => foreign e = true) R m -> (forall a, conducts request (k a)) -> conducts request (m ≫= k).
Proof. intros Hm Hk. eapply conducts_bind; [apply Hm|apply yields_any|]. intros a _. apply Hk. Qed.

Lemma conducts_return request r reservation e :
  re_BytesSent r = 0 -> re_ResponseStarted r = false -> conducts request (return_ r reservation e).
Proof.
  intros Hb Hs env h l _ _. apply wp_modify. rewrite <- (app_nil_r h) at 2. apply conducted_foreign; [constructor|]. by intros _.
Qed.

Lemma conducts_refuse request reservation e : conducts request (refuse reservation e).
Proof. by apply conducts_return. Qed.

Lemma conducts_defer request m f :
  conducts request m -> runs (fun e => foreign e = true) same (f false) -> runs (fun e => foreign e = true) anywhere (f true) ->
  conducts request (defer m f).
Proof.
  intros Hm Hf Ht env h l Hh Hs. apply wp_defer. eapply wp_mono; [by apply Hm|]. intros [[]| |] h1 l1 H1; [| |done].
  - eapply wp_mono; [apply Hf|]. intros o h2 l2 [(u & -> & Hu) [_ El]].
    pose proof (conducted_after _ _ _ _ _ _ _ Hu El H1). destruct o; [done|by eapply conducted_stopped..].
  - eapply wp_mono; [apply Ht|]. intros o h2 l2 [(u & -> & Hu) _].
    assert (H2 : conducted request h Panicking (h1 ++ u) l1) by (by eapply conducted_after).
    destruct o; by eapply conducted_stopped.
Qed.

Lemma conducts_defer_apart request m f : conducts request m -> (forall b, runs (fun e => foreign e = true) same (f b)) -> conducts request (defer m f).
Proof. intros Hm Hf. apply conducts_defer; [done|apply Hf|by eapply runs_anywhere]. Qed.

Lemma sends_ok_mono (Good Good' : History -> UpstreamRequest Bytes -> Prop) h t :
  (forall h req, Good h req -> Good' h req) -> sends_ok Good h t -> sends_ok Good' h t.
Proof. intros HG. revert h. induction t as [|e t IH]; intros h; cbn; [done|]. intros [He Ht]. split; [auto|by apply IH]. Qed.

Lemma to_target_conducts request resolved inflight reservation : ready resolved ->
  conducts request (forward_to_target hmac secret range_headers Decode ParseMediaType ToLower sha256_prefix s fuel request resolved
    inflight reservation).
Proof.
  intros Hready env h l Hh Hs. unfold forward_to_target. cbv zeta. set (sel := {| sl_client := _ |}).
  apply wp_bind. eapply wp_mono; [exact (wp_and _ _ _ _ _ _ (selectTarget_apart _ _ _ _ _ _) (selectTarget_authorizes _ _ _ _ _ _))|].
  intros o h1 l1 [[(u & -> & Hu) _] Ha]. destruct (foreign_fresh h u Hh Hs Hu) as [Hh' Hs'].
  destruct o as [[err|target]| |]; [|destruct Ha as [Ha _]|by apply conducted_foreign..].
  { eapply wp_mono; [by apply conducts_refuse|]. intros o h2 l2. by apply conducted_before. }
  set (rq := {| rq_Method := _ |}). apply wp_bind. eapply wp_mono; [apply (forward_exchanges _ _ _ _ _ _ _ (Callbacks0 := gateway_callbacks sel))|].
  - intros t. cbn. apply authorized_app; [done|by constructor].
  - done.
  - done.
  - intros o h2 l2 (t & -> & Ho & Hg & Hr).
    assert (Hg' : sends_ok (fun h req => lawful request h req /\ timely h req) (h ++ u) t).
    { eapply sends_ok_mono; [|exact Hg]. intros h' req ((target' & Ha' & ->) & Ht). split; [|done].
      exists (rs_pool resolved), (tg_Backend target'). by split_and!. }
    assert (Hend : forall o l', (o = Returned tt -> told (lf_result l') t) -> conducted request h o ((h ++ u) ++ t) l').
    { intros o' l' Ht. apply (conducted_before _ _ u); [done|]. exists t. by split_and!. }
    destruct o as [r| |]; [|by apply Hend..]. apply Hend. intros _. cbn. destruct Hr as (Hb & Hst & Hc). split; [done|].
    destruct (re_ResponseStarted r); [|done]. split; [done|]. intros E1 E2. by apply Hc.
Qed.

Lemma admitted_conducts request resolved runtime reservation : ready resolved ->
  conducts request (forward_admitted hmac secret range_headers Decode ParseMediaType ToLower sha256_prefix s fuel request resolved
    runtime reservation).
Proof.
  intros Hr. unfold forward_admitted. eapply conducts_bind; [apply admission_apart|by apply admission_yields|].
  intros [e|[resolved' admitted]] Hr'; [apply conducts_refuse|]. cbv zeta. apply conducts_defer_apart; [|intros b; solve [runs]].
  destruct (sv_observer s); [|by apply to_target_conducts]. apply (conducts_skip _ same); [runs|]. intros _.
  apply conducts_defer_apart; [by apply to_target_conducts|intros b; runs].
Qed.

Lemma reserved_conducts request resolved reservation : clean (rs_payload resolved) ->
  conducts request (forward_reserved hmac secret range_headers Decode ParseMediaType ToLower sha256_prefix s fuel request resolved
    reservation).
Proof.
  intros Hc. unfold forward_reserved. do 2 (apply (conducts_skip _ same); [runs|intros ?]). case_match; [apply conducts_refuse|].
  case_match. case_match; [|apply conducts_refuse]. apply (conducts_skip _ same); [runs|intros _].
  eapply conducts_bind; [apply quietly_apart, prepare_quietly|by apply prepare_yields|]. intros [e|resolved'] Hr; [apply conducts_refuse|].
  do 2 (apply (conducts_skip _ same); [runs|intros ?]). apply (conducts_skip _ same); [runs|]. intros [runtime held].
  apply (conducts_skip _ same); [runs|intros _]. destruct held as [e|release]; [apply conducts_refuse|].
  apply conducts_defer_apart; [by apply admitted_conducts|intros b; runs].
Qed.

Lemma body_conducts request :
  conducts request (forward_body hmac secret range_headers Decode ParseMediaType ToLower sha256_prefix s fuel request).
Proof.
  unfold forward_body. eapply conducts_bind; [apply quietly_apart, resolve_quietly|apply resolve_yields|].
  intros [e|resolved] Hc; [apply conducts_refuse|]. destruct (negb (sv_reserver s)); [by apply reserved_conducts|].
  apply (conducts_skip _ same); [runs|]. intros rv. destruct (negb _ || negb _).
  - do 2 (apply (conducts_skip _ same); [runs|intros ?]). case_match; [by apply conducts_return|apply conducts_refuse].
  - apply (conducts_skip _ same); [runs|]. intros _. by apply reserved_conducts.
Qed.

Lemma complete_all_apart n i : runs (fun e => foreign e = true) anywhere (complete_all s n i : G _).
Proof. revert i. induction n as [|n IH]; intros i; cbn [complete_all]; runs. Qed.
#[local] Hint Resolve complete_all_apart : runs.

Lemma forward_conducts request :
  conducts request (Forward hmac secret range_headers Decode ParseMediaType ToLower sha256_prefix s fuel request).
Proof.
  unfold Forward. apply (conducts_skip _ anywhere); [runs|]. intros started. apply (conducts_skip _ anywhere); [runs|]. intros _.
  apply conducts_defer; [|cbn; runs|unfold rollbackOnPanic; cbn [negb]; runs].
  apply conducts_defer_apart; [apply body_conducts|intros b; runs].
Qed.

(** C1. Nothing is sent upstream without authorization.  In every run of [Forward],
    whatever the environment answers and even if it panics: when a request is sent to
    a backend, the configuration that was read last, at the instant at which the key
    was then checked, knows the key as valid and unexpired, its owner as enabled and
    allowed to use an enabled pool, and the backend as an enabled, non-draining one of
    this pool; the backend was healthy with fresh metrics and an available circuit and
    was acquired; and the body names the upstream model of the pool and no priority. *)
Theorem forward_authorized request env l o h l' :
  Forward hmac secret range_headers Decode ParseMediaType ToLower sha256_prefix s fuel request env [] l = (o, h, l') ->
  forall h1 e h2 req, h = h1 ++ e :: h2 -> sent e = Some req -> lawful request h1 req.
Proof.
  intros E h1 e h2 req Hh He. pose proof (forward_conducts request env [] l ltac:(constructor) eq_refl) as H0. unfold wp in H0. rewrite E in H0.
  destruct H0 as (t & -> & _ & Hg & _). eapply (sends_ok_elim _ [] t) in Hg as [Hl _]; [exact Hl|exact Hh|exact He].
Qed.

(** C2. The exchange with the client is faithful and retries are safe.  In every run of
    [Forward] at most one response head is written, and the bytes written are a prefix
    of those read from the backend.  A request is sent at most twice, the second time
    to another backend, and only before anything was written.  When [Forward] returns,
    its result says how many bytes were written and whether a head was, the head is
    that of a backend's answer with its status, and without an error the client has
    everything that was read. *)
Theorem forward_exchange request env l o h l' :
  Forward hmac secret range_headers Decode ParseMediaType ToLower sha256_prefix s fuel request env [] l = (o, h, l') ->
  (length (heads h) <= 1)%nat /\ written h `prefix_of` received h /\
  (forall h1 e h2 req, h = h1 ++ e :: h2 -> sent e = Some req -> timely h1 req) /\
  (o = Returned tt -> told (lf_result l') h).
Proof.
  intros E. pose proof (forward_conducts request env [] l ltac:(constructor) eq_refl) as H0. unfold wp in H0. rewrite E in H0.
  destruct H0 as (t & -> & [Hh Hp] & Hg & Ht). split_and!; [done|done| |done]. intros h1 e h2 req Hs He.
  eapply (sends_ok_elim _ [] t) in Hg as [_ Hl]; [exact Hl|exact Hs|exact He].
Qed.

End Authorization.

(** ** Witnesses *)

Lemma forward_authorized_witness :
  let '(_, h, _) := s_forward s_env in
  length (sends h) = 2%nat /\ forall h1 e h2 req, h = h1 ++ e :: h2 -> sent e = Some req -> lawful s_hmac tt s_request h1 req.
Proof.
  assert (H : match s_forward s_env with (_, h, _) => length (sends h) = 2%nat end) by (vm_compute; reflexivity).
  destruct (s_forward s_env) as [[o h] l] eqn:E. split; [exact H|]. unfold s_forward in E. intros h1 e h2 req Hh He.
  exact (forward_authorized _ _ _ _ _ _ _ _ _ _ _ _ _ _ _ E h1 e h2 req Hh He).
Defined.

Lemma forward_exchange_witness :
  let '(o, h, l) := s_forward s_env in
  o = Returned tt /\ written h = ["o"%char; "k"%char] /\ (length (heads h) <= 1)%nat /\ told map_to_list (lf_result l) h.
Proof.
  assert (H : match s_forward s_env with (Returned tt, h, _) => written h = ["o"%char; "k"%char] | _ => False end)
    by (vm_compute; reflexivity).
  destruct (s_forward s_env) as [[o h] l] eqn:E. destruct o as [[]| |]; [|contradiction|contradiction].
  unfold s_forward in E. destruct (forward_exchange _ _ _ _ _ _ _ _ _ _ _ _ _ _ _ E) as (H1 & _ & _ & H4).
  split; [reflexivity|]. split; [exact H|]. split; [exact H1|apply H4; reflexivity].
Defined.
