(* ===== verification/Balance.v ===== *)
(** Everything a forwarded request acquires is released.

    [held r h] is what a history holds of a resource [r]: a place of a pool, a slot of
    the limiter or of the emergency admission, a lease of the coordinator, a backend.
    [lost r h] are the slots of the emergency admission that were granted just before its
    observer panicked.  [forward_balanced] shows that [Forward] gives everything back but
    those, whatever the environment answers and also when it panics. *)

From Stdlib Require Import Ascii.
From S2P Require Import Prelude Domain Coordination Admission Registry Routing GoStrings Payload UsageInspector Effects Calls Proxy Service Traces Scenario.

Inductive Resource :=
| RPool (pool : Z)
| RLimiter (client : Z)
| REmergency (class : PriorityClass) (client : Z)
| RLease (lease : LeaseIdentity)
| RBackend (backend : Backend).

#[global] Instance Resource_eq_dec : EqDecision Resource.
Proof. solve_decision. Defined.

(** One unit of [r] when [b]. *)
Definition one (b : bool) (r' r : Resource) : Z := if b && bool_decide (r = r') then 1 else 0.

(** What an answered call acquires (positive) or releases (negative). *)
Definition call_effect {Bytes A : Type} (c : Call Bytes A) : A -> Resource -> Z :=
  match c in Call _ A return A -> Resource -> Z with
  | CAcquirePool pool _ => fun ok => one ok (RPool pool)
  | CReleasePool pool => fun _ r => - one true (RPool pool) r
  | CLimiterAcquire client _ => fun ok => one ok (RLimiter client)
  | CLimiterRelease client => fun _ r => - one true (RLimiter client) r
  | CEmergencyAcquire class client _ => fun ok => one ok (REmergency class client)
  | CEmergencyRelease class client => fun _ r => - one true (REmergency class client) r
  | CAdmissionAcquire _ => fun '(d, err) r =>
      match err, ad_Lease d with None, Some lease => one (isAdmitted d) (RLease lease) r | _, _ => 0 end
  | CHandleComplete lease _ => fun _ r => - one true (RLease lease) r
  | CAdmissionComplete lease _ => fun _ r => - one true (RLease lease) r
  | CAcquireBackend backend _ => fun ok => one ok (RBackend backend)
  | CCompleteBackend backend _ => fun _ r => - one true (RBackend backend) r
  | _ => fun _ _ => 0
  end.

Definition event_effect {Bytes : Type} (e : Event (Call Bytes)) (r : Resource) : Z :=
  match e with Answered c a => call_effect c a r | Panicked _ => 0 end.

Fixpoint held {Bytes : Type} (r : Resource) (h : list (Event (Call Bytes))) : Z :=
  match h with [] => 0 | e :: h => event_effect e r + held r h end.

(** The emergency observer panicked. *)
Definition observer_panic {Bytes : Type} (e : Event (Call Bytes)) : bool :=
  match e with Panicked (CEmergencyObserved _ _) => true | _ => false end.

(** The emergency slot that an event grants. *)
Definition slot_effect {Bytes : Type} (e : Event (Call Bytes)) (r : Resource) : Z :=
  match e with Answered (CEmergencyAcquire _ _ _) _ => event_effect e r | _ => 0 end.

Fixpoint lost {Bytes : Type} (r : Resource) (h : list (Event (Call Bytes))) : Z :=
  match h with
  | e :: h => match h with e' :: _ => if observer_panic e' then slot_effect e r else 0 | [] => 0 end + lost r h
  | [] => 0
  end.

Lemma lost_snoc {Bytes : Type} r (h : list (Event (Call Bytes))) e :
  lost r (h ++ [e]) = lost r h + if observer_panic e then from_option (fun e' => slot_effect e' r) 0 (last h) else 0.
Proof.
  induction h as [|e1 h IH]; cbn [app lost]; [by case_match|]. destruct h as [|e2 h]; [cbn; destruct (observer_panic e); lia|].
  cbn [app] in *. rewrite IH. change (last (e1 :: e2 :: h)) with (last (e2 :: h)). lia.
Qed.

Lemma held_app {Bytes : Type} r (h h' : list (Event (Call Bytes))) : held r (h ++ h') = held r h + held r h'.
Proof. induction h as [|e h IH]; cbn; [done|]. rewrite IH. lia. Qed.

Lemma held_snoc {Bytes : Type} r (h : list (Event (Call Bytes))) e : held r (h ++ [e]) = held r h + event_effect e r.
Proof. rewrite held_app. cbn. lia. Qed.

(** Targets whose completion has not run. *)
Definition pending (targets : list TargetState) (r : Resource) : Z :=
  count_list (fun t => ts_done t = false /\ RBackend (ts_backend t) = r) targets.

Section Balance.
Context {Bytes Secret : Type} `{!Json Bytes}.
Context (hmac : Secret -> string -> N) (secret : Secret)
  (range_headers : Header -> list (string * list string)) (Decode : list ascii -> DecodeResult)
  (ParseMediaType : string -> option string) (ToLower : string -> string) (sha256_prefix : list Z -> Z)
  (s : Service) (fuel : nat).

Abbreviation G := (M (Call Bytes) Lifecycle).
Abbreviation History := (list (Event (Call Bytes))).

(** ** Programs that hold nothing more afterwards *)

Definition effectless (e : Event (Call Bytes)) : Prop := (forall r, event_effect e r = 0) /\ observer_panic e = false.
Definition same_targets (l l' : Lifecycle) : Prop := lf_targets l' = lf_targets l.
Abbreviation neutral := (runs effectless same_targets).

#[local] Instance same_targets_preorder : PreOrder same_targets.
Proof. split; [done|]. intros l1 l2 l3. unfold same_targets. congruence. Qed.

Lemma quiet_effectless (e : Event (Call Bytes)) : quiet e = true -> effectless e.
Proof. destruct e as [A c a|A c]; destruct c; done. Qed.

Lemma quietly_neutral {A : Type} (m : G A) : runs (fun e => quiet e = true) same m -> neutral m.
Proof. intros Hm. eapply runs_mono; [apply Hm|intros e He; by apply quiet_effectless|by intros l l' [? _]]. Qed.
#[local] Hint Resolve quietly_neutral : runs.

(** The proxy's copy of a response. *)
Lemma commit_neutral c : neutral (commit range_headers c).
Proof. unfold commit. runs. Qed.
#[local] Hint Resolve commit_neutral : runs.

Lemma write_neutral data proven c : neutral (write range_headers Decode data proven c).
Proof. unfold write. runs. Qed.

Lemma cancelled_neutral : neutral cancelled.
Proof. unfold cancelled. runs. Qed.
#[local] Hint Resolve write_neutral cancelled_neutral : runs.

Lemma read_failed_neutral e first n proven c : neutral (read_failed e first n proven c).
Proof. unfold read_failed. runs. Qed.

Lemma inspection_neutral c : neutral (completeUsageInspection Decode c).
Proof. unfold completeUsageInspection. runs. Qed.
#[local] Hint Resolve read_failed_neutral inspection_neutral : runs.

Lemma copy_neutral n first c : neutral (copy range_headers Decode n first c).
Proof. revert first c. induction n as [|n IH]; intros first c; cbn [copy]; runs. Qed.
#[local] Hint Resolve copy_neutral : runs.

Lemma forwardOnce_neutral request target started :
  neutral (forwardOnce range_headers Decode ParseMediaType ToLower fuel request target started).
Proof. unfold forwardOnce. runs. Qed.

(** ** Programs with a known cost

    [level] is what is held beyond the registered targets and the lost slots.  [costs m p d]:
    when [m] panics it has acquired [p] of it, and when it returns [a] it has acquired
    [d a]. *)
Definition level (h : History) (l : Lifecycle) (r : Resource) : Z := held r h - lost r h - pending (lf_targets l) r.

Definition charged {A : Type} (h : History) (l : Lifecycle) (p : Resource -> Z) (d : A -> Resource -> Z)
    (o : Outcome A) (h' : History) (l' : Lifecycle) : Prop :=
  match o with
  | Exhausted => True
  | Returned a => forall r, level h' l' r = level h l r + d a r
  | Panicking => forall r, level h' l' r = level h l r + p r
  end.

Definition costs {A : Type} (m : G A) (p : Resource -> Z) (d : A -> Resource -> Z) : Prop :=
  forall env h l, wp env m (charged h l p d) h l.

Definition free : Resource -> Z := fun _ => 0.

Lemma level_snoc h l e r : observer_panic e = false -> level (h ++ [e]) l r = level h l r + event_effect e r.
Proof. intros He. unfold level. rewrite held_snoc, lost_snoc, He. lia. Qed.

Lemma level_effectless h l t r : Forall effectless t -> level (h ++ t) l r = level h l r.
Proof.
  intros Ht. revert h. induction Ht as [|e t [He Hp] _ IH]; intros h; [by rewrite app_nil_r|].
  rewrite cons_middle, app_assoc, IH, level_snoc, He by done. lia.
Qed.

Lemma neutral_costs {A : Type} (m : G A) : neutral m -> costs m free (fun _ => free).
Proof.
  intros Hm env h l. eapply wp_mono; [apply Hm|]. intros o h' l' [(t & -> & Ht) El]. unfold charged, free.
  assert (Hl : forall r, level (h ++ t) l' r = level h l r) by (intros r; rewrite level_effectless by done; unfold level; by rewrite El).
  destruct o; [| |done]; intros r; rewrite Hl; lia.
Qed.

Lemma costs_conseq {A : Type} (m : G A) p d p' d' :
  costs m p d -> (forall r, p' r = p r) -> (forall a r, d' a r = d a r) -> costs m p' d'.
Proof.
  intros Hm Hp Hd env h l. eapply wp_mono; [apply Hm|]. intros [a| |] h' l' H; [| |done]; intros r; rewrite H, ?Hp, ?Hd; done.
Qed.

Lemma costs_ret {A : Type} (a : A) p d : (forall r, d a r = 0) -> costs (ret a) p d.
Proof. intros Hd env h l. apply wp_ret. intros r. rewrite Hd. lia. Qed.

Lemma costs_call_ok {A : Type} (c : Call Bytes A) p : costs (call_ok c) p (call_effect c).
Proof. intros env h l. apply wp_call_ok. intros a r. by rewrite level_snoc. Qed.

Lemma costs_modify f p d : (forall l, lf_targets (f l) = lf_targets l) -> (forall r, d tt r = 0) -> costs (modify f) p d.
Proof. intros Hf Hd env h l. apply wp_modify. intros r. unfold level. rewrite Hd, Hf. lia. Qed.

Lemma costs_bind {A B : Type} (m : G A) (k : A -> G B) p d1 d2 :
  costs m p d1 -> (forall a, costs (k a) (fun r => p r - d1 a r) (fun b r => d2 b r - d1 a r)) -> costs (m ≫= k) p d2.
Proof.
  intros Hm Hk env h l. apply wp_bind. eapply wp_mono; [apply Hm|]. intros [a| |] h1 l1; [|done|done].
  intros H1. eapply wp_mono; [apply Hk|]. intros [b| |] h2 l2 H2; [| |done]; intros r; rewrite H2, H1; lia.
Qed.

(** A deferred function that does not panic adds its cost. *)
Lemma costs_defer {A : Type} (m : G A) f p d e :
  costs m p d -> (forall b q, costs (f b) q (fun _ => e)) ->
  costs (defer m f) (fun r => p r + e r) (fun a r => d a r + e r).
Proof.
  intros Hm Hf env h l. apply wp_defer. eapply wp_mono; [apply Hm|]. intros [a| |] h1 l1 H1; [| |done].
  - eapply wp_mono; [apply (Hf _ (fun r => p r + e r - d a r))|]. intros [u| |] h2 l2 H2; [| |done]; intros r; rewrite H2, H1; lia.
  - eapply wp_mono; [apply (Hf _ e)|]. intros [u| |] h2 l2 H2; [| |done]; intros r; rewrite H2, H1; lia.
Qed.

(** One that may panic and costs nothing, after a program with one cost. *)
Lemma free_defer {A : Type} (m : G A) f e :
  costs m e (fun _ => e) -> (forall b, costs (f b) free (fun _ => free)) -> costs (defer m f) e (fun _ => e).
Proof.
  intros Hm Hf env h l. apply wp_defer. eapply wp_mono; [apply Hm|]. intros [a| |] h1 l1 H1; [| |done];
    (eapply wp_mono; [apply Hf|]); intros [u| |] h2 l2 H2; try done; intros r; rewrite H2, H1; unfold free; lia.
Qed.

Lemma free_recovered m : costs m free (fun _ => free) -> costs (recovered m) free (fun _ => free).
Proof. intros Hm env h l. apply wp_recovered. eapply wp_mono; [apply Hm|]. by intros [| |] h1 l1. Qed.

Lemma free_bind {A B : Type} (m : G A) (k : A -> G B) :
  costs m free (fun _ => free) -> (forall a, costs (k a) free (fun _ => free)) -> costs (m ≫= k) free (fun _ => free).
Proof. intros Hm Hk. eapply costs_bind; [apply Hm|]. intros a. eapply costs_conseq; [apply Hk|done|done]. Qed.

(** Decomposes a program, charging every call its effect. *)
Ltac costs_step :=
  match goal with
  | |- costs (_ ≫= _) _ _ =>
    first [ eapply costs_bind; [apply costs_call_ok|intros ?]
          | eapply (costs_bind _ _ _ (fun _ => free)); [apply costs_ret; intros ?; reflexivity|intros ?]
          | eapply (costs_bind _ _ _ (fun _ => free)); [eapply costs_modify; [intros ?; reflexivity|intros ?; reflexivity]|intros ?]
          | eapply costs_bind; [apply neutral_costs; solve [runs]|intros ?] ]
  | |- costs (ret _) _ _ => apply costs_ret; intros ?
  | |- costs (call_ok _) _ _ => eapply costs_conseq; [apply costs_call_ok|intros ?; reflexivity|intros ? ?]
  | |- costs (if ?b then _ else _) _ _ => destruct b eqn:?
  | |- costs (match ?x with _ => _ end) _ _ => destruct x eqn:?
  end.
(** The arithmetic of what was acquired and released. *)
Ltac settle :=
  repeat match goal with H : negb ?b = _ |- _ => is_var b; destruct b; try discriminate H; clear H end;
  cbn; unfold free, one; cbn;
  repeat match goal with |- context [bool_decide ?P] => destruct (bool_decide P) end; try lia.
Ltac costs_leaf H := eapply costs_conseq; [apply H|intros ?|intros ? ?].
Ltac costs_auto := repeat (cbv zeta; costs_step); settle.

Lemma acquirePool_costs n client original :
  costs (acquirePool s n client original : G _) free
    (fun a r => match a.2 with inr (Some pool) => one true (RPool pool) r | _ => 0 end).
Proof.
  induction n as [|n IH]; cbn [acquirePool]; [by intros env h l|]. costs_auto. costs_leaf IH; settle.
Qed.

Lemma release_pool_costs held p :
  costs (release_pool held : G _) p (fun _ r => match held with Some pool => - one true (RPool pool) r | None => 0 end).
Proof. unfold release_pool. costs_auto. Qed.

(** ** Admission *)

Definition resource_of (a : Admittance) : Resource :=
  match a with
  | ByLimiter client => RLimiter client
  | ByEmergency class client => REmergency class client
  | ByLease lease _ => RLease lease
  end.

(** What an admission result holds. *)
Definition admitted_cost {A : Type} (a : APIError + A) (admitted : A -> Admittance) (r : Resource) : Z :=
  match a with inl _ => 0 | inr x => one true (resource_of (admitted x)) r end.

Lemma emergency_costs client limit :
  costs (emergency s client limit : G _) free (fun a => admitted_cost a (fun x => x)).
Proof.
  unfold emergency. intros env h l. apply wp_bind, wp_call_ok. intros ok. set (slot := one ok (REmergency (cl_PriorityClass client) (cl_ID client))).
  set (e := Answered (CEmergencyAcquire _ _ _) ok).
  assert (Hret : forall h0, (forall r, level h0 l r = level h l r + slot r) -> wp env (if negb ok then ret (inl (gatewayUnavailable (sv_retryAfter s)))
    else ret (inr (ByEmergency (cl_PriorityClass client) (cl_ID client))) : G (APIError + Admittance)) (charged h l free (fun a => admitted_cost a (fun x => x))) h0 l).
  { intros h0 H0. unfold slot in H0. destruct ok; cbn [negb]; apply wp_ret; intros r; rewrite H0; settle. }
  assert (He : forall r, level (h ++ [e]) l r = level h l r + slot r) by (intros r; by rewrite level_snoc). apply wp_bind.
  destruct (sv_emergencyObserver s); [|by apply wp_ret, Hret]. apply wp_call; [intros []|].
  - apply Hret. intros r. rewrite level_snoc by done. cbn. rewrite He. lia.
  - intros r. specialize (He r). unfold level in *. rewrite (held_snoc _ (h ++ [e])), (lost_snoc _ (h ++ [e])), last_snoc. cbn. unfold free. fold slot. lia.
Qed.

(** The lease a decision brings. *)
Definition decision_cost (d : AdmissionDecision * option Error) (r : Resource) : Z :=
  match d.2, ad_Lease d.1 with None, Some lease => one (isAdmitted d.1) (RLease lease) r | _, _ => 0 end.

Lemma costs_call {A : Type} (c : Call Bytes A) : observer_panic (Panicked c) = false -> costs (call c) free (call_effect c).
Proof. intros Hc env h l. apply wp_call; [intros a|]; intros r; by rewrite level_snoc. Qed.

Lemma admit_current_costs raw req current : costs (admit_current hmac secret raw req current) free decision_cost.
Proof.
  unfold admit_current. cbv zeta. eapply costs_bind; [apply neutral_costs; runs|]. intros auth.
  repeat first [costs_step | costs_leaf (costs_call (CAdmissionAcquire req) eq_refl)]; settle.
  all: match goal with a : AdmissionDecision * option Error |- _ => destruct a as [d [e|]]; cbn; destruct (ad_Lease d); settle end.
Qed.

Lemma configured_costs raw req : costs (acquireConfiguredAdmission hmac secret s raw req) free decision_cost.
Proof.
  unfold acquireConfiguredAdmission. destruct (sv_guarded s); (eapply costs_bind; [apply costs_call_ok|]; intros current).
  - eapply costs_conseq; [apply (costs_defer _ _ free decision_cost free); [apply admit_current_costs|]|settle|intros d r; settle].
    intros b q. costs_leaf (costs_call_ok CUnlockSnapshot q); settle.
  - costs_leaf admit_current_costs; settle.
Qed.

Lemma resolve_again_costs request resolved : costs (resolve_again hmac secret s fuel request resolved) free (fun _ => free).
Proof.
  unfold resolve_again. do 2 costs_step; [costs_auto|]. do 2 costs_step. costs_step; [costs_auto|]. costs_step. costs_step; [|costs_auto].
  costs_step. costs_step; [costs_auto|]. eapply costs_bind; [apply acquirePool_costs|]. intros [runtime held0]. cbn [snd].
  destruct held0 as [e|release]; [costs_auto|]. eapply costs_bind; [apply release_pool_costs|]. intros u.
  costs_auto; destruct release; settle.
Qed.

Lemma attempts_costs n request resolved limit :
  costs (admission_attempts hmac secret s fuel n request resolved limit) free
    (fun a r => match a with inr (d, _, _) => decision_cost d r | inl _ => 0 end).
Proof.
  revert resolved limit. induction n as [|n IH]; intros resolved limit; cbn [admission_attempts].
  - do 2 costs_step; [costs_auto|]. destruct p as [client key]. do 2 costs_step.
    eapply costs_bind; [apply configured_costs|]. intros d. costs_auto.
  - do 2 costs_step; [costs_auto|]. destruct p as [client key]. do 2 costs_step.
    eapply costs_bind; [apply configured_costs|]. intros d. costs_step; [costs_auto|].
    assert (Hd : forall r, decision_cost d r = 0).
    { intros r. unfold decision_cost, isAdmitted. b2p. destruct d as [d [e|]]; cbn in *; [done|]. destruct (ad_Lease d); [|done].
      by rewrite bool_decide_eq_false_2 by congruence. }
    eapply (costs_bind _ _ _ (fun _ => free)); [costs_leaf resolve_again_costs; rewrite ?Hd; settle|]. intros again.
    destruct again as [e|[[resolved' limit']|]].
    + apply costs_ret. intros r. rewrite Hd. settle.
    + costs_leaf IH; rewrite ?Hd; settle.
    + apply costs_ret. intros r. rewrite Hd. unfold decision_cost. cbn. settle.
Qed.

(** What [acquireForwardAdmission] holds when it succeeds. *)
Lemma admission_costs request resolved runtime :
  costs (acquireForwardAdmission hmac secret s fuel request resolved runtime) free (fun a => admitted_cost a snd).
Proof.
  unfold acquireForwardAdmission. cbv zeta. costs_step; [costs_auto|]. do 2 costs_step; [costs_auto|].
  assert (Hem : forall resolved limit, costs (e ← emergency s (rs_client resolved) limit;
    ret (match e with inl e => inl e | inr a => inr (resolved, a) end) : G (APIError + resolvedForwardRequest Bytes * Admittance))
    free (fun a => admitted_cost a snd)).
  { intros resolved' limit'. eapply costs_bind; [apply emergency_costs|]. intros [e|adm]; costs_auto. }
  do 2 costs_step; [costs_leaf Hem; settle|].
  eapply costs_bind; [eapply costs_conseq; [apply attempts_costs|intros r; settle|intros ? ?; reflexivity]|]. intros [e|[[[decision err] resolved'] limit']]; [costs_auto|].
  assert (Hnone : isAdmitted decision = false \/ err <> None -> forall r, decision_cost (decision, err) r = 0).
  { intros Hd r. unfold decision_cost. cbn. destruct err, (ad_Lease decision); try done. destruct Hd as [Hd|[]]; [|done]. by rewrite Hd. }
  destruct (bool_decide (is_Some err) || _) eqn:Herr; [|costs_step].
  - assert (Hd : forall r, decision_cost (decision, err) r = 0).
    { apply Hnone. apply orb_true_iff in Herr as [H|H]; b2p; [right; by destruct H as [? ->]|left].
      unfold isAdmitted. destruct (ad_Lease decision); [|done]. apply bool_decide_eq_false_2. congruence. }
    costs_step; [apply costs_ret; intros r; rewrite Hd; settle|costs_leaf Hem; rewrite Hd; settle].
  - assert (Hd : forall r, decision_cost (decision, err) r = 0) by (apply Hnone; left; by apply negb_true_iff).
    costs_step. apply costs_ret. intros r. rewrite Hd. case_match; settle.
  - costs_step. apply negb_false_iff in Heqb2. unfold decision_cost, isAdmitted in *. cbn [fst snd] in *.
    destruct (ad_Lease decision) as [lease|]; [|done]. destruct err; [done|]. rewrite Heqb2. destruct (sv_leases s); costs_auto.
Qed.

Lemma releaseAdmission_costs resolved admitted usage p :
  costs (releaseAdmission s resolved admitted usage : G _) p (fun _ r => - one true (resource_of admitted) r).
Proof.
  unfold releaseAdmission. destruct admitted; [costs_auto|costs_auto|].
  destruct (sv_policyObserver s); [|destruct tracked; costs_auto].
  eapply (costs_bind _ _ _ (fun _ => free)); [costs_auto|]. intros u. destruct tracked; costs_auto.
Qed.

(** ** Targets *)

Lemma pending_snoc targets t r : ts_done t = false -> pending (targets ++ [t]) r = pending targets r + one true (RBackend (ts_backend t)) r.
Proof.
  intros Ht. unfold pending, one. rewrite count_list_app, count_list_cons, count_list_nil. cbn [andb].
  case_decide as H1; case_bool_decide as H2; try lia; [destruct H1 as [_ H1]|]; exfalso; intuition congruence.
Qed.

Lemma pending_done targets i t r : targets !! i = Some t -> ts_done t = false ->
  pending (<[i := {| t with ts_done := true |}]> targets) r = pending targets r - one true (RBackend (ts_backend t)) r.
Proof.
  intros Hi Ht. unfold pending, one. rewrite (count_list_insert _ _ _ t) by done. cbn [andb ts_done].
  case_decide as H1; case_decide as H2; case_bool_decide as H3; try lia; exfalso; intuition congruence.
Qed.

(** A state that raises the level by [e]. *)
Lemma costs_put {B : Type} l' (k : G B) env h l e p d :
  (forall r, pending (lf_targets l') r = pending (lf_targets l) r - e r) ->
  costs k (fun r => p r - e r) (fun b r => d b r - e r) -> wp env (put l';; k) (charged h l p d) h l.
Proof.
  intros Hp Hk. apply wp_bind, wp_put. eapply wp_mono; [apply Hk|]. intros o h2 l2 H. unfold charged, level in *.
  destruct o; [| |done]; intros r; specialize (H r); specialize (Hp r); lia.
Qed.

Lemma completeTarget_free i outcome : costs (completeTarget s i outcome : G _) free (fun _ => free).
Proof.
  intros env h l. unfold completeTarget. apply wp_bind, wp_get. destruct (lf_targets l !! i) as [t|] eqn:Hi; [|by apply costs_ret].
  destruct (ts_done t) eqn:Ht; [by apply costs_ret|].
  apply (costs_put _ _ _ _ _ (one true (RBackend (ts_backend t)))); [intros r; by apply pending_done|].
  apply free_defer; [costs_leaf (costs_call_ok (CCompleteBackend (ts_backend t) outcome)); reflexivity|].
  intros b. apply neutral_costs. runs.
Qed.

Lemma take_target_costs sel candidate :
  costs (take_target s sel candidate : G _) (fun r => - one true (RBackend (ca_backend candidate)) r)
    (fun _ r => - one true (RBackend (ca_backend candidate)) r).
Proof.
  intros env h l. unfold take_target. apply wp_bind, wp_get.
  apply (costs_put _ _ _ _ _ (fun r => - one true (RBackend (ca_backend candidate)) r)).
  - intros r. cbn [lf_targets]. rewrite pending_snoc by done. cbn. lia.
  - eapply costs_conseq; [apply neutral_costs; runs|intros r|intros ? r]; unfold free; lia.
Qed.

Lemma selectTarget_free n sel excluded : costs (selectTarget hmac secret sha256_prefix s n sel excluded) free (fun _ => free).
Proof.
  revert excluded. induction n as [|n IH]; intros excluded; cbn [selectTarget]; [by intros env h l|].
  apply free_bind; [apply neutral_costs; runs|intros current].
  apply free_bind; [apply neutral_costs; runs|intros auth].
  destruct auth as [e|[client key]]; [by apply costs_ret|]. do 2 (case_match; [by apply costs_ret|]).
  do 4 (apply free_bind; [apply neutral_costs; runs|intros ?]). case_match; [case_match; by apply costs_ret|].
  eapply costs_bind; [apply costs_call_ok|]. intros [].
  - cbn [negb]. eapply (costs_bind _ _ _ (fun _ r => - one true (RBackend (ca_backend c)) r)); [costs_leaf take_target_costs; settle|]. intros target. apply costs_ret. settle.
  - costs_leaf IH; settle.
Qed.

(** ** The whole request costs nothing *)

Abbreviation proxy_complete := (fun t => completeTarget s (tg_index t) : InferenceOutcome -> G unit).
Abbreviation proxy_select sel := (selectTarget hmac secret sha256_prefix s fuel sel : gset Z -> G (RequestError + Target)).

Lemma costs_get p : costs (get : G _) p (fun _ => free).
Proof. intros env h l. apply wp_get. intros r. unfold free. lia. Qed.

Lemma attempt_free request target started :
  costs (forwardAttempt range_headers Decode ParseMediaType ToLower proxy_complete fuel request target started) free (fun _ => free).
Proof.
  unfold forwardAttempt. apply free_bind.
  - apply free_defer; [apply neutral_costs, forwardOnce_neutral|]. intros []; [apply free_recovered, completeTarget_free|by apply costs_ret].
  - intros [[result retryable] outcome]. apply free_bind; [apply completeTarget_free|]. intros _. by apply costs_ret.
Qed.

Lemma attempts_free n sel request target started excluded retries :
  costs (attempt_loop range_headers Decode ParseMediaType ToLower proxy_complete (proxy_select sel) fuel n request target started excluded
    retries) free (fun _ => free).
Proof.
  revert target excluded retries. induction n as [|n IH]; intros target excluded retries; cbn [attempt_loop];
    (apply free_bind; [apply attempt_free|]; intros [result retryable]); [by apply costs_ret|].
  destruct (negb retryable); [by apply costs_ret|]. apply free_bind; [apply selectTarget_free|].
  intros [err|next]; [by apply costs_ret|apply IH].
Qed.

Lemma to_target_free request resolved inflight reservation :
  costs (forward_to_target hmac secret range_headers Decode ParseMediaType ToLower sha256_prefix s fuel request resolved inflight
    reservation) free (fun _ => free).
Proof.
  unfold forward_to_target. cbv zeta. apply free_bind; [apply selectTarget_free|].
  intros [err|target]; [apply neutral_costs; unfold refuse, return_; runs|].
  apply free_bind; [unfold Proxy.Forward; apply free_bind; [apply neutral_costs; runs|intros; apply attempts_free]|].
  intros result. apply neutral_costs. unfold return_. runs.
Qed.

Lemma admitted_free request resolved runtime reservation :
  costs (forward_admitted hmac secret range_headers Decode ParseMediaType ToLower sha256_prefix s fuel request resolved runtime
    reservation) free (fun _ => free).
Proof.
  unfold forward_admitted. eapply costs_bind; [apply admission_costs|]. intros [e|[resolved' admitted]].
  - costs_auto. unfold refuse, return_. eapply costs_modify; [done|]. settle.
  - eapply costs_conseq; [eapply (costs_defer _ _ free (fun _ => free) (fun r => - one true (resource_of admitted) r))|intros r; settle|intros ? r; settle].
    + cbv zeta. destruct (sv_observer s); [|apply to_target_free]. apply free_bind; [apply neutral_costs; runs|]. intros u.
      apply free_defer; [apply to_target_free|]. intros b. apply neutral_costs. runs.
    + intros b q. eapply costs_bind; [apply costs_get|]. intros l. eapply costs_conseq; [apply releaseAdmission_costs|intros r; reflexivity|intros ? r; settle].
Qed.

Lemma reserved_free request resolved reservation :
  costs (forward_reserved hmac secret range_headers Decode ParseMediaType ToLower sha256_prefix s fuel request resolved reservation)
    free (fun _ => free).
Proof.
  unfold forward_reserved, refuse, return_. do 2 (apply free_bind; [apply neutral_costs; runs|intros ?]).
  case_match; [apply neutral_costs; runs|]. case_match. case_match; [|apply neutral_costs; runs].
  do 2 (apply free_bind; [apply neutral_costs; runs|intros ?]). case_match; [apply neutral_costs; runs|].
  do 2 (apply free_bind; [apply neutral_costs; runs|intros ?]).
  eapply costs_bind; [apply acquirePool_costs|]. intros [runtime held0]. cbn [snd].
  eapply (costs_bind _ _ _ (fun _ => free)); [apply costs_modify; done|]. intros ?.
  destruct held0 as [e|release]; [apply costs_modify; [done|settle]|].
  eapply costs_conseq; [eapply (costs_defer _ _ free (fun _ => free)); [apply admitted_free|intros b q; apply release_pool_costs]|intros ?|intros ? ?];
    destruct release; settle.
Qed.

Lemma body_free request :
  costs (forward_body hmac secret range_headers Decode ParseMediaType ToLower sha256_prefix s fuel request) free (fun _ => free).
Proof.
  unfold forward_body, refuse, return_. apply free_bind; [apply neutral_costs; runs|]. intros resolved.
  case_match; [apply neutral_costs; runs|]. case_match; [apply reserved_free|].
  apply free_bind; [apply neutral_costs; runs|]. intros rv. case_match; [apply neutral_costs; runs|].
  apply free_bind; [apply neutral_costs; runs|]. intros u. apply reserved_free.
Qed.

Lemma complete_all_free n i : costs (complete_all s n i : G _) free (fun _ => free).
Proof.
  revert i. induction n as [|n IH]; intros i; cbn [complete_all]; [by apply costs_ret|].
  apply free_bind; [apply free_recovered, completeTarget_free|]. intros _. apply IH.
Qed.

Lemma rollback_free b : costs (rollbackOnPanic s b : G _) free (fun _ => free).
Proof.
  unfold rollbackOnPanic. case_match; [by apply costs_ret|]. apply free_bind; [apply costs_get|]. intros l.
  apply free_bind; [apply complete_all_free|]. intros _. case_match; [|by apply costs_ret]. apply free_recovered, neutral_costs. runs.
Qed.

(** ** Every registered completion has run *)

(** The targets that are not done are among [open]. *)
Definition open_only (open : nat -> Prop) (l : Lifecycle) : Prop :=
  forall j t, lf_targets l !! j = Some t -> ts_done t = false -> open j.

Abbreviation nowhere := (fun _ : nat => False).

(** [settles P m Q]: from a state with the open targets [P], a return of [a] leaves
    the open targets [Q a]. *)
Definition settles {A : Type} (P : nat -> Prop) (m : G A) (Q : A -> nat -> Prop) : Prop :=
  forall env h l, open_only P l -> wp env m (fun o _ l' => match o with Returned a => open_only (Q a) l' | _ => True end) h l.

Lemma settles_neutral {A : Type} P (m : G A) : neutral m -> settles P m (fun _ => P).
Proof.
  intros Hm env h l Hl. eapply wp_mono; [apply Hm|]. intros [a| |] h' l'; [|done|done]. intros [_ E] j t. rewrite E. apply Hl.
Qed.

Lemma settles_bind {A B : Type} P (m : G A) (k : A -> G B) Q R :
  settles P m Q -> (forall a, settles (Q a) (k a) R) -> settles P (m ≫= k) R.
Proof.
  intros Hm Hk env h l Hl. apply wp_bind. eapply wp_mono; [by apply Hm|]. intros [a| |] h' l'; [|done|done]. apply Hk.
Qed.

Lemma settles_ret {A : Type} P (a : A) (Q : A -> nat -> Prop) : (forall j, P j -> Q a j) -> settles P (ret a) Q.
Proof. intros H env h l Hl j t Hj Ht. eauto. Qed.

Lemma settles_defer {A : Type} P (m : G A) f Q :
  settles P m Q -> (forall a, settles (Q a) (f false) (fun _ => Q a)) -> settles P (defer m f) Q.
Proof.
  intros Hm Hf env h l Hl. apply wp_defer. eapply wp_mono; [by apply Hm|]. intros [a| |] h' l' H; [| |done].
  - eapply wp_mono; [by apply Hf|]. by intros [| |] ? ? ?.
  - unfold wp. by destruct (f true env h' l') as [[[] ?] ?].
Qed.

Lemma completeTarget_closes (P : nat -> Prop) i outcome env h l :
  open_only (fun j => j = i \/ P j) l ->
  wp env (completeTarget s i outcome : G _) (fun o _ l' => o <> Exhausted /\ open_only P l') h l.
Proof.
  intros Hl. unfold completeTarget. apply wp_bind, wp_get. destruct (lf_targets l !! i) as [t|] eqn:Hi.
  2: { split; [done|]. intros j t Hj Ht. by destruct (Hl j t Hj Ht) as [->|]; [congruence|]. }
  destruct (ts_done t) eqn:Ht.
  { split; [done|]. intros j t' Hj Ht'. by destruct (Hl j t' Hj Ht') as [->|]; [congruence|]. }
  apply wp_bind, wp_put, wp_defer, wp_call_ok. intros [].
  assert (Hd : open_only P {| l with lf_targets := <[i := {| t with ts_done := true |}]> (lf_targets l) |}).
  { intros j t' Hj Ht'. cbn in Hj. destruct (decide (i = j)) as [<-|Hne].
    - rewrite list_lookup_insert_eq in Hj by (by eapply lookup_lt_Some). by injection Hj as <-.
    - rewrite list_lookup_insert_ne in Hj by done. by destruct (Hl j t' Hj Ht') as [->|]. }
  destruct (sv_observer s); [apply wp_call; [intros []|]|apply wp_ret]; done.
Qed.

Lemma take_target_opens P sel candidate :
  settles P (take_target s sel candidate : G _) (fun t j => j = tg_index t \/ P j).
Proof.
  intros env h l Hl. unfold take_target. apply wp_bind, wp_get, wp_bind, wp_put.
  assert (Hput : open_only (fun j => j = length (lf_targets l) \/ P j)
    {| l with lf_targets := lf_targets l ++ [{| ts_backend := ca_backend candidate;
       ts_inflight := (let inflight := sl_inflight sel in {| inflight with ie_Backend := be_Name (ca_backend candidate) |}); ts_done := false |}] |}).
  { intros j t Hj Ht. cbn in Hj. apply lookup_app_Some in Hj as [Hj|[Hj Hs]]; [right; by eapply Hl|].
    apply list_lookup_singleton_Some in Hs as [Hs _]. left. lia. }
  apply wp_bind. eapply wp_mono; [eapply (settles_neutral (fun j => j = length (lf_targets l) \/ P j) (upstreamSecret (ca_backend candidate))); [runs|exact Hput]|].
  intros [[key ok]| |] h1 l1 H1; [|done|done].
  do 4 (apply wp_bind; eapply wp_mono; [eapply settles_neutral; [|exact H1]; solve [runs]|];
    clear H1; intros [?| |] ? ? H1; [|done|done]). exact H1.
Qed.

Lemma selectTarget_opens n sel excluded :
  settles nowhere (selectTarget hmac secret sha256_prefix s n sel excluded)
    (fun r j => match r with inl _ => False | inr t => j = tg_index t end).
Proof.
  revert excluded. induction n as [|n IH]; intros excluded; cbn [selectTarget]; [by intros env h l|].
  do 2 (eapply settles_bind; [apply settles_neutral; solve [runs]|]; intros ?). cbn beta.
  case_match; [by apply settles_ret|]. case_match. do 2 (case_match; [by apply settles_ret|]).
  do 4 (eapply settles_bind; [apply settles_neutral; solve [runs]|]; intros ?). cbn beta.
  case_match; [case_match; by apply settles_ret|].
  eapply (settles_bind _ _ _ (fun _ => nowhere)); [intros env h l Hl; by apply wp_call_ok|]. intros [].
  - eapply settles_bind; [apply take_target_opens|]. intros t. apply settles_ret. tauto.
  - apply IH.
Qed.

Lemma attempt_closes request target started :
  settles (fun j => j = tg_index target)
    (forwardAttempt range_headers Decode ParseMediaType ToLower proxy_complete fuel request target started) (fun _ => nowhere).
Proof.
  unfold forwardAttempt. eapply settles_bind.
  - apply (settles_defer _ _ _ (fun _ j => j = tg_index target)); [apply settles_neutral, forwardOnce_neutral|]. intros a. by apply settles_ret.
  - intros [[result retryable] outcome]. eapply (settles_bind _ _ _ (fun _ => nowhere)); [|intros _; by apply settles_ret].
    intros env h l Hl. eapply wp_mono; [apply completeTarget_closes|].
    + intros j t Hj Ht. left. by eapply Hl.
    + intros o h' l' [_ H]. by destruct o.
Qed.

Lemma attempts_close n sel request target started excluded retries :
  settles (fun j => j = tg_index target)
    (attempt_loop range_headers Decode ParseMediaType ToLower proxy_complete (proxy_select sel) fuel n request target started excluded
      retries) (fun _ => nowhere).
Proof.
  revert target excluded retries. induction n as [|n IH]; intros target excluded retries; cbn [attempt_loop];
    (eapply settles_bind; [apply attempt_closes|]; intros [result retryable]); [by apply settles_ret|].
  destruct (negb retryable); [by apply settles_ret|]. eapply settles_bind; [apply selectTarget_opens|].
  intros [err|next]; [by apply settles_ret|apply IH].
Qed.

Ltac settles_neutral := apply settles_neutral; unfold refuse, return_; solve [runs].
Ltac settles_skip := eapply settles_bind; [settles_neutral|intros ?]; cbn beta.

Lemma to_target_settles request resolved inflight reservation :
  settles nowhere (forward_to_target hmac secret range_headers Decode ParseMediaType ToLower sha256_prefix s fuel request resolved
    inflight reservation) (fun _ => nowhere).
Proof.
  unfold forward_to_target. cbv zeta. eapply settles_bind; [apply selectTarget_opens|]. intros [err|target]; [settles_neutral|].
  eapply (settles_bind _ _ _ (fun _ => nowhere)); [|intros result; settles_neutral].
  unfold Proxy.Forward. settles_skip. apply attempts_close.
Qed.

(** Programs that register and complete no target. *)
Lemma settles_same {A : Type} Q P (m : G A) : runs Q same m -> settles P m (fun _ => P).
Proof.
  intros Hm env h l Hl. eapply wp_mono; [apply Hm|]. intros [a| |] h' l'; [|done|done]. intros [_ [E _]] j t. rewrite E. apply Hl.
Qed.
Ltac settles_apart := eapply (settles_same (fun e => foreign e = true)); solve [runs].

Lemma admitted_settles request resolved runtime reservation :
  settles nowhere (forward_admitted hmac secret range_headers Decode ParseMediaType ToLower sha256_prefix s fuel request resolved
    runtime reservation) (fun _ => nowhere).
Proof.
  unfold forward_admitted. eapply settles_bind; [settles_apart|]. intros [e|[resolved' admitted]]; [settles_neutral|]. cbv zeta.
  apply settles_defer; [|intros a; settles_apart].
  destruct (sv_observer s); [|apply to_target_settles]. settles_skip.
  apply settles_defer; [apply to_target_settles|intros; settles_apart].
Qed.

Lemma reserved_settles request resolved reservation :
  settles nowhere (forward_reserved hmac secret range_headers Decode ParseMediaType ToLower sha256_prefix s fuel request resolved
    reservation) (fun _ => nowhere).
Proof.
  unfold forward_reserved. do 2 settles_skip. case_match; [settles_neutral|]. case_match. case_match; [|settles_neutral].
  do 2 settles_skip. case_match; [settles_neutral|]. do 2 settles_skip.
  eapply settles_bind; [settles_apart|]. intros [runtime held0]. settles_skip.
  destruct held0 as [e|release]; [settles_neutral|]. apply settles_defer; [apply admitted_settles|intros; settles_apart].
Qed.

Lemma body_settles request :
  settles nowhere (forward_body hmac secret range_headers Decode ParseMediaType ToLower sha256_prefix s fuel request) (fun _ => nowhere).
Proof.
  unfold forward_body. settles_skip. case_match; [settles_neutral|]. case_match; [apply reserved_settles|].
  settles_skip. case_match; [settles_neutral|]. settles_skip. apply reserved_settles.
Qed.

Lemma complete_all_closes n i env h l : open_only (fun j => (i <= j < i + n)%nat) l ->
  wp env (complete_all s n i : G _) (fun o _ l' => o = Returned tt /\ open_only nowhere l') h l.
Proof.
  revert i h l. induction n as [|n IH]; intros i h l Hl; cbn [complete_all].
  - split; [done|]. intros j t Hj Ht. specialize (Hl j t Hj Ht). cbn beta in *. lia.
  - apply wp_bind, wp_recovered. eapply wp_mono; [apply (completeTarget_closes (fun j => (S i <= j < S i + n)%nat))|].
    + intros j t Hj Ht. specialize (Hl j t Hj Ht). cbn beta in *. lia.
    + intros [[]| |] h' l' [Ho H]; [| |done]; by apply IH.
Qed.

(** After the rollback of a panic every target is done. *)
Lemma rollback_closes env h l :
  wp env (rollbackOnPanic s true : G _) (fun o _ l' => o = Returned tt /\ open_only nowhere l') h l.
Proof.
  unfold rollbackOnPanic. cbn [negb]. apply wp_bind, wp_get, wp_bind. eapply wp_mono; [apply complete_all_closes|].
  - intros j t Hj _. apply lookup_lt_Some in Hj. cbn beta. lia.
  - intros o h' l' [-> H]. destruct (lf_rollback l); [|done]. apply wp_recovered, wp_call; [intros []|]; done.
Qed.

Lemma pending_nowhere l r : open_only nowhere l -> pending (lf_targets l) r = 0.
Proof.
  intros Hl. unfold pending, count_list.
  replace (filter _ (lf_targets l)) with (@nil TargetState); [done|]. symmetry. apply elem_of_nil_inv. intros t Ht.
  apply list_elem_of_filter in Ht as [[Ht _] Hin]. apply list_elem_of_lookup in Hin as [j Hj]. by eapply Hl.
Qed.

(** A program that costs nothing and settles, run under the rollback. *)
Lemma guarded_releases (m : G unit) env h l :
  costs m free (fun _ => free) -> settles nowhere m (fun _ => nowhere) -> lf_targets l = [] ->
  wp env (defer m (rollbackOnPanic s)) (fun o h' _ => o = Exhausted \/ forall r, held r h' - lost r h' = held r h - lost r h) h l.
Proof.
  intros Hc Hs Hl. assert (Hn : open_only nowhere l) by (intros j t Hj; by rewrite Hl in Hj).
  assert (Hend : forall h' l', open_only nowhere l' -> (forall r, level h' l' r = level h l r) -> forall r, held r h' - lost r h' = held r h - lost r h).
  { intros h' l' Ho H r. specialize (H r). unfold level in H. rewrite !pending_nowhere in H by done. lia. }
  apply wp_defer. eapply wp_mono; [exact (wp_and _ _ _ _ _ _ (Hc env h l) (Hs env h l Hn))|].
  intros [[]| |] h1 l1; [| |by left].
  - intros [H Ho]. right. apply (Hend h1 l1 Ho). intros r. rewrite H. unfold free. lia.
  - intros [H _]. cbn.
    eapply wp_mono; [exact (wp_and _ _ _ _ _ _ (rollback_free true env h1 l1) (rollback_closes env h1 l1))|].
    intros o h2 l2 [H2 [-> Ho]]. right. apply (Hend h2 l2 Ho). intros r. rewrite H2, H. unfold free. lia.
Qed.

(** C3. [Forward] releases what it acquired.  In every run that ends, by a return or by a
    panic, each place of a pool, slot of the limiter or of the emergency admission, lease of
    the coordinator and backend was released as often as it was acquired, except that a slot
    of the emergency admission is lost when the emergency observer panics right after its
    grant.  The calls that may panic are those of the observers, of the usage recorder, of
    the reservation, of the configuration reload and of the admission coordinator's
    [Acquire], and those that build and send the upstream request, read its response and
    write to the client; the clock, the registry's snapshot, the runtime monitor, the
    limiters, the lease manager, the completions and the closing of a body return. *)
Theorem forward_balanced request env l o h l' :
  Forward hmac secret range_headers Decode ParseMediaType ToLower sha256_prefix s fuel request env [] l = (o, h, l') ->
  o <> Exhausted -> forall r, held r h = lost r h.
Proof.
  intros E Hne. assert (H : wp env (Forward hmac secret range_headers Decode ParseMediaType ToLower sha256_prefix s fuel request)
    (fun o h _ => o = Exhausted \/ forall r, held r h - lost r h = 0) [] l).
  - unfold Forward. apply wp_bind, wp_call_ok. intros t. apply wp_bind, wp_put. eapply wp_mono; [apply guarded_releases|].
    + apply free_defer; [apply body_free|]. intros b. apply neutral_costs. runs.
    + apply settles_defer; [apply body_settles|]. intros a. apply settles_neutral. runs.
    + done.
    + done.
  - unfold wp in H. rewrite E in H. destruct H as [H|H]; [done|]. intros r. specialize (H r). lia.
Qed.
End Balance.

Lemma forward_balanced_witness :
  let '(o, h, _) := s_forward s_env_panic in o = Panicking /\ forall r, held r h = lost r h.
Proof.
  assert (H : match s_forward s_env_panic with (Panicking, _, _) => True | _ => False end) by (vm_compute; exact I).
  destruct (s_forward s_env_panic) as [[o h] l] eqn:E. destruct o as [| |]; [contradiction| |contradiction].
  split; [reflexivity|]. unfold s_forward in E. apply (forward_balanced _ _ _ _ _ _ _ _ _ _ _ _ _ _ _ E). discriminate.
Defined.

(** The exception is there: the observer of the emergency admission panics, the slot that
    was granted before stays taken, and everything else is released. *)
Definition s_env_lost : Env (Call tree) :=
  {| answer := fun A c => match c in Call _ A return (list (Event (Call tree)) -> A) -> list (Event (Call tree)) -> A with
                          | CCoordinationReady => fun _ _ => false
                          | _ => fun answer => answer
                          end (s_answer A c);
     panics := fun _ c _ => match c with CEmergencyObserved _ _ => true | _ => false end |}.

Example emergency_slot_lost :
  let '(o, h, _) := s_forward s_env_lost in
  o = Panicking /\ held (REmergency PriorityHigh 1) h = 1 /\ held (RPool 3) h = 0.
Proof. vm_compute. done. Qed.
