(* ===== verification/Termination.v ===== *)
(** [Forward] ends.

    Its loops wait for others: the pool is read again while its limits change, a target
    is selected again while backends are taken, and a response is copied until it ends.
    With a steady configuration and responses that end, the rounds the model allows are
    enough. *)

From Stdlib Require Import Ascii.
From S2P Require Import Prelude Domain Coordination Admission Registry Routing GoStrings ApiKey Payload UsageInspector Effects Calls Proxy Service Traces Scenario.

(** [m] does not run out of rounds. *)
Definition halts {Call : Type -> Type} {S A : Type} (env : Env Call) (m : M Call S A) : Prop :=
  forall h s, wp env m (fun o _ _ => o <> Exhausted) h s.

Section Halts.
Context {Call : Type -> Type} {S : Type} (env : Env Call).
Abbreviation P := (M Call S).

Lemma halts_ret {A : Type} (a : A) : halts env (ret a : P A).
Proof. by intros h s. Qed.

Lemma halts_panic {A : Type} : halts env (panic : P A).
Proof. by intros h s. Qed.

Lemma halts_get : halts env (get : P S).
Proof. by intros h s. Qed.

Lemma halts_put s' : halts env (put s' : P unit).
Proof. by intros h s. Qed.

Lemma halts_modify f : halts env (modify f : P unit).
Proof. by intros h s. Qed.

Lemma halts_call {A : Type} (c : Call A) : halts env (call c : P A).
Proof. intros h s. by apply wp_call. Qed.

Lemma halts_call_ok {A : Type} (c : Call A) : halts env (call_ok c : P A).
Proof. intros h s. by apply wp_call_ok. Qed.

Lemma halts_bind {A B : Type} (m : P A) (k : A -> P B) : halts env m -> (forall a, halts env (k a)) -> halts env (m ≫= k).
Proof. intros Hm Hk h s. apply wp_bind. eapply wp_mono; [apply Hm|]. intros [a| |] h1 s1 H; [apply Hk|done|done]. Qed.

Lemma halts_defer {A : Type} (m : P A) f : halts env m -> (forall b, halts env (f b)) -> halts env (defer m f).
Proof.
  intros Hm Hf h s. apply wp_defer. eapply wp_mono; [apply Hm|]. intros [a| |] h1 s1 H; [| |done];
    (eapply wp_mono; [apply Hf|]); by intros [| |].
Qed.

Lemma halts_recovered (m : P unit) : halts env m -> halts env (recovered m).
Proof. intros Hm h s. apply wp_recovered. eapply wp_mono; [apply Hm|]. by intros [| |]. Qed.

End Halts.

Create HintDb halts.
Ltac halts_step :=
  lazymatch goal with
  | |- halts _ (_ ≫= _) => apply halts_bind; [|intros ?]
  | |- halts _ (ret _) => apply halts_ret
  | |- halts _ panic => apply halts_panic
  | |- halts _ get => apply halts_get
  | |- halts _ (put _) => apply halts_put
  | |- halts _ (modify _) => apply halts_modify
  | |- halts _ (call _) => apply halts_call
  | |- halts _ (call_ok _) => apply halts_call_ok
  | |- halts _ (defer _ _) => apply halts_defer; [|intros ?]
  | |- halts _ (recovered _) => apply halts_recovered
  | |- halts _ (if ?b then _ else _) => destruct b
  | |- halts _ (match ?x with _ => _ end) => destruct x
  end.
Ltac halts := repeat (cbv zeta; first [assumption | progress auto with halts | halts_step]).

Section Termination.
Context {Bytes Secret : Type} `{!Json Bytes}.
Context (hmac : Secret -> string -> N) (secret : Secret)
  (range_headers : Header -> list (string * list string)) (Decode : list ascii -> DecodeResult)
  (ParseMediaType : string -> option string) (ToLower : string -> string) (sha256_prefix : list Z -> Z)
  (s : Service) (fuel : nat).

Abbreviation G := (M (Call Bytes) Lifecycle).
Abbreviation History := (list (Event (Call Bytes))).

Definition reads (h : History) : nat := length (filter (fun e => is_read e = true) h).

(** The configuration stays [snap]; after [k] reads every read reports the end of its
    response; the rounds exceed the reads and the backends of every pool. *)
Context (env : Env (Call Bytes)) (snap : Snapshot) (k : nat).
Context (steady : forall h, answer env _ CSnapshot h = snap)
  (bodies_end : forall h, (k <= reads h)%nat -> (answer env _ CRead h).2 <> None)
  (enough_reads : (k < fuel)%nat)
  (enough_backends : forall pool, (length (default [] (sn_BackendsByPool snap !! pool)) < fuel)%nat).

Abbreviation ends := (halts env).

Lemma or_panic_ends {A : Type} (o : option A) : ends (or_panic o : G A).
Proof. unfold or_panic. halts. Qed.
#[local] Hint Resolve or_panic_ends : halts.

Lemma validate_ends raw current : ends (validateAPIKeySnapshot hmac secret raw current : G _).
Proof. unfold validateAPIKeySnapshot. halts. Qed.

Lemma secret_ends b : ends (upstreamSecret b : G _).
Proof. unfold upstreamSecret. halts. Qed.
#[local] Hint Resolve validate_ends secret_ends : halts.

Lemma prepare_ends request resolved : ends (prepareForwardPayload request resolved : G _).
Proof. unfold prepareForwardPayload. halts. Qed.

Lemma resolve_ends request : ends (resolveForwardRequest hmac secret ToLower s request : G _).
Proof. unfold resolveForwardRequest, authenticate. halts. Qed.

Lemma candidates_ends backends t : ends (candidates_of backends t : G _).
Proof. induction backends; cbn [candidates_of]; halts. Qed.
#[local] Hint Resolve prepare_ends resolve_ends candidates_ends : halts.

(** A snapshot read is the configuration. *)
Lemma snapshot_bind {A : Type} (f : Snapshot -> G A) : ends (f snap) -> ends (call_ok CSnapshot ≫= f).
Proof. intros Hf h l. apply wp_bind. unfold call_ok. unfold wp at 1. rewrite steady. apply Hf. Qed.

(** One round of [acquirePool] is enough: the limits do not change. *)
Lemma acquirePool_ends n client original : ends (acquirePool s (S n) client original : G _).
Proof.
  cbn [acquirePool]. apply snapshot_bind. destruct (currentAdmissionPool snap client original) as [pool|] eqn:E; [|halts].
  destruct (_ && _); [halts|]. do 2 (apply halts_bind; [halts|intros ?]). do 2 (case_match; [halts|]).
  destruct (sv_admission s); [halts|]. apply halts_bind; [halts|]. intros []; cbn [negb]; [|halts].
  apply snapshot_bind. rewrite E, !Z.eqb_refl. cbn [negb orb]. halts.
Qed.

Lemma acquirePool_ends' client original : ends (acquirePool s fuel client original : G _).
Proof. destruct fuel as [|n]; [lia|apply acquirePool_ends]. Qed.
#[local] Hint Resolve acquirePool_ends' : halts.

Lemma release_pool_ends held : ends (release_pool held : G _).
Proof. unfold release_pool. halts. Qed.

Lemma emergency_ends client limit : ends (emergency s client limit : G _).
Proof. unfold emergency. halts. Qed.

Lemma configured_ends raw req : ends (acquireConfiguredAdmission hmac secret s raw req : G _).
Proof. unfold acquireConfiguredAdmission, admit_current. halts. Qed.
#[local] Hint Resolve release_pool_ends emergency_ends configured_ends : halts.

Lemma resolve_again_ends request resolved : ends (resolve_again hmac secret s fuel request resolved).
Proof. unfold resolve_again. halts. Qed.
#[local] Hint Resolve resolve_again_ends : halts.

Lemma attempts_end n request resolved limit : ends (admission_attempts hmac secret s fuel n request resolved limit).
Proof. revert resolved limit. induction n as [|n IH]; intros resolved limit; cbn [admission_attempts]; halts. Qed.
#[local] Hint Resolve attempts_end : halts.

Lemma admission_ends request resolved runtime : ends (acquireForwardAdmission hmac secret s fuel request resolved runtime).
Proof. unfold acquireForwardAdmission. halts. Qed.

Lemma releaseAdmission_ends resolved admitted usage : ends (releaseAdmission s resolved admitted usage : G _).
Proof. unfold releaseAdmission. halts. Qed.
#[local] Hint Resolve admission_ends releaseAdmission_ends : halts.

Lemma completeTarget_ends i outcome : ends (completeTarget s i outcome : G _).
Proof. unfold completeTarget. halts. Qed.

Lemma take_target_ends sel candidate : ends (take_target s sel candidate : G _).
Proof. unfold take_target. halts. Qed.
#[local] Hint Resolve completeTarget_ends take_target_ends : halts.

(** ** Selection *)

(** The backends of the pool that are not excluded yet. *)
Definition available (sel : targetSelector) (excluded : gset Z) : nat :=
  length (filter (fun b => be_ID b ∉ excluded) (default [] (sn_BackendsByPool snap !! mp_ID (sl_pool sel)))).

Lemma available_less sel (excluded : gset Z) b :
  b ∈ default [] (sn_BackendsByPool snap !! mp_ID (sl_pool sel)) -> be_ID b ∉ excluded ->
  (available sel ({[be_ID b]} ∪ excluded) < available sel excluded)%nat.
Proof.
  unfold available. generalize (default [] (sn_BackendsByPool snap !! mp_ID (sl_pool sel))). intros l Hin Hb.
  assert (Hsub : forall b', be_ID b' ∉ ({[be_ID b]} ∪ excluded : gset Z) -> be_ID b' ∉ excluded) by set_solver.
  assert (Hle : forall l : list Backend, (length (filter (fun b' => be_ID b' ∉ ({[be_ID b]} ∪ excluded : gset Z)) l) <=
    length (filter (fun b' => be_ID b' ∉ excluded) l))%nat).
  { clear l Hin. intros l. induction l as [|b' l IH]; [done|]. specialize (Hsub b'). rewrite !filter_cons. repeat case_decide; cbn; try lia. tauto. }
  induction l as [|b' l IH]; [by apply elem_of_nil in Hin|]. rewrite !filter_cons. apply elem_of_cons in Hin as [<-|Hin].
  - rewrite decide_False, decide_True by set_solver. cbn. specialize (Hle l). lia.
  - specialize (Hsub b'). specialize (IH Hin). repeat case_decide; cbn; try lia. tauto.
Qed.

(** The backends of the candidates are those they were made from. *)
Lemma candidates_yield backends t : yields (fun cs => forall c, c ∈ cs -> ca_backend c ∈ backends) (candidates_of backends t : G _).
Proof.
  induction backends as [|b backends IH]; cbn [candidates_of]; [apply yields_ret; by intros c ?%elem_of_nil|].
  eapply yields_bind; [apply yields_any|]. intros rt _. eapply yields_bind; [apply yields_any|]. intros [key ok] _.
  eapply yields_bind; [apply IH|]. intros cs Hcs. apply yields_ret. intros c [->|Hc]%elem_of_cons; [left|right; by apply Hcs].
Qed.

Lemma halts_yields {A B : Type} Q (m : G A) (f : A -> G B) :
  ends m -> yields Q m -> (forall a, Q a -> ends (f a)) -> ends (m ≫= f).
Proof.
  intros Hm HQ Hf h l. apply wp_bind. eapply wp_mono; [exact (wp_and _ _ _ _ _ _ (Hm h l) (HQ env h l))|].
  intros [a| |] h1 l1 [H1 H2]; [by apply Hf|done|done].
Qed.

Lemma selectTarget_ends n sel excluded : (available sel excluded < n)%nat -> ends (selectTarget hmac secret sha256_prefix s n sel excluded).
Proof.
  revert excluded. induction n as [|n IH]; intros excluded Hn; [lia|]. cbn [selectTarget]. apply snapshot_bind.
  apply halts_bind; [halts|]. intros [e|[client key]]; [halts|]. do 2 (case_match; [halts|]). apply halts_bind; [halts|]. intros now.
  eapply halts_yields; [apply candidates_ends|apply candidates_yield|]. intros cs Hcs. apply halts_bind; [halts|]. intros random.
  unfold or_panic. destruct (SelectWithSessionAffinity _ _ _ _ _ _) as [selected|] eqn:Hsel; [|by intros h l].
  apply (halts_yields (fun x => x = selected)); [halts|by apply yields_ret|]. intros ? ->. destruct selected as [[]|c]; [halts|].
  apply affinity_eligible in Hsel as [Hin Hel].
  apply halts_bind; [halts|]. intros []; cbn [negb]; [halts|]. apply IH.
  unfold eligible_candidate in Hel. b2p. pose proof (available_less sel excluded (ca_backend c) (Hcs c Hin) ltac:(done)). lia.
Qed.

Lemma selectTarget_ends' sel excluded : ends (selectTarget hmac secret sha256_prefix s fuel sel excluded).
Proof.
  apply selectTarget_ends. unfold available. eapply Nat.le_lt_trans; [apply length_filter|apply enough_backends].
Qed.
#[local] Hint Resolve selectTarget_ends' : halts.

(** ** The copy of a response *)

Lemma commit_ends c : ends (commit range_headers c : G _).
Proof. unfold commit. halts. Qed.
#[local] Hint Resolve commit_ends : halts.

Lemma write_ends data proven c : ends (write range_headers Decode data proven c : G _).
Proof. unfold write. halts. Qed.

Lemma cancelled_ends : ends (cancelled : G _).
Proof. unfold cancelled. halts. Qed.
#[local] Hint Resolve write_ends cancelled_ends : halts.

Lemma read_failed_ends e first n proven c : ends (read_failed e first n proven c : G _).
Proof. unfold read_failed. halts. Qed.

Lemma inspection_ends c : ends (completeUsageInspection Decode c : G _).
Proof. unfold completeUsageInspection. halts. Qed.
#[local] Hint Resolve read_failed_ends inspection_ends : halts.

Lemma write_extends data proven c : runs (fun _ => True) anywhere (write range_headers Decode data proven c : G _).
Proof. unfold write, commit, or_panic. runs. Qed.

Lemma reads_app h t : reads (h ++ t) = (reads h + reads t)%nat.
Proof. unfold reads. by rewrite filter_app, length_app. Qed.

(** The copy ends when its rounds exceed the reads that are left. *)
Lemma copy_ends n first c h l : (0 < n)%nat -> (k < n + reads h)%nat ->
  wp env (copy range_headers Decode n first c : G _) (fun o _ _ => o <> Exhausted) h l.
Proof.
  revert first c h l. induction n as [|n IH]; intros first c h l Hn Hk; [lia|]. cbn [copy]. apply wp_bind. unfold call. unfold wp at 1.
  destruct (panics env _ CRead h); [done|]. pose proof (bodies_end h) as Hend. destruct (answer env _ CRead h) as [data readErr].
  destruct readErr as [[|canceled]|]; [apply halts_bind; [halts|intros ?]; halts|apply halts_bind; [halts|intros ?]; halts|].
  assert (Hlt : (reads h < k)%nat) by (destruct (decide (k <= reads h)%nat) as [H|H]; [by specialize (Hend H)|lia]).
  set (h1 := h ++ [Answered CRead (data, None)]). assert (H1 : reads h1 = S (reads h)) by (unfold h1; rewrite reads_app; change (reads [Answered CRead (data, None)]) with 1%nat; lia).
  apply wp_bind, wp_ret, wp_bind. eapply (wp_mono _ _ (fun o h2 _ => o <> Exhausted /\ exists t, h2 = h1 ++ t)).
  - destruct (_ <? _)%nat; [|apply wp_ret; split; [done|]; exists []; by rewrite app_nil_r].
    eapply wp_mono; [exact (wp_and _ _ _ _ _ _ (write_ends data false c h1 l) (write_extends data false c env h1 l))|].
    intros o h2 l2 [? [(t & -> & _) _]]. split; [done|by exists t].
  - intros o h2 l2 [Ho [t ->]]. destruct o as [[c' [outcome|]]| |]; [by apply wp_ret| |done|done]. apply IH; rewrite ?reads_app; lia.
Qed.

Lemma copy_ends' first c : ends (copy range_headers Decode fuel first c : G _).
Proof. intros h l. apply copy_ends; lia. Qed.
#[local] Hint Resolve copy_ends' : halts.

Lemma once_ends request target started :
  ends (forwardOnce range_headers Decode ParseMediaType ToLower fuel request target started : G _).
Proof. unfold forwardOnce. halts. Qed.
#[local] Hint Resolve once_ends : halts.

Lemma loop_ends n sel request target started excluded retries :
  ends (attempt_loop range_headers Decode ParseMediaType ToLower (fun t => completeTarget s (tg_index t))
    (selectTarget hmac secret sha256_prefix s fuel sel) fuel n request target started excluded retries : G _).
Proof.
  revert target excluded retries. induction n as [|n IH]; intros target excluded retries; cbn [attempt_loop]; unfold forwardAttempt; halts.
Qed.
#[local] Hint Resolve loop_ends : halts.

Lemma complete_all_ends n i : ends (complete_all s n i : G _).
Proof. revert i. induction n as [|n IH]; intros i; cbn [complete_all]; halts. Qed.
#[local] Hint Resolve complete_all_ends : halts.

Lemma admitted_ends request resolved runtime reservation :
  ends (forward_admitted hmac secret range_headers Decode ParseMediaType ToLower sha256_prefix s fuel request resolved runtime reservation).
Proof. unfold forward_admitted, forward_to_target, Proxy.Forward, refuse, return_. halts. Qed.
#[local] Hint Resolve admitted_ends : halts.

(** C4. [Forward] ends.  With a steady configuration and responses whose reads come to
    an end after [k] reads, and with more rounds than [k] and than the backends of any
    pool, no loop runs out of rounds: [Forward] returns or panics.  The loops of the
    code, which have no bound, end therefore as well. *)
Theorem forward_terminates request l :
  exists o h l', Forward hmac secret range_headers Decode ParseMediaType ToLower sha256_prefix s fuel request env [] l = (o, h, l') /\
    o <> Exhausted.
Proof.
  assert (H : ends (Forward hmac secret range_headers Decode ParseMediaType ToLower sha256_prefix s fuel request)).
  { unfold Forward, forward_body, forward_reserved, finish, rollbackOnPanic, refuse, return_. halts. }
  specialize (H [] l). unfold wp in H. destruct (Forward _ _ _ _ _ _ _ _ _ _ env [] l) as [[o h] l'] eqn:E. eauto.
Qed.
End Termination.

Lemma forward_terminates_witness : exists o h l', s_forward s_env = (o, h, l') /\ o <> Exhausted.
Proof.
  refine (forward_terminates s_hmac tt map_to_list (fun _ => DecodeEOF) (fun _ => None) (fun x => x) (fun _ => 0) s_service 5 s_env
    s_snapshot 1 _ _ _ _ s_request s_lifecycle).
  - intros h. reflexivity.
  - intros h Hh. cbn. destruct (existsb is_read h) eqn:E; [discriminate|]. exfalso. unfold reads in Hh.
    destruct (filter (fun e => is_read e = true) h) as [|e r] eqn:Ef; [cbn in Hh; lia|].
    assert (He : e ∈ filter (fun e => is_read e = true) h) by (rewrite Ef; left).
    apply list_elem_of_filter in He as [He Hin]. apply list_elem_of_In in Hin.
    assert (Ht : existsb is_read h = true) by (apply existsb_exists; exists e; split; assumption). congruence.
  - lia.
  - intros pool. destruct (decide (pool = 3)) as [->|Hne]; [vm_compute; lia|].
    unfold s_snapshot. cbn [sn_BackendsByPool]. rewrite lookup_singleton_ne by congruence. cbn. lia.
Defined.
