(* ===== verification/Worker.v ===== *)
(** The monitor of one backend ([src/internal/monitor/worker.go],
    [src/internal/monitor/metrics.go]).

    A [Worker] is the struct without its mutex.  Its two polls read the answer of the
    backend and then update the runtime under the mutex, so a poll is one function of the
    answer.  The text parser of the Prometheus library, its metric types and [math.Exp]
    are parameters. *)

From Stdlib Require Import Ascii.
From S2P Require Import Prelude Domain Float64 CircuitBreaker Coordination Pressure GoStrings Validate.

(** ** Options *)

(** [Options]; of the interfaces and functions, whether they are set. *)
Record MonitorOptions := {
  mo_HealthInterval : Duration;
  mo_HealthTimeout : Duration;
  mo_MetricsInterval : Duration;
  mo_MetricsTimeout : Duration;
  mo_StaleAfter : Duration;
  mo_UnhealthyAfter : Z;
  mo_RecoveryAfter : Z;
  mo_Circuit : CircuitBreaker.Options;
  mo_CircuitCoordinator : bool;
  mo_AdmissionRuntime : bool;
  mo_ReplicaID : UUID;
  mo_ProbeTTL : Duration;
  mo_ProbeRenewInterval : Duration;
  mo_Limits : Limits;
  mo_EWMAWindow : Duration;
  mo_BusyThreshold : float64;
  mo_SaturatedThreshold : float64;
  mo_PoolThresholds : Thresholds
}.

Inductive OptionsError :=
  | DurationsNotPositive
  | CountsNotPositive
  | CircuitOptions (e : NewError)
  | ProbeOptions
  | LimitsInvalid
  | ThresholdsOutOfOrder.

Definition Options_validate (o : MonitorOptions) : option OptionsError :=
  if (mo_HealthInterval o <=? 0) || (mo_HealthTimeout o <=? 0) || (mo_MetricsInterval o <=? 0) || (mo_MetricsTimeout o <=? 0) ||
     (mo_StaleAfter o <=? 0) || (mo_EWMAWindow o <=? 0) then Some DurationsNotPositive
  else if (mo_UnhealthyAfter o <=? 0) || (mo_RecoveryAfter o <=? 0) then Some CountsNotPositive
  else
    let rest :=
      if negb (Limits_Validate (mo_Limits o)) then Some LimitsInvalid
      else if flt (mo_BusyThreshold o) fzero || fle (mo_SaturatedThreshold o) (mo_BusyThreshold o) then Some ThresholdsOutOfOrder
      else None in
    if negb (mo_CircuitCoordinator o) then
      match CircuitBreaker.New (mo_Circuit o) with
      | inl e => Some (CircuitOptions e)
      | inr _ => rest
      end
    else if (mo_ProbeTTL o <=? 0) || (mo_ReplicaID o =? 0)%N then Some ProbeOptions
    else rest.

(** ** Metrics *)

Definition runningMetric : string := "vllm:num_requests_running".
Definition waitingMetric : string := "vllm:num_requests_waiting".
Definition kvMetric : string := "vllm:kv_cache_usage_perc".
Definition legacyKVMetric : string := "vllm:gpu_cache_usage_perc".

Record Metrics := {
  me_Running : float64;
  me_Waiting : float64;
  me_KVCacheUsage : float64
}.

(** The types of a family that [sumFamily] tells apart. *)
Inductive MetricType := MetricType_GAUGE | MetricType_UNTYPED | MetricType_other.

Inductive MetricsError :=
  | MetricsUnparsable
  | MetricMissing (name : string)
  | NoGaugeValue (name : string)
  | NoUntypedValue (name : string)
  | NotAGauge (name : string)
  | InvalidMetricValue (name : string) (value : float64)
  | SumNotFinite.

Section Metrics.
(** The Prometheus client: families, their metrics and the value of a gauge or of an
    untyped metric where it is set; the parser of the text format. *)
Context {MetricFamily Metric : Type} (GetType : MetricFamily -> MetricType) (family_Metric : MetricFamily -> list Metric)
  (Gauge Untyped : Metric -> option float64)
  (TextToMetricFamilies : list ascii -> option (gmap string MetricFamily)).

(** The value of a metric of the family. *)
Definition metric_value (type : MetricType) (name : string) (metric : Metric) : MetricsError + float64 :=
  match type with
  | MetricType_GAUGE => match Gauge metric with None => inl (NoGaugeValue name) | Some value => inr value end
  | MetricType_UNTYPED => match Untyped metric with None => inl (NoUntypedValue name) | Some value => inr value end
  | MetricType_other => inl (NotAGauge name)
  end.

(** [math.IsNaN(value) || math.IsInf(value, 0) || value < 0] *)
Definition invalid_value (value : float64) : bool := IsNaN value || IsInf value || flt value fzero.

Fixpoint sum_metrics (type : MetricType) (name : string) (metrics : list Metric) (sum : float64) : MetricsError + float64 :=
  match metrics with
  | [] => inr sum
  | metric :: metrics =>
    match metric_value type name metric with
    | inl e => inl e
    | inr value =>
      if invalid_value value then inl (InvalidMetricValue name value)
      else sum_metrics type name metrics (fadd sum value)
    end
  end.

Definition sumFamily (family : option MetricFamily) (name : string) : MetricsError + float64 :=
  match family with
  | None => inl (MetricMissing name)
  | Some family =>
    if (length (family_Metric family) =? 0)%nat then inl (MetricMissing name)
    else
      match sum_metrics (GetType family) name (family_Metric family) fzero with
      | inl e => inl e
      | inr sum => if IsNaN sum || IsInf sum then inl SumNotFinite else inr sum
      end
  end.

Definition ParseMetrics (payload : list ascii) : MetricsError + Metrics :=
  match TextToMetricFamilies payload with
  | None => inl MetricsUnparsable
  | Some families =>
    match sumFamily (families !! runningMetric) runningMetric with
    | inl e => inl e
    | inr running =>
      match sumFamily (families !! waitingMetric) waitingMetric with
      | inl e => inl e
      | inr waiting =>
        let '(kvFamily, kvName) :=
          match families !! kvMetric with
          | None => (families !! legacyKVMetric, legacyKVMetric)
          | Some family => (Some family, kvMetric)
          end in
        match sumFamily kvFamily kvName with
        | inl e => inl e
        | inr kv => inr {| me_Running := running; me_Waiting := waiting; me_KVCacheUsage := kv |}
        end
      end
    end
  end.

(** ** The worker *)

Record Worker := {
  wk_backend : Backend;
  wk_options : MonitorOptions;
  wk_ewma : EWMA;
  wk_runtime : BackendRuntime
}.

Context {Rest : Type} (url_parse : string -> option (URL Rest)) (url_string : URL Rest -> string).
Context (exp : float64 -> float64).

Inductive NewWorkerError := WorkerBackend (e : ValidationError) | WorkerOptions (e : OptionsError).

Definition NewWorker (backend : Backend) (options : MonitorOptions) : NewWorkerError + Worker :=
  match Backend_Validate url_parse url_string backend with
  | inl e => inl (WorkerBackend e)
  | inr backend =>
    let limits := mo_Limits options in
    let options := {| options with mo_Limits := {| limits with lim_RunningSoft := be_RunningSoftLimit backend |} |} in
    match Options_validate options with
    | Some e => inl (WorkerOptions e)
    | None =>
      inr {| wk_backend := backend; wk_options := options; wk_ewma := NewEWMA (mo_EWMAWindow options);
             wk_runtime := {| zeroBackendRuntime with br_BackendID := be_ID backend; br_State := BackendUnhealthy |} |}
    end
  end.

(** The answer of a backend: [None] when the request cannot be made or fails, else the
    status and what reading the body gives, [None] for an error. *)
Definition Answer : Type := option (Z * option (list ascii)).

Definition status_ok (status : Z) : bool := (200 <=? status) && (status <? 300).

Definition PollHealth (at_ : Time) (answer : Answer) (w : Worker) : Worker * bool :=
  let success := match answer with None => false | Some (status, _) => status_ok status end in
  let rt := wk_runtime w in
  let rt := {| rt with br_LastHealthAt := at_ |} in
  let rt :=
    if success then
      let rt := {| rt with br_ConsecutiveSuccess := br_ConsecutiveSuccess rt + 1; br_ConsecutiveFailure := 0 |} in
      if mo_RecoveryAfter (wk_options w) <=? br_ConsecutiveSuccess rt then {| rt with br_Healthy := true |} else rt
    else
      let rt := {| rt with br_ConsecutiveFailure := br_ConsecutiveFailure rt + 1; br_ConsecutiveSuccess := 0 |} in
      if mo_UnhealthyAfter (wk_options w) <=? br_ConsecutiveFailure rt then {| rt with br_Healthy := false |} else rt in
  ({| w with wk_runtime := rt |}, success).

Definition maxMetricsPayloadBytes : Z := 4 * 2 ^ 20.

Inductive PollError :=
  | ScrapeFailed
  | ScrapeStatus (status : Z)
  | PayloadUnreadable
  | PayloadTooLarge
  | PayloadInvalid (e : MetricsError).

(** What a scrape reads: the payload is cut one byte above the limit. *)
Definition scrape (answer : Answer) : PollError + Metrics :=
  match answer with
  | None => inl ScrapeFailed
  | Some (status, body) =>
    if negb (status_ok status) then inl (ScrapeStatus status)
    else
      match body with
      | None => inl PayloadUnreadable
      | Some body =>
        if maxMetricsPayloadBytes <? Z.of_nat (length body) then inl PayloadTooLarge
        else match ParseMetrics body with inl e => inl (PayloadInvalid e) | inr metrics => inr metrics end
      end
  end.

Definition sample_of (metrics : Metrics) : Sample :=
  {| sm_Running := me_Running metrics; sm_Waiting := me_Waiting metrics; sm_KVUsage := me_KVCacheUsage metrics |}.

Definition PollMetrics (at_ : Time) (answer : Answer) (w : Worker) : Worker * option PollError :=
  match scrape answer with
  | inl e => (w, Some e)
  | inr metrics =>
    let raw := Calculate (sample_of metrics) (mo_Limits (wk_options w)) in
    let '(ewma, pressure) := EWMA_Add exp at_ raw (wk_ewma w) in
    let rt := wk_runtime w in
    ({| w with wk_ewma := ewma;
               wk_runtime := {| rt with br_Running := me_Running metrics; br_Waiting := me_Waiting metrics;
                                        br_KVCacheUsage := me_KVCacheUsage metrics; br_RawPressure := raw; br_Pressure := pressure;
                                        br_LastMetricsAt := at_ |} |}, None)
  end.

Definition worker_state (w : Worker) (snapshot : BackendRuntime) : BackendState :=
  if negb (br_Healthy snapshot) || negb (br_MetricsFresh snapshot) then BackendUnhealthy
  else if be_Draining (wk_backend w) then BackendDraining
  else if fle (mo_SaturatedThreshold (wk_options w)) (br_Pressure snapshot) then BackendSaturated
  else if fle (mo_BusyThreshold (wk_options w)) (br_Pressure snapshot) then BackendBusy
  else BackendHealthy.

Definition Worker_Snapshot (w : Worker) (at_ : Time) : BackendRuntime :=
  let snapshot := wk_runtime w in
  let age := GoTime.Sub at_ (br_LastMetricsAt snapshot) in
  let age := if age <? 0 then 0 else age in
  let snapshot := {| snapshot with br_MetricsFresh := negb (GoTime.IsZero (br_LastMetricsAt snapshot)) &&
                                                      (age <=? mo_StaleAfter (wk_options w)) |} in
  {| snapshot with br_State := worker_state w snapshot |}.

(** ** Runs *)

(** The polls of [Run], with the answers. *)
Inductive Poll := Health (at_ : Time) (answer : Answer) | Scrape (at_ : Time) (answer : Answer).

Definition poll (w : Worker) (p : Poll) : Worker :=
  match p with
  | Health at_ answer => (PollHealth at_ answer w).1
  | Scrape at_ answer => (PollMetrics at_ answer w).1
  end.

Definition polls (w : Worker) (ps : list Poll) : Worker := fold_left poll ps w.

(** ** What the runtime says *)

Definition health_results (ps : list Poll) : list bool :=
  omap (fun p => match p with
                 | Health _ (Some (status, _)) => Some (status_ok status)
                 | Health _ None => Some false
                 | Scrape _ _ => None
                 end) ps.

Definition scrapes (ps : list Poll) : list (Time * Metrics) :=
  omap (fun p => match p with
                 | Scrape at_ answer => match scrape answer with inr m => Some (at_, m) | inl _ => None end
                 | Health _ _ => None
                 end) ps.

End Metrics.

(** The results contain [n] times [v] in a row. *)
Definition in_a_row (v : bool) (n : Z) (results : list bool) : Prop :=
  exists a b, results = a ++ replicate (Z.to_nat n) v ++ b.

(** There were [recovery] successes in a row and since then no [unhealthy] failures in a
    row. *)
Definition recovered (recovery unhealthy : Z) (results : list bool) : Prop :=
  exists a b, results = a ++ replicate (Z.to_nat recovery) true ++ b /\ ~ in_a_row false unhealthy b.

(** ** Streaks *)

(** The length of the longest suffix of [v]s. *)
Fixpoint streak (v : bool) (newest_first : list bool) : nat :=
  match newest_first with
  | [] => 0
  | x :: l => if Bool.eqb x v then S (streak v l) else 0
  end.

Definition trailing (v : bool) (results : list bool) : Z := Z.of_nat (streak v (reverse results)).

Lemma trailing_snoc v results x : trailing v (results ++ [x]) = if Bool.eqb x v then trailing v results + 1 else 0.
Proof. unfold trailing. rewrite reverse_snoc. cbn [streak]. destruct (Bool.eqb x v); lia. Qed.

Lemma streak_prefix v l n : (n <= streak v l)%nat <-> exists l', l = replicate n v ++ l'.
Proof.
  revert n. induction l as [|x l IH]; intros [|n]; cbn.
  - split; [by exists []|lia].
  - split; [lia|]. by intros [l' Hl'].
  - split; [by exists (x :: l)|lia].
  - destruct (Bool.eqb x v) eqn:E.
    + apply Bool.eqb_prop in E as ->. rewrite <- Nat.succ_le_mono, IH. split; intros [l' Hl']; exists l'; [by rewrite Hl'|by injection Hl'].
    + split; [lia|]. intros [l' [= -> _]]. by rewrite Bool.eqb_reflx in E.
Qed.

Lemma trailing_suffix v results n : 0 <= n -> n <= trailing v results <-> exists a, results = a ++ replicate (Z.to_nat n) v.
Proof.
  intros Hn. unfold trailing. split.
  - intros Hle. assert (Hn' : (Z.to_nat n <= streak v (reverse results))%nat) by lia. apply streak_prefix in Hn' as [l' Hl'].
    exists (reverse l'). rewrite <- (reverse_involutive results), Hl', reverse_app. f_equal. by rewrite reverse_replicate.
  - intros [a ->]. rewrite reverse_app, reverse_replicate. cut (Z.to_nat n <= streak v (replicate (Z.to_nat n) v ++ reverse a))%nat; [lia|].
    apply streak_prefix. by eexists.
Qed.

Lemma snoc_middle {A : Type} (l : list A) x a m b :
  l ++ [x] = a ++ m ++ b -> (b = [] /\ l ++ [x] = a ++ m) \/ exists b', b = b' ++ [x] /\ l = a ++ m ++ b'.
Proof.
  intros H. destruct (decide (b = [])) as [->|Hb]; [left; by rewrite app_nil_r in H|]. right.
  destruct (exists_last Hb) as (b' & y & ->). rewrite !app_assoc in H. apply app_inj_tail in H as [-> ->]. exists b'. by rewrite app_assoc.
Qed.

Lemma recovered_success recovery unhealthy results : 0 < recovery -> 0 < unhealthy ->
  recovered recovery unhealthy (results ++ [true]) <-> recovery <= trailing true (results ++ [true]) \/ recovered recovery unhealthy results.
Proof.
  intros Hr Hu. rewrite trailing_suffix by lia. split.
  - intros (a & b & H & Hn). apply snoc_middle in H as [[-> H]|(b' & -> & ->)]; [left; by exists a|]. right. exists a, b'. split; [done|].
    intros (c & d & ->). apply Hn. exists c, (d ++ [true]). by rewrite <- !app_assoc.
  - intros [[a Ha]|(a & b & -> & Hn)].
    + exists a, []. rewrite app_nil_r. split; [done|]. intros (c & d & H). symmetry in H. apply app_eq_nil in H as [_ H].
      apply app_eq_nil in H as [H _]. apply (f_equal length) in H. rewrite length_replicate in H. cbn in H. lia.
    + exists a, (b ++ [true]). rewrite <- !app_assoc. split; [done|]. intros (c & d & H).
      apply snoc_middle in H as [[_ H]|(d' & _ & ->)]; [|apply Hn; by exists c, d'].
      destruct (Z.to_nat unhealthy) as [|n] eqn:En; [lia|]. rewrite replicate_S_end, app_assoc in H. by apply app_inj_tail in H as [_ H].
Qed.

Lemma recovered_failure recovery unhealthy results : 0 < recovery -> 0 < unhealthy ->
  recovered recovery unhealthy (results ++ [false]) <-> trailing false (results ++ [false]) < unhealthy /\ recovered recovery unhealthy results.
Proof.
  intros Hr Hu. split.
  - intros (a & b & H & Hn). apply snoc_middle in H as [[_ H]|(b' & -> & ->)].
    { destruct (Z.to_nat recovery) as [|n] eqn:En; [lia|]. rewrite replicate_S_end, app_assoc in H. by apply app_inj_tail in H as [_ H]. }
    split; [|exists a, b'; split; [done|]; intros (c & d & ->); apply Hn; exists c, (d ++ [false]); by rewrite <- !app_assoc].
    apply Z.nle_gt. rewrite trailing_suffix by lia. intros [c Hc]. rewrite <- !app_assoc, (app_assoc a) in Hc.
    apply app_eq_inv in Hc as [(k & Hk & Hu')|(k & _ & Hk)]; [|apply Hn; exists k, []; by rewrite app_nil_r].
    destruct (decide (k = [])) as [->|Hne]; [apply Hn; exists [], []; by rewrite app_nil_r|]. destruct (exists_last Hne) as (k' & y & ->).
    destruct (Z.to_nat recovery) as [|n] eqn:En; [lia|]. rewrite replicate_S_end, !app_assoc in Hk. apply app_inj_tail in Hk as [_ <-].
    assert (Hin : true ∈ replicate (Z.to_nat unhealthy) false) by (rewrite Hu'; set_solver). by apply elem_of_replicate in Hin as [? _].
  - intros [Hlt (a & b & -> & Hn)]. exists a, (b ++ [false]). rewrite <- !app_assoc. split; [done|]. intros (c & d & H).
    apply snoc_middle in H as [[_ H]|(d' & _ & ->)]; [|apply Hn; by exists c, d'].
    apply Z.lt_nge in Hlt. apply Hlt. apply trailing_suffix; [lia|]. exists (a ++ replicate (Z.to_nat recovery) true ++ c). by rewrite <- !app_assoc, H.
Qed.

(** ** Polls *)

Section Runs.
Context {MetricFamily Metric : Type} (GetType : MetricFamily -> MetricType) (family_Metric : MetricFamily -> list Metric)
  (Gauge Untyped : Metric -> option float64)
  (TextToMetricFamilies : list ascii -> option (gmap string MetricFamily)).
Context {Rest : Type} (url_parse : string -> option (URL Rest)) (url_string : URL Rest -> string).
Context (exp : float64 -> float64).

Abbreviation new_worker := (NewWorker url_parse url_string).
Abbreviation run_poll := (poll GetType family_Metric Gauge Untyped TextToMetricFamilies exp).
Abbreviation run_polls := (polls GetType family_Metric Gauge Untyped TextToMetricFamilies exp).
Abbreviation read_scrape := (scrape GetType family_Metric Gauge Untyped TextToMetricFamilies).
Abbreviation good_scrapes := (scrapes GetType family_Metric Gauge Untyped TextToMetricFamilies).

Lemma polls_snoc w ps p : run_polls w (ps ++ [p]) = run_poll (run_polls w ps) p.
Proof. unfold polls. by rewrite fold_left_app. Qed.

Lemma poll_fixed w p : wk_options (run_poll w p) = wk_options w /\ wk_backend (run_poll w p) = wk_backend w.
Proof.
  destruct p as [at_ answer|at_ answer]; [done|]. cbn. unfold PollMetrics. destruct (scrape _ _ _ _ _ _); [done|].
  by destruct (EWMA_Add _ _ _ _).
Qed.

Lemma polls_fixed w ps : wk_options (run_polls w ps) = wk_options w /\ wk_backend (run_polls w ps) = wk_backend w.
Proof.
  induction ps as [|p ps IH] using rev_ind; [done|]. rewrite polls_snoc. destruct (poll_fixed (run_polls w ps) p) as [-> ->]. done.
Qed.

(** The health part of the runtime is a function of the results of the health polls. *)
Definition health_matches (o : MonitorOptions) (results : list bool) (rt : BackendRuntime) : Prop :=
  br_ConsecutiveSuccess rt = trailing true results /\ br_ConsecutiveFailure rt = trailing false results /\
  (br_Healthy rt = true <-> recovered (mo_RecoveryAfter o) (mo_UnhealthyAfter o) results).

Lemma health_poll_matches w at_ answer results : 0 < mo_RecoveryAfter (wk_options w) -> 0 < mo_UnhealthyAfter (wk_options w) ->
  health_matches (wk_options w) results (wk_runtime w) ->
  health_matches (wk_options w) (results ++ health_results [Health at_ answer]) (wk_runtime (PollHealth at_ answer w).1).
Proof.
  intros Hr Hu (Hs & Hf & Hh). assert (E : health_results [Health at_ answer] = [match answer with None => false | Some (status, _) => status_ok status end])
    by (by destruct answer as [[status body]|]). rewrite E. clear E. unfold PollHealth. cbn.
  destruct (match answer with None => false | Some (status, _) => status_ok status end); unfold health_matches; rewrite !trailing_snoc; cbn [Bool.eqb].
  - rewrite recovered_success, trailing_snoc by done. cbn [Bool.eqb]. destruct (Z.leb_spec (mo_RecoveryAfter (wk_options w)) (br_ConsecutiveSuccess (wk_runtime w) + 1)); cbn.
    all: rewrite Hs in *; split_and!; [done..|]; rewrite ?Hh; intuition lia.
  - rewrite recovered_failure, trailing_snoc by done. cbn [Bool.eqb]. destruct (Z.leb_spec (mo_UnhealthyAfter (wk_options w)) (br_ConsecutiveFailure (wk_runtime w) + 1)); cbn.
    all: rewrite Hf in *; split_and!; [done..|]; rewrite ?Hh; intuition (done || lia).
Qed.

(** The metrics part is that of the last scrape that succeeded. *)
Definition metrics_match (o : MonitorOptions) (last_scrape : option (Time * Metrics)) (rt : BackendRuntime) : Prop :=
  match last_scrape with
  | None => br_LastMetricsAt rt = GoTime.zero
  | Some (at_, m) =>
    br_LastMetricsAt rt = at_ /\ br_Running rt = me_Running m /\ br_Waiting rt = me_Waiting m /\ br_KVCacheUsage rt = me_KVCacheUsage m /\
    br_RawPressure rt = Calculate (sample_of m) (mo_Limits o)
  end.

Lemma health_keeps_metrics w at_ answer o l : metrics_match o l (wk_runtime w) -> metrics_match o l (wk_runtime (PollHealth at_ answer w).1).
Proof.
  unfold PollHealth. cbn. destruct (match answer with None => false | Some (status, _) => status_ok status end);
    case_match; by destruct l as [[t m]|].
Qed.

Lemma scrape_matches w at_ answer results l : health_matches (wk_options w) results (wk_runtime w) -> metrics_match (wk_options w) (last l) (wk_runtime w) ->
  let w' := (PollMetrics GetType family_Metric Gauge Untyped TextToMetricFamilies exp at_ answer w).1 in
  health_matches (wk_options w) results (wk_runtime w') /\ metrics_match (wk_options w) (last (l ++ good_scrapes [Scrape at_ answer])) (wk_runtime w').
Proof.
  intros Hh Hm. unfold PollMetrics, scrapes. cbn. destruct (read_scrape answer) as [e|m]; cbn; [by rewrite app_nil_r|].
  destruct (EWMA_Add _ _ _ _). cbn. by rewrite last_snoc.
Qed.

Lemma polls_match backend options w ps : new_worker backend options = inr w ->
  let rt := wk_runtime (run_polls w ps) in
  health_matches (wk_options w) (health_results ps) rt /\ metrics_match (wk_options w) (last (good_scrapes ps)) rt.
Proof.
  intros Hw. assert (Hpos : 0 < mo_RecoveryAfter (wk_options w) /\ 0 < mo_UnhealthyAfter (wk_options w) /\
    wk_runtime w = {| zeroBackendRuntime with br_BackendID := br_BackendID (wk_runtime w); br_State := BackendUnhealthy |}).
  { unfold NewWorker in Hw. destruct (Backend_Validate _ _ _); [done|]. destruct (Options_validate _) eqn:Ho; [done|]. injection Hw as <-.
    unfold Options_validate in Ho. cbn in *. destruct (_ || _) in Ho; [discriminate|]. destruct (_ || _) eqn:E in Ho; [discriminate|].
    b2p. split_and!; done || lia. }
  destruct Hpos as (Hr & Hu & H0). induction ps as [|p ps [IHh IHm]] using rev_ind.
  - cbn. rewrite H0. unfold health_matches. cbn. split_and!; try done. split; [done|]. intros (a & b & H & _). symmetry in H.
    apply app_eq_nil in H as [_ H]. apply app_eq_nil in H as [H _]. apply (f_equal length) in H. rewrite length_replicate in H. cbn in H. lia.
  - cbn zeta. rewrite polls_snoc. destruct (polls_fixed w ps) as [Ho _]. unfold health_results, scrapes. rewrite !omap_app.
    rewrite <- Ho in *. destruct p as [at_ answer|at_ answer].
    + split; [by apply (health_poll_matches (run_polls w ps))|]. cbn [omap list_omap]. rewrite app_nil_r. by apply health_keeps_metrics.
    + change (omap _ ps ++ omap _ [Scrape at_ answer]) with (health_results ps ++ []) at 1. rewrite app_nil_r. by apply scrape_matches.
Qed.

Lemma new_worker_options backend options w : new_worker backend options = inr w ->
  mo_RecoveryAfter (wk_options w) = mo_RecoveryAfter options /\ mo_UnhealthyAfter (wk_options w) = mo_UnhealthyAfter options /\
  mo_StaleAfter (wk_options w) = mo_StaleAfter options /\ 0 < mo_StaleAfter options.
Proof.
  unfold NewWorker. intros Hw. destruct (Backend_Validate _ _ _); [done|]. destruct (Options_validate _) eqn:Ho; [done|]. injection Hw as <-.
  unfold Options_validate in Ho. cbn in *. destruct (_ || _) eqn:E in Ho; [discriminate|]. b2p. split_and!; done || lia.
Qed.

Lemma snapshot_unhealthy (w : Worker) at_ : 0 < mo_StaleAfter (wk_options w) ->
  br_State (Worker_Snapshot w at_) <> BackendUnhealthy <->
  br_Healthy (wk_runtime w) = true /\ br_LastMetricsAt (wk_runtime w) <> GoTime.zero /\
  GoTime.Sub at_ (br_LastMetricsAt (wk_runtime w)) <= mo_StaleAfter (wk_options w).
Proof.
  intros Hs. unfold Worker_Snapshot, worker_state, GoTime.IsZero. cbn.
  destruct (br_Healthy (wk_runtime w)); cbn; [|naive_solver].
  destruct (Z.eqb_spec (br_LastMetricsAt (wk_runtime w)) GoTime.zero); cbn; [naive_solver|].
  destruct (Z.ltb_spec (GoTime.Sub at_ (br_LastMetricsAt (wk_runtime w))) 0);
    destruct (Z.leb_spec (if GoTime.Sub at_ (br_LastMetricsAt (wk_runtime w)) <? 0 then 0 else GoTime.Sub at_ (br_LastMetricsAt (wk_runtime w))) (mo_StaleAfter (wk_options w))).
  all: repeat case_match; cbn in *; b2p; intuition (try done; try lia).
Qed.

(** The runtime of a backend follows its polls.  After any polls of a new worker the
    snapshot is unhealthy exactly unless there were [RecoveryAfter] healthy answers in a
    row with no [UnhealthyAfter] failures in a row since, and the last good scrape is not
    older than [StaleAfter]; and the values reported are those of that scrape, whatever
    scrapes failed after it. *)
Theorem worker_follows_polls backend options w ps at_ : new_worker backend options = inr w ->
  let snapshot := Worker_Snapshot (run_polls w ps) at_ in
  (br_State snapshot <> BackendUnhealthy <->
    recovered (mo_RecoveryAfter options) (mo_UnhealthyAfter options) (health_results ps) /\
    exists t m, last (good_scrapes ps) = Some (t, m) /\ t <> GoTime.zero /\ GoTime.Sub at_ t <= mo_StaleAfter options) /\
  (forall t m, last (good_scrapes ps) = Some (t, m) ->
    br_Running snapshot = me_Running m /\ br_Waiting snapshot = me_Waiting m /\ br_KVCacheUsage snapshot = me_KVCacheUsage m).
Proof.
  intros Hw. destruct (polls_match _ _ _ ps Hw) as [(_ & _ & Hh) Hm]. destruct (polls_fixed w ps) as [Ho _].
  destruct (new_worker_options _ _ _ Hw) as (Hr & Hu & Hs & Hpos). rewrite Hr, Hu in Hh. cbn zeta. split.
  - rewrite snapshot_unhealthy, Ho, Hs, <- Hh by (rewrite Ho, Hs; done). apply and_iff_compat_l. unfold metrics_match in Hm.
    destruct (last (good_scrapes ps)) as [[t m]|]; [|rewrite Hm; naive_solver]. destruct Hm as [-> _]. naive_solver.
  - intros t m Hl. rewrite Hl in Hm. unfold Worker_Snapshot. cbn. by destruct Hm as (_ & ? & ? & ? & _).
Qed.

End Runs.

(** ** Parsing *)

Section Parsing.
Context {MetricFamily Metric : Type} (GetType : MetricFamily -> MetricType) (family_Metric : MetricFamily -> list Metric)
  (Gauge Untyped : Metric -> option float64)
  (TextToMetricFamilies : list ascii -> option (gmap string MetricFamily)).

Abbreviation sum_family := (sumFamily GetType family_Metric Gauge Untyped).
Abbreviation parse := (ParseMetrics GetType family_Metric Gauge Untyped TextToMetricFamilies).

(** The value of a metric under the type of its family. *)
Definition reads (type : MetricType) (metric : Metric) (value : float64) : Prop :=
  match type with
  | MetricType_GAUGE => Gauge metric = Some value
  | MetricType_UNTYPED => Untyped metric = Some value
  | MetricType_other => False
  end.

(** Every metric has a value, finite and not negative, and their sum [v] is finite. *)
Definition family_sum (family : MetricFamily) (v : float64) : Prop :=
  exists values, Forall2 (reads (GetType family)) (family_Metric family) values /\ values <> [] /\
    Forall (fun x => invalid_value x = false) values /\ v = fold_left fadd values fzero /\ finite v = true.

(** What an error says of the families. *)
Definition explained (families : gmap string MetricFamily) (e : MetricsError) : Prop :=
  match e with
  | MetricsUnparsable => False
  | MetricMissing name => forall family, families !! name = Some family -> family_Metric family = []
  | NoGaugeValue name => exists family metric, families !! name = Some family /\ metric ∈ family_Metric family /\
      GetType family = MetricType_GAUGE /\ Gauge metric = None
  | NoUntypedValue name => exists family metric, families !! name = Some family /\ metric ∈ family_Metric family /\
      GetType family = MetricType_UNTYPED /\ Untyped metric = None
  | NotAGauge name => exists family, families !! name = Some family /\ GetType family = MetricType_other
  | InvalidMetricValue name value => exists family metric, families !! name = Some family /\ metric ∈ family_Metric family /\
      reads (GetType family) metric value /\ invalid_value value = true
  | SumNotFinite => exists name family values, families !! name = Some family /\ Forall2 (reads (GetType family)) (family_Metric family) values /\
      Forall (fun x => invalid_value x = false) values /\ finite (fold_left fadd values fzero) = false
  end.

Lemma metric_value_reads type name metric value : metric_value Gauge Untyped type name metric = inr value <-> reads type metric value.
Proof. unfold metric_value, reads. repeat case_match; naive_solver. Qed.

Lemma sum_metrics_inr type name metrics sum v : sum_metrics Gauge Untyped type name metrics sum = inr v <->
  exists values, Forall2 (reads type) metrics values /\ Forall (fun x => invalid_value x = false) values /\ v = fold_left fadd values sum.
Proof.
  revert sum. induction metrics as [|metric metrics IH]; intros sum; cbn.
  - split; [intros [= <-]; by exists []|]. intros (values & Hv & _ & ->). apply Forall2_nil_inv_l in Hv as ->. done.
  - split.
    + destruct (metric_value _ _ _ _ _) as [e|value] eqn:Hv; [done|]. destruct (invalid_value value) eqn:Hi; [done|].
      rewrite IH. intros (values & H1 & H2 & ->). exists (value :: values). split_and!; [|by constructor|done].
      constructor; [|done]. by eapply metric_value_reads.
    + intros (values & Hv & Hi & ->). inversion Hv as [|? value ? values' Hr Hvs]; subst. inversion Hi; subst.
      apply (metric_value_reads type name) in Hr as ->. case_match; [congruence|]. apply IH. by exists values'.
Qed.

Lemma finite_test v : IsNaN v || IsInf v = negb (finite v).
Proof. unfold finite. by destruct (IsNaN v), (IsInf v). Qed.

Lemma sum_family_inr family name v :
  sum_family family name = inr v <-> exists f, family = Some f /\ family_sum f v.
Proof.
  unfold sumFamily. destruct family as [f|]; [|naive_solver]. destruct (length (family_Metric f) =? 0)%nat eqn:Hl.
  - split; [done|]. intros (? & [= <-] & values & Hv & Hne & _). apply Nat.eqb_eq, length_zero_iff_nil in Hl. rewrite Hl in Hv.
    by apply Forall2_nil_inv_l in Hv.
  - apply Nat.eqb_neq in Hl. split.
    + destruct (sum_metrics _ _ _ _ _ _) as [e|w] eqn:Hs; [done|]. rewrite finite_test. destruct (finite w) eqn:Hf; [|done].
      intros [= <-]. apply sum_metrics_inr in Hs as (values & H1 & H2 & ->). exists f. split; [done|]. exists values. split_and!; try done.
      intros ->. apply Forall2_length in H1. by cbn in H1.
    + intros (? & [= <-] & values & Hv & Hne & Hi & -> & Hf).
      assert (Hs : sum_metrics Gauge Untyped (GetType f) name (family_Metric f) fzero = inr (fold_left fadd values fzero)) by (apply sum_metrics_inr; eauto).
      by rewrite Hs, finite_test, Hf.
Qed.

Lemma sum_metrics_inl families name f metrics sum e : families !! name = Some f -> metrics ⊆ family_Metric f ->
  sum_metrics Gauge Untyped (GetType f) name metrics sum = inl e -> explained families e.
Proof.
  intros Hf. revert sum. induction metrics as [|metric metrics IH]; intros sum Hsub; cbn; [done|].
  assert (Hin : metric ∈ family_Metric f) by set_solver. assert (Hsub' : metrics ⊆ family_Metric f) by set_solver.
  destruct (metric_value _ _ _ _ _) as [e'|value] eqn:Hv.
  - intros [= ->]. unfold metric_value in Hv. repeat case_match; try discriminate; injection Hv as <-; cbn; eauto 10.
  - destruct (invalid_value value) eqn:Hi; [|by apply IH]. intros [= <-]. apply metric_value_reads in Hv. cbn. eauto 10.
Qed.

Lemma sum_family_inl families name e : sum_family (families !! name) name = inl e -> explained families e.
Proof.
  unfold sumFamily. destruct (families !! name) as [f|] eqn:Hf; [|intros [= <-]; cbn; congruence].
  destruct (length (family_Metric f) =? 0)%nat eqn:Hl.
  { intros [= <-] f'. rewrite Hf. intros [= <-]. by apply length_zero_iff_nil, Nat.eqb_eq. }
  destruct (sum_metrics _ _ _ _ _ _) as [e'|w] eqn:Hs; [intros [= ->]; by eapply sum_metrics_inl|]. rewrite finite_test.
  destruct (finite w) eqn:Hfin; [done|]. intros [= <-]. apply sum_metrics_inr in Hs as (values & H1 & H2 & ->). cbn. eauto 10.
Qed.

(** The family that serves the cache usage. *)
Definition kv_family (families : gmap string MetricFamily) : option MetricFamily :=
  match families !! kvMetric with Some family => Some family | None => families !! legacyKVMetric end.

(** A scrape is accepted exactly when the text parses, and the running, the waiting
    and the cache family, the latter under its current or its old name, have finite
    values that are not negative and a finite sum, which is what is reported.  Any other
    payload gives an error that says what is wrong with it. *)
Theorem parse_metrics_exact payload :
  (forall m, parse payload = inr m <-> exists families running waiting kv, TextToMetricFamilies payload = Some families /\
    families !! runningMetric = Some running /\ family_sum running (me_Running m) /\
    families !! waitingMetric = Some waiting /\ family_sum waiting (me_Waiting m) /\
    kv_family families = Some kv /\ family_sum kv (me_KVCacheUsage m)) /\
  (forall e, parse payload = inl e -> match TextToMetricFamilies payload with
                                      | None => e = MetricsUnparsable
                                      | Some families => explained families e
                                      end).
Proof.
  unfold ParseMetrics. destruct (TextToMetricFamilies payload) as [families|]; [|naive_solver].
  set (kv := match families !! kvMetric with None => (families !! legacyKVMetric, legacyKVMetric) | Some family => (Some family, kvMetric) end).
  assert (Hkv : kv.1 = kv_family families /\ kv.1 = families !! kv.2) by (subst kv; unfold kv_family; by case_match). destruct kv as [kvFamily kvName].
  cbn in Hkv. destruct Hkv as [Hk Hk']. split.
  - intros m. split.
    + destruct (sum_family (families !! runningMetric) _) eqn:H1; [done|]. destruct (sum_family (families !! waitingMetric) _) eqn:H2; [done|].
      destruct (sum_family kvFamily _) eqn:H3; [done|]. intros [= <-]. apply sum_family_inr in H1 as (fr & ? & ?), H2 as (fw & ? & ?), H3 as (fk & ? & ?).
      exists families, fr, fw, fk. rewrite <- Hk. done.
    + intros (? & running & waiting & kv & [= <-] & H1 & H2 & H3 & H4 & H5 & H6). destruct m as [mr mw mk]. cbn in *.
      assert (E1 : sum_family (families !! runningMetric) runningMetric = inr mr) by (apply sum_family_inr; eauto).
      assert (E2 : sum_family (families !! waitingMetric) waitingMetric = inr mw) by (apply sum_family_inr; eauto).
      assert (E3 : sum_family kvFamily kvName = inr mk) by (apply sum_family_inr; rewrite Hk; eauto). by rewrite E1, E2, E3.
  - intros e. destruct (sum_family (families !! runningMetric) _) eqn:H1; [intros [= ->]; by eapply sum_family_inl|].
    destruct (sum_family (families !! waitingMetric) _) eqn:H2; [intros [= ->]; by eapply sum_family_inl|]. rewrite Hk'.
    destruct (sum_family (families !! kvName) _) eqn:H3; [|done]. intros [= ->]. by eapply sum_family_inl.
Qed.

End Parsing.

(** ** Witness *)

Definition w_backend : Backend :=
  {| be_ID := 10; be_Revision := 1; be_ModelPoolID := 3; be_Name := "a"; be_BaseURL := "http://a"; be_Enabled := true; be_Draining := false;
     be_CapacityHint := fone; be_RunningSoftLimit := fone; be_UpstreamAPIKeyEnv := ""; be_CreatedAt := 0; be_UpdatedAt := 0 |}.

Definition w_thresholds : Thresholds :=
  {| th_Busy := of_ratio 1 2; th_Saturated := fone; th_Emergency := of_int 2; th_BusyRecovery := of_ratio 1 4; th_SaturatedRecovery := of_ratio 3 4;
     th_EmergencyRecovery := of_ratio 3 2; th_EnterWindow := 10; th_RecoveryWindow := 20 |}.

Definition w_options : MonitorOptions :=
  {| mo_HealthInterval := 1; mo_HealthTimeout := 1; mo_MetricsInterval := 1; mo_MetricsTimeout := 1; mo_StaleAfter := 5; mo_UnhealthyAfter := 2;
     mo_RecoveryAfter := 2;
     mo_Circuit := {| FailureThreshold := 2; FailureWindow := 10; OpenCooldown := 5; HalfOpenMaxProbes := 1 |};
     mo_CircuitCoordinator := false; mo_AdmissionRuntime := false; mo_ReplicaID := 1%N; mo_ProbeTTL := 9; mo_ProbeRenewInterval := 3;
     mo_Limits := {| lim_QueueSoft := fone; lim_KVSoft := of_ratio 1 2; lim_KVHard := fone; lim_RunningSoft := fone |};
     mo_EWMAWindow := 5; mo_BusyThreshold := of_ratio 1 2; mo_SaturatedThreshold := fone; mo_PoolThresholds := w_thresholds |}.

Definition w_url : URL unit :=
  {| url_Scheme := "http"; url_Host := "a"; url_User := false; url_RawQuery := ""; url_Fragment := ""; url_Path := ""; url_RawPath := ""; url_rest := tt |}.

(** Families are lists of gauges; the text is one letter that says how much is running. *)
Definition w_parse (text : list ascii) : option (gmap string (list float64)) :=
  match text with
  | [c] => Some {[runningMetric := [of_int (Z.of_nat (nat_of_ascii c))]; waitingMetric := [fzero]; legacyKVMetric := [fone; fzero]]}
  | _ => None
  end.

Definition w_new : NewWorkerError + Worker := NewWorker (fun _ => Some w_url) (fun _ => "http://a") w_backend w_options.

(** Healthy twice, a scrape, one failure and a scrape that does not parse. *)
Definition w_polls : list Poll :=
  [Health 1 (Some (200, None)); Health 2 (Some (204, None)); Scrape 3 (Some (200, Some ["A"%char])); Health 4 None; Scrape 6 (Some (200, Some []))].

Lemma worker_follows_polls_witness :
  match w_new with
  | inr w => let snapshot := Worker_Snapshot (polls (fun _ => MetricType_GAUGE) id Some Some w_parse id w w_polls) 8 in
             br_State snapshot <> BackendUnhealthy /\ br_Running snapshot = of_int 65
  | inl _ => False
  end.
Proof.
  destruct w_new as [e|w] eqn:E; [vm_compute in E; discriminate|].
  destruct (worker_follows_polls (fun _ => MetricType_GAUGE) id Some Some w_parse _ _ id _ _ _ w_polls 8 E) as [[_ H1] H2].
  assert (Hl : last (scrapes (fun _ => MetricType_GAUGE) id Some Some w_parse w_polls) =
    Some (3, {| me_Running := of_int 65; me_Waiting := fzero; me_KVCacheUsage := fone |})) by (vm_compute; reflexivity).
  split; [|exact (proj1 (H2 _ _ Hl))]. apply H1. split.
  - exists [], [false]. split; [reflexivity|]. intros (a & b & H). apply (f_equal length) in H. rewrite !length_app, length_replicate in H. cbn in H. lia.
  - do 2 eexists. split; [exact Hl|]. split; vm_compute; discriminate.
Defined.

Lemma parse_metrics_exact_witness : exists families running waiting kv,
  w_parse ["A"%char] = Some families /\ families !! runningMetric = Some running /\
  family_sum (fun _ => MetricType_GAUGE) id Some Some running (of_int 65) /\ families !! waitingMetric = Some waiting /\
  family_sum (fun _ => MetricType_GAUGE) id Some Some waiting fzero /\ kv_family families = Some kv /\
  family_sum (fun _ => MetricType_GAUGE) id Some Some kv fone.
Proof.
  apply (proj1 (proj1 (parse_metrics_exact (fun _ => MetricType_GAUGE) id Some Some w_parse ["A"%char])
    {| me_Running := of_int 65; me_Waiting := fzero; me_KVCacheUsage := fone |})). vm_compute. reflexivity.
Defined.
