(* ===== verification/Monitor.v ===== *)
(** The monitor of all backends ([src/internal/monitor/manager.go]).

    A [Manager] is the struct without its mutex and channels; the breakers it points to
    are in a store, since a completion keeps the breaker it was taken from when recovery
    replaces the breaker of the worker.  A reference without a breaker is nil, and [None]
    is its dereference.

    The mutex is released around every call of a coordinator, so the operations are cut
    there: each critical section is a function here, and a [Thread] is an operation that
    is between two of its sections.  [exec] does one section, with the answers of the
    environment, and any sequence of actions is an interleaving.  The order in which Go
    ranges over a map is a parameter. *)

From Stdlib Require Import Ascii.
From S2P Require Import Prelude Domain Float64 CircuitBreaker Coordination Pressure GoStrings Validate Recovery Worker.

(** A [*circuitbreaker.Breaker]. *)
Definition breaker_ref := nat.

(** ** State *)

Record managedWorker := {
  mw_worker : Worker;
  mw_generation : Z;
  mw_breaker : breaker_ref;
  mw_lastRecovery : Time
}.

Record Manager := {
  mg_options : MonitorOptions;
  mg_workers : gmap Z managedWorker;
  mg_poolMachine : gmap Z PoolMachine;
  mg_poolRuntime : gmap Z PoolRuntime;
  mg_poolInflight : gmap Z Z;
  mg_nextGen : Z;
  mg_shutdown : bool;
  mg_probes : gmap UUID ProbeIdentity;
  mg_circuitBacklog : list CircuitCompletion;
  mg_replaying : bool;
  mg_backendInflight : gmap Z Z;
  mg_breakers : gmap breaker_ref Breaker;
  mg_nextBreaker : breaker_ref
}.

Definition zeroOptions : CircuitBreaker.Options :=
  {| FailureThreshold := 0; FailureWindow := 0; OpenCooldown := 0; HalfOpenMaxProbes := 0 |}.

(** The options as [NewManager] completes them. *)
Definition complete_options (o : MonitorOptions) : MonitorOptions :=
  let o := if bool_decide (mo_Circuit o = zeroOptions)
           then {| o with mo_Circuit := {| FailureThreshold := 5; FailureWindow := 30 * GoTime.Second; OpenCooldown := 15 * GoTime.Second;
                                           HalfOpenMaxProbes := 1 |} |}
           else o in
  if mo_ProbeRenewInterval o <=? 0 then
    let interval := Z.quot (mo_ProbeTTL o) 3 in
    {| o with mo_ProbeRenewInterval := if interval <=? 0 then 30 * GoTime.Second else interval |}
  else o.

Definition NewManager (o : MonitorOptions) : Manager :=
  {| mg_options := complete_options o; mg_workers := ∅; mg_poolMachine := ∅; mg_poolRuntime := ∅; mg_poolInflight := ∅; mg_nextGen := 0;
     mg_shutdown := false; mg_probes := ∅; mg_circuitBacklog := []; mg_replaying := false; mg_backendInflight := ∅; mg_breakers := ∅;
     mg_nextBreaker := 0%nat |}.

(** A new breaker in the store; a failed [New] leaves the reference nil. *)
Definition alloc_breaker (m : Manager) : Manager * breaker_ref :=
  let r := mg_nextBreaker m in
  ({| m with mg_breakers := match CircuitBreaker.New (mo_Circuit (mg_options m)) with inr b => <[r := b]> (mg_breakers m) | inl _ => mg_breakers m end;
             mg_nextBreaker := S r |}, r).

(** ** What the environment is asked *)

(** The readings of [Status()], [CoordinationReady()] and [RecoveryStatus()], the latter
    two where they are set. *)
Record Reading := {
  rd_Status : Status;
  rd_CoordinationReady : option bool;
  rd_RecoveryStatus : option RecoveryStatus
}.

Definition coordinationReady (r : Reading) : bool := st_Available (rd_Status r) && default true (rd_CoordinationReady r).

Definition emergencyAllowed (r : Reading) : bool :=
  negb (st_Permanent (rd_Status r)) &&
  match rd_RecoveryStatus r with None => true | Some status => negb (bool_decide (rst_State status = RecoveryPermanentFault)) end.

(** What [snapshotManaged] is told about one backend: the circuit of the coordinator and
    the readings of its three questions. *)
Record View := {
  vw_circuit : CircuitSnapshot;
  vw_ready : Reading;
  vw_recovery : Reading;
  vw_allowed : Reading
}.

Definition identity_of (b : Backend) : BackendIdentity :=
  {| bi_ID := be_ID b; bi_Revision := be_Revision b; bi_Enabled := be_Enabled b; bi_Draining := be_Draining b |}.

(** ** Snapshots *)

(** [emergencyBreaker(managed)]. *)
Definition emergencyBreaker (recovery : option RecoveryStatus) (id : Z) (managed : managedWorker) (m : Manager) : Manager * breaker_ref :=
  match recovery with
  | Some status =>
    if GoTime.After (rst_LastSuccess status) (mw_lastRecovery managed) then
      let '(m, r) := alloc_breaker m in
      ({| m with mg_workers := <[id := {| managed with mw_breaker := r; mw_lastRecovery := rst_LastSuccess status |}]> (mg_workers m) |}, r)
    else (m, mw_breaker managed)
  | None => (m, mw_breaker managed)
  end.

(** [breaker.Snapshot(at)] through a reference. *)
Definition breaker_snapshot (r : breaker_ref) (at_ : Time) (m : Manager) : option (Manager * CircuitBreaker.Snapshot) :=
  b ← mg_breakers m !! r;
  let '(b, s) := TakeSnapshot at_ b in
  Some ({| m with mg_breakers := <[r := b]> (mg_breakers m) |}, s).

Definition with_circuit (snapshot : BackendRuntime) (state : CircuitState) (failures : Z) (retryAt : Time) (probes : Z) (available : bool) : BackendRuntime :=
  {| snapshot with br_CircuitState := Some state; br_CircuitFailures := failures; br_CircuitRetryAt := retryAt;
                   br_CircuitProbesInFlight := probes; br_CircuitAvailable := available |}.

(** [m.snapshotManaged(managed, at)], for the worker of the backend [id]. *)
Definition snapshotManaged (id : Z) (managed : managedWorker) (at_ : Time) (v : View) (m : Manager) : option (Manager * BackendRuntime) :=
  let snapshot := Worker_Snapshot (mw_worker managed) at_ in
  if negb (mo_CircuitCoordinator (mg_options m)) then
    '(m, c) ← breaker_snapshot (mw_breaker managed) at_ m;
    Some (m, with_circuit snapshot (Snapshot_State c) (Snapshot_FailureCount c) (Snapshot_RetryAt c) (Snapshot_ProbesInFlight c) (Snapshot_Available c))
  else
    let circuit := vw_circuit v in
    let set available := with_circuit snapshot (cs_State circuit) (cs_FailureCount circuit) (cs_RetryAt circuit) (cs_ProbesInFlight circuit) available in
    if negb (coordinationReady (vw_ready v)) then
      let '(m, r) := emergencyBreaker (rd_RecoveryStatus (vw_recovery v)) id managed m in
      '(m, local) ← breaker_snapshot r at_ m;
      Some (m, set (emergencyAllowed (vw_allowed v) && bool_decide (cs_State circuit = CircuitClosed) &&
                    bool_decide (Snapshot_State local = CircuitClosed)))
    else Some (m, set (cs_Available circuit)).

(** [Snapshot]; what it reads after the unlock is read at once. *)
Definition Manager_Snapshot (backendID : Z) (at_ : Time) (v : View) (m : Manager) : option (Manager * BackendRuntime) :=
  let inflight := mget (mg_backendInflight m) backendID in
  match mg_workers m !! backendID with
  | None => Some (m, {| zeroBackendRuntime with br_BackendID := backendID; br_State := BackendUnhealthy; br_GatewayInflight := inflight |})
  | Some managed =>
    '(m, snapshot) ← snapshotManaged backendID managed at_ v m;
    Some (m, {| snapshot with br_GatewayInflight := inflight |})
  end.

(** The worker of the backend, if it runs under exactly this configuration.  Workers hold
    validated backends, whose numbers are positive, so [==] is equality. *)
Definition matching_worker (expected : Backend) (m : Manager) : option managedWorker :=
  managed ← mg_workers m !! be_ID expected;
  if bool_decide (wk_backend (mw_worker managed) = expected) then Some managed else None.

Definition BackendHealth (expected : Backend) (at_ : Time) (m : Manager) : BackendRuntime * bool :=
  if mg_shutdown m then (zeroBackendRuntime, false)
  else
    match matching_worker expected m with
    | None => (zeroBackendRuntime, false)
    | Some managed => (Worker_Snapshot (mw_worker managed) at_, true)
    end.

Section Monitor.
(** The order of [range] over a map. *)
Context (order : forall A : Type, gmap Z A -> list Z).
Arguments order {A}.

(** ** Pools *)

Definition currentPoolWaitingLocked (poolID : Z) (at_ : Time) (m : Manager) : float64 :=
  fold_left (fun total id =>
    match mg_workers m !! id with
    | None => total
    | Some managed =>
      let backend := wk_backend (mw_worker managed) in
      if negb (be_ModelPoolID backend =? poolID) || be_Draining backend then total
      else
        let snapshot := Worker_Snapshot (mw_worker managed) at_ in
        if br_Healthy snapshot && br_MetricsFresh snapshot then fadd total (br_Waiting snapshot) else total
    end) (order (mg_workers m)) fzero.

(** [PoolSnapshot]; [admitted] is the answer of [AdmissionRuntime.PoolInflight]. *)
Definition PoolSnapshot (poolID : Z) (at_ : Time) (admitted : Z) (m : Manager) : PoolRuntime :=
  let runtime := default {| po_PoolID := poolID; po_State := PoolUnavailable; po_BestBackendPressure := fzero; po_AvailableBackends := 0;
                            po_AllBackendsWaiting := false; po_GatewayInflight := 0; po_TotalWaiting := fzero |} (mg_poolRuntime m !! poolID) in
  {| runtime with po_GatewayInflight := if mo_AdmissionRuntime (mg_options m) then admitted else mget (mg_poolInflight m) poolID;
                  po_TotalWaiting := currentPoolWaitingLocked poolID at_ m |}.

Definition AcquirePool (poolID maximum : Z) (m : Manager) : Manager * bool :=
  if (maximum <? 0) || ((0 <? maximum) && (maximum <=? mget (mg_poolInflight m) poolID)) then (m, false)
  else ({| m with mg_poolInflight := mincr (mg_poolInflight m) poolID |}, true).

(** The body of the release closure. *)
Definition releasePool (poolID : Z) (m : Manager) : Manager :=
  {| m with mg_poolInflight := mdecr (mg_poolInflight m) poolID |}.

(** The locals of the loop of [observePoolLocked]. *)
Record Observed := {
  os_best : float64;
  os_available : Z;
  os_allWaiting : bool;
  os_totalWaiting : float64
}.

Definition observe_worker (poolID : Z) (at_ : Time) (views : Z -> View) (acc : Manager * Observed) (id : Z) : option (Manager * Observed) :=
  let '(m, o) := acc in
  match mg_workers m !! id with
  | None => Some (m, o)
  | Some managed =>
    let backend := wk_backend (mw_worker managed) in
    if negb (be_ModelPoolID backend =? poolID) then Some (m, o)
    else
      '(m, snapshot) ← snapshotManaged id managed at_ (views id) m;
      if negb (br_Healthy snapshot) || negb (br_MetricsFresh snapshot) || be_Draining backend then Some (m, o)
      else
        let o := {| o with os_totalWaiting := fadd (os_totalWaiting o) (br_Waiting snapshot) |} in
        if negb (br_CircuitAvailable snapshot) then Some (m, o)
        else
          Some (m, {| o with os_available := os_available o + 1;
                             os_best := if flt (br_Pressure snapshot) (os_best o) then br_Pressure snapshot else os_best o;
                             os_allWaiting := if fle (br_Waiting snapshot) fzero then false else os_allWaiting o |})
  end.

Definition observePoolLocked (poolID : Z) (at_ : Time) (views : Z -> View) (m : Manager) : option (Manager * PoolRuntime) :=
  '(m, o) ← foldM (observe_worker poolID at_ views)
      (m, {| os_best := Inf1; os_available := 0; os_allWaiting := true; os_totalWaiting := fzero |}) (order (mg_workers m));
  let some := 0 <? os_available o in
  let machine := default (NewPoolMachine (mo_PoolThresholds (mg_options m))) (mg_poolMachine m !! poolID) in
  let machine := Observe at_ (os_best o) (os_allWaiting o && some) some machine in
  Some ({| m with mg_poolMachine := <[poolID := machine]> (mg_poolMachine m) |},
        {| po_PoolID := poolID; po_State := pm_current machine;
           po_BestBackendPressure := if os_available o =? 0 then fzero else os_best o;
           po_AvailableBackends := os_available o;
           po_AllBackendsWaiting := if os_available o =? 0 then false else os_allWaiting o;
           po_GatewayInflight := mget (mg_poolInflight m) poolID; po_TotalWaiting := os_totalWaiting o |}).

(** The pools of the workers. *)
Definition active_pools (m : Manager) : gmap Z unit :=
  list_to_map ((fun managed => (be_ModelPoolID (wk_backend (mw_worker managed)), tt)) <$> (map_to_list (mg_workers m)).*2).

(** [observePoolRuntime]; [views] tells what the coordinator says when the pool is
    observed. *)
Definition observePoolRuntime (at_ : Time) (views : Z -> Z -> View) (m : Manager) : option Manager :=
  if mg_shutdown m then Some m
  else
    let active := active_pools m in
    let gone := fun poolID => bool_decide (active !! poolID = None) && bool_decide (is_Some (mg_poolMachine m !! poolID)) in
    let m := {| m with mg_poolMachine := filter (fun '(poolID, _) => gone poolID = false) (mg_poolMachine m);
                       mg_poolRuntime := filter (fun '(poolID, _) => gone poolID = false) (mg_poolRuntime m) |} in
    foldM (fun m poolID =>
      '(m, runtime) ← observePoolLocked poolID at_ (views poolID) m;
      Some {| m with mg_poolRuntime := <[poolID := runtime]> (mg_poolRuntime m) |}) m (order active).

(** ** Reconciliation *)

Context {Rest : Type} (url_parse : string -> option (URL Rest)) (url_string : URL Rest -> string).

Inductive ReconcileError :=
  | ReconcileCircuits (e : Error)
  | DuplicateBackend (id : Z)
  | InvalidBackend (id : Z) (e : ValidationError)
  | ReconcileCanceled
  | ReconcileBreaker (id : Z) (e : NewError)
  | ReconcileWorker (e : NewWorkerError).

(** The backends to run, as their validation normalises them. *)
Fixpoint desired_backends (backends : list Backend) (desired : gmap Z Backend) : ReconcileError + gmap Z Backend :=
  match backends with
  | [] => inr desired
  | backend :: backends =>
    if negb (be_Enabled backend) then desired_backends backends desired
    else
      match desired !! be_ID backend with
      | Some _ => inl (DuplicateBackend (be_ID backend))
      | None =>
        match Backend_Validate url_parse url_string backend with
        | inl e => inl (InvalidBackend (be_ID backend) e)
        | inr backend => desired_backends backends (<[be_ID backend := backend]> desired)
        end
      end
  end.

(** [workers] without those that [desired] changes or drops. *)
Definition kept_workers (desired : gmap Z Backend) (workers : gmap Z managedWorker) : gmap Z managedWorker :=
  filter (fun '(id, managed) => desired !! id = Some (wk_backend (mw_worker managed))) workers.

Fixpoint start_workers (ids : list Z) (desired : gmap Z Backend) (m : Manager) : Manager * option ReconcileError :=
  match ids with
  | [] => (m, None)
  | id :: ids =>
    match desired !! id with
    | None => start_workers ids desired m
    | Some backend =>
      match CircuitBreaker.New (mo_Circuit (mg_options m)) with
      | inl e => (m, Some (ReconcileBreaker id e))
      | inr _ =>
        match NewWorker url_parse url_string backend (mg_options m) with
        | inl e => (m, Some (ReconcileWorker e))
        | inr worker =>
          let '(m, r) := alloc_breaker m in
          let generation := (mg_nextGen m + 1) mod 2 ^ 64 in
          let managed := {| mw_worker := worker; mw_generation := generation; mw_breaker := r; mw_lastRecovery := GoTime.zero |} in
          start_workers ids desired {| m with mg_nextGen := generation; mg_workers := <[id := managed]> (mg_workers m) |}
        end
      end
    end
  end.

(** The critical section of [Reconcile]. *)
Definition reconcile_locked (desired : gmap Z Backend) (m : Manager) : Manager * option ReconcileError :=
  if mg_shutdown m then (m, Some ReconcileCanceled)
  else
    let kept := kept_workers desired (mg_workers m) in
    let desired := filter (fun '(id, _) => kept !! id = None) desired in
    start_workers (order desired) desired {| m with mg_workers := kept |}.

(** [Reconcile] up to the last [observePoolRuntime]; [coordinated] is the answer of the
    coordinator's [Reconcile]. *)
Definition Reconcile (coordinated : option Error) (backends : list Backend) (m : Manager) : Manager * option ReconcileError :=
  match (if mo_CircuitCoordinator (mg_options m) then coordinated else None) with
  | Some e => (m, Some (ReconcileCircuits e))
  | None =>
    match desired_backends backends ∅ with
    | inl e => (m, Some e)
    | inr desired => reconcile_locked desired m
    end
  end.

Definition Shutdown (m : Manager) : Manager :=
  if mg_shutdown m then m else {| m with mg_shutdown := true; mg_workers := ∅ |}.

(** ** Attempts *)

(** What the completion function of an attempt captures. *)
Inductive Ticket :=
  | TLocal (backend : Z) (r : breaker_ref) (c : Completion)
  | TDistributed (attemptID : UUID) (identity : BackendIdentity) (generation : Z)
  | TEmergency (attemptID : UUID) (identity : BackendIdentity) (generation : Z) (r : breaker_ref) (c : Completion).

Definition ticket_backend (t : Ticket) : Z :=
  match t with TLocal id _ _ => id | TDistributed _ identity _ | TEmergency _ identity _ _ _ => bi_ID identity end.

Definition incrBackend (id : Z) (m : Manager) : Manager := {| m with mg_backendInflight := mincr (mg_backendInflight m) id |}.

Definition releaseBackendInflight (id : Z) (m : Manager) : Manager := {| m with mg_backendInflight := mdecr (mg_backendInflight m) id |}.

(** [breaker.Acquire(at)] through a reference. *)
Definition breaker_acquire (r : breaker_ref) (at_ : Time) (m : Manager) : option (Manager * option Completion) :=
  b ← mg_breakers m !! r;
  let '(b, c) := CircuitBreaker.Acquire at_ b in
  Some ({| m with mg_breakers := <[r := b]> (mg_breakers m) |}, c).

(** [complete(outcome, at)] of a completion of the breaker. *)
Definition breaker_complete (r : breaker_ref) (c : Completion) (outcome : InferenceOutcome) (at_ : Time) (m : Manager) : option Manager :=
  b ← mg_breakers m !! r;
  Some {| m with mg_breakers := <[r := complete c outcome at_ b]> (mg_breakers m) |}.

(** [AcquireBackend] without a coordinator. *)
Definition acquire_local (expected : Backend) (at_ : Time) (m : Manager) : option (Manager * option Ticket) :=
  match matching_worker expected m with
  | None => Some (m, None)
  | Some managed =>
    '(m, c) ← breaker_acquire (mw_breaker managed) at_ m;
    match c with
    | None => Some (m, None)
    | Some c => Some (incrBackend (be_ID expected) m, Some (TLocal (be_ID expected) (mw_breaker managed) c))
    end
  end.

(** Where [AcquireBackend] goes once the coordinator has answered. *)
Inductive Next := NextRefused | NextEmergency | NextCommit (decision : CircuitDecision).

Definition acquire_next (ready : Reading) (answer : Error + CircuitDecision) (ready' : Reading) : Next :=
  if negb (coordinationReady ready) then NextEmergency
  else
    match answer with
    | inl err => if AsPermanent err then NextRefused else NextEmergency
    | inr decision =>
      if negb (bool_decide (cd_Reason decision = ReasonNone)) || negb (coordinationReady ready') then NextRefused
      else NextCommit decision
    end.

Definition decision_generation (decision : CircuitDecision) : Z := from_option cs_Generation 0 (cd_Snapshot decision).

Definition acquire_commit (expected : Backend) (attemptID : UUID) (decision : CircuitDecision) (m : Manager) : Manager * option Ticket :=
  match matching_worker expected m with
  | None => (m, None)
  | Some _ =>
    let m := incrBackend (be_ID expected) m in
    let m := match cd_Permit decision with
             | None => m
             | Some permit => {| m with mg_probes := <[pi_PermitID permit := permit]> (mg_probes m) |}
             end in
    (m, Some (TDistributed attemptID (identity_of expected) (decision_generation decision)))
  end.

(** [acquireEmergencyBackend] up to its critical section: the generation of the cached
    circuit when it goes on. *)
Definition emergency_asked (allowed : Reading) (cached : CircuitSnapshot) : option Z :=
  if negb (emergencyAllowed allowed) then None
  else if negb (bool_decide (cs_State cached = CircuitClosed)) then None
  else Some (cs_Generation cached).

Definition acquire_emergency (expected : Backend) (at_ : Time) (attemptID : UUID) (generation : Z) (recovery : option RecoveryStatus) (m : Manager)
    : option (Manager * option Ticket) :=
  match matching_worker expected m with
  | None => Some (m, None)
  | Some managed =>
    let '(m, r) := emergencyBreaker recovery (be_ID expected) managed m in
    '(m, s) ← breaker_snapshot r at_ m;
    if negb (bool_decide (Snapshot_State s = CircuitClosed)) then Some (m, None)
    else
      '(m, c) ← breaker_acquire r at_ m;
      match c with
      | None => Some (m, None)
      | Some c => Some (incrBackend (be_ID expected) m, Some (TEmergency attemptID (identity_of expected) generation r c))
      end
  end.

(** ** Failures that could not be reported *)

Definition maxBacklog : Z := 4096.

(** The last [maxBacklog] entries, and how many are cut off. *)
Definition cut_backlog (l : list CircuitCompletion) : list CircuitCompletion * Z :=
  let n := Z.of_nat (length l) in
  if maxBacklog <? n then (drop (Z.to_nat (n - maxBacklog)) l, n - maxBacklog) else (l, 0).

Definition bufferCircuitFailure (completion : CircuitCompletion) (m : Manager) : Manager * Z :=
  let '(l, dropped) := cut_backlog (mg_circuitBacklog m ++ [completion]) in
  ({| m with mg_circuitBacklog := l |}, dropped).

(** The last critical section of [ReplayCircuitFailures]. *)
Definition merge_backlog (kept : list CircuitCompletion) (m : Manager) : Manager * Z :=
  let '(l, overflow) := cut_backlog (kept ++ mg_circuitBacklog m) in
  ({| m with mg_circuitBacklog := l |}, overflow).

Definition replayableCircuitError (err : Error) : bool := bool_decide (AsReason err = None).

Definition completion_of (attemptID : UUID) (identity : BackendIdentity) (generation : Z) (outcome : InferenceOutcome) (reported : Time) : CircuitCompletion :=
  {| cc_AttemptID := attemptID; cc_Backend := identity; cc_Generation := generation; cc_Outcome := outcome; cc_ReportedOutcomeAt := reported |}.

Definition expired (now : Time) (c : CircuitCompletion) : bool :=
  negb (GoTime.After (cc_ReportedOutcomeAt c) (GoTime.Add now (- (24 * GoTime.Hour)))).

(** The probes of [renewProbes] that were lost. *)
Definition forget_lost (results : list RenewResult) (m : Manager) : Manager * Z :=
  fold_left (fun '(m, lost) result =>
    if bool_decide (rr_Reason result = ReasonLeaseLost)
    then ({| m with mg_probes := delete (li_LeaseID (rr_Lease result)) (mg_probes m) |}, lost + 1)
    else (m, lost)) results (m, 0).

(** ** Interleavings *)

(** An operation between two of its critical sections. *)
Inductive Thread :=
  | Acquiring (expected : Backend) (at_ : Time) (attemptID : UUID)
  | Committing (expected : Backend) (attemptID : UUID) (decision : CircuitDecision)
  | AskingEmergency (expected : Backend) (at_ : Time) (attemptID : UUID)
  | TakingEmergency (expected : Backend) (at_ : Time) (attemptID : UUID) (generation : Z)
  | Holding (t : Ticket)
  | Buffering (t : Ticket) (completion : CircuitCompletion)
  | Forgetting (t : Ticket)
  | Releasing (t : Ticket)
  | HoldingPool (poolID : Z)
  | Replaying (now : Time) (pending kept : list CircuitCompletion) (expired : Z) (err : option Error)
  | EndingReplay (err : option Error)
  | Renewing (probes : list ProbeIdentity)
  | Finished.

(** What the environment answers a thread that goes on. *)
Inductive Reply :=
  | Go
  | AcquireReply (ready : Reading) (answer : Error + CircuitDecision) (ready' : Reading)
  | EmergencyReply (allowed : Reading) (cached : CircuitSnapshot)
  | RecoveryReply (recovery : option RecoveryStatus)
  | CompleteCall (outcome : InferenceOutcome) (ready : Reading) (reported : Time) (result : option Error)
  | CompleteReply (result : option Error)
  | RenewReply (results : option (list RenewResult)).

Inductive Action :=
  | DoAcquirePool (poolID maximum : Z)
  | DoAcquireBackend (expected : Backend) (at_ : Time) (attemptID : UUID)
  | DoReconcile (coordinated : option Error) (backends : list Backend)
  | DoObserve (at_ : Time) (views : Z -> Z -> View)
  | DoSnapshot (backendID : Z) (at_ : Time) (v : View)
  | DoPoll (id generation : Z) (p : Poll)
  | DoReplay (now : Time)
  | DoRenew
  | DoShutdown
  | Proceed (i : nat) (r : Reply).

(** The manager, the operations under way, and what became of the failures that were
    buffered: all of them, those the coordinator took or refused for good, those that
    were dropped, and the number of drops the observer was told. *)
Record MonitorSystem := {
  sy_manager : Manager;
  sy_threads : list Thread;
  sy_buffered : list CircuitCompletion;
  sy_settled : list CircuitCompletion;
  sy_dropped : list CircuitCompletion;
  sy_reported : Z
}.

(** [Blocked]: not possible now.  [Crashed]: a nil dereference. *)
Inductive Step := Blocked | Crashed | Stepped (s : MonitorSystem).

Context {MetricFamily Metric : Type} (GetType : MetricFamily -> MetricType) (family_Metric : MetricFamily -> list Metric)
  (Gauge Untyped : Metric -> option float64)
  (TextToMetricFamilies : list ascii -> option (gmap string MetricFamily)) (exp : float64 -> float64).

Definition with_manager (s : MonitorSystem) (m : Manager) : MonitorSystem := {| s with sy_manager := m |}.
Definition with_thread (s : MonitorSystem) (i : nat) (t : Thread) : MonitorSystem := {| s with sy_threads := <[i := t]> (sy_threads s) |}.
Definition spawn (s : MonitorSystem) (t : Thread) : MonitorSystem := {| s with sy_threads := sy_threads s ++ [t] |}.

(** The end of an acquisition: the thread holds the ticket, or nothing. *)
Definition acquired (t : option Ticket) : Thread := match t with Some t => Holding t | None => Finished end.

(** What the deferred functions of a completion do first. *)
Definition deferred (t : Ticket) : Thread := match t with TDistributed _ _ _ => Forgetting t | _ => Releasing t end.

Definition dropped_of (l : list CircuitCompletion) (n : Z) : list CircuitCompletion := take (Z.to_nat n) l.

(** The completion function up to its next critical section. *)
Definition complete_call (t : Ticket) (outcome : InferenceOutcome) (ready : Reading) (reported : Time) (result : option Error) (m : Manager)
    : option (Manager * Thread) :=
  match t with
  | TLocal _ r c => m ← breaker_complete r c outcome reported m; Some (m, deferred t)
  | TDistributed attemptID identity generation =>
    if negb (bool_decide (outcome = InferenceFailure)) && negb (coordinationReady ready) then Some (m, deferred t)
    else
      match result with
      | Some err =>
        if bool_decide (outcome = InferenceFailure) && replayableCircuitError err
        then Some (m, Buffering t (completion_of attemptID identity generation outcome reported)) else Some (m, deferred t)
      | None => Some (m, deferred t)
      end
  | TEmergency attemptID identity generation r c =>
    m ← breaker_complete r c outcome reported m;
    Some (m, if bool_decide (outcome = InferenceFailure)
             then Buffering t (completion_of attemptID identity generation outcome reported) else deferred t)
  end.

Definition proceed_replay (s : MonitorSystem) (i : nat) (now : Time) (pending kept : list CircuitCompletion) (n : Z) (err : option Error)
    (result : option Error) : MonitorSystem :=
  let m := sy_manager s in
  match pending with
  | [] =>
    let '(m', overflow) := merge_backlog kept m in
    with_thread {| s with sy_manager := m'; sy_dropped := dropped_of (kept ++ mg_circuitBacklog m) overflow ++ sy_dropped s;
                          sy_reported := sy_reported s + n + overflow |} i (EndingReplay err)
  | c :: pending =>
    if expired now c then
      with_thread {| s with sy_dropped := c :: sy_dropped s |} i (Replaying now pending kept (n + 1) err)
    else
      match result with
      | Some e =>
        if replayableCircuitError e
        then with_thread s i (Replaying now pending (kept ++ [c]) n (Some (from_option (fun e0 => ErrJoined e0 e) e err)))
        else with_thread {| s with sy_settled := c :: sy_settled s |} i (Replaying now pending kept n err)
      | None => with_thread {| s with sy_settled := c :: sy_settled s |} i (Replaying now pending kept n err)
      end
  end.

(** Result of a section that can dereference nil. *)
Definition or_crash (o : option MonitorSystem) : Step := match o with Some s => Stepped s | None => Crashed end.

Definition proceed (s : MonitorSystem) (i : nat) (t : Thread) (r : Reply) : Step :=
  let m := sy_manager s in
  match t, r with
  | Acquiring expected at_ attemptID, AcquireReply ready answer ready' =>
    Stepped (with_thread s i match acquire_next ready answer ready' with
                             | NextRefused => Finished
                             | NextEmergency => AskingEmergency expected at_ attemptID
                             | NextCommit decision => Committing expected attemptID decision
                             end)
  | Committing expected attemptID decision, Go =>
    let '(m, t) := acquire_commit expected attemptID decision m in
    Stepped (with_thread (with_manager s m) i (acquired t))
  | AskingEmergency expected at_ attemptID, EmergencyReply allowed cached =>
    Stepped (with_thread s i match emergency_asked allowed cached with
                             | None => Finished
                             | Some generation => TakingEmergency expected at_ attemptID generation
                             end)
  | TakingEmergency expected at_ attemptID generation, RecoveryReply recovery =>
    or_crash ('(m, t) ← acquire_emergency expected at_ attemptID generation recovery m;
              Some (with_thread (with_manager s m) i (acquired t)))
  | Holding t, CompleteCall outcome ready reported result =>
    or_crash ('(m, t) ← complete_call t outcome ready reported result m;
              Some (with_thread (with_manager s m) i t))
  | Buffering t completion, Go =>
    let '(m', dropped) := bufferCircuitFailure completion m in
    Stepped (with_thread {| s with sy_manager := m'; sy_buffered := completion :: sy_buffered s;
                                   sy_dropped := dropped_of (mg_circuitBacklog m ++ [completion]) dropped ++ sy_dropped s;
                                   sy_reported := sy_reported s + dropped |} i (deferred t))
  | Forgetting t, Go =>
    let m' := match t with TDistributed attemptID _ _ => {| m with mg_probes := delete attemptID (mg_probes m) |} | _ => m end in
    Stepped (with_thread (with_manager s m') i (Releasing t))
  | Releasing t, Go => Stepped (with_thread (with_manager s (releaseBackendInflight (ticket_backend t) m)) i Finished)
  | HoldingPool poolID, Go => Stepped (with_thread (with_manager s (releasePool poolID m)) i Finished)
  | Replaying now pending kept n err, CompleteReply result => Stepped (proceed_replay s i now pending kept n err result)
  | EndingReplay _, Go => Stepped (with_thread (with_manager s {| m with mg_replaying := false |}) i Finished)
  | Renewing _, RenewReply results =>
    Stepped (with_thread (with_manager s (from_option (fun results => (forget_lost results m).1) m results)) i Finished)
  | _, _ => Blocked
  end.

Definition exec (s : MonitorSystem) (a : Action) : Step :=
  let m := sy_manager s in
  match a with
  | DoAcquirePool poolID maximum =>
    let '(m, ok) := AcquirePool poolID maximum m in
    Stepped (spawn (with_manager s m) (if (ok : bool) then HoldingPool poolID else Finished))
  | DoAcquireBackend expected at_ attemptID =>
    if negb (mo_CircuitCoordinator (mg_options m)) then
      or_crash ('(m, t) ← acquire_local expected at_ m; Some (spawn (with_manager s m) (acquired t)))
    else
      match matching_worker expected m with
      | None => Stepped (spawn s Finished)
      | Some _ => Stepped (spawn s (Acquiring expected at_ attemptID))
      end
  | DoReconcile coordinated backends => Stepped (with_manager s (Reconcile coordinated backends m).1)
  | DoObserve at_ views => or_crash (m ← observePoolRuntime at_ views m; Some (with_manager s m))
  | DoSnapshot backendID at_ v => or_crash ('(m, _) ← Manager_Snapshot backendID at_ v m; Some (with_manager s m))
  | DoPoll id generation p =>
    match mg_workers m !! id with
    | None => Blocked
    | Some managed =>
      if mw_generation managed =? generation then
        let worker := poll GetType family_Metric Gauge Untyped TextToMetricFamilies exp (mw_worker managed) p in
        Stepped (with_manager s {| m with mg_workers := <[id := {| managed with mw_worker := worker |}]> (mg_workers m) |})
      else Blocked
    end
  | DoReplay now =>
    if mg_replaying m then Blocked
    else
      let pending := mg_circuitBacklog m in
      Stepped (spawn (with_manager s {| m with mg_replaying := true; mg_circuitBacklog := [] |})
        match pending with [] => EndingReplay None | _ => Replaying now pending [] 0 None end)
  | DoRenew =>
    if bool_decide (mg_probes m = ∅) then Stepped (spawn s Finished)
    else Stepped (spawn s (Renewing (map_to_list (mg_probes m)).*2))
  | DoShutdown => Stepped (with_manager s (Shutdown m))
  | Proceed i r =>
    match sy_threads s !! i with
    | None => Blocked
    | Some t => proceed s i t r
    end
  end.

Fixpoint run (s : MonitorSystem) (actions : list Action) : Step :=
  match actions with
  | [] => Stepped s
  | a :: actions => match exec s a with Stepped s => run s actions | step => step end
  end.

Definition initial (o : MonitorOptions) : MonitorSystem :=
  {| sy_manager := NewManager o; sy_threads := []; sy_buffered := []; sy_settled := []; sy_dropped := []; sy_reported := 0 |}.

End Monitor.
