(* ===== verification/MonitorSafety.v ===== *)
(** The monitor in every interleaving: the inflight counters are those of the attempts
    and pool slots under way, no breaker reference is nil, every breaker with its open
    attempts is a state of the circuit breaker, and failures that could not be reported
    are neither lost nor doubled. *)

From Stdlib Require Import Ascii.
From S2P Require Import Prelude Domain Float64 CircuitBreaker Coordination Pressure GoStrings Validate Recovery Worker Monitor.

(** ** What a section leaves alone *)

(** The parts of the manager that snapshots, observations, polls and reconciliation do
    not touch. *)
Definition ledger (m : Manager) :=
  (mg_options m, mg_poolInflight m, mg_backendInflight m, mg_circuitBacklog m, mg_replaying m).

(** The workers, without their breakers. *)
Definition population (m : Manager) : gmap Z (Worker * Z) := (fun managed => (mw_worker managed, mw_generation managed)) <$> mg_workers m.

Section MonitorSafety.
Context (order : forall A : Type, gmap Z A -> list Z).
Context {Rest : Type} (url_parse : string -> option (URL Rest)) (url_string : URL Rest -> string).
Context {MetricFamily Metric : Type} (GetType : MetricFamily -> MetricType) (family_Metric : MetricFamily -> list Metric)
  (Gauge Untyped : Metric -> option float64)
  (TextToMetricFamilies : list ascii -> option (gmap string MetricFamily)) (exp : float64 -> float64).

Abbreviation exec := (exec order url_parse url_string GetType family_Metric Gauge Untyped TextToMetricFamilies exp).
Abbreviation run := (run order url_parse url_string GetType family_Metric Gauge Untyped TextToMetricFamilies exp).

(** ** Breakers and their open attempts *)

(** The completions of the breaker [r] that were not called yet. *)
Definition open_completion (r : breaker_ref) (t : Thread) : option Completion :=
  match t with
  | Holding (TLocal _ r' c) | Holding (TEmergency _ _ _ r' c) => if decide (r' = r) then Some c else None
  | _ => None
  end.

Definition open_of (r : breaker_ref) (threads : list Thread) : list Completion := omap (open_completion r) threads.

(** Every breaker of the store, with its open completions, is a state its step relation
    reaches; references of workers and of open completions are not nil. *)
Record breakers_ok (m : Manager) (threads : list Thread) : Prop := {
  bo_reach : forall r b, mg_breakers m !! r = Some b ->
    exists n l, l ≡ₚ open_of r threads /\ reach (mo_Circuit (mg_options m)) n {| breaker := b; outstanding := l |};
  bo_open : forall r, mg_breakers m !! r = None -> open_of r threads = [];
  bo_worker : forall id managed, mg_workers m !! id = Some managed -> is_Some (mg_breakers m !! mw_breaker managed);
  bo_fresh : forall r, (mg_nextBreaker m <= r)%nat -> mg_breakers m !! r = None;
  bo_options : forall id managed, mg_workers m !! id = Some managed -> exists b, CircuitBreaker.New (mo_Circuit (mg_options m)) = inr b
}.

(** A section that changes at most breakers and workers and opens no attempt. *)
Definition steady (m m' : Manager) : Prop :=
  (ledger m' = ledger m /\ mg_probes m' = mg_probes m) /\ forall threads, breakers_ok m threads -> breakers_ok m' threads.

Lemma steady_refl m : steady m m.
Proof. by split. Qed.

Lemma steady_trans m1 m2 m3 : steady m1 m2 -> steady m2 m3 -> steady m1 m3.
Proof. intros [[H1 H1'] H2] [[H3 H3'] H4]. split; [split; congruence|auto]. Qed.

Lemma ledger_options m m' : ledger m' = ledger m -> mg_options m' = mg_options m.
Proof. by intros [= ? _ _ _ _]. Qed.

Lemma open_of_snoc r threads t : open_of r (threads ++ [t]) = open_of r threads ++ from_option (fun c => [c]) [] (open_completion r t).
Proof. unfold open_of. rewrite omap_app. cbn. by destruct (open_completion r t). Qed.

(** A new breaker has no open attempts. *)
Lemma alloc_ok m threads b : breakers_ok m threads -> CircuitBreaker.New (mo_Circuit (mg_options m)) = inr b ->
  breakers_ok (alloc_breaker m).1 threads /\ mg_breakers (alloc_breaker m).1 !! (alloc_breaker m).2 = Some b.
Proof.
  intros [H1 H2 H3 H4 H5] Hb. unfold alloc_breaker. rewrite Hb. cbn. split; [|by rewrite lookup_insert_eq]. split; cbn.
  - intros r b'. destruct (decide (r = mg_nextBreaker m)) as [->|Hne].
    + rewrite lookup_insert_eq. intros [= <-]. exists 0%nat, []. rewrite H2 by (by apply H4). split; [done|by constructor].
    + rewrite lookup_insert_ne by done. apply H1.
  - intros r. rewrite lookup_insert_None. intros [Hr _]. by apply H2.
  - intros id managed Hm. destruct (decide (mw_breaker managed = mg_nextBreaker m)) as [->|]; [by rewrite lookup_insert_eq|].
    rewrite lookup_insert_ne by done. by eapply H3.
  - intros r Hr. rewrite lookup_insert_ne by lia. apply H4. lia.
  - exact H5.
Qed.

(** One step of a breaker, with a change of its open completions. *)
Lemma breaker_update m threads threads' r b b' : breakers_ok m threads -> mg_breakers m !! r = Some b ->
  (forall l, l ≡ₚ open_of r threads -> exists l', l' ≡ₚ open_of r threads' /\ step {| breaker := b; outstanding := l |} {| breaker := b'; outstanding := l' |}) ->
  (forall r', r' <> r -> open_of r' threads' ≡ₚ open_of r' threads) ->
  breakers_ok {| m with mg_breakers := <[r := b']> (mg_breakers m) |} threads'.
Proof.
  intros [H1 H2 H3 H4 H5] Hb Hs Ho. split; cbn.
  - intros r' b0. destruct (decide (r' = r)) as [->|Hne].
    + rewrite lookup_insert_eq. intros [= <-]. destruct (H1 r b Hb) as (n & l & Hl & Hr). destruct (Hs l Hl) as (l' & Hl' & Hstep).
      exists (S n), l'. split; [done|]. by eapply reach_step.
    + rewrite lookup_insert_ne by done. intros Hr'. destruct (H1 r' b0 Hr') as (n & l & Hl & Hr). exists n, l. split; [|done]. by rewrite Ho.
  - intros r'. rewrite lookup_insert_None. intros [Hr' Hne]. apply Permutation_nil. rewrite Ho by done. by rewrite H2.
  - intros id managed Hm. destruct (decide (mw_breaker managed = r)) as [->|]; [by rewrite lookup_insert_eq|].
    rewrite lookup_insert_ne by done. by eapply H3.
  - intros r' Hr'. rewrite lookup_insert_ne; [by apply H4|]. intros <-. rewrite H4 in Hb by done. done.
  - exact H5.
Qed.

(** ** Snapshots and observations *)

Lemma breaker_snapshot_steady m threads r at_ : breakers_ok m threads -> is_Some (mg_breakers m !! r) ->
  exists m' s, breaker_snapshot r at_ m = Some (m', s) /\ steady m m' /\ mg_workers m' = mg_workers m.
Proof.
  intros Hok [b Hb]. unfold breaker_snapshot. rewrite Hb. cbn. destruct (TakeSnapshot at_ b) as [b' s] eqn:E. do 2 eexists.
  split; [done|]. split; [|done]. split; [done|]. intros threads' Hok'. eapply breaker_update; [done|done| |done].
  intros l Hl. exists l. split; [done|]. replace b' with (TakeSnapshot at_ b).1 by (by rewrite E). apply (step_snapshot at_ {| breaker := b; outstanding := l |}).
Qed.

(** Replacing the record of a worker by one with a live breaker. *)
Lemma worker_update m threads id managed managed' : breakers_ok m threads -> mg_workers m !! id = Some managed ->
  is_Some (mg_breakers m !! mw_breaker managed') -> breakers_ok {| m with mg_workers := <[id := managed']> (mg_workers m) |} threads.
Proof.
  intros [H1 H2 H3 H4 H5] Hm Hb. split; cbn; try done.
  - intros id' managed0. rewrite lookup_insert_Some. intros [[_ <-]|[_ Hm0]]; [done|by eapply H3].
  - intros id' managed0 _. by eapply H5.
Qed.

Lemma emergency_steady m threads recovery id managed : breakers_ok m threads -> mg_workers m !! id = Some managed ->
  let '(m', r) := emergencyBreaker recovery id managed m in
  steady m m' /\ is_Some (mg_breakers m' !! r) /\ population m' = population m.
Proof.
  intros Hok Hm. pose proof (bo_worker _ _ Hok id managed Hm) as Hb. destruct (bo_options _ _ Hok id managed Hm) as [b Hnew].
  unfold emergencyBreaker. destruct recovery as [status|]; [|by split_and!; [apply steady_refl|..]].
  destruct (GoTime.After _ _); [|by split_and!; [apply steady_refl|..]].
  destruct (alloc_breaker m) as [m1 r] eqn:E. unfold alloc_breaker in E. injection E as Em Er. cbn. rewrite Hnew in Em.
  assert (Hr : is_Some (mg_breakers m1 !! r)) by (subst; cbn; by rewrite lookup_insert_eq).
  assert (Hw : mg_workers m1 = mg_workers m) by (by subst). split_and!.
  - split; [by subst|]. intros threads' Hok'. eapply worker_update; [|rewrite Hw; exact Hm|done]. destruct (alloc_ok m threads' b Hok' Hnew) as [Ha _].
    unfold alloc_breaker in Ha. rewrite Hnew in Ha. by subst.
  - done.
  - unfold population. cbn. rewrite Hw, fmap_insert. cbn. apply insert_id. by rewrite lookup_fmap, Hm.
Qed.

(** A section that is defined, steady and keeps the workers. *)
Abbreviation calm m threads o := (breakers_ok m threads -> exists m' x, o = Some (m', x) /\ steady m m' /\ population m' = population m).

Lemma snapshot_calm m threads id managed at_ v : mg_workers m !! id = Some managed -> calm m threads (snapshotManaged id managed at_ v m).
Proof.
  intros Hm Hok. unfold snapshotManaged. destruct (mo_CircuitCoordinator _); cbn [negb].
  - destruct (coordinationReady _); cbn [negb]; [do 2 eexists; split_and!; [done|apply steady_refl|done]|].
    pose proof (emergency_steady m threads (rd_RecoveryStatus (vw_recovery v)) id managed Hok Hm) as He.
    destruct (emergencyBreaker _ _ _ _) as [m1 r]. destruct He as (Hs & Hr & Hp).
    destruct (breaker_snapshot_steady m1 threads r at_ (proj2 Hs _ Hok) Hr) as (m2 & c & -> & Hs2 & Hw2). cbn. do 2 eexists.
    split; [done|]. split; [by eapply steady_trans|]. unfold population in *. by rewrite Hw2.
  - destruct (breaker_snapshot_steady m threads (mw_breaker managed) at_ Hok) as (m2 & c & -> & Hs2 & Hw2); [by eapply bo_worker|]. cbn.
    do 2 eexists. split; [done|]. split; [done|]. unfold population. by rewrite Hw2.
Qed.

Lemma Snapshot_calm m threads id at_ v : calm m threads (Manager_Snapshot id at_ v m).
Proof.
  intros Hok. unfold Manager_Snapshot. destruct (mg_workers m !! id) as [managed|] eqn:Hm.
  - destruct (snapshot_calm m threads id managed at_ v Hm Hok) as (m' & x & -> & Hs & Hp). cbn. by do 2 eexists.
  - do 2 eexists. split_and!; [done|apply steady_refl|done].
Qed.

Lemma observe_worker_calm m threads poolID at_ views o id : calm m threads (observe_worker poolID at_ views (m, o) id).
Proof.
  intros Hok. unfold observe_worker. destruct (mg_workers m !! id) as [managed|] eqn:Hm;
    [|by do 2 eexists; split_and!; [done|apply steady_refl|]].
  destruct (negb _); [by do 2 eexists; split_and!; [done|apply steady_refl|]|].
  destruct (snapshot_calm m threads id managed at_ (views id) Hm Hok) as (m' & x & -> & Hs & Hp). cbn.
  repeat case_match; by do 2 eexists.
Qed.

Lemma observe_pool_calm m threads poolID at_ views : calm m threads (observePoolLocked order poolID at_ views m).
Proof.
  intros Hok. unfold observePoolLocked.
  set (o0 := {| os_best := _ |}). set (I := fun acc : Manager * Observed => steady m acc.1 /\ population acc.1 = population m).
  destruct (foldM_ind (observe_worker poolID at_ views) I (m, o0) (order _ (mg_workers m))) as ([m1 o1] & -> & [Hs Hp]).
  { by split; [apply steady_refl|]. }
  { intros [m1 o1] id _ [Hs Hp]. destruct (observe_worker_calm m1 threads poolID at_ views o1 id (proj2 Hs _ Hok)) as (m2 & o2 & E & Hs2 & Hp2).
    exists (m2, o2). split; [done|]. split; cbn in *; [by eapply steady_trans|congruence]. }
  cbn in *. do 2 eexists. split; [done|]. split; [|done]. destruct Hs as [Hl Hs]. split; [done|]. intros threads' Hok'. by destruct (Hs _ Hok').
Qed.

Lemma observe_calm m threads at_ views : breakers_ok m threads ->
  exists m', observePoolRuntime order at_ views m = Some m' /\ steady m m' /\ population m' = population m.
Proof.
  intros Hok. unfold observePoolRuntime. destruct (mg_shutdown m); [exists m; split_and!; [done|apply steady_refl|done]|].
  set (I := fun m1 : Manager => steady m m1 /\ population m1 = population m).
  match goal with |- context [foldM ?body ?s ?l] => destruct (foldM_ind body I s l) as (m' & -> & [Hs Hp]) end; [| |by exists m'].
  - split; [|done]. split; [done|]. intros threads' Hok'. by destruct Hok'.
  - intros m1 poolID _ [Hs Hp]. destruct (observe_pool_calm m1 threads poolID at_ (views poolID) (proj2 Hs _ Hok)) as (m2 & rt & -> & Hs2 & Hp2).
    cbn. eexists. split; [done|]. split; cbn; [|unfold population in *; cbn; congruence]. eapply steady_trans; [exact Hs|]. eapply steady_trans; [exact Hs2|].
    split; [done|]. intros threads' Hok'. by destruct Hok'.
Qed.

(** ** Reconciliation *)

Lemma workers_subset m threads workers : breakers_ok m threads -> workers ⊆ mg_workers m -> breakers_ok {| m with mg_workers := workers |} threads.
Proof.
  intros [H1 H2 H3 H4 H5] Hs. split; cbn; try done; intros id managed Hm; [eapply H3|eapply H5]; by eapply lookup_weaken.
Qed.

(** A worker that is started, or polled. *)
Lemma worker_insert m threads id managed b : breakers_ok m threads -> CircuitBreaker.New (mo_Circuit (mg_options m)) = inr b ->
  is_Some (mg_breakers m !! mw_breaker managed) -> breakers_ok {| m with mg_workers := <[id := managed]> (mg_workers m) |} threads.
Proof.
  intros [H1 H2 H3 H4 H5] Hn Hb. split; cbn; try done; [|by eexists].
  intros id' managed0. rewrite lookup_insert_Some. intros [[_ <-]|[_ Hm0]]; [done|by eapply H3].
Qed.

Lemma start_workers_steady ids desired m : steady m (start_workers url_parse url_string ids desired m).1.
Proof.
  revert m. induction ids as [|id ids IH]; intros m; cbn [start_workers]; [apply steady_refl|].
  destruct (desired !! id) as [backend|]; [|apply IH].
  destruct (CircuitBreaker.New _) as [e|b] eqn:Hn; [apply steady_refl|]. destruct (NewWorker _ _ _ _) as [e|worker]; [apply steady_refl|].
  destruct (alloc_breaker m) as [m1 r] eqn:E. eapply steady_trans; [|apply IH]. split; [by unfold alloc_breaker in E; injection E as <- _|].
  intros threads Hok. destruct (alloc_ok m threads b Hok Hn) as [Hok1 Hr]. rewrite E in Hok1, Hr. cbn in Hok1, Hr.
  assert (Ho : mg_options m1 = mg_options m) by (by unfold alloc_breaker in E; injection E as <- _).
  destruct (worker_insert m1 threads id {| mw_worker := worker; mw_generation := (mg_nextGen m1 + 1) mod 2 ^ 64; mw_breaker := r; mw_lastRecovery := GoTime.zero |} b Hok1)
    as [G1 G2 G3 G4 G5]; [by rewrite Ho|by eexists|]. by split.
Qed.

Lemma reconcile_steady coordinated backends m : steady m (Reconcile order url_parse url_string coordinated backends m).1.
Proof.
  unfold Reconcile. destruct (if mo_CircuitCoordinator _ then _ else _); [apply steady_refl|]. destruct (desired_backends _ _ _ _) as [e|desired]; [apply steady_refl|].
  unfold reconcile_locked. destruct (mg_shutdown m); [apply steady_refl|]. eapply steady_trans; [|apply start_workers_steady].
  split; [done|]. intros threads Hok.
  pose proof (workers_subset m threads (kept_workers desired (mg_workers m)) Hok (map_filter_subseteq _ _)) as [G1 G2 G3 G4 G5]. by split.
Qed.

Lemma shutdown_steady m : steady m (Shutdown m).
Proof.
  unfold Shutdown. destruct (mg_shutdown m); [apply steady_refl|]. split; [done|]. intros threads Hok.
  pose proof (workers_subset m threads ∅ Hok (map_empty_subseteq _)) as [G1 G2 G3 G4 G5]. by split.
Qed.

(** ** Attempts *)

(** Nothing changes but the breaker [r], which gives out [t]. *)
Definition opens (threads : list Thread) (t : option Ticket) (threads' : list Thread) : Prop :=
  forall r, open_of r threads' ≡ₚ from_option (fun c => [c]) [] (open_completion r (acquired t)) ++ open_of r threads.

Lemma breaker_acquire_ok m threads r at_ : breakers_ok m threads -> is_Some (mg_breakers m !! r) ->
  exists m' c, breaker_acquire r at_ m = Some (m', c) /\ (ledger m' = ledger m /\ mg_probes m' = mg_probes m) /\ mg_workers m' = mg_workers m /\
    forall threads', (forall r', open_of r' threads' ≡ₚ (if decide (r = r') then from_option (fun c => [c]) [] c else []) ++ open_of r' threads) ->
      breakers_ok m' threads'.
Proof.
  intros Hok [b Hb]. unfold breaker_acquire. rewrite Hb. cbn. destruct (CircuitBreaker.Acquire at_ b) as [b' c] eqn:E. do 2 eexists.
  split; [done|]. split; [done|]. split; [done|]. intros threads' Ho. eapply breaker_update; [exact Hok|done| |].
  - intros l Hl. specialize (Ho r). rewrite decide_True in Ho by done. destruct c as [c|]; cbn in Ho.
    + exists (c :: l). split; [by rewrite Hl, Ho|]. by apply (step_acquire at_ {| breaker := b; outstanding := l |}).
    + exists l. split; [by rewrite Hl, Ho|]. by apply (step_denied at_ {| breaker := b; outstanding := l |}).
  - intros r' Hne. specialize (Ho r'). by rewrite decide_False in Ho by done.
Qed.

(** What an acquisition does: the counter of the backend goes up with the ticket, the
    attempt of a breaker is open. *)
Definition acquires (m : Manager) (threads : list Thread) (id : Z) (m' : Manager) (t : option Ticket) : Prop :=
  (forall threads', opens threads t threads' -> breakers_ok m' threads') /\
  match t with
  | None => ledger m' = ledger m
  | Some t => ticket_backend t = id /\ ledger m' = ledger (incrBackend id m)
  end.

Lemma breakers_ok_threads m threads threads' : (forall r, open_of r threads' ≡ₚ open_of r threads) -> breakers_ok m threads -> breakers_ok m threads'.
Proof.
  intros Ho [H1 H2 H3 H4 H5]. split; try done.
  - intros r b Hb. destruct (H1 r b Hb) as (n & l & Hl & Hr). exists n, l. by rewrite Ho.
  - intros r Hr. apply Permutation_nil. by rewrite Ho, H2.
Qed.

Lemma acquires_none m threads id m' : breakers_ok m' threads -> ledger m' = ledger m -> acquires m threads id m' None.
Proof. intros Hok Hl. split; [|done]. intros threads' Ho. by apply (breakers_ok_threads _ threads). Qed.

Lemma ledger_incr m m' id : ledger m' = ledger m -> ledger (incrBackend id m') = ledger (incrBackend id m).
Proof. unfold ledger, incrBackend. cbn. intros [= -> -> -> -> ->]. done. Qed.

(** A breaker, once taken from a worker, gives out a ticket. *)
Lemma take_acquires m threads id r at_ (ticket : Completion -> Ticket) :
  (forall c, ticket_backend (ticket c) = id /\ forall r', open_completion r' (Holding (ticket c)) = if decide (r = r') then Some c else None) ->
  breakers_ok m threads -> is_Some (mg_breakers m !! r) ->
  exists m' c, breaker_acquire r at_ m = Some (m', c) /\ mg_probes m' = mg_probes m /\
    match c with
    | None => acquires m threads id m' None
    | Some c => acquires m threads id (incrBackend id m') (Some (ticket c))
    end.
Proof.
  intros Ht Hok Hr. destruct (breaker_acquire_ok m threads r at_ Hok Hr) as (m' & c & -> & [Hl Hp] & _ & Hok'). exists m', c.
  split; [done|]. split; [done|]. destruct c as [c|].
  - destruct (Ht c) as [Hid Ho]. split; [|split; [done|by apply ledger_incr]]. intros threads' Hthreads.
    assert (Hb : breakers_ok m' threads'); [|by destruct Hb]. apply Hok'. intros r'. rewrite (Hthreads r'). cbn [acquired]. rewrite Ho. by case_decide.
  - apply acquires_none; [|done]. apply Hok'. intros r'. cbn. by case_decide.
Qed.

Lemma acquire_local_acquires m threads expected at_ : breakers_ok m threads ->
  exists m' t, acquire_local expected at_ m = Some (m', t) /\ mg_probes m' = mg_probes m /\ acquires m threads (be_ID expected) m' t.
Proof.
  intros Hok. unfold acquire_local, matching_worker. destruct (mg_workers m !! be_ID expected) as [managed|] eqn:Hm; cbn;
    [|do 2 eexists; do 2 (split; [done|]); by apply acquires_none]. case_bool_decide; [|do 2 eexists; do 2 (split; [done|]); by apply acquires_none].
  destruct (take_acquires m threads (be_ID expected) (mw_breaker managed) at_ (TLocal (be_ID expected) (mw_breaker managed)) (fun c => conj eq_refl (fun r' => eq_refl)) Hok)
    as (m' & c & -> & Hp & Ha); [by eapply bo_worker|]. cbn. destruct c; do 2 eexists; do 2 (split; [done|]); done.
Qed.

(** Steadiness before an acquisition. *)
Lemma acquires_steady m m1 threads id m' t : steady m m1 -> acquires m1 threads id m' t -> acquires m threads id m' t.
Proof.
  intros [[Hl _] _] [Hb Hm]. split; [done|]. destruct t; [|congruence]. destruct Hm as [? Hm]. split; [done|]. rewrite Hm. by apply ledger_incr.
Qed.

Lemma acquire_emergency_acquires m threads expected at_ attemptID generation recovery : breakers_ok m threads ->
  exists m' t, acquire_emergency expected at_ attemptID generation recovery m = Some (m', t) /\ mg_probes m' = mg_probes m /\
    acquires m threads (be_ID expected) m' t.
Proof.
  intros Hok. unfold acquire_emergency, matching_worker. destruct (mg_workers m !! be_ID expected) as [managed|] eqn:Hm; cbn;
    [|do 2 eexists; do 2 (split; [done|]); by apply acquires_none]. case_bool_decide; [|do 2 eexists; do 2 (split; [done|]); by apply acquires_none].
  pose proof (emergency_steady m threads recovery (be_ID expected) managed Hok Hm) as He. destruct (emergencyBreaker _ _ _ _) as [m1 r].
  destruct He as (Hs & Hr & _). destruct (breaker_snapshot r at_ m1) as [[m2 c]|] eqn:E2.
  2: { destruct (breaker_snapshot_steady m1 threads r at_ (proj2 Hs _ Hok) Hr) as (? & ? & E & _). congruence. }
  destruct (breaker_snapshot_steady m1 threads r at_ (proj2 Hs _ Hok) Hr) as (? & ? & E & Hs2 & _). rewrite E2 in E. injection E as <- <-.
  pose proof (steady_trans _ _ _ Hs Hs2) as Hs3. pose proof Hs3 as [[Hl3 Hp3] Hb3]. cbn.
  destruct (negb _); [do 2 eexists; do 2 (split; [done|]); by apply acquires_none; [apply Hb3|]|].
  destruct (take_acquires m2 threads (be_ID expected) r at_ (TEmergency attemptID (identity_of expected) generation r) (fun c => conj eq_refl (fun r' => eq_refl)))
    as (m' & c' & -> & Hp & Ha); [by apply Hb3| |].
  { unfold breaker_snapshot in E2. destruct (mg_breakers m1 !! r) as [b|]; [|done]. cbn in E2. destruct (TakeSnapshot at_ b). injection E2 as <- _. cbn.
    by rewrite lookup_insert_eq. }
  cbn. destruct c'; do 2 eexists; (split; [done|]); (split; [cbn; congruence|]); by eapply acquires_steady.
Qed.

Lemma acquire_commit_acquires m threads expected attemptID decision : breakers_ok m threads ->
  let '(m', t) := acquire_commit expected attemptID decision m in acquires m threads (be_ID expected) m' t.
Proof.
  intros Hok. unfold acquire_commit. destruct (matching_worker expected m); [|by apply acquires_none].
  split; [|split; [done|by destruct (cd_Permit decision)]]. intros threads' Ho. cbn in Ho.
  assert (Hb : breakers_ok m threads') by (by apply (breakers_ok_threads _ threads)). destruct (cd_Permit decision); by destruct Hb.
Qed.

(** ** The system *)

(** The attempts on a backend, and the slots of a pool, that are not released yet. *)
Definition backend_of (t : Thread) : option Z :=
  match t with Holding t | Buffering t _ | Forgetting t | Releasing t => Some (ticket_backend t) | _ => None end.
Definition pool_of (t : Thread) : option Z := match t with HoldingPool p => Some p | _ => None end.
Definition holds (id : Z) (t : Thread) : Prop := backend_of t = Some id.
Definition holds_pool (poolID : Z) (t : Thread) : Prop := pool_of t = Some poolID.

#[global] Instance holds_dec id t : Decision (holds id t).
Proof. unfold holds. apply _. Defined.
#[global] Instance holds_pool_dec p t : Decision (holds_pool p t).
Proof. unfold holds_pool. apply _. Defined.

(** The failures a replay has taken, how many of them had expired, and whether one runs. *)
Definition replayed (t : Thread) : list CircuitCompletion := match t with Replaying _ pending kept _ _ => kept ++ pending | _ => [] end.
Definition expired_of (t : Thread) : Z := match t with Replaying _ _ _ n _ => n | _ => 0 end.
Definition is_replay (t : Thread) : bool := match t with Replaying _ _ _ _ _ | EndingReplay _ => true | _ => false end.
Definition replays (t : Thread) : Prop := is_replay t = true.
#[global] Instance replays_dec t : Decision (replays t).
Proof. unfold replays. apply _. Defined.

Definition total (f : Thread -> Z) (threads : list Thread) : Z := foldr (fun t n => f t + n) 0 threads.

(** What a thread is about to buffer is a failure. *)
Definition buffers_failure (t : Thread) : Prop := match t with Buffering _ c => cc_Outcome c = InferenceFailure | _ => True end.

Record sys_ok (s : MonitorSystem) : Prop := {
  so_breakers : breakers_ok (sy_manager s) (sy_threads s);
  so_backend : counts (mg_backendInflight (sy_manager s)) (fun id => count_list (holds id) (sy_threads s));
  so_pool : counts (mg_poolInflight (sy_manager s)) (fun p => count_list (holds_pool p) (sy_threads s));
  so_backlog : Z.of_nat (length (mg_circuitBacklog (sy_manager s))) <= maxBacklog;
  so_conserved : sy_buffered s ≡ₚ mg_circuitBacklog (sy_manager s) ++ (sy_threads s ≫= replayed) ++ sy_settled s ++ sy_dropped s;
  so_failures : Forall (fun c => cc_Outcome c = InferenceFailure) (sy_buffered s) /\ Forall buffers_failure (sy_threads s);
  so_reported : Z.of_nat (length (sy_dropped s)) = sy_reported s + total expired_of (sy_threads s);
  so_replaying : count_list replays (sy_threads s) = if mg_replaying (sy_manager s) then 1 else 0
}.

(** Replacing a thread, in the sums over all threads. *)
Lemma parts_insert {A : Type} (f : list Thread -> list A) (i : nat) threads t t' : (forall a b, f (a ++ b) = f a ++ f b) ->
  threads !! i = Some t -> exists rest, f threads ≡ₚ f [t] ++ rest /\ f (<[i := t']> threads) ≡ₚ f [t'] ++ rest.
Proof.
  intros Hf Hi. pose proof (lookup_lt_Some _ _ _ Hi). exists (f (take i threads) ++ f (drop (S i) threads)).
  rewrite insert_take_drop by done. rewrite <- (take_drop_middle threads i t Hi) at 1.
  change (t :: drop (S i) threads) with ([t] ++ drop (S i) threads). change (t' :: drop (S i) threads) with ([t'] ++ drop (S i) threads).
  rewrite !Hf. split; solve_Permutation.
Qed.

Lemma open_insert r (i : nat) threads t t' : threads !! i = Some t -> exists rest,
  open_of r threads ≡ₚ from_option (fun c => [c]) [] (open_completion r t) ++ rest /\
  open_of r (<[i := t']> threads) ≡ₚ from_option (fun c => [c]) [] (open_completion r t') ++ rest.
Proof.
  intros Hi. destruct (parts_insert (open_of r) i threads t t' (omap_app _) Hi) as (rest & H1 & H2). exists rest.
  assert (E : forall t, open_of r [t] = from_option (fun c => [c]) [] (open_completion r t)) by (intros t0; unfold open_of; cbn; by case_match).
  by rewrite H1, H2, !E.
Qed.

Lemma replayed_insert (i : nat) threads t t' : threads !! i = Some t -> exists rest,
  threads ≫= replayed ≡ₚ replayed t ++ rest /\ <[i := t']> threads ≫= replayed ≡ₚ replayed t' ++ rest.
Proof.
  intros Hi. destruct (parts_insert (fun l => l ≫= replayed) i threads t t' (fun a b => bind_app replayed a b) Hi) as (rest & H1 & H2).
  exists rest. rewrite H1, H2. cbn. by rewrite !app_nil_r.
Qed.

Lemma total_insert f (i : nat) threads t t' : threads !! i = Some t -> total f (<[i := t']> threads) = total f threads - f t + f t'.
Proof.
  revert i. induction threads as [|t0 threads IH]; intros [|i] Hi; try done.
  - injection Hi as ->. cbn. lia.
  - specialize (IH i Hi). change (<[S i := t']> (t0 :: threads)) with (t0 :: <[i := t']> threads). unfold total in *. cbn [foldr]. lia.
Qed.

(** A thread that has ended weighs nothing. *)
Lemma sys_ok_spawn s : sys_ok s -> sys_ok (spawn s Finished).
Proof.
  intros [H1 H2 H3 H4 H5 [H6 H7] H8 H9]. split; cbn; try done.
  - eapply breakers_ok_threads; [|exact H1]. intros r. unfold open_of. by rewrite omap_app, app_nil_r.
  - eapply counts_ext; [exact H2|]. intros id. rewrite count_list_app, count_list_cons, count_list_nil, decide_False by done. lia.
  - eapply counts_ext; [exact H3|]. intros id. rewrite count_list_app, count_list_cons, count_list_nil, decide_False by done. lia.
  - rewrite bind_app. cbn. by rewrite app_nil_r.
  - split; [done|]. apply Forall_app. split; [done|by constructor].
  - unfold total in *. rewrite foldr_app. done.
  - rewrite count_list_app, count_list_cons, count_list_nil, decide_False by done. lia.
Qed.

Lemma spawn_thread s t : spawn s t = with_thread (spawn s Finished) (length (sy_threads s)) t.
Proof. unfold spawn, with_thread. cbn. rewrite insert_app_r_alt, Nat.sub_diag by done. done. Qed.

(** One operation goes on: its thread, and what the manager and the books do with it. *)
Lemma sys_ok_replace s s' i t t' : sys_ok s -> sy_threads s !! i = Some t -> sy_threads s' = <[i := t']> (sy_threads s) ->
  breakers_ok (sy_manager s') (sy_threads s') ->
  counts (mg_backendInflight (sy_manager s'))
    (fun id => count_list (holds id) (sy_threads s) - (if decide (holds id t) then 1 else 0) + (if decide (holds id t') then 1 else 0)) ->
  counts (mg_poolInflight (sy_manager s'))
    (fun p => count_list (holds_pool p) (sy_threads s) - (if decide (holds_pool p t) then 1 else 0) + (if decide (holds_pool p t') then 1 else 0)) ->
  Z.of_nat (length (mg_circuitBacklog (sy_manager s'))) <= maxBacklog ->
  (forall rest, sy_buffered s ≡ₚ mg_circuitBacklog (sy_manager s) ++ (replayed t ++ rest) ++ sy_settled s ++ sy_dropped s ->
     sy_buffered s' ≡ₚ mg_circuitBacklog (sy_manager s') ++ (replayed t' ++ rest) ++ sy_settled s' ++ sy_dropped s') ->
  Forall (fun c => cc_Outcome c = InferenceFailure) (sy_buffered s') -> buffers_failure t' ->
  Z.of_nat (length (sy_dropped s')) - Z.of_nat (length (sy_dropped s)) = sy_reported s' - sy_reported s + expired_of t' - expired_of t ->
  Z.b2z (is_replay t') - Z.b2z (is_replay t) = Z.b2z (mg_replaying (sy_manager s')) - Z.b2z (mg_replaying (sy_manager s)) -> sys_ok s'.
Proof.
  intros [H1 H2 H3 H4 H5 [H6 H7] H8 H9] Hi Ht G1 G2 G3 G4 G5 G6 G7 G8 G9. split; try done; rewrite Ht.
  - eapply counts_ext; [exact G2|]. intros id. by rewrite (count_list_insert _ _ _ _ _ Hi).
  - eapply counts_ext; [exact G3|]. intros p. by rewrite (count_list_insert _ _ _ _ _ Hi).
  - destruct (replayed_insert i (sy_threads s) t t' Hi) as (rest & R1 & R2). rewrite R2. apply G5. by rewrite <- R1.
  - split; [done|]. apply Forall_insert; done.
  - rewrite (total_insert _ _ _ _ _ Hi). lia.
  - rewrite (count_list_insert _ _ _ _ _ Hi), H9. repeat case_decide; unfold replays in *;
      destruct (is_replay t), (is_replay t'), (mg_replaying (sy_manager s)), (mg_replaying (sy_manager s')); cbn in *; congruence || lia.
Qed.

(** What a thread weighs in the books. *)
Definition weight (t : Thread) := (backend_of t, pool_of t, replayed t, expired_of t, is_replay t).

Lemma weight_holds t t' : weight t' = weight t -> forall id, (if decide (holds id t') then 1 else 0) = (if decide (holds id t) then 1 else 0).
Proof. intros [= E _ _ _ _] id. repeat case_decide; unfold holds in *; congruence. Qed.

Lemma weight_holds_pool t t' : weight t' = weight t -> forall p, (if decide (holds_pool p t') then 1 else 0) = (if decide (holds_pool p t) then 1 else 0).
Proof. intros [= _ E _ _ _] p. repeat case_decide; unfold holds_pool in *; congruence. Qed.

(** The ledger stays as it is and so does the weight. *)
Lemma sys_ok_same s m i t t' : sys_ok s -> sy_threads s !! i = Some t -> weight t' = weight t -> buffers_failure t' ->
  ledger m = ledger (sy_manager s) -> breakers_ok m (<[i := t']> (sy_threads s)) -> sys_ok (with_thread (with_manager s m) i t').
Proof.
  intros Hs Hi Hw Hf Hl Hb. pose proof Hs as [H1 H2 H3 H4 H5 [H6 H7] H8 H9]. pose proof Hw as [= W1 W2 W3 W4 W5].
  pose proof Hl as [= L1 L2 L3 L4 L5]. eapply sys_ok_replace; [exact Hs|exact Hi|done|..]; cbn; rewrite ?L1, ?L2, ?L3, ?L4, ?L5, ?W3, ?W4, ?W5; try done; try lia.
  - eapply counts_ext; [exact H2|]. intros id. cbn. rewrite (weight_holds _ _ Hw). lia.
  - eapply counts_ext; [exact H3|]. intros id. cbn. rewrite (weight_holds_pool _ _ Hw). lia.
Qed.

(** A thread that weighs nothing and holds no completion. *)
Definition inert (t : Thread) : Prop := weight t = weight Finished /\ forall r, open_completion r t = None.

Lemma open_same (i : nat) threads t t' : threads !! i = Some t -> (forall r, open_completion r t' = open_completion r t) ->
  forall r, open_of r (<[i := t']> threads) ≡ₚ open_of r threads.
Proof. intros Hi Ho r. destruct (open_insert r i threads t t' Hi) as (rest & R1 & R2). by rewrite R1, R2, Ho. Qed.

Lemma sys_ok_steady s m i t t' : sys_ok s -> sy_threads s !! i = Some t -> weight t' = weight t -> buffers_failure t' ->
  (forall r, open_completion r t' = open_completion r t) -> steady (sy_manager s) m -> sys_ok (with_thread (with_manager s m) i t').
Proof.
  intros Hs Hi Hw Hf Ho [[Hl _] Hb]. eapply sys_ok_same; [done..|]. apply Hb. eapply breakers_ok_threads; [by eapply open_same|]. apply Hs.
Qed.

Lemma sys_ok_acquired s m i t id tk : sys_ok s -> sy_threads s !! i = Some t -> inert t -> acquires (sy_manager s) (sy_threads s) id m tk ->
  sys_ok (with_thread (with_manager s m) i (acquired tk)).
Proof.
  intros Hs Hi [Hw Ho] [Hb Hl]. assert (Hok : breakers_ok m (<[i := acquired tk]> (sy_threads s))).
  { apply Hb. intros r. destruct (open_insert r i (sy_threads s) t (acquired tk) Hi) as (rest & R1 & R2). by rewrite R1, R2, Ho. }
  destruct tk as [tk|]; [|by eapply sys_ok_same]. destruct Hl as [Hid Hl]. pose proof Hl as [= L1 L2 L3 L4 L5]. pose proof Hw as [= W1 W2 W3 W4 W5].
  pose proof Hs as [H1 H2 H3 H4 H5 [H6 H7] H8 H9].
  eapply sys_ok_replace; [exact Hs|exact Hi|done|..]; cbn; rewrite ?L1, ?L2, ?L3, ?L4, ?L5, ?W3, ?W4, ?W5; try done; try lia.
  - eapply counts_ext; [apply counts_mincr; [exact H2|apply count_list_nonneg]|]. intros id'. cbn.
    repeat case_decide; unfold holds in *; cbn in *; congruence || lia.
  - eapply counts_ext; [exact H3|]. intros p. cbn. repeat case_decide; unfold holds_pool in *; cbn in *; congruence || lia.
  - cbn [Z.b2z]. lia.
Qed.

(** Calling the completion of a breaker. *)
Lemma breaker_complete_ok s i tk r c outcome at_ : sys_ok s -> sy_threads s !! i = Some (Holding tk) ->
  (forall r', open_completion r' (Holding tk) = if decide (r = r') then Some c else None) ->
  exists m', breaker_complete r c outcome at_ (sy_manager s) = Some m' /\ ledger m' = ledger (sy_manager s) /\ mg_probes m' = mg_probes (sy_manager s) /\
    forall t', (forall r', open_completion r' t' = None) -> breakers_ok m' (<[i := t']> (sy_threads s)).
Proof.
  intros Hs Hi Ho. pose proof (so_breakers _ Hs) as Hok. unfold breaker_complete.
  destruct (mg_breakers (sy_manager s) !! r) as [b|] eqn:Hb.
  2: { apply (bo_open _ _ Hok) in Hb. destruct (open_insert r i (sy_threads s) (Holding tk) Finished Hi) as (rest & R1 & _).
       rewrite Hb, Ho, decide_True in R1 by done. by apply Permutation_nil_cons in R1. }
  cbn. eexists. split; [done|]. split; [done|]. split; [done|]. intros t' Ht'. eapply breaker_update; [exact Hok|exact Hb| |].
  - intros l Hl. destruct (open_insert r i (sy_threads s) (Holding tk) t' Hi) as (rest & R1 & R2). rewrite Ho, decide_True in R1 by done. rewrite Ht' in R2. cbn in R1, R2.
    rewrite R1 in Hl. assert (Hc : c ∈ l) by (rewrite Hl; left). apply list_elem_of_split in Hc as (l1 & l2 & ->).
    exists (l1 ++ l2). split; [|by apply (step_complete {| breaker := b; outstanding := l1 ++ c :: l2 |})].
    rewrite R2. apply (Permutation_cons_inv (a := c)). by rewrite <- Hl, Permutation_middle.
  - intros r' Hne. destruct (open_insert r' i (sy_threads s) (Holding tk) t' Hi) as (rest & R1 & R2). rewrite Ho, decide_False in R1 by done.
    by rewrite R1, R2, Ht'.
Qed.

Lemma complete_call_ok s i tk outcome ready reported result : sys_ok s -> sy_threads s !! i = Some (Holding tk) ->
  exists m' t', complete_call tk outcome ready reported result (sy_manager s) = Some (m', t') /\ sys_ok (with_thread (with_manager s m') i t').
Proof.
  intros Hs Hi. unfold complete_call. destruct tk as [id r c|attemptID identity generation|attemptID identity generation r c].
  - destruct (breaker_complete_ok s i _ r c outcome reported Hs Hi) as (m' & -> & Hl & _ & Hok); [done|]. cbn. do 2 eexists. split; [done|].
    eapply sys_ok_same; [done|done|done|done|done|by apply Hok].
  - assert (H : forall t', weight t' = weight (Holding (TDistributed attemptID identity generation)) -> buffers_failure t' -> (forall r', open_completion r' t' = None) ->
      sys_ok (with_thread (with_manager s (sy_manager s)) i t')).
    { intros t' Hw Hf Ho. eapply sys_ok_steady; [done..|apply steady_refl]. }
    destruct (_ && _); [do 2 eexists; split; [done|by apply H]|]. destruct result as [err|]; [|do 2 eexists; split; [done|by apply H]].
    destruct (_ && _) eqn:E; do 2 eexists; (split; [done|]); apply H; try done. b2p. done.
  - destruct (breaker_complete_ok s i _ r c outcome reported Hs Hi) as (m' & -> & Hl & _ & Hok); [done|]. cbn. do 2 eexists. split; [done|].
    case_bool_decide; eapply sys_ok_same; try done; by apply Hok.
Qed.

Lemma cut_backlog_spec l : let '(l', n) := cut_backlog l in
  dropped_of l n ++ l' = l /\ Z.of_nat (length l') <= maxBacklog /\ Z.of_nat (length (dropped_of l n)) = n.
Proof.
  unfold cut_backlog, dropped_of. destruct (Z.ltb_spec maxBacklog (Z.of_nat (length l))); [|by cbn].
  rewrite take_drop, length_drop, length_take. unfold maxBacklog in *. split_and!; [done|lia|lia].
Qed.

Lemma buffering_ok s i tk c : sys_ok s -> sy_threads s !! i = Some (Buffering tk c) ->
  let '(m', dropped) := bufferCircuitFailure c (sy_manager s) in
  sys_ok (with_thread {| s with sy_manager := m'; sy_buffered := c :: sy_buffered s;
                         sy_dropped := dropped_of (mg_circuitBacklog (sy_manager s) ++ [c]) dropped ++ sy_dropped s;
                         sy_reported := sy_reported s + dropped |} i (deferred tk)).
Proof.
  intros Hs Hi. unfold bufferCircuitFailure. pose proof (cut_backlog_spec (mg_circuitBacklog (sy_manager s) ++ [c])) as Hcut.
  destruct (cut_backlog _) as [l dropped]. destruct Hcut as (Hcut & Hlen & Hn). pose proof Hs as [H1 H2 H3 H4 H5 [H6 H7] H8 H9].
  assert (W : weight (deferred tk) = weight (Buffering tk c)) by (by destruct tk). pose proof W as [= _ _ W3 W4 W5].
  eapply sys_ok_replace; [exact Hs|exact Hi|done|..]; cbn; rewrite ?W3, ?W4, ?W5; try done.
  - eapply breakers_ok_threads; [eapply open_same; [exact Hi|by destruct tk]|]. by destruct H1.
  - eapply counts_ext; [exact H2|]. intros id. cbn. rewrite (weight_holds _ _ W). lia.
  - eapply counts_ext; [exact H3|]. intros id. cbn. rewrite (weight_holds_pool _ _ W). lia.
  - intros rest ->. trans ((mg_circuitBacklog (sy_manager s) ++ [c]) ++ rest ++ sy_settled s ++ sy_dropped s); [cbn; solve_Permutation|].
    rewrite <- Hcut at 1. solve_Permutation.
  - constructor; [|done]. by apply (Forall_lookup_1 _ _ _ _ H7 Hi).
  - destruct tk; cbn; done.
  - rewrite length_app. lia.
  - cbn [Z.b2z]. lia.
Qed.

(** The weight of two threads in a counter. *)
Ltac weigh := cbn; repeat case_decide; unfold holds, holds_pool in *; cbn in *; congruence || lia.

Lemma releasing_ok s i tk : sys_ok s -> sy_threads s !! i = Some (Releasing tk) ->
  sys_ok (with_thread (with_manager s (releaseBackendInflight (ticket_backend tk) (sy_manager s))) i Finished).
Proof.
  intros Hs Hi. pose proof Hs as [H1 H2 H3 H4 H5 [H6 H7] H8 H9].
  assert (Hpos : 1 <= count_list (holds (ticket_backend tk)) (sy_threads s)).
  { rewrite <- (take_drop_middle _ _ _ Hi), count_list_app, count_list_cons, decide_True by done.
    pose proof (count_list_nonneg (holds (ticket_backend tk)) (take i (sy_threads s))).
    pose proof (count_list_nonneg (holds (ticket_backend tk)) (drop (S i) (sy_threads s))). lia. }
  eapply sys_ok_replace; [exact Hs|exact Hi|done|..]; cbn; try done; try lia.
  - eapply breakers_ok_threads; [eapply open_same; [exact Hi|done]|]. by destruct H1.
  - eapply counts_ext; [apply counts_mdecr; [exact H2|exact Hpos]|]. intros id. weigh.
  - eapply counts_ext; [exact H3|]. intros p. weigh.
Qed.

Lemma release_pool_ok s i p : sys_ok s -> sy_threads s !! i = Some (HoldingPool p) ->
  sys_ok (with_thread (with_manager s (releasePool p (sy_manager s))) i Finished).
Proof.
  intros Hs Hi. pose proof Hs as [H1 H2 H3 H4 H5 [H6 H7] H8 H9].
  assert (Hpos : 1 <= count_list (holds_pool p) (sy_threads s)).
  { rewrite <- (take_drop_middle _ _ _ Hi), count_list_app, count_list_cons, decide_True by done.
    pose proof (count_list_nonneg (holds_pool p) (take i (sy_threads s))).
    pose proof (count_list_nonneg (holds_pool p) (drop (S i) (sy_threads s))). lia. }
  eapply sys_ok_replace; [exact Hs|exact Hi|done|..]; cbn; try done; try lia.
  - eapply breakers_ok_threads; [eapply open_same; [exact Hi|done]|]. by destruct H1.
  - eapply counts_ext; [exact H2|]. intros id. weigh.
  - eapply counts_ext; [apply counts_mdecr; [exact H3|exact Hpos]|]. intros id. weigh.
Qed.

Lemma acquire_pool_ok s i p maximum : sys_ok s -> sy_threads s !! i = Some Finished ->
  let '(m', ok) := AcquirePool p maximum (sy_manager s) in sys_ok (with_thread (with_manager s m') i (if ok then HoldingPool p else Finished)).
Proof.
  intros Hs Hi. unfold AcquirePool. destruct (_ || _); [by apply (sys_ok_steady _ _ i Finished); [..|apply steady_refl]|]. pose proof Hs as [H1 H2 H3 H4 H5 [H6 H7] H8 H9].
  eapply sys_ok_replace; [exact Hs|exact Hi|done|..]; cbn; try done; try lia.
  - eapply breakers_ok_threads; [eapply open_same; [exact Hi|done]|]. by destruct H1.
  - eapply counts_ext; [exact H2|]. intros id. weigh.
  - eapply counts_ext; [apply counts_mincr; [exact H3|apply count_list_nonneg]|]. intros id. weigh.
Qed.

Lemma begin_replay_ok s i now : sys_ok s -> sy_threads s !! i = Some Finished -> mg_replaying (sy_manager s) = false ->
  let m := sy_manager s in
  sys_ok (with_thread (with_manager s {| m with mg_replaying := true; mg_circuitBacklog := [] |}) i
            match mg_circuitBacklog m with [] => EndingReplay None | _ => Replaying now (mg_circuitBacklog m) [] 0 None end).
Proof.
  intros Hs Hi Hr m. pose proof Hs as [H1 H2 H3 H4 H5 [H6 H7] H8 H9]. subst m.
  eapply sys_ok_replace; [exact Hs|exact Hi|done|..]; cbn; rewrite ?Hr; try done; try lia.
  - eapply breakers_ok_threads; [eapply open_same; [exact Hi|by destruct (mg_circuitBacklog (sy_manager s))]|]. by destruct H1.
  - eapply counts_ext; [exact H2|]. intros id. destruct (mg_circuitBacklog (sy_manager s)); weigh.
  - eapply counts_ext; [exact H3|]. intros id. destruct (mg_circuitBacklog (sy_manager s)); weigh.
  - intros rest ->. destruct (mg_circuitBacklog (sy_manager s)); cbn; solve_Permutation.
  - by destruct (mg_circuitBacklog (sy_manager s)).
  - destruct (mg_circuitBacklog (sy_manager s)); cbn; lia.
  - by destruct (mg_circuitBacklog (sy_manager s)).
Qed.

Lemma end_replay_ok s i err : sys_ok s -> sy_threads s !! i = Some (EndingReplay err) ->
  let m := sy_manager s in sys_ok (with_thread (with_manager s {| m with mg_replaying := false |}) i Finished).
Proof.
  intros Hs Hi m. pose proof Hs as [H1 H2 H3 H4 H5 [H6 H7] H8 H9]. subst m.
  assert (Hr : mg_replaying (sy_manager s) = true).
  { destruct (mg_replaying (sy_manager s)); [done|]. rewrite <- (take_drop_middle _ _ _ Hi), count_list_app, count_list_cons, decide_True in H9 by done.
    pose proof (count_list_nonneg replays (take i (sy_threads s))). pose proof (count_list_nonneg replays (drop (S i) (sy_threads s))). lia. }
  eapply sys_ok_replace; [exact Hs|exact Hi|done|..]; cbn; rewrite ?Hr; try done; try lia.
  - eapply breakers_ok_threads; [eapply open_same; [exact Hi|done]|]. by destruct H1.
  - eapply counts_ext; [exact H2|]. intros id. weigh.
  - eapply counts_ext; [exact H3|]. intros id. weigh.
Qed.

(** One failure of a replay is dealt with, or the rest goes back. *)
Lemma proceed_replay_ok s i now pending kept n err result : sys_ok s -> sy_threads s !! i = Some (Replaying now pending kept n err) ->
  sys_ok (proceed_replay s i now pending kept n err result).
Proof.
  intros Hs Hi. pose proof Hs as [H1 H2 H3 H4 H5 [H6 H7] H8 H9]. unfold proceed_replay.
  assert (Hb : forall t' m', (forall r, open_completion r t' = None) -> mg_options m' = mg_options (sy_manager s) -> mg_workers m' = mg_workers (sy_manager s) ->
    mg_breakers m' = mg_breakers (sy_manager s) -> mg_nextBreaker m' = mg_nextBreaker (sy_manager s) -> breakers_ok m' (<[i := t']> (sy_threads s))).
  { intros t' m' Ho E1 E2 E3 E4. eapply breakers_ok_threads; [by eapply open_same|]. destruct H1. by split; rewrite ?E1, ?E2, ?E3, ?E4. }
  destruct pending as [|c pending].
  - unfold merge_backlog. pose proof (cut_backlog_spec (kept ++ mg_circuitBacklog (sy_manager s))) as Hcut. destruct (cut_backlog _) as [l overflow].
    destruct Hcut as (Hcut & Hlen & Hn). eapply sys_ok_replace; [exact Hs|exact Hi|done|..]; cbn; try done; try lia.
    + by apply Hb.
    + eapply counts_ext; [exact H2|]. intros id. weigh.
    + eapply counts_ext; [exact H3|]. intros id. weigh.
    + intros rest ->. trans ((kept ++ mg_circuitBacklog (sy_manager s)) ++ rest ++ sy_settled s ++ sy_dropped s); [rewrite app_nil_r; solve_Permutation|].
      rewrite <- Hcut at 1. solve_Permutation.
    + rewrite length_app. lia.
  - assert (Hstep : forall kept' n' err' settled dropped,
      (forall rest, (kept ++ c :: pending) ++ rest ++ sy_settled s ++ sy_dropped s ≡ₚ (kept' ++ pending) ++ rest ++ settled ++ dropped) ->
      Z.of_nat (length dropped) - Z.of_nat (length (sy_dropped s)) = n' - n ->
      sys_ok (with_thread {| s with sy_settled := settled; sy_dropped := dropped |} i (Replaying now pending kept' n' err'))).
    { intros kept' n' err' settled dropped Hp Hn. eapply sys_ok_replace; [exact Hs|exact Hi|done|..]; cbn; try done; try lia.
      - by apply Hb.
      - eapply counts_ext; [exact H2|]. intros id. weigh.
      - eapply counts_ext; [exact H3|]. intros id. weigh.
      - intros rest ->. f_equiv. rewrite <- !(app_assoc _ rest). apply Hp. }
    destruct (expired now c); [apply (Hstep kept (n + 1) err (sy_settled s) (c :: sy_dropped s)); [intros rest; solve_Permutation|cbn; lia]|].
    destruct result as [e|]; [destruct (replayableCircuitError e)|].
    + apply (Hstep (kept ++ [c]) n _ (sy_settled s) (sy_dropped s)); [intros rest; solve_Permutation|lia].
    + apply (Hstep kept n err (c :: sy_settled s) (sy_dropped s)); [intros rest; solve_Permutation|lia].
    + apply (Hstep kept n err (c :: sy_settled s) (sy_dropped s)); [intros rest; solve_Permutation|lia].
Qed.

Lemma sys_ok_manager s m : sys_ok s -> steady (sy_manager s) m -> sys_ok (with_manager s m).
Proof.
  intros [H1 H2 H3 H4 H5 H6 H8 H9] [[[= L1 L2 L3 L4 L5] _] Hb]. split; cbn; rewrite ?L2, ?L3, ?L4, ?L5; try done. by apply Hb.
Qed.

(** A thread that weighs nothing goes on to another such. *)
Lemma sys_ok_idle s i t t' : sys_ok s -> sy_threads s !! i = Some t -> inert t -> inert t' -> buffers_failure t' -> sys_ok (with_thread s i t').
Proof.
  intros Hs Hi [W1 O1] [W2 O2] Hf. pose proof (sys_ok_steady s (sy_manager s) i t t' Hs Hi) as H. rewrite W1, W2 in H.
  apply H; [done|done|intros r; by rewrite O1, O2|apply steady_refl].
Qed.

(** Lost probes are forgotten and nothing else. *)
Lemma forget_lost_spec m results : ledger (forget_lost results m).1 = ledger m /\
  (forall threads, breakers_ok m threads -> breakers_ok (forget_lost results m).1 threads) /\ mg_probes (forget_lost results m).1 ⊆ mg_probes m.
Proof.
  unfold forget_lost. generalize 0. revert m. induction results as [|result results IH]; intros m n; cbn; [done|].
  case_bool_decide; [|apply IH].
  destruct (IH {| m with mg_probes := delete (li_LeaseID (rr_Lease result)) (mg_probes m) |} (n + 1)) as (H1 & H2 & H3).
  split_and!; [done| |etrans; [exact H3|apply delete_subseteq]]. intros threads Hb. apply H2. by destruct Hb.
Qed.

Definition safe (step : Step) : Prop := match step with Crashed => False | Blocked => True | Stepped s => sys_ok s end.

Lemma proceed_ok s i t r : sys_ok s -> sy_threads s !! i = Some t -> safe (proceed s i t r).
Proof.
  intros Hs Hi. destruct t as [expected at_ a|expected a d|expected at_ a|expected at_ a g|tk|tk c|tk|tk|p|now pending kept n err|err|probes|], r; try exact I; cbn [proceed].
  - eapply sys_ok_idle; [done..|by destruct (acquire_next _ _ _)|by destruct (acquire_next _ _ _)].
  - pose proof (acquire_commit_acquires (sy_manager s) (sy_threads s) expected a d (so_breakers _ Hs)) as Ha.
    destruct (acquire_commit _ _ _ _) as [m t]. by eapply sys_ok_acquired.
  - eapply sys_ok_idle; [done..|by destruct (emergency_asked _ _)|by destruct (emergency_asked _ _)].
  - destruct (acquire_emergency_acquires (sy_manager s) (sy_threads s) expected at_ a g recovery (so_breakers _ Hs)) as (m & t & -> & _ & Ha).
    cbn. by eapply sys_ok_acquired.
  - destruct (complete_call_ok s i tk outcome ready reported result Hs Hi) as (m & t & -> & H). done.
  - pose proof (buffering_ok s i tk c Hs Hi) as H. by destruct (bufferCircuitFailure _ _).
  - eapply sys_ok_same; [done..|by destruct tk|]. eapply breakers_ok_threads; [by eapply open_same|]. pose proof (so_breakers _ Hs) as []. by destruct tk.
  - by apply releasing_ok.
  - by apply release_pool_ok.
  - by apply proceed_replay_ok.
  - by eapply end_replay_ok.
  - pose proof (forget_lost_spec (sy_manager s)) as Hf. eapply sys_ok_same; [done..| |]; [destruct results as [results|]; [by apply Hf|done]|].
    eapply breakers_ok_threads; [by eapply open_same|]. pose proof (so_breakers _ Hs) as Hb. destruct results as [results|]; [by apply Hf|done].
Qed.

Lemma poll_steady m id managed p : mg_workers m !! id = Some managed ->
  steady m {| m with mg_workers := <[id := {| managed with mw_worker := poll GetType family_Metric Gauge Untyped TextToMetricFamilies exp (mw_worker managed) p |}]> (mg_workers m) |}.
Proof. intros Hm. split; [done|]. intros threads Hok. eapply worker_update; [done|done|]. exact (bo_worker _ _ Hok id managed Hm). Qed.

Lemma exec_ok s a : sys_ok s -> safe (exec s a).
Proof.
  intros Hs. pose proof (sys_ok_spawn s Hs) as Hsp. assert (Hi : sy_threads (spawn s Finished) !! length (sy_threads s) = Some Finished)
    by (cbn; by rewrite lookup_app_r, Nat.sub_diag by done).
  assert (Hspawn : forall m t, sys_ok (with_thread (with_manager (spawn s Finished) m) (length (sy_threads s)) t) -> sys_ok (spawn (with_manager s m) t))
    by (intros m t; by rewrite (spawn_thread (with_manager s m))).
  destruct a as [p maximum|expected at_ attemptID|coordinated backends|at_ views|id at_ v|id g p|now| | |i r]; cbn [exec].
  - pose proof (acquire_pool_ok _ _ p maximum Hsp Hi) as H. cbn [sy_manager spawn] in H. destruct (AcquirePool _ _ _) as [m ok]. by apply Hspawn.
  - destruct (mo_CircuitCoordinator _); cbn [negb].
    + destruct (matching_worker _ _); [|done]. rewrite spawn_thread. by eapply sys_ok_idle.
    + destruct (acquire_local_acquires (sy_manager s) (sy_threads (spawn s Finished)) expected at_) as (m & t & -> & _ & Ha); [apply Hsp|].
      cbn. apply Hspawn. by eapply sys_ok_acquired.
  - apply sys_ok_manager; [done|apply reconcile_steady].
  - destruct (observe_calm (sy_manager s) (sy_threads s) at_ views) as (m & -> & Hm & _); [apply Hs|]. by apply sys_ok_manager.
  - destruct (Snapshot_calm (sy_manager s) (sy_threads s) id at_ v) as (m & x & -> & Hm & _); [apply Hs|]. by apply sys_ok_manager.
  - destruct (mg_workers _ !! id) as [managed|] eqn:Hm; [|done]. destruct (_ =? g); [|done]. apply sys_ok_manager; [done|by apply poll_steady].
  - destruct (mg_replaying (sy_manager s)) eqn:Hr; [done|]. apply Hspawn. by apply (begin_replay_ok (spawn s Finished)).
  - case_bool_decide; [done|]. rewrite spawn_thread. by eapply sys_ok_idle.
  - apply sys_ok_manager; [done|apply shutdown_steady].
  - destruct (sy_threads s !! i) as [t|] eqn:Ht; [|done]. by apply proceed_ok.
Qed.

Lemma initial_ok o : sys_ok (initial o).
Proof. split; cbn; try done; by apply counts_empty. Qed.

Lemma run_ok s actions : sys_ok s -> safe (run s actions).
Proof.
  revert s. induction actions as [|a actions IH]; intros s Hs; cbn [run]; [done|]. pose proof (exec_ok s a Hs) as H.
  destruct (exec s a); [done|done|by apply IH].
Qed.

(** ** Pools *)

Lemma proceed_threads s i t r s' : proceed s i t r = Stepped s' -> exists t', sy_threads s' = <[i := t']> (sy_threads s) /\ pool_of t' = None.
Proof.
  intros H. destruct t as [expected at_ a|expected a d|expected at_ a|expected at_ a g|tk|tk c|tk|tk|p|now pending kept n err|err|probes|], r; try discriminate; cbn [proceed] in H.
  all: try (injection H as <-; eexists; split; [reflexivity|]; by repeat case_match).
  - destruct (acquire_commit _ _ _ _) as [m [tk|]]; injection H as <-; by eexists.
  - destruct (acquire_emergency _ _ _ _ _ _) as [[m [tk|]]|]; cbn in H; try discriminate; injection H as <-; by eexists.
  - unfold complete_call in H. destruct tk as [? r c| |? ? ? r c]; try destruct (breaker_complete r c _ _ _); cbn in H; repeat (case_match; cbn in H); try discriminate; injection H as <-; (eexists; split; [reflexivity|]; by repeat case_match).
  - destruct (bufferCircuitFailure _ _). injection H as <-. eexists. split; [reflexivity|]. by destruct tk.
  - injection H as <-. unfold proceed_replay. repeat case_match; by eexists.
Qed.

(** The slots of a pool grow only by [AcquirePool]. *)
Lemma exec_slots s a s' p : sys_ok s -> exec s a = Stepped s' ->
  count_list (holds_pool p) (sy_threads s') <= count_list (holds_pool p) (sy_threads s) \/
  exists maximum, a = DoAcquirePool p maximum /\ (0 < maximum -> count_list (holds_pool p) (sy_threads s') <= maximum).
Proof.
  intros Hs H. assert (Hsnoc : forall t, pool_of t = None -> count_list (holds_pool p) (sy_threads s ++ [t]) <= count_list (holds_pool p) (sy_threads s)).
  { intros t Ht. rewrite count_list_app, count_list_cons, count_list_nil, decide_False; [lia|]. unfold holds_pool. by rewrite Ht. }
  destruct a as [p' maximum|expected at_ attemptID|coordinated backends|at_ views|id at_ v|id g po|now| | |i r]; cbn [exec] in H.
  - unfold AcquirePool in H. destruct (_ || _) eqn:E; injection H as <-; cbn; [left; by apply Hsnoc|].
    rewrite count_list_app, count_list_cons, count_list_nil. destruct (decide (p' = p)) as [->|Hne].
    + right. exists maximum. split; [done|]. intros Hmax. rewrite (counts_mget _ _ _ (so_pool _ Hs)) in E. b2p. case_decide; lia.
    + left. case_decide; unfold holds_pool in *; cbn in *; [congruence|lia].
  - left. destruct (mo_CircuitCoordinator _); cbn [negb] in H; [destruct (matching_worker _ _); injection H as <-; by apply Hsnoc|].
    destruct (acquire_local _ _ _) as [[m t]|]; [|discriminate]. injection H as <-. apply Hsnoc. by destruct t.
  - left. by injection H as <-.
  - left. destruct (observePoolRuntime _ _ _ _); [|discriminate]. by injection H as <-.
  - left. destruct (Manager_Snapshot _ _ _ _) as [[m x]|]; [|discriminate]. by injection H as <-.
  - left. repeat case_match; try discriminate. by injection H as <-.
  - left. destruct (mg_replaying _); [discriminate|]. injection H as <-. apply Hsnoc. by case_match.
  - left. case_bool_decide; injection H as <-; by apply Hsnoc.
  - left. by injection H as <-.
  - left. destruct (sy_threads s !! i) as [t|] eqn:Ht; [|discriminate]. apply proceed_threads in H as (t' & -> & Hp).
    rewrite (count_list_insert _ _ _ _ _ Ht). repeat case_decide; unfold holds_pool in *; congruence || lia.
Qed.

(** C24. The inflight counters are exact in every interleaving.  No run of the monitor
    dereferences nil; in every state reached, the counter of a backend is the number of
    attempts on it that were granted and not yet released, through the local breaker,
    the coordinator or in emergency, whatever was reconciled meanwhile; and that of a
    pool is the number of its slots that are held, at most the maximum when all
    acquisitions ask for the same. *)
Theorem monitor_inflight_exact o actions :
  run (initial o) actions <> Crashed /\ forall s, run (initial o) actions = Stepped s ->
  counts (mg_backendInflight (sy_manager s)) (fun id => count_list (holds id) (sy_threads s)) /\
  counts (mg_poolInflight (sy_manager s)) (fun p => count_list (holds_pool p) (sy_threads s)) /\
  forall p maximum, 0 < maximum -> Forall (fun a => match a with DoAcquirePool p' max' => p' = p -> max' = maximum | _ => True end) actions ->
    count_list (holds_pool p) (sy_threads s) <= maximum.
Proof.
  pose proof (run_ok _ actions (initial_ok o)) as Hr. split; [by intros E; rewrite E in Hr|]. intros s E. rewrite E in Hr. split_and!; [apply Hr..|].
  intros p maximum Hmax. assert (H0 : count_list (holds_pool p) (sy_threads (initial o)) <= maximum) by (cbn; rewrite count_list_nil; lia).
  clear Hr. pose proof (initial_ok o) as Hok. revert H0 Hok E. generalize (initial o). induction actions as [|a actions IH]; intros s0 H0 Hok E Hall; cbn [run] in E.
  - by injection E as <-.
  - inversion Hall as [|? ? Ha Hall']; subst. pose proof (exec_ok s0 a Hok) as Hs. destruct (exec s0 a) as [| |s1] eqn:E1; try discriminate.
    eapply IH; [|exact Hs|exact E|exact Hall']. destruct (exec_slots s0 a s1 p Hok E1) as [Hle|(max' & -> & Hle)]; [lia|]. rewrite (Ha eq_refl) in Hle. auto.
Qed.

(** C25. Failures that could not be reported are conserved.  In every state of every run,
    each failure that was buffered is in the backlog, or in the replay under way, or was
    taken or refused for good by the coordinator, or was dropped, exactly once; the backlog
    never holds more than 4096 and only failures are buffered.  While no replay runs, the
    observer has been told of every drop. *)
Theorem circuit_failures_conserved o actions s : run (initial o) actions = Stepped s ->
  sy_buffered s ≡ₚ mg_circuitBacklog (sy_manager s) ++ (sy_threads s ≫= replayed) ++ sy_settled s ++ sy_dropped s /\
  Z.of_nat (length (mg_circuitBacklog (sy_manager s))) <= maxBacklog /\
  Forall (fun c => cc_Outcome c = InferenceFailure) (sy_buffered s) /\
  (Forall (fun t => is_replay t = false) (sy_threads s) -> sy_reported s = Z.of_nat (length (sy_dropped s))).
Proof.
  intros E. pose proof (run_ok _ actions (initial_ok o)) as Hr. rewrite E in Hr. destruct Hr as [H1 H2 H3 H4 H5 [H6 H7] H8 H9].
  split_and!; [done..|]. intros Hno. rewrite H8. cut (total expired_of (sy_threads s) = 0); [lia|]. clear -Hno.
  induction Hno as [|t threads Ht _ IH]; cbn; [done|]. unfold total in IH. rewrite IH. by destruct t.
Qed.

(** C26. The breakers of the monitor are circuit breakers.  In every state of every run,
    each breaker, with the completions of it that were handed out and not yet called, is a
    state that the step relation of the circuit breaker reaches, also when recovery has
    replaced it or its worker is gone; so what holds of the reachable breakers holds of
    them.  The breaker of a worker is in the store. *)
Theorem monitor_breakers_refine o actions s : run (initial o) actions = Stepped s ->
  (forall r b, mg_breakers (sy_manager s) !! r = Some b ->
    exists n l, l ≡ₚ open_of r (sy_threads s) /\ reach (mo_Circuit (mg_options (sy_manager s))) n {| breaker := b; outstanding := l |}) /\
  (forall id managed, mg_workers (sy_manager s) !! id = Some managed -> is_Some (mg_breakers (sy_manager s) !! mw_breaker managed)).
Proof.
  intros E. pose proof (run_ok _ actions (initial_ok o)) as Hr. rewrite E in Hr. split; apply (so_breakers _ Hr).
Qed.

(** ** What reconciliation leaves *)

Lemma validate_id b n : Backend_Validate url_parse url_string b = inr n -> be_ID n = be_ID b.
Proof. unfold Backend_Validate. repeat case_match; try discriminate. by intros [= <-]. Qed.

(** The backends asked for, in their normal form. *)
Definition wanted (backends : list Backend) (id : Z) (n : Backend) : Prop :=
  exists b, b ∈ backends /\ be_Enabled b = true /\ be_ID b = id /\ Backend_Validate url_parse url_string b = inr n.

Lemma desired_spec backends desired desired' : desired_backends url_parse url_string backends desired = inr desired' ->
  forall id n, desired' !! id = Some n <-> desired !! id = Some n \/ wanted backends id n.
Proof.
  revert desired. induction backends as [|b backends IH]; intros desired; cbn.
  - intros [= <-] id n. split; [by left|]. intros [?|(b & Hb & _)]; [done|]. by apply elem_of_nil in Hb.
  - assert (Hw : forall id n, wanted (b :: backends) id n <-> (be_Enabled b = true /\ be_ID b = id /\ Backend_Validate url_parse url_string b = inr n) \/ wanted backends id n).
    { intros id n. unfold wanted. setoid_rewrite elem_of_cons. naive_solver. }
    destruct (be_Enabled b) eqn:He; cbn [negb].
    + destruct (desired !! be_ID b) eqn:Hd; [discriminate|]. destruct (Backend_Validate _ _ b) as [e|nb] eqn:Hv; [discriminate|].
      intros H id n. rewrite (IH _ H id n), Hw, lookup_insert_Some, (validate_id _ _ Hv). split; [naive_solver|].
      intros [Hn|[(_ & <- & Hn)|?]]; [|left; left; split; congruence|by right]. left. right. split; [|done]. intros E. rewrite E in Hd. congruence.
    + intros H id n. rewrite (IH _ H id n), Hw. naive_solver.
Qed.

(** A worker that reconciliation started. *)
Definition started (m : Manager) (m' : Manager) (n : Backend) (managed : managedWorker) : Prop :=
  NewWorker url_parse url_string n (mg_options m) = inr (mw_worker managed) /\ mw_lastRecovery managed = GoTime.zero /\
  (mg_nextBreaker m <= mw_breaker managed)%nat /\ exists b, CircuitBreaker.New (mo_Circuit (mg_options m)) = inr b /\ mg_breakers m' !! mw_breaker managed = Some b.

Lemma started_weaken m1 m m' n managed : mg_options m1 = mg_options m -> (mg_nextBreaker m <= mg_nextBreaker m1)%nat ->
  started m1 m' n managed -> started m m' n managed.
Proof. unfold started. intros -> Hle (S1 & S2 & S3 & S4). split_and!; try done. lia. Qed.

Lemma start_workers_errors ids desired m m' e : start_workers url_parse url_string ids desired m = (m', Some e) ->
  (exists id e', e = ReconcileBreaker id e') \/ exists e', e = ReconcileWorker e'.
Proof.
  revert m. induction ids as [|id ids IH]; intros m; cbn [start_workers]; [done|]. destruct (desired !! id); [|apply IH].
  destruct (CircuitBreaker.New _); [intros [= _ <-]; by eauto|]. destruct (NewWorker _ _ _ _); [intros [= _ <-]; by eauto|].
  destruct (alloc_breaker m). apply IH.
Qed.

Lemma start_workers_spec ids desired m m' : start_workers url_parse url_string ids desired m = (m', None) ->
  (mg_nextBreaker m <= mg_nextBreaker m')%nat /\ (forall r, (r < mg_nextBreaker m)%nat -> mg_breakers m' !! r = mg_breakers m !! r) /\
  mg_options m' = mg_options m /\
  forall id, match desired !! id with
             | Some n => if decide (id ∈ ids) then exists managed, mg_workers m' !! id = Some managed /\ started m m' n managed
                         else mg_workers m' !! id = mg_workers m !! id
             | None => mg_workers m' !! id = mg_workers m !! id
             end.
Proof.
  revert m. induction ids as [|id ids IH]; intros m; cbn [start_workers].
  - intros [= <-]. split_and!; try done. intros id. case_match; [|done]. rewrite decide_False; [done|]. apply not_elem_of_nil.
  - destruct (desired !! id) as [n|] eqn:Hd.
    2: { intros H. destruct (IH m H) as (H1 & H2 & H3 & H4). split_and!; try done. intros id'. specialize (H4 id'). destruct (desired !! id') eqn:Hd'; [|done].
         assert (Hin : id' ∈ id :: ids <-> id' ∈ ids) by (rewrite elem_of_cons; split; [intros [->|?]; congruence|by right]).
         destruct (decide (id' ∈ id :: ids)); destruct (decide (id' ∈ ids)); tauto. }
    destruct (CircuitBreaker.New _) as [e|b] eqn:Hb; [discriminate|]. destruct (NewWorker _ _ _ _) as [e|worker] eqn:Hw; [discriminate|].
    destruct (alloc_breaker m) as [m1 r] eqn:Ea. unfold alloc_breaker in Ea. rewrite Hb in Ea. injection Ea as <- <-. cbn.
    intros H. destruct (IH _ H) as (H1 & H2 & H3 & H4). cbn in *. split_and!; [lia| |done|].
    + intros r Hr. rewrite H2 by lia. rewrite lookup_insert_ne by lia. done.
    + intros id'. specialize (H4 id'). destruct (decide (id' = id)) as [->|Hne].
      * rewrite Hd in *. rewrite decide_True by (by left). destruct (decide (id ∈ ids)); [destruct H4 as (managed & ? & Hs); exists managed; split; [done|]; eapply started_weaken; [..|exact Hs]; cbn; [done|lia]|].
        rewrite lookup_insert_eq in H4. eexists. split; [exact H4|]. split_and!; try done. exists b. split; [done|]. cbn. rewrite H2 by lia. by rewrite lookup_insert_eq.
      * rewrite lookup_insert_ne in H4 by done. destruct (desired !! id'); [|done].
        assert (Hin : id' ∈ id :: ids <-> id' ∈ ids) by (rewrite elem_of_cons; split; [by intros [?|?]|by right]).
        destruct (decide (id' ∈ id :: ids)); destruct (decide (id' ∈ ids)); try tauto. destruct H4 as (managed & ? & Hs). exists managed.
        split; [done|]. eapply started_weaken; [..|exact Hs]; cbn; [done|lia].
Qed.

(** Reconciliation runs exactly the enabled backends.  When [Reconcile] succeeds, a
    worker runs for each enabled backend of the list, under its normalised configuration,
    and for no other; a worker whose configuration did not change is the same as before,
    with its health, breaker and generation, and any other is new, with a new breaker.  A
    list that the coordinator refuses, or with a duplicate or invalid backend, and a
    monitor that was shut down, change nothing. *)
Theorem reconcile_workers_exact coordinated backends m m' err : (forall A (x : gmap Z A) k, k ∈ order A x <-> is_Some (x !! k)) ->
  Reconcile order url_parse url_string coordinated backends m = (m', err) ->
  match err with
  | None => forall id,
      match mg_workers m' !! id with
      | Some managed => exists n, wanted backends id n /\
          if decide ((wk_backend ∘ mw_worker <$> mg_workers m !! id) = Some n) then mg_workers m !! id = Some managed else started m m' n managed
      | None => forall n, ~ wanted backends id n
      end
  | Some (ReconcileBreaker _ _) | Some (ReconcileWorker _) => True
  | Some _ => m' = m
  end.
Proof.
  intros Horder. unfold Reconcile. destruct (if mo_CircuitCoordinator _ then _ else _); [by intros [= <- <-]|].
  destruct (desired_backends _ _ _ _) as [e|desired] eqn:Hd; [intros [= <- <-]; by destruct e|].
  unfold reconcile_locked. destruct (mg_shutdown m) eqn:Hsh; [by intros [= <- <-]|].
  set (kept := kept_workers desired (mg_workers m)). set (rest := filter _ desired). intros H.
  destruct err as [e|]; [by destruct (start_workers_errors _ _ _ _ _ H) as [(? & ? & ->)|(? & ->)]|].
  apply start_workers_spec in H as (_ & _ & _ & H). intros id. specialize (H id). pose proof (desired_spec _ _ _ Hd id) as Hw. setoid_rewrite lookup_empty in Hw.
  assert (Hk : forall managed, kept !! id = Some managed <-> mg_workers m !! id = Some managed /\ desired !! id = Some (wk_backend (mw_worker managed)))
    by (intros managed; unfold kept, kept_workers; by rewrite map_lookup_filter_Some).
  assert (Hr : forall n, rest !! id = Some n <-> desired !! id = Some n /\ kept !! id = None) by (intros n; unfold rest; by rewrite map_lookup_filter_Some).
  assert (Ho : forall n, rest !! id = Some n -> id ∈ order Backend rest) by (intros n Hn; rewrite Horder, Hn; by eexists).
  destruct (kept !! id) as [managed|] eqn:Ek.
  - destruct (rest !! id) as [n|] eqn:Er; [by destruct (proj1 (Hr n) eq_refl)|]. cbn in H. rewrite H, Ek. destruct (proj1 (Hk managed) eq_refl) as [Hm Hn].
    exists (wk_backend (mw_worker managed)). split; [apply Hw in Hn as [?|?]; done|]. rewrite Hm. by rewrite decide_True.
  - destruct (rest !! id) as [n|] eqn:Er.
    + rewrite decide_True in H by (by eapply Ho). destruct H as (managed & -> & Hs). destruct (proj1 (Hr n) eq_refl) as [Hn _]. exists n. split; [apply Hw in Hn as [?|?]; done|].
      rewrite decide_False; [eapply started_weaken; [..|exact Hs]; done|]. destruct (mg_workers m !! id) as [managed'|]; cbn; [|done]. intros [= <-].
      by specialize (proj2 (Hk managed') (conj eq_refl Hn)).
    + cbn in H. rewrite H, Ek. intros n Hn. assert (Hdn : desired !! id = Some n) by (apply Hw; by right). by specialize (proj2 (Hr n) (conj Hdn eq_refl)).
Qed.

End MonitorSafety.

(** ** Witnesses *)

Definition m_order (A : Type) (x : gmap Z A) : list Z := (map_to_list x).*1.

Lemma m_order_spec (A : Type) (x : gmap Z A) k : k ∈ m_order A x <-> is_Some (x !! k).
Proof.
  unfold m_order. rewrite list_elem_of_fmap. split.
  - intros ((k' & v) & -> & Hv). apply elem_of_map_to_list in Hv. by eexists.
  - intros [v Hv]. exists (k, v). split; [done|]. by apply elem_of_map_to_list.
Qed.

Definition m_run (o : MonitorOptions) (actions : list Action) : Step :=
  run m_order (fun _ => Some w_url) (fun _ => "http://a") (fun _ => MetricType_GAUGE) id Some Some w_parse id (initial o) actions.

(** An attempt through the breaker of the worker, one of them completed, and a pool slot. *)
Definition m_local : list Action :=
  [DoReconcile None [w_backend]; DoAcquirePool 3 2; DoAcquirePool 3 2; DoAcquirePool 3 2; DoAcquireBackend w_backend 5 1%N;
   DoAcquireBackend w_backend 6 2%N; Proceed 0 Go;
   Proceed 3 (CompleteCall InferenceSuccess {| rd_Status := {| st_Backend := ""; st_Available := true; st_Degraded := false; st_Permanent := false;
     st_LastSuccess := 0; st_Reason := ReasonNone |}; rd_CoordinationReady := None; rd_RecoveryStatus := None |} 7 None); Proceed 3 Go].

Lemma monitor_inflight_exact_witness :
  match m_run w_options m_local with
  | Stepped s => mg_backendInflight (sy_manager s) !! 10 = Some 1 /\ mg_poolInflight (sy_manager s) !! 3 = Some 1 /\
      counts (mg_backendInflight (sy_manager s)) (fun id => count_list (holds id) (sy_threads s)) /\ count_list (holds_pool 3) (sy_threads s) <= 2
  | _ => False
  end.
Proof.
  assert (H : match m_run w_options m_local with
              | Stepped s => mg_backendInflight (sy_manager s) !! 10 = Some 1 /\ mg_poolInflight (sy_manager s) !! 3 = Some 1
              | _ => False
              end) by (vm_compute; split; reflexivity).
  destruct (m_run w_options m_local) as [| |s] eqn:E; [contradiction|contradiction|]. destruct H as [H1 H2]. unfold m_run in E.
  destruct (proj2 (monitor_inflight_exact _ _ _ _ _ _ _ _ _ _ _) s E) as (H3 & _ & H4).
  split; [exact H1|]. split; [exact H2|]. split; [exact H3|]. apply H4; [reflexivity|]. unfold m_local. repeat constructor; intros _; reflexivity.
Defined.

Definition m_down : Reading :=
  {| rd_Status := {| st_Backend := ""; st_Available := false; st_Degraded := true; st_Permanent := false; st_LastSuccess := 0;
                     st_Reason := ReasonCoordinationUnavailable |}; rd_CoordinationReady := None; rd_RecoveryStatus := None |}.

Definition m_cached : CircuitSnapshot :=
  {| cs_Backend := identity_of w_backend; cs_State := CircuitClosed; cs_Generation := 4; cs_FailureCount := 0; cs_RetryAt := 0; cs_ProbesInFlight := 0;
     cs_Available := true |}.

(** An attempt in emergency fails; its failure is buffered, and a replay keeps it. *)
Definition m_emergency : list Action :=
  [DoReconcile None [w_backend]; DoAcquireBackend w_backend 5 1%N; Proceed 0 (AcquireReply m_down (inl (ErrOpaque "")) m_down);
   Proceed 0 (EmergencyReply m_down m_cached); Proceed 0 (RecoveryReply None); Proceed 0 (CompleteCall InferenceFailure m_down 7 None); Proceed 0 Go;
   DoReplay 8; Proceed 1 (CompleteReply (Some (ErrOpaque "down"))); Proceed 1 (CompleteReply None); Proceed 1 Go].

Definition m_distributed : MonitorOptions := {| w_options with mo_CircuitCoordinator := true |}.

Lemma circuit_failures_conserved_witness :
  match m_run m_distributed m_emergency with
  | Stepped s => length (mg_circuitBacklog (sy_manager s)) = 1%nat /\
      sy_buffered s ≡ₚ mg_circuitBacklog (sy_manager s) ++ (sy_threads s ≫= replayed) ++ sy_settled s ++ sy_dropped s
  | _ => False
  end.
Proof.
  assert (H : match m_run m_distributed m_emergency with Stepped s => length (mg_circuitBacklog (sy_manager s)) = 1%nat | _ => False end)
    by (vm_compute; reflexivity).
  destruct (m_run m_distributed m_emergency) as [| |s] eqn:E; [contradiction|contradiction|]. unfold m_run in E. split; [exact H|].
  exact (proj1 (circuit_failures_conserved _ _ _ _ _ _ _ _ _ _ _ _ E)).
Defined.

Lemma monitor_breakers_refine_witness :
  match m_run w_options m_local with
  | Stepped s => exists b n l, mg_breakers (sy_manager s) !! 0%nat = Some b /\ length (open_of 0%nat (sy_threads s)) = 1%nat /\ l ≡ₚ open_of 0%nat (sy_threads s) /\
      reach (mo_Circuit (mg_options (sy_manager s))) n {| breaker := b; outstanding := l |}
  | _ => False
  end.
Proof.
  assert (H : match m_run w_options m_local with
              | Stepped s => is_Some (mg_breakers (sy_manager s) !! 0%nat) /\ length (open_of 0%nat (sy_threads s)) = 1%nat
              | _ => False
              end) by (vm_compute; split; [eexists; reflexivity|reflexivity]).
  destruct (m_run w_options m_local) as [| |s] eqn:E; [contradiction|contradiction|]. destruct H as [[b Hb] Ho]. unfold m_run in E.
  destruct (monitor_breakers_refine _ _ _ _ _ _ _ _ _ _ _ _ E) as [H _]. destruct (H _ _ Hb) as (n & l & Hl & Hr). exists b, n, l. auto.
Defined.

Lemma reconcile_workers_exact_witness :
  match Reconcile m_order (fun _ => Some w_url) (fun _ => "http://a") None [w_backend] (NewManager w_options) with
  | (m', None) => exists managed n, mg_workers m' !! 10 = Some managed /\ wanted (fun _ => Some w_url) (fun _ => "http://a") [w_backend] 10 n
  | _ => False
  end.
Proof.
  assert (H : match Reconcile m_order (fun _ => Some w_url) (fun _ => "http://a") None [w_backend] (NewManager w_options) with
              | (m', None) => is_Some (mg_workers m' !! 10)
              | _ => False
              end) by (vm_compute; eexists; reflexivity).
  destruct (Reconcile m_order _ _ None [w_backend] (NewManager w_options)) as [m' err] eqn:E. destruct err as [e|]; [contradiction|]. destruct H as [managed Hm].
  pose proof (reconcile_workers_exact _ _ _ _ _ _ _ _ m_order_spec E 10) as G.
  rewrite Hm in G. destruct G as (n & Hn & _). exists managed, n. auto.
Defined.
