(* ===== verification/GoParse.v ===== *)
(** Numbers and durations as Go parses them: [strconv.ParseInt] in base 10,
    [strconv.Atoi] and [time.ParseDuration].  [None] is an error. *)

From Stdlib Require Import Ascii.
From S2P Require Import Prelude Float64 GoStrings.

Definition is_digit : ascii -> bool := in_range "0" "9".
Definition digit (c : ascii) : Z := Z.of_N (N_of_ascii c) - 48.

(** The value of a run of digits, most significant first. *)
Definition decimal (l : list ascii) : Z := fold_left (fun x c => x * 10 + digit c) l 0.

(** An optional sign: whether the number is negative, and the rest. *)
Definition sign (l : list ascii) : bool * list ascii :=
  match l with
  | c :: l' => if Ascii.eqb c "-" then (true, l') else if Ascii.eqb c "+" then (false, l') else (false, l)
  | [] => (false, [])
  end.

(** [strconv.ParseInt(s, 10, 64)]; [strconv.Atoi] accepts the same on 64 bits. *)
Definition ParseInt (s : string) : option Z :=
  let '(neg, l) := sign (bytes s) in
  if (length l =? 0)%nat || negb (forallb is_digit l) then None
  else
    let v := decimal l in
    if (neg : bool) then (if v <=? 2 ^ 63 then Some (- v) else None)
    else if v <? 2 ^ 63 then Some v else None.

Definition Atoi : string -> option Z := ParseInt.

(** ** [time.ParseDuration] *)

Definition unitMap : list (list ascii * Z) :=
  [(bytes "ns", 1); (bytes "us", 1000); ([chr 194; chr 181; "s"%char], 1000); ([chr 206; chr 188; "s"%char], 1000);
   (bytes "ms", GoTime.Millisecond); (bytes "s", GoTime.Second); (bytes "m", GoTime.Minute); (bytes "h", GoTime.Hour)].

Fixpoint unit_of (u : list ascii) (units : list (list ascii * Z)) : option Z :=
  match units with
  | [] => None
  | (name, unit) :: units => if bool_decide (u = name) then Some unit else unit_of u units
  end.

(** [leadingInt]: [None] on overflow of [1<<63]. *)
Fixpoint leadingInt (x : Z) (l : list ascii) : option (Z * list ascii) :=
  match l with
  | c :: l' =>
    if is_digit c then
      if 2 ^ 63 / 10 <? x then None
      else
        let x := x * 10 + digit c in
        if 2 ^ 63 <? x then None else leadingInt x l'
    else Some (x, l)
  | [] => Some (x, [])
  end.

(** [leadingFraction]: the digits, the power of ten under them, and the rest; digits that
    do not fit are skipped. *)
Fixpoint leadingFraction (x scale : Z) (overflow : bool) (l : list ascii) : Z * Z * list ascii :=
  match l with
  | c :: l' =>
    if is_digit c then
      if overflow then leadingFraction x scale true l'
      else if (2 ^ 63 - 1) / 10 <? x then leadingFraction x scale true l'
      else
        let y := x * 10 + digit c in
        if 2 ^ 63 <? y then leadingFraction x scale true l' else leadingFraction y (scale * 10) false l'
    else (x, scale, l)
  | [] => (x, scale, [])
  end.

(** The longest prefix without a dot or a digit. *)
Fixpoint unit_text (l : list ascii) : list ascii * list ascii :=
  match l with
  | c :: l' => if Ascii.eqb c "." || is_digit c then ([], l) else let '(u, rest) := unit_text l' in (c :: u, rest)
  | [] => ([], [])
  end.

(** One number with its unit: what is added, and the rest. *)
Definition duration_part (l : list ascii) : option (Z * list ascii) :=
  match l with
  | c :: _ =>
    if negb (Ascii.eqb c "." || is_digit c) then None
    else
      '(v, l1) ← leadingInt 0 l;
      let pre := negb (length l1 =? length l)%nat in
      let '(f, scale, l2, post) :=
        match l1 with
        | c :: l1' => if Ascii.eqb c "."
                      then let '(f, scale, l2) := leadingFraction 0 1 false l1' in (f, scale, l2, negb (length l2 =? length l1')%nat)
                      else (0, 1, l1, false)
        | [] => (0, 1, l1, false)
        end in
      if negb pre && negb post then None
      else
        let '(u, rest) := unit_text l2 in
        if (length u =? 0)%nat then None
        else
          unit ← unit_of u unitMap;
          if 2 ^ 63 / unit <? v then None
          else
            let v := v * unit in
            let v := if 0 <? f then v + trunc_to_int (fmul (of_int f) (fdiv (of_int unit) (of_int scale))) else v in
            if 2 ^ 63 <? v then None else Some (v, rest)
  | [] => None
  end.

Fixpoint duration_parts (fuel : nat) (d : Z) (l : list ascii) : option Z :=
  match l with
  | [] => Some d
  | _ =>
    match fuel with
    | O => None
    | S fuel =>
      '(v, rest) ← duration_part l;
      let d := d + v in
      if 2 ^ 63 <? d then None else duration_parts fuel d rest
    end
  end.

Definition ParseDuration (s : string) : option Duration :=
  let '(neg, l) := sign (bytes s) in
  if bool_decide (l = ["0"%char]) then Some 0
  else if (length l =? 0)%nat then None
  else
    d ← duration_parts (length l) 0 l;
    if (neg : bool) then Some (- d)
    else if 2 ^ 63 - 1 <? d then None else Some d.

(** ** Facts *)

Lemma leadingInt_rest x l v rest : leadingInt x l = Some (v, rest) -> (length rest <= length l)%nat.
Proof.
  revert x. induction l as [|c l IH]; intros x; cbn; [by intros [= _ <-]|]. destruct (is_digit c); [|by intros [= _ <-]].
  repeat case_match; try discriminate. intros Hl. apply IH in Hl. lia.
Qed.

Lemma leadingFraction_rest x scale o l : (length (leadingFraction x scale o l).2 <= length l)%nat.
Proof.
  revert x scale o. induction l as [|c l IH]; intros x scale o; cbn; [done|]. destruct (is_digit c); [|done].
  repeat case_match; cbn; etrans; try apply IH; lia.
Qed.

Lemma unit_text_rest l : (length (unit_text l).1 + length (unit_text l).2 = length l)%nat.
Proof. induction l as [|c l IH]; cbn; [done|]. case_match; [done|]. destruct (unit_text l). cbn in *. lia. Qed.

(** Every part consumes text, so the length of the text is enough fuel. *)
Lemma duration_part_rest l v rest : duration_part l = Some (v, rest) -> (length rest < length l)%nat.
Proof.
  unfold duration_part. destruct l as [|c l]; [done|]. destruct (negb _); [done|]. destruct (leadingInt 0 (c :: l)) as [[v0 l1]|] eqn:E1; [|done].
  apply leadingInt_rest in E1. cbn [mbind option_bind].
  set (frac := match l1 with [] => _ | _ => _ end). assert (Hf : (length frac.1.2 <= length l1)%nat).
  { subst frac. destruct l1 as [|c1 l1]; [done|]. destruct (Ascii.eqb c1 "."); [|done]. pose proof (leadingFraction_rest 0 1 false l1).
    destruct (leadingFraction 0 1 false l1) as [[f scale] l2]. cbn in *. lia. }
  destruct frac as [[[f scale] l2] post]. cbn in Hf. destruct (_ && _); [done|]. pose proof (unit_text_rest l2) as Hu.
  destruct (unit_text l2) as [u rest']. cbn in Hu. destruct (length u =? 0)%nat eqn:El; [done|]. apply Nat.eqb_neq in El.
  destruct (unit_of u unitMap); [|done]. cbn. repeat case_match; try discriminate. all: intros [= _ <-]; cbn in *; lia.
Qed.

Lemma duration_parts_fuel fuel fuel' d l : (length l <= fuel)%nat -> (length l <= fuel')%nat -> duration_parts fuel d l = duration_parts fuel' d l.
Proof.
  revert fuel' d l. induction fuel as [|fuel IH]; intros [|fuel'] d l H1 H2; destruct l as [|c l]; cbn in H1, H2; try done; try lia.
  cbn [duration_parts]. destruct (duration_part (c :: l)) as [[v rest]|] eqn:E; [|done]. cbn. apply duration_part_rest in E. cbn in E.
  case_match; [done|]. apply IH; lia.
Qed.
