(* ===== verification/Config.v ===== *)
(** The configuration of the gateway ([src/internal/config/config.go],
    [src/internal/config/tokenization.go]): the settings taken from the environment and
    their validation, and the options the application gives the monitor
    ([src/cmd/gateway/application.go]).

    [strconv.ParseFloat], [strings.ToLower], [net/url] and the order of [range] over the
    map of durations are parameters. *)

From Stdlib Require Import Ascii.
From S2P Require Import Prelude Domain Float64 CircuitBreaker Coordination Pressure GoStrings Tokenization GoParse Validate Worker Monitor.

(** An environment: [LookupFunc]. *)
Definition LookupFunc : Type := string -> option string.

Record Config := {
  cf_Tokenization : TokenizationPolicy;
  cf_postgresSettingsExplicit : bool;
  cf_ListenAddress : string;
  cf_DatabaseDriver : string;
  cf_DatabasePath : string;
  cf_DatabaseURL : string;
  cf_DatabaseMigrationURL : string;
  cf_PostgresConfigMaxConns : Z;
  cf_PostgresAnalyticsMaxConns : Z;
  cf_PostgresCoordinationMaxConns : Z;
  cf_ConfigPollInterval : Duration;
  cf_CoordinationTimeout : Duration;
  cf_LeaseTTL : Duration;
  cf_LeaseRenewInterval : Duration;
  cf_CoordinationCompletionBacklog : Z;
  cf_EmergencyCriticalMaxInflight : Z;
  cf_EmergencyHighMaxInflight : Z;
  cf_AdminUsername : string;
  cf_AdminPassword : string;
  cf_APIKeyHMACSecret : string;
  cf_HealthInterval : Duration;
  cf_HealthTimeout : Duration;
  cf_MetricsInterval : Duration;
  cf_MetricsTimeout : Duration;
  cf_MetricsStaleAfter : Duration;
  cf_UnhealthyAfter : Z;
  cf_RecoveryAfter : Z;
  cf_CircuitFailureThreshold : Z;
  cf_CircuitFailureWindow : Duration;
  cf_CircuitOpenCooldown : Duration;
  cf_CircuitHalfOpenMaxProbes : Z;
  cf_QueueSoftLimit : float64;
  cf_KVSoftLimit : float64;
  cf_KVHardLimit : float64;
  cf_EWMAWindow : Duration;
  cf_BusyThreshold : float64;
  cf_SaturatedThreshold : float64;
  cf_EmergencyThreshold : float64;
  cf_BusyRecoveryThreshold : float64;
  cf_SaturatedRecoveryThreshold : float64;
  cf_EmergencyRecoveryThreshold : float64;
  cf_OverloadEnterWindow : Duration;
  cf_OverloadRecoveryWindow : Duration;
  cf_RequestBodyLimit : Z;
  cf_RetryAfter : Duration;
  cf_RoutingPressureEpsilon : float64;
  cf_SessionAffinityMaxPressure : float64;
  cf_DialTimeout : Duration;
  cf_TLSHandshakeTimeout : Duration;
  cf_ResponseHeaderTimeout : Duration;
  cf_ShutdownGracePeriod : Duration;
  cf_AnalyticsRetention : Duration
}.

Definition defaultConfig : Config :=
  {| cf_Tokenization := DefaultTokenizationPolicy;
     cf_postgresSettingsExplicit := false;
     cf_ListenAddress := ":8080";
     cf_DatabaseDriver := "sqlite";
     cf_DatabasePath := "./data/llmgw.db";
     cf_DatabaseURL := "";
     cf_DatabaseMigrationURL := "";
     cf_PostgresConfigMaxConns := 4;
     cf_PostgresAnalyticsMaxConns := 4;
     cf_PostgresCoordinationMaxConns := 16;
     cf_ConfigPollInterval := 5 * GoTime.Second;
     cf_CoordinationTimeout := 500 * GoTime.Millisecond;
     cf_LeaseTTL := 90 * GoTime.Second;
     cf_LeaseRenewInterval := 30 * GoTime.Second;
     cf_CoordinationCompletionBacklog := 4096;
     cf_EmergencyCriticalMaxInflight := 4;
     cf_EmergencyHighMaxInflight := 2;
     cf_AdminUsername := "";
     cf_AdminPassword := "";
     cf_APIKeyHMACSecret := "";
     cf_HealthInterval := 2 * GoTime.Second;
     cf_HealthTimeout := GoTime.Second;
     cf_MetricsInterval := GoTime.Second;
     cf_MetricsTimeout := GoTime.Second;
     cf_MetricsStaleAfter := 5 * GoTime.Second;
     cf_UnhealthyAfter := 3;
     cf_RecoveryAfter := 2;
     cf_CircuitFailureThreshold := 5;
     cf_CircuitFailureWindow := 30 * GoTime.Second;
     cf_CircuitOpenCooldown := 15 * GoTime.Second;
     cf_CircuitHalfOpenMaxProbes := 1;
     cf_QueueSoftLimit := of_int 2;
     cf_KVSoftLimit := of_ratio 80 100;
     cf_KVHardLimit := of_ratio 95 100;
     cf_EWMAWindow := 4 * GoTime.Second;
     cf_BusyThreshold := of_ratio 70 100;
     cf_SaturatedThreshold := of_ratio 100 100;
     cf_EmergencyThreshold := of_ratio 140 100;
     cf_BusyRecoveryThreshold := of_ratio 55 100;
     cf_SaturatedRecoveryThreshold := of_ratio 85 100;
     cf_EmergencyRecoveryThreshold := of_ratio 120 100;
     cf_OverloadEnterWindow := 3 * GoTime.Second;
     cf_OverloadRecoveryWindow := 10 * GoTime.Second;
     cf_RequestBodyLimit := 16 * 2 ^ 20;
     cf_RetryAfter := 2 * GoTime.Second;
     cf_RoutingPressureEpsilon := of_ratio 2 100;
     cf_SessionAffinityMaxPressure := of_ratio 100 100;
     cf_DialTimeout := 3 * GoTime.Second;
     cf_TLSHandshakeTimeout := 3 * GoTime.Second;
     cf_ResponseHeaderTimeout := 30 * GoTime.Second;
     cf_ShutdownGracePeriod := 30 * GoTime.Second;
     cf_AnalyticsRetention := 2160 * GoTime.Hour |}.

(** ** Errors *)

(** One constructor per error message. *)
Inductive ConfigError :=
| ParseFailed (key : string)
| TokenizeSettings
| AdminUsernameRequired
| AdminPasswordTooShort
| HMACSecretTooShort
| ListenAddressRequired
| NotPositive (name : string)
| TransitionCountsNotPositive
| RetentionNegative
| CircuitCountsNotPositive
| CircuitWindowTooLong
| LeaseRenewTooLong
| PoolLimitsNotPositive
| CoordinationLimits
| QueueSoftNotPositive
| KVLimits
| ThresholdsNotFinite
| ThresholdsOrder
| BodyLimitTooSmall
| EpsilonInvalid
| AffinityPressureInvalid
| DatabasePathRequired
| PostgresSettingsForSqlite
| ValidOnlyForPostgres (key : string)
| DatabaseURLRequired
| InvalidPostgresURL
| ExecModeRequired
| UnsupportedDriver (driver : string).

#[local] Instance sum_bind : MBind (sum ConfigError) := fun A B f x => match x with inl e => inl e | inr a => f a end.

(** ** Values *)

Section Values.
Context (lookup : LookupFunc).

Definition stringValue (key fallback : string) : string := default fallback (lookup key).

Definition parsedValue {A : Type} (parse : string -> option A) (key : string) (fallback : A) : ConfigError + A :=
  match lookup key with
  | None => inr fallback
  | Some value => match parse value with Some parsed => inr parsed | None => inl (ParseFailed key) end
  end.

Definition durationValue : string -> Duration -> ConfigError + Duration := parsedValue ParseDuration.
Definition intValue : string -> Z -> ConfigError + Z := parsedValue Atoi.
Definition int64Value : string -> Z -> ConfigError + Z := parsedValue ParseInt.

End Values.

(** [value > 0 && !math.IsNaN(value) && !math.IsInf(value, 0)] *)
Definition finitePositive (value : float64) : bool := flt fzero value && negb (IsNaN value) && negb (IsInf value).

Section Config.
Context {Rest : Type} (url_parse : string -> option (URL Rest)) (exec_mode : URL Rest -> string)
  (ParseFloat : string -> option float64) (ToLower : string -> string)
  (range_durations : list (string * Duration) -> list (string * Duration)).
Context (lookup : LookupFunc).

Definition floatValue (key : string) (fallback : float64) : ConfigError + float64 := parsedValue lookup ParseFloat key fallback.

(** [c.Field, err = value(lookup, key, c.Field)] *)
Definition field {A : Type} (value : string -> A -> ConfigError + A) (key : string) (get : Config -> A) (set_field : A -> Config -> Config) (c : Config)
    : ConfigError + Config :=
  v ← value key (get c); inr (set_field v c).

(** ** Loading *)

Definition loadTokenization (c : Config) : ConfigError + Config :=
  let t := cf_Tokenization c in
  v ← intValue lookup "LLMGW_TOKENIZE_CLIENT_MAX_INFLIGHT" (tp_ClientMaxInflight t);
  let t := {| t with tp_ClientMaxInflight := v |} in
  v ← intValue lookup "LLMGW_TOKENIZE_BACKEND_MAX_INFLIGHT" (tp_BackendMaxInflight t);
  let t := {| t with tp_BackendMaxInflight := v |} in
  rpm ← intValue lookup "LLMGW_TOKENIZE_CLIENT_RPM" (tp_ClientRPM t);
  let t := {| t with tp_ClientRPM := rpm |} in
  v ← durationValue lookup "LLMGW_TOKENIZE_TIMEOUT" (tp_Timeout t);
  let t := {| t with tp_Timeout := v |} in
  if Tokenization.Validate t then inr {| c with cf_Tokenization := t |} else inl TokenizeSettings.

Definition postgresKeys : list string :=
  ["LLMGW_DATABASE_URL"; "LLMGW_DATABASE_MIGRATION_URL"; "LLMGW_POSTGRES_CONFIG_MAX_CONNS"; "LLMGW_POSTGRES_ANALYTICS_MAX_CONNS"; "LLMGW_POSTGRES_COORDINATION_MAX_CONNS"; "LLMGW_CONFIG_POLL_INTERVAL"; "LLMGW_COORDINATION_TIMEOUT"].

(** The first lines of [loadCoordination]. *)
Definition loadDatabase (c : Config) : Config :=
  let explicit := existsb (fun key => bool_decide (is_Some (lookup key))) postgresKeys in
  {| c with cf_postgresSettingsExplicit := cf_postgresSettingsExplicit c || explicit;
            cf_DatabaseDriver := ToLower (GoStrings.TrimSpace (stringValue lookup "LLMGW_DATABASE_DRIVER" (cf_DatabaseDriver c)));
            cf_DatabaseURL := stringValue lookup "LLMGW_DATABASE_URL" "";
            cf_DatabaseMigrationURL := stringValue lookup "LLMGW_DATABASE_MIGRATION_URL" "" |}.

Definition loadCoordination (c : Config) : ConfigError + Config :=
  let c := loadDatabase c in
  c ← field (intValue lookup) "LLMGW_POSTGRES_CONFIG_MAX_CONNS" cf_PostgresConfigMaxConns (fun v c => {| c with cf_PostgresConfigMaxConns := v |}) c;
  c ← field (intValue lookup) "LLMGW_POSTGRES_ANALYTICS_MAX_CONNS" cf_PostgresAnalyticsMaxConns (fun v c => {| c with cf_PostgresAnalyticsMaxConns := v |}) c;
  c ← field (intValue lookup) "LLMGW_POSTGRES_COORDINATION_MAX_CONNS" cf_PostgresCoordinationMaxConns (fun v c => {| c with cf_PostgresCoordinationMaxConns := v |}) c;
  c ← field (durationValue lookup) "LLMGW_CONFIG_POLL_INTERVAL" cf_ConfigPollInterval (fun v c => {| c with cf_ConfigPollInterval := v |}) c;
  c ← field (durationValue lookup) "LLMGW_COORDINATION_TIMEOUT" cf_CoordinationTimeout (fun v c => {| c with cf_CoordinationTimeout := v |}) c;
  c ← field (durationValue lookup) "LLMGW_LEASE_TTL" cf_LeaseTTL (fun v c => {| c with cf_LeaseTTL := v |}) c;
  c ← field (durationValue lookup) "LLMGW_LEASE_RENEW_INTERVAL" cf_LeaseRenewInterval (fun v c => {| c with cf_LeaseRenewInterval := v |}) c;
  c ← field (intValue lookup) "LLMGW_COORDINATION_COMPLETION_BACKLOG" cf_CoordinationCompletionBacklog (fun v c => {| c with cf_CoordinationCompletionBacklog := v |}) c;
  c ← field (intValue lookup) "LLMGW_COORDINATION_EMERGENCY_CRITICAL_MAX_INFLIGHT" cf_EmergencyCriticalMaxInflight (fun v c => {| c with cf_EmergencyCriticalMaxInflight := v |}) c;
  c ← field (intValue lookup) "LLMGW_COORDINATION_EMERGENCY_HIGH_MAX_INFLIGHT" cf_EmergencyHighMaxInflight (fun v c => {| c with cf_EmergencyHighMaxInflight := v |}) c;
  inr c.

Definition loadHealth (c : Config) : ConfigError + Config :=
  c ← field (durationValue lookup) "LLMGW_HEALTH_INTERVAL" cf_HealthInterval (fun v c => {| c with cf_HealthInterval := v |}) c;
  c ← field (durationValue lookup) "LLMGW_HEALTH_TIMEOUT" cf_HealthTimeout (fun v c => {| c with cf_HealthTimeout := v |}) c;
  c ← field (durationValue lookup) "LLMGW_METRICS_INTERVAL" cf_MetricsInterval (fun v c => {| c with cf_MetricsInterval := v |}) c;
  c ← field (durationValue lookup) "LLMGW_METRICS_TIMEOUT" cf_MetricsTimeout (fun v c => {| c with cf_MetricsTimeout := v |}) c;
  c ← field (durationValue lookup) "LLMGW_METRICS_STALE_AFTER" cf_MetricsStaleAfter (fun v c => {| c with cf_MetricsStaleAfter := v |}) c;
  c ← field (intValue lookup) "LLMGW_UNHEALTHY_AFTER" cf_UnhealthyAfter (fun v c => {| c with cf_UnhealthyAfter := v |}) c;
  c ← field (intValue lookup) "LLMGW_RECOVERY_AFTER" cf_RecoveryAfter (fun v c => {| c with cf_RecoveryAfter := v |}) c;
  inr c.

Definition loadCircuit (c : Config) : ConfigError + Config :=
  c ← field (intValue lookup) "LLMGW_CIRCUIT_FAILURE_THRESHOLD" cf_CircuitFailureThreshold (fun v c => {| c with cf_CircuitFailureThreshold := v |}) c;
  c ← field (durationValue lookup) "LLMGW_CIRCUIT_FAILURE_WINDOW" cf_CircuitFailureWindow (fun v c => {| c with cf_CircuitFailureWindow := v |}) c;
  c ← field (durationValue lookup) "LLMGW_CIRCUIT_OPEN_COOLDOWN" cf_CircuitOpenCooldown (fun v c => {| c with cf_CircuitOpenCooldown := v |}) c;
  c ← field (intValue lookup) "LLMGW_CIRCUIT_HALF_OPEN_MAX_PROBES" cf_CircuitHalfOpenMaxProbes (fun v c => {| c with cf_CircuitHalfOpenMaxProbes := v |}) c;
  inr c.

Definition loadPressure (c : Config) : ConfigError + Config :=
  c ← field floatValue "LLMGW_QUEUE_SOFT_LIMIT" cf_QueueSoftLimit (fun v c => {| c with cf_QueueSoftLimit := v |}) c;
  c ← field floatValue "LLMGW_KV_SOFT_LIMIT" cf_KVSoftLimit (fun v c => {| c with cf_KVSoftLimit := v |}) c;
  c ← field floatValue "LLMGW_KV_HARD_LIMIT" cf_KVHardLimit (fun v c => {| c with cf_KVHardLimit := v |}) c;
  c ← field (durationValue lookup) "LLMGW_EWMA_WINDOW" cf_EWMAWindow (fun v c => {| c with cf_EWMAWindow := v |}) c;
  c ← field floatValue "LLMGW_BUSY_THRESHOLD" cf_BusyThreshold (fun v c => {| c with cf_BusyThreshold := v |}) c;
  c ← field floatValue "LLMGW_SATURATED_THRESHOLD" cf_SaturatedThreshold (fun v c => {| c with cf_SaturatedThreshold := v |}) c;
  c ← field floatValue "LLMGW_EMERGENCY_THRESHOLD" cf_EmergencyThreshold (fun v c => {| c with cf_EmergencyThreshold := v |}) c;
  c ← field floatValue "LLMGW_BUSY_RECOVERY_THRESHOLD" cf_BusyRecoveryThreshold (fun v c => {| c with cf_BusyRecoveryThreshold := v |}) c;
  c ← field floatValue "LLMGW_SATURATED_RECOVERY_THRESHOLD" cf_SaturatedRecoveryThreshold (fun v c => {| c with cf_SaturatedRecoveryThreshold := v |}) c;
  c ← field floatValue "LLMGW_EMERGENCY_RECOVERY_THRESHOLD" cf_EmergencyRecoveryThreshold (fun v c => {| c with cf_EmergencyRecoveryThreshold := v |}) c;
  c ← field (durationValue lookup) "LLMGW_OVERLOAD_ENTER_WINDOW" cf_OverloadEnterWindow (fun v c => {| c with cf_OverloadEnterWindow := v |}) c;
  c ← field (durationValue lookup) "LLMGW_OVERLOAD_RECOVERY_WINDOW" cf_OverloadRecoveryWindow (fun v c => {| c with cf_OverloadRecoveryWindow := v |}) c;
  inr c.

Definition loadRequestPolicy (c : Config) : ConfigError + Config :=
  c ← field (int64Value lookup) "LLMGW_REQUEST_BODY_LIMIT" cf_RequestBodyLimit (fun v c => {| c with cf_RequestBodyLimit := v |}) c;
  c ← field (durationValue lookup) "LLMGW_RETRY_AFTER" cf_RetryAfter (fun v c => {| c with cf_RetryAfter := v |}) c;
  c ← field floatValue "LLMGW_ROUTING_PRESSURE_EPSILON" cf_RoutingPressureEpsilon (fun v c => {| c with cf_RoutingPressureEpsilon := v |}) c;
  c ← field floatValue "LLMGW_SESSION_AFFINITY_MAX_PRESSURE" cf_SessionAffinityMaxPressure (fun v c => {| c with cf_SessionAffinityMaxPressure := v |}) c;
  inr c.

Definition loadTransport (c : Config) : ConfigError + Config :=
  c ← field (durationValue lookup) "LLMGW_DIAL_TIMEOUT" cf_DialTimeout (fun v c => {| c with cf_DialTimeout := v |}) c;
  c ← field (durationValue lookup) "LLMGW_TLS_HANDSHAKE_TIMEOUT" cf_TLSHandshakeTimeout (fun v c => {| c with cf_TLSHandshakeTimeout := v |}) c;
  c ← field (durationValue lookup) "LLMGW_RESPONSE_HEADER_TIMEOUT" cf_ResponseHeaderTimeout (fun v c => {| c with cf_ResponseHeaderTimeout := v |}) c;
  c ← field (durationValue lookup) "LLMGW_SHUTDOWN_GRACE_PERIOD" cf_ShutdownGracePeriod (fun v c => {| c with cf_ShutdownGracePeriod := v |}) c;
  c ← field (durationValue lookup) "LLMGW_ANALYTICS_RETENTION" cf_AnalyticsRetention (fun v c => {| c with cf_AnalyticsRetention := v |}) c;
  inr c.

(** ** Validation *)

Definition blank (s : string) : bool := bool_decide (GoStrings.TrimSpace s = EmptyString).

(** [err != nil || (parsed.Scheme != "postgres" && parsed.Scheme != "postgresql") || parsed.Host == ""] *)
Definition bad_postgres_url (raw : string) : bool :=
  match url_parse raw with
  | None => true
  | Some parsed =>
    negb (bool_decide (url_Scheme parsed = "postgres")) && negb (bool_decide (url_Scheme parsed = "postgresql")) ||
    bool_decide (url_Host parsed = EmptyString)
  end.

Definition validateDatabaseProfile (c : Config) : option ConfigError :=
  if bool_decide (cf_DatabaseDriver c = "sqlite") then
    if blank (cf_DatabasePath c) then Some DatabasePathRequired
    else if cf_postgresSettingsExplicit c then Some PostgresSettingsForSqlite
    else if negb (blank (cf_DatabaseURL c)) then Some (ValidOnlyForPostgres "LLMGW_DATABASE_URL")
    else if negb (blank (cf_DatabaseMigrationURL c)) then Some (ValidOnlyForPostgres "LLMGW_DATABASE_MIGRATION_URL")
    else None
  else if bool_decide (cf_DatabaseDriver c = "postgres") then
    if blank (cf_DatabaseURL c) then Some DatabaseURLRequired
    else if existsb (fun raw => negb (bool_decide (raw = EmptyString)) && bad_postgres_url raw) [cf_DatabaseURL c; cf_DatabaseMigrationURL c]
    then Some InvalidPostgresURL
    else
      let mode := from_option exec_mode EmptyString (url_parse (cf_DatabaseURL c)) in
      if negb (bool_decide (mode = EmptyString)) && negb (bool_decide (mode = "exec")) then Some ExecModeRequired else None
  else Some (UnsupportedDriver (cf_DatabaseDriver c)).

(** The durations that must be positive, by the name an error gives them. *)
Definition durations (c : Config) : list (string * Duration) :=
  [("health interval"%string, cf_HealthInterval c);
   ("health timeout"%string, cf_HealthTimeout c);
   ("metrics interval"%string, cf_MetricsInterval c);
   ("metrics timeout"%string, cf_MetricsTimeout c);
   ("metrics stale after"%string, cf_MetricsStaleAfter c);
   ("EWMA window"%string, cf_EWMAWindow c);
   ("circuit failure window"%string, cf_CircuitFailureWindow c);
   ("circuit open cooldown"%string, cf_CircuitOpenCooldown c);
   ("overload enter window"%string, cf_OverloadEnterWindow c);
   ("overload recovery window"%string, cf_OverloadRecoveryWindow c);
   ("retry after"%string, cf_RetryAfter c);
   ("dial timeout"%string, cf_DialTimeout c);
   ("TLS handshake timeout"%string, cf_TLSHandshakeTimeout c);
   ("response header timeout"%string, cf_ResponseHeaderTimeout c);
   ("shutdown grace period"%string, cf_ShutdownGracePeriod c);
   ("config poll interval"%string, cf_ConfigPollInterval c);
   ("coordination timeout"%string, cf_CoordinationTimeout c);
   ("lease TTL"%string, cf_LeaseTTL c);
   ("lease renewal interval"%string, cf_LeaseRenewInterval c)].

Definition thresholds_of (c : Config) : list float64 :=
  [cf_BusyRecoveryThreshold c; cf_BusyThreshold c; cf_SaturatedRecoveryThreshold c; cf_SaturatedThreshold c; cf_EmergencyRecoveryThreshold c;
   cf_EmergencyThreshold c].

Definition validate_ranges (c : Config) : option ConfigError :=
  match find (fun '(_, value) => value <=? 0) (range_durations (durations c)) with
  | Some (name, _) => Some (NotPositive name)
  | None =>
    if (cf_UnhealthyAfter c <=? 0) || (cf_RecoveryAfter c <=? 0) then Some TransitionCountsNotPositive
    else if cf_AnalyticsRetention c <? 0 then Some RetentionNegative
    else if (cf_CircuitFailureThreshold c <=? 0) || (cf_CircuitHalfOpenMaxProbes c <=? 0) then Some CircuitCountsNotPositive
    else if 24 * GoTime.Hour - 5 * GoTime.Minute <? cf_CircuitFailureWindow c then Some CircuitWindowTooLong
    else if Z.quot (cf_LeaseTTL c) 3 <? cf_LeaseRenewInterval c then Some LeaseRenewTooLong
    else if (cf_PostgresConfigMaxConns c <=? 0) || (cf_PostgresAnalyticsMaxConns c <=? 0) || (cf_PostgresCoordinationMaxConns c <=? 0)
    then Some PoolLimitsNotPositive
    else if (cf_CoordinationCompletionBacklog c <=? 0) || (cf_EmergencyCriticalMaxInflight c <? 0) || (cf_EmergencyHighMaxInflight c <? 0)
    then Some CoordinationLimits
    else if negb (finitePositive (cf_QueueSoftLimit c)) then Some QueueSoftNotPositive
    else if IsNaN (cf_KVSoftLimit c) || IsInf (cf_KVSoftLimit c) || IsNaN (cf_KVHardLimit c) || IsInf (cf_KVHardLimit c) ||
            flt (cf_KVSoftLimit c) fzero || flt fone (cf_KVHardLimit c) || fle (cf_KVHardLimit c) (cf_KVSoftLimit c)
    then Some KVLimits
    else if negb (forallb finitePositive (thresholds_of c)) then Some ThresholdsNotFinite
    else if negb (flt (cf_BusyRecoveryThreshold c) (cf_BusyThreshold c) && flt (cf_BusyThreshold c) (cf_SaturatedRecoveryThreshold c) &&
                  flt (cf_SaturatedRecoveryThreshold c) (cf_SaturatedThreshold c) &&
                  flt (cf_SaturatedThreshold c) (cf_EmergencyRecoveryThreshold c) &&
                  flt (cf_EmergencyRecoveryThreshold c) (cf_EmergencyThreshold c))
    then Some ThresholdsOrder
    else if cf_RequestBodyLimit c <? 1024 then Some BodyLimitTooSmall
    else if flt (cf_RoutingPressureEpsilon c) fzero || IsNaN (cf_RoutingPressureEpsilon c) || IsInf (cf_RoutingPressureEpsilon c)
    then Some EpsilonInvalid
    else if negb (finitePositive (cf_SessionAffinityMaxPressure c)) then Some AffinityPressureInvalid
    else None
  end.

Definition validate (c : Config) : option ConfigError :=
  if blank (cf_AdminUsername c) then Some AdminUsernameRequired
  else if (String.length (cf_AdminPassword c) <? 16)%nat then Some AdminPasswordTooShort
  else if (String.length (cf_APIKeyHMACSecret c) <? 32)%nat then Some HMACSecretTooShort
  else if blank (cf_ListenAddress c) then Some ListenAddressRequired
  else
    match validateDatabaseProfile c with
    | Some e => Some e
    | None => validate_ranges c
    end.

Definition loadAccess (c : Config) : Config :=
  {| c with cf_ListenAddress := stringValue lookup "LLMGW_LISTEN_ADDRESS" (cf_ListenAddress c);
            cf_DatabasePath := stringValue lookup "LLMGW_DATABASE_PATH" (cf_DatabasePath c);
            cf_AdminUsername := stringValue lookup "LLMGW_ADMIN_USERNAME" "";
            cf_AdminPassword := stringValue lookup "LLMGW_ADMIN_PASSWORD" "";
            cf_APIKeyHMACSecret := stringValue lookup "LLMGW_API_KEY_HMAC_SECRET" "" |}.

(** The lines of [Load] before its validation. *)
Definition loadSettings (d : Config) : ConfigError + Config :=
  c ← loadTokenization d;
  let c := loadAccess c in
  c ← loadCoordination c;
  c ← loadHealth c;
  c ← loadCircuit c;
  c ← loadPressure c;
  c ← loadRequestPolicy c;
  loadTransport c.

Definition Load : ConfigError + Config :=
  c ← loadSettings defaultConfig;
  match validate c with
  | Some e => inl e
  | None =>
    inr (if bool_decide (cf_DatabaseDriver c = "postgres") && bool_decide (cf_DatabaseMigrationURL c = EmptyString)
         then {| c with cf_DatabaseMigrationURL := cf_DatabaseURL c |} else c)
  end.

(** ** The options of the monitor *)

Definition circuit_options (c : Config) : CircuitBreaker.Options :=
  {| FailureThreshold := cf_CircuitFailureThreshold c; FailureWindow := cf_CircuitFailureWindow c; OpenCooldown := cf_CircuitOpenCooldown c;
     HalfOpenMaxProbes := cf_CircuitHalfOpenMaxProbes c |}.

Definition monitor_options (c : Config) (replicaID : UUID) : MonitorOptions :=
  {| mo_HealthInterval := cf_HealthInterval c; mo_HealthTimeout := cf_HealthTimeout c; mo_MetricsInterval := cf_MetricsInterval c;
     mo_MetricsTimeout := cf_MetricsTimeout c; mo_StaleAfter := cf_MetricsStaleAfter c; mo_UnhealthyAfter := cf_UnhealthyAfter c;
     mo_RecoveryAfter := cf_RecoveryAfter c; mo_Circuit := circuit_options c; mo_CircuitCoordinator := true; mo_AdmissionRuntime := true;
     mo_ReplicaID := replicaID; mo_ProbeTTL := cf_LeaseTTL c; mo_ProbeRenewInterval := cf_LeaseRenewInterval c;
     mo_Limits := {| lim_QueueSoft := cf_QueueSoftLimit c; lim_KVSoft := cf_KVSoftLimit c; lim_KVHard := cf_KVHardLimit c; lim_RunningSoft := fzero |};
     mo_EWMAWindow := cf_EWMAWindow c; mo_BusyThreshold := cf_BusyThreshold c; mo_SaturatedThreshold := cf_SaturatedThreshold c;
     mo_PoolThresholds :=
       {| th_Busy := cf_BusyThreshold c; th_Saturated := cf_SaturatedThreshold c; th_Emergency := cf_EmergencyThreshold c;
          th_BusyRecovery := cf_BusyRecoveryThreshold c; th_SaturatedRecovery := cf_SaturatedRecoveryThreshold c;
          th_EmergencyRecovery := cf_EmergencyRecoveryThreshold c; th_EnterWindow := cf_OverloadEnterWindow c;
          th_RecoveryWindow := cf_OverloadRecoveryWindow c |} |}.

(** ** The settings *)

(** The variables of each kind and the fields they set. *)
Definition duration_settings : list (string * (Config -> Duration)) :=
  [("LLMGW_TOKENIZE_TIMEOUT"%string, fun c => tp_Timeout (cf_Tokenization c));
   ("LLMGW_CONFIG_POLL_INTERVAL"%string, cf_ConfigPollInterval);
   ("LLMGW_COORDINATION_TIMEOUT"%string, cf_CoordinationTimeout);
   ("LLMGW_LEASE_TTL"%string, cf_LeaseTTL);
   ("LLMGW_LEASE_RENEW_INTERVAL"%string, cf_LeaseRenewInterval);
   ("LLMGW_HEALTH_INTERVAL"%string, cf_HealthInterval);
   ("LLMGW_HEALTH_TIMEOUT"%string, cf_HealthTimeout);
   ("LLMGW_METRICS_INTERVAL"%string, cf_MetricsInterval);
   ("LLMGW_METRICS_TIMEOUT"%string, cf_MetricsTimeout);
   ("LLMGW_METRICS_STALE_AFTER"%string, cf_MetricsStaleAfter);
   ("LLMGW_CIRCUIT_FAILURE_WINDOW"%string, cf_CircuitFailureWindow);
   ("LLMGW_CIRCUIT_OPEN_COOLDOWN"%string, cf_CircuitOpenCooldown);
   ("LLMGW_EWMA_WINDOW"%string, cf_EWMAWindow);
   ("LLMGW_OVERLOAD_ENTER_WINDOW"%string, cf_OverloadEnterWindow);
   ("LLMGW_OVERLOAD_RECOVERY_WINDOW"%string, cf_OverloadRecoveryWindow);
   ("LLMGW_RETRY_AFTER"%string, cf_RetryAfter);
   ("LLMGW_DIAL_TIMEOUT"%string, cf_DialTimeout);
   ("LLMGW_TLS_HANDSHAKE_TIMEOUT"%string, cf_TLSHandshakeTimeout);
   ("LLMGW_RESPONSE_HEADER_TIMEOUT"%string, cf_ResponseHeaderTimeout);
   ("LLMGW_SHUTDOWN_GRACE_PERIOD"%string, cf_ShutdownGracePeriod);
   ("LLMGW_ANALYTICS_RETENTION"%string, cf_AnalyticsRetention)].

Definition int_settings : list (string * (Config -> Z)) :=
  [("LLMGW_TOKENIZE_CLIENT_MAX_INFLIGHT"%string, fun c => tp_ClientMaxInflight (cf_Tokenization c));
   ("LLMGW_TOKENIZE_BACKEND_MAX_INFLIGHT"%string, fun c => tp_BackendMaxInflight (cf_Tokenization c));
   ("LLMGW_TOKENIZE_CLIENT_RPM"%string, fun c => tp_ClientRPM (cf_Tokenization c));
   ("LLMGW_POSTGRES_CONFIG_MAX_CONNS"%string, cf_PostgresConfigMaxConns);
   ("LLMGW_POSTGRES_ANALYTICS_MAX_CONNS"%string, cf_PostgresAnalyticsMaxConns);
   ("LLMGW_POSTGRES_COORDINATION_MAX_CONNS"%string, cf_PostgresCoordinationMaxConns);
   ("LLMGW_COORDINATION_COMPLETION_BACKLOG"%string, cf_CoordinationCompletionBacklog);
   ("LLMGW_COORDINATION_EMERGENCY_CRITICAL_MAX_INFLIGHT"%string, cf_EmergencyCriticalMaxInflight);
   ("LLMGW_COORDINATION_EMERGENCY_HIGH_MAX_INFLIGHT"%string, cf_EmergencyHighMaxInflight);
   ("LLMGW_UNHEALTHY_AFTER"%string, cf_UnhealthyAfter);
   ("LLMGW_RECOVERY_AFTER"%string, cf_RecoveryAfter);
   ("LLMGW_CIRCUIT_FAILURE_THRESHOLD"%string, cf_CircuitFailureThreshold);
   ("LLMGW_CIRCUIT_HALF_OPEN_MAX_PROBES"%string, cf_CircuitHalfOpenMaxProbes)].

Definition int64_settings : list (string * (Config -> Z)) :=
  [("LLMGW_REQUEST_BODY_LIMIT"%string, cf_RequestBodyLimit)].

Definition float_settings : list (string * (Config -> float64)) :=
  [("LLMGW_QUEUE_SOFT_LIMIT"%string, cf_QueueSoftLimit);
   ("LLMGW_KV_SOFT_LIMIT"%string, cf_KVSoftLimit);
   ("LLMGW_KV_HARD_LIMIT"%string, cf_KVHardLimit);
   ("LLMGW_BUSY_THRESHOLD"%string, cf_BusyThreshold);
   ("LLMGW_SATURATED_THRESHOLD"%string, cf_SaturatedThreshold);
   ("LLMGW_EMERGENCY_THRESHOLD"%string, cf_EmergencyThreshold);
   ("LLMGW_BUSY_RECOVERY_THRESHOLD"%string, cf_BusyRecoveryThreshold);
   ("LLMGW_SATURATED_RECOVERY_THRESHOLD"%string, cf_SaturatedRecoveryThreshold);
   ("LLMGW_EMERGENCY_RECOVERY_THRESHOLD"%string, cf_EmergencyRecoveryThreshold);
   ("LLMGW_ROUTING_PRESSURE_EPSILON"%string, cf_RoutingPressureEpsilon);
   ("LLMGW_SESSION_AFFINITY_MAX_PRESSURE"%string, cf_SessionAffinityMaxPressure)].

(** ** What is loaded *)

(** The field [proj] of [c] has the value of its variable, or that of [d] if it is not set. *)
Definition takes {A : Type} (parse : string -> option A) (d c : Config) (setting : string * (Config -> A)) : Prop :=
  match lookup setting.1 with
  | None => setting.2 c = setting.2 d
  | Some v => parse v = Some (setting.2 c)
  end.

Lemma bind_inr {A B : Type} (x : ConfigError + A) (k : A -> ConfigError + B) b : x ≫= k = inr b -> exists a, x = inr a /\ k a = inr b.
Proof. destruct x as [e|a]; [done|]. intros H. by exists a. Qed.

Lemma parsed_inr {A : Type} (parse : string -> option A) key fallback v : parsedValue lookup parse key fallback = inr v ->
  match lookup key with None => v = fallback | Some s => parse s = Some v end.
Proof. unfold parsedValue. destruct (lookup key) as [s|]; [|by intros [= <-]]. destruct (parse s); [|done]. by intros [= <-]. Qed.

Lemma field_inr {A : Type} (parse : string -> option A) key get set_field c c' : field (parsedValue lookup parse) key get set_field c = inr c' ->
  exists v, match lookup key with None => v = get c | Some s => parse s = Some v end /\ c' = set_field v c.
Proof. intros H. apply bind_inr in H as (v & Hv & [= <-]). apply parsed_inr in Hv. by exists v. Qed.

(** Every line of a loading function. *)
Ltac settings H :=
  repeat lazymatch type of H with
         | (field ?value _ _ _ _ ≫= _) = inr _ =>
           let c := fresh "c" in let v := fresh "v" in let Hc := fresh "Hc" in let Hv := fresh "Hv" in let E := fresh "E" in
           apply bind_inr in H as (c & Hc & H); apply field_inr in Hc as (v & Hv & E)
         end;
  injection H as <-.

(** Follow a field back through the lines. *)
Ltac chase :=
  repeat match goal with
         | E : ?c = _ |- context [?c] => is_var c; rewrite E; clear E; cbn
         end.

Ltac taken :=
  match goal with
  | H : match lookup ?k with _ => _ end |- takes _ _ _ (?k, _) =>
    unfold takes; cbn [fst snd]; destruct (lookup k); chase; first [exact H|reflexivity]
  end.

(** What the settings and the variables of an environment make. *)
Record loaded (d c : Config) : Prop := {
  ld_durations : Forall (takes ParseDuration d c) duration_settings;
  ld_ints : Forall (takes Atoi d c) int_settings;
  ld_int64s : Forall (takes ParseInt d c) int64_settings;
  ld_floats : Forall (takes ParseFloat d c) float_settings;
  ld_listen : cf_ListenAddress c = stringValue lookup "LLMGW_LISTEN_ADDRESS" (cf_ListenAddress d);
  ld_path : cf_DatabasePath c = stringValue lookup "LLMGW_DATABASE_PATH" (cf_DatabasePath d);
  ld_username : cf_AdminUsername c = stringValue lookup "LLMGW_ADMIN_USERNAME" "";
  ld_password : cf_AdminPassword c = stringValue lookup "LLMGW_ADMIN_PASSWORD" "";
  ld_secret : cf_APIKeyHMACSecret c = stringValue lookup "LLMGW_API_KEY_HMAC_SECRET" "";
  ld_driver : cf_DatabaseDriver c = ToLower (GoStrings.TrimSpace (stringValue lookup "LLMGW_DATABASE_DRIVER" (cf_DatabaseDriver d)));
  ld_url : cf_DatabaseURL c = stringValue lookup "LLMGW_DATABASE_URL" "";
  ld_migration : cf_DatabaseMigrationURL c = stringValue lookup "LLMGW_DATABASE_MIGRATION_URL" "";
  ld_explicit : cf_postgresSettingsExplicit c = cf_postgresSettingsExplicit d || existsb (fun key => bool_decide (is_Some (lookup key))) postgresKeys
}.

(** The limits of tokenization are those of the settings. *)
Definition policy_takes (c : Config) (t : TokenizationPolicy) : Prop :=
  Forall (takes Atoi c {| c with cf_Tokenization := t |}) (take 3 int_settings) /\ Forall (takes ParseDuration c {| c with cf_Tokenization := t |}) (take 1 duration_settings).

(** The variable is set to a text that the parser of its setting refuses. *)
Definition refuses {A : Type} (parse : string -> option A) (settings : list (string * (Config -> A))) (key : string) : Prop :=
  key ∈ settings.*1 /\ exists s, lookup key = Some s /\ parse s = None.

Definition unparsable (key : string) : Prop :=
  refuses ParseDuration duration_settings key \/ refuses Atoi int_settings key \/ refuses ParseInt int64_settings key \/ refuses ParseFloat float_settings key.

Lemma bind_inl {A B : Type} (x : ConfigError + A) (k : A -> ConfigError + B) e : x ≫= k = inl e -> x = inl e \/ exists a, x = inr a /\ k a = inl e.
Proof. destruct x as [e'|a]; [intros [= ->]; by left|]. intros H. right. by exists a. Qed.

Lemma parsed_inl {A : Type} (parse : string -> option A) settings key fallback e : parsedValue lookup parse key fallback = inl e ->
  key ∈ settings.*1 -> e = ParseFailed key /\ refuses parse settings key.
Proof.
  unfold parsedValue. destruct (lookup key) as [s|] eqn:Hl; [|done]. destruct (parse s) eqn:Hp; [done|]. intros [= <-] Hin.
  split; [done|]. split; [done|]. by exists s.
Qed.

Lemma field_inl {A : Type} (parse : string -> option A) settings key get set_field c e : field (parsedValue lookup parse) key get set_field c = inl e ->
  key ∈ settings.*1 -> e = ParseFailed key /\ refuses parse settings key.
Proof. intros H. apply bind_inl in H as [H|(v & _ & H)]; [exact (parsed_inl _ settings _ _ _ H)|discriminate]. Qed.

(** The key is the first argument. *)
Ltac in_table := cbn; repeat (rewrite elem_of_cons; first [left; reflexivity|right]).

Ltac unparsed H lem :=
  eexists; first
    [apply (lem _ _ duration_settings) in H as [-> H]; [split; [reflexivity|left; exact H]|solve [in_table]]
    |apply (lem _ _ int_settings) in H as [-> H]; [split; [reflexivity|right; left; exact H]|solve [in_table]]
    |apply (lem _ _ int64_settings) in H as [-> H]; [split; [reflexivity|right; right; left; exact H]|solve [in_table]]
    |apply (lem _ _ float_settings) in H as [-> H]; [split; [reflexivity|right; right; right; exact H]|solve [in_table]]].

Lemma loadTokenization_spec c :
  match loadTokenization c with
  | inr c' => exists t, c' = {| c with cf_Tokenization := t |} /\ policy_takes c t /\ Tokenization.Validate t = true
  | inl e => (exists key, e = ParseFailed key /\ unparsable key) \/
      e = TokenizeSettings /\ exists t, policy_takes c t /\ Tokenization.Validate t = false
  end.
Proof.
  destruct (loadTokenization c) as [e|c'] eqn:H; unfold loadTokenization in H.
  - do 4 (apply bind_inl in H as [H|(? & ?%parsed_inr & H)]; [left; unparsed H @parsed_inl|]).
    right. destruct (Tokenization.Validate _) eqn:Hv; [done|]. injection H as <-. split; [done|]. eexists. split; [|exact Hv].
    split; repeat constructor; assumption.
  - do 4 apply bind_inr in H as (? & ?%parsed_inr & H). destruct (Tokenization.Validate _) eqn:Hv; [|done]. injection H as <-.
    eexists. split; [reflexivity|]. split; [|exact Hv]. split; repeat constructor; assumption.
Qed.

Lemma loadSettings_loaded d c : loadSettings d = inr c -> loaded d c /\ Tokenization.Validate (cf_Tokenization c) = true.
Proof.
  unfold loadSettings, loadCoordination, loadHealth, loadCircuit, loadPressure, loadRequestPolicy, loadTransport, durationValue, intValue, int64Value, floatValue.
  intros H. apply bind_inr in H as (c0 & Ht & H).
  pose proof (loadTokenization_spec d) as Hs. rewrite Ht in Hs. clear Ht. destruct Hs as (t & Et & [T1 T4] & Hv).
  apply Forall_cons in T1 as [T1 [T2 [T3 _]%Forall_cons]%Forall_cons]. apply Forall_cons in T4 as [T4 _]. unfold takes in *. cbn in T1, T2, T3, T4.
  do 5 (let cc := fresh "cc" in let Hcc := fresh "Hcc" in apply bind_inr in H as (cc & Hcc & H); cbv zeta in Hcc; settings Hcc). settings H.
  split; [|by chase]. split.
  1-4: repeat constructor; taken.
  all: by chase.
Qed.

(** *** Loading *)

Lemma loadSettings_inl d e : loadSettings d = inl e ->
  (exists key, e = ParseFailed key /\ unparsable key) \/ e = TokenizeSettings /\ exists t, policy_takes d t /\ Tokenization.Validate t = false.
Proof.
  unfold loadSettings, loadCoordination, loadHealth, loadCircuit, loadPressure, loadRequestPolicy, loadTransport, durationValue, intValue, int64Value, floatValue.
  intros H. apply bind_inl in H as [H|(c & _ & H)]; [pose proof (loadTokenization_spec d) as Hs; by rewrite H in Hs|]. left. cbv zeta in H.
  repeat lazymatch type of H with
         | ((field _ _ _ _ _ ≫= _) ≫= _) = inl _ => apply bind_inl in H as [H|(? & _ & H)]
         | (field _ _ _ _ _ ≫= _) = inl _ => apply bind_inl in H as [H|(? & _ & H)]; [unparsed H @field_inl|]
         end.
  all: try discriminate.
Qed.

(** The loaded settings with the migrations' database of the last line of [Load]. *)
Definition completed (s : Config) : Config :=
  if bool_decide (cf_DatabaseDriver s = "postgres") && bool_decide (cf_DatabaseMigrationURL s = EmptyString)
  then {| s with cf_DatabaseMigrationURL := cf_DatabaseURL s |} else s.

(** C40. The configuration is the one the environment describes, or an error says why
    not.  When [Load] succeeds, each of its 46 parsed settings has the value its variable
    parses to, or its default if the variable is not set, the others are as set, and the
    result passed validation; when it fails, it names a variable set to a text that does
    not parse, or the validation of the settings, so taken, failed with that error. *)
Theorem load_exact :
  match Load with
  | inr c => exists s, loaded defaultConfig s /\ Tokenization.Validate (cf_Tokenization s) = true /\ validate s = None /\ c = completed s
  | inl e =>
      (exists key, e = ParseFailed key /\ unparsable key) \/
      (e = TokenizeSettings /\ exists t, policy_takes defaultConfig t /\ Tokenization.Validate t = false) \/
      exists s, loaded defaultConfig s /\ Tokenization.Validate (cf_Tokenization s) = true /\ validate s = Some e
  end.
Proof.
  unfold Load. destruct (loadSettings defaultConfig) as [e|s] eqn:Hs; cbn [mbind sum_bind].
  - apply loadSettings_inl in Hs. tauto.
  - apply loadSettings_loaded in Hs as [Hl Ht]. destruct (validate s) as [e|] eqn:Hv; [right; right|]; exists s; split_and!; done.
Qed.

(** *** Starting *)

Section Starts.
Context (url_string : URL Rest -> string).
Hypothesis range_permutes : forall l, range_durations l ≡ₚ l.

(** What the monitor and the leases need of a configuration. *)
Record startable (c : Config) : Prop := {
  st_durations : Forall (fun '(_, value) => 0 < value) (durations c);
  st_health : 0 < cf_UnhealthyAfter c /\ 0 < cf_RecoveryAfter c;
  st_circuit : 0 < cf_CircuitFailureThreshold c /\ 0 < cf_CircuitHalfOpenMaxProbes c;
  st_lease : 3 * cf_LeaseRenewInterval c <= cf_LeaseTTL c;
  st_queue : positiveFinite (cf_QueueSoftLimit c) = true;
  st_kv : negb (finite (cf_KVSoftLimit c)) || negb (finite (cf_KVHardLimit c)) || flt (cf_KVSoftLimit c) fzero ||
        flt fone (cf_KVHardLimit c) || fle (cf_KVHardLimit c) (cf_KVSoftLimit c) = false;
  st_thresholds : flt fzero (cf_BusyThreshold c) = true /\ flt (cf_BusyThreshold c) (cf_SaturatedThreshold c) = true
}.

Lemma validate_startable c : validate c = None -> startable c.
Proof.
  unfold validate, validate_ranges. intros H.
  repeat match type of H with
         | (if ?b then _ else _) = None => destruct b eqn:?; [discriminate|]
         | match ?x with Some _ => _ | None => _ end = None => destruct x eqn:?; [try discriminate; by destruct p|]
         end.
  match goal with F : find _ _ = None |- _ => rename F into Hf end.
  assert (Hd : Forall (fun '(_, value) => 0 < value) (durations c)).
  { rewrite <- (range_permutes (durations c)). apply Forall_forall. intros [name value] Hin. apply list_elem_of_In in Hin.
    apply (List.find_none _ _ Hf) in Hin. lia. }
  split; [done|lia|lia|..].
  - assert (0 < cf_LeaseTTL c) by (unfold durations in Hd; repeat rewrite Forall_cons in Hd; tauto).
    pose proof (Z.mul_quot_le (cf_LeaseTTL c) 3) as Hq. b2p. lia.
  - unfold positiveFinite, finite. unfold finitePositive in *. b2p.
    by repeat match goal with |- _ && _ = true => apply andb_true_iff; split | |- negb _ = true => apply negb_true_iff end.
  - unfold finite. rewrite !negb_andb, !negb_involutive, !orb_assoc. done.
  - b2p. split; [|by eapply flt_trans].
    match goal with F : forallb _ _ = true |- _ => cbn in F; unfold finitePositive in F end. b2p. done.
Qed.

Lemma validated_soft_limit x : not_positive x = false -> positiveFinite x = true.
Proof.
  unfold not_positive, positiveFinite, finite. intros H. b2p. repeat match goal with H : _ = false |- _ => rewrite H end. cbn [negb andb].
  rewrite andb_true_r. apply negb_false_iff. rewrite <- fle_flt; done.
Qed.

Lemma circuit_options_ok c : startable c -> exists b, CircuitBreaker.New (circuit_options c) = inr b.
Proof.
  intros [Hd _ Hc _ _ _ _]. unfold durations in Hd. repeat rewrite Forall_cons in Hd. unfold CircuitBreaker.New. cbn.
  repeat (case_match; [lia|]). by eexists.
Qed.

Lemma monitor_options_complete c replicaID : startable c -> complete_options (monitor_options c replicaID) = monitor_options c replicaID.
Proof.
  intros [Hd _ Hc _ _ _ _]. unfold durations in Hd. repeat rewrite Forall_cons in Hd. unfold complete_options. cbn.
  rewrite bool_decide_eq_false_2 by (intros [= H _ _ _]; lia). cbn. case_match; [lia|done].
Qed.

Lemma desired_backends_errors backends desired e : desired_backends url_parse url_string backends desired = inl e ->
  match e with
  | DuplicateBackend id | InvalidBackend id _ => exists b, b ∈ backends /\ be_ID b = id /\ be_Enabled b = true
  | _ => False
  end.
Proof.
  revert desired. induction backends as [|b backends IH]; intros desired; cbn [desired_backends]; [done|].
  assert (Hweak : forall e, match e with DuplicateBackend id | InvalidBackend id _ => exists b, b ∈ backends /\ be_ID b = id /\ be_Enabled b = true | _ => False end ->
    match e with DuplicateBackend id | InvalidBackend id _ => exists b0, b0 ∈ b :: backends /\ be_ID b0 = id /\ be_Enabled b0 = true | _ => False end).
  { intros []; try done; intros (x & Hx & Hy); exists x; (split; [by right|exact Hy]). }
  destruct (be_Enabled b) eqn:He; cbn [negb]; [|intros H; by apply Hweak, (IH desired)].
  destruct (desired !! be_ID b); [intros [= <-]; exists b; split; [by left|done]|].
  destruct (Backend_Validate _ _ b) as [v|b']; [intros [= <-]; exists b; split; [by left|done]|]. intros H. by eapply Hweak, IH.
Qed.

Lemma monitor_options_ok c replicaID limit : startable c -> replicaID <> 0%N -> positiveFinite limit = true ->
  let o := monitor_options c replicaID in let l := mo_Limits o in
  Options_validate {| o with mo_Limits := {| l with lim_RunningSoft := limit |} |} = None.
Proof.
  intros [Hd Hh Hc Hl Hq Hk [Hb Ht]] Hr Hs. unfold durations in Hd. repeat rewrite Forall_cons in Hd. cbv zeta. unfold Options_validate, Limits_Validate.
  cbn -[Z.leb N.eqb finite positiveFinite fzero fone]. rewrite Hq, Hs, Hk, (flt_asym _ _ Hb). cbn [negb andb orb].
  apply flt_not_nan in Hb as [_ Hb]. destruct (flt_not_nan _ _ Ht) as [_ Hn]. rewrite fle_flt, Ht by done. cbn [negb].
  assert (Hid : (replicaID =? 0)%N = false) by by apply N.eqb_neq. rewrite Hid.
  repeat (case_match; [exfalso; b2p; lia|]). done.
Qed.

Lemma start_workers_options c replicaID ids desired m m' e : startable c -> replicaID <> 0%N -> mg_options m = monitor_options c replicaID ->
  start_workers url_parse url_string ids desired m = (m', Some e) -> exists v, e = ReconcileWorker (WorkerBackend v).
Proof.
  intros Hc Hr. revert m. induction ids as [|id ids IH]; intros m Hm; cbn [start_workers]; [done|]. destruct (desired !! id) as [b|]; [|by apply IH].
  rewrite Hm. cbn [mo_Circuit monitor_options]. destruct (circuit_options_ok c Hc) as [br Hbr]. rewrite Hbr. unfold NewWorker.
  destruct (Backend_Validate _ _ b) as [v|b'] eqn:Hb; [intros [= _ <-]; by exists v|].
  apply Backend_validate_ok in Hb as (_ & _ & _ & Hs%validated_soft_limit & _). cbv zeta. rewrite (monitor_options_ok c replicaID _ Hc Hr Hs).
  unfold alloc_breaker. apply IH. exact Hm.
Qed.

Lemma load_startable c : Load = inr c -> startable c /\ Tokenization.Validate (cf_Tokenization c) = true.
Proof.
  unfold Load. intros H. apply bind_inr in H as (s & [_ Ht]%loadSettings_loaded & H). destruct (validate s) eqn:Hv; [done|]. injection H as <-.
  apply validate_startable in Hv. destruct (_ && _); [|done]. split; [|exact Ht]. by destruct Hv; split.
Qed.

(** C39. A gateway starts with any configuration that [Load] accepts.  The circuit breakers
    and the limits of tokenization accept its values, [NewManager] takes its options as
    they are, a lease can be renewed three times before it expires, and no reconciliation
    of the monitor, whatever the backends, fails because of the options: only the
    coordinator, the backends themselves or a shutdown can make it fail. *)
Theorem loaded_config_starts (order : forall A, gmap Z A -> list Z) c replicaID : Load = inr c -> replicaID <> 0%N ->
  (exists b, CircuitBreaker.New (circuit_options c) = inr b) /\
  Tokenization.Validate (cf_Tokenization c) = true /\
  0 < cf_LeaseRenewInterval c /\ 3 * cf_LeaseRenewInterval c <= cf_LeaseTTL c /\
  mg_options (NewManager (monitor_options c replicaID)) = monitor_options c replicaID /\
  forall coordinated backends m m' e, mg_options m = monitor_options c replicaID ->
    Reconcile order url_parse url_string coordinated backends m = (m', Some e) ->
    match e with
    | ReconcileCircuits e => coordinated = Some e
    | DuplicateBackend id | InvalidBackend id _ => exists b, b ∈ backends /\ be_ID b = id /\ be_Enabled b = true
    | ReconcileCanceled => mg_shutdown m = true
    | ReconcileBreaker _ _ | ReconcileWorker (WorkerOptions _) => False
    | ReconcileWorker (WorkerBackend _) => True
    end.
Proof.
  intros Hl Hr. destruct (load_startable c Hl) as [Hc Ht]. split; [by apply circuit_options_ok|]. split; [done|].
  split; [destruct Hc as [Hd _ _ _ _ _ _]; unfold durations in Hd; repeat rewrite Forall_cons in Hd; tauto|]. split; [apply Hc|].
  split; [by apply monitor_options_complete|]. intros coordinated backends m m' e Hm. unfold Reconcile. rewrite Hm. cbn [mo_CircuitCoordinator monitor_options].
  destruct coordinated as [ce|]; [by intros [= _ <-]|]. destruct (desired_backends _ _ _ _) as [de|desired] eqn:Hd.
  - intros [= _ <-]. apply desired_backends_errors in Hd. by destruct de.
  - unfold reconcile_locked. destruct (mg_shutdown m) eqn:Hs; [by intros [= _ <-]|]. intros H.
    apply (start_workers_options c replicaID) in H as [v ->]; done.
Qed.

End Starts.
End Config.

(** *** A configuration *)

Definition w_env : LookupFunc := fun key =>
  if bool_decide (key = "LLMGW_ADMIN_USERNAME") then Some "operator"%string
  else if bool_decide (key = "LLMGW_ADMIN_PASSWORD") then Some "correct-horse-battery"%string
  else if bool_decide (key = "LLMGW_API_KEY_HMAC_SECRET") then Some "0123456789abcdef0123456789abcdef"%string
  else if bool_decide (key = "LLMGW_LEASE_TTL") then Some "1m30s"%string
  else if bool_decide (key = "LLMGW_LEASE_RENEW_INTERVAL") then Some "1500ms"%string
  else None.

Abbreviation w_load := (Load (Rest := unit) (fun _ => None) (fun _ => EmptyString) (fun _ => None) (fun s => s) (fun l => l) w_env).

Definition w_config : Config := Eval vm_compute in match w_load with inr c => c | inl _ => defaultConfig end.

(** The durations of the environment are used. *)
Lemma w_load_accepted : w_load = inr w_config /\ cf_LeaseRenewInterval w_config = 1500 * GoTime.Millisecond.
Proof. vm_compute. split; reflexivity. Qed.

Lemma loaded_config_starts_witness : w_load = inr w_config /\ exists b, CircuitBreaker.New (circuit_options w_config) = inr b.
Proof.
  split; [exact (proj1 w_load_accepted)|].
  refine (proj1 (loaded_config_starts (fun _ => None) (fun _ => EmptyString) (fun _ => None) (fun s => s) (fun l => l) w_env (fun _ => EmptyString)
    (fun l => Permutation_refl l) (fun A m => (map_to_list m).*1) w_config 7%N (proj1 w_load_accepted) _)). discriminate.
Defined.
