(* ===== verification/Pg.v ===== *)
(** Transactions of PostgreSQL as the coordinators use them
    ([src/internal/coordination/postgres]): READ COMMITTED, with row locks.

    A transaction is a sequence of statements.  Each statement sees what is committed when
    it runs, with the transaction's own writes on top, takes row locks that are kept to the
    end, and waits while another transaction holds one of them.  A commit applies the
    writes; until then no other transaction sees them.  Transactions of any number of
    replicas interleave, statement by statement; the clock gives any time to any statement;
    a transaction can end without its commit at any point (an error, a timeout, a lost
    connection, a crash).

    A running transaction keeps the clock readings and the views of its statements, so that
    what it answers can be compared with what it saw.  [wp] is the program logic: what a
    transaction may rely on while it holds its locks, and what its commit guarantees to the
    others. *)

From S2P Require Import Prelude.

(** [timestamptz] keeps microseconds. *)
Definition timestamptz (t : Time) : Time := t - t mod 1000.

(** How a transaction ends, with the answer of the method that runs it. *)
Inductive Ending (A : Type) := Committed (a : A) | RolledBack (a : A).
#[global] Arguments Committed {A}.
#[global] Arguments RolledBack {A}.

Section Pg.
Context {Db Key : Type} `{Countable Key}.

(** A statement waits for the rows [wait], keeps the locks [lock], makes the writes
    [write] and goes on with [next].  [busy] are the rows other transactions have locked,
    which only [SKIP LOCKED] looks at. *)
Inductive Tx (A : Type) :=
| TxRet (a : A)
| TxStmt (wait : Db -> gset Key) (lock : gset Key -> Time -> Db -> gset Key) (write : gset Key -> Time -> Db -> Db -> Db)
    (next : gset Key -> Time -> Db -> Tx A).
#[global] Arguments TxRet {A}.
#[global] Arguments TxStmt {A}.

Fixpoint tx_bind {A B : Type} (k : A -> Tx B) (m : Tx A) : Tx B :=
  match m with
  | TxRet a => k a
  | TxStmt wait lock write next => TxStmt wait lock write (fun busy now v => tx_bind k (next busy now v))
  end.

#[global] Instance Tx_ret : MRet Tx := @TxRet.
#[global] Instance Tx_bind : MBind Tx := @tx_bind.

(** ** Statements *)

(** [SELECT] without locks. *)
Definition query {A : Type} (f : Time -> Db -> A) : Tx A :=
  TxStmt (fun _ => ∅) (fun _ _ _ => ∅) (fun _ _ _ db => db) (fun _ now v => TxRet (f now v)).

(** [SELECT ... FOR UPDATE] of one row. *)
Definition select_for_update {A : Type} (key : Key) (row : Db -> option A) : Tx (option A) :=
  let locks v := match row v with Some _ => {[key]} | None => ∅ end in
  TxStmt locks (fun _ _ v => locks v) (fun _ _ _ db => db) (fun _ _ v => TxRet (row v)).

(** [INSERT ... ON CONFLICT DO NOTHING] of one row; the answer is whether it inserted. *)
Definition insert_new (key : Key) (absent : Db -> bool) (write : Db -> Db) : Tx bool :=
  TxStmt (fun _ => {[key]}) (fun _ _ v => if absent v then {[key]} else ∅) (fun _ _ v db => if absent v then write db else db)
    (fun _ _ v => TxRet (absent v)).

(** A write to rows that are locked already. *)
Definition exec (write : Db -> Db) : Tx unit := TxStmt (fun _ => ∅) (fun _ _ _ => ∅) (fun _ _ _ => write) (fun _ _ _ => TxRet tt).

(** [UPDATE] or [DELETE] of one row: nothing when it is not there. *)
Definition update_found (key : Key) (present : Db -> bool) (write : Db -> Db) : Tx unit :=
  let row v := if present v then {[key]} else ∅ in
  TxStmt row (fun _ _ v => row v) (fun _ _ v => if present v then write else fun db => db) (fun _ _ _ => TxRet tt).

(** [UPDATE] or [DELETE] of the rows that [choose] finds. *)
Definition update_rows {I : Type} `{Countable I} (choose : Db -> gset I) (key : I -> Key) (write : gset I -> Db -> Db) : Tx (gset I) :=
  let rows v := set_map key (choose v) in
  TxStmt rows (fun _ _ v => rows v) (fun _ _ v => write (choose v)) (fun _ _ v => TxRet (choose v)).

(** A write to rows chosen with [FOR UPDATE SKIP LOCKED]. *)
Definition update_unlocked {A : Type} (choose : gset Key -> Time -> Db -> A) (keys : A -> gset Key) (write : A -> Db -> Db) : Tx A :=
  TxStmt (fun _ => ∅) (fun busy now v => keys (choose busy now v)) (fun busy now v => write (choose busy now v)) (fun busy now v => TxRet (choose busy now v)).

(** [clock_timestamp()] *)
Definition clock_timestamp : Tx Time := query (fun now _ => timestamptz now).

(** Locks one row after the other. *)
Fixpoint lock_rows (keys : list Key) (present : Key -> Db -> bool) : Tx unit :=
  match keys with
  | [] => TxRet tt
  | key :: keys => select_for_update key (fun v => if present key v then Some tt else None) ≫= fun _ => lock_rows keys present
  end.

(** ** Interleavings *)

Context {Call Answer : Type} (prog : Call -> Tx (Ending Answer)).

(** [rn_seen] are the clock reading and the view of each statement so far, the last first. *)
Record Running := { rn_call : Call; rn_held : gset Key; rn_write : Db -> Db; rn_prog : Tx (Ending Answer); rn_seen : list (Time * Db) }.

Record System := { sy_db : Db; sy_txs : gmap nat Running }.

Definition others_locks (i : nat) (txs : gmap nat Running) : gset Key :=
  map_fold (fun _ r locks => rn_held r ∪ locks) ∅ (delete i txs).

(** What other parts of the system change, and when a call can be made. *)
Context {Change : Type} (change : Change -> list Call -> Db -> option Db) (may_call : Call -> Db -> bool).

Inductive Label :=
| LBegin (i : nat) (c : Call)
| LStatement (i : nat) (now : Time)
| LCommit (i : nat)
| LAbort (i : nat)
| LChange (e : Change).

Definition calls_of (txs : gmap nat Running) : list Call := (fun '(_, r) => rn_call r) <$> map_to_list txs.

Definition sys_step (l : Label) (s : System) : option System :=
  match l with
  | LBegin i c =>
    match sy_txs s !! i with
    | Some _ => None
    | None =>
      if may_call c (sy_db s)
      then Some {| s with sy_txs := <[i := {| rn_call := c; rn_held := ∅; rn_write := fun db => db; rn_prog := prog c; rn_seen := [] |}]> (sy_txs s) |}
      else None
    end
  | LStatement i now =>
    r ← sy_txs s !! i;
    match rn_prog r with
    | TxRet _ => None
    | TxStmt wait lock write next =>
      let v := rn_write r (sy_db s) in
      let busy := others_locks i (sy_txs s) in
      if bool_decide ((wait v ∪ lock busy now v) ## busy)
      then Some {| s with sy_txs := <[i := {| rn_call := rn_call r; rn_held := rn_held r ∪ lock busy now v;
                                             rn_write := fun db => write busy now v (rn_write r db); rn_prog := next busy now v;
                                             rn_seen := (now, v) :: rn_seen r |}]> (sy_txs s) |}
      else None
    end
  | LCommit i =>
    r ← sy_txs s !! i;
    match rn_prog r with
    | TxRet (Committed _) => Some {| sy_db := rn_write r (sy_db s); sy_txs := delete i (sy_txs s) |}
    | _ => None
    end
  | LAbort i =>
    r ← sy_txs s !! i;
    Some {| s with sy_txs := delete i (sy_txs s) |}
  | LChange e =>
    db ← change e (calls_of (sy_txs s)) (sy_db s);
    Some {| s with sy_db := db |}
  end.

Fixpoint sys_run (ls : list Label) (s : System) : option System :=
  match ls with [] => Some s | l :: ls => s ← sys_step l s; sys_run ls s end.

(** The call and the answer of a transaction that can commit. *)
Definition committing (i : nat) (s : System) : option (Call * Answer) :=
  r ← sy_txs s !! i;
  match rn_prog r with TxRet (Committed a) => Some (rn_call r, a) | _ => None end.

Lemma committing_step i s c a : committing i s = Some (c, a) -> is_Some (sys_step (LCommit i) s).
Proof. unfold committing. cbn. destruct (sy_txs s !! i) as [r|]; cbn; [|done]. destruct (rn_prog r) as [[a'|]|]; [|done|done]. intros _. by eexists. Qed.

(** A statement of the transaction [i] read the clock [now] and the view [v]. *)
Definition seen_by (i : nat) (s : System) (now : Time) (v : Db) : Prop := exists r, sy_txs s !! i = Some r /\ (now, v) ∈ rn_seen r.

(** For what does not depend on it. *)
Definition any_view (now : Time) (v : Db) : Prop := True.

(** A transaction alone, every statement at the same time. *)
Fixpoint run_alone {A : Type} (m : Tx A) (now : Time) (write : Db -> Db) (db : Db) : A * Db :=
  match m with
  | TxRet a => (a, write db)
  | TxStmt _ _ w next => let v := write db in run_alone (next ∅ now v) now (fun db => w ∅ now v (write db)) db
  end.

(** ** Reasoning *)

(** What a call that holds locks relies on, and the invariant of the committed data. *)
Context (rely : Call -> gset Key -> Db -> Db -> Prop) (Inv : Db -> Prop).

(** [seen] holds of what the statements of the transaction see. *)
Fixpoint wp {A : Type} (seen : Time -> Db -> Prop) (c : Call) (m : Tx A) (Q : A -> gset Key -> (Db -> Db) -> Db -> Prop) (held : gset Key) (w : Db -> Db) (db : Db) : Prop :=
  match m with
  | TxRet a => Q a held w db
  | TxStmt wait lock write next =>
    forall busy now db', rely c held db db' -> Inv db' -> (wait (w db') ∪ lock busy now (w db')) ## busy -> seen now (w db') ->
      wp seen c (next busy now (w db')) Q (held ∪ lock busy now (w db')) (fun d => write busy now (w db') (w d)) db'
  end.

Lemma tx_wp_mono {A : Type} seen c (m : Tx A) (Q Q' : A -> gset Key -> (Db -> Db) -> Db -> Prop) held w db :
  (forall a h w db, Q a h w db -> Q' a h w db) -> wp seen c m Q held w db -> wp seen c m Q' held w db.
Proof.
  intros HQ. revert held w db. induction m as [a|wait lock write next IH]; cbn [wp]; intros held w db Hm; [by apply HQ|].
  intros busy now db' Hr Hi Hd Hs. by apply IH, Hm.
Qed.

(** Less is known to be seen. *)
Lemma tx_wp_seen {A : Type} (seen seen' : Time -> Db -> Prop) c (m : Tx A) Q held w db :
  (forall now v, seen' now v -> seen now v) -> wp seen c m Q held w db -> wp seen' c m Q held w db.
Proof.
  intros Hs. revert held w db. induction m as [a|wait lock write next IH]; cbn [wp]; intros held w db Hm; [done|].
  intros busy now db' Hr Hi Hd Hv. by apply IH, Hm, Hs.
Qed.

Lemma tx_wp_bind {A B : Type} seen c (m : Tx A) (k : A -> Tx B) Q held w db :
  wp seen c m (fun a h w db => wp seen c (k a) Q h w db) held w db -> wp seen c (m ≫= k) Q held w db.
Proof.
  revert held w db. induction m as [a|wait lock write next IH]; cbn; intros held w db Hm; [done|].
  intros busy now db' Hr Hi Hd Hs. by apply IH, Hm.
Qed.

(** What a commit must establish: the invariant, what the others rely on, and [Post], which
    compares the answer with what was seen and with the data before and after. *)
Context (Post : (Time -> Db -> Prop) -> Call -> Answer -> Db -> Db -> Prop).

Definition commits (seen : Time -> Db -> Prop) (c : Call) (o : Ending Answer) (held : gset Key) (w : Db -> Db) (db : Db) : Prop :=
  match o with
  | RolledBack _ => True
  | Committed a => forall db', rely c held db db' -> Inv db' ->
      Inv (w db') /\ (forall c' held', held' ## held -> rely c' held' db' (w db')) /\ Post seen c a db' (w db')
  end.

Definition safe (r : Running) (db : Db) : Prop := forall seen : Time -> Db -> Prop, (forall now v, (now, v) ∈ rn_seen r -> seen now v) ->
  wp seen (rn_call r) (rn_prog r) (commits seen (rn_call r)) (rn_held r) (rn_write r) db.

(** ** Soundness *)

Context (rely_refl : forall c held db, rely c held db db)
  (rely_trans : forall c held db1 db2 db3, rely c held db1 db2 -> rely c held db2 db3 -> rely c held db1 db3)
  (change_ok : forall e calls db db', Inv db -> change e calls db = Some db' -> Inv db' /\ forall c held, c ∈ calls -> rely c held db db')
  (prog_ok : forall seen c db, Inv db -> may_call c db = true -> wp seen c (prog c) (commits seen c) ∅ (fun db => db) db).

Record sys_ok (s : System) : Prop := {
  so_inv : Inv (sy_db s);
  so_disjoint : forall i j r r', sy_txs s !! i = Some r -> sy_txs s !! j = Some r' -> i <> j -> rn_held r ## rn_held r';
  so_safe : forall i r, sy_txs s !! i = Some r -> safe r (sy_db s)
}.

Lemma safe_rely r db db' : rely (rn_call r) (rn_held r) db db' -> safe r db -> safe r db'.
Proof.
  unfold safe. intros Hr Hs seen Hseen. specialize (Hs seen Hseen). revert Hs. destruct (rn_prog r) as [[a|a]|wait lock write next]; cbn; intros Hs; [|done|].
  - intros db'' Hr' Hi. apply Hs; [by eapply rely_trans|done].
  - intros busy now db'' Hr' Hi Hd Hv. apply Hs; [by eapply rely_trans|done|done|done].
Qed.

Lemma elem_of_others i txs key : key ∈ others_locks i txs <-> exists j r, j <> i /\ txs !! j = Some r /\ key ∈ rn_held r.
Proof.
  unfold others_locks. transitivity (exists j r, delete i txs !! j = Some r /\ key ∈ rn_held r).
  2: { setoid_rewrite lookup_delete_Some. naive_solver. }
  generalize (delete i txs) as m. intros m. induction m as [|j r m Hj Hf IH] using map_first_key_ind.
  { rewrite map_fold_empty. setoid_rewrite lookup_empty. set_solver. }
  rewrite map_fold_insert_first_key by done. rewrite elem_of_union, IH. setoid_rewrite lookup_insert_Some. split.
  - intros [Hk|(j' & r' & Hr & Hk)]; [exists j, r; naive_solver|]. exists j', r'. split; [|done]. right. split; [congruence|done].
  - naive_solver.
Qed.

Lemma calls_of_elem i r txs : txs !! i = Some r -> rn_call r ∈ calls_of txs.
Proof. intros Hr. unfold calls_of. apply list_elem_of_fmap. exists (i, r). split; [done|]. by apply elem_of_map_to_list. Qed.

Lemma sys_step_ok l s s' : sys_ok s -> sys_step l s = Some s' -> sys_ok s'.
Proof.
  intros [Hi Hd Hs]. destruct l as [i c|i now|i|i|e]; cbn [sys_step]; intros Hstep.
  - destruct (sy_txs s !! i) eqn:Hf; [done|]. destruct (may_call c (sy_db s)) eqn:Hm; [|done]. injection Hstep as <-. split; cbn; [done| |].
    + intros j k r r'. rewrite !lookup_insert_Some. intros [[<- <-]|[? Hr]] [[<- <-]|[? Hr']] Hne; cbn; [done|set_solver|set_solver|by eapply Hd].
    + intros j r. rewrite lookup_insert_Some. intros [[<- <-]|[? Hr]]; [intros seen _; by apply prog_ok|by eapply Hs].
  - destruct (sy_txs s !! i) as [r|] eqn:Hr; [|done]. cbn in Hstep. pose proof (Hs i r Hr) as Hsafe. unfold safe in Hsafe.
    destruct (rn_prog r) as [o|wait lock write next] eqn:Hp; [done|]. cbv zeta in Hstep. case_bool_decide as Hb; [|done]. injection Hstep as <-.
    assert (Hbusy : forall j r', j <> i -> sy_txs s !! j = Some r' -> (rn_held r ∪ lock (others_locks i (sy_txs s)) now (rn_write r (sy_db s))) ## rn_held r').
    { intros j r' Hne Hr'. assert (rn_held r ## rn_held r') by (by eapply Hd; eauto). intros key [Hk|Hk]%elem_of_union Hk'; [set_solver|].
      apply (Hb key); [set_solver|]. apply elem_of_others. naive_solver. }
    split; cbn; [done| |].
    + intros j k r1 r2. rewrite !lookup_insert_Some. intros [[<- <-]|[? H1]] [[<- <-]|[? H2]] Hne; cbn; [done|by apply (Hbusy k)| |by eapply Hd].
      symmetry. by apply (Hbusy j).
    + intros j r'. rewrite lookup_insert_Some. intros [[<- <-]|[? Hr']]; [|by eapply Hs]. unfold safe. cbn. intros seen Hseen.
      apply (Hsafe seen); [intros; apply Hseen; by right|apply rely_refl|done|done|apply Hseen; by left].
  - destruct (sy_txs s !! i) as [r|] eqn:Hr; [|done]. cbn in Hstep. pose proof (Hs i r Hr) as Hsafe. unfold safe in Hsafe.
    destruct (rn_prog r) as [[a|a]|] eqn:Hp; [|done|done]. injection Hstep as <-. destruct (Hsafe (fun now v => (now, v) ∈ rn_seen r) (fun _ _ H => H) (sy_db s) (rely_refl _ _ _) Hi) as (Hi' & Hg & _).
    split; cbn; [done| |].
    + intros j k r1 r2. rewrite !lookup_delete_Some. intros [? H1] [? H2] Hne. by eapply Hd.
    + intros j r'. rewrite lookup_delete_Some. intros [? Hr']. eapply safe_rely; [|by eapply Hs]. apply Hg. by eapply Hd.
  - destruct (sy_txs s !! i) as [r|] eqn:Hr; [|done]. injection Hstep as <-. split; cbn; [done| |].
    + intros j k r1 r2. rewrite !lookup_delete_Some. intros [? H1] [? H2] Hne. by eapply Hd.
    + intros j r'. rewrite lookup_delete_Some. intros [? Hr']. by eapply Hs.
  - destruct (change e _ (sy_db s)) as [db|] eqn:He; [|done]. injection Hstep as <-. destruct (change_ok _ _ _ _ Hi He) as [Hi' Hc].
    split; cbn; [done|done|]. intros j r Hr. eapply safe_rely; [|by eapply Hs]. apply Hc. by eapply calls_of_elem.
Qed.

Lemma sys_run_ok ls s s' : sys_ok s -> sys_run ls s = Some s' -> sys_ok s'.
Proof.
  revert s. induction ls as [|l ls IH]; cbn; intros s Hs; [by intros [= <-]|]. intros H'.
  destruct (sys_step l s) as [s1|] eqn:Hl; [|done]. eapply IH; [|exact H']. by eapply sys_step_ok.
Qed.

Lemma sys_init_ok db : Inv db -> sys_ok {| sy_db := db; sy_txs := ∅ |}.
Proof. intros Hi. split; cbn; [done| |]; intros *; by rewrite lookup_empty. Qed.

(** Every commit of every interleaving is as [Post] says. *)
Lemma commit_post ls db s i s' c a : Inv db -> sys_run ls {| sy_db := db; sy_txs := ∅ |} = Some s ->
  committing i s = Some (c, a) -> sys_step (LCommit i) s = Some s' ->
  Inv (sy_db s) /\ Inv (sy_db s') /\ Post (seen_by i s) c a (sy_db s) (sy_db s').
Proof.
  intros Hi Hrun Hc Hstep. pose proof (sys_run_ok _ _ _ (sys_init_ok db Hi) Hrun) as Hok. pose proof (so_inv _ (sys_step_ok _ _ _ Hok Hstep)).
  unfold committing in Hc. cbn in Hstep. destruct (sy_txs s !! i) as [r|] eqn:Hr; [|done]. cbn in Hc, Hstep.
  pose proof (so_safe _ Hok i r Hr) as Hs. unfold safe in Hs. destruct (rn_prog r) as [[a'|a']|] eqn:Hp; [|done|done].
  injection Hc as <- <-. injection Hstep as <-. destruct (Hs (seen_by i s)) with (sy_db s) as (? & _ & ?); [|apply rely_refl|apply Hok|split; [by apply Hok|done]].
  intros now v Hv. by exists r.
Qed.

End Pg.

(** ** Rules for the statements *)

Section Rules.
Context {Db Key Call : Type} `{Countable Key} (rely : Call -> gset Key -> Db -> Db -> Prop) (Inv : Db -> Prop) (seen : Time -> Db -> Prop).
Abbreviation wp := (wp rely Inv seen).

Lemma tx_wp_ret {A : Type} c (a : A) Q held w db : Q a held w db -> wp c (TxRet a) Q held w db.
Proof. done. Qed.

Lemma wp_query {A : Type} c (f : Time -> Db -> A) Q held w db :
  (forall now db', rely c held db db' -> Inv db' -> Q (f now (w db')) held w db') -> wp c (query f) Q held w db.
Proof. intros HQ busy now db' Hr Hi _ _. cbn. rewrite union_empty_r_L. by apply HQ. Qed.

(** The same, with what the statement saw. *)
Lemma wp_query_seen {A : Type} c (f : Time -> Db -> A) Q held w db :
  (forall now db', rely c held db db' -> Inv db' -> seen now (w db') -> Q (f now (w db')) held w db') -> wp c (query f) Q held w db.
Proof. intros HQ busy now db' Hr Hi _ Hv. cbn. rewrite union_empty_r_L. by apply HQ. Qed.

Lemma wp_select {A : Type} c key (row : Db -> option A) Q held w db :
  (forall db', rely c held db db' -> Inv db' -> Q (row (w db')) (held ∪ match row (w db') with Some _ => {[key]} | None => ∅ end) w db') ->
  wp c (select_for_update key row) Q held w db.
Proof. intros HQ busy now db' Hr Hi _ _. by apply HQ. Qed.

Lemma wp_select_seen {A : Type} c key (row : Db -> option A) Q held w db :
  (forall now db', rely c held db db' -> Inv db' -> seen now (w db') ->
     Q (row (w db')) (held ∪ match row (w db') with Some _ => {[key]} | None => ∅ end) w db') ->
  wp c (select_for_update key row) Q held w db.
Proof. intros HQ busy now db' Hr Hi _ Hv. by apply (HQ now). Qed.

Lemma wp_insert c key absent write Q held w db :
  (forall db', rely c held db db' -> Inv db' -> absent (w db') = false -> Q false held w db') ->
  (forall db', rely c held db db' -> Inv db' -> absent (w db') = true -> Q true (held ∪ {[key]}) (fun d => write (w d)) db') ->
  wp c (insert_new key absent write) Q held w db.
Proof.
  intros H0 H1 busy now db' Hr Hi _ _. cbn. destruct (absent (w db')) eqn:Ha; [by apply H1|]. rewrite union_empty_r_L. by apply H0.
Qed.

Lemma wp_exec c write Q held w db :
  (forall db', rely c held db db' -> Inv db' -> Q tt held (fun d => write (w d)) db') -> wp c (exec write) Q held w db.
Proof. intros HQ busy now db' Hr Hi _ _. cbn. rewrite union_empty_r_L. by apply HQ. Qed.

Lemma wp_stmt {A : Type} c wait lock write (next : gset Key -> Time -> Db -> Tx A) Q held w db :
  (forall busy now db', rely c held db db' -> Inv db' -> lock busy now (w db') ## busy ->
     wp c (next busy now (w db')) Q (held ∪ lock busy now (w db')) (fun d => write busy now (w db') (w d)) db') ->
  wp c (TxStmt wait lock write next) Q held w db.
Proof. intros HQ busy now db' Hr Hi Hd _. apply HQ; [done|done|set_solver]. Qed.

Lemma wp_update_found c key present write Q held w db :
  (forall db', rely c held db db' -> Inv db' -> present (w db') = true -> Q tt (held ∪ {[key]}) (fun d => write (w d)) db') ->
  (forall db', rely c held db db' -> Inv db' -> present (w db') = false -> Q tt held w db') ->
  wp c (update_found key present write) Q held w db.
Proof.
  intros H1 H0. apply wp_stmt. intros busy now db' Hr Hi _. destruct (present (w db')) eqn:Hp; [by apply H1|].
  rewrite union_empty_r_L. by apply H0.
Qed.

Lemma wp_update_rows {I : Type} `{Countable I} c (choose : Db -> gset I) (key : I -> Key) write Q held w db :
  (forall db', rely c held db db' -> Inv db' ->
     Q (choose (w db')) (held ∪ set_map key (choose (w db'))) (fun d => write (choose (w db')) (w d)) db') ->
  wp c (update_rows choose key write) Q held w db.
Proof. intros HQ. apply wp_stmt. intros busy now db' Hr Hi _. by apply HQ. Qed.

Context (rely_trans : forall c held db1 db2 db3, rely c held db1 db2 -> rely c held db2 db3 -> rely c held db1 db3)
  (rely_refl : forall c held db, rely c held db db)
  (rely_weaken : forall c held held' db1 db2, held ⊆ held' -> rely c held' db1 db2 -> rely c held db1 db2).

(** Locking the rows of a list: in the end a row is held, or it was not there when the
    statement came to it. *)
Lemma wp_lock_rows c keys present Q held w db :
  (forall held' db', rely c held db db' -> held ⊆ held' ->
     (forall key, key ∈ keys -> key ∈ held' \/
        exists dm, rely c held db dm /\ rely c held dm db' /\ Inv dm /\ present key (w dm) = false) ->
     Q tt held' w db') ->
  wp c (lock_rows keys present) Q held w db.
Proof.
  revert held db. induction keys as [|key keys IH]; intros held db HQ; cbn [lock_rows].
  { apply HQ; [apply rely_refl|done|]. intros ? Hin. by apply not_elem_of_nil in Hin. }
  apply tx_wp_bind, wp_select. intros db1 Hr1 Hi1. apply IH. intros held' db' Hr' Hsub Hall.
  assert (Hr2 : rely c held db1 db') by (eapply rely_weaken; [|exact Hr']; set_solver).
  apply HQ; [by eapply rely_trans|set_solver|]. intros k [->|Hk]%elem_of_cons.
  - destruct (present key (w db1)) eqn:Hp; [left; apply Hsub; set_solver|]. right. by exists db1.
  - destruct (Hall k Hk) as [?|(dm & Hd1 & Hd2 & Hi & Hp)]; [by left|]. right. exists dm.
    split_and!; [|eapply rely_weaken; [|exact Hd2]; set_solver|done|done].
    eapply rely_trans; [exact Hr1|]. eapply rely_weaken; [|exact Hd1]. set_solver.
Qed.

End Rules.
