(* ===== verification/PgAdmission.v ===== *)
(** The PostgreSQL admission coordinator ([src/internal/coordination/postgres/admission.go],
    [src/internal/coordination/postgres/cleanup.go]) and the configuration mutations it
    meets in the database ([src/internal/store/postgres/configuration.go]), as transactions
    over the tables of [src/internal/store/postgres/migrations].

    The SHA-256 fingerprint of a request is a parameter.  [FOR SHARE] waits for writers but
    does not hold them up, and the check of a unique name is a statement of its own: the
    model has more interleavings than the database.  The [tombstoned] column of the scopes,
    which nothing reads, is left out. *)

From stdpp Require Import sorting.
From S2P Require Import Prelude Domain Float64 Coordination LocalAdmission Validate Pg.

(** [time.Unix(0, 0)] *)
Definition unixEpoch : Time := 62135596800 * GoTime.Second.

(** ** Tables *)

(** [decision] of [admission_operations]. *)
Inductive OpDecision := OpPending | OpAdmitted | OpRejected.

#[global] Instance OpDecision_eq_dec : EqDecision OpDecision.
Proof. solve_decision. Defined.

Inductive RateKind := RatePerMinute | TokensPerMinute.

#[global] Instance RateKind_eq_dec : EqDecision RateKind.
Proof. solve_decision. Defined.

#[global] Instance RateKind_countable : Countable RateKind.
Proof.
  refine (inj_countable' (fun k => match k with RatePerMinute => false | TokensPerMinute => true end)
    (fun b => if b then TokensPerMinute else RatePerMinute) _). by intros [].
Defined.

(** [request_leases] *)
Record LeaseRow := {
  lr_RequestID : string;
  lr_ReplicaID : UUID;
  lr_ClientID : Z;
  lr_PoolID : Z;
  lr_AcquiredAt : Time;
  lr_ExpiresAt : Time;
  lr_PriorityClass : PriorityClass
}.

#[global] Instance LeaseRow_eq_dec : EqDecision LeaseRow.
Proof. solve_decision. Defined.

(** [coordination_rate_state] *)
Record RateRow := { ra_PolicyRevision : Z; ra_Balance : float64; ra_LastRefillAt : Time }.

(** The configuration tables. *)
Record ConfigTables := {
  ct_Revision : Z;
  ct_Clients : gmap Z Client;
  ct_Keys : gmap Z APIKey;
  ct_Pools : gmap Z ModelPool;
  ct_Access : gset (Z * Z);
  ct_Backends : gmap Z Backend
}.

(** A key up to the time it was last used. *)
Definition forget (k : APIKey) : APIKey := {| k with ak_LastUsedAt := None |}.

(** The configuration of a revision does not change. *)
Definition same_config (t t' : ConfigTables) : Prop :=
  ct_Clients t' = ct_Clients t /\ ct_Pools t' = ct_Pools t /\ forget <$> ct_Keys t' = forget <$> ct_Keys t /\
  ct_Access t' = ct_Access t /\ ct_Backends t' = ct_Backends t.

Lemma same_config_refl t : same_config t t.
Proof. done. Qed.

Lemma same_config_trans t1 t2 t3 : same_config t1 t2 -> same_config t2 t3 -> same_config t1 t3.
Proof. unfold same_config. intuition congruence. Qed.

(** [GREATEST(COALESCE(last_used_at, at), at)] *)
Definition touch (at_ : Time) (k : APIKey) : APIKey := {| k with ak_LastUsedAt := Some (Z.max (default at_ (ak_LastUsedAt k)) at_) |}.

Lemma same_config_touch id at_ t : same_config t {| t with ct_Keys := alter (touch at_) id (ct_Keys t) |}.
Proof.
  split_and!; try done. apply map_eq. intros i. rewrite !lookup_fmap. cbn [ct_Keys]. destruct (decide (i = id)) as [->|]; [|by rewrite lookup_alter_ne].
  rewrite lookup_alter_eq. by destruct (ct_Keys t !! id).
Qed.

(** The rows that transactions lock. *)
Inductive Key :=
| KPool (id : Z)
| KClient (id : Z)
| KLease (id : UUID)
| KOp (id : UUID)
| KRate (client : Z) (kind : RateKind)
| KClientRow (id : Z)
| KPoolRow (id : Z)
| KKeyRow (id : Z)
| KMeta.

#[global] Instance Key_eq_dec : EqDecision Key.
Proof. solve_decision. Defined.

#[global] Instance Key_countable : Countable Key.
Proof.
  refine (inj_countable'
    (fun k => match k with
              | KPool id => inl (inl (inl (inl id))) | KClient id => inl (inl (inl (inr id)))
              | KLease id => inl (inl (inr (inl id))) | KOp id => inl (inl (inr (inr id)))
              | KRate c k => inl (inr (inl (c, k))) | KClientRow id => inl (inr (inr id))
              | KPoolRow id => inr (inl id) | KKeyRow id => inr (inr (inl id)) | KMeta => inr (inr (inr tt))
              end)
    (fun x => match x with
              | inl (inl (inl (inl id))) => KPool id | inl (inl (inl (inr id))) => KClient id
              | inl (inl (inr (inl id))) => KLease id | inl (inl (inr (inr id))) => KOp id
              | inl (inr (inl (c, k))) => KRate c k | inl (inr (inr id)) => KClientRow id
              | inr (inl id) => KPoolRow id | inr (inr (inl id)) => KKeyRow id | inr (inr (inr _)) => KMeta
              end) _). by intros [].
Defined.

Section PgAdmission.
Context {FP : Type} `{!EqDecision FP} (fingerprint : AdmissionRequest -> FP).

(** [admission_operations] *)
Record OpRow := {
  op_StartedAt : Time;
  op_Fingerprint : FP;
  op_RequestID : string;
  op_ReplicaID : UUID;
  op_ClientID : Z;
  op_PoolID : Z;
  op_Decision : OpDecision;
  op_Reason : option Reason;
  op_RetryAt : option Time;
  op_DecidedAt : option Time;
  op_LeaseExpiredAt : option Time;
  op_CompletedAt : option Time;
  op_Completion : option CompletionResult;
  op_RetainUntil : option Time;
  op_Scope : AdmissionScope
}.

(** The tables that admission reads and writes.  [db_Held] is not a table: the IDs of the
    leases whose requesters have been told of them. *)
Record Db := {
  db_Ops : gmap UUID OpRow;
  db_Leases : gmap UUID LeaseRow;
  db_Rates : gmap (Z * RateKind) RateRow;
  db_PoolScopes : gset Z;
  db_ClientScopes : gset Z;
  db_Config : ConfigTables;
  db_Held : gset UUID
}.

Abbreviation Tx := (Tx (Db := Db) (Key := Key)).

(** ** Statements on the tables *)

Definition row_present (key : Key) (v : Db) : bool :=
  match key with
  | KPool id => bool_decide (id ∈ db_PoolScopes v)
  | KClient id => bool_decide (id ∈ db_ClientScopes v)
  | KLease id => bool_decide (is_Some (db_Leases v !! id))
  | KOp id => bool_decide (is_Some (db_Ops v !! id))
  | KRate c k => bool_decide (is_Some (db_Rates v !! (c, k)))
  | KClientRow id => bool_decide (is_Some (ct_Clients (db_Config v) !! id))
  | KPoolRow id => bool_decide (is_Some (ct_Pools (db_Config v) !! id))
  | KKeyRow id => bool_decide (is_Some (ct_Keys (db_Config v) !! id))
  | KMeta => true
  end.

(** The rows of [keys] that there are. *)
Definition rows_in (keys : list Key) (v : Db) : gset Key := list_to_set (filter (fun key => row_present key v = true) keys).

(** [UPDATE] or [DELETE]: the rows [choose] finds in the view, locked and written. *)
Definition exec_on {A : Type} (choose : Db -> A) (keys : A -> list Key) (write : A -> Db -> Db) : Tx A :=
  let rows v := rows_in (keys (choose v)) v in
  TxStmt rows (fun _ _ v => rows v) (fun _ _ v => write (choose v)) (fun _ _ v => TxRet (choose v)).

Definition update_row (key : Key) (write : Db -> Db) : Tx unit := update_found key (row_present key) write.

Definition update_op (id : UUID) (f : OpRow -> OpRow) : Tx unit := update_row (KOp id) (fun db => {| db with db_Ops := alter f id (db_Ops db) |}).

Definition lock_pool (id : Z) : Tx (option unit) :=
  select_for_update (KPool id) (fun v => if bool_decide (id ∈ db_PoolScopes v) then Some tt else None).

Definition lock_client (id : Z) : Tx (option unit) :=
  select_for_update (KClient id) (fun v => if bool_decide (id ∈ db_ClientScopes v) then Some tt else None).

Definition select_op (id : UUID) : Tx (option OpRow) := select_for_update (KOp id) (fun v => db_Ops v !! id).
Definition select_lease (id : UUID) : Tx (option LeaseRow) := select_for_update (KLease id) (fun v => db_Leases v !! id).

(** [GREATEST(operation_started_at, at) + interval '24 hours'] *)
Definition retention (started at_ : Time) : Time := Z.max started at_ + 24 * GoTime.Hour.

(** [SELECT ... WHERE id = ANY(ids) ORDER BY id] locks in the order of the IDs. *)
Definition sorted_ids (ids : gset Z) : list Z := merge_sort Z.le (elements ids).
Definition sorted_uuids (ids : gset UUID) : list UUID := merge_sort N.le (elements ids).

Definition lock_all (keys : list Key) : Tx unit := lock_rows keys row_present.

(** ** Answers *)

Inductive Answer :=
| AnsAcquire (d : Error + AdmissionDecision)
| AnsRenew (results : list RenewResult)
| AnsComplete (r : Error + CompleteResult)
| AnsCleanup (full : bool)
| AnsMutation (e : option Error).

Definition ErrNoRows : Error := ErrOpaque "no rows in result set".
Definition ErrUnique : Error := ErrOpaque "duplicate key value violates unique constraint".

(** [return coordination.AdmissionDecision{}, err], before the commit. *)
Definition acquire_failed (e : Error) : Tx (Ending Answer) := TxRet (RolledBack (AnsAcquire (inl e))).

Definition commitDecision (d : AdmissionDecision) : Tx (Ending Answer) := TxRet (Committed (AnsAcquire (inr d))).

(** ** Acquire *)

Definition rejectAcquire (id : UUID) (reason : Reason) (retry : option Time) (now : Time) (scopes : option AdmissionScope) : Tx (Ending Answer) :=
  let scope := if bool_decide (reason = ReasonConcurrencyExhausted) then default AdmissionClientScope scopes else AdmissionNoScope in
  update_op id (fun o => {| o with op_Decision := OpRejected; op_Reason := Some reason; op_RetryAt := timestamptz <$> retry;
                                   op_DecidedAt := Some now; op_RetainUntil := Some (retention (op_StartedAt o) now); op_Scope := scope |});;
  commitDecision {| ad_Lease := None; ad_Reason := reason; ad_RetryAt := retry; ad_ConcurrencyScope := scope |}.

Definition markLost (id : UUID) (now : Time) : Tx (Ending Answer) :=
  update_op id (fun o => {| o with op_LeaseExpiredAt := Some now; op_RetainUntil := Some (retention (op_StartedAt o) now) |});;
  commitDecision (refused ReasonLeaseLost).

Definition identity_of (id : UUID) (l : LeaseRow) (ttl : Duration) : LeaseIdentity :=
  {| li_LeaseID := id; li_ClientID := lr_ClientID l; li_PoolID := lr_PoolID l; li_RequestID := lr_RequestID l; li_ReplicaID := lr_ReplicaID l;
     li_ExpiresAt := lr_ExpiresAt l; li_TTL := ttl |}.

Definition resolveAcquire (r : AdmissionRequest) (fp : FP) : Tx (Ending Answer) :=
  let id := ar_LeaseID r in
  initial ← query (fun _ v => db_Ops v !! id);
  match initial with
  | None => acquire_failed ErrNoRows
  | Some o =>
    if negb (bool_decide (op_Fingerprint o = fp)) then commitDecision (refused ReasonIdempotencyConflict)
    else
      lock_pool (op_PoolID o);;
      lock_client (op_ClientID o);;
      lease ← select_lease id;
      stored ← select_op id;
      match stored with
      | None => acquire_failed ErrNoRows
      | Some o =>
        if negb (bool_decide (op_Fingerprint o = fp)) then commitDecision (refused ReasonIdempotencyConflict)
        else if bool_decide (op_Decision o = OpRejected) then
          match op_Reason o with
          | None => acquire_failed (PermanentError (Some (ErrOpaque "invalid rejected admission receipt")))
          | Some reason => commitDecision {| ad_Lease := None; ad_Reason := reason; ad_RetryAt := op_RetryAt o; ad_ConcurrencyScope := op_Scope o |}
          end
        else if bool_decide (is_Some (op_CompletedAt o)) || bool_decide (is_Some (op_LeaseExpiredAt o)) then commitDecision (refused ReasonLeaseLost)
        else
          now ← clock_timestamp;
          match lease with
          | None => markLost id now
          | Some l =>
            if negb (GoTime.After (lr_ExpiresAt l) now) then markLost id now
            else commitDecision (granted (identity_of id l (ar_LeaseTTL r)))
          end
      end
  end.

(** [None] when the bucket has no row. *)
Definition normalizeRate (client : Z) (kind : RateKind) (revision capacity : Z) (now : Time) (debit : bool) : Tx (option (bool * Time)) :=
  row ← query (fun _ v => db_Rates v !! (client, kind));
  match row with
  | None => TxRet None
  | Some s =>
    let balance :=
      if negb (ra_PolicyRevision s =? revision) then of_int capacity
      else if GoTime.After now (ra_LastRefillAt s) then
        let balance := fadd (ra_Balance s) (fdiv (fmul (Seconds (GoTime.Sub now (ra_LastRefillAt s))) (of_int capacity)) (of_int 60)) in
        if flt (of_int capacity) balance then of_int capacity else balance
      else ra_Balance s in
    let store balance := update_row (KRate client kind) (fun db => {| db with db_Rates :=
      alter (fun _ => {| ra_PolicyRevision := revision; ra_Balance := balance; ra_LastRefillAt := now |}) (client, kind) (db_Rates db) |}) in
    if flt balance fone then store balance;; TxRet (Some (false, RateRetryAt balance capacity now))
    else store (if debit then fsub balance fone else balance);; TxRet (Some (true, GoTime.zero))
  end.

(** The row of the join of the configuration, if there is one. *)
Definition config_row (r : AdmissionRequest) (v : Db) : option (Z * Client * APIKey * ModelPool) :=
  let cfg := db_Config v in
  match ct_Clients cfg !! ar_ClientID r, ct_Keys cfg !! ar_APIKeyID r, ct_Pools cfg !! ar_PoolID r with
  | Some c, Some k, Some p => if bool_decide (ak_RevokedAt k = None) then Some (ct_Revision cfg, c, k, p) else None
  | _, _, _ => None
  end.

Definition capacity_of (c : Client) (kind : RateKind) : Z :=
  match kind with RatePerMinute => cl_RequestsPerMinute c | TokensPerMinute => cl_TokensPerMinute c end.

(** The buckets the seeding inserts: those of the client's policy that have no row. *)
Definition missing_rates (client : Z) (v : Db) : list RateKind :=
  match ct_Clients (db_Config v) !! client with
  | None => []
  | Some c => filter (fun kind => 0 < capacity_of c kind /\ db_Rates v !! (client, kind) = None) [RatePerMinute; TokensPerMinute]
  end.

Definition seed_rate (client : Z) (v db : Db) (kind : RateKind) : Db :=
  match ct_Clients (db_Config v) !! client with
  | None => db
  | Some c => {| db with db_Rates := <[(client, kind) := {| ra_PolicyRevision := cl_Revision c; ra_Balance := of_int (capacity_of c kind);
                                                           ra_LastRefillAt := unixEpoch |}]> (db_Rates db) |}
  end.

Definition seed_rates (client : Z) : Tx unit :=
  let keys v := list_to_set (KRate client <$> missing_rates client v) in
  TxStmt keys (fun _ _ v => keys v) (fun _ _ v db => fold_left (seed_rate client v) (missing_rates client v) db) (fun _ _ _ => TxRet tt).

(** The leases of a pool or a client that have not expired. *)
Definition live (now : Time) (sel : LeaseRow -> bool) (v : Db) : gmap UUID LeaseRow :=
  filter (fun '(_, l) => sel l = true /\ now < lr_ExpiresAt l) (db_Leases v).

Definition count (now : Time) (sel : LeaseRow -> bool) (v : Db) : Z := Z.of_nat (size (live now sel v)).

Definition of_pool (id : Z) (l : LeaseRow) : bool := lr_PoolID l =? id.
Definition of_client (id : Z) (l : LeaseRow) : bool := lr_ClientID l =? id.
Definition lower_of_pool (id : Z) (l : LeaseRow) : bool :=
  (lr_PoolID l =? id) && (bool_decide (lr_PriorityClass l = PriorityNormal) || bool_decide (lr_PriorityClass l = PriorityBackground)).

(** The time and the counts, read in one statement. *)
Record Counts := { co_Now : Time; co_Pool : Z; co_Lower : Z; co_Client : Z }.

Definition read_counts (r : AdmissionRequest) : Tx Counts :=
  query (fun now v => let now := timestamptz now in
    {| co_Now := now; co_Pool := count now (of_pool (ar_PoolID r)) v; co_Lower := count now (lower_of_pool (ar_PoolID r)) v;
       co_Client := count now (of_client (ar_ClientID r)) v |}).

(** The configuration the request was made with is not the one in the database. *)
Definition stale_configuration (r : AdmissionRequest) (row : Z * Client * APIKey * ModelPool) (now : Time) : bool :=
  let '(revision, c, k, p) := row in
  negb (revision =? ar_ConfigurationRevision r) || negb (ak_ClientID k =? ar_ClientID r) || negb (cl_Enabled c) || negb (mp_Enabled p) ||
  negb (cl_Revision c =? ar_ClientPolicyRevision r) || negb (cl_MaxConcurrency c =? ar_ConfiguredClientLimit r) ||
  negb (mp_MaxGatewayInflight p =? ar_PoolGatewayInflightLimit r) || negb (mp_HighPriorityReserve p =? ar_PoolHighPriorityReserve r) ||
  (negb (bool_decide (ar_PriorityClass r = EmptyString)) && negb (bool_decide (ar_PriorityClass r = cl_PriorityClass c))) ||
  ((0 <? mp_HighPriorityReserve p) && negb (PriorityClass_Valid (ar_PriorityClass r))) ||
  negb (cl_RequestsPerMinute c =? ar_RequestsPerMinute r) || negb (cl_TokensPerMinute c =? ar_TokensPerMinute r) ||
  match ak_ExpiresAt k with Some t => negb (GoTime.After t now) | None => false end.

(** The lease and its receipt. *)
Definition grant (r : AdmissionRequest) (class : PriorityClass) (now : Time) : Tx (Ending Answer) :=
  let id := ar_LeaseID r in
  let lease := {| li_LeaseID := id; li_ClientID := ar_ClientID r; li_PoolID := ar_PoolID r; li_RequestID := ar_RequestID r;
                  li_ReplicaID := ar_ReplicaID r; li_ExpiresAt := GoTime.Add now (ar_LeaseTTL r); li_TTL := ar_LeaseTTL r |} in
  inserted ← insert_new (KLease id) (fun v => bool_decide (db_Leases v !! id = None)) (fun db => {| db with db_Leases :=
    <[id := {| lr_RequestID := li_RequestID lease; lr_ReplicaID := li_ReplicaID lease; lr_ClientID := li_ClientID lease; lr_PoolID := li_PoolID lease;
               lr_AcquiredAt := now; lr_ExpiresAt := timestamptz (li_ExpiresAt lease); lr_PriorityClass := class |}]> (db_Leases db) |});
  if negb inserted then acquire_failed ErrUnique
  else
    update_op id (fun o => {| o with op_Decision := OpAdmitted; op_DecidedAt := Some now |});;
    commitDecision (granted lease).

(** The rates, tokens first. *)
Definition take_rates (r : AdmissionRequest) (c : Client) (now : Time) : Tx (Ending Answer) :=
  let id := ar_LeaseID r in
  let reject reason retry := rejectAcquire id reason (Some retry) now None in
  let take_requests :=
    if 0 <? cl_RequestsPerMinute c then
      taken ← normalizeRate (ar_ClientID r) RatePerMinute (cl_Revision c) (cl_RequestsPerMinute c) now true;
      match taken with
      | None => acquire_failed ErrNoRows
      | Some (false, retry) => reject ReasonRPMExhausted retry
      | Some (true, _) => grant r (cl_PriorityClass c) now
      end
    else grant r (cl_PriorityClass c) now in
  if 0 <? cl_TokensPerMinute c then
    available ← normalizeRate (ar_ClientID r) TokensPerMinute (cl_Revision c) (cl_TokensPerMinute c) now false;
    match available with
    | None => acquire_failed ErrNoRows
    | Some (false, retry) => reject ReasonTPMExhausted retry
    | Some (true, _) => take_requests
    end
  else take_requests.

Definition decide_acquire (r : AdmissionRequest) (row : option (Z * Client * APIKey * ModelPool)) (counts : Counts) : Tx (Ending Answer) :=
  let id := ar_LeaseID r in
  let now := co_Now counts in
  let reject reason scope := rejectAcquire id reason None now scope in
  match row with
  | None => reject ReasonStaleConfiguration None
  | Some (revision, c, k, p) =>
    if stale_configuration r (revision, c, k, p) now then reject ReasonStaleConfiguration None
    else if (ar_EffectiveClientLimit r <=? 0) || (cl_MaxConcurrency c <? ar_EffectiveClientLimit r) then reject ReasonConcurrencyExhausted None
    else if GoTime.After (ar_OperationStartedAt r) (GoTime.Add now (5 * GoTime.Minute)) ||
            negb (GoTime.After (ar_OperationStartedAt r) (GoTime.Add now (- (24 * GoTime.Hour)))) then reject ReasonStaleOperation None
    else if (0 <? mp_MaxGatewayInflight p) && (mp_MaxGatewayInflight p <=? co_Pool counts) then reject ReasonConcurrencyExhausted (Some AdmissionPoolScope)
    else if (0 <? mp_HighPriorityReserve p) && lower_class (cl_PriorityClass c) &&
            (mp_MaxGatewayInflight p - mp_HighPriorityReserve p <=? co_Lower counts) then reject ReasonPoolPriorityReserve None
    else if ar_EffectiveClientLimit r <=? co_Client counts then reject ReasonConcurrencyExhausted None
    else take_rates r c now
  end.

Definition pending_op (r : AdmissionRequest) : OpRow :=
  {| op_StartedAt := timestamptz (ar_OperationStartedAt r); op_Fingerprint := fingerprint r; op_RequestID := ar_RequestID r;
     op_ReplicaID := ar_ReplicaID r; op_ClientID := ar_ClientID r; op_PoolID := ar_PoolID r; op_Decision := OpPending; op_Reason := None;
     op_RetryAt := None; op_DecidedAt := None; op_LeaseExpiredAt := None; op_CompletedAt := None; op_Completion := None; op_RetainUntil := None;
     op_Scope := AdmissionNoScope |}.

Definition acquire (r : AdmissionRequest) : Tx (Ending Answer) :=
  let id := ar_LeaseID r in
  created ← insert_new (KOp id) (fun v => bool_decide (db_Ops v !! id = None)) (fun db => {| db with db_Ops := <[id := pending_op r]> (db_Ops db) |});
  if negb created then resolveAcquire r (fingerprint r)
  else
    lock_pool (ar_PoolID r);;
    lock_client (ar_ClientID r);;
    row ← query (fun _ v => config_row r v);
    seed_rates (ar_ClientID r);;
    lock_all [KRate (ar_ClientID r) RatePerMinute; KRate (ar_ClientID r) TokensPerMinute];;
    counts ← read_counts r;
    decide_acquire r row counts.

(** ** Renew *)

Definition rows_of (ids : list UUID) (v : Db) : gmap UUID LeaseRow := filter (fun '(id, _) => id ∈ ids) (db_Leases v).

(** A lease that can be renewed: [stored] is the row of its ID. *)
Definition renewable (lease : LeaseIdentity) (stored : option LeaseRow) (now : Time) : bool :=
  match stored with
  | None => false
  | Some s =>
    (lr_ClientID s =? li_ClientID lease) && (lr_PoolID s =? li_PoolID lease) && bool_decide (lr_RequestID s = li_RequestID lease) &&
    bool_decide (lr_ReplicaID s = li_ReplicaID lease) && GoTime.After (lr_ExpiresAt s) now && negb (li_TTL lease <=? 0)
  end.

Definition renew_result (byID : gmap UUID LeaseRow) (now : Time) (lease : LeaseIdentity) : RenewResult :=
  match byID !! li_LeaseID lease with
  | Some s =>
    if renewable lease (Some s) now then
      let stored := identity_of (li_LeaseID lease) s (li_TTL lease) in
      {| rr_Lease := {| stored with li_ExpiresAt := GoTime.Add now (li_TTL lease) |}; rr_Reason := ReasonNone |}
    else {| rr_Lease := lease; rr_Reason := ReasonLeaseLost |}
  | None => {| rr_Lease := lease; rr_Reason := ReasonLeaseLost |}
  end.

(** The new expiry of each renewed lease, the latest if it is named twice. *)
Definition renew_updates (byID : gmap UUID LeaseRow) (now : Time) (leases : list LeaseIdentity) : gmap UUID Time :=
  fold_left (fun updates lease =>
    let id := li_LeaseID lease in
    if renewable lease (byID !! id) now then
      let at_ := GoTime.Add now (li_TTL lease) in
      if GoTime.After at_ (default GoTime.zero (updates !! id)) then <[id := at_]> updates else updates
    else updates) leases ∅.

Definition extend (at_ : Time) (l : LeaseRow) : LeaseRow := {| l with lr_ExpiresAt := timestamptz at_ |}.

Definition extend_leases (updates : gmap UUID Time) (db : Db) : Db :=
  {| db with db_Leases := map_imap (fun id l => Some (match updates !! id with Some at_ => extend at_ l | None => l end)) (db_Leases db) |}.

Definition set_expiries (updates : gmap UUID Time) : Tx unit :=
  exec_on (fun _ => tt) (fun _ => KLease <$> (map_to_list updates).*1) (fun _ => extend_leases updates).

(** The receipt of a lease that expired before it was completed. *)
Definition expire_op (now : Time) (o : OpRow) : OpRow :=
  if bool_decide (op_CompletedAt o = None)
  then {| o with op_LeaseExpiredAt := Some (default now (op_LeaseExpiredAt o)); op_RetainUntil := Some (retention (op_StartedAt o) now) |}
  else o.

(** The rows of [ids] that have expired in the view [v]. *)
Definition expired_ids (ids : list UUID) (now : Time) (v : Db) : list UUID :=
  filter (fun id => (match db_Leases v !! id with Some l => lr_ExpiresAt l <=? now | None => false end) = true) ids.

Definition delete_leases (ids : list UUID) (db : Db) : Db := {| db with db_Leases := fold_right delete (db_Leases db) ids |}.

Definition expire_ops (ids : list UUID) (now : Time) (db : Db) : Db :=
  {| db with db_Ops := map_imap (fun id o => Some (if bool_decide (id ∈ ids) then expire_op now o else o)) (db_Ops db) |}.

(** The scopes of the stored owners, not of the identities the caller gives. *)
Definition lock_owners (ids : list UUID) : Tx unit :=
  owners ← query (fun _ v => rows_of ids v);
  let rows := (map_to_list owners).*2 in
  lock_all (KPool <$> sorted_ids (list_to_set (lr_PoolID <$> rows)));;
  lock_all (KClient <$> sorted_ids (list_to_set (lr_ClientID <$> rows))).

Definition renew (leases : list LeaseIdentity) : Tx (Ending Answer) :=
  if bool_decide (leases = []) then TxRet (RolledBack (AnsRenew []))
  else
    let ids := li_LeaseID <$> leases in
    lock_owners ids;;
    lock_all (KLease <$> sorted_uuids (list_to_set ids));;
    lock_all (KOp <$> sorted_uuids (list_to_set ids));;
    now ← clock_timestamp;
    byID ← query (fun _ v => rows_of ids v);
    let updates := renew_updates byID now leases in
    (if bool_decide (updates = ∅) then TxRet tt else set_expiries updates);;
    exec_on (expired_ids ids now) (fun expired => (KLease <$> expired) ++ (KOp <$> expired))
      (fun expired db => expire_ops expired now (delete_leases expired db));;
    TxRet (Committed (AnsRenew (renew_result byID now <$> leases))).

(** ** Complete *)

Definition complete_failed (e : Error) : Tx (Ending Answer) := TxRet (RolledBack (AnsComplete (inl e))).
Definition commitComplete (r : CompleteResult) : Tx (Ending Answer) := TxRet (Committed (AnsComplete (inr r))).

(** [float64(item.Usage.InputTokens) + float64(item.Usage.OutputTokens)] *)
Definition used_tokens (u : Coordination.TokenUsage) : float64 := fadd (of_int (tu_InputTokens u)) (of_int (tu_OutputTokens u)).

Definition charge_tokens (client : Z) (policy : option (Z * Z)) (usage : option Coordination.TokenUsage) (now : Time) : Tx bool :=
  match policy, usage with
  | Some (revision, limit), Some u =>
    taken ← normalizeRate client TokensPerMinute revision limit now false;
    match taken with
    | None => TxRet false
    | Some _ =>
      update_row (KRate client TokensPerMinute) (fun db => {| db with db_Rates := alter (fun s => {| s with ra_Balance := fsub (ra_Balance s) (used_tokens u); ra_LastRefillAt := now |})
                                              (client, TokensPerMinute) (db_Rates db) |});;
      TxRet true
    end
  | _, _ => TxRet true
  end.

(** The policy to charge by: the revision and the limit, if there is one. *)
Definition charge_policy (client : Z) (usage : option Coordination.TokenUsage) (v : Db) : option (Z * Z) :=
  match usage with
  | Some u =>
    if TokenUsage_Valid u then
      match ct_Clients (db_Config v) !! client with
      | Some c => if 0 <? cl_TokensPerMinute c then Some (cl_Revision c, cl_TokensPerMinute c) else None
      | None => None
      end
    else None
  | None => None
  end.

Definition seed_tokens (client : Z) (policy : option (Z * Z)) : Tx unit :=
  match policy with
  | None => TxRet tt
  | Some (revision, limit) =>
    insert_new (KRate client TokensPerMinute) (fun v => bool_decide (db_Rates v !! (client, TokensPerMinute) = None))
      (fun db => {| db with db_Rates := <[(client, TokensPerMinute) := {| ra_PolicyRevision := revision; ra_Balance := of_int limit;
                                                                         ra_LastRefillAt := unixEpoch |}]> (db_Rates db) |});;
    lock_all [KRate client TokensPerMinute]
  end.

Definition complete_result (id : UUID) (result original : CompletionResult) (reason : Reason) : CompleteResult :=
  {| cr_LeaseID := id; cr_Result := result; cr_OriginalResult := original; cr_Reason := reason |}.

(** [DELETE FROM request_leases WHERE lease_id=id AND client_id=client AND pool_id=pool] *)
Definition delete_lease (id : UUID) (client pool : Z) (db : Db) : Db :=
  {| db with db_Leases :=
     match db_Leases db !! id with
     | Some l => if (lr_ClientID l =? client) && (lr_PoolID l =? pool) then delete id (db_Leases db) else db_Leases db
     | None => db_Leases db
     end |}.

Definition completeOne (item : LeaseCompletion) : Tx (Ending Answer) :=
  let id := li_LeaseID (lc_Lease item) in
  found ← query (fun _ v => db_Ops v !! id);
  match found with
  | None => commitComplete (complete_result id CompletionNone CompletionNone ReasonStaleOperation)
  | Some o =>
    let client := op_ClientID o in
    let pool := op_PoolID o in
    if negb (bool_decide (op_Decision o = OpAdmitted)) then commitComplete (complete_result id CompletionLeaseLost CompletionNone ReasonLeaseLost)
    else
      lock_pool pool;;
      lock_client client;;
      lease ← select_lease id;
      stored ← select_op id;
      match stored with
      | None => complete_failed ErrNoRows
      | Some o =>
        if bool_decide (is_Some (op_CompletedAt o)) then
          match op_Completion o with
          | None => complete_failed (PermanentError (Some (ErrOpaque "invalid completed admission receipt")))
          | Some original => commitComplete (complete_result id CompletionAlreadyCompleted original ReasonNone)
          end
        else
          policy ← query (fun _ v => charge_policy client (lc_Usage item) v);
          seed_tokens client policy;;
          now ← clock_timestamp;
          let result := match lease with
                        | Some l => if GoTime.After (lr_ExpiresAt l) now then CompletionReleased else CompletionLeaseLost
                        | None => CompletionLeaseLost
                        end in
          charged ← charge_tokens client policy (lc_Usage item) now;
          if negb charged then complete_failed ErrNoRows
          else
            update_row (KLease id) (delete_lease id client pool);;
            update_op id (fun o => {| o with op_CompletedAt := Some now; op_Completion := Some result;
                                             op_RetainUntil := Some (retention (op_StartedAt o) now) |});;
            commitComplete (complete_result id result CompletionNone ReasonNone)
      end
  end.

(** ** Cleanup *)

Record expiredLease := { xl_ID : UUID; xl_Pool : Z; xl_Client : Z }.

Definition cleanupExpired (items : list expiredLease) : Tx (Ending Answer) :=
  let ids := xl_ID <$> items in
  lock_all (KPool <$> sorted_ids (list_to_set (xl_Pool <$> items)));;
  lock_all (KClient <$> sorted_ids (list_to_set (xl_Client <$> items)));;
  lock_all (KLease <$> sorted_uuids (list_to_set ids));;
  lock_all (KOp <$> sorted_uuids (list_to_set ids));;
  now ← clock_timestamp;
  expired ← exec_on (expired_ids ids now) (fun expired => KLease <$> expired) delete_leases;
  (if bool_decide (expired = []) then TxRet tt else exec_on (fun _ => tt) (fun _ => KOp <$> expired) (fun _ => expire_ops expired now));;
  TxRet (Committed (AnsCleanup false)).

(** The receipts that can go: past their retention, with no lease. *)
Definition removable (now : Time) (v : Db) (id : UUID) : bool :=
  match db_Ops v !! id with
  | Some o => match op_RetainUntil o with Some t => t <=? now | None => false end && bool_decide (db_Leases v !! id = None)
  | None => false
  end.

(** [FOR UPDATE OF o SKIP LOCKED] *)
Definition removable_receipts (batch : nat) (busy : gset Key) (now : Time) (v : Db) : list UUID :=
  take batch (filter (fun id => removable now v id = true /\ KOp id ∉ busy) (sorted_uuids (dom (db_Ops v)))).

Definition delete_ops (ids : list UUID) (db : Db) : Db := {| db with db_Ops := fold_right delete (db_Ops db) ids |}.

Definition cleanupAdmissionReceipts (batch : nat) : Tx (Ending Answer) :=
  receipts ← TxStmt (fun _ => ∅) (fun busy now v => list_to_set (KOp <$> removable_receipts batch busy (timestamptz now) v)) (fun _ _ _ db => db)
               (fun busy now v => TxRet (removable_receipts batch busy (timestamptz now) v));
  (if bool_decide (receipts = []) then TxRet tt
   else
     now ← clock_timestamp;
     exec_on (fun v => filter (fun id => removable now v id = true) receipts) (fun ids => KOp <$> ids) delete_ops;;
     TxRet tt);;
  TxRet (Committed (AnsCleanup (length receipts =? batch)%nat)).

(** ** Configuration mutations *)

Record ClientParams := {
  cp_Name : string;
  cp_Enabled : bool;
  cp_PriorityClass : PriorityClass;
  cp_VLLMPriority : Z;
  cp_MaxConcurrency : Z;
  cp_RequestsPerMinute : Z;
  cp_TokensPerMinute : Z;
  cp_ModelPoolIDs : list Z
}.

Record PoolParams := {
  pp_PublicModelName : string;
  pp_UpstreamModelName : string;
  pp_Enabled : bool;
  pp_MaxGatewayInflight : Z;
  pp_HighPriorityReserve : Z;
  pp_MaxWaiting : Z
}.

(** The client and the pool that parameters describe. *)
Definition client_of (id : Z) (p : ClientParams) (revision : Z) (created updated : Time) : Client :=
  {| cl_ID := id; cl_Revision := revision; cl_Name := cp_Name p; cl_Enabled := cp_Enabled p; cl_PriorityClass := cp_PriorityClass p;
     cl_VLLMPriority := cp_VLLMPriority p; cl_MaxConcurrency := cp_MaxConcurrency p; cl_RequestsPerMinute := cp_RequestsPerMinute p;
     cl_TokensPerMinute := cp_TokensPerMinute p; cl_CreatedAt := created; cl_UpdatedAt := updated |}.

Definition pool_of (id : Z) (p : PoolParams) (revision : Z) (created updated : Time) : ModelPool :=
  {| mp_ID := id; mp_Revision := revision; mp_PublicModelName := pp_PublicModelName p; mp_UpstreamModelName := pp_UpstreamModelName p;
     mp_Enabled := pp_Enabled p; mp_MaxGatewayInflight := pp_MaxGatewayInflight p; mp_HighPriorityReserve := pp_HighPriorityReserve p;
     mp_MaxWaiting := pp_MaxWaiting p; mp_CreatedAt := created; mp_UpdatedAt := updated |}.

Definition ErrInvalid : Error := ErrOpaque "invalid configuration".
Definition ErrForeignKey : Error := ErrOpaque "violates foreign key constraint".
Definition ErrPoolHasBackends : Error := ErrOpaque "model pool has backends".

Definition set_config (f : ConfigTables -> ConfigTables) (db : Db) : Db := {| db with db_Config := f (db_Config db) |}.

(** Every mutation increments the revision in its own transaction; an error rolls it back. *)
Definition mutation (fn : Tx (option Error)) : Tx (Ending Answer) :=
  e ← fn;
  match e with
  | Some e => TxRet (RolledBack (AnsMutation (Some e)))
  | None =>
    TxStmt (fun _ => {[KMeta]}) (fun _ _ _ => {[KMeta]}) (fun _ _ _ => set_config (fun c => {| c with ct_Revision := ct_Revision c + 1 |}))
      (fun _ _ _ => TxRet (Committed (AnsMutation None)))
  end.

(** The rows of a client in [client_model_access]. *)
Definition without_client (client : Z) (access : gset (Z * Z)) : gset (Z * Z) := filter (fun '(c, _) => c <> client) access.

Definition replaceAccess (client : Z) (pools : list Z) : Tx (option Error) :=
  known ← query (fun _ v => forallb (fun id => bool_decide (is_Some (ct_Pools (db_Config v) !! id))) pools);
  if negb known then TxRet (Some ErrForeignKey)
  else
    exec (set_config (fun c => {| c with ct_Access := list_to_set ((fun id => (client, id)) <$> pools) ∪ without_client client (ct_Access c) |}));;
    TxRet None.

(** The names of the other clients, and the public names of the other pools, are unique. *)
Definition client_name_used (c : Client) (v : Db) : bool :=
  existsb (fun '(id, o) => negb (id =? cl_ID c) && bool_decide (cl_Name o = cl_Name c)) (map_to_list (ct_Clients (db_Config v))).

Definition pool_name_used (p : ModelPool) (v : Db) : bool :=
  existsb (fun '(id, o) => negb (id =? mp_ID p) && bool_decide (mp_PublicModelName o = mp_PublicModelName p)) (map_to_list (ct_Pools (db_Config v))).

(** A new row with a new ID, with its admission scope; a used ID or name is refused. *)
Definition insert_client (c : Client) : Tx bool :=
  insert_new (KClient (cl_ID c))
    (fun v => bool_decide (cl_ID c ∉ db_ClientScopes v) && bool_decide (ct_Clients (db_Config v) !! cl_ID c = None) && negb (client_name_used c v))
    (fun db => let db := set_config (fun t => {| t with ct_Clients := <[cl_ID c := c]> (ct_Clients t) |}) db in
               {| db with db_ClientScopes := {[cl_ID c]} ∪ db_ClientScopes db |}).

Definition insert_pool (p : ModelPool) : Tx bool :=
  insert_new (KPool (mp_ID p))
    (fun v => bool_decide (mp_ID p ∉ db_PoolScopes v) && bool_decide (ct_Pools (db_Config v) !! mp_ID p = None) && negb (pool_name_used p v))
    (fun db => let db := set_config (fun t => {| t with ct_Pools := <[mp_ID p := p]> (ct_Pools t) |}) db in
               {| db with db_PoolScopes := {[mp_ID p]} ∪ db_PoolScopes db |}).

(** [id] is the one the database generates. *)
Definition CreateClient (id : Z) (p : ClientParams) (at_ : Time) : Tx (Ending Answer) :=
  match Client_Validate (client_of 0 p 1 GoTime.zero GoTime.zero) with
  | inl _ => TxRet (RolledBack (AnsMutation (Some ErrInvalid)))
  | inr v =>
    mutation (
      inserted ← insert_client {| v with cl_ID := id; cl_CreatedAt := timestamptz at_; cl_UpdatedAt := timestamptz at_ |};
      if negb inserted then TxRet (Some ErrUnique) else replaceAccess id (cp_ModelPoolIDs p))
  end.

(** [SELECT pool_id FROM pool_admission_scopes ORDER BY pool_id FOR UPDATE] *)
Definition lock_every_pool : Tx unit :=
  ids ← query (fun _ v => sorted_ids (db_PoolScopes v));
  lock_all (KPool <$> ids).

Definition select_client (id : Z) : Tx (option Client) := select_for_update (KClientRow id) (fun v => ct_Clients (db_Config v) !! id).
Definition select_pool (id : Z) : Tx (option ModelPool) := select_for_update (KPoolRow id) (fun v => ct_Pools (db_Config v) !! id).

Definition UpdateClient (id : Z) (p : ClientParams) (at_ : Time) : Tx (Ending Answer) :=
  mutation (
    lock_every_pool;;
    lock_client id;;
    previous ← select_client id;
    match previous with
    | None => TxRet (Some ErrNoRows)
    | Some previous =>
      match Client_ValidateUpdate previous (client_of id p 0 (cl_CreatedAt previous) GoTime.zero) with
      | inl _ => TxRet (Some ErrInvalid)
      | inr v =>
        used ← query (fun _ => client_name_used v);
        if (used : bool) then TxRet (Some ErrUnique)
        else
          exec (set_config (fun t => {| t with ct_Clients :=
            alter (fun o => {| v with cl_Revision := cl_Revision o + 1; cl_CreatedAt := cl_CreatedAt o; cl_UpdatedAt := timestamptz at_ |}) id (ct_Clients t) |}));;
          replaceAccess id (cp_ModelPoolIDs p)
      end
    end).

(** [DELETE FROM coordination_rate_state WHERE client_id=id] locks the rows it deletes. *)
Definition delete_rates (client : Z) : Tx unit :=
  let keys v := list_to_set (KRate client <$> filter (fun kind => is_Some (db_Rates v !! (client, kind))) [RatePerMinute; TokensPerMinute]) in
  TxStmt keys (fun _ _ v => keys v)
    (fun _ _ v db => {| db with db_Rates := fold_right (fun kind => delete (client, kind)) (db_Rates db)
                                              (filter (fun kind => is_Some (db_Rates v !! (client, kind))) [RatePerMinute; TokensPerMinute]) |})
    (fun _ _ _ => TxRet tt).

Definition DeleteClient (id : Z) : Tx (Ending Answer) :=
  mutation (
    lock_every_pool;;
    lock_client id;;
    found ← select_client id;
    match found with
    | None => TxRet (Some ErrNoRows)
    | Some _ =>
      exec (set_config (fun t => {| t with ct_Access := without_client id (ct_Access t) |}));;
      exec (set_config (fun t => {| t with ct_Keys := filter (fun '(_, k) => ak_ClientID k <> id) (ct_Keys t) |}));;
      delete_rates id;;
      exec (set_config (fun t => {| t with ct_Clients := delete id (ct_Clients t) |}));;
      TxRet None
    end).

Definition CreatePool (id : Z) (p : PoolParams) (at_ : Time) : Tx (Ending Answer) :=
  match Pool_Validate (pool_of 0 p 1 GoTime.zero GoTime.zero) with
  | inl _ => TxRet (RolledBack (AnsMutation (Some ErrInvalid)))
  | inr v =>
    mutation (
      inserted ← insert_pool {| v with mp_ID := id; mp_CreatedAt := timestamptz at_; mp_UpdatedAt := timestamptz at_ |};
      TxRet (if (inserted : bool) then None else Some ErrUnique))
  end.

Definition UpdatePool (id : Z) (p : PoolParams) (at_ : Time) : Tx (Ending Answer) :=
  mutation (
    lock_pool id;;
    old ← select_pool id;
    match old with
    | None => TxRet (Some ErrNoRows)
    | Some old =>
      match Pool_ValidateUpdate old (pool_of id p 0 (mp_CreatedAt old) GoTime.zero) with
      | inl _ => TxRet (Some ErrInvalid)
      | inr v =>
        used ← query (fun _ => pool_name_used v);
        if (used : bool) then TxRet (Some ErrUnique)
        else
          exec (set_config (fun t => {| t with ct_Pools :=
            alter (fun o => {| v with mp_Revision := mp_Revision o + 1; mp_CreatedAt := mp_CreatedAt o; mp_UpdatedAt := timestamptz at_ |}) id (ct_Pools t) |}));;
          TxRet None
      end
    end).

Definition DeletePool (id : Z) : Tx (Ending Answer) :=
  mutation (
    lock_pool id;;
    found ← select_pool id;
    match found with
    | None => TxRet (Some ErrNoRows)
    | Some _ =>
      used ← query (fun _ v => existsb (fun '(_, b) => be_ModelPoolID b =? id) (map_to_list (ct_Backends (db_Config v))));
      if (used : bool) then TxRet (Some ErrPoolHasBackends)
      else
        exec (set_config (fun t => {| t with ct_Access := filter (fun '(_, pool) => pool <> id) (ct_Access t) |}));;
        exec (set_config (fun t => {| t with ct_Pools := delete id (ct_Pools t) |}));;
        TxRet None
    end).

Definition CreateAPIKey (key : APIKey) : Tx (Ending Answer) :=
  mutation (
    inserted ← insert_new (KKeyRow (ak_ID key))
      (fun v => bool_decide (ct_Keys (db_Config v) !! ak_ID key = None) && bool_decide (is_Some (ct_Clients (db_Config v) !! ak_ClientID key)))
      (set_config (fun t => {| t with ct_Keys := <[ak_ID key := key]> (ct_Keys t) |}));
    TxRet (if (inserted : bool) then None else Some ErrForeignKey)).

Definition RevokeAPIKey (id : Z) : Tx (Ending Answer) :=
  mutation (
    found ← select_for_update (KKeyRow id) (fun v => k ← ct_Keys (db_Config v) !! id; if bool_decide (ak_RevokedAt k = None) then Some k else None);
    match found with
    | None => TxRet (Some ErrNoRows)
    | Some _ =>
      now ← clock_timestamp;
      exec (set_config (fun t => {| t with ct_Keys := alter (fun k => {| k with ak_RevokedAt := Some now |}) id (ct_Keys t) |}));;
      TxRet None
    end).

(** ** The system *)

Inductive Call :=
| CAcquire (r : AdmissionRequest)
| CRenew (leases : list LeaseIdentity)
| CComplete (item : LeaseCompletion)
| CCleanupExpired (items : list expiredLease)
| CCleanupReceipts (batch : nat)
| CCreateClient (id : Z) (p : ClientParams) (at_ : Time)
| CUpdateClient (id : Z) (p : ClientParams) (at_ : Time)
| CDeleteClient (id : Z)
| CCreatePool (id : Z) (p : PoolParams) (at_ : Time)
| CUpdatePool (id : Z) (p : PoolParams) (at_ : Time)
| CDeletePool (id : Z)
| CCreateAPIKey (key : APIKey)
| CRevokeAPIKey (id : Z).

Definition program (c : Call) : Tx (Ending Answer) :=
  match c with
  | CAcquire r => acquire r
  | CRenew leases => renew leases
  | CComplete item => completeOne item
  | CCleanupExpired items => cleanupExpired items
  | CCleanupReceipts batch => cleanupAdmissionReceipts batch
  | CCreateClient id p at_ => CreateClient id p at_
  | CUpdateClient id p at_ => UpdateClient id p at_
  | CDeleteClient id => DeleteClient id
  | CCreatePool id p at_ => CreatePool id p at_
  | CUpdatePool id p at_ => UpdatePool id p at_
  | CDeletePool id => DeletePool id
  | CCreateAPIKey key => CreateAPIKey key
  | CRevokeAPIKey id => RevokeAPIKey id
  end.

(** A mutation of the backends, which increments the revision too, the time a key was last
    used, and the moment the requester of a lease learns that it holds it. *)
Inductive Change :=
| ChBackends (backends : gmap Z Backend)
| ChKeyUsed (id : Z) (at_ : Time)
| ChHeld (id : UUID).

Definition acquires (id : UUID) (c : Call) : bool := match c with CAcquire r => bool_decide (ar_LeaseID r = id) | _ => false end.

Definition change (e : Change) (active : list Call) (db : Db) : option Db :=
  match e with
  | ChBackends backends => Some (set_config (fun t => {| t with ct_Backends := backends; ct_Revision := ct_Revision t + 1 |}) db)
  | ChKeyUsed id at_ => Some (set_config (fun t => {| t with ct_Keys := alter (touch (timestamptz at_)) id (ct_Keys t) |}) db)
  | ChHeld id => if existsb (acquires id) active then None else Some {| db with db_Held := {[id]} ∪ db_Held db |}
  end.

(** The calls the gateway makes.  It acquires under a new UUID for each request, with the
    revision of a snapshot it loaded, and repeats the call only while it has no answer; it
    renews and completes only the leases it was granted, from its answer on ([ChHeld]).  A
    repeat after the answer, or a renewal by someone else, is outside the model. *)
Definition may_call (c : Call) (db : Db) : bool :=
  match c with
  | CAcquire r => bool_decide (ar_LeaseID r ∉ db_Held db) && (ar_ConfigurationRevision r <=? ct_Revision (db_Config db))
  | CRenew leases => forallb (fun l => bool_decide (li_LeaseID l ∈ db_Held db)) leases
  | CComplete item => bool_decide (li_LeaseID (lc_Lease item) ∈ db_Held db)
  | _ => true
  end.
End PgAdmission.
