(* ===== verification/PgAdmissionSafety.v ===== *)
(** What the PostgreSQL admission coordinator guarantees in every interleaving of its
    transactions, of the configuration mutations and of any number of replicas. *)

From stdpp Require Import sorting.
From S2P Require Import Prelude Domain Float64 Coordination LocalAdmission Validate Pg PgAdmission.

(** ** Rely and guarantee *)

Section PgAdmissionSafety.
Context {FP : Type} `{!EqDecision FP} (fingerprint : AdmissionRequest -> FP).
Abbreviation Db := (Db (FP := FP)).
Implicit Types (db d : Db) (held : gset Key).

Definition same_owner (l l' : LeaseRow) : Prop :=
  lr_PoolID l' = lr_PoolID l /\ lr_ClientID l' = lr_ClientID l /\ lr_RequestID l' = lr_RequestID l /\ lr_ReplicaID l' = lr_ReplicaID l.

(** A receipt of the same request and decision. *)
Definition same_request (o o' : OpRow (FP := FP)) : Prop :=
  op_PoolID o' = op_PoolID o /\ op_ClientID o' = op_ClientID o /\ op_Fingerprint o' = op_Fingerprint o /\ op_Decision o' = op_Decision o.

Record rely (c : Call) held db db' : Prop := {
  rl_pool : forall id l, KPool (lr_PoolID l) ∈ held -> db_Leases db' !! id = Some l -> db_Leases db !! id = Some l;
  rl_client : forall id l, KClient (lr_ClientID l) ∈ held -> db_Leases db' !! id = Some l -> db_Leases db !! id = Some l;
  rl_lease : forall id, KLease id ∈ held -> db_Leases db' !! id = db_Leases db !! id;
  rl_op : forall id, KOp id ∈ held -> db_Ops db' !! id = db_Ops db !! id;
  rl_new : forall id, KOp id ∈ held -> db_Leases db !! id = None -> db_Leases db' !! id = None;
  rl_rate : forall c k, KRate c k ∈ held -> db_Rates db' !! (c, k) = db_Rates db !! (c, k);
  rl_known : db_Held db ⊆ db_Held db';
  rl_owner : forall id l', id ∈ db_Held db -> db_Leases db' !! id = Some l' -> exists l, db_Leases db !! id = Some l /\ same_owner l l';
  rl_receipt : forall id o', id ∈ db_Held db -> db_Ops db' !! id = Some o' -> exists o, db_Ops db !! id = Some o /\ same_request o o';
  rl_scopes : db_PoolScopes db ⊆ db_PoolScopes db' /\ db_ClientScopes db ⊆ db_ClientScopes db';
  rl_revision : ct_Revision (db_Config db) <= ct_Revision (db_Config db');
  rl_config : ct_Revision (db_Config db') = ct_Revision (db_Config db) -> same_config (db_Config db) (db_Config db');
  rl_call : match c with CAcquire r => ar_LeaseID r ∉ db_Held db -> ar_LeaseID r ∉ db_Held db' | _ => True end
}.

(** What the commit of a transaction that holds the locks [held] may change. *)
Record guar held db db' : Prop := {
  gu_lease : forall id l', db_Leases db' !! id = Some l' -> db_Leases db !! id = Some l' \/
    KPool (lr_PoolID l') ∈ held /\ KClient (lr_ClientID l') ∈ held /\
    ((exists l, db_Leases db !! id = Some l /\ same_owner l l') \/ db_Leases db !! id = None /\ KOp id ∈ held /\ id ∉ db_Held db);
  gu_row : forall id, db_Leases db' !! id = db_Leases db !! id \/ KLease id ∈ held;
  gu_op : forall id, db_Ops db' !! id = db_Ops db !! id \/ KOp id ∈ held;
  gu_receipt : forall id o', db_Ops db' !! id = Some o' -> (exists o, db_Ops db !! id = Some o /\ same_request o o') \/ id ∉ db_Held db;
  gu_rate : forall c k, db_Rates db' !! (c, k) = db_Rates db !! (c, k) \/ KRate c k ∈ held;
  gu_held : db_Held db' = db_Held db;
  gu_scopes : db_PoolScopes db ⊆ db_PoolScopes db' /\ db_ClientScopes db ⊆ db_ClientScopes db';
  gu_config : db_Config db' = db_Config db \/ ct_Revision (db_Config db) < ct_Revision (db_Config db')
}.

Lemma same_owner_refl l : same_owner l l.
Proof. done. Qed.

Lemma same_owner_trans l1 l2 l3 : same_owner l1 l2 -> same_owner l2 l3 -> same_owner l1 l3.
Proof. unfold same_owner. intuition congruence. Qed.

Lemma rely_refl c held db : rely c held db db.
Proof. split; try done; [intros id l' _ Hl; by exists l'|intros id o' _ Ho; by exists o'|by destruct c]. Qed.

Lemma rely_trans c held db1 db2 db3 : rely c held db1 db2 -> rely c held db2 db3 -> rely c held db1 db3.
Proof.
  intros A B. split.
  - intros id l Hk Hl. by apply A, B.
  - intros id l Hk Hl. apply (rl_client _ _ _ _ A); [done|]. by apply (rl_client _ _ _ _ B).
  - intros id Hk. by rewrite (rl_lease _ _ _ _ B), (rl_lease _ _ _ _ A).
  - intros id Hk. by rewrite (rl_op _ _ _ _ B), (rl_op _ _ _ _ A).
  - intros id Hk Hn. apply (rl_new _ _ _ _ B); [done|]. by apply (rl_new _ _ _ _ A).
  - intros x k Hk. by rewrite (rl_rate _ _ _ _ B), (rl_rate _ _ _ _ A).
  - etransitivity; [apply A|apply B].
  - intros id l3 Hh H3. destruct (rl_owner _ _ _ _ B id l3) as (l2 & H2 & O2); [by apply A|done|].
    destruct (rl_owner _ _ _ _ A id l2) as (l1 & H1 & O1); [done..|]. exists l1. split; [done|]. by eapply same_owner_trans.
  - intros id o3 Hh H3. destruct (rl_receipt _ _ _ _ B id o3) as (o2 & H2 & O2); [by apply A|done|].
    destruct (rl_receipt _ _ _ _ A id o2) as (o1 & H1 & O1); [done..|]. exists o1. split; [done|]. unfold same_request in *. intuition congruence.
  - destruct (rl_scopes _ _ _ _ A), (rl_scopes _ _ _ _ B). split; by etransitivity.
  - etransitivity; [apply A|apply B].
  - intros Heq. pose proof (rl_revision _ _ _ _ A). pose proof (rl_revision _ _ _ _ B).
    eapply same_config_trans; [apply A|apply B]; lia.
  - pose proof (rl_call _ _ _ _ A) as Ca. pose proof (rl_call _ _ _ _ B) as Cb. destruct c; [|done..]. intros Hn. by apply Cb, Ca.
Qed.

Lemma rely_weaken c held held' db1 db2 : held ⊆ held' -> rely c held' db1 db2 -> rely c held db1 db2.
Proof.
  intros Hs R. split; try apply R.
  - intros id l Hk. apply R. set_solver.
  - intros id l Hk. apply (rl_client _ _ _ _ R). set_solver.
  - intros id Hk. apply (rl_lease _ _ _ _ R). set_solver.
  - intros id Hk. apply (rl_op _ _ _ _ R). set_solver.
  - intros id Hk. apply (rl_new _ _ _ _ R). set_solver.
  - intros x k Hk. apply (rl_rate _ _ _ _ R). set_solver.
Qed.

(** The guarantee of one is what the others rely on. *)
Lemma guar_rely c held held' db db' : held' ## held -> guar held db db' -> rely c held' db db'.
Proof.
  intros Hd G. assert (Hno : forall k, k ∈ held' -> k ∈ held -> False) by set_solver. split.
  - intros id l Hk Hl. destruct (gu_lease _ _ _ G id l Hl) as [?|(H1 & _)]; [done|]. by edestruct Hno.
  - intros id l Hk Hl. destruct (gu_lease _ _ _ G id l Hl) as [?|(_ & H1 & _)]; [done|]. by edestruct Hno.
  - intros id Hk. destruct (gu_row _ _ _ G id); [done|]. by edestruct Hno.
  - intros id Hk. destruct (gu_op _ _ _ G id); [done|]. by edestruct Hno.
  - intros id Hk Hn. destruct (db_Leases db' !! id) as [l|] eqn:Hl; [|done]. destruct (gu_lease _ _ _ G id l Hl) as [?|(_ & _ & [(? & ? & _)|(_ & H1 & _)])];
      [congruence|congruence|by edestruct Hno].
  - intros x k Hk. destruct (gu_rate _ _ _ G x k); [done|]. by edestruct Hno.
  - by rewrite (gu_held _ _ _ G).
  - intros id l' Hh Hl. destruct (gu_lease _ _ _ G id l' Hl) as [?|(_ & _ & [?|(_ & _ & ?)])]; [|done|done]. by exists l'.
  - intros id o' Hh Ho. destruct (gu_receipt _ _ _ G id o' Ho); [done|done].
  - apply G.
  - destruct (gu_config _ _ _ G) as [->|?]; lia.
  - intros Heq. destruct (gu_config _ _ _ G) as [->|?]; [done|lia].
  - destruct c; try done. by rewrite (gu_held _ _ _ G).
Qed.

(** ** The invariant of the tables *)

(** A receipt that is committed. *)
Record op_ok (o : OpRow (FP := FP)) : Prop := {
  ook_decided : op_Decision o <> OpPending;
  ook_reason : op_Decision o = OpRejected <-> is_Some (op_Reason o);
  ook_completion : is_Some (op_CompletedAt o) <-> is_Some (op_Completion o);
  ook_completed : is_Some (op_CompletedAt o) -> op_Decision o = OpAdmitted
}.

(** A lease has a receipt of the same client and pool, admitted and not completed, and the
    scopes that protect it. *)
Record db_ok db : Prop := {
  ok_ops : forall id o, db_Ops db !! id = Some o -> op_ok o;
  ok_leases : forall id l, db_Leases db !! id = Some l -> exists o, db_Ops db !! id = Some o /\ op_ClientID o = lr_ClientID l /\
    op_PoolID o = lr_PoolID l /\ op_Decision o = OpAdmitted /\ op_CompletedAt o = None;
  ok_scopes : forall id l, db_Leases db !! id = Some l -> lr_PoolID l ∈ db_PoolScopes db /\ lr_ClientID l ∈ db_ClientScopes db;
  ok_pools : forall id, is_Some (ct_Pools (db_Config db) !! id) -> id ∈ db_PoolScopes db;
  ok_clients : forall id, is_Some (ct_Clients (db_Config db) !! id) -> id ∈ db_ClientScopes db
}.

(** ** What each commit does *)

Section Seen.
Context (seen : Time -> Db -> Prop).

(** A time the transaction read with [clock_timestamp()]. *)
Definition read_clock (now : Time) : Prop := exists t v, seen t v /\ now = timestamptz t.

(** The lease a new request got: its row and the limits at the time it was acquired. *)
Definition limits_hold (r : AdmissionRequest) (l : LeaseRow) db : Prop :=
  let at_ := lr_AcquiredAt l in
  (0 < ar_PoolGatewayInflightLimit r -> count at_ (of_pool (ar_PoolID r)) db <= ar_PoolGatewayInflightLimit r) /\
  (0 < ar_PoolHighPriorityReserve r -> lower_of_pool (ar_PoolID r) l = true ->
     count at_ (lower_of_pool (ar_PoolID r)) db <= ar_PoolGatewayInflightLimit r - ar_PoolHighPriorityReserve r) /\
  count at_ (of_client (ar_ClientID r)) db <= ar_EffectiveClientLimit r <= ar_ConfiguredClientLimit r.

(** The configuration allows the request. *)
Definition authorised (r : AdmissionRequest) db : Prop :=
  exists c k p, ct_Clients (db_Config db) !! ar_ClientID r = Some c /\ ct_Keys (db_Config db) !! ar_APIKeyID r = Some k /\
    ct_Pools (db_Config db) !! ar_PoolID r = Some p /\ cl_Enabled c = true /\ mp_Enabled p = true /\ ak_RevokedAt k = None /\ ak_ClientID k = ar_ClientID r /\
    cl_MaxConcurrency c = ar_ConfiguredClientLimit r /\ mp_MaxGatewayInflight p = ar_PoolGatewayInflightLimit r /\
    mp_HighPriorityReserve p = ar_PoolHighPriorityReserve r.

Definition fresh_grant (r : AdmissionRequest) (d : AdmissionDecision) db db' : Prop :=
  exists l o, d = granted {| li_LeaseID := ar_LeaseID r; li_ClientID := ar_ClientID r; li_PoolID := ar_PoolID r; li_RequestID := ar_RequestID r;
                             li_ReplicaID := ar_ReplicaID r; li_ExpiresAt := GoTime.Add (lr_AcquiredAt l) (ar_LeaseTTL r); li_TTL := ar_LeaseTTL r |} /\
    lr_ClientID l = ar_ClientID r /\ lr_PoolID l = ar_PoolID r /\ db_Leases db !! ar_LeaseID r = None /\
    db_Leases db' = <[ar_LeaseID r := l]> (db_Leases db) /\ db_Ops db' = <[ar_LeaseID r := o]> (db_Ops db) /\
    op_Fingerprint o = fingerprint r /\ op_Decision o = OpAdmitted /\ op_CompletedAt o = None /\
    limits_hold r l db' /\ (ct_Revision (db_Config db) = ar_ConfigurationRevision r -> authorised r db).

Definition fresh_refusal (r : AdmissionRequest) (d : AdmissionDecision) db db' : Prop :=
  exists o, ad_Lease d = None /\ db_Leases db' = db_Leases db /\ db_Ops db' = <[ar_LeaseID r := o]> (db_Ops db) /\
    op_Fingerprint o = fingerprint r /\ op_Decision o = OpRejected /\ op_Reason o = Some (ad_Reason d) /\ op_RetryAt o = timestamptz <$> ad_RetryAt d /\
    op_Scope o = ad_ConcurrencyScope d.

(** The receipt of a lease that was found lost. *)
Definition lost_receipt (now : Time) (o : OpRow (FP := FP)) : OpRow :=
  {| o with op_LeaseExpiredAt := Some now; op_RetainUntil := Some (retention (op_StartedAt o) now) |}.

(** What a request with the fingerprint of the receipt [o] is answered: the refusal of the
    receipt; that the lease is lost when it was completed or expired; the lease, when it is
    there and not expired at the time the transaction read; otherwise, when a statement
    found no lease or it expired by that time, that it is lost, which the receipt keeps. *)
Definition replayed (r : AdmissionRequest) (o : OpRow (FP := FP)) (d : AdmissionDecision) db db' : Prop :=
  let id := ar_LeaseID r in
  if bool_decide (op_Decision o = OpRejected) then
    db' = db /\ op_Reason o = Some (ad_Reason d) /\
    d = {| ad_Lease := None; ad_Reason := ad_Reason d; ad_RetryAt := op_RetryAt o; ad_ConcurrencyScope := op_Scope o |}
  else if bool_decide (is_Some (op_CompletedAt o)) || bool_decide (is_Some (op_LeaseExpiredAt o)) then db' = db /\ d = refused ReasonLeaseLost
  else exists now, read_clock now /\
    ((exists l, db_Leases db !! id = Some l /\ now < lr_ExpiresAt l /\ db' = db /\ d = granted (identity_of id l (ar_LeaseTTL r))) \/
     ((exists t v, seen t v /\ db_Leases v !! id = None) \/ (exists l, db_Leases db !! id = Some l /\ lr_ExpiresAt l <= now)) /\
       db' = {| db with db_Ops := <[id := lost_receipt now o]> (db_Ops db) |} /\ d = refused ReasonLeaseLost).

(** A conflict is answered when a statement found a receipt of another request. *)
Definition conflicting (r : AdmissionRequest) (d : AdmissionDecision) db db' : Prop :=
  d = refused ReasonIdempotencyConflict /\ db' = db /\
  exists t v o, seen t v /\ db_Ops v !! ar_LeaseID r = Some o /\ op_Fingerprint o <> fingerprint r.

Definition acquire_post (r : AdmissionRequest) (d : AdmissionDecision) db db' : Prop :=
  conflicting r d db db' \/
  match db_Ops db !! ar_LeaseID r with
  | None => (fresh_grant r d db db' \/ fresh_refusal r d db db') /\
      forall c k, db_Rates db' !! (c, k) = db_Rates db !! (c, k) \/ c = ar_ClientID r
  | Some o => op_Fingerprint o = fingerprint r /\ replayed r o d db db'
  end.

(** Whether a lease is released by a completion at [now], or was lost. *)
Definition release_result (now : Time) (lease : option LeaseRow) : CompletionResult :=
  match lease with Some l => if now <? lr_ExpiresAt l then CompletionReleased else CompletionLeaseLost | None => CompletionLeaseLost end.

(** The receipt of a completed lease. *)
Definition completed_receipt (now : Time) (result : CompletionResult) (o : OpRow (FP := FP)) : OpRow :=
  {| o with op_CompletedAt := Some now; op_Completion := Some result; op_RetainUntil := Some (retention (op_StartedAt o) now) |}.

(** The completion of the lease with the receipt [o], at a time the transaction read: the
    lease is deleted and the receipt keeps the result, which says whether the lease was
    there and not expired. *)
Definition completes (item : LeaseCompletion) (o : OpRow (FP := FP)) (res : CompleteResult) db db' : Prop :=
  let id := li_LeaseID (lc_Lease item) in
  exists now, read_clock now /\
    let result := release_result now (db_Leases db !! id) in
    res = complete_result id result CompletionNone ReasonNone /\
    db_Ops db' = <[id := completed_receipt now result o]> (db_Ops db) /\ db_Leases db' = delete id (db_Leases db) /\
    forall c k, db_Rates db' !! (c, k) = db_Rates db !! (c, k) \/ c = op_ClientID o /\ k = TokensPerMinute.

(** What a completion does, by the receipt of its lease. *)
Definition complete_post (item : LeaseCompletion) (res : CompleteResult) db db' : Prop :=
  let id := li_LeaseID (lc_Lease item) in
  let rejected := res = complete_result id CompletionLeaseLost CompletionNone ReasonLeaseLost in
  match db_Ops db !! id with
  | None => db' = db /\ (res = complete_result id CompletionNone CompletionNone ReasonStaleOperation \/
      rejected /\ exists t v o, seen t v /\ db_Ops v !! id = Some o /\ op_Decision o = OpRejected)
  | Some o =>
    if bool_decide (op_Decision o = OpRejected) then db' = db /\ rejected
    else match op_Completion o with
         | Some original => db' = db /\ res = complete_result id CompletionAlreadyCompleted original ReasonNone
         | None => completes item o res db db'
         end
  end.

Definition owns (lease : LeaseIdentity) (l : LeaseRow) : Prop :=
  lr_ClientID l = li_ClientID lease /\ lr_PoolID l = li_PoolID lease /\ lr_RequestID l = li_RequestID lease /\ lr_ReplicaID l = li_ReplicaID lease.

(** [lease] is the identity of the owner of [l], which has not expired, with a time to live. *)
Definition renews (now : Time) (lease : LeaseIdentity) (l : LeaseRow) : Prop := owns lease l /\ now < lr_ExpiresAt l /\ 0 < li_TTL lease.

(** What the caller learns of one lease. *)
Definition renew_answer (now : Time) db (lease : LeaseIdentity) (res : RenewResult) : Prop :=
  (exists l, db_Leases db !! li_LeaseID lease = Some l /\ renews now lease l /\
     res = {| rr_Lease := {| lease with li_ExpiresAt := now + li_TTL lease |}; rr_Reason := ReasonNone |}) \/
  (forall l, db_Leases db !! li_LeaseID lease = Some l -> ~ renews now lease l) /\ res = {| rr_Lease := lease; rr_Reason := ReasonLeaseLost |}.

(** What becomes of the lease [l] with the ID [id]: it is extended by the longest time its
    owner asks for; it is deleted when it has expired, or expires at once; or it stays. *)
Definition renewed (leases : list LeaseIdentity) (now : Time) (id : UUID) (l : LeaseRow) (new : option LeaseRow) : Prop :=
  (exists lease, lease ∈ leases /\ li_LeaseID lease = id /\ renews now lease l /\
     (forall other, other ∈ leases -> li_LeaseID other = id -> renews now other l -> li_TTL other <= li_TTL lease) /\
     new = if now <? timestamptz (now + li_TTL lease) then Some (extend (now + li_TTL lease) l) else None) \/
  (0 <= now -> forall other, other ∈ leases -> li_LeaseID other = id -> ~ renews now other l) /\
    new = if bool_decide (id ∈ li_LeaseID <$> leases) && (lr_ExpiresAt l <=? now) then None else Some l.

(** No lease comes back or changes hands; only its owner extends it, before it expires at
    the time the transaction read. *)
Definition renew_post (leases : list LeaseIdentity) (results : list RenewResult) db db' : Prop :=
  exists now, read_clock now /\ Forall2 (renew_answer now db) leases results /\
    forall id, match db_Leases db !! id with
               | None => db_Leases db' !! id = None
               | Some l => renewed leases now id l (db_Leases db' !! id)
               end.

Definition Post (c : Call) (a : Answer) db db' : Prop :=
  match c, a with
  | CAcquire r, AnsAcquire (inr d) => acquire_post r d db db'
  | CComplete item, AnsComplete (inr res) => complete_post item res db db'
  | CRenew leases, AnsRenew results => renew_post leases results db db'
  | _, _ => True
  end.

Abbreviation wp := (wp rely db_ok seen).
Abbreviation commits := (commits rely db_ok (fun _ => Post) seen).

Lemma wp_commit c a held w db :
  (forall db', rely c held db db' -> db_ok db' -> db_ok (w db') /\ guar held db' (w db') /\ Post c a db' (w db')) ->
  wp c (TxRet (Committed a)) (commits c) held w db.
Proof. intros HQ db' Hr Hi. destruct (HQ db' Hr Hi) as (? & Hg & ?). split_and!; [done| |done]. intros c' held' Hd. by eapply guar_rely. Qed.

Lemma wp_rollback c a held w db : wp c (TxRet (RolledBack a)) (commits c) held w db.
Proof. done. Qed.

(** ** Configuration mutations *)

(** The writes of a mutation before it increments the revision. *)
Record cfg_write held (w : Db -> Db) : Prop := {
  cw_leases : forall d, db_Leases (w d) = db_Leases d;
  cw_ops : forall d, db_Ops (w d) = db_Ops d;
  cw_rates : forall d c k, db_Rates (w d) !! (c, k) = db_Rates d !! (c, k) \/ KRate c k ∈ held;
  cw_held : forall d, db_Held (w d) = db_Held d;
  cw_scopes : forall d, db_PoolScopes d ⊆ db_PoolScopes (w d) /\ db_ClientScopes d ⊆ db_ClientScopes (w d);
  cw_pools : forall d, (forall id, is_Some (ct_Pools (db_Config d) !! id) -> id ∈ db_PoolScopes d) ->
    forall id, is_Some (ct_Pools (db_Config (w d)) !! id) -> id ∈ db_PoolScopes (w d);
  cw_clients : forall d, (forall id, is_Some (ct_Clients (db_Config d) !! id) -> id ∈ db_ClientScopes d) ->
    forall id, is_Some (ct_Clients (db_Config (w d)) !! id) -> id ∈ db_ClientScopes (w d);
  cw_revision : forall d, ct_Revision (db_Config (w d)) = ct_Revision (db_Config d)
}.

(** A part of a mutation. *)
Definition mutates {A : Type} (m : Tx (Db := Db) (Key := Key) A) : Prop := forall c Q held w db, cfg_write held w ->
  (forall a held' w' db', cfg_write held' w' -> Q a held' w' db') -> wp c m Q held w db.

Lemma cfg_write_weaken held held' w : held ⊆ held' -> cfg_write held w -> cfg_write held' w.
Proof. intros Hs Hw. split; try apply Hw. intros d c k. destruct (cw_rates _ _ Hw d c k); [by left|right; set_solver]. Qed.

Lemma cfg_write_comp held w f : cfg_write held f -> cfg_write held w -> cfg_write held (fun d => f (w d)).
Proof.
  intros Hf Hw. split.
  - intros d. by rewrite (cw_leases _ _ Hf), (cw_leases _ _ Hw).
  - intros d. by rewrite (cw_ops _ _ Hf), (cw_ops _ _ Hw).
  - intros d c k. destruct (cw_rates _ _ Hf (w d) c k) as [->|?]; [apply Hw|by right].
  - intros d. by rewrite (cw_held _ _ Hf), (cw_held _ _ Hw).
  - intros d. destruct (cw_scopes _ _ Hf (w d)), (cw_scopes _ _ Hw d). split; by etransitivity.
  - intros d Hd. by apply Hf, Hw.
  - intros d Hd. apply (cw_clients _ _ Hf). by apply (cw_clients _ _ Hw).
  - intros d. by rewrite (cw_revision _ _ Hf), (cw_revision _ _ Hw).
Qed.

Lemma mutates_ret {A : Type} (a : A) : mutates (TxRet a).
Proof. intros c Q held w db Hw HQ. by apply HQ. Qed.

Lemma mutates_bind {A B : Type} (m : Tx A) (k : A -> Tx B) : mutates m -> (forall a, mutates (k a)) -> mutates (m ≫= k).
Proof. intros Hm Hk c Q held w db Hw HQ. apply tx_wp_bind, Hm; [done|]. intros a held' w' db' Hw'. by apply Hk. Qed.

Lemma mutates_query {A : Type} (f : Time -> Db -> A) : mutates (query f).
Proof. intros c Q held w db Hw HQ. apply wp_query. intros now db' Hr Hi. by apply HQ. Qed.

Lemma mutates_select {A : Type} key (row : Db -> option A) : mutates (select_for_update key row).
Proof. intros c Q held w db Hw HQ. apply wp_select. intros db' Hr Hi. apply HQ. eapply cfg_write_weaken; [|done]. set_solver. Qed.

Lemma mutates_lock keys : mutates (lock_all keys).
Proof.
  intros c Q held w db Hw HQ. apply wp_lock_rows; [apply rely_trans|apply rely_refl|apply rely_weaken|].
  intros held' db' Hr Hs _. apply HQ. by eapply cfg_write_weaken.
Qed.

Lemma mutates_exec f : (forall held, cfg_write held f) -> mutates (exec f).
Proof. intros Hf c Q held w db Hw HQ. apply wp_exec. intros db' Hr Hi. apply HQ. by apply cfg_write_comp. Qed.

Lemma mutates_insert key absent f : (forall held, cfg_write held f) -> mutates (insert_new key absent f).
Proof.
  intros Hf c Q held w db Hw HQ. apply wp_insert; intros db' Hr Hi _; apply HQ; [done|]. apply cfg_write_comp; [done|].
  eapply cfg_write_weaken; [|done]. set_solver.
Qed.

Lemma mutation_commits c fn db : mutates fn -> match c with CAcquire _ | CRenew _ | CComplete _ => False | _ => True end ->
  wp c (mutation fn) (commits c) ∅ (fun d => d) db.
Proof.
  intros Hfn Hc. apply tx_wp_bind, Hfn; [by split; eauto|]. intros [e|] held w db1 Hw; [done|]. apply wp_stmt. intros busy now db2 Hr Hi _.
  apply wp_commit. intros db' Hr' Hi'. split_and!; [split; cbn|split; cbn|by destruct c].
  - intros id o. rewrite (cw_ops _ _ Hw). apply Hi'.
  - intros id l. rewrite (cw_leases _ _ Hw), (cw_ops _ _ Hw). apply Hi'.
  - intros id l. rewrite (cw_leases _ _ Hw). intros Hl. destruct (ok_scopes _ Hi' id l Hl). destruct (cw_scopes _ _ Hw db'). set_solver.
  - apply (cw_pools _ _ Hw), Hi'.
  - apply (cw_clients _ _ Hw), Hi'.
  - intros id l'. rewrite (cw_leases _ _ Hw). by left.
  - intros id. rewrite (cw_leases _ _ Hw). by left.
  - intros id. rewrite (cw_ops _ _ Hw). by left.
  - intros id o'. rewrite (cw_ops _ _ Hw). intros Ho. left. by exists o'.
  - intros x k. destruct (cw_rates _ _ Hw db' x k); [by left|right; set_solver].
  - apply Hw.
  - apply Hw.
  - right. rewrite (cw_revision _ _ Hw). lia.
Qed.

Lemma set_config_write held f : (forall t, ct_Revision (f t) = ct_Revision t) ->
  (forall t id, is_Some (ct_Pools (f t) !! id) -> is_Some (ct_Pools t !! id)) ->
  (forall t id, is_Some (ct_Clients (f t) !! id) -> is_Some (ct_Clients t !! id)) -> cfg_write held (set_config (FP := FP) f).
Proof. intros H1 H2 H3. split; cbn; intros d; try done; [by left|by eauto|by eauto]. Qed.

Lemma is_Some_alter {A : Type} (f : A -> A) i j (m : gmap Z A) : is_Some (alter f i m !! j) -> is_Some (m !! j).
Proof. by rewrite lookup_alter_is_Some. Qed.

Lemma is_Some_delete {A : Type} i j (m : gmap Z A) : is_Some (delete i m !! j) -> is_Some (m !! j).
Proof. intros [x Hx]. apply lookup_delete_Some in Hx as [_ ?]. by exists x. Qed.

Create HintDb mutates.
#[local] Hint Resolve mutates_ret mutates_query mutates_select mutates_lock : mutates.

Ltac mutating :=
  repeat first
    [progress (intros; cbv beta zeta)
    |apply mutates_bind|apply mutates_exec; intros ?; apply set_config_write|solve [eauto with mutates]
    |match goal with |- mutates (match ?x with _ => _ end) => destruct x end
    |match goal with |- mutates (if ?x then _ else _) => destruct x end].

Lemma mutates_access client pools : mutates (replaceAccess client pools).
Proof. unfold replaceAccess. mutating; try done. Qed.

Lemma mutates_every_pool : mutates lock_every_pool.
Proof. unfold lock_every_pool. mutating. Qed.

Lemma mutates_insert_client cl : mutates (insert_client cl).
Proof.
  apply mutates_insert. intros held. split; cbn; intros d; try done; [by left|set_solver|].
  intros Hd id [x Hx]. apply lookup_insert_Some in Hx as [[<- _]|[_ Hx]]; [set_solver|]. apply elem_of_union_r, Hd. by exists x.
Qed.

Lemma mutates_insert_pool p : mutates (insert_pool p).
Proof.
  apply mutates_insert. intros held. split; cbn; intros d; try done; [by left|set_solver|].
  intros Hd id [x Hx]. apply lookup_insert_Some in Hx as [[<- _]|[_ Hx]]; [set_solver|]. apply elem_of_union_r, Hd. by exists x.
Qed.

Lemma mutates_delete_rates client : mutates (delete_rates client).
Proof.
  intros c Q held w db Hw HQ. apply wp_stmt. intros busy now db' Hr Hi _. apply HQ.
  set (kinds := filter (fun kind => is_Some (db_Rates (w db') !! (client, kind))) [RatePerMinute; TokensPerMinute]).
  apply (cfg_write_comp _ w (fun d => {| d with db_Rates := foldr (fun kind => delete (client, kind)) (db_Rates d) kinds |})); [|eapply cfg_write_weaken; [|done]; set_solver]. clearbody kinds. split; cbn; intros d; try done.
  intros c' k. destruct (decide (c' = client /\ k ∈ kinds)) as [[-> Hk]|Hn].
  - right. apply elem_of_union_r, elem_of_list_to_set, list_elem_of_fmap. by exists k.
  - left. induction kinds as [|k' kinds IH]; cbn; [done|]. rewrite lookup_delete_ne; [apply IH; set_solver|]. intros [= -> ->]. set_solver.
Qed.

Lemma create_client_commits id p at_ db : wp (CCreateClient id p at_) (CreateClient id p at_) (commits (CCreateClient id p at_)) ∅ (fun d => d) db.
Proof.
  unfold CreateClient. destruct (Client_Validate _) as [e|v]; [done|]. apply mutation_commits; [|done].
  apply mutates_bind; [apply mutates_insert_client|]. intros []; [apply mutates_access|apply mutates_ret].
Qed.

Lemma update_client_commits id p at_ db : wp (CUpdateClient id p at_) (UpdateClient id p at_) (commits (CUpdateClient id p at_)) ∅ (fun d => d) db.
Proof.
  apply mutation_commits; [|done]. apply mutates_bind; [apply mutates_every_pool|]. intros _. unfold lock_client, select_client.
  mutating; eauto using is_Some_alter, mutates_access.
Qed.

Lemma delete_client_commits id db : wp (CDeleteClient id) (DeleteClient id) (commits (CDeleteClient id)) ∅ (fun d => d) db.
Proof.
  apply mutation_commits; [|done]. apply mutates_bind; [apply mutates_every_pool|]. intros _. unfold lock_client, select_client.
  mutating; eauto using is_Some_delete, mutates_delete_rates.
Qed.

Lemma create_pool_commits id p at_ db : wp (CCreatePool id p at_) (CreatePool id p at_) (commits (CCreatePool id p at_)) ∅ (fun d => d) db.
Proof.
  unfold CreatePool. destruct (Pool_Validate _) as [e|v]; [done|]. apply mutation_commits; [|done].
  apply mutates_bind; [apply mutates_insert_pool|]. intros []; apply mutates_ret.
Qed.

Lemma update_pool_commits id p at_ db : wp (CUpdatePool id p at_) (UpdatePool id p at_) (commits (CUpdatePool id p at_)) ∅ (fun d => d) db.
Proof. apply mutation_commits; [|done]. unfold lock_pool, select_pool. mutating; eauto using is_Some_alter. Qed.

Lemma delete_pool_commits id db : wp (CDeletePool id) (DeletePool id) (commits (CDeletePool id)) ∅ (fun d => d) db.
Proof. apply mutation_commits; [|done]. unfold lock_pool, select_pool. mutating; eauto using is_Some_delete. Qed.

Lemma create_key_commits key db : wp (CCreateAPIKey key) (CreateAPIKey key) (commits (CCreateAPIKey key)) ∅ (fun d => d) db.
Proof. apply mutation_commits; [|done]. apply mutates_bind; [|mutating]. apply mutates_insert. intros held. by apply set_config_write. Qed.

Lemma revoke_key_commits id db : wp (CRevokeAPIKey id) (RevokeAPIKey id) (commits (CRevokeAPIKey id)) ∅ (fun d => d) db.
Proof. apply mutation_commits; [|done]. unfold clock_timestamp. mutating; done. Qed.

(** ** Cleanup and renewal *)

Lemma guar_refl held db : guar held db db.
Proof. split; intros; eauto. left. eexists. split; [done|done]. Qed.

Lemma same_commit c a held db' : db_ok db' -> Post c a db' db' -> db_ok db' /\ guar held db' db' /\ Post c a db' db'.
Proof. intros. split_and!; [done|apply guar_refl|done]. Qed.

Lemma elem_of_rows_in key keys db : key ∈ rows_in keys db <-> key ∈ keys /\ row_present key db = true.
Proof. unfold rows_in. rewrite elem_of_list_to_set, list_elem_of_filter. tauto. Qed.

Lemma wp_exec_on {A : Type} c (choose : Db -> A) keys write Q held w db :
  (forall db', rely c held db db' -> db_ok db' ->
     Q (choose (w db')) (held ∪ rows_in (keys (choose (w db'))) (w db')) (fun d => write (choose (w db')) (w d)) db') ->
  wp c (exec_on choose keys write) Q held w db.
Proof. intros HQ. apply wp_stmt. intros busy now db' Hr Hi _. by apply HQ. Qed.

Lemma wp_lock_all c keys Q held w db :
  (forall held' db', rely c held db db' -> held ⊆ held' ->
     (forall key, key ∈ keys -> key ∈ held' \/
        exists dm, rely c held db dm /\ rely c held dm db' /\ db_ok dm /\ row_present key (w dm) = false) -> Q tt held' w db') ->
  wp c (lock_all keys) Q held w db.
Proof. apply wp_lock_rows; [apply rely_trans|apply rely_refl|apply rely_weaken]. Qed.

Lemma and_iff_1 (P Q R : Prop) : (P -> Q <-> R) -> P /\ Q <-> P /\ R.
Proof. tauto. Qed.

Lemma lookup_foldr_delete {A : Type} (ids : list UUID) (m : gmap UUID A) id :
  foldr delete m ids !! id = if decide (id ∈ ids) then None else m !! id.
Proof.
  induction ids as [|x ids IH]; cbn; [by rewrite decide_False by apply not_elem_of_nil|].
  destruct (decide (id = x)) as [->|Hne]; [by rewrite lookup_delete_eq, decide_True by (by left)|].
  rewrite lookup_delete_ne, IH by done. destruct (decide (id ∈ ids)), (decide (id ∈ x :: ids)); set_solver.
Qed.

Lemma lookup_expire_ops ids now db id :
  db_Ops (expire_ops ids now db) !! id = (fun o => if decide (id ∈ ids) then expire_op now o else o) <$> db_Ops db !! id.
Proof. cbn. rewrite map_lookup_imap. destruct (db_Ops db !! id); cbn; [|done]. f_equal. by case_decide; case_bool_decide. Qed.

Lemma lookup_delete_leases ids db id : db_Leases (delete_leases ids db) !! id = if decide (id ∈ ids) then None else db_Leases db !! id.
Proof. apply lookup_foldr_delete. Qed.

Lemma expire_op_ok now (o : OpRow (FP := FP)) : op_ok o -> op_ok (expire_op now o).
Proof. intros [H1 H2 H3 H4]. unfold expire_op. case_bool_decide; by split. Qed.

Lemma expire_op_same now (o : OpRow (FP := FP)) : same_request o (expire_op now o) /\ op_Decision (expire_op now o) = op_Decision o /\
  op_CompletedAt (expire_op now o) = op_CompletedAt o.
Proof. unfold expire_op. by case_bool_decide. Qed.

(** Expiring leases whose rows and receipts are locked. *)
Lemma expire_write held ids now db : (forall id, id ∈ ids -> KLease id ∈ held /\ KOp id ∈ held) -> db_ok db ->
  db_ok (expire_ops ids now (delete_leases ids db)) /\ guar held db (expire_ops ids now (delete_leases ids db)).
Proof.
  intros Hk Hi. set (db' := expire_ops ids now (delete_leases ids db)).
  assert (Hops : forall id, db_Ops db' !! id = (fun o => if decide (id ∈ ids) then expire_op now o else o) <$> db_Ops db !! id)
    by (intros id; unfold db'; by rewrite lookup_expire_ops).
  assert (Hls : forall id, db_Leases db' !! id = if decide (id ∈ ids) then None else db_Leases db !! id)
    by (intros id; apply (lookup_delete_leases ids db id)).
  split; split; try done.
  - intros id o. rewrite Hops. intros (o0 & Ho & ->)%fmap_Some. pose proof (ok_ops _ Hi id o0 Ho). case_decide; [by apply expire_op_ok|done].
  - intros id l. rewrite Hls, Hops. case_decide as Hin; [done|]. intros Hl. destruct (ok_leases _ Hi id l Hl) as (o & Ho & Hrest). exists o. by rewrite Ho.
  - intros id l. rewrite Hls. case_decide; [done|]. apply Hi.
  - apply Hi.
  - apply Hi.
  - intros id l'. rewrite Hls. case_decide; [done|]. by left.
  - intros id. rewrite Hls. case_decide as Hin; [right; by apply Hk|by left].
  - intros id. rewrite Hops. case_decide as Hin; [right; by apply Hk|left]. by destruct (db_Ops db !! id).
  - intros id o'. rewrite Hops. intros (o & Ho & ->)%fmap_Some. left. exists o. split; [done|]. case_decide; [apply expire_op_same|done].
  - by left.
  - by left.
Qed.

Lemma elem_of_expired_ids id ids now db : id ∈ expired_ids ids now db <-> id ∈ ids /\ exists l, db_Leases db !! id = Some l /\ lr_ExpiresAt l <= now.
Proof.
  unfold expired_ids. rewrite list_elem_of_filter, (comm and). apply and_iff_1. intros _. destruct (db_Leases db !! id) as [l|]; [|naive_solver].
  split; [intros H; exists l; split; [done|lia]|]. intros (? & [= <-] & ?). lia.
Qed.

Lemma lease_present db id : is_Some (db_Leases db !! id) -> row_present (KLease id) db = true.
Proof. intros Hl. by apply bool_decide_eq_true. Qed.

Lemma op_present db id : db_ok db -> is_Some (db_Leases db !! id) -> row_present (KOp id) db = true.
Proof. intros Hi [l Hl]. destruct (ok_leases _ Hi id l Hl) as (o & Ho & _). apply bool_decide_eq_true. by exists o. Qed.

Lemma cleanup_expired_commits items db : wp (CCleanupExpired items) (cleanupExpired items) (commits (CCleanupExpired items)) ∅ (fun d => d) db.
Proof.
  unfold cleanupExpired. apply tx_wp_bind, wp_lock_all. intros h1 d1 _ _ _. apply tx_wp_bind, wp_lock_all. intros h2 d2 _ _ _.
  apply tx_wp_bind, wp_lock_all. intros h3 d3 _ _ _. apply tx_wp_bind, wp_lock_all. intros h4 d4 _ _ _. apply tx_wp_bind, wp_query. intros now db1 _ _.
  apply tx_wp_bind, wp_exec_on. intros db2 _ Hi2. set (ids := expired_ids _ _ db2).
  assert (Hexp : forall id, id ∈ ids -> is_Some (db_Leases db2 !! id)).
  { intros id (_ & l & Hl & _)%elem_of_expired_ids. by exists l. }
  clearbody ids. apply tx_wp_bind. case_bool_decide as Hnil.
  { subst ids. apply tx_wp_ret, wp_commit. intros db' Hr Hi. split_and!; [by destruct db'|destruct db'; apply guar_refl|done]. }
  apply wp_exec_on. intros db3 Hr3 Hi3. apply wp_commit. intros db' Hr' Hi'.
  assert (Hk : forall id, id ∈ ids -> KLease id ∈ rows_in (KLease <$> ids) db2).
  { intros id Hin. apply elem_of_rows_in. split; [apply list_elem_of_fmap; by exists id|]. by apply lease_present, Hexp. }
  cbn beta. edestruct (expire_write (h4 ∪ rows_in (KLease <$> ids) db2 ∪ rows_in (KOp <$> ids) (delete_leases ids db3)) ids (timestamptz now) db') as [Hok Hg]; [|done|].
  - intros id Hin. split; [set_solver|]. apply elem_of_union_r, elem_of_rows_in. split; [apply list_elem_of_fmap; by exists id|].
    apply (op_present db3); [done|]. rewrite (rl_lease _ _ _ _ Hr3) by set_solver. by apply Hexp.
  - split_and!; done.
Qed.

Lemma cleanup_receipts_commits batch db : wp (CCleanupReceipts batch) (cleanupAdmissionReceipts batch) (commits (CCleanupReceipts batch)) ∅ (fun d => d) db.
Proof.
  unfold cleanupAdmissionReceipts. apply tx_wp_bind, wp_stmt. intros busy now db1 _ _ _. apply tx_wp_ret. set (receipts := removable_receipts _ _ _ _).
  clearbody receipts. apply tx_wp_bind. case_bool_decide as Hnil.
  { apply tx_wp_ret, wp_commit. intros db' Hr Hi. split_and!; [done|apply guar_refl|done]. }
  apply tx_wp_bind, wp_query. intros now2 db2 _ _. apply tx_wp_bind, wp_exec_on. intros db3 Hr3 Hi3. apply tx_wp_ret, wp_commit. intros db' Hr' Hi'.
  set (ids := filter _ receipts) in *. set (held := _ ∪ rows_in _ _) in *.
  assert (Hids : forall id, id ∈ ids -> KOp id ∈ held /\ db_Leases db3 !! id = None).
  { intros id Hin. pose proof Hin as [Hrem _]%list_elem_of_filter. unfold removable in Hrem. destruct (db_Ops db3 !! id) as [o|] eqn:Ho; [|done]. b2p.
    split; [|done]. apply elem_of_union_r, elem_of_rows_in. split; [apply list_elem_of_fmap; by exists id|]. apply bool_decide_eq_true. by exists o. }
  assert (Hops : forall id, db_Ops (delete_ops ids db') !! id = if decide (id ∈ ids) then None else db_Ops db' !! id) by (intros; apply lookup_foldr_delete).
  split_and!; [split; try apply Hi'|split; try done|done].
  - intros id o. rewrite Hops. case_decide; [done|]. apply Hi'.
  - intros id l Hl. rewrite Hops. case_decide as Hin; [|by apply Hi']. destruct (Hids id Hin) as [Hk Hn]. pose proof (rl_new _ _ _ _ Hr' id Hk Hn) as E.
    cbn in Hl. congruence.
  - by left.
  - by left.
  - intros id. rewrite Hops. case_decide as Hin; [right; by apply Hids|by left].
  - intros id o'. rewrite Hops. case_decide; [done|]. intros Ho. left. by exists o'.
  - by left.
  - by left.
Qed.

Lemma guar_trans held db1 db2 db3 : guar held db1 db2 -> guar held db2 db3 ->
  (forall id l, db_Leases db3 !! id = Some l -> db_Leases db2 !! id = Some l) -> (forall id o, db_Ops db3 !! id = Some o -> is_Some (db_Ops db2 !! id)) ->
  guar held db1 db3.
Proof.
  intros A B Hl Ho. split.
  - intros id l' H3. by apply A, Hl.
  - intros id. destruct (gu_row _ _ _ B id) as [->|?]; [apply A|by right].
  - intros id. destruct (gu_op _ _ _ B id) as [->|?]; [apply A|by right].
  - intros id o3 H3. destruct (Ho id o3 H3) as [o2 H2]. destruct (gu_receipt _ _ _ B id o3 H3) as [(o2' & H2' & Hs)|Hn].
    + destruct (gu_receipt _ _ _ A id o2' H2') as [(o1 & H1 & Hs1)|?]; [|by right]. left. exists o1. split; [done|].
      unfold same_request in *. intuition congruence.
    + right. by rewrite <- (gu_held _ _ _ A).
  - intros c k. destruct (gu_rate _ _ _ B c k) as [->|?]; [apply A|by right].
  - by rewrite (gu_held _ _ _ B), (gu_held _ _ _ A).
  - destruct (gu_scopes _ _ _ A), (gu_scopes _ _ _ B). split; by etransitivity.
  - destruct (gu_config _ _ _ A) as [EA|HA], (gu_config _ _ _ B) as [EB|HB]; [left; congruence|right..]; rewrite ?EB in *; rewrite <- ?EA in *; lia.
Qed.

Lemma lookup_extend updates db id :
  db_Leases (extend_leases updates db) !! id = (fun l => match updates !! id with Some at_ => extend at_ l | None => l end) <$> db_Leases db !! id.
Proof. cbn. rewrite map_lookup_imap. by destruct (db_Leases db !! id). Qed.

(** Extending leases that are locked with their scopes. *)
Lemma extend_write held updates db : db_ok db ->
  (forall id l, is_Some (updates !! id) -> db_Leases db !! id = Some l -> KLease id ∈ held /\ KPool (lr_PoolID l) ∈ held /\ KClient (lr_ClientID l) ∈ held) ->
  db_ok (extend_leases updates db) /\ guar held db (extend_leases updates db).
Proof.
  intros Hi Hk. split; split; try done; try apply Hi.
  - intros id l. rewrite lookup_extend. intros (l0 & Hl & ->)%fmap_Some. destruct (ok_leases _ Hi id l0 Hl) as (o & Ho & Hrest). exists o.
    split; [done|]. by destruct (updates !! id).
  - intros id l. rewrite lookup_extend. intros (l0 & Hl & ->)%fmap_Some. pose proof (ok_scopes _ Hi id l0 Hl). by destruct (updates !! id).
  - intros id l'. rewrite lookup_extend. intros (l0 & Hl & ->)%fmap_Some. destruct (updates !! id) as [at_|] eqn:Hu; [|by left]. right.
    destruct (Hk id l0) as (_ & Hp & Hc); [by exists at_|done|]. split_and!; [done|done|]. left. by exists l0.
  - intros id. rewrite lookup_extend. destruct (db_Leases db !! id) as [l|] eqn:Hl; cbn; [|by left]. destruct (updates !! id) as [at_|] eqn:Hu; [|by left].
    right. apply (Hk id l); [by exists at_|done].
  - by left.
  - intros id o' Ho. left. by exists o'.
  - by left.
  - by left.
Qed.

(** The new expiry of a lease is the latest that is asked for by an identity that can renew
    it; without one, none is after the zero time. *)
Lemma renew_updates_spec byID now leases id :
  match renew_updates byID now leases !! id with
  | Some at_ => 0 < at_ /\ (exists lease, lease ∈ leases /\ li_LeaseID lease = id /\ renewable lease (byID !! id) now = true /\ at_ = now + li_TTL lease) /\
      forall lease, lease ∈ leases -> li_LeaseID lease = id -> renewable lease (byID !! id) now = true -> now + li_TTL lease <= at_
  | None => forall lease, lease ∈ leases -> li_LeaseID lease = id -> renewable lease (byID !! id) now = true -> now + li_TTL lease <= 0
  end.
Proof.
  unfold renew_updates. set (body := fun (updates : gmap UUID Time) lease => _).
  assert (Hgen : fold_left body leases ∅ = foldr (fun lease m => body m lease) ∅ (reverse leases)) by (unfold reverse; rewrite <- rev_alt; symmetry; apply (fold_left_rev_right (fun lease m => body m lease))).
  rewrite Hgen. clear Hgen. enough (Hrev : forall todo, match foldr (fun lease m => body m lease) ∅ todo !! id with
    | Some at_ => 0 < at_ /\ (exists lease, lease ∈ todo /\ li_LeaseID lease = id /\ renewable lease (byID !! id) now = true /\ at_ = now + li_TTL lease) /\
        forall lease, lease ∈ todo -> li_LeaseID lease = id -> renewable lease (byID !! id) now = true -> now + li_TTL lease <= at_
    | None => forall lease, lease ∈ todo -> li_LeaseID lease = id -> renewable lease (byID !! id) now = true -> now + li_TTL lease <= 0
    end).
  { specialize (Hrev (reverse leases)). revert Hrev. case_match; setoid_rewrite elem_of_reverse; done. }
  intros todo. induction todo as [|lease todo IH]; cbn [foldr]; [rewrite lookup_empty; intros ? []%not_elem_of_nil|].
  set (m := foldr _ ∅ todo) in *. clearbody m. unfold body at 1.
  destruct (renewable lease (byID !! li_LeaseID lease) now) eqn:Hr.
  2: { destruct (m !! id) as [at_|]; [destruct IH as (? & (x & ? & ?) & IH); split_and!; [done|exists x; split; [by right|done]|]|];
       intros other [->|Hin]%elem_of_cons Hid Hother; try (rewrite Hid in Hr; congruence); by apply IH. }
  cbv beta iota zeta. unfold GoTime.After, GoTime.Add. destruct (decide (li_LeaseID lease = id)) as [Hid|Hid].
  2: { match goal with |- match ?x with _ => _ end => assert (E : x = m !! id) by (destruct (_ <? _); [by apply lookup_insert_ne|done]); rewrite E end.
       destruct (m !! id) as [at_|]; [destruct IH as (? & (x & ? & ?) & IH); split_and!; [done|exists x; split; [by right|done]|]|];
       intros other [->|Hin]%elem_of_cons ? Hother; try done; by apply IH. }
  rewrite Hid in *. destruct (Z.ltb_spec (default GoTime.zero (m !! id)) (now + li_TTL lease)) as [Hlt|Hge].
  - rewrite lookup_insert_eq. assert (0 < now + li_TTL lease) by (destruct (m !! id); cbn in Hlt; [lia|unfold GoTime.zero in Hlt; lia]).
    split_and!; [done|exists lease; split; [by left|done]|]. intros other [->|Hin]%elem_of_cons ? Hother; [done|].
    destruct (m !! id) as [at_|]; cbn in Hlt; [destruct IH as (_ & _ & IH)|]; pose proof (IH other Hin ltac:(done) Hother); lia.
  - destruct (m !! id) as [at_|]; cbn in Hge; unfold GoTime.zero in *.
    + destruct IH as (? & (x & ? & ?) & IH). split_and!; [done|exists x; split; [by right|done]|]. intros other [->|Hin]%elem_of_cons ? Hother; [done|by apply IH].
    + intros other [->|Hin]%elem_of_cons ? Hother; [done|by apply IH].
Qed.

Lemma updates_named byID now leases id : is_Some (renew_updates byID now leases !! id) -> id ∈ li_LeaseID <$> leases.
Proof.
  pose proof (renew_updates_spec byID now leases id) as Hu. destruct (renew_updates byID now leases !! id) as [at_|]; [|by intros [? ?]].
  intros _. destruct Hu as (_ & (lease & Hin & <- & _) & _). apply list_elem_of_fmap. by exists lease.
Qed.

Lemma lookup_rows_of ids db id l : rows_of ids db !! id = Some l <-> id ∈ ids /\ db_Leases db !! id = Some l.
Proof. unfold rows_of. rewrite map_lookup_filter_Some. tauto. Qed.

Lemma elem_of_sorted_ids x X : x ∈ sorted_ids X <-> x ∈ X.
Proof. unfold sorted_ids. by rewrite merge_sort_Permutation, elem_of_elements. Qed.

Lemma elem_of_sorted_uuids x X : x ∈ sorted_uuids X <-> x ∈ X.
Proof. unfold sorted_uuids. by rewrite merge_sort_Permutation, elem_of_elements. Qed.

(** A lease that its requester holds was there before, if it is there. *)
Lemma held_before c held db db' id l' : rely c held db db' -> id ∈ db_Held db -> db_Leases db' !! id = Some l' ->
  exists l, db_Leases db !! id = Some l /\ same_owner l l'.
Proof. intros R. apply R. Qed.

Lemma renewable_renews lease l now : renewable lease (Some l) now = true <-> renews now lease l.
Proof.
  unfold renewable, renews, owns, GoTime.After. split; [intros H; b2p; split_and!; (done || lia)|].
  intros ((-> & -> & -> & ->) & ? & ?). rewrite !Z.eqb_refl, !bool_decide_eq_true_2 by done. cbn. apply andb_true_iff. split; [lia|]. apply negb_true_iff. lia.
Qed.

Lemma lookup_rows_in ids db id : id ∈ ids -> rows_of ids db !! id = db_Leases db !! id.
Proof.
  intros Hin. apply option_eq. intros l. rewrite lookup_rows_of. tauto.
Qed.

(** The scopes of the leases of a list of IDs are locked. *)
Definition scopes_locked (ids : list UUID) held db : Prop :=
  forall id l, id ∈ ids -> db_Leases db !! id = Some l -> KPool (lr_PoolID l) ∈ held /\ KClient (lr_ClientID l) ∈ held.

Lemma scopes_locked_rely c ids held held' db db' : (forall id, id ∈ ids -> id ∈ db_Held db) -> rely c held' db db' -> held ⊆ held' ->
  scopes_locked ids held db -> scopes_locked ids held' db'.
Proof.
  intros Hh Hr Hs Hl id l' Hin H'. destruct (held_before _ _ _ _ id l' Hr (Hh id Hin) H') as (l & H0 & Ho).
  destruct (Hl id l Hin H0). destruct Ho as (-> & -> & _). set_solver.
Qed.

(** Locking the scopes of the leases. *)
Lemma lock_scopes c ids Q db : (forall id, id ∈ ids -> id ∈ db_Held db) ->
  (forall held' db', rely c ∅ db db' -> scopes_locked ids held' db' -> Q tt held' (fun d => d) db') ->
  wp c (lock_owners ids) Q ∅ (fun d => d) db.
Proof.
  intros Hh HQ. apply tx_wp_bind, wp_query. intros _ db1 Hr1 Hi1. cbv zeta. set (rows := (map_to_list (rows_of ids db1)).*2).
  assert (Hrows : forall id l, id ∈ ids -> db_Leases db1 !! id = Some l -> l ∈ rows).
  { intros id l Hin Hl. apply list_elem_of_fmap. exists (id, l). split; [done|]. by apply elem_of_map_to_list, lookup_rows_of. }
  clearbody rows. apply tx_wp_bind, wp_lock_all. intros h2 db2 Hr2 _ Hp. apply wp_lock_all. intros h3 db3 Hr3 Hs3 Hc. apply HQ.
  { eapply rely_trans; [exact Hr1|]. eapply rely_trans; [exact Hr2|]. eapply rely_weaken; [|exact Hr3]. set_solver. }
  intros id l3 Hin H3. assert (Hh1 : id ∈ db_Held db1) by (apply Hr1, Hh, Hin).
  destruct (held_before _ _ _ _ id l3 Hr3) as (l2 & H2 & O2); [by apply Hr2|done|]. destruct (held_before _ _ _ _ id l2 Hr2 Hh1 H2) as (l1 & H1 & O1).
  destruct O2 as (-> & -> & _), O1 as (-> & -> & _). pose proof (Hrows id l1 Hin H1) as Hrow. destruct (ok_scopes _ Hi1 id l1 H1) as [Sp Sc]. split.
  - destruct (Hp (KPool (lr_PoolID l1))) as [?|(dm & Hd & _ & _ & Hno)]; [|set_solver|].
    + apply list_elem_of_fmap. eexists. split; [done|]. apply elem_of_sorted_ids, elem_of_list_to_set, list_elem_of_fmap. by exists l1.
    + cbn in Hno. b2p. destruct Hno. by apply Hd.
  - destruct (Hc (KClient (lr_ClientID l1))) as [?|(dm & Hd & _ & _ & Hno)]; [|done|].
    + apply list_elem_of_fmap. eexists. split; [done|]. apply elem_of_sorted_ids, elem_of_list_to_set, list_elem_of_fmap. by exists l1.
    + cbn in Hno. b2p. destruct Hno. apply (rl_scopes _ _ _ _ Hd), (rl_scopes _ _ _ _ Hr2), Sc.
Qed.

Lemma extend_present updates db id : is_Some (db_Leases (extend_leases updates db) !! id) -> is_Some (db_Leases db !! id).
Proof. rewrite lookup_extend, fmap_is_Some. done. Qed.

(** What a renewal knows of the leases it names when it writes. *)
Record renewing (leases : list LeaseIdentity) (byID : gmap UUID LeaseRow) held db : Prop := {
  rn_known : forall id, id ∈ li_LeaseID <$> leases -> id ∈ db_Held db;
  rn_scopes : scopes_locked (li_LeaseID <$> leases) held db;
  rn_locked : forall id, id ∈ li_LeaseID <$> leases -> is_Some (db_Leases db !! id) -> KLease id ∈ held;
  rn_rows : rows_of (li_LeaseID <$> leases) db = byID
}.

Lemma renewing_rely leases byID held held' db db' : rely (CRenew leases) held' db db' -> held ⊆ held' ->
  renewing leases byID held db -> renewing leases byID held' db'.
Proof.
  intros Hr Hs [Hk Hsc Hl Hb].
  assert (Hsame : forall id, id ∈ li_LeaseID <$> leases -> db_Leases db' !! id = db_Leases db !! id).
  { intros id Hin. destruct (db_Leases db !! id) as [l|] eqn:E; [rewrite <- E; apply (rl_lease _ _ _ _ Hr), Hs, Hl; eauto|].
    destruct (db_Leases db' !! id) as [l'|] eqn:E'; [|done]. destruct (held_before _ _ _ _ id l' Hr (Hk id Hin) E') as (? & ? & _). congruence. }
  split.
  - intros id Hin. by apply Hr, Hk.
  - by eapply scopes_locked_rely.
  - intros id Hin. rewrite Hsame by done. intros ?. by apply Hs, Hl.
  - rewrite <- Hb. apply map_eq. intros id. apply option_eq. intros l. rewrite !lookup_rows_of. split; intros [Hin Hi]; (split; [done|]).
    + by rewrite <- Hsame.
    + by rewrite Hsame.
Qed.

Lemma renew_answers leases now db : Forall2 (renew_answer now db) leases (renew_result (rows_of (li_LeaseID <$> leases) db) now <$> leases).
Proof.
  apply Forall2_fmap_r, Forall_Forall2_diag, Forall_forall. intros lease Hin. unfold compose, renew_result.
  rewrite lookup_rows_in by (apply list_elem_of_fmap; by exists lease). unfold renew_answer. destruct (db_Leases db !! li_LeaseID lease) as [l|]; [|by right].
  destruct (renewable lease (Some l) now) eqn:E.
  - apply renewable_renews in E. left. exists l. split_and!; [done|done|]. destruct E as ((E1 & E2 & E3 & E4) & _). destruct lease. cbn in *. by subst.
  - right. split; [|done]. intros ? [= <-] Hr. apply renewable_renews in Hr. congruence.
Qed.

(** The leases after the statements of a renewal, [ex] being those that have expired after
    the extensions. *)
Lemma renew_rows leases now ex db id l : let updates := renew_updates (rows_of (li_LeaseID <$> leases) db) now leases in
  (id ∈ ex <-> id ∈ li_LeaseID <$> leases /\ exists l, db_Leases (extend_leases updates db) !! id = Some l /\ lr_ExpiresAt l <= now) -> db_Leases db !! id = Some l ->
  renewed leases now id l (db_Leases (expire_ops ex now (delete_leases ex (extend_leases updates db))) !! id).
Proof.
  intros updates Hex Hl. pose proof (renew_updates_spec (rows_of (li_LeaseID <$> leases) db) now leases id) as Hu. fold updates in Hu.
  change (db_Leases (expire_ops _ _ ?d)) with (db_Leases d). rewrite lookup_delete_leases. rewrite lookup_extend, Hl in *. cbn in *. clearbody updates.
  assert (Hrow : forall other, other ∈ leases -> li_LeaseID other = id -> renewable other (rows_of (li_LeaseID <$> leases) db !! id) now = true <-> renews now other l).
  { intros other Hin Hid. rewrite lookup_rows_in, Hl by (apply list_elem_of_fmap; by exists other). apply renewable_renews. }
  destruct (updates !! id) as [at_|].
  - destruct Hu as (_ & (lease & Hin & Hid & Hr & ->) & Hmax). left. exists lease. split_and!; [done|done|by apply Hrow| |].
    + intros other Ho Hoid Hor. pose proof (Hmax other Ho Hoid (proj2 (Hrow other Ho Hoid) Hor)). lia.
    + assert (Hids : id ∈ li_LeaseID <$> leases) by (apply list_elem_of_fmap; by exists lease).
      destruct (Z.ltb_spec now (timestamptz (now + li_TTL lease))); case_decide as Hd; try done.
      * apply Hex in Hd as (_ & ? & [= <-] & ?). cbn in *. lia.
      * destruct Hd. apply Hex. split; [done|]. eexists. split; [done|]. cbn. lia.
  - right. split.
    + intros Hnow other Ho Hoid Hor. pose proof (Hu other Ho Hoid (proj2 (Hrow other Ho Hoid) Hor)). destruct Hor as (_ & _ & ?). lia.
    + case_bool_decide as Hids; cbn.
      * destruct (Z.leb_spec (lr_ExpiresAt l) now); case_decide as Hd; try done; [destruct Hd; apply Hex; eauto|]. apply Hex in Hd as (_ & ? & [= <-] & ?). lia.
      * rewrite decide_False; [done|]. intros Hd. by apply Hex in Hd as [? _].
Qed.

Lemma renew_finish leases now byID results held w db : let updates := renew_updates byID now leases in
  read_clock now -> results = renew_result byID now <$> leases -> (forall d, w d = extend_leases updates d) -> renewing leases byID held db ->
  wp (CRenew leases)
    (exec_on (expired_ids (li_LeaseID <$> leases) now) (fun expired => (KLease <$> expired) ++ (KOp <$> expired))
       (fun expired db => expire_ops expired now (delete_leases expired db));; TxRet (Committed (AnsRenew results)))
    (commits (CRenew leases)) held w db.
Proof.
  intros updates Hclock Hres Hw Hn. apply tx_wp_bind, wp_exec_on. intros db7 Hr7 Hi7. set (ex := expired_ids _ _ _). set (h := held ∪ rows_in _ _).
  assert (Hex : forall id, id ∈ ex -> KLease id ∈ h /\ KOp id ∈ h).
  { intros id Hin. pose proof Hin as (_ & l & Hl & _)%elem_of_expired_ids. rewrite Hw in Hl. unfold h. rewrite Hw.
    assert (Hp : is_Some (db_Leases db7 !! id)) by (apply (extend_present updates); by exists l).
    split; apply elem_of_union_r, elem_of_rows_in; (split; [apply elem_of_app|]).
    - left. apply list_elem_of_fmap. by exists id.
    - apply lease_present. by exists l.
    - right. apply list_elem_of_fmap. by exists id.
    - by apply (op_present db7). }
  apply wp_commit. intros db' Hr' Hi'. assert (Hn7 : renewing leases byID held db7) by (by eapply (renewing_rely _ _ held held)).
  assert (Hn' : renewing leases byID h db') by (eapply (renewing_rely _ _ held h); [exact Hr'|apply union_subseteq_l|done]).
  assert (Hexr : forall id, id ∈ ex <-> id ∈ li_LeaseID <$> leases /\ exists l, db_Leases (extend_leases updates db') !! id = Some l /\ lr_ExpiresAt l <= now).
  { intros id. unfold ex. rewrite elem_of_expired_ids, Hw, !lookup_extend. apply and_iff_1. intros Hin.
    by rewrite <- (lookup_rows_in _ db7 id Hin), <- (lookup_rows_in _ db' id Hin), (rn_rows _ _ _ _ Hn7), (rn_rows _ _ _ _ Hn'). }
  rewrite Hw. destruct (extend_write h updates db') as [Hok1 Hg1]; [done| |].
  { intros id l Hids%updates_named Hl. split; [apply (rn_locked _ _ _ _ Hn'); eauto|by apply (rn_scopes _ _ _ _ Hn' id)]. }
  destruct (expire_write h ex now (extend_leases updates db') Hex Hok1) as [Hok2 Hg2].
  split_and!; [done|eapply guar_trans; [exact Hg1|exact Hg2| |]|].
  - intros id l. change (db_Leases (expire_ops _ _ ?d)) with (db_Leases d). rewrite lookup_delete_leases. by case_decide.
  - intros id o. rewrite lookup_expire_ops. intros (o0 & Ho & _)%fmap_Some. by exists o0.
  - exists now. split_and!; [done|subst results; rewrite <- (rn_rows _ _ _ _ Hn'); apply renew_answers|]. intros id. destruct (db_Leases db' !! id) as [l|] eqn:Hl.
    + unfold updates in *. rewrite <- (rn_rows _ _ _ _ Hn') in *. by apply renew_rows.
    + change (db_Leases (expire_ops _ _ ?d)) with (db_Leases d). rewrite lookup_delete_leases, lookup_extend, Hl. by case_decide.
Qed.

Lemma renew_commits leases db : db_ok db -> (forall lease, lease ∈ leases -> li_LeaseID lease ∈ db_Held db) ->
  wp (CRenew leases) (renew leases) (commits (CRenew leases)) ∅ (fun d => d) db.
Proof.
  intros Hi0 Hh0. unfold renew. case_bool_decide; [done|]. cbv zeta. set (ids := li_LeaseID <$> leases).
  assert (Hids : forall id, id ∈ ids -> id ∈ db_Held db) by (intros id (lease & -> & Hin)%list_elem_of_fmap; by apply Hh0).
  apply tx_wp_bind, lock_scopes; [done|]. intros h2 db2 Hr2 Hl2.
  assert (Hh2 : forall id, id ∈ ids -> id ∈ db_Held db2) by (intros id Hin; by apply Hr2, Hids).
  apply tx_wp_bind, wp_lock_all. intros h3 db3 Hr3 Hs3 Hlock. apply tx_wp_bind, wp_lock_all. intros h4 db4 Hr4 Hs4 _.
  apply tx_wp_bind, wp_query_seen. intros now5 db5 Hr5 _ Hseen. set (now := timestamptz now5). apply tx_wp_bind, wp_query. intros _ db6 Hr6 Hi6.
  assert (Hclock : read_clock now) by (by exists now5, db5). clear Hseen.
  assert (Hr36 : rely (CRenew leases) h3 db3 db6).
  { eapply rely_trans; [exact Hr4|]. eapply rely_trans; eapply rely_weaken; [exact Hs4|exact Hr5|exact Hs4|exact Hr6]. }
  assert (Hr26 : rely (CRenew leases) h2 db2 db6) by (eapply rely_trans; [exact Hr3|by eapply rely_weaken]).
  assert (Hk6 : forall id, id ∈ ids -> is_Some (db_Leases db6 !! id) -> KLease id ∈ h4).
  { intros id Hin [l Hl]. destruct (Hlock (KLease id)) as [?|(dm & Hd1 & Hd2 & _ & Hno)]; [|set_solver|].
    - apply list_elem_of_fmap. exists id. split; [done|]. by apply elem_of_sorted_uuids, elem_of_list_to_set.
    - exfalso. cbn in Hno. b2p. destruct Hno. destruct (held_before (CRenew leases) h2 dm db6 id l) as (l0 & ? & _); [|by apply Hd1, Hh2|done|by exists l0].
      eapply rely_trans; [exact Hd2|]. by eapply rely_weaken. }
  assert (Hn : renewing leases (rows_of ids db6) h4 db6).
  { split; [intros id Hin; by apply Hr26, Hh2| |done|done].
    assert (Hsc : scopes_locked ids h2 db6) by (by apply (scopes_locked_rely (CRenew leases) ids h2 h2 db2 db6)).
    intros id l Hin Hl. destruct (Hsc id l Hin Hl). set_solver. }
  set (byID := rows_of ids db6) in *. clearbody byID. apply tx_wp_bind. case_bool_decide as He.
  - apply tx_wp_ret. apply (renew_finish _ now byID); [done|done| |done]. intros d. rewrite He. destruct d as [ops ls]. unfold extend_leases. cbn. f_equal.
    symmetry. apply map_eq. intros id. rewrite map_lookup_imap. by destruct (ls !! id).
  - apply wp_exec_on. intros db7 Hr7 Hi7. apply (renew_finish _ now byID); [done|done|done|]. apply (renewing_rely _ _ h4 _ db7); [apply rely_refl|apply union_subseteq_l|].
    by apply (renewing_rely _ _ h4 h4 db6).
Qed.

(** ** Rates *)

(** [w] writes what [w0] writes and the locked buckets of [client]. *)
Record rates_only (client : Z) (P : RateKind -> Prop) (w0 : Db -> Db) held (w : Db -> Db) : Prop := {
  ro_leases : forall d, db_Leases (w d) = db_Leases (w0 d);
  ro_ops : forall d, db_Ops (w d) = db_Ops (w0 d);
  ro_pools : forall d, db_PoolScopes (w d) = db_PoolScopes (w0 d);
  ro_clients : forall d, db_ClientScopes (w d) = db_ClientScopes (w0 d);
  ro_config : forall d, db_Config (w d) = db_Config (w0 d);
  ro_held : forall d, db_Held (w d) = db_Held (w0 d);
  ro_rates : forall d c k, db_Rates (w d) !! (c, k) = db_Rates (w0 d) !! (c, k) \/ c = client /\ P k /\ KRate c k ∈ held
}.

(** A part of a transaction that writes only such buckets. *)
Definition rating {A : Type} (client : Z) (P : RateKind -> Prop) (m : Tx (Db := Db) (Key := Key) A) : Prop :=
  forall c Q w0 held w db, rates_only client P w0 held w ->
    (forall a held' w' db', rely c held db db' -> held ⊆ held' -> rates_only client P w0 held' w' -> Q a held' w' db') -> wp c m Q held w db.

Lemma rates_only_weaken client P w0 held held' w : held ⊆ held' -> rates_only client P w0 held w -> rates_only client P w0 held' w.
Proof. intros Hs Hw. split; try apply Hw. intros d c k. destruct (ro_rates _ _ _ _ _ Hw d c k) as [?|(? & ? & ?)]; [by left|right; set_solver]. Qed.

Lemma wp_update_row c key write Q held w db :
  (forall db', rely c held db db' -> db_ok db' -> row_present key (w db') = true -> Q tt (held ∪ {[key]}) (fun d => write (w d)) db') ->
  (forall db', rely c held db db' -> db_ok db' -> row_present key (w db') = false -> Q tt held w db') ->
  wp c (update_row key write) Q held w db.
Proof. apply wp_update_found. Qed.

Lemma rating_ret {A : Type} client P (a : A) : rating client P (TxRet a).
Proof. intros c Q w0 held w db Hw HQ. apply tx_wp_ret, HQ; [apply rely_refl|done|done]. Qed.

Lemma rating_bind {A B : Type} client P (m : Tx A) (k : A -> Tx B) : rating client P m -> (forall a, rating client P (k a)) -> rating client P (m ≫= k).
Proof.
  intros Hm Hk c Q w0 held w db Hw HQ. apply tx_wp_bind, (Hm _ _ w0); [done|]. intros a held1 w1 db1 Hr1 Hs1 Hw1. apply (Hk _ _ _ w0); [done|].
  intros b held2 w2 db2 Hr2 Hs2 Hw2. apply HQ; [|set_solver|done]. eapply rely_trans; [exact Hr1|by eapply rely_weaken].
Qed.

Lemma rating_query {A : Type} client P (f : Time -> Db -> A) : rating client P (query f).
Proof. intros c Q w0 held w db Hw HQ. apply wp_query. intros now db' Hr Hi. by apply HQ. Qed.

Lemma rating_lock client P keys : rating client P (lock_all keys).
Proof. intros c Q w0 held w db Hw HQ. apply wp_lock_all. intros held' db' Hr Hs _. apply HQ; [done|done|]. by eapply rates_only_weaken. Qed.

Lemma rates_only_write client (P : RateKind -> Prop) w0 held w f kind : P kind -> rates_only client P w0 held w ->
  (forall d : Db, f d = {| d with db_Rates := db_Rates (f d) |}) ->
  (forall d c k, (c, k) <> (client, kind) -> db_Rates (f d) !! (c, k) = db_Rates d !! (c, k)) ->
  rates_only client P w0 (held ∪ {[KRate client kind]}) (fun d => f (w d)).
Proof.
  intros HP Hw Hf Hr. split; try (intros d; rewrite Hf; apply Hw). intros d c k. destruct (decide ((c, k) = (client, kind))) as [[= -> ->]|Hne].
  - right. set_solver.
  - rewrite Hr by done. destruct (ro_rates _ _ _ _ _ Hw d c k) as [?|(? & ? & ?)]; [by left|right; set_solver].
Qed.

Lemma rating_update client (P : RateKind -> Prop) kind f : P kind ->
  rating client P (update_row (KRate client kind) (fun db => {| db with db_Rates := alter f (client, kind) (db_Rates db) |})).
Proof.
  intros HP c Q w0 held w db Hw HQ. apply wp_update_row; intros db' Hr Hi _; apply HQ; try done; [set_solver|].
  eapply (rates_only_write _ _ _ _ _ (fun db => {| db with db_Rates := alter f (client, kind) (db_Rates db) |})); [done|done|done|].
  intros d x k Hne. cbn. by rewrite lookup_alter_ne.
Qed.

Create HintDb rating.
#[local] Hint Resolve rating_ret rating_query rating_lock rating_update : rating.

Ltac rating :=
  repeat first
    [progress (intros; cbv beta zeta)
    |solve [eauto with rating]|apply rating_bind
    |match goal with |- rating _ _ (match ?x with _ => _ end) => destruct x end
    |match goal with |- rating _ _ (if ?x then _ else _) => destruct x end].

Lemma rating_normalize client (P : RateKind -> Prop) kind revision capacity now debit : P kind -> rating client P (normalizeRate client kind revision capacity now debit).
Proof. unfold normalizeRate. rating. Qed.

Lemma rating_charge client policy usage now : rating client (eq TokensPerMinute) (charge_tokens client policy usage now).
Proof. unfold charge_tokens. rating. Qed.

Lemma rating_seed_tokens client policy : rating client (eq TokensPerMinute) (seed_tokens client policy).
Proof.
  destruct policy as [[revision limit]|]; [|apply rating_ret]. apply rating_bind; [|rating]. intros c Q w0 held w db Hw HQ.
  apply wp_insert; intros db' Hr Hi _; apply HQ; try done; [set_solver|].
  apply (rates_only_write _ _ _ _ _ (fun db => {| db with db_Rates := <[(client, TokensPerMinute) :=
    {| ra_PolicyRevision := revision; ra_Balance := of_int limit; ra_LastRefillAt := unixEpoch |}]> (db_Rates db) |})); [done|done|done|].
  intros d x k Hne. cbn. by rewrite lookup_insert_ne.
Qed.

(** ** Completion *)

(** What a completion knows when it writes: the receipt [o] is locked, and the lease. *)
Record completing (item : LeaseCompletion) (o : OpRow (FP := FP)) (lease : option LeaseRow) held db : Prop := {
  cm_lock : KOp (li_LeaseID (lc_Lease item)) ∈ held;
  cm_op : db_Ops db !! li_LeaseID (lc_Lease item) = Some o;
  cm_row : is_Some lease -> KLease (li_LeaseID (lc_Lease item)) ∈ held;
  cm_lease : db_Leases db !! li_LeaseID (lc_Lease item) = lease
}.

Lemma completing_rely item o lease held held' db db' : completing item o lease held db -> held ⊆ held' -> rely (CComplete item) held db db' ->
  completing item o lease held' db'.
Proof.
  intros [H1 H2 H3 H4] Hs Hr. split; [set_solver|by rewrite (rl_op _ _ _ _ Hr)|set_solver|]. destruct lease as [l|].
  - rewrite (rl_lease _ _ _ _ Hr); [done|]. by apply H3.
  - by apply (rl_new _ _ _ _ Hr).
Qed.

Lemma delete_lease_eq id client pool db : (forall l, db_Leases db !! id = Some l -> lr_ClientID l = client /\ lr_PoolID l = pool) ->
  delete_lease id client pool db = {| db with db_Leases := delete id (db_Leases db) |}.
Proof.
  intros Ho. unfold delete_lease. f_equal. destruct (db_Leases db !! id) as [l|] eqn:Hl; [|by rewrite delete_id].
  destruct (Ho l eq_refl) as [-> ->]. by rewrite !Z.eqb_refl.
Qed.

(** The writes of a completion. *)
Definition complete_write (id : UUID) (now : Time) (result : CompletionResult) db : Db :=
  let ops := alter (fun o => {| o with op_CompletedAt := Some now; op_Completion := Some result; op_RetainUntil := Some (retention (op_StartedAt o) now) |}) id (db_Ops db) in
  {| db with db_Leases := delete id (db_Leases db); db_Ops := ops |}.

Lemma complete_write_commit item o lease now result held db' rates : completing item o lease held db' -> db_ok db' -> op_CompletedAt o = None ->
  op_Decision o = OpAdmitted -> read_clock now -> result = release_result now lease ->
  (forall c k, rates !! (c, k) = db_Rates db' !! (c, k) \/ c = op_ClientID o /\ TokensPerMinute = k /\ KRate c k ∈ held) ->
  let id := li_LeaseID (lc_Lease item) in
  let new := complete_write id now result db' in
  let new := {| new with db_Rates := rates |} in
  db_ok new /\ guar held db' new /\ complete_post item (complete_result id result CompletionNone ReasonNone) db' new.
Proof.
  intros [Hk Ho Hkl Hl] Hi Hc Hd Hclock Hres Hrates id new0 new. set (o' := completed_receipt now result o).
  assert (Hops : db_Ops new = <[id := o']> (db_Ops db')).
  { cbn. apply map_eq. intros i. destruct (decide (i = id)) as [->|]; [by rewrite lookup_alter_eq, lookup_insert_eq; unfold id; rewrite Ho|].
    by rewrite lookup_alter_ne, lookup_insert_ne. }
  assert (Hls : db_Leases new = delete id (db_Leases db')) by done. destruct (ok_ops _ Hi id o Ho) as [K1 K2 K3 K4]. split_and!.
  - split; try apply Hi.
    + intros i x. rewrite Hops. intros [[<- <-]|[_ Hx]]%lookup_insert_Some; [|by eapply Hi]. by split.
    + intros i l. rewrite Hls. intros [Hne Hi']%lookup_delete_Some. rewrite Hops, lookup_insert_ne by done. by apply Hi.
    + intros i l. rewrite Hls. intros [_ Hi']%lookup_delete_Some. by eapply (ok_scopes _ Hi).
  - split; try done.
    + intros i l. rewrite Hls. intros [_ Hi']%lookup_delete_Some. by left.
    + intros i. rewrite Hls. destruct (decide (i = id)) as [->|]; [|left; by rewrite lookup_delete_ne].
      rewrite lookup_delete_eq. fold id in Hl. rewrite Hl. destruct lease; [right; by apply Hkl|by left].
    + intros i. rewrite Hops. destruct (decide (i = id)) as [->|]; [by right|left; by rewrite lookup_insert_ne].
    + intros i x. rewrite Hops. intros [[<- <-]|[_ Hx]]%lookup_insert_Some; left; [exists o|exists x]; by split.
    + intros c k. destruct (Hrates c k) as [?|(_ & _ & ?)]; [by left|by right].
    + by left.
  - fold id in Ho, Hl. unfold complete_post. cbv zeta. fold id. rewrite Ho, bool_decide_eq_false_2 by congruence.
    destruct (op_Completion o); [exfalso; destruct (proj2 K3) as [? ?]; [eauto|congruence]|].
    exists now. split; [done|]. cbn zeta. fold id. rewrite Hl, <- Hres. split_and!; [done|done|done|].
    intros c k. destruct (Hrates c k) as [?|(? & <- & _)]; [by left|by right].
Qed.

(** The end of a completion, once the tokens are charged. *)
Lemma complete_end item o lease now result held w w' db : completing item o lease held db -> op_CompletedAt o = None -> op_Decision o = OpAdmitted ->
  read_clock now -> result = release_result now lease -> rates_only (op_ClientID o) (eq TokensPerMinute) (fun d => d) held w ->
  let id := li_LeaseID (lc_Lease item) in
  (forall d, db_Ops d !! id = Some o -> db_Leases d !! id = lease -> db_ok d -> w' d = {| (complete_write id now result d) with db_Rates := db_Rates (w d) |}) ->
  wp (CComplete item) (commitComplete (complete_result id result CompletionNone ReasonNone)) (commits (CComplete item)) held w' db.
Proof.
  intros Hm Hc Hd Hclock Hres Hw id Hw'. apply wp_commit. intros db' Hr Hi. assert (Hm' : completing item o lease held db') by (by eapply completing_rely).
  rewrite Hw' by apply Hm' || done. eapply complete_write_commit; try done. intros c k. apply Hw.
Qed.

Lemma complete_receipt item o lease now result held w w' db : completing item o lease held db -> op_CompletedAt o = None -> op_Decision o = OpAdmitted ->
  read_clock now -> result = release_result now lease -> rates_only (op_ClientID o) (eq TokensPerMinute) (fun d => d) held w ->
  let id := li_LeaseID (lc_Lease item) in
  (forall d, db_Ops d !! id = Some o -> db_Leases d !! id = lease -> db_ok d -> w' d = {| (w d) with db_Leases := delete id (db_Leases d) |}) ->
  wp (CComplete item)
    (update_op id (fun o => {| o with op_CompletedAt := Some now; op_Completion := Some result; op_RetainUntil := Some (retention (op_StartedAt o) now) |});;
     commitComplete (complete_result id result CompletionNone ReasonNone)) (commits (CComplete item)) held w' db.
Proof.
  intros Hm Hc Hd Hclock Hres Hw id Hw'. apply tx_wp_bind, wp_update_row; intros db2 Hr2 Hi2 Hp; assert (Hm2 : completing item o lease held db2) by (by eapply completing_rely).
  - eapply (complete_end _ _ _ now _ _ w); try done; [eapply completing_rely; [done|set_solver|apply rely_refl]|eapply rates_only_weaken; [|done]; set_solver|].
    intros d Ho Hl Hi. rewrite Hw' by done. unfold complete_write.
    destruct Hw as [_ E1 E2 E3 E4 E5 _]. specialize (E1 d). specialize (E2 d). specialize (E3 d). specialize (E4 d). specialize (E5 d).
    destruct (w d), d; cbn in *. by subst.
  - exfalso. cbn in Hp. b2p. destruct Hp. rewrite Hw' by apply Hm2 || done. cbn. rewrite (ro_ops _ _ _ _ _ Hw). exists o. apply Hm2.
Qed.

Lemma complete_finish item o lease now result held w db : completing item o lease held db -> op_CompletedAt o = None -> op_Decision o = OpAdmitted ->
  read_clock now -> result = release_result now lease -> rates_only (op_ClientID o) (eq TokensPerMinute) (fun d => d) held w ->
  let id := li_LeaseID (lc_Lease item) in
  wp (CComplete item)
    (update_row (KLease id) (delete_lease id (op_ClientID o) (op_PoolID o));;
     update_op id (fun o => {| o with op_CompletedAt := Some now; op_Completion := Some result; op_RetainUntil := Some (retention (op_StartedAt o) now) |});;
     commitComplete (complete_result id result CompletionNone ReasonNone)) (commits (CComplete item)) held w db.
Proof.
  intros Hm Hc Hd Hclock Hres Hw id. apply tx_wp_bind, wp_update_row; intros db1 Hr1 Hi1 Hp; assert (Hm1 : completing item o lease held db1) by (by eapply completing_rely).
  - eapply (complete_receipt _ _ _ now _ _ w); try done; [eapply completing_rely; [done|set_solver|apply rely_refl]|eapply rates_only_weaken; [|done]; set_solver|].
    intros d Ho Hl Hi. rewrite delete_lease_eq; [by rewrite (ro_leases _ _ _ _ _ Hw)|].
    rewrite (ro_leases _ _ _ _ _ Hw). intros l Hl'. destruct (ok_leases _ Hi id l Hl') as (o' & Ho' & ? & ? & _). pose proof (eq_trans (eq_sym Ho) Ho') as [= <-]. done.
  - eapply (complete_receipt _ _ _ now _ _ w); try done. intros d Ho Hl Hi. cbn in Hp. b2p. rewrite (ro_leases _ _ _ _ _ Hw) in Hp.
    pose proof (cm_lease _ _ _ _ _ Hm1) as E. fold id in E. rewrite E in Hp. rewrite delete_id by (by rewrite Hl; destruct lease; [destruct Hp|]).
    rewrite <- (ro_leases _ _ _ _ _ Hw). by destruct (w d).
Qed.

Lemma complete_commits item db : db_ok db -> li_LeaseID (lc_Lease item) ∈ db_Held db ->
  wp (CComplete item) (completeOne item) (commits (CComplete item)) ∅ (fun d => d) db.
Proof.
  intros Hi0 Hh0. unfold completeOne. set (id := li_LeaseID (lc_Lease item)) in *. apply tx_wp_bind, wp_query_seen. intros now1 db1 Hr1 Hi1 Hseen.
  assert (Hh1 : id ∈ db_Held db1) by (by apply Hr1). destruct (db_Ops db1 !! id) as [o1|] eqn:Ho1.
  2: { apply wp_commit. intros db' Hr Hi. apply same_commit; [done|]. cbn. unfold complete_post. fold id.
       destruct (db_Ops db' !! id) as [o'|] eqn:Ho'; [|split; [done|by left]]. destruct (rl_receipt _ _ _ _ Hr id o' Hh1 Ho') as (? & ? & _). congruence. }
  case_bool_decide as Hd1; cbn [negb].
  2: { assert (Hrej : op_Decision o1 = OpRejected) by (pose proof (ook_decided _ (ok_ops _ Hi1 _ _ Ho1)); by destruct (op_Decision o1)).
       apply wp_commit. intros db' Hr Hi. apply same_commit; [done|]. cbn. unfold complete_post. fold id.
       destruct (db_Ops db' !! id) as [o'|] eqn:Ho'; [|split; [done|]; right; split; [done|]; by exists now1, db1, o1].
       destruct (rl_receipt _ _ _ _ Hr id o' Hh1 Ho') as (o & Ho & _ & _ & _ & Hdec). rewrite Ho1 in Ho. injection Ho as <-. by rewrite bool_decide_eq_true_2 by congruence. }
  apply tx_wp_bind, wp_select. intros db2 Hr2 Hi2. apply tx_wp_bind, wp_select. intros db3 Hr3 Hi3.
  set (h3 := ∅ ∪ _ ∪ _). apply tx_wp_bind, wp_select. intros db4 Hr4 Hi4. set (lease := db_Leases db4 !! id). set (h4 := h3 ∪ _).
  apply tx_wp_bind, wp_select. intros db5 Hr5 Hi5. destruct (db_Ops db5 !! id) as [o|] eqn:Ho; [|done].
  assert (Hr14 : rely (CComplete item) ∅ db1 db4).
  { eapply rely_trans; [exact Hr2|]. eapply rely_trans; [eapply rely_weaken; [|exact Hr3]|eapply rely_weaken; [|exact Hr4]]; set_solver. }
  assert (Hh4 : id ∈ db_Held db4) by (by apply Hr14).
  assert (Hl5 : db_Leases db5 !! id = lease).
  { unfold lease. destruct (db_Leases db4 !! id) as [l4|] eqn:E4; [rewrite (rl_lease _ _ _ _ Hr5); [done|set_solver]|].
    destruct (db_Leases db5 !! id) as [l5|] eqn:E5; [|done]. destruct (rl_owner _ _ _ _ Hr5 id l5 Hh4 E5) as (? & ? & _). congruence. }
  assert (Hm5 : completing item o lease (h4 ∪ {[KOp id]}) db5) by (split; [set_solver|done|intros [l E]; unfold h4; rewrite E; set_solver|done]).
  assert (Hown : op_ClientID o = op_ClientID o1 /\ op_PoolID o = op_PoolID o1 /\ op_Decision o = op_Decision o1).
  { destruct (rl_receipt _ _ _ _ Hr5 id o Hh4 Ho) as (o4 & Ho4 & -> & -> & _ & ->). destruct (rl_receipt _ _ _ _ Hr14 id o4 Hh1 Ho4) as (o1' & Ho1' & -> & -> & _ & ->).
    rewrite Ho1 in Ho1'. by injection Ho1' as ->. }
  clearbody h4 lease. clear Hl5 Hr14 Hh4 Hr4 Hr5 Hr2 Hr3 h3. destruct Hown as (<- & <- & Hdec). rewrite Hd1 in Hdec. case_bool_decide as Hc.
  - destruct (op_Completion o) as [original|] eqn:Hor; [|done]. apply wp_commit. intros db' Hr' Hi'. apply same_commit; [done|]. cbn. unfold complete_post. fold id.
    rewrite (rl_op _ _ _ _ Hr'), Ho by set_solver. by rewrite bool_decide_eq_false_2, Hor by congruence.
  - assert (Hnc : op_CompletedAt o = None) by (destruct (op_CompletedAt o); [destruct Hc; eauto|done]).
    apply tx_wp_bind, wp_query. intros _ db6 Hr6 Hi6. set (policy := charge_policy _ _ _). clearbody policy.
    assert (Hm6 : completing item o lease (h4 ∪ {[KOp id]}) db6) by (by eapply completing_rely).
    apply tx_wp_bind. apply (rating_seed_tokens _ _ _ _ (fun d => d)); [split; eauto|]. intros _ h7 w7 db7 Hr7 Hs7 Hw7.
    assert (Hm7 : completing item o lease h7 db7) by (by eapply completing_rely).
    apply tx_wp_bind, wp_query_seen. intros now8 db8 Hr8 Hi8 Hseen8. assert (Hclock : read_clock (timestamptz now8)) by (by exists now8, (w7 db8)).
    set (now := timestamptz now8) in *. apply tx_wp_bind.
    apply (rating_charge _ _ _ _ _ _ (fun d => d)); [done|]. intros charged h9 w9 db9 Hr9 Hs9 Hw9. destruct charged; [|done].
    apply (complete_finish item o lease); try done.
    eapply completing_rely; [|exact Hs9|exact Hr9]. by eapply completing_rely.
Qed.

(** ** Acquisition of a known ID *)

(** Writing to a receipt what does not change its request and its decision. *)
Lemma receipt_write held db id o f : KOp id ∈ held -> db_ok db -> db_Ops db !! id = Some o -> same_request o (f o) -> op_ok (f o) ->
  op_CompletedAt (f o) = op_CompletedAt o ->
  let new := {| db with db_Ops := alter f id (db_Ops db) |} in db_ok new /\ guar held db new.
Proof.
  intros Hk Hi Ho Hs Hok Hc new.
  assert (Hops : db_Ops new = <[id := f o]> (db_Ops db)).
  { cbn. apply map_eq. intros i. destruct (decide (i = id)) as [->|]; [by rewrite lookup_alter_eq, lookup_insert_eq, Ho|].
    by rewrite lookup_alter_ne, lookup_insert_ne. }
  split; split; try apply Hi; try done.
  - intros i x. rewrite Hops. intros [[<- <-]|[_ Hx]]%lookup_insert_Some; [done|by eapply Hi].
  - intros i l Hl. destruct (ok_leases _ Hi i l Hl) as (o' & Ho' & E1 & E2 & E3 & E4). rewrite Hops. destruct (decide (i = id)) as [->|Hne].
    + rewrite Ho in Ho'. injection Ho' as <-. exists (f o). rewrite lookup_insert_eq. destruct Hs as (? & ? & ? & ?). split_and!; congruence.
    + exists o'. rewrite lookup_insert_ne by done. by split_and!.
  - by left.
  - by left.
  - intros i. rewrite Hops. destruct (decide (i = id)) as [->|]; [by right|left; by rewrite lookup_insert_ne].
  - intros i x. rewrite Hops. intros [[<- <-]|[_ Hx]]%lookup_insert_Some; left; [exists o|exists x]; by split.
  - by left.
  - by left.
Qed.

(** A known receipt of the same request that is neither refused nor completed nor expired. *)
Record open_receipt (r : AdmissionRequest) (o : OpRow (FP := FP)) held db : Prop := {
  or_lock : KOp (ar_LeaseID r) ∈ held;
  or_op : db_Ops db !! ar_LeaseID r = Some o;
  or_fingerprint : op_Fingerprint o = fingerprint r;
  or_decision : op_Decision o <> OpRejected;
  or_live : ~ is_Some (op_CompletedAt o) /\ ~ is_Some (op_LeaseExpiredAt o)
}.

Lemma open_receipt_rely r o held held' db db' : rely (CAcquire r) held db db' -> held ⊆ held' -> open_receipt r o held db -> open_receipt r o held' db'.
Proof. intros Hr Hs [H1 H2 H3 H4 H5]. split; [set_solver|by rewrite (rl_op _ _ _ _ Hr)|done..]. Qed.

(** Its replay is one of the last two cases. *)
Lemma replay_open r o held (d : AdmissionDecision) db db' : open_receipt r o held db ->
  (exists now, read_clock now /\
    ((exists l, db_Leases db !! ar_LeaseID r = Some l /\ now < lr_ExpiresAt l /\ db' = db /\ d = granted (identity_of (ar_LeaseID r) l (ar_LeaseTTL r))) \/
     ((exists t v, seen t v /\ db_Leases v !! ar_LeaseID r = None) \/ (exists l, db_Leases db !! ar_LeaseID r = Some l /\ lr_ExpiresAt l <= now)) /\
       db' = {| db with db_Ops := <[ar_LeaseID r := lost_receipt now o]> (db_Ops db) |} /\ d = refused ReasonLeaseLost)) ->
  acquire_post r d db db'.
Proof.
  intros [_ Ho Hf Hd [Hc He]] Hcase. right. rewrite Ho. split; [done|]. unfold replayed. by rewrite !bool_decide_eq_false_2 by done.
Qed.

Lemma mark_lost_commits r o now held db : open_receipt r o held db -> read_clock now ->
  ((exists t v, seen t v /\ db_Leases v !! ar_LeaseID r = None) \/
   (exists l, KLease (ar_LeaseID r) ∈ held /\ db_Leases db !! ar_LeaseID r = Some l /\ lr_ExpiresAt l <= now)) ->
  wp (CAcquire r) (markLost (ar_LeaseID r) now) (commits (CAcquire r)) held (fun d => d) db.
Proof.
  intros Hopen Hclock Hlost. apply tx_wp_bind, wp_update_row; intros db1 Hr1 Hi1 Hp.
  2: { exfalso. cbn in Hp. b2p. destruct Hp. destruct (open_receipt_rely _ _ _ held _ _ Hr1 ltac:(done) Hopen). eauto. }
  apply wp_commit. intros db' Hr' Hi'. set (h := held ∪ _) in *.
  assert (Hr : rely (CAcquire r) held db db') by (eapply rely_trans; [exact Hr1|eapply rely_weaken; [|exact Hr']; set_solver]).
  assert (Hopen' : open_receipt r o h db') by (eapply open_receipt_rely; [exact Hr|set_solver|done]). pose proof (or_op _ _ _ _ Hopen') as Ho.
  destruct (receipt_write h db' (ar_LeaseID r) o (lost_receipt now)) as [Hok Hg]; [apply Hopen'|done|done|done| |done|].
  { destruct (ok_ops _ Hi' _ _ Ho). by split. }
  split_and!; [done|done|]. apply (replay_open _ _ _ _ _ _ Hopen'). exists now. split; [done|]. right. split_and!; [| |done].
  - destruct Hlost as [?|(l & Hk & Hl & ?)]; [by left|right]. exists l. by rewrite (rl_lease _ _ _ _ Hr).
  - cbn. f_equal. apply map_eq. intros i. destruct (decide (i = ar_LeaseID r)) as [->|];
      [by rewrite lookup_alter_eq, lookup_insert_eq, Ho|by rewrite lookup_alter_ne, lookup_insert_ne].
Qed.

Lemma conflict_commits r t v o held db : seen t v -> db_Ops v !! ar_LeaseID r = Some o -> op_Fingerprint o <> fingerprint r ->
  wp (CAcquire r) (TxRet (Committed (AnsAcquire (inr (refused ReasonIdempotencyConflict))))) (commits (CAcquire r)) held (fun d => d) db.
Proof. intros Hs Ho Hf. apply wp_commit. intros db' _ Hi. apply same_commit; [done|]. left. split_and!; [done|done|]. by exists t, v, o. Qed.

Lemma resolve_commits r db : wp (CAcquire r) (resolveAcquire r (fingerprint r)) (commits (CAcquire r)) ∅ (fun d => d) db.
Proof.
  unfold resolveAcquire. set (id := ar_LeaseID r). apply tx_wp_bind, wp_query_seen. intros t1 db1 Hr1 Hi1 Hs1. destruct (db_Ops db1 !! id) as [o1|] eqn:Ho1; [|done].
  case_bool_decide as Hf1; cbn [negb]; [|by apply (conflict_commits r t1 db1 o1)].
  apply tx_wp_bind, wp_select. intros db2 Hr2 Hi2. apply tx_wp_bind, wp_select. intros db3 Hr3 Hi3. set (h3 := ∅ ∪ _ ∪ _). clearbody h3. clear Hr2 Hr3.
  apply tx_wp_bind, wp_select_seen. intros t4 db4 Hr4 Hi4 Hs4. apply tx_wp_bind, wp_select_seen. intros t5 db5 Hr5 Hi5 Hs5. destruct (db_Ops db5 !! id) as [o|] eqn:Ho; [|done].
  set (h := _ ∪ {[KOp id]}). assert (Hk : KOp id ∈ h) by set_solver.
  case_bool_decide as Hf; cbn [negb]; [|by apply (conflict_commits r t5 db5 o)].
  assert (Hl5 : forall l, db_Leases db4 !! id = Some l -> KLease id ∈ h /\ db_Leases db5 !! id = Some l).
  { intros l Hl. unfold h. rewrite Hl. rewrite (rl_lease _ _ _ _ Hr5) by (rewrite Hl; set_solver). split; [set_solver|done]. }
  clearbody h. case_bool_decide as Hrej.
  { destruct (op_Reason o) as [reason|] eqn:Hreason; [|done]. apply wp_commit. intros db' Hr' Hi'. apply same_commit; [done|].
    right. fold id. rewrite (rl_op _ _ _ _ Hr'), Ho by done. split; [done|]. unfold replayed. rewrite bool_decide_eq_true_2 by done. by split_and!. }
  destruct (_ || _) eqn:Hgone.
  { apply wp_commit. intros db' Hr' Hi'. apply same_commit; [done|]. right. fold id. rewrite (rl_op _ _ _ _ Hr'), Ho by done. split; [done|].
    unfold replayed. by rewrite bool_decide_eq_false_2, Hgone by done. }
  b2p. apply tx_wp_bind, wp_query_seen. intros t6 db6 Hr6 Hi6 Hs6. assert (Hclock : read_clock (timestamptz t6)) by (by exists t6, db6).
  assert (Hopen : open_receipt r o h db6) by (split; [done|by rewrite (rl_op _ _ _ _ Hr6)|done|done|done]).
  destruct (db_Leases db4 !! id) as [l|] eqn:Hl4; [|apply (mark_lost_commits r o); [done|done|left; by exists t4, db4]].
  destruct (Hl5 l eq_refl) as [Hkl Hl]. rewrite <- (rl_lease _ _ _ _ Hr6) in Hl by done. unfold GoTime.After.
  destruct (Z.ltb_spec (timestamptz t6) (lr_ExpiresAt l)); cbn [negb]; [|apply (mark_lost_commits r o); [done|done|right; by exists l]].
  apply wp_commit. intros db' Hr' Hi'. apply same_commit; [done|]. apply (replay_open r o h); [by eapply open_receipt_rely|].
  exists (timestamptz t6). split; [done|]. left. exists l. by rewrite (rl_lease _ _ _ _ Hr').
Qed.

(** ** Acquisition of a new ID *)

(** The write of the receipt of [r]. *)
Definition with_op (id : UUID) (o : OpRow (FP := FP)) db : Db := {| db with db_Ops := <[id := o]> (db_Ops db) |}.

Definition any_rate (_ : RateKind) : Prop := True.

Abbreviation acquire_writes r := (rates_only (ar_ClientID r) any_rate (with_op (ar_LeaseID r) (pending_op fingerprint r))).

(** What an acquisition knows after it has written its receipt. *)
Record acquiring (r : AdmissionRequest) held db : Prop := {
  aq_lock : KOp (ar_LeaseID r) ∈ held;
  aq_op : db_Ops db !! ar_LeaseID r = None;
  aq_lease : db_Leases db !! ar_LeaseID r = None;
  aq_fresh : ar_LeaseID r ∉ db_Held db;
  aq_revision : ar_ConfigurationRevision r <= ct_Revision (db_Config db)
}.

Lemma acquiring_rely r held held' db db' : rely (CAcquire r) held db db' -> held ⊆ held' -> acquiring r held db -> acquiring r held' db'.
Proof.
  intros Hr Hs [H1 H2 H3 H4 H5]. split; [set_solver|by rewrite (rl_op _ _ _ _ Hr)|by apply (rl_new _ _ _ _ Hr)|by apply (rl_call _ _ _ _ Hr)|].
  pose proof (rl_revision _ _ _ _ Hr). lia.
Qed.

(** The scopes of a pool and a client that the revision of [r] has are locked. *)
Record scopes_of (r : AdmissionRequest) held db : Prop := {
  so_pool : KPool (ar_PoolID r) ∈ held; so_client : KClient (ar_ClientID r) ∈ held;
  so_pool_row : ar_PoolID r ∈ db_PoolScopes db; so_client_row : ar_ClientID r ∈ db_ClientScopes db
}.

Definition pool_locked (r : AdmissionRequest) held db : Prop :=
  (KPool (ar_PoolID r) ∈ held /\ ar_PoolID r ∈ db_PoolScopes db) \/ ct_Pools (db_Config db) !! ar_PoolID r = None \/ ar_ConfigurationRevision r < ct_Revision (db_Config db).

Definition client_locked (r : AdmissionRequest) held db : Prop :=
  (KClient (ar_ClientID r) ∈ held /\ ar_ClientID r ∈ db_ClientScopes db) \/ ct_Clients (db_Config db) !! ar_ClientID r = None \/
  ar_ConfigurationRevision r < ct_Revision (db_Config db).

Lemma scopes_of_rely r held held' db db' c : rely c held db db' -> held ⊆ held' -> scopes_of r held db -> scopes_of r held' db'.
Proof. intros Hr Hs [H1 H2 H3 H4]. destruct (rl_scopes _ _ _ _ Hr). split; set_solver. Qed.

Lemma pool_locked_rely r held held' db db' : rely (CAcquire r) held db db' -> held ⊆ held' -> acquiring r held db -> pool_locked r held db -> pool_locked r held' db'.
Proof.
  intros Hr Hs Ha [[? ?]|Hn]; [left; destruct (rl_scopes _ _ _ _ Hr); set_solver|right]. pose proof (rl_revision _ _ _ _ Hr). pose proof (aq_revision _ _ _ Ha).
  destruct Hn as [Hn|?]; [|right; lia]. destruct (decide (ct_Revision (db_Config db') = ct_Revision (db_Config db))) as [E|]; [left|right; lia].
  by destruct (rl_config _ _ _ _ Hr E) as (_ & -> & _).
Qed.

Lemma client_locked_rely r held held' db db' : rely (CAcquire r) held db db' -> held ⊆ held' -> acquiring r held db -> client_locked r held db -> client_locked r held' db'.
Proof.
  intros Hr Hs Ha [[? ?]|Hn]; [left; destruct (rl_scopes _ _ _ _ Hr); set_solver|right]. pose proof (rl_revision _ _ _ _ Hr). pose proof (aq_revision _ _ _ Ha).
  destruct Hn as [Hn|?]; [|right; lia]. destruct (decide (ct_Revision (db_Config db') = ct_Revision (db_Config db))) as [E|]; [left|right; lia].
  by destruct (rl_config _ _ _ _ Hr E) as (-> & _).
Qed.

(** What the configuration row read by the acquisition says of the tables. *)
Record row_of (r : AdmissionRequest) (c : Client) (k : APIKey) (p : ModelPool) held db : Prop := {
  ro_scopes : scopes_of r held db;
  ro_revoked : ak_RevokedAt k = None;
  ro_rows : ct_Revision (db_Config db) = ar_ConfigurationRevision r -> ct_Clients (db_Config db) !! ar_ClientID r = Some c /\
    ct_Pools (db_Config db) !! ar_PoolID r = Some p /\ forget <$> ct_Keys (db_Config db) !! ar_APIKeyID r = Some (forget k)
}.

Lemma row_of_rely r c k p held held' db db' : rely (CAcquire r) held db db' -> held ⊆ held' -> acquiring r held db -> row_of r c k p held db -> row_of r c k p held' db'.
Proof.
  intros Hr Hs Ha [H1 H2 H3]. split; [by eapply scopes_of_rely|done|]. intros E. pose proof (rl_revision _ _ _ _ Hr). pose proof (aq_revision _ _ _ Ha).
  destruct (rl_config _ _ _ _ Hr) as (-> & -> & Hk & _); [lia|]. rewrite <- lookup_fmap, Hk, lookup_fmap. apply H3. lia.
Qed.

Lemma config_row_of r held (w : Db -> Db) db revision c k p : config_row r (w db) = Some (revision, c, k, p) -> db_Config (w db) = db_Config db -> revision = ar_ConfigurationRevision r ->
  pool_locked r held db -> client_locked r held db -> row_of r c k p held db.
Proof.
  unfold config_row. intros Hrow Hcfg -> Hp Hc. rewrite Hcfg in Hrow. destruct (ct_Clients _ !! _) as [c'|] eqn:Ec; [|done].
  destruct (ct_Keys _ !! _) as [k'|] eqn:Ek; [|done]. destruct (ct_Pools _ !! _) as [p'|] eqn:Ep; [|done]. case_bool_decide as Er; [|done].
  injection Hrow as Hrev -> -> ->.
  destruct Hp as [[? ?]|[?|?]]; [|congruence|lia]. destruct Hc as [[? ?]|[?|?]]; [|congruence|lia].
  split; [by split|done|]. intros _. by rewrite Ek.
Qed.

(** The counts that an acquisition read bound the leases of its scopes from then on. *)
Record counted (r : AdmissionRequest) (counts : Counts) db : Prop := {
  cn_pool : count (co_Now counts) (of_pool (ar_PoolID r)) db <= co_Pool counts;
  cn_lower : count (co_Now counts) (lower_of_pool (ar_PoolID r)) db <= co_Lower counts;
  cn_client : count (co_Now counts) (of_client (ar_ClientID r)) db <= co_Client counts
}.

Lemma count_le now sel db db' : (forall id l, sel l = true -> db_Leases db' !! id = Some l -> db_Leases db !! id = Some l) ->
  count now sel db' <= count now sel db.
Proof.
  intros Hs. unfold count. apply inj_le, map_subseteq_size, map_subseteq_spec. intros id l. unfold live. rewrite !map_lookup_filter_Some.
  intros [Hl [Hsel He]]. split; [by apply Hs|done].
Qed.

Lemma counted_rely r counts held db db' : rely (CAcquire r) held db db' -> scopes_of r held db -> counted r counts db -> counted r counts db'.
Proof.
  intros Hr Hs [H1 H2 H3]. split; (etransitivity; [apply count_le|done]); intros id l Hsel Hl.
  - apply (rl_pool _ _ _ _ Hr); [|done]. apply Z.eqb_eq in Hsel. rewrite Hsel. apply Hs.
  - apply (rl_pool _ _ _ _ Hr); [|done]. apply andb_true_iff in Hsel as [Hsel%Z.eqb_eq _]. rewrite Hsel. apply Hs.
  - apply (rl_client _ _ _ _ Hr); [|done]. apply Z.eqb_eq in Hsel. rewrite Hsel. apply Hs.
Qed.

Lemma count_insert now sel db db' id l : db_Leases db' = <[id := l]> (db_Leases db) -> db_Leases db !! id = None ->
  count now sel db' <= count now sel db + 1.
Proof.
  intros Hl Hn. unfold count, live. rewrite Hl. rewrite map_filter_insert. case_decide.
  - rewrite map_size_insert_None; [lia|]. by rewrite map_lookup_filter_None_2 by (by left).
  - rewrite delete_id by done. lia.
Qed.

(** The lease of a new receipt [o]. *)
Definition new_lease (r : AdmissionRequest) (o : OpRow (FP := FP)) (l : LeaseRow) held db : Prop :=
  scopes_of r held db /\ KLease (ar_LeaseID r) ∈ held /\ lr_ClientID l = ar_ClientID r /\ lr_PoolID l = ar_PoolID r /\
  op_ClientID o = ar_ClientID r /\ op_PoolID o = ar_PoolID r /\ op_Decision o = OpAdmitted /\ op_CompletedAt o = None.

Lemma fresh_write r o lease held w db new : acquiring r held db -> db_ok db -> op_ok o -> acquire_writes r held w ->
  (forall l, lease = Some l -> new_lease r o l held db) ->
  new = {| (w db) with db_Ops := <[ar_LeaseID r := o]> (db_Ops db);
                       db_Leases := match lease with Some l => <[ar_LeaseID r := l]> (db_Leases db) | None => db_Leases db end |} ->
  db_ok new /\ guar held db new.
Proof.
  intros [Hk Hop Hl Hf _] Hi Hok [_ _ Wp Wc Wcfg Wh Wr] Hlease. specialize (Wp db). specialize (Wc db). specialize (Wcfg db). specialize (Wh db). specialize (Wr db).
  set (id := ar_LeaseID r) in *. set (ls := match lease with Some l => _ | None => _ end). intros ->.
  assert (Hls : forall i l, ls !! i = Some l -> i = id /\ lease = Some l \/ i <> id /\ db_Leases db !! i = Some l).
  { intros i l. unfold ls. destruct lease as [l0|]; [intros [[<- ->]|[? ?]]%lookup_insert_Some; [by left|by right]|]. intros E. right. split; [|done]. congruence. }
  assert (Hne : forall i, i <> id -> ls !! i = db_Leases db !! i) by (intros i Hn; unfold ls; destruct lease; [by rewrite lookup_insert_ne|done]).
  clearbody ls. destruct (w db) as [ops0 ls0 rates pools clients config known]. cbn in Wp, Wc, Wcfg, Wh, Wr. subst pools clients config known. split; split; try apply Hi; try done; cbn.
  - intros i x [[<- <-]|[_ Hx]]%lookup_insert_Some; [done|by eapply Hi].
  - intros i l [[-> E]|[Hn E]]%Hls; [|rewrite lookup_insert_ne by done; by apply Hi]. destruct (Hlease l E) as (_ & _ & -> & -> & H5 & H6 & H7 & H8). exists o.
    by rewrite lookup_insert_eq.
  - intros i l [[-> E]|[Hn E]]%Hls; [|by eapply (ok_scopes _ Hi)]. destruct (Hlease l E) as (Hs & _ & -> & -> & _). split; apply Hs.
  - intros i l [[-> E]|[Hn E]]%Hls; [|by left]. destruct (Hlease l E) as (Hs & _ & -> & -> & _). right. split_and!; [apply Hs|apply Hs|]. by right.
  - intros i. destruct (decide (i = id)) as [->|Hn]; [|left; by apply Hne]. destruct (ls !! id) as [l|] eqn:E; [|by left].
    right. destruct (Hls id l E) as [[_ E']|[? _]]; [|done]. by apply (Hlease l E').
  - intros i. destruct (decide (i = id)) as [->|Hn]; [by right|left; by rewrite lookup_insert_ne].
  - intros i x [[<- <-]|[_ Hx]]%lookup_insert_Some; [by right|left; by exists x].
  - intros c k. destruct (Wr c k) as [->|(_ & _ & ?)]; [by left|by right].
  - by left.
Qed.

Lemma acquire_rates r held w db : acquire_writes r held w ->
  forall c k, db_Rates (w db) !! (c, k) = db_Rates db !! (c, k) \/ c = ar_ClientID r.
Proof. intros Hw c k. destruct (ro_rates _ _ _ _ _ Hw db c k) as [->|[-> _]]; [by left|by right]. Qed.

(** The second write to the receipt. *)
Lemma alter_pending r held w db f : acquire_writes r held w ->
  alter f (ar_LeaseID r) (db_Ops (w db)) = <[ar_LeaseID r := f (pending_op fingerprint r)]> (db_Ops db).
Proof. intros Hw. rewrite (ro_ops _ _ _ _ _ Hw). cbn. by rewrite alter_insert_eq. Qed.

Lemma op_found r held w db : acquire_writes r held w -> row_present (KOp (ar_LeaseID r)) (w db) = true.
Proof. intros Hw. apply bool_decide_eq_true. rewrite (ro_ops _ _ _ _ _ Hw). cbn. rewrite lookup_insert_eq. by eexists. Qed.

Lemma reject_commits r reason retry now scopes held w db : acquiring r held db -> acquire_writes r held w ->
  wp (CAcquire r) (rejectAcquire (ar_LeaseID r) reason retry now scopes) (commits (CAcquire r)) held w db.
Proof.
  intros Ha Hw. unfold rejectAcquire. set (scope := if bool_decide _ then _ else _). apply tx_wp_bind, wp_update_row; intros db1 Hr1 Hi1 Hp.
  2: { exfalso. rewrite (op_found r held) in Hp by done. done. }
  apply wp_commit. intros db' Hr' Hi'.
  assert (Ha' : acquiring r (held ∪ {[KOp (ar_LeaseID r)]}) db') by (eapply acquiring_rely; [exact Hr'|done|]; eapply acquiring_rely; [exact Hr1|set_solver|done]).
  assert (Hw' : acquire_writes r (held ∪ {[KOp (ar_LeaseID r)]}) w) by (eapply rates_only_weaken; [|done]; set_solver).
  set (f := fun o : OpRow => _). cbn zeta. rewrite (alter_pending r held) by done.
  edestruct (fresh_write r (f (pending_op fingerprint r)) None) as [Hok Hg]; [exact Ha'|done| |exact Hw'|done| |split_and!; [exact Hok|exact Hg|]].
  - split; cbn; [done|split; [by exists reason|done]|done|by intros [? ?]].
  - pose proof (ro_leases _ _ _ _ _ Hw db') as Hls. destruct (w db'). cbn in *. by subst.
  - hnf. right. rewrite (aq_op _ _ _ Ha'). split; [|by apply (acquire_rates r held)]. right. exists (f (pending_op fingerprint r)).
    split_and!; try done. exact (ro_leases _ _ _ _ _ Hw db').
Qed.

(** What the checks of the acquisition establish before it takes from the rates. *)
Record admits (r : AdmissionRequest) (c : Client) (k : APIKey) (p : ModelPool) (counts : Counts) : Prop := {
  am_key : ak_ClientID k = ar_ClientID r;
  am_enabled : cl_Enabled c = true /\ mp_Enabled p = true;
  am_client_limit : cl_MaxConcurrency c = ar_ConfiguredClientLimit r /\ ar_EffectiveClientLimit r <= cl_MaxConcurrency c;
  am_pool_limit : mp_MaxGatewayInflight p = ar_PoolGatewayInflightLimit r /\ mp_HighPriorityReserve p = ar_PoolHighPriorityReserve r;
  am_pool : 0 < mp_MaxGatewayInflight p -> co_Pool counts < mp_MaxGatewayInflight p;
  am_lower : 0 < mp_HighPriorityReserve p -> lower_class (cl_PriorityClass c) = true -> co_Lower counts < mp_MaxGatewayInflight p - mp_HighPriorityReserve p;
  am_client : co_Client counts < ar_EffectiveClientLimit r
}.

Lemma row_authorised r c k p counts held db : row_of r c k p held db -> admits r c k p counts -> ct_Revision (db_Config db) = ar_ConfigurationRevision r -> authorised r db.
Proof.
  intros [_ Hrev Hrows] [H1 [H2 H3] [H4 _] [H5 H6] _ _ _] E. destruct (Hrows E) as (Hc & Hp & (k' & Hk' & Hf)%fmap_Some). exists c, k', p.
  pose proof (f_equal ak_RevokedAt Hf) as F1. pose proof (f_equal ak_ClientID Hf) as F2. cbn in F1, F2. split_and!; congruence.
Qed.

Lemma lower_is_lower class id l : lr_PriorityClass l = class -> lower_of_pool id l = true -> lower_class class = true.
Proof.
  intros <-. unfold lower_of_pool, lower_class. intros [_ Hl]%andb_true_iff. apply orb_true_iff in Hl as [Hl|Hl]; apply bool_decide_eq_true in Hl; by rewrite Hl.
Qed.

Lemma granted_limits r c k p counts l db db' : admits r c k p counts -> counted r counts db -> db_Leases db !! ar_LeaseID r = None ->
  db_Leases db' = <[ar_LeaseID r := l]> (db_Leases db) -> lr_AcquiredAt l = co_Now counts -> lr_PriorityClass l = cl_PriorityClass c -> limits_hold r l db'.
Proof.
  intros [_ _ [H1 H2] [H3 H4] H5 H6 H7] [C1 C2 C3] Hn Hl Hat Hclass. unfold limits_hold. rewrite Hat, <- H1, <- H3, <- H4.
  pose proof (fun sel => count_insert (co_Now counts) sel _ _ _ _ Hl Hn) as Hc.
  pose proof (Hc (of_pool (ar_PoolID r))). pose proof (Hc (lower_of_pool (ar_PoolID r))). pose proof (Hc (of_client (ar_ClientID r))). split_and!; [|..|lia|lia].
  - intros Hpos. specialize (H5 Hpos). lia.
  - intros Hpos Hlow. specialize (H6 Hpos (lower_is_lower _ _ _ Hclass Hlow)). lia.
Qed.

Lemma grant_commits r c k p counts held w db : acquiring r held db -> acquire_writes r held w -> row_of r c k p held db -> counted r counts db ->
  admits r c k p counts -> wp (CAcquire r) (grant r (cl_PriorityClass c) (co_Now counts)) (commits (CAcquire r)) held w db.
Proof.
  intros Ha Hw Hrow Hcn Had. unfold grant. set (id := ar_LeaseID r) in *. apply tx_wp_bind, wp_insert; intros db1 Hr1 Hi1 _; [done|].
  set (l := {| lr_RequestID := _ |}). cbn [negb]. apply tx_wp_bind, wp_update_row; intros db2 Hr2 Hi2 Hp.
  2: { exfalso. pose proof (op_found r held w db2 Hw) as E. cbn in E, Hp. fold id in E. congruence. }
  set (h := held ∪ {[KLease id]} ∪ {[KOp id]}). apply wp_commit. intros db' Hr' Hi'.
  assert (Hr : rely (CAcquire r) held db db').
  { eapply rely_trans; [exact Hr1|]. eapply rely_trans; (eapply rely_weaken; [|done]); set_solver. }
  assert (Hs : held ⊆ h) by set_solver. assert (Ha' : acquiring r h db') by (by eapply acquiring_rely).
  assert (Hrow' : row_of r c k p h db') by (by eapply row_of_rely). assert (Hw' : acquire_writes r h w) by (by eapply rates_only_weaken).
  assert (Hcn' : counted r counts db') by (eapply counted_rely; [exact Hr|apply Hrow|done]).
  set (f := fun o : OpRow (FP := FP) => {| o with op_Decision := OpAdmitted; op_DecidedAt := Some (co_Now counts) |}).
  edestruct (fresh_write r (f (pending_op fingerprint r)) (Some l) h w db') as [Hok Hg]; [done|done| |done| | |split_and!; [exact Hok|exact Hg|]].
  - split; cbn; [done|split; [done|by intros [? ?]]|done|by intros [? ?]].
  - intros ? [= <-]. split_and!; try done; [apply Hrow'|set_solver].
  - cbn zeta. unfold id. cbn. rewrite (alter_pending r held) by done. rewrite (ro_leases _ _ _ _ _ Hw). done.
  - hnf. right. rewrite (aq_op _ _ _ Ha'). split; [|by apply (acquire_rates r held)]. left. exists l, (f (pending_op fingerprint r)).
    assert (Hls : db_Leases (w db') = db_Leases db') by (apply (ro_leases _ _ _ _ _ Hw)).
    split_and!; try done; [apply Ha'|cbn; by rewrite Hls|cbn; by rewrite (alter_pending r held)| |].
    + eapply (granted_limits r c k p); try done; [apply Ha'|cbn; by rewrite Hls].
    + intros E. by eapply row_authorised.
Qed.

Lemma seed_rate_fold client v kinds db :
  let new := fold_left (seed_rate client v) kinds db in
  new = {| db with db_Rates := db_Rates new |} /\ (forall c k, db_Rates new !! (c, k) = db_Rates db !! (c, k) \/ c = client /\ k ∈ kinds).
Proof.
  revert db. induction kinds as [|kind kinds IH]; intros db; cbn; [split; [by destruct db|by left]|].
  destruct (IH (seed_rate client v db kind)) as [E Hr]. assert (Hs : seed_rate client v db kind = {| db with db_Rates := db_Rates (seed_rate client v db kind) |})
    by (unfold seed_rate; destruct (ct_Clients _ !! _); [done|by destruct db]).
  split; [rewrite E at 1; rewrite Hs; done|]. intros c k. destruct (Hr c k) as [->|[-> ?]]; [|right; set_solver]. unfold seed_rate.
  destruct (ct_Clients _ !! _) as [cl|]; [|by left]. cbn. destruct (decide ((c, k) = (client, kind))) as [[= -> ->]|Hne]; [right; set_solver|left; by rewrite lookup_insert_ne].
Qed.

Lemma rating_seed_rates client : rating client any_rate (seed_rates client).
Proof.
  intros c Q w0 held w db Hw HQ. apply wp_stmt. intros busy now db' Hr Hi _. apply tx_wp_ret, HQ; [done|set_solver|]. set (kinds := missing_rates _ _). set (v := w db').
  clearbody kinds v. pose proof (fun d => proj1 (seed_rate_fold client v kinds (w d))) as Hf. pose proof (fun d => proj2 (seed_rate_fold client v kinds (w d))) as Hs. cbn in Hf, Hs.
  split; try (intros d; rewrite Hf; apply Hw). intros d x k. destruct (Hs d x k) as [->|[-> Hk]].
  - destruct (ro_rates _ _ _ _ _ Hw d x k) as [?|(? & ? & ?)]; [by left|right; set_solver].
  - right. split_and!; [done|done|]. apply elem_of_union_r, elem_of_list_to_set, list_elem_of_fmap. by exists k.
Qed.

(** What holds while an acquisition takes from the rates. *)
Record taking (r : AdmissionRequest) (c : Client) (k : APIKey) (p : ModelPool) (counts : Counts) held db : Prop := {
  tk_acquiring : acquiring r held db;
  tk_row : row_of r c k p held db;
  tk_counted : counted r counts db
}.

Lemma taking_rely r c k p counts held held' db db' : rely (CAcquire r) held db db' -> held ⊆ held' -> taking r c k p counts held db -> taking r c k p counts held' db'.
Proof.
  intros Hr Hs [H1 H2 H3]. split; [by eapply acquiring_rely|by eapply row_of_rely|]. eapply counted_rely; [exact Hr|apply H2|done].
Qed.

Lemma take_rates_commits r c k p counts held w db : taking r c k p counts held db -> acquire_writes r held w -> admits r c k p counts ->
  wp (CAcquire r) (take_rates r c (co_Now counts)) (commits (CAcquire r)) held w db.
Proof.
  intros Ht Hw Had.
  assert (Hg : forall held w db, taking r c k p counts held db -> acquire_writes r held w ->
    wp (CAcquire r) (grant r (cl_PriorityClass c) (co_Now counts)) (commits (CAcquire r)) held w db).
  { intros h w1 d [H1 H2 H3] H4. by eapply grant_commits. }
  assert (Hrates : forall kind revision capacity debit reason (next : Tx (Ending Answer)) held w db, taking r c k p counts held db -> acquire_writes r held w ->
    (forall held w db, taking r c k p counts held db -> acquire_writes r held w -> wp (CAcquire r) next (commits (CAcquire r)) held w db) ->
    wp (CAcquire r)
      (taken ← normalizeRate (ar_ClientID r) kind revision capacity (co_Now counts) debit;
       match taken with
       | None => acquire_failed ErrNoRows
       | Some (false, retry) => rejectAcquire (ar_LeaseID r) reason (Some retry) (co_Now counts) None
       | Some (true, _) => next
       end) (commits (CAcquire r)) held w db).
  { intros kind revision capacity debit reason next h w1 d Htd Hw1 Hnext. apply tx_wp_bind.
    eapply (rating_normalize (ar_ClientID r) any_rate); [done|exact Hw1|]. intros taken h2 w2 d2 Hr2 Hs2 Hw2.
    assert (Ht2 : taking r c k p counts h2 d2) by (by eapply taking_rely). destruct taken as [[[] retry]|]; [by apply Hnext| |done].
    apply reject_commits; [apply Ht2|done]. }
  assert (Hreq : forall held w db, taking r c k p counts held db -> acquire_writes r held w ->
    wp (CAcquire r) (if 0 <? cl_RequestsPerMinute c then
      taken ← normalizeRate (ar_ClientID r) RatePerMinute (cl_Revision c) (cl_RequestsPerMinute c) (co_Now counts) true;
      match taken with
      | None => acquire_failed ErrNoRows
      | Some (false, retry) => rejectAcquire (ar_LeaseID r) ReasonRPMExhausted (Some retry) (co_Now counts) None
      | Some (true, _) => grant r (cl_PriorityClass c) (co_Now counts)
      end
    else grant r (cl_PriorityClass c) (co_Now counts)) (commits (CAcquire r)) held w db).
  { intros h w1 d Htd Hw1. destruct (0 <? _); [by apply Hrates|by apply Hg]. }
  unfold take_rates. cbv zeta. destruct (0 <? cl_TokensPerMinute c); [by apply Hrates|by apply Hreq].
Qed.

(** The checks passed. *)
Lemma checks_admit r revision c k p counts : let now := co_Now counts in
  stale_configuration r (revision, c, k, p) now = false ->
  (ar_EffectiveClientLimit r <=? 0) || (cl_MaxConcurrency c <? ar_EffectiveClientLimit r) = false ->
  (0 <? mp_MaxGatewayInflight p) && (mp_MaxGatewayInflight p <=? co_Pool counts) = false ->
  (0 <? mp_HighPriorityReserve p) && lower_class (cl_PriorityClass c) && (mp_MaxGatewayInflight p - mp_HighPriorityReserve p <=? co_Lower counts) = false ->
  (ar_EffectiveClientLimit r <=? co_Client counts) = false -> revision = ar_ConfigurationRevision r /\ admits r c k p counts.
Proof.
  cbn zeta. unfold stale_configuration. intros Hs He Hp Hl Hc. rewrite !orb_false_iff, !negb_false_iff in Hs.
  destruct Hs as ((((((((((((S1 & S2) & S3) & S4) & S5) & S6) & S7) & S8) & _) & _) & _) & _) & _).
  apply orb_false_iff in He as [_ He]. split; [lia|]. split; [lia|done|lia|lia|intros Hpos|intros Hpos Hlow|lia].
  - apply andb_false_iff in Hp as [?|?]; lia.
  - rewrite Hlow, andb_true_r in Hl. apply andb_false_iff in Hl as [?|?]; lia.
Qed.

Lemma decide_commits r row counts held w db : acquiring r held db -> acquire_writes r held w ->
  (forall revision c k p, row = Some (revision, c, k, p) -> revision = ar_ConfigurationRevision r -> taking r c k p counts held db) ->
  wp (CAcquire r) (decide_acquire r row counts) (commits (CAcquire r)) held w db.
Proof.
  intros Ha Hw Hrow. unfold decide_acquire. cbv zeta. destruct row as [[[[revision c] k] p]|]; [|by apply reject_commits].
  destruct (stale_configuration _ _ _) eqn:C1; [by apply reject_commits|]. destruct (_ || _) eqn:C2; [by apply reject_commits|].
  destruct (GoTime.After _ _ || _); [by apply reject_commits|]. destruct (_ && _) eqn:C3; [by apply reject_commits|].
  destruct (_ && lower_class _ && _) eqn:C4; [by apply reject_commits|]. destruct (_ <=? co_Client _) eqn:C5; [by apply reject_commits|].
  destruct (checks_admit r revision c k p counts) as [E Had]; try done. by eapply take_rates_commits; [eapply Hrow| |].
Qed.

Lemma acquire_commits r db : db_ok db -> ar_LeaseID r ∉ db_Held db -> ar_ConfigurationRevision r <= ct_Revision (db_Config db) ->
  wp (CAcquire r) (acquire fingerprint r) (commits (CAcquire r)) ∅ (fun d => d) db.
Proof.
  intros Hi0 Hn Hrev. unfold acquire. set (id := ar_LeaseID r) in *. apply tx_wp_bind, wp_insert; intros db1 Hr1 Hi1 Habs; cbn [negb]; [apply resolve_commits|].
  apply bool_decide_eq_true in Habs. set (h1 := ∅ ∪ {[KOp id]}).
  assert (Ha1 : acquiring r h1 db1).
  { split; [set_solver|done| |by apply (rl_call _ _ _ _ Hr1)|pose proof (rl_revision _ _ _ _ Hr1); lia].
    destruct (db_Leases db1 !! ar_LeaseID r) as [l|] eqn:Hl; [|done]. destruct (ok_leases _ Hi1 _ _ Hl) as (o & Ho & _). cbn in Habs. unfold id in Habs. congruence. }
  assert (Hw1 : acquire_writes r h1 (with_op id (pending_op fingerprint r))) by (split; eauto).
  change (fun d : Db => {| d with db_Ops := _ |}) with (with_op id (pending_op fingerprint r)). set (w1 := with_op id (pending_op fingerprint r)) in *.
  apply tx_wp_bind, wp_select. intros db2 Hr2 Hi2. change (db_PoolScopes (w1 db2)) with (db_PoolScopes db2). set (h2 := h1 ∪ _).
  assert (Hp2 : pool_locked r h2 db2).
  { unfold h2. case_bool_decide as Hin; [left; split; [set_solver|done]|right; left]. apply eq_None_not_Some. intros Hs. by apply Hin, (ok_pools _ Hi2). }
  assert (Ha2 : acquiring r h2 db2) by (eapply acquiring_rely; [exact Hr2|set_solver|done]).
  apply tx_wp_bind, wp_select. intros db3 Hr3 Hi3. change (db_ClientScopes (w1 db3)) with (db_ClientScopes db3). set (h3 := h2 ∪ _). assert (Hs3 : h2 ⊆ h3) by set_solver.
  assert (Hc3 : client_locked r h3 db3).
  { unfold h3. case_bool_decide as Hin; [left; split; [set_solver|done]|right; left]. apply eq_None_not_Some. intros Hs. by apply Hin, (ok_clients _ Hi3). }
  assert (Hp3 : pool_locked r h3 db3) by (by eapply pool_locked_rely). assert (Ha3 : acquiring r h3 db3) by (by eapply acquiring_rely).
  assert (Hw3 : acquire_writes r h3 w1) by (eapply rates_only_weaken; [|exact Hw1]; set_solver). clearbody h3.
  apply tx_wp_bind, wp_query. intros _ db4 Hr4 Hi4. assert (Ha4 : acquiring r h3 db4) by (by eapply acquiring_rely).
  set (row := config_row r (w1 db4)).
  assert (Hrow4 : forall revision c k p, row = Some (revision, c, k, p) -> revision = ar_ConfigurationRevision r -> row_of r c k p h3 db4).
  { intros revision c k p E1 E2. eapply (config_row_of r h3 w1); [done|done|done|by eapply pool_locked_rely|by eapply client_locked_rely]. }
  clearbody row. apply tx_wp_bind. eapply rating_seed_rates; [exact Hw3|]. intros _ h5 w5 db5 Hr5 Hs5 Hw5. apply tx_wp_bind.
  eapply (rating_lock _ any_rate); [exact Hw5|]. intros _ h6 w6 db6 Hr6 Hs6 Hw6. apply tx_wp_bind, wp_query. intros now db7 Hr7 Hi7. cbv zeta.
  assert (Hr47 : rely (CAcquire r) h3 db4 db7).
  { eapply rely_trans; [exact Hr5|]. eapply rely_trans; [eapply rely_weaken; [|exact Hr6]|eapply rely_weaken; [|exact Hr7]]; set_solver. }
  assert (Hs36 : h3 ⊆ h6) by set_solver. apply decide_commits; [by eapply acquiring_rely|done|]. intros revision c k p E1 E2. split; [by eapply acquiring_rely|by eapply row_of_rely; eauto|].
  pose proof (ro_leases _ _ _ _ _ Hw6 db7) as Hls. split; cbn; unfold count, live; rewrite Hls; done.
Qed.

(** ** The system *)

Lemma change_commits e calls db db' : db_ok db -> change e calls db = Some db' -> db_ok db' /\ forall c held, c ∈ calls -> rely c held db db'.
Proof.
  intros Hi. destruct e as [backends|id at_|id]; unfold change.
  - intros [= <-]. split; [split; apply Hi|]. intros c held _. apply (guar_rely c ∅ held); [set_solver|]. split; eauto.
    + left. eexists. split; [done|done].
    + right. cbn. lia.
  - intros [= <-]. split; [split; apply Hi|]. intros c held _. pose proof (rely_refl c held db) as R. split; try apply R; try done.
    intros _. apply same_config_touch.
  - destruct (existsb _ calls) eqn:He; [done|]. intros [= <-]. split; [split; apply Hi|]. intros c held Hc. pose proof (rely_refl c held db) as R.
    split; try apply R; cbn; [set_solver|]. destruct c as [r| | | | | | | | | | | |]; try done. intros Hn [<-%elem_of_singleton|?]%elem_of_union; [|done].
    assert (existsb (acquires (ar_LeaseID r)) calls = true); [|congruence]. apply existsb_exists. exists (CAcquire r). split; [by apply list_elem_of_In|].
    by apply bool_decide_eq_true.
Qed.

Lemma program_commits c db : db_ok db -> may_call c db = true -> wp c (program fingerprint c) (commits c) ∅ (fun d => d) db.
Proof.
  intros Hi. destruct c as [r|leases|item| | | | | | | | | |]; cbn [may_call program]; intros Hm.
  - b2p. by apply acquire_commits.
  - apply renew_commits; [done|]. rewrite forallb_forall in Hm. intros l Hl. apply list_elem_of_In in Hl. specialize (Hm l Hl). by b2p.
  - b2p. by apply complete_commits.
  - apply cleanup_expired_commits.
  - apply cleanup_receipts_commits.
  - apply create_client_commits.
  - apply update_client_commits.
  - apply delete_client_commits.
  - apply create_pool_commits.
  - apply update_pool_commits.
  - apply delete_pool_commits.
  - apply create_key_commits.
  - apply revoke_key_commits.
Qed.

End Seen.

Abbreviation start db := {| sy_db := db; sy_txs := ∅ |}.
Abbreviation step := (sys_step (program fingerprint) change may_call).
Abbreviation run := (sys_run (program fingerprint) change may_call).

Lemma run_commit ls db s i s' c a : db_ok db -> run ls (start db) = Some s -> committing i s = Some (c, a) -> step (LCommit i) s = Some s' ->
  db_ok (sy_db s) /\ db_ok (sy_db s') /\ Post (seen_by i s) c a (sy_db s) (sy_db s').
Proof. apply (commit_post _ _ _ rely db_ok Post); [apply rely_refl|apply rely_trans|apply change_commits|apply program_commits]. Qed.

Lemma run_tables ls db s : db_ok db -> run ls (start db) = Some s -> db_ok (sy_db s).
Proof.
  intros Hi Hr. eapply so_inv, (sys_run_ok _ _ _ rely db_ok Post); [apply rely_refl|apply rely_trans|apply change_commits|apply program_commits|by apply sys_init_ok|exact Hr].
Qed.

(** ** Properties *)

(** C6. In every interleaving of acquisitions, renewals, completions, cleanups and
    configuration mutations, by any number of replicas: when an acquisition of a new ID
    commits a lease, the pool, its part for the lower classes and the client have no more
    leases than the request's limits allow, counted at the time of the lease, and the
    configuration of that revision authorises the request. *)
Theorem pg_acquire_limits ls db s i s' r (d : AdmissionDecision) lease : db_ok db -> run ls (start db) = Some s ->
  committing i s = Some (CAcquire r, AnsAcquire (inr d)) -> step (LCommit i) s = Some s' ->
  db_Ops (sy_db s) !! ar_LeaseID r = None -> ad_Lease d = Some lease ->
  exists l, db_Leases (sy_db s') = <[ar_LeaseID r := l]> (db_Leases (sy_db s)) /\ db_Leases (sy_db s) !! ar_LeaseID r = None /\
    lr_ClientID l = ar_ClientID r /\ lr_PoolID l = ar_PoolID r /\ limits_hold r l (sy_db s') /\
    (ct_Revision (db_Config (sy_db s)) = ar_ConfigurationRevision r -> authorised r (sy_db s)).
Proof.
  intros Hi Hrun Hc Hstep Hnew Hl. destruct (run_commit _ _ _ _ _ _ _ Hi Hrun Hc Hstep) as (_ & _ & Hp). hnf in Hp. rewrite Hnew in Hp.
  destruct Hp as [(-> & _)|[[Hg|Hr] _]]; [done| |destruct Hr as (o & E & _); congruence].
  destruct Hg as (l & o & _ & ? & ? & ? & ? & _ & _ & _ & _ & ? & ?). exists l. by split_and!.
Qed.

(** C7. An acquisition with a known ID creates no lease and takes nothing from the rates.
    It answers a conflict, without a change, only when one of its statements found a receipt
    with another fingerprint; otherwise its own is the one of the receipt, and the answer is
    what the receipt and the lease determine: the refusal the receipt holds; that the lease is
    lost when it was completed or has expired; the lease, which is in the table and not
    expired at the time the transaction read; and that it is lost, which the receipt then
    keeps, when a statement found no lease or the lease expired by that time. *)
Theorem pg_acquire_idempotent ls db s i s' r (d : AdmissionDecision) o : db_ok db -> run ls (start db) = Some s ->
  committing i s = Some (CAcquire r, AnsAcquire (inr d)) -> step (LCommit i) s = Some s' -> db_Ops (sy_db s) !! ar_LeaseID r = Some o ->
  db_Leases (sy_db s') = db_Leases (sy_db s) /\ db_Rates (sy_db s') = db_Rates (sy_db s) /\
  (conflicting (seen_by i s) r d (sy_db s) (sy_db s') \/ op_Fingerprint o = fingerprint r /\ replayed (seen_by i s) r o d (sy_db s) (sy_db s')).
Proof.
  intros Hi Hrun Hc Hstep Ho. destruct (run_commit _ _ _ _ _ _ _ Hi Hrun Hc Hstep) as (_ & _ & Hp). hnf in Hp. rewrite Ho in Hp.
  assert (Hsame : db_Leases (sy_db s') = db_Leases (sy_db s) /\ db_Rates (sy_db s') = db_Rates (sy_db s)).
  { destruct Hp as [(_ & -> & _)|[_ Hp]]; [done|]. unfold replayed in Hp. case_bool_decide; [by destruct Hp as [-> _]|].
    destruct (_ || _); [by destruct Hp as [-> _]|]. destruct Hp as (now & _ & [(l & _ & _ & -> & _)|(_ & -> & _)]); done. }
  by destruct Hsame.
Qed.

(** C8. A lease is completed once.  By the receipt at the commit: without one the answer is
    that the operation is stale, or that the lease is lost when a statement had found it
    refused; a refused one is answered so; a completed one is answered as already completed,
    with the result it holds; none of them changes anything.  Any other is completed now, at
    a time the transaction read: the lease is deleted, the receipt keeps the result, which is
    that it was released when it was there and not expired and that it was lost otherwise, and
    the rates change at most for the tokens of its client. *)
Theorem pg_complete_once ls db s i s' item res : db_ok db -> run ls (start db) = Some s ->
  committing i s = Some (CComplete item, AnsComplete (inr res)) -> step (LCommit i) s = Some s' ->
  complete_post (seen_by i s) item res (sy_db s) (sy_db s').
Proof. intros Hi Hrun Hc Hstep. by destruct (run_commit _ _ _ _ _ _ _ Hi Hrun Hc Hstep) as (_ & _ & Hp). Qed.

(** C18. At a time the renewal read, a lease is renewed for the identities of its owner with
    a time to live, when it has not expired, and every other one is answered as lost.  A
    renewed lease expires after the longest time its owner asks for; a lease that is named
    and has expired is deleted; every other lease stays as it is, and none comes back. *)
Theorem pg_renew_owned ls db s i s' leases results : db_ok db -> run ls (start db) = Some s ->
  committing i s = Some (CRenew leases, AnsRenew results) -> step (LCommit i) s = Some s' ->
  renew_post (seen_by i s) leases results (sy_db s) (sy_db s').
Proof. intros Hi Hrun Hc Hstep. by destruct (run_commit _ _ _ _ _ _ _ Hi Hrun Hc Hstep) as (_ & _ & Hp). Qed.

(** C9. In every state of every interleaving each lease has a receipt of its client and
    pool that admitted it and is not completed, its pool and client have their lock rows,
    every committed receipt is decided, and a completed one has no lease. *)
Theorem pg_tables_consistent ls db s : db_ok db -> run ls (start db) = Some s ->
  db_ok (sy_db s) /\ forall id o, db_Ops (sy_db s) !! id = Some o -> is_Some (op_CompletedAt o) -> db_Leases (sy_db s) !! id = None.
Proof.
  intros Hi Hrun. pose proof (run_tables _ _ _ Hi Hrun) as Hok. split; [done|]. intros id o Ho [t Ht].
  destruct (db_Leases (sy_db s) !! id) as [l|] eqn:Hl; [|done]. destruct (ok_leases _ Hok id l Hl) as (o' & Ho' & _ & _ & _ & Hn). congruence.
Qed.

End PgAdmissionSafety.

(** ** Witnesses *)

Section Witnesses.

(** One client of one pool with two slots, and two requests. *)
Definition w_client : Client :=
  {| cl_ID := 1; cl_Revision := 1; cl_Name := "batch"; cl_Enabled := true; cl_PriorityClass := PriorityNormal; cl_VLLMPriority := 0; cl_MaxConcurrency := 2;
     cl_RequestsPerMinute := 60; cl_TokensPerMinute := 1000; cl_CreatedAt := 0; cl_UpdatedAt := 0 |}.
Definition w_key : APIKey :=
  {| ak_ID := 1; ak_ClientID := 1; ak_Prefix := "k"; ak_SecretHash := 7%N; ak_CreatedAt := 0; ak_ExpiresAt := None; ak_RevokedAt := None; ak_LastUsedAt := None |}.
Definition w_pool : ModelPool :=
  {| mp_ID := 1; mp_Revision := 1; mp_PublicModelName := "m"; mp_UpstreamModelName := "m"; mp_Enabled := true; mp_MaxGatewayInflight := 3; mp_HighPriorityReserve := 1;
     mp_MaxWaiting := 0; mp_CreatedAt := 0; mp_UpdatedAt := 0 |}.
Definition w_db : Db (FP := UUID) :=
  {| db_Ops := ∅; db_Leases := ∅; db_Rates := ∅; db_PoolScopes := {[1]}; db_ClientScopes := {[1]};
     db_Config := {| ct_Revision := 1; ct_Clients := {[1 := w_client]}; ct_Keys := {[1 := w_key]}; ct_Pools := {[1 := w_pool]}; ct_Access := {[(1, 1)]}; ct_Backends := ∅ |};
     db_Held := ∅ |}.
Definition w_now : Time := unixEpoch + 1000000 * GoTime.Second.
Definition w_request (id : UUID) : AdmissionRequest :=
  {| ar_LeaseID := id; ar_OperationStartedAt := w_now; ar_RequestID := "r"; ar_ReplicaID := 9%N; ar_ConfigurationRevision := 1; ar_APIKeyID := 1; ar_ClientID := 1;
     ar_PoolID := 1; ar_ClientPolicyRevision := 1; ar_EffectiveClientLimit := 2; ar_ConfiguredClientLimit := 2; ar_PoolGatewayInflightLimit := 3;
     ar_PoolHighPriorityReserve := 1; ar_PriorityClass := PriorityNormal; ar_RequestsPerMinute := 60; ar_TokensPerMinute := 1000; ar_LeaseTTL := 30 * GoTime.Second |}.
Definition w_lease (id : UUID) : LeaseIdentity :=
  {| li_LeaseID := id; li_ClientID := 1; li_PoolID := 1; li_RequestID := "r"; li_ReplicaID := 9%N; li_ExpiresAt := w_now + 30 * GoTime.Second; li_TTL := 30 * GoTime.Second |}.
Definition w_item (id : UUID) : LeaseCompletion := {| lc_Lease := w_lease id; lc_Usage := Some {| tu_InputTokens := 10; tu_OutputTokens := 5; tu_CacheReadTokens := 0 |} |}.
Definition w_fingerprint (r : AdmissionRequest) : UUID := ar_LeaseID r.

Definition statements (i n : nat) : list (Label (Call := Call) (Change := Change)) := replicate n (LStatement i w_now).
(** Two acquisitions, each past its first statement before the other commits. *)
Definition w_two : list Label := [LBegin 0 (CAcquire (w_request 5%N)); LBegin 1 (CAcquire (w_request 6%N))] ++ statements 0 1 ++ statements 1 1 ++ statements 0 13 ++ [LCommit 0] ++ statements 1 13.
Definition w_again : list Label := w_two ++ [LCommit 1; LBegin 2 (CAcquire (w_request 5%N))] ++ statements 2 7.
Definition w_renew : list Label := w_two ++ [LCommit 1; LChange (ChHeld 5%N); LBegin 2 (CRenew [w_lease 5%N])] ++ statements 2 9.
Definition w_complete : list Label := w_two ++ [LCommit 1; LChange (ChHeld 5%N); LBegin 2 (CComplete (w_item 5%N))] ++ statements 2 14.
Abbreviation w_run ls := (sys_run (program w_fingerprint) change may_call ls {| sy_db := w_db; sy_txs := ∅ |}).

Definition w_granted (id : UUID) : AdmissionDecision := granted (w_lease id).

Lemma w_db_ok : db_ok w_db.
Proof.
  split; cbn; try (intros *; rewrite lookup_empty; done); intros id; (destruct (decide (id = 1)) as [->|]; [set_solver|rewrite lookup_singleton_ne by done; by intros [? ?]]).
Qed.

Lemma w_two_commits : (s ← w_run w_two; committing 1 s) = Some (CAcquire (w_request 6%N), AnsAcquire (inr (w_granted 6%N))).
Proof. vm_compute. reflexivity. Qed.

Lemma w_two_new : (s ← w_run w_two; db_Ops (sy_db s) !! 6%N) = None.
Proof. vm_compute. reflexivity. Qed.

Lemma w_again_commits : (s ← w_run w_again; committing 2 s) = Some (CAcquire (w_request 5%N), AnsAcquire (inr (w_granted 5%N))).
Proof. vm_compute. reflexivity. Qed.

Lemma w_again_known : is_Some (s ← w_run w_again; db_Ops (sy_db s) !! 5%N).
Proof. vm_compute. by eexists. Qed.

Lemma w_renew_commits : (s ← w_run w_renew; committing 2 s) = Some (CRenew [w_lease 5%N], AnsRenew [{| rr_Lease := w_lease 5%N; rr_Reason := ReasonNone |}]).
Proof. vm_compute. reflexivity. Qed.

Lemma w_complete_commits :
  (s ← w_run w_complete; committing 2 s) = Some (CComplete (w_item 5%N), AnsComplete (inr (complete_result 5%N CompletionReleased CompletionNone ReasonNone))).
Proof. vm_compute. reflexivity. Qed.

Lemma w_reaches ls i ca : (s ← w_run ls; committing i s) = Some ca ->
  exists s s', w_run ls = Some s /\ committing i s = Some ca /\ sys_step (program w_fingerprint) change may_call (LCommit i) s = Some s'.
Proof.
  destruct (w_run ls) as [s|]; cbn; [|done]. destruct ca as [c a]. intros Hc.
  destruct (committing_step (program w_fingerprint) change may_call i s c a Hc) as [s' Hs]. by exists s, s'.
Qed.

Lemma pg_acquire_limits_witness : exists s s' l, w_run w_two = Some s /\ sys_step (program w_fingerprint) change may_call (LCommit 1) s = Some s' /\
  db_Leases (sy_db s') !! 6%N = Some l /\ limits_hold (w_request 6%N) l (sy_db s').
Proof.
  destruct (w_reaches _ _ _ w_two_commits) as (s & s' & Hrun & Hc & Hs). pose proof w_two_new as Hn. rewrite Hrun in Hn.
  destruct (pg_acquire_limits w_fingerprint _ _ _ _ _ _ _ _ w_db_ok Hrun Hc Hs Hn eq_refl) as (l & Hl & _ & _ & _ & Hlim & _).
  exists s, s', l. split; [exact Hrun|]. split; [exact Hs|]. split; [|exact Hlim]. rewrite Hl. apply lookup_insert_eq.
Defined.

Lemma pg_acquire_idempotent_witness : exists s s', w_run w_again = Some s /\ sys_step (program w_fingerprint) change may_call (LCommit 2) s = Some s' /\
  db_Leases (sy_db s') = db_Leases (sy_db s) /\ db_Rates (sy_db s') = db_Rates (sy_db s).
Proof.
  destruct (w_reaches _ _ _ w_again_commits) as (s & s' & Hrun & Hc & Hs). destruct w_again_known as [o Ho]. rewrite Hrun in Ho.
  destruct (pg_acquire_idempotent w_fingerprint _ _ _ _ _ _ _ _ w_db_ok Hrun Hc Hs Ho) as (Hl & Hr & _). exists s, s'. by split_and!.
Defined.

Lemma pg_complete_once_witness : exists s s', w_run w_complete = Some s /\ sys_step (program w_fingerprint) change may_call (LCommit 2) s = Some s' /\
  complete_post (seen_by 2 s) (w_item 5%N) (complete_result 5%N CompletionReleased CompletionNone ReasonNone) (sy_db s) (sy_db s').
Proof.
  destruct (w_reaches _ _ _ w_complete_commits) as (s & s' & Hrun & Hc & Hs). exists s, s'. split; [exact Hrun|]. split; [exact Hs|].
  exact (pg_complete_once w_fingerprint _ _ _ _ _ _ _ w_db_ok Hrun Hc Hs).
Defined.

Lemma pg_renew_owned_witness : exists s s', w_run w_renew = Some s /\ sys_step (program w_fingerprint) change may_call (LCommit 2) s = Some s' /\
  renew_post (seen_by 2 s) [w_lease 5%N] [{| rr_Lease := w_lease 5%N; rr_Reason := ReasonNone |}] (sy_db s) (sy_db s').
Proof.
  destruct (w_reaches _ _ _ w_renew_commits) as (s & s' & Hrun & Hc & Hs). exists s, s'. split; [exact Hrun|]. split; [exact Hs|].
  exact (pg_renew_owned w_fingerprint _ _ _ _ _ _ _ w_db_ok Hrun Hc Hs).
Defined.

Lemma pg_tables_consistent_witness : exists s, w_run w_complete = Some s /\ db_ok (sy_db s).
Proof.
  destruct (w_reaches _ _ _ w_complete_commits) as (s & _ & Hrun & _ & _). exists s. split; [exact Hrun|].
  exact (proj1 (pg_tables_consistent w_fingerprint _ _ _ w_db_ok Hrun)).
Defined.

End Witnesses.
