(* ===== verification/PgTokenization.v ===== *)
(** The PostgreSQL tokenization coordinator
    ([src/internal/coordination/postgres/tokenization.go],
    [src/internal/coordination/postgres/tokenization_cleanup.go]) as transactions over its
    tables and the configuration tables, and what it guarantees in every interleaving.

    The fingerprint is a parameter.  [FOR SHARE] waits for writers but does not hold them
    up: the model has more interleavings than the database.  The configuration changes
    between any two statements, each time with a higher revision. *)

From stdpp Require Import sorting.
From S2P Require Import Prelude Domain Float64 Coordination Tokenization Pg PgAdmission.

(** [ORDER BY] a column. *)
Definition by_column {A : Type} (column : A -> Z) (a b : A) : Prop := column a <= column b.

#[global] Instance by_column_dec {A : Type} (column : A -> Z) : RelDecision (by_column column).
Proof. intros a b. unfold by_column. apply _. Defined.

(** ** Tables *)

(** [tokenization_leases] *)
Record TkLeaseRow := { tw_ClientID : Z; tw_BackendID : Z; tw_ExpiresAt : Time }.

(** [tokenization_rate_state] *)
Record TkRateRow := { tq_Balance : float64; tq_LastRefillAt : Time }.

(** The rows that transactions lock. *)
Inductive TkKey :=
| TkOp (id : UUID)
| TkLease (id : UUID)
| TkClient (id : Z)
| TkBackend (id : Z)
| TkRate (id : Z).

#[global] Instance TkKey_eq_dec : EqDecision TkKey.
Proof. solve_decision. Defined.

#[global] Instance TkKey_countable : Countable TkKey.
Proof.
  refine (inj_countable'
    (fun k => match k with TkOp id => inl (inl id) | TkLease id => inl (inr id) | TkClient id => inr (inl id) | TkBackend id => inr (inr (inl id))
              | TkRate id => inr (inr (inr id)) end)
    (fun x => match x with inl (inl id) => TkOp id | inl (inr id) => TkLease id | inr (inl id) => TkClient id | inr (inr (inl id)) => TkBackend id
              | inr (inr (inr id)) => TkRate id end) _). by intros [].
Defined.

Section PgTokenization.
Context {FP : Type} `{!EqDecision FP} (Fingerprint : TokenizationAcquireRequest -> FP) (policy : TokenizationPolicy).

(** [tokenization_operations] *)
Record TkOpRow := { to_Fingerprint : FP; to_Decision : TokenizationDecision; to_Completed : bool; to_RetainUntil : Time }.

Record TkDb := {
  tb_Ops : gmap UUID TkOpRow;
  tb_Leases : gmap UUID TkLeaseRow;
  tb_Clients : gset Z;
  tb_Backends : gset Z;
  tb_Rates : gmap Z TkRateRow;
  tb_Config : ConfigTables
}.

Abbreviation Tx := (Tx (Db := TkDb) (Key := TkKey)).

Inductive TkAnswer :=
| TkAcquired (d : Error + TokenizationDecision)
| TkCompleted (e : option Error)
| TkCleaned (rows : nat).

(** ** Acquire *)

Definition tk_failed (e : Error) : Tx (Ending TkAnswer) := TxRet (RolledBack (TkAcquired (inl e))).

(** An answer without a commit, and one with it. *)
Definition tk_answer (d : TokenizationDecision) : Tx (Ending TkAnswer) := TxRet (RolledBack (TkAcquired (inr d))).
Definition tk_commit (d : TokenizationDecision) : Tx (Ending TkAnswer) := TxRet (Committed (TkAcquired (inr d))).

Definition op_present (id : UUID) (v : TkDb) : bool := bool_decide (is_Some (tb_Ops v !! id)).

Definition finish (id : UUID) (d : TokenizationDecision) : Tx (Ending TkAnswer) :=
  update_found (TkOp id) (op_present id) (fun db => {| db with tb_Ops := alter (fun o => {| o with to_Decision := d |}) id (tb_Ops db) |});;
  tk_commit d.

Definition reject (id : UUID) (reason : TokenizationReason) : Tx (Ending TkAnswer) := finish id (refuse reason).

(** [INSERT ... ON CONFLICT DO NOTHING], then [SELECT ... FOR UPDATE]. *)
Definition lock_tk_client (id : Z) : Tx unit :=
  insert_new (TkClient id) (fun v => bool_decide (id ∉ tb_Clients v)) (fun db => {| db with tb_Clients := {[id]} ∪ tb_Clients db |});;
  select_for_update (TkClient id) (fun v => if bool_decide (id ∈ tb_Clients v) then Some tt else None);;
  TxRet tt.

Definition lock_tk_backend (id : Z) : Tx unit :=
  insert_new (TkBackend id) (fun v => bool_decide (id ∉ tb_Backends v)) (fun db => {| db with tb_Backends := {[id]} ∪ tb_Backends db |});;
  select_for_update (TkBackend id) (fun v => if bool_decide (id ∈ tb_Backends v) then Some tt else None);;
  TxRet tt.

Fixpoint lock_candidates (candidates : list TokenizationCandidate) : Tx unit :=
  match candidates with
  | [] => TxRet tt
  | b :: candidates => lock_tk_backend (tc_BackendID b);; lock_candidates candidates
  end.

(** [sort.Slice(candidates, ...)] by the ID. *)
Definition sorted_candidates (r : TokenizationAcquireRequest) : list TokenizationCandidate := merge_sort (by_column tc_BackendID) (tr_Candidates r).

Definition backend_eligible (r : TokenizationAcquireRequest) (b : TokenizationCandidate) (v : TkDb) : bool :=
  match ct_Backends (tb_Config v) !! tc_BackendID b with
  | None => false
  | Some row => (be_Revision row =? tc_BackendRevision b) && (be_ModelPoolID row =? tr_PoolID r) && be_Enabled row && negb (be_Draining row)
  end.

Fixpoint eligible_candidates (r : TokenizationAcquireRequest) (candidates : list TokenizationCandidate) : Tx (list TokenizationCandidate) :=
  match candidates with
  | [] => TxRet []
  | b :: candidates =>
    good ← query (fun _ => backend_eligible r b);
    rest ← eligible_candidates r candidates;
    TxRet (if (good : bool) then b :: rest else rest)
  end.

(** [SELECT count] of the leases that have not expired. *)
Definition tk_live (now : Time) (sel : TkLeaseRow -> bool) (v : TkDb) : gmap UUID TkLeaseRow :=
  filter (fun '(_, l) => sel l = true /\ now < tw_ExpiresAt l) (tb_Leases v).

Definition tk_count (now : Time) (sel : TkLeaseRow -> bool) (v : TkDb) : Z := Z.of_nat (size (tk_live now sel v)).

Definition of_tk_client (id : Z) (l : TkLeaseRow) : bool := tw_ClientID l =? id.
Definition of_tk_backend (id : Z) (l : TkLeaseRow) : bool := tw_BackendID l =? id.

(** [math.MaxInt] *)
Definition maxInt : Z := 2 ^ 63 - 1.

(** The least loaded of the candidates; the zero candidate is none. *)
Fixpoint select_backend (now : Time) (eligible : list TokenizationCandidate) (selected : TokenizationCandidate) (best : Z) : Tx TokenizationCandidate :=
  match eligible with
  | [] => TxRet selected
  | b :: eligible =>
    n ← query (fun _ => tk_count now (of_tk_backend (tc_BackendID b)));
    if (n <? tp_BackendMaxInflight policy) && (n <? best) then select_backend now eligible b n else select_backend now eligible selected best
  end.

Definition refilled (row : TkRateRow) (now : Time) : float64 :=
  go_min (Burst policy)
    (fadd (tq_Balance row)
       (fdiv (fmul (go_max fzero (Seconds (GoTime.Sub now (tq_LastRefillAt row)))) (of_int (tp_ClientRPM policy))) (of_int 60))).

Definition tk_lease (r : TokenizationAcquireRequest) (b : TokenizationCandidate) (now : Time) : TokenizationLease :=
  {| tl_OperationID := tr_OperationID r; tl_ReplicaID := tr_ReplicaID r; tl_ClientID := tr_ClientID r; tl_PoolID := tr_PoolID r;
     tl_BackendID := tc_BackendID b; tl_BackendRevision := tc_BackendRevision b; tl_AcquiredAt := now; tl_ExpiresAt := GoTime.Add now (LeaseTTL policy) |}.

Definition tk_granted (l : TokenizationLease) : TokenizationDecision := {| td_Lease := Some l; td_Reason := TokenizationNoReason; td_RetryAt := None |}.

(** The rate and the lease, once a backend is selected. *)
Definition grant_tokenization (r : TokenizationAcquireRequest) (b : TokenizationCandidate) (now : Time) : Tx (Ending TkAnswer) :=
  let id := tr_OperationID r in
  let client := tr_ClientID r in
  insert_new (TkRate client) (fun v => bool_decide (tb_Rates v !! client = None))
    (fun db => {| db with tb_Rates := <[client := {| tq_Balance := Burst policy; tq_LastRefillAt := now |}]> (tb_Rates db) |});;
  row ← select_for_update (TkRate client) (fun v => tb_Rates v !! client);
  match row with
  | None => tk_failed ErrNoRows
  | Some row =>
    let balance := refilled row now in
    if flt balance fone
    then finish id {| td_Lease := None; td_Reason := TokenizationRateLimit; td_RetryAt := Some (retry_at policy now balance) |}
    else
      update_found (TkRate client) (fun v => bool_decide (is_Some (tb_Rates v !! client)))
        (fun db => {| db with tb_Rates := alter (fun _ => {| tq_Balance := fsub balance fone; tq_LastRefillAt := now |}) client (tb_Rates db) |});;
      let l := tk_lease r b now in
      inserted ← insert_new (TkLease id) (fun v => bool_decide (tb_Leases v !! id = None))
        (fun db => {| db with tb_Leases := <[id := {| tw_ClientID := client; tw_BackendID := tl_BackendID l;
                                                     tw_ExpiresAt := timestamptz (tl_ExpiresAt l) |}]> (tb_Leases db) |});
      if negb inserted then tk_failed ErrUnique else finish id (tk_granted l)
  end.

(** The limits, once the configuration allows the request. *)
Definition admit_tokenization (r : TokenizationAcquireRequest) (eligible : list TokenizationCandidate) (now : Time) : Tx (Ending TkAnswer) :=
  let id := tr_OperationID r in
  clientCount ← query (fun _ => tk_count now (of_tk_client (tr_ClientID r)));
  if tp_ClientMaxInflight policy <=? clientCount then reject id TokenizationClientLimit
  else
    selected ← select_backend now eligible {| tc_BackendID := 0; tc_BackendRevision := 0 |} maxInt;
    if tc_BackendID selected =? 0 then reject id TokenizationBackendLimit else grant_tokenization r selected now.

(** The revision and the time, read last. *)
Definition check_revision (r : TokenizationAcquireRequest) (expires : option Time) (eligible : list TokenizationCandidate) : Tx (Ending TkAnswer) :=
  let id := tr_OperationID r in
  meta ← query (fun now v => (ct_Revision (tb_Config v), timestamptz now));
  let '(revision, now) := meta in
  if negb (revision =? tr_ConfigurationRevision r) || match expires with Some t => negb (GoTime.After t now) | None => false end
  then reject id TokenizationStaleConfiguration
  else if bool_decide (length eligible = 0%nat) then reject id TokenizationStaleConfiguration
  else if negb (ValidAt r now) then reject id TokenizationStaleOperation
  else admit_tokenization r eligible now.

(** The pool, the client, the key, the access and the backends, one after the other. *)
Definition check_configuration (r : TokenizationAcquireRequest) : Tx (Ending TkAnswer) :=
  let id := tr_OperationID r in
  let stale := reject id TokenizationStaleConfiguration in
  pool ← query (fun _ v => ct_Pools (tb_Config v) !! tr_PoolID r);
  match pool with
  | None => stale
  | Some pool =>
    if negb (mp_Enabled pool) || negb (mp_Revision pool =? tr_PoolRevision r) then stale
    else
      client ← query (fun _ v => ct_Clients (tb_Config v) !! tr_ClientID r);
      match client with
      | None => stale
      | Some client =>
        if negb (cl_Enabled client) then stale
        else
          key ← query (fun _ v => ct_Keys (tb_Config v) !! tr_APIKeyID r);
          match key with
          | None => stale
          | Some key =>
            access ← query (fun _ v => bool_decide ((tr_ClientID r, tr_PoolID r) ∈ ct_Access (tb_Config v)));
            if negb access then stale
            else if bool_decide (is_Some (ak_RevokedAt key)) || negb (ak_ClientID key =? tr_ClientID r) then stale
            else
              eligible ← eligible_candidates r (sorted_candidates r);
              check_revision r (ak_ExpiresAt key) eligible
          end
      end
  end.

(** The answer to an operation that has a receipt. *)
Definition replay_tokenization (r : TokenizationAcquireRequest) : Tx (Ending TkAnswer) :=
  row ← select_for_update (TkOp (tr_OperationID r)) (fun v => tb_Ops v !! tr_OperationID r);
  match row with
  | None => tk_failed ErrNoRows
  | Some o =>
    if negb (bool_decide (to_Fingerprint o = Fingerprint r)) then tk_answer (refuse TokenizationConflict)
    else
      now ← clock_timestamp;
      if to_Completed o || match td_Lease (to_Decision o) with Some l => negb (GoTime.After (tl_ExpiresAt l) now) | None => false end
      then tk_answer (refuse TokenizationLeaseLost)
      else tk_commit (to_Decision o)
  end.

(** The receipt before its decision, [{}]. *)
Definition new_op (r : TokenizationAcquireRequest) (now : Time) : TkOpRow :=
  {| to_Fingerprint := Fingerprint r; to_Decision := refuse TokenizationNoReason; to_Completed := false;
     to_RetainUntil := timestamptz (GoTime.Add (if GoTime.After (tr_OperationStartedAt r) now then tr_OperationStartedAt r else now) (24 * GoTime.Hour)) |}.

Definition acquireTokenization (r : TokenizationAcquireRequest) : Tx (Ending TkAnswer) :=
  let id := tr_OperationID r in
  now ← clock_timestamp;
  if negb (ValidAt r now) then tk_answer (refuse TokenizationStaleOperation)
  else
    created ← insert_new (TkOp id) (fun v => bool_decide (tb_Ops v !! id = None)) (fun db => {| db with tb_Ops := <[id := new_op r now]> (tb_Ops db) |});
    if negb created then replay_tokenization r
    else
      lock_tk_client (tr_ClientID r);;
      lock_candidates (sorted_candidates r);;
      check_configuration r.

(** ** Complete *)

Definition ErrIdentityMismatch : Error := ErrOpaque "tokenization lease identity mismatch".

Definition complete_tokenization (l : TokenizationLease) : Tx (Ending TkAnswer) :=
  let id := tl_OperationID l in
  row ← select_for_update (TkOp id) (fun v => tb_Ops v !! id);
  match row with
  | None => TxRet (RolledBack (TkCompleted (Some ErrNoRows)))
  | Some o =>
    if match td_Lease (to_Decision o) with None => true | Some lease => negb (Matches lease l) end
    then TxRet (RolledBack (TkCompleted (Some ErrIdentityMismatch)))
    else
      update_found (TkLease id) (fun v => bool_decide (is_Some (tb_Leases v !! id))) (fun db => {| db with tb_Leases := delete id (tb_Leases db) |});;
      update_found (TkOp id) (op_present id) (fun db => {| db with tb_Ops := alter (fun o => {| o with to_Completed := true |}) id (tb_Ops db) |});;
      TxRet (Committed (TkCompleted None))
  end.

(** ** Cleanup *)

(** The first [limit] of the rows that can go, of those that are not locked. *)
Definition expired_leases (limit : nat) (busy : gset TkKey) (now : Time) (v : TkDb) : list UUID :=
  (take limit (merge_sort (by_column (fun row => tw_ExpiresAt row.2))
     (filter (fun '(id, l) => tw_ExpiresAt l <= now /\ TkLease id ∉ busy) (map_to_list (tb_Leases v))))).*1.

Definition expired_ops (limit : nat) (busy : gset TkKey) (now : Time) (v : TkDb) : list UUID :=
  (take limit (merge_sort (by_column (fun row => to_RetainUntil row.2))
     (filter (fun '(id, o) => to_RetainUntil o <= now /\ tb_Leases v !! id = None /\ TkOp id ∉ busy) (map_to_list (tb_Ops v))))).*1.

Definition cleanup_leases (limit : nat) : Tx (Ending TkAnswer) :=
  ids ← update_unlocked (fun busy now => expired_leases limit busy (timestamptz now)) (fun ids => list_to_set (TkLease <$> ids))
          (fun ids db => {| db with tb_Leases := fold_right delete (tb_Leases db) ids |});
  TxRet (Committed (TkCleaned (length ids))).

Definition cleanup_ops (limit : nat) : Tx (Ending TkAnswer) :=
  ids ← update_unlocked (fun busy now => expired_ops limit busy (timestamptz now)) (fun ids => list_to_set (TkOp <$> ids))
          (fun ids db => {| db with tb_Ops := fold_right delete (tb_Ops db) ids |});
  TxRet (Committed (TkCleaned (length ids))).

(** The buckets of deleted clients, a day after their last use. *)
Definition idle_rates (now : Time) (v : TkDb) : list Z :=
  (filter (fun '(id, row) => tq_LastRefillAt row < now - 24 * GoTime.Hour /\ ct_Clients (tb_Config v) !! id = None) (map_to_list (tb_Rates v))).*1.

Definition cleanup_rates (limit : nat) : Tx (Ending TkAnswer) :=
  let choose now v := take limit (idle_rates (timestamptz now) v) in
  TxStmt (fun _ => ∅) (fun _ now v => list_to_set (TkRate <$> choose now v))
    (fun _ now v db => {| db with tb_Rates := fold_right delete (tb_Rates db) (choose now v) |})
    (fun _ now v => TxRet (Committed (TkCleaned (length (choose now v))))).

(** ** The system *)

Inductive TkCall :=
| TkCAcquire (r : TokenizationAcquireRequest)
| TkCComplete (l : TokenizationLease)
| TkCCleanLeases (limit : nat)
| TkCCleanOps (limit : nat)
| TkCCleanRates (limit : nat).

Definition tk_program (c : TkCall) : Tx (Ending TkAnswer) :=
  match c with
  | TkCAcquire r => acquireTokenization r
  | TkCComplete l => complete_tokenization l
  | TkCCleanLeases limit => cleanup_leases limit
  | TkCCleanOps limit => cleanup_ops limit
  | TkCCleanRates limit => cleanup_rates limit
  end.

(** A configuration mutation, and the time a key was last used. *)
Inductive TkChange :=
| TkConfigured (t : ConfigTables)
| TkKeyUsed (id : Z) (at_ : Time).

Definition tk_change (e : TkChange) (_ : list TkCall) (db : TkDb) : option TkDb :=
  match e with
  | TkConfigured t => if ct_Revision (tb_Config db) <? ct_Revision t then Some {| db with tb_Config := t |} else None
  | TkKeyUsed id at_ =>
    let t := tb_Config db in Some {| db with tb_Config := {| t with ct_Keys := alter (touch (timestamptz at_)) id (ct_Keys t) |} |}
  end.

(** A request has the revision of a snapshot that was loaded. *)
Definition tk_may_call (c : TkCall) (db : TkDb) : bool :=
  match c with TkCAcquire r => tr_ConfigurationRevision r <=? ct_Revision (tb_Config db) | _ => true end.

End PgTokenization.
