(* ===== verification/PgTokenizationSafety.v ===== *)
(** What the PostgreSQL tokenization coordinator guarantees in every interleaving of its
    transactions, by any number of replicas, with changes of the configuration. *)

From stdpp Require Import sorting.
From S2P Require Import Prelude Domain Float64 Coordination Tokenization Pg PgAdmission PgTokenization.

Section PgTokenizationSafety.
Context {FP : Type} `{!EqDecision FP} (Fingerprint : TokenizationAcquireRequest -> FP) (policy : TokenizationPolicy).
Abbreviation TkDb := (TkDb (FP := FP)).
Implicit Types (db d : TkDb) (held : gset TkKey).

(** ** Rely and guarantee *)

Record tk_rely (c : TkCall) held db db' : Prop := {
  tr_client : forall id l, TkClient (tw_ClientID l) ∈ held -> tb_Leases db' !! id = Some l -> tb_Leases db !! id = Some l;
  tr_backend : forall id l, TkBackend (tw_BackendID l) ∈ held -> tb_Leases db' !! id = Some l -> tb_Leases db !! id = Some l;
  tr_op : forall id, TkOp id ∈ held -> tb_Ops db' !! id = tb_Ops db !! id;
  tr_new : forall id, TkOp id ∈ held -> tb_Leases db !! id = None -> tb_Leases db' !! id = None;
  tr_row : forall id, TkLease id ∈ held -> tb_Leases db' !! id = tb_Leases db !! id;
  tr_rate : forall id, TkRate id ∈ held -> tb_Rates db' !! id = tb_Rates db !! id;
  tr_scopes : tb_Clients db ⊆ tb_Clients db' /\ tb_Backends db ⊆ tb_Backends db';
  tr_revision : ct_Revision (tb_Config db) <= ct_Revision (tb_Config db');
  tr_config : ct_Revision (tb_Config db') = ct_Revision (tb_Config db) -> same_config (tb_Config db) (tb_Config db')
}.

Record tk_guar held db db' : Prop := {
  tg_lease : forall id l, tb_Leases db' !! id = Some l -> tb_Leases db !! id = Some l \/
    TkClient (tw_ClientID l) ∈ held /\ TkBackend (tw_BackendID l) ∈ held /\ TkOp id ∈ held;
  tg_row : forall id, tb_Leases db' !! id = tb_Leases db !! id \/ TkLease id ∈ held;
  tg_op : forall id, tb_Ops db' !! id = tb_Ops db !! id \/ TkOp id ∈ held;
  tg_rate : forall id, tb_Rates db' !! id = tb_Rates db !! id \/ TkRate id ∈ held;
  tg_scopes : tb_Clients db ⊆ tb_Clients db' /\ tb_Backends db ⊆ tb_Backends db';
  tg_config : tb_Config db' = tb_Config db
}.

Lemma tk_rely_refl c held db : tk_rely c held db db.
Proof. by split. Qed.

Lemma tk_rely_trans c held db1 db2 db3 : tk_rely c held db1 db2 -> tk_rely c held db2 db3 -> tk_rely c held db1 db3.
Proof.
  intros A B. split.
  - intros id l Hk Hl. by apply A, B.
  - intros id l Hk Hl. apply (tr_backend _ _ _ _ A); [done|]. by apply (tr_backend _ _ _ _ B).
  - intros id Hk. by rewrite (tr_op _ _ _ _ B), (tr_op _ _ _ _ A).
  - intros id Hk Hn. apply (tr_new _ _ _ _ B); [done|]. by apply (tr_new _ _ _ _ A).
  - intros id Hk. by rewrite (tr_row _ _ _ _ B), (tr_row _ _ _ _ A).
  - intros id Hk. by rewrite (tr_rate _ _ _ _ B), (tr_rate _ _ _ _ A).
  - destruct (tr_scopes _ _ _ _ A), (tr_scopes _ _ _ _ B). split; by etransitivity.
  - etransitivity; [apply A|apply B].
  - intros Heq. pose proof (tr_revision _ _ _ _ A). pose proof (tr_revision _ _ _ _ B). eapply same_config_trans; [apply A|apply B]; lia.
Qed.

Lemma tk_rely_weaken c held held' db1 db2 : held ⊆ held' -> tk_rely c held' db1 db2 -> tk_rely c held db1 db2.
Proof.
  intros Hs R. split; try apply R.
  - intros id l Hk. apply R. set_solver.
  - intros id l Hk. apply (tr_backend _ _ _ _ R). set_solver.
  - intros id Hk. apply (tr_op _ _ _ _ R). set_solver.
  - intros id Hk. apply (tr_new _ _ _ _ R). set_solver.
  - intros id Hk. apply (tr_row _ _ _ _ R). set_solver.
  - intros id Hk. apply (tr_rate _ _ _ _ R). set_solver.
Qed.

Lemma tk_guar_rely c held held' db db' : held' ## held -> tk_guar held db db' -> tk_rely c held' db db'.
Proof.
  intros Hd G. assert (Hno : forall k, k ∈ held' -> k ∈ held -> False) by set_solver. split.
  - intros id l Hk Hl. destruct (tg_lease _ _ _ G id l Hl) as [?|(H1 & _)]; [done|]. by edestruct Hno.
  - intros id l Hk Hl. destruct (tg_lease _ _ _ G id l Hl) as [?|(_ & H1 & _)]; [done|]. by edestruct Hno.
  - intros id Hk. destruct (tg_op _ _ _ G id); [done|]. by edestruct Hno.
  - intros id Hk Hn. destruct (tb_Leases db' !! id) as [l|] eqn:Hl; [|done]. destruct (tg_lease _ _ _ G id l Hl) as [?|(_ & _ & H1)]; [congruence|by edestruct Hno].
  - intros id Hk. destruct (tg_row _ _ _ G id); [done|]. by edestruct Hno.
  - intros id Hk. destruct (tg_rate _ _ _ G id); [done|]. by edestruct Hno.
  - apply G.
  - by rewrite (tg_config _ _ _ G).
  - intros _. by rewrite (tg_config _ _ _ G).
Qed.

Lemma tk_guar_refl held db : tk_guar held db db.
Proof. split; eauto. Qed.

(** ** The invariant of the tables *)

(** A lease has its receipt, which granted it and is not completed. *)
Record tk_ok db : Prop := {
  tk_leases : forall id row, tb_Leases db !! id = Some row -> exists o l, tb_Ops db !! id = Some o /\ to_Completed o = false /\
    td_Lease (to_Decision o) = Some l /\ tl_ClientID l = tw_ClientID row /\ tl_BackendID l = tw_BackendID row /\
    tw_ExpiresAt row = timestamptz (tl_ExpiresAt l);
  tk_ops : forall id o l, tb_Ops db !! id = Some o -> td_Lease (to_Decision o) = Some l -> tl_OperationID l = id;
  tk_completed : forall id o, tb_Ops db !! id = Some o -> to_Completed o = true -> is_Some (td_Lease (to_Decision o))
}.

(** ** What each commit does *)

(** The configuration allows the request on the backend [b]. *)
Definition tk_authorised (r : TokenizationAcquireRequest) (b : Z) (t : ConfigTables) : Prop :=
  exists pool client key backend, ct_Pools t !! tr_PoolID r = Some pool /\ mp_Enabled pool = true /\ ct_Clients t !! tr_ClientID r = Some client /\
    cl_Enabled client = true /\ ct_Keys t !! tr_APIKeyID r = Some key /\ ak_RevokedAt key = None /\ ak_ClientID key = tr_ClientID r /\
    (tr_ClientID r, tr_PoolID r) ∈ ct_Access t /\ ct_Backends t !! b = Some backend /\ be_ModelPoolID backend = tr_PoolID r /\
    be_Enabled backend = true /\ be_Draining backend = false.

Definition rate_before (client : Z) (now : Time) db : TkRateRow := default {| tq_Balance := Burst policy; tq_LastRefillAt := now |} (tb_Rates db !! client).

Definition tk_granted_post (r : TokenizationAcquireRequest) (d : TokenizationDecision) db db' : Prop :=
  exists b now, d = tk_granted (tk_lease policy r b now) /\ b ∈ tr_Candidates r /\
    tb_Leases db !! tr_OperationID r = None /\
    tb_Leases db' = <[tr_OperationID r := {| tw_ClientID := tr_ClientID r; tw_BackendID := tc_BackendID b;
                                             tw_ExpiresAt := timestamptz (GoTime.Add now (LeaseTTL policy)) |}]> (tb_Leases db) /\
    tk_count now (of_tk_client (tr_ClientID r)) db' <= tp_ClientMaxInflight policy /\
    tk_count now (of_tk_backend (tc_BackendID b)) db' <= tp_BackendMaxInflight policy /\
    (let before := refilled policy (rate_before (tr_ClientID r) now db) now in
     flt before fone = false /\ tb_Rates db' = <[tr_ClientID r := {| tq_Balance := fsub before fone; tq_LastRefillAt := now |}]> (tb_Rates db)) /\
    (ct_Revision (tb_Config db) = tr_ConfigurationRevision r -> tk_authorised r (tc_BackendID b) (tb_Config db)).

Definition tk_refused_post (r : TokenizationAcquireRequest) (d : TokenizationDecision) db db' : Prop :=
  td_Lease d = None /\ tb_Leases db' = tb_Leases db /\
  (tb_Rates db' = tb_Rates db \/ exists now, tb_Rates db !! tr_ClientID r = None /\
     tb_Rates db' = <[tr_ClientID r := {| tq_Balance := Burst policy; tq_LastRefillAt := now |}]> (tb_Rates db)).

Definition tk_acquire_post (r : TokenizationAcquireRequest) (d : TokenizationDecision) db db' : Prop :=
  match tb_Ops db !! tr_OperationID r with
  | Some o => db' = db /\ to_Fingerprint o = Fingerprint r /\ to_Completed o = false /\ d = to_Decision o
  | None => (exists o, tb_Ops db' = <[tr_OperationID r := o]> (tb_Ops db) /\ to_Fingerprint o = Fingerprint r /\ to_Completed o = false /\ to_Decision o = d) /\
      (tk_granted_post r d db db' \/ tk_refused_post r d db db')
  end.

Definition tk_complete_post (l : TokenizationLease) db db' : Prop :=
  exists o lease, tb_Ops db !! tl_OperationID l = Some o /\ td_Lease (to_Decision o) = Some lease /\ Matches lease l = true /\
    tb_Ops db' = <[tl_OperationID l := {| o with to_Completed := true |}]> (tb_Ops db) /\ tb_Leases db' = delete (tl_OperationID l) (tb_Leases db) /\
    tb_Rates db' = tb_Rates db.

Definition TkPost (c : TkCall) (a : TkAnswer) db db' : Prop :=
  match c, a with
  | TkCAcquire r, TkAcquired (inr d) => tk_acquire_post r d db db'
  | TkCComplete l, TkCompleted None => tk_complete_post l db db'
  | _, _ => True
  end.

Abbreviation wp := (wp tk_rely tk_ok any_view).
Abbreviation commits := (commits tk_rely tk_ok (fun _ => TkPost) any_view).

Lemma tk_wp_commit c a held w db :
  (forall db', tk_rely c held db db' -> tk_ok db' -> tk_ok (w db') /\ tk_guar held db' (w db') /\ TkPost c a db' (w db')) ->
  wp c (TxRet (Committed a)) (commits c) held w db.
Proof. intros HQ db' Hr Hi. destruct (HQ db' Hr Hi) as (? & Hg & ?). split_and!; [done| |done]. intros c' held' Hd. by eapply tk_guar_rely. Qed.

(** ** Cleanup and completion *)

Lemma tk_foldr_delete {K A : Type} `{Countable K} (ids : list K) (m : gmap K A) id :
  foldr delete m ids !! id = if decide (id ∈ ids) then None else m !! id.
Proof.
  induction ids as [|x ids IH]; cbn; [by rewrite decide_False by apply not_elem_of_nil|].
  destruct (decide (id = x)) as [->|Hne]; [by rewrite lookup_delete_eq, decide_True by (by left)|].
  rewrite lookup_delete_ne, IH by done. destruct (decide (id ∈ ids)), (decide (id ∈ x :: ids)); set_solver.
Qed.

Lemma clean_leases_commits limit db : wp (TkCCleanLeases limit) (cleanup_leases limit) (commits (TkCCleanLeases limit)) ∅ (fun d => d) db.
Proof.
  apply tx_wp_bind, wp_stmt. intros busy now db1 _ _ _. set (ids := expired_leases _ _ _ _). clearbody ids. apply tx_wp_ret, tk_wp_commit. intros db' Hr Hi.
  assert (Hls : forall id, foldr delete (tb_Leases db') ids !! id = if decide (id ∈ ids) then None else tb_Leases db' !! id) by (intros; apply tk_foldr_delete).
  split_and!; [split|split|done]; try done.
  - intros id row. cbn -[foldr]. rewrite Hls. case_decide; [done|]. apply Hi.
  - apply Hi.
  - apply Hi.
  - intros id l. cbn -[foldr]. rewrite Hls. case_decide; [done|]. by left.
  - intros id. cbn -[foldr]. rewrite Hls. case_decide as Hin; [right|by left]. apply elem_of_union_r, elem_of_list_to_set, list_elem_of_fmap. by exists id.
  - by left.
  - by left.
Qed.

Lemma elem_of_expired_ops id limit busy now db : id ∈ expired_ops limit busy now db -> tb_Leases db !! id = None.
Proof.
  unfold expired_ops. intros ([id' o] & -> & Hin)%list_elem_of_fmap. cbn. apply elem_of_take in Hin as (i & Hin & _). apply list_elem_of_lookup_2 in Hin.
  rewrite merge_sort_Permutation in Hin. by apply list_elem_of_filter in Hin as [(_ & ? & _) _].
Qed.

Lemma clean_ops_commits limit db : wp (TkCCleanOps limit) (cleanup_ops limit) (commits (TkCCleanOps limit)) ∅ (fun d => d) db.
Proof.
  apply tx_wp_bind, wp_stmt. intros busy now db1 Hr1 _ _. set (ids := expired_ops _ _ _ _).
  assert (Hnl : forall id, id ∈ ids -> tb_Leases db1 !! id = None) by (intros id; apply elem_of_expired_ops). clearbody ids.
  apply tx_wp_ret, tk_wp_commit. intros db' Hr Hi.
  assert (Hk : forall id, id ∈ ids -> TkOp id ∈ (∅ ∪ list_to_set (TkOp <$> ids) : gset TkKey)).
  { intros id Hin. apply elem_of_union_r, elem_of_list_to_set, list_elem_of_fmap. by exists id. }
  assert (Hops : forall id, foldr delete (tb_Ops db') ids !! id = if decide (id ∈ ids) then None else tb_Ops db' !! id) by (intros; apply tk_foldr_delete).
  split_and!; [split|split|done]; try done.
  - intros id row Hl. cbn -[foldr]. rewrite Hops. case_decide as Hin; [|by apply Hi]. cbn in Hl. rewrite (tr_new _ _ _ _ Hr) in Hl; [done|by apply Hk|by apply Hnl].
  - intros id o l. cbn -[foldr]. rewrite Hops. case_decide; [done|]. apply Hi.
  - intros id o. cbn -[foldr]. rewrite Hops. case_decide; [done|]. apply Hi.
  - by left.
  - by left.
  - intros id. cbn -[foldr]. rewrite Hops. case_decide as Hin; [right; by apply Hk|by left].
  - by left.
Qed.

Lemma clean_rates_commits limit db : wp (TkCCleanRates limit) (cleanup_rates limit) (commits (TkCCleanRates limit)) ∅ (fun d => d) db.
Proof.
  apply wp_stmt. intros busy now db1 _ _ _. set (ids := take _ _). clearbody ids. apply tk_wp_commit. intros db' Hr Hi.
  split_and!; [split; apply Hi|split|done]; try done; try (by left).
  intros id. cbn -[foldr]. rewrite tk_foldr_delete. case_decide as Hin; [right|by left]. apply elem_of_union_r, elem_of_list_to_set, list_elem_of_fmap. by exists id.
Qed.

Lemma alter_some {K A : Type} `{Countable K} (f : A -> A) (m : gmap K A) i x : m !! i = Some x -> alter f i m = <[i := f x]> m.
Proof.
  intros Hi. apply map_eq. intros j. destruct (decide (j = i)) as [->|]; [by rewrite lookup_alter_eq, lookup_insert_eq, Hi|].
  by rewrite lookup_alter_ne, lookup_insert_ne.
Qed.

Lemma tk_complete_write l o lease held db : tk_ok db -> TkOp (tl_OperationID l) ∈ held -> tb_Ops db !! tl_OperationID l = Some o ->
  td_Lease (to_Decision o) = Some lease -> Matches lease l = true -> (TkLease (tl_OperationID l) ∈ held \/ tb_Leases db !! tl_OperationID l = None) ->
  let id := tl_OperationID l in
  let new := {| db with tb_Leases := delete id (tb_Leases db); tb_Ops := <[id := {| o with to_Completed := true |}]> (tb_Ops db) |} in
  tk_ok new /\ tk_guar held db new /\ tk_complete_post l db new.
Proof.
  intros Hi Hk Ho Hl Hm Hrow id new. split_and!; [split|split|]; try done; cbn.
  - intros i row [Hne Hr]%lookup_delete_Some. rewrite lookup_insert_ne by done. by apply Hi.
  - intros i o' l' [[<- <-]|[_ Ho']]%lookup_insert_Some; [|by eapply Hi]. cbn. by apply Hi.
  - intros i o' [[<- <-]|[_ Ho']]%lookup_insert_Some; [cbn; eauto|by eapply Hi].
  - intros i row [_ Hr]%lookup_delete_Some. by left.
  - intros i. destruct (decide (i = id)) as [->|]; [|left; by rewrite lookup_delete_ne]. destruct Hrow as [?|Hn]; [by right|left]. by rewrite lookup_delete_eq, <- Hn.
  - intros i. destruct (decide (i = id)) as [->|]; [by right|left; by rewrite lookup_insert_ne].
  - by left.
  - exists o, lease. by split_and!.
Qed.

Lemma tk_complete_receipt l o lease held w db : TkOp (tl_OperationID l) ∈ held -> tb_Ops db !! tl_OperationID l = Some o ->
  td_Lease (to_Decision o) = Some lease -> Matches lease l = true ->
  let id := tl_OperationID l in
  TkLease id ∈ held /\ (forall d, w d = {| d with tb_Leases := delete id (tb_Leases d) |}) \/ tb_Leases db !! id = None /\ (forall d, w d = d) ->
  wp (TkCComplete l)
    (update_found (TkOp id) (op_present id) (fun db => {| db with tb_Ops := alter (fun o => {| o with to_Completed := true |}) id (tb_Ops db) |});;
     TxRet (Committed (TkCompleted None))) (commits (TkCComplete l)) held w db.
Proof.
  intros Hk Ho Hl Hm id Hw. assert (Hops : forall d, tb_Ops (w d) = tb_Ops d) by (intros d; destruct Hw as [[_ ->]|[_ ->]]; done).
  apply tx_wp_bind, wp_update_found; intros db1 Hr1 Hi1 Hp.
  2: { exfalso. unfold op_present in Hp. b2p. destruct Hp. rewrite Hops, (tr_op _ _ _ _ Hr1) by done. eauto. }
  apply tk_wp_commit. intros db' Hr Hi. assert (Ho' : tb_Ops db' !! id = Some o) by (by rewrite (tr_op _ _ _ _ Hr), (tr_op _ _ _ _ Hr1) by set_solver).
  assert (Hrow : TkLease id ∈ held \/ tb_Leases db' !! id = None).
  { destruct Hw as [[? _]|[Hn _]]; [by left|right]. apply (tr_new _ _ _ _ Hr); [set_solver|]. by apply (tr_new _ _ _ _ Hr1). }
  destruct (tk_complete_write l o lease (held ∪ {[TkOp id]}) db') as (Hok & Hg & Hp'); try done; [set_solver|destruct Hrow; [left; set_solver|by right]|].
  match goal with |- tk_ok ?new /\ _ =>
    assert (E : new = {| db' with tb_Leases := delete id (tb_Leases db'); tb_Ops := <[id := {| o with to_Completed := true |}]> (tb_Ops db') |}) end.
  { rewrite Hops, (alter_some _ _ _ _ Ho'). destruct Hw as [[_ ->]|[Hn ->]]; [done|]. cbn. f_equal. rewrite delete_id; [done|].
    apply (tr_new _ _ _ _ Hr); [set_solver|]. by apply (tr_new _ _ _ _ Hr1). }
  rewrite E. by split_and!.
Qed.

Lemma tk_complete_commits l db : wp (TkCComplete l) (complete_tokenization l) (commits (TkCComplete l)) ∅ (fun d => d) db.
Proof.
  unfold complete_tokenization. set (id := tl_OperationID l). apply tx_wp_bind, wp_select. intros db1 Hr1 Hi1.
  destruct (tb_Ops db1 !! id) as [o|] eqn:Ho; [|done]. destruct (td_Lease (to_Decision o)) as [lease|] eqn:Hl; [|done].
  destruct (Matches lease l) eqn:Hm; cbn [negb]; [|done]. apply tx_wp_bind, wp_update_found; intros db2 Hr2 Hi2 Hp.
  - apply (tk_complete_receipt l o lease); [set_solver|by rewrite (tr_op _ _ _ _ Hr2) by set_solver|done|done|]. left. split; [set_solver|done].
  - apply (tk_complete_receipt l o lease); [set_solver|by rewrite (tr_op _ _ _ _ Hr2) by set_solver|done|done|]. right. b2p. split; [by apply eq_None_not_Some|done].
Qed.

(** ** Acquisition *)

(** What an acquisition knows after it has written its receipt. *)
Record tk_acquiring (r : TokenizationAcquireRequest) held db : Prop := {
  ta_lock : TkOp (tr_OperationID r) ∈ held;
  ta_op : tb_Ops db !! tr_OperationID r = None;
  ta_lease : tb_Leases db !! tr_OperationID r = None;
  ta_revision : tr_ConfigurationRevision r <= ct_Revision (tb_Config db)
}.

Lemma tk_acquiring_rely c r held held' db db' : tk_rely c held db db' -> held ⊆ held' -> tk_acquiring r held db -> tk_acquiring r held' db'.
Proof.
  intros Hr Hs [H1 H2 H3 H4]. split; [set_solver|by rewrite (tr_op _ _ _ _ Hr)|by apply (tr_new _ _ _ _ Hr)|]. pose proof (tr_revision _ _ _ _ Hr). lia.
Qed.

(** What the transaction has written: its receipt, the lease and the bucket of its client. *)
(** [prior] is the bucket before. *)
Record tk_writes (r : TokenizationAcquireRequest) (now : Time) (lease : option TkLeaseRow) (prior rate : option TkRateRow) held (w : TkDb -> TkDb) : Prop := {
  tw_ops : forall d, tb_Ops (w d) = <[tr_OperationID r := new_op Fingerprint r now]> (tb_Ops d);
  tw_leases : forall d, tb_Leases (w d) = match lease with Some row => <[tr_OperationID r := row]> (tb_Leases d) | None => tb_Leases d end;
  tw_rates : forall d, (is_Some rate -> tb_Rates d !! tr_ClientID r = prior) -> tb_Rates (w d) = match rate with Some row => <[tr_ClientID r := row]> (tb_Rates d) | None => tb_Rates d end;
  tw_clients : exists X, forall d, tb_Clients (w d) = X ∪ tb_Clients d;
  tw_backends : exists X, forall d, tb_Backends (w d) = X ∪ tb_Backends d;
  tw_config : forall d, tb_Config (w d) = tb_Config d;
  tw_lease_lock : is_Some lease -> TkLease (tr_OperationID r) ∈ held;
  tw_rate_lock : is_Some rate -> TkRate (tr_ClientID r) ∈ held
}.

Lemma tk_writes_weaken r now lease prior rate held held' w : held ⊆ held' -> tk_writes r now lease prior rate held w -> tk_writes r now lease prior rate held' w.
Proof. intros Hs [H1 H2 H3 H4 H5 H6 H7 H8]. split; try done; set_solver. Qed.

(** The lease row that the decision grants. *)
Definition tk_row_of (d : TokenizationDecision) (lease : option TkLeaseRow) held (r : TokenizationAcquireRequest) : Prop :=
  match lease with
  | None => td_Lease d = None
  | Some row => exists l, td_Lease d = Some l /\ tl_OperationID l = tr_OperationID r /\ tl_ClientID l = tw_ClientID row /\ tl_BackendID l = tw_BackendID row /\
      tw_ExpiresAt row = timestamptz (tl_ExpiresAt l) /\ TkClient (tw_ClientID row) ∈ held /\ TkBackend (tw_BackendID row) ∈ held
  end.

Lemma finish_commits r now lease prior rate (d : TokenizationDecision) held w db : tk_acquiring r held db -> tk_writes r now lease prior rate held w ->
  tk_row_of d lease held r -> (is_Some rate -> tb_Rates db !! tr_ClientID r = prior) ->
  (forall db' new, tk_rely (TkCAcquire r) held db db' -> tk_acquiring r held db' -> (is_Some rate -> tb_Rates db' !! tr_ClientID r = prior) ->
     tb_Leases new = match lease with Some row => <[tr_OperationID r := row]> (tb_Leases db') | None => tb_Leases db' end ->
     tb_Rates new = match rate with Some row => <[tr_ClientID r := row]> (tb_Rates db') | None => tb_Rates db' end ->
     tk_granted_post r d db' new \/ tk_refused_post r d db' new) ->
  wp (TkCAcquire r) (finish (tr_OperationID r) d) (commits (TkCAcquire r)) held w db.
Proof.
  intros Ha Hw Hrow Hprior Hpost. set (id := tr_OperationID r). apply tx_wp_bind, wp_update_found; intros db1 Hr1 Hi1 Hp.
  2: { exfalso. unfold op_present in Hp. b2p. destruct Hp. rewrite (tw_ops _ _ _ _ _ _ _ Hw). rewrite lookup_insert_eq. eauto. }
  apply tk_wp_commit. intros db' Hr' Hi'.
  assert (Hr : tk_rely (TkCAcquire r) held db db') by (eapply tk_rely_trans; [exact Hr1|eapply tk_rely_weaken; [|exact Hr']; set_solver]).
  assert (Ha' : tk_acquiring r held db') by (by eapply tk_acquiring_rely). destruct Ha' as [Hk Hno Hnl Hrev].
  assert (Hprior' : is_Some rate -> tb_Rates db' !! tr_ClientID r = prior).
  { intros Hs. rewrite (tr_rate _ _ _ _ Hr); [by apply Hprior|by apply (tw_rate_lock _ _ _ _ _ _ _ Hw)]. }
  pose proof (tw_rates _ _ _ _ _ _ _ Hw db' Hprior') as Hrates. set (o := {| (new_op Fingerprint r now) with to_Decision := d |}). set (new := {| (w db') with tb_Ops := _ |}).
  assert (Hops : tb_Ops new = <[id := o]> (tb_Ops db')).
  { cbn. rewrite (tw_ops _ _ _ _ _ _ _ Hw). erewrite alter_some by apply lookup_insert_eq. by rewrite insert_insert_eq. }
  assert (Hls : tb_Leases new = match lease with Some row => <[id := row]> (tb_Leases db') | None => tb_Leases db' end) by apply (tw_leases _ _ _ _ _ _ _ Hw).
  assert (Hlook : forall i row, tb_Leases new !! i = Some row -> i = id /\ lease = Some row \/ i <> id /\ tb_Leases db' !! i = Some row).
  { intros i row. rewrite Hls. destruct lease as [l|]; [intros [[<- ->]|[? ?]]%lookup_insert_Some; [by left|by right]|]. intros E. right. split; [|done]. intros ->. unfold id in E. congruence. }
  split_and!; [split|split|].
  - intros i row [[-> ->]|[Hne E]]%Hlook; rewrite Hops; [|rewrite lookup_insert_ne by done; by apply Hi'].
    destruct Hrow as (l & E & _ & ? & ? & ? & _). exists o, l. rewrite lookup_insert_eq. by split_and!.
  - intros i o' l. rewrite Hops. intros [[<- <-]|[_ Ho]]%lookup_insert_Some; [|by apply Hi']. cbn. intros E. destruct lease as [row|]; cbn in Hrow; [|congruence].
    destruct Hrow as (l' & E' & ? & _). rewrite E in E'. by injection E' as <-.
  - intros i o'. rewrite Hops. intros [[<- <-]|[_ Ho]]%lookup_insert_Some; [done|by eapply (tk_completed _ Hi')].
  - intros i row [[-> ->]|[Hne E]]%Hlook; [|by left]. right. destruct Hrow as (l & _ & _ & _ & _ & _ & ? & ?). set_solver.
  - intros i. destruct (decide (i = id)) as [->|Hne]; rewrite Hls; destruct lease as [row|]; try (by left); [right|left; by rewrite lookup_insert_ne].
    apply elem_of_union_l, (tw_lease_lock _ _ _ _ _ _ _ Hw). eauto.
  - intros i. rewrite Hops. destruct (decide (i = id)) as [->|]; [right; set_solver|left; by rewrite lookup_insert_ne].
  - intros i. cbn. rewrite Hrates. destruct rate as [row|]; [|by left]. destruct (decide (i = tr_ClientID r)) as [->|];
      [right|left; by rewrite lookup_insert_ne]. apply elem_of_union_l, (tw_rate_lock _ _ _ _ _ _ _ Hw). eauto.
  - destruct (tw_clients _ _ _ _ _ _ _ Hw) as [X HX], (tw_backends _ _ _ _ _ _ _ Hw) as [Y HY]. cbn. rewrite HX, HY. split; set_solver.
  - apply (tw_config _ _ _ _ _ _ _ Hw).
  - unfold TkPost, tk_acquire_post. rewrite Hno. split; [exists o; by split_and!|]. apply Hpost; [done|by split|done|done|exact Hrates].
Qed.

Lemma reject_tk_commits r now reason held w db : tk_acquiring r held db -> tk_writes r now None None None held w ->
  wp (TkCAcquire r) (reject (tr_OperationID r) reason) (commits (TkCAcquire r)) held w db.
Proof.
  intros Ha Hw. eapply finish_commits; [done|exact Hw|done|by intros [? ?]|]. intros db' new _ _ _ Hl Hr. right. split_and!; [done|done|by left].
Qed.

(** *** The configuration that was read *)

(** A fact of the configuration tables that no change within a revision affects. *)
Definition cfg_stable (P : ConfigTables -> Prop) : Prop := forall t t', same_config t t' -> P t -> P t'.

(** The fact holds while the revision is the request's. *)
Definition tk_knows (r : TokenizationAcquireRequest) (P : ConfigTables -> Prop) db : Prop :=
  ct_Revision (tb_Config db) = tr_ConfigurationRevision r -> P (tb_Config db).

Lemma tk_knows_rely c r P held db db' : cfg_stable P -> tk_rely c held db db' -> tk_acquiring r held db -> tk_knows r P db -> tk_knows r P db'.
Proof.
  intros HP Hr Ha Hk E. pose proof (tr_revision _ _ _ _ Hr). pose proof (ta_revision _ _ _ Ha). eapply HP; [apply (tr_config _ _ _ _ Hr); lia|]. apply Hk. lia.
Qed.

Lemma cfg_stable_and P Q : cfg_stable P -> cfg_stable Q -> cfg_stable (fun t => P t /\ Q t).
Proof. intros HP HQ t t' Hs [? ?]. split; [by eapply HP|by eapply HQ]. Qed.

Lemma cfg_stable_pool id x : cfg_stable (fun t => ct_Pools t !! id = x).
Proof. by intros t t' (_ & -> & _). Qed.

Lemma cfg_stable_client id x : cfg_stable (fun t => ct_Clients t !! id = x).
Proof. by intros t t' (-> & _). Qed.

Lemma cfg_stable_key id x : cfg_stable (fun t => forget <$> ct_Keys t !! id = x).
Proof. intros t t' (_ & _ & E & _). by rewrite <- !lookup_fmap, E. Qed.

Lemma cfg_stable_access x : cfg_stable (fun t => x ∈ ct_Access t).
Proof. by intros t t' (_ & _ & _ & -> & _). Qed.

Lemma cfg_stable_backends (P : gmap Z Backend -> Prop) : cfg_stable (fun t => P (ct_Backends t)).
Proof. by intros t t' (_ & _ & _ & _ & ->). Qed.

Create HintDb cfg_stable.
#[local] Hint Resolve cfg_stable_and cfg_stable_pool cfg_stable_client cfg_stable_key cfg_stable_access cfg_stable_backends : cfg_stable.

(** The candidates are backends of the pool that can take requests. *)
Definition candidates_good (r : TokenizationAcquireRequest) (eligible : list TokenizationCandidate) (backends : gmap Z Backend) : Prop :=
  forall b, b ∈ eligible -> exists row, backends !! tc_BackendID b = Some row /\ be_ModelPoolID row = tr_PoolID r /\ be_Enabled row = true /\ be_Draining row = false.

Definition configuration_read (r : TokenizationAcquireRequest) pool client key (t : ConfigTables) : Prop :=
  ((ct_Pools t !! tr_PoolID r = Some pool /\ ct_Clients t !! tr_ClientID r = Some client) /\ forget <$> ct_Keys t !! tr_APIKeyID r = Some (forget key)) /\
  (tr_ClientID r, tr_PoolID r) ∈ ct_Access t.

Lemma configuration_read_stable r pool client key : cfg_stable (configuration_read r pool client key).
Proof. unfold configuration_read. eauto with cfg_stable. Qed.

Lemma candidates_good_stable r eligible : cfg_stable (fun t => candidates_good r eligible (ct_Backends t)).
Proof. apply cfg_stable_backends. Qed.

Lemma read_authorised r pool client key eligible b t : configuration_read r pool client key t -> candidates_good r eligible (ct_Backends t) -> b ∈ eligible ->
  mp_Enabled pool = true -> cl_Enabled client = true -> ak_RevokedAt key = None -> ak_ClientID key = tr_ClientID r -> tk_authorised r (tc_BackendID b) t.
Proof.
  intros [[[Hp Hc] (key' & Hk & Hf)%fmap_Some] Ha] Hg Hb H1 H2 H3 H4. destruct (Hg b Hb) as (row & Hrow & ? & ? & ?). exists pool, client, key', row.
  pose proof (f_equal ak_RevokedAt Hf) as F1. pose proof (f_equal ak_ClientID Hf) as F2. cbn in F1, F2. split_and!; congruence.
Qed.

(** *** Counts *)

Definition tk_locked (r : TokenizationAcquireRequest) held : Prop :=
  TkClient (tr_ClientID r) ∈ held /\ forall b, b ∈ tr_Candidates r -> TkBackend (tc_BackendID b) ∈ held.

Lemma tk_count_le now sel db db' : (forall id l, sel l = true -> tb_Leases db' !! id = Some l -> tb_Leases db !! id = Some l) ->
  tk_count now sel db' <= tk_count now sel db.
Proof.
  intros Hs. unfold tk_count. apply inj_le, map_subseteq_size, map_subseteq_spec. intros id l. unfold tk_live. rewrite !map_lookup_filter_Some.
  intros [Hl [Hsel He]]. split; [by apply Hs|done].
Qed.

Lemma tk_count_client c now id held db db' : tk_rely c held db db' -> TkClient id ∈ held -> tk_count now (of_tk_client id) db' <= tk_count now (of_tk_client id) db.
Proof. intros Hr Hk. apply tk_count_le. intros i l Hsel%Z.eqb_eq Hl. apply (tr_client _ _ _ _ Hr); [by rewrite Hsel|done]. Qed.

Lemma tk_count_backend c now id held db db' : tk_rely c held db db' -> TkBackend id ∈ held -> tk_count now (of_tk_backend id) db' <= tk_count now (of_tk_backend id) db.
Proof. intros Hr Hk. apply tk_count_le. intros i l Hsel%Z.eqb_eq Hl. apply (tr_backend _ _ _ _ Hr); [by rewrite Hsel|done]. Qed.

Lemma tk_count_insert now sel db db' id l : tb_Leases db' = <[id := l]> (tb_Leases db) -> tb_Leases db !! id = None -> tk_count now sel db' <= tk_count now sel db + 1.
Proof.
  intros Hl Hn. unfold tk_count, tk_live. rewrite Hl. rewrite map_filter_insert. case_decide.
  - rewrite map_size_insert_None; [lia|]. by rewrite map_lookup_filter_None_2 by (by left).
  - rewrite delete_id by done. lia.
Qed.

Lemma tk_count_view r now lease prior rate held w db at_ sel : tk_writes r now lease prior rate held w -> lease = None -> tk_count at_ sel (w db) = tk_count at_ sel db.
Proof. intros Hw ->. unfold tk_count, tk_live. by rewrite (tw_leases _ _ _ _ _ _ _ Hw). Qed.

(** A selected backend has room. *)
Definition has_room (r : TokenizationAcquireRequest) (eligible : list TokenizationCandidate) (now : Time) (b : TokenizationCandidate) db : Prop :=
  tc_BackendID b = 0 \/ b ∈ eligible /\ tk_count now (of_tk_backend (tc_BackendID b)) db < tp_BackendMaxInflight policy.

Lemma has_room_rely c r eligible now b held db db' : tk_rely c held db db' -> tk_locked r held -> (forall b, b ∈ eligible -> b ∈ tr_Candidates r) ->
  has_room r eligible now b db -> has_room r eligible now b db'.
Proof.
  intros Hr [_ Hk] Hs [?|[Hin Hc]]; [by left|right]. split; [done|]. pose proof (tk_count_backend c now (tc_BackendID b) held db db' Hr (Hk b (Hs b Hin))). lia.
Qed.

Lemma select_backend_wp r all now now0 prior rate eligible selected best Q held w db : tk_writes r now0 None prior rate held w -> tk_locked r held ->
  (forall b, b ∈ all -> b ∈ tr_Candidates r) -> (forall b, b ∈ eligible -> b ∈ all) -> has_room r all now selected db ->
  (forall b db', tk_rely (TkCAcquire r) held db db' -> has_room r all now b db' -> Q b held w db') ->
  wp (TkCAcquire r) (select_backend policy now eligible selected best) Q held w db.
Proof.
  intros Hw Hk Hall. revert selected best db. induction eligible as [|b eligible IH]; intros selected best db Hin Hsel HQ; cbn [select_backend].
  { apply tx_wp_ret, HQ; [apply tk_rely_refl|done]. }
  apply tx_wp_bind, wp_query. intros _ db1 Hr1 Hi1. rewrite (tk_count_view r now0 None prior rate held) by done.
  assert (Hsel1 : has_room r all now selected db1) by (by eapply has_room_rely).
  assert (HQ1 : forall b db', tk_rely (TkCAcquire r) held db1 db' -> has_room r all now b db' -> Q b held w db') by (intros; apply HQ; [by eapply tk_rely_trans|done]).
  destruct (_ && _) eqn:Hb; apply IH; try done; [by intros; apply Hin; right| |by intros; apply Hin; right]. b2p. right. split; [apply Hin; by left|lia].
Qed.

(** *** The grant *)

(** What holds when the rate is taken. *)
Record tk_taking (r : TokenizationAcquireRequest) (b : TokenizationCandidate) (now : Time) held db : Prop := {
  tt_acquiring : tk_acquiring r held db;
  tt_locked : tk_locked r held;
  tt_candidate : b ∈ tr_Candidates r;
  tt_client : tk_count now (of_tk_client (tr_ClientID r)) db < tp_ClientMaxInflight policy;
  tt_backend : tk_count now (of_tk_backend (tc_BackendID b)) db < tp_BackendMaxInflight policy;
  tt_config : tk_knows r (tk_authorised r (tc_BackendID b)) db
}.

Lemma tk_authorised_stable r b : cfg_stable (tk_authorised r b).
Proof.
  intros t t' (E1 & E2 & E3 & E4 & E5) (pool & client & key & backend & H1 & H2 & H3 & H4 & H5 & H6 & H7 & H8 & H9 & H10 & H11 & H12). rewrite <- E1 in H3. rewrite <- E2 in H1.
  rewrite <- E4 in H8. rewrite <- E5 in H9. assert (Hk : forget <$> ct_Keys t' !! tr_APIKeyID r = Some (forget key)) by (rewrite <- lookup_fmap, E3, lookup_fmap, H5; done).
  apply fmap_Some in Hk as (key' & Hk' & Hf). pose proof (f_equal ak_RevokedAt Hf) as F1. pose proof (f_equal ak_ClientID Hf) as F2. cbn in F1, F2.
  exists pool, client, key', backend. split_and!; try done; congruence.
Qed.

Lemma tk_taking_rely r b now held held' db db' : tk_rely (TkCAcquire r) held db db' -> held ⊆ held' -> tk_taking r b now held db -> tk_taking r b now held' db'.
Proof.
  intros Hr Hs [H1 [H2 H2'] H3 H4 H5 H6]. split; [by eapply tk_acquiring_rely|by split; [|intros]; set_solver|done| | |].
  - pose proof (tk_count_client _ now (tr_ClientID r) held db db' Hr H2). lia.
  - pose proof (tk_count_backend _ now (tc_BackendID b) held db db' Hr (H2' b H3)). lia.
  - eapply tk_knows_rely; [apply tk_authorised_stable|done|done|done].
Qed.

(** The end of the grant: the bucket is locked, and it is [row] refilled. *)
Lemma take_rate r b now now0 prior rate row held w db : tk_taking r b now held db -> tk_writes r now0 None prior rate held w ->
  TkRate (tr_ClientID r) ∈ held -> tb_Rates db !! tr_ClientID r = prior -> row = default {| tq_Balance := Burst policy; tq_LastRefillAt := now |} prior ->
  (rate = None /\ is_Some prior \/ rate = Some row /\ prior = None) ->
  let id := tr_OperationID r in
  let client := tr_ClientID r in
  let balance := refilled policy row now in
  wp (TkCAcquire r)
    (if flt balance fone
     then finish id {| td_Lease := None; td_Reason := TokenizationRateLimit; td_RetryAt := Some (retry_at policy now balance) |}
     else
       update_found (TkRate client) (fun v => bool_decide (is_Some (tb_Rates v !! client)))
         (fun db => {| db with tb_Rates := alter (fun _ => {| tq_Balance := fsub balance fone; tq_LastRefillAt := now |}) client (tb_Rates db) |});;
       let l := tk_lease policy r b now in
       inserted ← insert_new (TkLease id) (fun v => bool_decide (tb_Leases v !! id = None))
         (fun db => {| db with tb_Leases := <[id := {| tw_ClientID := client; tw_BackendID := tl_BackendID l;
                                                      tw_ExpiresAt := timestamptz (tl_ExpiresAt l) |}]> (tb_Leases db) |});
       if negb inserted then tk_failed ErrUnique else finish id (tk_granted l)) (commits (TkCAcquire r)) held w db.
Proof.
  intros Ht Hw Hk Hprior Hrow Hrate id client balance. destruct (flt balance fone) eqn:Hflt.
  { eapply finish_commits; [apply Ht|exact Hw|done|done|]. intros db' new _ _ Hp Hl Hr. right. split_and!; [done|done|]. cbn in Hl.
    destruct Hrate as [[-> _]|[-> ->]]; [by left|right]. exists now. cbn in Hrow. rewrite <- Hrow. split; [apply Hp; eauto|done]. }
  set (charged := {| tq_Balance := fsub balance fone; tq_LastRefillAt := now |}).
  assert (Hview : forall d, tb_Rates d !! client = prior -> tb_Rates (w d) !! client = Some row /\ alter (fun _ => charged) client (tb_Rates (w d)) = <[client := charged]> (tb_Rates d)).
  { intros d Hd. assert (E : tb_Rates (w d) !! client = Some row).
    { rewrite (tw_rates _ _ _ _ _ _ _ Hw) by done. destruct Hrate as [[-> [x Hx]]|[-> _]]; [|apply lookup_insert_eq]. rewrite Hd, Hx. rewrite Hx in Hrow. by rewrite Hrow. }
    split; [done|]. rewrite (alter_some _ _ _ _ E). rewrite (tw_rates _ _ _ _ _ _ _ Hw) by done. destruct Hrate as [[-> _]|[-> _]]; [done|]. apply insert_insert_eq. }
  apply tx_wp_bind, wp_update_found; intros db1 Hr1 Hi1 Hp; assert (Hprior1 : tb_Rates db1 !! client = prior) by (by rewrite (tr_rate _ _ _ _ Hr1)).
  2: { exfalso. b2p. destruct Hp. destruct (Hview db1 Hprior1) as [-> _]. eauto. }
  cbv zeta. apply tx_wp_bind, wp_insert; intros db2 Hr2 Hi2 Habs; [done|]. cbn [negb]. set (lrow := {| tw_ClientID := client |}).
  set (h := held ∪ {[TkRate client]} ∪ {[TkLease id]}). set (w2 := fun d => _).
  assert (Hr : tk_rely (TkCAcquire r) held db db2) by (eapply tk_rely_trans; [exact Hr1|eapply tk_rely_weaken; [|exact Hr2]; set_solver]).
  assert (Ht2 : tk_taking r b now h db2) by (eapply tk_taking_rely; [exact Hr|set_solver|done]).
  assert (Hw2 : tk_writes r now0 (Some lrow) prior (Some charged) h w2).
  { split; cbn; try apply Hw; try (intros _; set_solver).
    - intros d. by rewrite (tw_leases _ _ _ _ _ _ _ Hw).
    - intros d Hd. apply Hview. by apply Hd. }
  eapply finish_commits; [apply Ht2|exact Hw2| | |].
  - exists (tk_lease policy r b now). destruct (tt_locked _ _ _ _ _ Ht2) as [Hkc Hkb]. split_and!; try done. apply Hkb, Ht.
  - intros _. by rewrite (tr_rate _ _ _ _ Hr).
  - intros db' new Hr' Ha' Hp' Hl' Hrates. left. assert (Ht' : tk_taking r b now h db') by (by eapply tk_taking_rely).
    assert (Hbefore : rate_before client now db' = row) by (unfold rate_before, client; rewrite Hp' by eauto; done). exists b, now.
    pose proof (fun sel => tk_count_insert now sel db' new id lrow Hl' (ta_lease _ _ _ Ha')) as Hc.
    pose proof (Hc (of_tk_client client)). pose proof (Hc (of_tk_backend (tc_BackendID b))). pose proof (tt_client _ _ _ _ _ Ht'). pose proof (tt_backend _ _ _ _ _ Ht').
    fold client. rewrite Hbefore. split_and!; try done; [apply Ht|apply Ha'|unfold client in *; lia|lia|]. apply Ht'.
Qed.

Lemma tk_writes_prior r now lease prior prior' held w : tk_writes r now lease prior None held w -> tk_writes r now lease prior' None held w.
Proof. intros [H1 H2 H3 H4 H5 H6 H7 H8]. split; try done. intros d _. apply H3. by intros [? ?]. Qed.

Lemma grant_tk_commits r b now now0 held w db : tk_taking r b now held db -> tk_writes r now0 None None None held w ->
  wp (TkCAcquire r) (grant_tokenization policy r b now) (commits (TkCAcquire r)) held w db.
Proof.
  intros Ht Hw. unfold grant_tokenization. cbv zeta. set (client := tr_ClientID r). set (full := {| tq_Balance := Burst policy; tq_LastRefillAt := now |}).
  assert (Hrates : forall d, tb_Rates (w d) = tb_Rates d) by (intros d; apply (tw_rates _ _ _ _ _ _ _ Hw); by intros [? ?]).
  apply tx_wp_bind, wp_insert; intros db1 Hr1 Hi1 Habs; apply tx_wp_bind, wp_select; intros db2 Hr2 Hi2; cbv beta.
  - rewrite Hrates. destruct (tb_Rates db2 !! client) as [row|] eqn:Hrow; [|done].
    apply (take_rate r b now now0 (Some row) None); [|eapply tk_writes_weaken, (tk_writes_prior _ _ _ _ _ _ _ Hw); set_solver|set_solver|done|done|by left; eauto].
    eapply (tk_taking_rely _ _ _ held); [|set_solver|exact Ht]. by eapply tk_rely_trans.
  - rewrite Hrates in Habs. apply bool_decide_eq_true in Habs. cbn [tb_Rates]. rewrite lookup_insert_eq. cbv zeta. set (h := held ∪ _ ∪ _).
    apply (take_rate r b now now0 None (Some full)); [|split; cbn; try apply Hw; try (intros; set_solver)|set_solver| |done|by right].
    + eapply (tk_taking_rely _ _ _ held); [|set_solver|exact Ht]. eapply tk_rely_trans; [exact Hr1|eapply tk_rely_weaken; [|exact Hr2]; set_solver].
    + intros d _. by rewrite Hrates.
    + by rewrite (tr_rate _ _ _ _ Hr2) by set_solver.
Qed.

Lemma admit_commits r eligible now now0 held w db : tk_acquiring r held db -> tk_writes r now0 None None None held w -> tk_locked r held ->
  (forall b, b ∈ eligible -> b ∈ tr_Candidates r) -> tk_knows r (fun t => forall b, b ∈ eligible -> tk_authorised r (tc_BackendID b) t) db ->
  wp (TkCAcquire r) (admit_tokenization policy r eligible now) (commits (TkCAcquire r)) held w db.
Proof.
  intros Ha Hw Hk Hin Hcfg. unfold admit_tokenization. cbv zeta. apply tx_wp_bind, wp_query. intros _ db1 Hr1 Hi1. rewrite (tk_count_view r now0 None None None held) by done.
  assert (Ha1 : tk_acquiring r held db1) by (by eapply tk_acquiring_rely). destruct (_ <=? _) eqn:Hc; [by eapply reject_tk_commits|].
  apply tx_wp_bind. eapply (select_backend_wp r eligible); [exact Hw|done|done|done|by left|]. intros b db2 Hr2 Hroom.
  assert (Ha2 : tk_acquiring r held db2) by (by eapply tk_acquiring_rely). destruct (_ =? 0) eqn:Hz; [by eapply reject_tk_commits|].
  destruct Hroom as [?|[Hb Hn]]; [lia|]. eapply grant_tk_commits; [|exact Hw]. split; try done; [by apply Hin| |].
  - pose proof (tk_count_client _ now (tr_ClientID r) held db1 db2 Hr2 (proj1 Hk)). lia.
  - eapply (tk_knows_rely _ _ _ held db db2); [apply tk_authorised_stable|by eapply tk_rely_trans|done|]. intros E. by apply Hcfg.
Qed.

Lemma check_revision_commits r expires eligible now0 held w db : tk_acquiring r held db -> tk_writes r now0 None None None held w -> tk_locked r held ->
  (forall b, b ∈ eligible -> b ∈ tr_Candidates r) -> tk_knows r (fun t => forall b, b ∈ eligible -> tk_authorised r (tc_BackendID b) t) db ->
  wp (TkCAcquire r) (check_revision policy r expires eligible) (commits (TkCAcquire r)) held w db.
Proof.
  intros Ha Hw Hk Hin Hcfg. unfold check_revision. cbv zeta. apply tx_wp_bind, wp_query. intros now db1 Hr1 Hi1. cbn.
  assert (Ha1 : tk_acquiring r held db1) by (by eapply tk_acquiring_rely). destruct (_ || _); [by eapply reject_tk_commits|].
  case_bool_decide; [by eapply reject_tk_commits|]. destruct (negb _); [by eapply reject_tk_commits|]. eapply admit_commits; try done.
  eapply (tk_knows_rely _ _ _ held db db1); [|done..]. intros t t' Hs Hall b' Hb'. eapply tk_authorised_stable; eauto.
Qed.

Lemma backend_eligible_good r b d : backend_eligible r b d = true ->
  exists row, ct_Backends (tb_Config d) !! tc_BackendID b = Some row /\ be_ModelPoolID row = tr_PoolID r /\ be_Enabled row = true /\ be_Draining row = false.
Proof. unfold backend_eligible. destruct (ct_Backends _ !! _) as [row|]; [|done]. intros H. b2p. exists row. by split_and!. Qed.

Lemma eligible_wp r candidates now0 Q held w db : tk_acquiring r held db -> tk_writes r now0 None None None held w ->
  (forall eligible db', tk_rely (TkCAcquire r) held db db' -> (forall b, b ∈ eligible -> b ∈ candidates) ->
     tk_knows r (fun t => candidates_good r eligible (ct_Backends t)) db' -> Q eligible held w db') ->
  wp (TkCAcquire r) (eligible_candidates r candidates) Q held w db.
Proof.
  revert Q db. induction candidates as [|b candidates IH]; intros Q db Ha Hw HQ; cbn [eligible_candidates].
  { apply tx_wp_ret, HQ; [apply tk_rely_refl|done|]. intros _ b Hb. by apply not_elem_of_nil in Hb. }
  apply tx_wp_bind, wp_query. intros _ db1 Hr1 Hi1. apply tx_wp_bind, IH; [by eapply tk_acquiring_rely|done|]. intros eligible db2 Hr2 Hsub Hgood.
  apply tx_wp_ret, HQ; [by eapply tk_rely_trans|destruct (backend_eligible _ _ _); set_solver|].
  destruct (backend_eligible r b (w db1)) eqn:Hb; [|done]. apply backend_eligible_good in Hb. rewrite (tw_config _ _ _ _ _ _ _ Hw) in Hb.
  intros E b' [->|Hb']%elem_of_cons; [|by apply Hgood].
  eapply (tk_knows_rely _ r (fun t => exists row, ct_Backends t !! tc_BackendID b = Some row /\ be_ModelPoolID row = tr_PoolID r /\ be_Enabled row = true /\ be_Draining row = false) held db1 db2);
    [|exact Hr2|by eapply tk_acquiring_rely|by intros _|done]. by intros t t' (_ & _ & _ & _ & ->).
Qed.

Lemma check_configuration_commits r now0 held w db : tk_acquiring r held db -> tk_writes r now0 None None None held w -> tk_locked r held ->
  wp (TkCAcquire r) (check_configuration policy r) (commits (TkCAcquire r)) held w db.
Proof.
  intros Ha Hw Hk. unfold check_configuration. cbv zeta. pose proof (tw_config _ _ _ _ _ _ _ Hw) as Hcfg.
  assert (Hstale : forall d, tk_acquiring r held d -> wp (TkCAcquire r) (reject (tr_OperationID r) TokenizationStaleConfiguration) (commits (TkCAcquire r)) held w d)
    by (intros; by eapply reject_tk_commits).
  apply tx_wp_bind, wp_query. intros _ db1 Hr1 _. rewrite Hcfg. assert (Ha1 : tk_acquiring r held db1) by (by eapply tk_acquiring_rely).
  destruct (ct_Pools _ !! _) as [pool|] eqn:Hpool; [|by apply Hstale]. destruct (_ || _) eqn:Hpe; [by apply Hstale|].
  apply tx_wp_bind, wp_query. intros _ db2 Hr2 _. rewrite Hcfg. assert (Ha2 : tk_acquiring r held db2) by (by eapply tk_acquiring_rely).
  destruct (ct_Clients _ !! _) as [client|] eqn:Hclient; [|by apply Hstale]. destruct (negb (cl_Enabled client)) eqn:Hce; [by apply Hstale|].
  apply tx_wp_bind, wp_query. intros _ db3 Hr3 _. rewrite Hcfg. assert (Ha3 : tk_acquiring r held db3) by (by eapply tk_acquiring_rely).
  destruct (ct_Keys _ !! _) as [key|] eqn:Hkey; [|by apply Hstale].
  apply tx_wp_bind, wp_query. intros _ db4 Hr4 _. rewrite Hcfg. assert (Ha4 : tk_acquiring r held db4) by (by eapply tk_acquiring_rely).
  destruct (bool_decide (_ ∈ ct_Access _)) eqn:Haccess; cbn [negb]; [|by apply Hstale]. apply bool_decide_eq_true in Haccess.
  destruct (bool_decide (is_Some _) || _) eqn:Hkr; [by apply Hstale|].
  assert (Hread : tk_knows r (configuration_read r pool client key) db4).
  { assert (K1 : tk_knows r (fun t => ct_Pools t !! tr_PoolID r = Some pool) db2) by (eapply tk_knows_rely; eauto with cfg_stable; by intros _).
    assert (K2 : tk_knows r (fun t => ct_Pools t !! tr_PoolID r = Some pool /\ ct_Clients t !! tr_ClientID r = Some client) db3)
      by (eapply tk_knows_rely; eauto with cfg_stable; intros E; split; [by apply K1|done]).
    intros E. split; [|done]. eapply (tk_knows_rely _ r (fun t => (ct_Pools t !! tr_PoolID r = Some pool /\ ct_Clients t !! tr_ClientID r = Some client) /\
      forget <$> ct_Keys t !! tr_APIKeyID r = Some (forget key)) held db3 db4); eauto with cfg_stable. intros E'. split; [by apply K2|]. by rewrite Hkey. }
  apply tx_wp_bind. eapply eligible_wp; [done|exact Hw|]. intros eligible db5 Hr5 Hsub Hgood.
  eapply check_revision_commits; [by eapply tk_acquiring_rely|exact Hw|done| |].
  - intros b Hb. specialize (Hsub b Hb). unfold sorted_candidates in Hsub. by rewrite merge_sort_Permutation in Hsub.
  - intros E b Hb. apply orb_false_iff in Hpe as [Hpe _], Hkr as [Hkr1 Hkr2]. b2p.
    eapply read_authorised; [eapply (tk_knows_rely _ _ _ held db4 db5); [apply configuration_read_stable|done..]|by apply Hgood|done|done|done| |done].
    by apply eq_None_not_Some.
Qed.

Lemma lock_tk_client_wp r id now0 Q held w db : tk_acquiring r held db -> tk_writes r now0 None None None held w ->
  (forall held' w' db', tk_rely (TkCAcquire r) held db db' -> held ⊆ held' -> TkClient id ∈ held' -> tk_writes r now0 None None None held' w' -> Q tt held' w' db') ->
  wp (TkCAcquire r) (lock_tk_client id) Q held w db.
Proof.
  intros Ha Hw HQ. destruct (tw_clients _ _ _ _ _ _ _ Hw) as [X HX]. apply tx_wp_bind, wp_insert; intros db1 Hr1 Hi1 Habs; apply tx_wp_bind, wp_select; intros db2 Hr2 Hi2; cbv beta.
  - apply bool_decide_eq_false in Habs. rewrite bool_decide_eq_true_2.
    + apply tx_wp_ret, HQ; [by eapply tk_rely_trans|set_solver|set_solver|]. eapply tk_writes_weaken; [|exact Hw]. set_solver.
    + pose proof (tr_scopes _ _ _ _ Hr2) as [Hs _]. rewrite HX in Habs |- *. destruct (decide (id ∈ X ∪ tb_Clients db2)); [done|]. destruct Habs. set_solver.
  - cbn [tb_Clients]. rewrite bool_decide_eq_true_2 by set_solver. apply tx_wp_ret, HQ; [|set_solver|set_solver|].
    + eapply tk_rely_trans; [exact Hr1|eapply tk_rely_weaken; [|exact Hr2]; set_solver].
    + apply (tk_writes_weaken _ _ _ _ _ (held ∪ {[TkClient id]})); [set_solver|]. destruct Hw as [H1 H2 H3 H4 H5 H6 H7 H8].
      split; cbn; try done; [exists ({[id]} ∪ X); intros d; rewrite HX; set_solver|by intros [? ?]..].
Qed.

Lemma lock_tk_backend_wp r id now0 Q held w db : tk_acquiring r held db -> tk_writes r now0 None None None held w ->
  (forall held' w' db', tk_rely (TkCAcquire r) held db db' -> held ⊆ held' -> TkBackend id ∈ held' -> tk_writes r now0 None None None held' w' -> Q tt held' w' db') ->
  wp (TkCAcquire r) (lock_tk_backend id) Q held w db.
Proof.
  intros Ha Hw HQ. destruct (tw_backends _ _ _ _ _ _ _ Hw) as [X HX]. apply tx_wp_bind, wp_insert; intros db1 Hr1 Hi1 Habs; apply tx_wp_bind, wp_select; intros db2 Hr2 Hi2; cbv beta.
  - apply bool_decide_eq_false in Habs. rewrite bool_decide_eq_true_2.
    + apply tx_wp_ret, HQ; [by eapply tk_rely_trans|set_solver|set_solver|]. eapply tk_writes_weaken; [|exact Hw]. set_solver.
    + pose proof (tr_scopes _ _ _ _ Hr2) as [_ Hs]. rewrite HX in Habs |- *. destruct (decide (id ∈ X ∪ tb_Backends db2)); [done|]. destruct Habs. set_solver.
  - cbn [tb_Backends]. rewrite bool_decide_eq_true_2 by set_solver. apply tx_wp_ret, HQ; [|set_solver|set_solver|].
    + eapply tk_rely_trans; [exact Hr1|eapply tk_rely_weaken; [|exact Hr2]; set_solver].
    + apply (tk_writes_weaken _ _ _ _ _ (held ∪ {[TkBackend id]})); [set_solver|]. destruct Hw as [H1 H2 H3 H4 H5 H6 H7 H8].
      split; cbn; try done; [exists ({[id]} ∪ X); intros d; rewrite HX; set_solver|by intros [? ?]..].
Qed.

Lemma lock_candidates_wp r candidates now0 Q held w db : tk_acquiring r held db -> tk_writes r now0 None None None held w ->
  (forall held' w' db', tk_rely (TkCAcquire r) held db db' -> held ⊆ held' -> (forall b, b ∈ candidates -> TkBackend (tc_BackendID b) ∈ held') ->
     tk_writes r now0 None None None held' w' -> Q tt held' w' db') ->
  wp (TkCAcquire r) (lock_candidates candidates) Q held w db.
Proof.
  revert held w db. induction candidates as [|b candidates IH]; intros held w db Ha Hw HQ; cbn [lock_candidates].
  { apply tx_wp_ret, HQ; [apply tk_rely_refl|done|set_solver|done]. }
  apply tx_wp_bind. eapply lock_tk_backend_wp; [done|exact Hw|]. intros held1 w1 db1 Hr1 Hs1 Hk1 Hw1. apply IH; [by eapply tk_acquiring_rely|done|].
  intros held2 w2 db2 Hr2 Hs2 Hk2 Hw2. apply HQ; [eapply tk_rely_trans; [exact Hr1|by eapply tk_rely_weaken]|set_solver| |done].
  intros b' [->|Hb']%elem_of_cons; [set_solver|by apply Hk2].
Qed.

Lemma replay_tk_commits r db : wp (TkCAcquire r) (replay_tokenization Fingerprint r) (commits (TkCAcquire r)) ∅ (fun d => d) db.
Proof.
  apply tx_wp_bind, wp_select. intros db1 Hr1 Hi1. destruct (tb_Ops db1 !! tr_OperationID r) as [o|] eqn:Ho; [|done].
  case_bool_decide as Hf; cbn [negb]; [|done]. apply tx_wp_bind, wp_query. intros now db2 Hr2 Hi2. destruct (to_Completed o || _) eqn:Hc; [done|].
  apply orb_false_iff in Hc as [Hc _]. apply tk_wp_commit. intros db' Hr Hi. split_and!; [done|apply tk_guar_refl|]. unfold TkPost, tk_acquire_post.
  rewrite (tr_op _ _ _ _ Hr), (tr_op _ _ _ _ Hr2), Ho by set_solver. by split_and!.
Qed.

Lemma tk_acquire_commits r db : tr_ConfigurationRevision r <= ct_Revision (tb_Config db) ->
  wp (TkCAcquire r) (acquireTokenization Fingerprint policy r) (commits (TkCAcquire r)) ∅ (fun d => d) db.
Proof.
  intros Hrev. unfold acquireTokenization. cbv zeta. set (id := tr_OperationID r). apply tx_wp_bind, wp_query. intros now db1 Hr1 Hi1.
  destruct (negb _); [done|]. apply tx_wp_bind, wp_insert; intros db2 Hr2 Hi2 Habs; cbn [negb]; [apply replay_tk_commits|]. apply bool_decide_eq_true in Habs.
  assert (Ha : tk_acquiring r (∅ ∪ {[TkOp id]}) db2).
  { split; [set_solver|done| |pose proof (tr_revision _ _ _ _ Hr1); pose proof (tr_revision _ _ _ _ Hr2); lia].
    destruct (tb_Leases db2 !! tr_OperationID r) as [l|] eqn:Hl; [|done]. destruct (tk_leases _ Hi2 _ _ Hl) as (o & _ & Ho & _). unfold id in Habs. congruence. }
  assert (Hw : tk_writes r (timestamptz now) None None None (∅ ∪ {[TkOp id]}) (fun d => {| d with tb_Ops := <[id := new_op Fingerprint r (timestamptz now)]> (tb_Ops d) |})).
  { split; cbn; try done; try (by intros [? ?]); exists ∅; set_solver. }
  apply tx_wp_bind. eapply lock_tk_client_wp; [done|exact Hw|]. intros h3 w3 db3 Hr3 Hs3 Hk3 Hw3.
  assert (Ha3 : tk_acquiring r h3 db3) by (by eapply tk_acquiring_rely). apply tx_wp_bind. eapply lock_candidates_wp; [done|exact Hw3|].
  intros h4 w4 db4 Hr4 Hs4 Hk4 Hw4. eapply check_configuration_commits; [by eapply tk_acquiring_rely|exact Hw4|]. split; [set_solver|].
  intros b Hb. apply Hk4. unfold sorted_candidates. by rewrite merge_sort_Permutation.
Qed.

(** ** The system *)

Lemma tk_change_commits e calls db db' : tk_ok db -> tk_change e calls db = Some db' -> tk_ok db' /\ forall c held, c ∈ calls -> tk_rely c held db db'.
Proof.
  intros Hi. destruct e as [t|id at_]; unfold tk_change.
  - destruct (_ <? _) eqn:Hlt; [|done]. intros [= <-]. split; [split; apply Hi|]. intros c held _. split; cbn; try done; [lia|]. intros E. lia.
  - intros [= <-]. split; [split; apply Hi|]. intros c held _. split; cbn; try done. intros _. apply same_config_touch.
Qed.

Lemma tk_program_commits c db : tk_ok db -> tk_may_call c db = true -> wp c (tk_program Fingerprint policy c) (commits c) ∅ (fun d => d) db.
Proof.
  intros Hi. destruct c as [r|l|limit|limit|limit]; cbn [tk_may_call tk_program]; intros Hm.
  - apply tk_acquire_commits. lia.
  - apply tk_complete_commits.
  - apply clean_leases_commits.
  - apply clean_ops_commits.
  - apply clean_rates_commits.
Qed.

(** Nothing here depends on what the transaction saw. *)
Lemma tk_program_seen seen c db : tk_ok db -> tk_may_call c db = true ->
  Pg.wp tk_rely tk_ok seen c (tk_program Fingerprint policy c) (Pg.commits tk_rely tk_ok (fun _ => TkPost) seen c) ∅ (fun d => d) db.
Proof. intros Hi Hm. by eapply tx_wp_seen, tk_program_commits. Qed.

Abbreviation start db := {| sy_db := db; sy_txs := ∅ |}.
Abbreviation step := (sys_step (tk_program Fingerprint policy) tk_change tk_may_call).
Abbreviation run := (sys_run (tk_program Fingerprint policy) tk_change tk_may_call).

Lemma tk_run_commit ls db s i s' c a : tk_ok db -> run ls (start db) = Some s -> committing i s = Some (c, a) -> step (LCommit i) s = Some s' ->
  tk_ok (sy_db s) /\ tk_ok (sy_db s') /\ TkPost c a (sy_db s) (sy_db s').
Proof. apply (commit_post _ _ _ tk_rely tk_ok (fun _ => TkPost)); [apply tk_rely_refl|apply tk_rely_trans|apply tk_change_commits|apply tk_program_seen]. Qed.

Lemma tk_run_tables ls db s : tk_ok db -> run ls (start db) = Some s -> tk_ok (sy_db s).
Proof.
  intros Hi Hr. eapply so_inv, sys_run_ok; [apply tk_rely_refl|apply tk_rely_trans|apply tk_change_commits|apply tk_program_seen|by apply sys_init_ok|exact Hr].
Qed.

(** ** Properties *)

(** C19. In every interleaving of tokenization acquisitions, completions and cleanups, by any
    number of replicas, with any changes of the configuration: when an acquisition of a new
    operation commits a lease, the client and the backend have no more leases than the
    policy allows, counted at the time of the lease, one token is taken from the refilled
    bucket of the client and from no other, and the configuration of that revision allows
    the request on that backend. *)
Theorem pg_tokenize_limits ls db s i s' r (d : TokenizationDecision) lease : tk_ok db -> run ls (start db) = Some s ->
  committing i s = Some (TkCAcquire r, TkAcquired (inr d)) -> step (LCommit i) s = Some s' ->
  tb_Ops (sy_db s) !! tr_OperationID r = None -> td_Lease d = Some lease -> tk_granted_post r d (sy_db s) (sy_db s').
Proof.
  intros Hi Hrun Hc Hstep Hnew Hl. destruct (tk_run_commit _ _ _ _ _ _ _ Hi Hrun Hc Hstep) as (_ & _ & Hp). unfold TkPost, tk_acquire_post in Hp.
  rewrite Hnew in Hp. destruct Hp as [_ [?|(E & _)]]; [done|congruence].
Qed.

(** C20. A tokenization operation is decided and charged once: in every interleaving, the
    commit of an acquisition whose receipt exists changes nothing and answers the decision
    of the receipt, and each lease has the one receipt that granted it, not completed. *)
Theorem pg_tokenize_once ls db s i s' r (d : TokenizationDecision) o : tk_ok db -> run ls (start db) = Some s ->
  committing i s = Some (TkCAcquire r, TkAcquired (inr d)) -> step (LCommit i) s = Some s' -> tb_Ops (sy_db s) !! tr_OperationID r = Some o ->
  sy_db s' = sy_db s /\ to_Fingerprint o = Fingerprint r /\ to_Completed o = false /\ d = to_Decision o /\ tk_ok (sy_db s).
Proof.
  intros Hi Hrun Hc Hstep Ho. destruct (tk_run_commit _ _ _ _ _ _ _ Hi Hrun Hc Hstep) as (? & _ & Hp). unfold TkPost, tk_acquire_post in Hp.
  rewrite Ho in Hp. destruct Hp as (? & ? & ? & ?). by split_and!.
Qed.

(** A completion releases the lease it names and nothing else. *)
Lemma pg_tokenize_complete ls db s i s' l : tk_ok db -> run ls (start db) = Some s ->
  committing i s = Some (TkCComplete l, TkCompleted None) -> step (LCommit i) s = Some s' -> tk_complete_post l (sy_db s) (sy_db s').
Proof. intros Hi Hrun Hc Hstep. by destruct (tk_run_commit _ _ _ _ _ _ _ Hi Hrun Hc Hstep) as (_ & _ & Hp). Qed.

End PgTokenizationSafety.

(** ** Witnesses *)

Section Witnesses.

(** A client and a backend with two slots each, and two operations. *)
Definition wt_policy : TokenizationPolicy := {| tp_ClientMaxInflight := 2; tp_BackendMaxInflight := 2; tp_ClientRPM := 120; tp_Timeout := 30 * GoTime.Second |}.
Definition wt_now : Time := unixEpoch + 1000000 * GoTime.Second.
Definition wt_config : ConfigTables :=
  {| ct_Revision := 1;
     ct_Clients := {[1 := {| cl_ID := 1; cl_Revision := 1; cl_Name := "batch"; cl_Enabled := true; cl_PriorityClass := PriorityNormal; cl_VLLMPriority := 0;
                             cl_MaxConcurrency := 2; cl_RequestsPerMinute := 60; cl_TokensPerMinute := 1000; cl_CreatedAt := 0; cl_UpdatedAt := 0 |}]};
     ct_Keys := {[1 := {| ak_ID := 1; ak_ClientID := 1; ak_Prefix := "k"; ak_SecretHash := 7%N; ak_CreatedAt := 0; ak_ExpiresAt := None; ak_RevokedAt := None;
                          ak_LastUsedAt := None |}]};
     ct_Pools := {[1 := {| mp_ID := 1; mp_Revision := 1; mp_PublicModelName := "m"; mp_UpstreamModelName := "m"; mp_Enabled := true; mp_MaxGatewayInflight := 3;
                           mp_HighPriorityReserve := 1; mp_MaxWaiting := 0; mp_CreatedAt := 0; mp_UpdatedAt := 0 |}]};
     ct_Access := {[(1, 1)]};
     ct_Backends := {[2 := {| be_ID := 2; be_Revision := 1; be_ModelPoolID := 1; be_Name := "b"; be_BaseURL := "http://b"; be_Enabled := true; be_Draining := false;
                              be_CapacityHint := fone; be_RunningSoftLimit := fone; be_UpstreamAPIKeyEnv := EmptyString; be_CreatedAt := 0; be_UpdatedAt := 0 |}]} |}.
Definition wt_db : TkDb (FP := UUID) := {| tb_Ops := ∅; tb_Leases := ∅; tb_Clients := ∅; tb_Backends := ∅; tb_Rates := ∅; tb_Config := wt_config |}.
Definition wt_request (id : UUID) : TokenizationAcquireRequest :=
  {| tr_OperationID := id; tr_ReplicaID := 9%N; tr_RequestID := "r"; tr_OperationStartedAt := wt_now; tr_ConfigurationRevision := 1; tr_APIKeyID := 1;
     tr_ClientID := 1; tr_PoolID := 1; tr_PoolRevision := 1; tr_Candidates := [{| tc_BackendID := 2; tc_BackendRevision := 1 |}] |}.
Definition wt_fingerprint (r : TokenizationAcquireRequest) : UUID := tr_OperationID r.
Definition wt_granted (id : UUID) : TokenizationDecision := tk_granted (tk_lease wt_policy (wt_request id) {| tc_BackendID := 2; tc_BackendRevision := 1 |} wt_now).

Definition tk_statements (i n : nat) : list (Label (Call := TkCall) (Change := TkChange)) := replicate n (LStatement i wt_now).
(** Two acquisitions, each past its first statements before the other commits. *)
Definition wt_two : list Label :=
  [LBegin 0 (TkCAcquire (wt_request 5%N)); LBegin 1 (TkCAcquire (wt_request 6%N))] ++ tk_statements 0 2 ++ tk_statements 1 2 ++ tk_statements 0 17 ++ [LCommit 0] ++ tk_statements 1 17.
Definition wt_again : list Label := wt_two ++ [LCommit 1; LBegin 2 (TkCAcquire (wt_request 5%N))] ++ tk_statements 2 4.
Abbreviation wt_run ls := (sys_run (tk_program wt_fingerprint wt_policy) tk_change tk_may_call ls {| sy_db := wt_db; sy_txs := ∅ |}).
Abbreviation wt_step := (sys_step (tk_program wt_fingerprint wt_policy) tk_change tk_may_call).

Lemma wt_db_ok : tk_ok wt_db.
Proof. split; intros *; cbn; by rewrite lookup_empty. Qed.

Lemma wt_two_commits : (s ← wt_run wt_two; committing 1 s) = Some (TkCAcquire (wt_request 6%N), TkAcquired (inr (wt_granted 6%N))).
Proof. vm_compute. reflexivity. Qed.

Lemma wt_two_new : (s ← wt_run wt_two; tb_Ops (sy_db s) !! 6%N) = None.
Proof. vm_compute. reflexivity. Qed.

Lemma wt_again_commits : (s ← wt_run wt_again; committing 2 s) = Some (TkCAcquire (wt_request 5%N), TkAcquired (inr (wt_granted 5%N))).
Proof. vm_compute. reflexivity. Qed.

Lemma wt_again_known : is_Some (s ← wt_run wt_again; tb_Ops (sy_db s) !! 5%N).
Proof. vm_compute. by eexists. Qed.

Lemma wt_reaches ls i ca : (s ← wt_run ls; committing i s) = Some ca -> exists s s', wt_run ls = Some s /\ committing i s = Some ca /\ wt_step (LCommit i) s = Some s'.
Proof.
  destruct (wt_run ls) as [s|]; cbn; [|done]. destruct ca as [c a]. intros Hc.
  destruct (committing_step (tk_program wt_fingerprint wt_policy) tk_change tk_may_call i s c a Hc) as [s' Hs]. by exists s, s'.
Qed.

Lemma pg_tokenize_limits_witness : exists s s', wt_run wt_two = Some s /\ wt_step (LCommit 1) s = Some s' /\
  tk_granted_post wt_policy (wt_request 6%N) (wt_granted 6%N) (sy_db s) (sy_db s').
Proof.
  destruct (wt_reaches _ _ _ wt_two_commits) as (s & s' & Hrun & Hc & Hs). pose proof wt_two_new as Hn. rewrite Hrun in Hn. exists s, s'.
  split; [exact Hrun|]. split; [exact Hs|]. exact (pg_tokenize_limits wt_fingerprint wt_policy _ _ _ _ _ _ _ _ wt_db_ok Hrun Hc Hs Hn eq_refl).
Defined.

Lemma pg_tokenize_once_witness : exists s s', wt_run wt_again = Some s /\ wt_step (LCommit 2) s = Some s' /\ sy_db s' = sy_db s.
Proof.
  destruct (wt_reaches _ _ _ wt_again_commits) as (s & s' & Hrun & Hc & Hs). destruct wt_again_known as [o Ho]. rewrite Hrun in Ho. exists s, s'.
  split; [exact Hrun|]. split; [exact Hs|]. exact (proj1 (pg_tokenize_once wt_fingerprint wt_policy _ _ _ _ _ _ _ _ wt_db_ok Hrun Hc Hs Ho)).
Defined.

End Witnesses.
