(* ===== verification/PgCircuit.v ===== *)
(** The PostgreSQL circuit coordinator ([src/internal/coordination/postgres/circuit.go],
    [src/internal/coordination/postgres/circuit_refresh.go], the circuit part of
    [src/internal/coordination/postgres/cleanup.go]) and the backend mutations
    ([src/internal/store/postgres/configuration.go]) as transactions over their tables.

    The fingerprint of a request and the URL library are parameters.  The [updated_at] and
    [first_processed_at] columns, which nothing reads, and notifications are left out. *)

From stdpp Require Import sorting.
From S2P Require Import Prelude Domain Float64 Coordination CircuitBreaker Validate Pg.

(** [circuitCompletionRetention] *)
Definition circuitCompletionRetention : Duration := 24 * GoTime.Hour.

(** ** Tables *)

(** [backend_circuit_state] *)
Record CircuitRow := { cw_Revision : Z; cw_State : CircuitState; cw_Generation : Z; cw_OpenedAt : option Time; cw_Succeeded : bool }.

(** [outcome] of [backend_circuit_probes]. *)
Inductive ProbeOutcome := ProbeReported (o : InferenceOutcome) | ProbeExpired | ProbeSuperseded.

#[global] Instance ProbeOutcome_eq_dec : EqDecision ProbeOutcome.
Proof. solve_decision. Defined.

(** [backend_circuit_active_failures] *)
Record ActiveRow := { af_Backend : Z; af_Revision : Z; af_EventAt : Time }.

(** [backend_circuit_failure_receipts] *)
Record ReceiptRow := {
  fr_Backend : Z; fr_Revision : Z; fr_Generation : Z; fr_ReportedAt : Time; fr_EventAt : Time; fr_Applied : bool; fr_RetainUntil : Time
}.

(** [backend_circuit_failures] *)
Record HistoryRow := { fh_Backend : Z; fh_Revision : Z; fh_Generation : Z; fh_EventAt : Time }.

(** The rows that transactions lock. *)
Inductive CKey :=
| CkState (id : Z)
| CkProbe (id : UUID)
| CkActive (id : UUID)
| CkReceipt (id : UUID)
| CkHistory (id : UUID)
| CkBackend (id : Z)
| CkMeta.

#[global] Instance CKey_eq_dec : EqDecision CKey.
Proof. solve_decision. Defined.

#[global] Instance CKey_countable : Countable CKey.
Proof.
  refine (inj_countable'
    (fun k => match k with CkState id => inl (inl id) | CkBackend id => inl (inr id) | CkProbe id => inr (inl (inl id)) | CkActive id => inr (inl (inr id))
              | CkReceipt id => inr (inr (inl id)) | CkHistory id => inr (inr (inr (inl id))) | CkMeta => inr (inr (inr (inr tt))) end)
    (fun x => match x with inl (inl id) => CkState id | inl (inr id) => CkBackend id | inr (inl (inl id)) => CkProbe id | inr (inl (inr id)) => CkActive id
              | inr (inr (inl id)) => CkReceipt id | inr (inr (inr (inl id))) => CkHistory id | inr (inr (inr (inr _))) => CkMeta end) _). by intros [].
Defined.

Section PgCircuit.
Context {FP : Type} `{!EqDecision FP} (circuitAcquireFingerprint : CircuitAcquireRequest -> FP) (options : Options).
Context {Rest : Type} (url_parse : string -> option (URL Rest)) (url_string : URL Rest -> string).

(** [backend_circuit_probes] *)
Record ProbeRow := {
  pb_StartedAt : Time;
  pb_Fingerprint : FP;
  pb_Backend : Z;
  pb_Revision : Z;
  pb_Generation : Z;
  pb_Replica : UUID;
  pb_ExpiresAt : Time;
  pb_ReportedAt : option Time;
  pb_EventAt : option Time;
  pb_Outcome : option ProbeOutcome;
  pb_RetainUntil : option Time
}.

Record CDb := {
  cd_States : gmap Z CircuitRow;
  cd_Probes : gmap UUID ProbeRow;
  cd_Active : gmap UUID ActiveRow;
  cd_Receipts : gmap UUID ReceiptRow;
  cd_History : gmap UUID HistoryRow;
  cd_Backends : gmap Z Backend;
  cd_Revision : Z
}.

Abbreviation Tx := (Tx (Db := CDb) (Key := CKey)).

Inductive CAnswer :=
| CaAcquired (d : Error + CircuitDecision)
| CaFast (d : option CircuitDecision)
| CaCompleted (s : option CircuitSnapshot) (e : option Error)
| CaFastCompleted (s : option (CircuitSnapshot * option Error))
| CaRenewed (r : Error + list RenewResult)
| CaDone (e : option Error)
| CaSnapshots (s : gmap Z CircuitSnapshot)
| CaCleaned (more : bool).

Definition CErrNoRows : Error := ErrOpaque "no rows in result set".
Definition CErrUnique : Error := ErrOpaque "duplicate key value violates unique constraint".
Definition CErrNull : Error := ErrOpaque "cannot scan NULL into *time.Time".
Definition CErrInvalid : Error := ErrOpaque "invalid configuration".

(** ** Rows *)

Definition is_live (p : ProbeRow) : bool := bool_decide (pb_Outcome p = None).
Definition live_of (b : Z) (p : ProbeRow) : bool := is_live p && (pb_Backend p =? b).
Definition live_in (b revision generation : Z) (p : ProbeRow) : bool :=
  live_of b p && (pb_Revision p =? revision) && (pb_Generation p =? generation).

Definition probes_where (sel : ProbeRow -> bool) (v : CDb) : gmap UUID ProbeRow := filter (fun '(_, p) => sel p = true) (cd_Probes v).

Definition active_in (b revision : Z) (v : CDb) : gmap UUID ActiveRow :=
  filter (fun '(_, f) => af_Backend f = b /\ af_Revision f = revision) (cd_Active v).

(** [ORDER BY backend_id, permit_id] *)
Definition probe_order (a b : UUID * ProbeRow) : Prop :=
  pb_Backend a.2 < pb_Backend b.2 \/ pb_Backend a.2 = pb_Backend b.2 /\ (a.1 <= b.1)%N.

#[global] Instance probe_order_dec : RelDecision probe_order.
Proof. intros a b. unfold probe_order. apply _. Defined.

(** [GREATEST(now, acquisition_started_at) + interval '24 hours'] *)
Definition probe_retention (now : Time) (p : ProbeRow) : Time := Z.max now (pb_StartedAt p) + circuitCompletionRetention.

Definition terminal (now : Time) (outcome : ProbeOutcome) (p : ProbeRow) : ProbeRow :=
  {| p with pb_Outcome := Some outcome; pb_RetainUntil := Some (probe_retention now p) |}.

(** [UPDATE backend_circuit_probes SET outcome=... WHERE ... AND outcome IS NULL] *)
Definition terminalize (sel : ProbeRow -> bool) (outcome : UUID -> ProbeOutcome) (now : Time) : Tx unit :=
  update_rows (fun v => dom (probes_where sel v)) CkProbe (fun ids db => {| db with cd_Probes :=
    map_imap (fun id p => Some (if bool_decide (id ∈ ids) then terminal now (outcome id) p else p)) (cd_Probes db) |});;
  TxRet tt.

(** [UPDATE backend_circuit_state SET ... WHERE backend_id=b] *)
Definition update_state (b : Z) (f : CircuitRow -> CircuitRow) : Tx unit :=
  update_found (CkState b) (fun v => bool_decide (is_Some (cd_States v !! b))) (fun db => {| db with cd_States := alter f b (cd_States db) |}).

Definition open_row (generation : Z) (at_ : Time) (s : CircuitRow) : CircuitRow :=
  {| s with cw_State := CircuitOpen; cw_Generation := generation; cw_OpenedAt := Some at_; cw_Succeeded := false |}.
Definition half_open_row (generation : Z) (s : CircuitRow) : CircuitRow :=
  {| s with cw_State := CircuitHalfOpen; cw_Generation := generation; cw_OpenedAt := None; cw_Succeeded := false |}.
Definition closed_row (generation : Z) (s : CircuitRow) : CircuitRow :=
  {| s with cw_State := CircuitClosed; cw_Generation := generation; cw_OpenedAt := None; cw_Succeeded := false |}.
(** A new revision of the backend. *)
Definition reset_row (revision : Z) (s : CircuitRow) : CircuitRow :=
  {| cw_Revision := revision; cw_State := CircuitClosed; cw_Generation := cw_Generation s + 1; cw_OpenedAt := None; cw_Succeeded := false |}.

(** [DELETE FROM backend_circuit_active_failures WHERE ...] *)
Definition delete_active (sel : ActiveRow -> bool) : Tx unit :=
  update_rows (fun v => dom (filter (fun '(_, f) => sel f = true) (cd_Active v))) CkActive
    (fun ids db => {| db with cd_Active := filter (fun '(id, _) => id ∉ ids) (cd_Active db) |});;
  TxRet tt.

(** ** The parts of the operations *)

Definition snapshot_of (b : Z) (v : CDb) : option CircuitSnapshot :=
  s ← cd_States v !! b;
  Some {| cs_Backend := {| bi_ID := b; bi_Revision := cw_Revision s; bi_Enabled := false; bi_Draining := false |}; cs_State := cw_State s;
          cs_Generation := cw_Generation s; cs_FailureCount := Z.of_nat (size (active_in b (cw_Revision s) v)); cs_RetryAt := default GoTime.zero (cw_OpenedAt s);
          cs_ProbesInFlight := 0; cs_Available := false |}.

Definition lockCircuitState (b : Z) : Tx (option CircuitSnapshot) := select_for_update (CkState b) (snapshot_of b).

Definition identity_row (b : Z) (v : CDb) : option BackendIdentity :=
  row ← cd_Backends v !! b;
  Some {| bi_ID := b; bi_Revision := be_Revision row; bi_Enabled := be_Enabled row; bi_Draining := be_Draining row |}.

Definition lockBackendIdentity (b : Z) : Tx (option BackendIdentity) := select_for_update (CkBackend b) (identity_row b).

(** [SELECT permit_id FROM backend_circuit_probes WHERE ... ORDER BY backend_id, permit_id FOR UPDATE] *)
Definition probe_present (sel : UUID -> ProbeRow -> bool) (key : CKey) (v : CDb) : bool :=
  match key with CkProbe id => match cd_Probes v !! id with Some p => sel id p | None => false end | _ => false end.

Definition lock_probes (sel : UUID -> ProbeRow -> bool) : Tx unit :=
  ids ← query (fun _ v => (merge_sort probe_order (map_to_list (filter (fun '(id, p) => sel id p = true) (cd_Probes v)))).*1);
  lock_rows (CkProbe <$> ids) (probe_present sel).

Definition currentClosedFailureCount (b revision : Z) (now : Time) : Tx Z :=
  query (fun _ v => Z.of_nat (size (filter (fun '(_, f) => timestamptz (now - FailureWindow options) <= af_EventAt f) (active_in b revision v)))).

(** [max(event_at)] *)
Definition latest_event (fs : gmap UUID ActiveRow) : option Time :=
  map_fold (fun _ f latest => Some (match latest with Some t => Z.max t (af_EventAt f) | None => af_EventAt f end)) None fs.

(** [None]: there is no latest failure to scan. *)
Definition recordActiveFailure (b revision : Z) (attempt : UUID) (eventAt : Time) : Tx (option (Z * Time)) :=
  insert_new (CkActive attempt) (fun v => bool_decide (cd_Active v !! attempt = None))
    (fun db => {| db with cd_Active := <[attempt := {| af_Backend := b; af_Revision := revision; af_EventAt := timestamptz eventAt |}]> (cd_Active db) |});;
  latest ← query (fun _ v => latest_event (active_in b revision v));
  match latest with
  | None => TxRet None
  | Some latest =>
    delete_active (fun f => (af_Backend f =? b) && (af_Revision f =? revision) && (af_EventAt f <? timestamptz (latest - FailureWindow options)));;
    count ← query (fun _ v => Z.of_nat (size (active_in b revision v)));
    TxRet (Some (count, latest))
  end.

(** The least expired probe of the generation, by [expires_at, permit_id]. *)
Definition probe_before (a b : UUID * ProbeRow) : Prop :=
  pb_ExpiresAt a.2 < pb_ExpiresAt b.2 \/ pb_ExpiresAt a.2 = pb_ExpiresAt b.2 /\ (a.1 <= b.1)%N.

#[global] Instance probe_before_dec : RelDecision probe_before.
Proof. intros a b. unfold probe_before. apply _. Defined.

Definition expired_probe (b revision generation : Z) (now : Time) (v : CDb) : option (UUID * Time) :=
  '(id, p) ← head (merge_sort probe_before
    (filter (fun '(_, p) => pb_ExpiresAt p <= now) (map_to_list (probes_where (live_in b revision generation) v))));
  Some (id, pb_ExpiresAt p).

(** The state after expiry, and whether it changed; [None] is an error. *)
Definition reconcileExpired (state : CircuitSnapshot) (now : Time) : Tx (option (CircuitSnapshot * bool)) :=
  let b := bi_ID (cs_Backend state) in
  let revision := bi_Revision (cs_Backend state) in
  let generation := cs_Generation state in
  if negb (bool_decide (cs_State state = CircuitHalfOpen)) then
    TxRet (Some (if bool_decide (cs_State state = CircuitOpen) && negb (GoTime.IsZero (cs_RetryAt state))
                 then {| state with cs_RetryAt := GoTime.Add (cs_RetryAt state) (OpenCooldown options) |} else state, false))
  else
    expired ← query (fun _ => expired_probe b revision generation now);
    match expired with
    | None =>
      n ← query (fun _ v => Z.of_nat (size (filter (fun '(_, p) => now < pb_ExpiresAt p) (probes_where (live_in b revision generation) v))));
      TxRet (Some ({| state with cs_ProbesInFlight := n |}, false))
    | Some (permit, expiredAt) =>
      terminalize (live_in b revision generation) (fun id => if bool_decide (id = permit) then ProbeExpired else ProbeSuperseded) now;;
      recorded ← recordActiveFailure b revision permit expiredAt;
      match recorded with
      | None => TxRet None
      | Some (count, latest) =>
        update_state b (open_row (generation + 1) latest);;
        TxRet (Some ({| state with cs_State := CircuitOpen; cs_Generation := generation + 1; cs_FailureCount := count;
                                   cs_RetryAt := GoTime.Add latest (OpenCooldown options); cs_ProbesInFlight := 0; cs_Available := false |}, true))
      end
    end.

Definition validCircuitOperationTime (at_ now : Time) : bool :=
  negb (GoTime.After at_ (GoTime.Add now (5 * GoTime.Minute))) && GoTime.After at_ (GoTime.Add now (- circuitCompletionRetention)).

(** ** Acquire *)

Definition c_failed (e : Error) : Tx (Ending CAnswer) := TxRet (RolledBack (CaAcquired (inl e))).
Definition commitCircuitDecision (d : CircuitDecision) : Tx (Ending CAnswer) := TxRet (Committed (CaAcquired (inr d))).
Definition c_refused (state : CircuitSnapshot) (reason : Reason) : CircuitDecision := {| cd_Snapshot := Some state; cd_Permit := None; cd_Reason := reason |}.
Definition c_permitted (state : CircuitSnapshot) (permit : option ProbeIdentity) : CircuitDecision :=
  {| cd_Snapshot := Some state; cd_Permit := permit; cd_Reason := ReasonNone |}.

Definition stale_backend (request : CircuitAcquireRequest) (state : CircuitSnapshot) (authoritative : BackendIdentity) : bool :=
  negb (bi_Revision (cs_Backend state) =? bi_Revision authoritative) || negb (bi_Revision authoritative =? bi_Revision (ca_Backend request)) ||
  negb (bi_Enabled authoritative) || bi_Draining authoritative.

(** A probe, once the circuit is half open. *)
Definition acquire_probe (request : CircuitAcquireRequest) (state : CircuitSnapshot) (now : Time) : Tx (Ending CAnswer) :=
  let b := bi_ID (ca_Backend request) in
  row ← query (fun _ v => cd_States v !! b);
  match row with
  | None => c_failed CErrNoRows
  | Some row =>
    if cw_Succeeded row || (HalfOpenMaxProbes options <=? cs_ProbesInFlight state)
    then commitCircuitDecision (c_refused {| state with cs_Available := false |} ReasonProbeCapacityExhausted)
    else
      let permit := {| pi_PermitID := ca_AttemptID request; pi_Backend := ca_Backend request; pi_Generation := cs_Generation state;
                       pi_ReplicaID := ca_ReplicaID request; pi_ExpiresAt := GoTime.Add now (ca_ProbeTTL request); pi_TTL := ca_ProbeTTL request |} in
      inserted ← insert_new (CkProbe (ca_AttemptID request)) (fun v => bool_decide (cd_Probes v !! ca_AttemptID request = None))
        (fun db => {| db with cd_Probes := <[ca_AttemptID request :=
           {| pb_StartedAt := timestamptz (ca_AcquisitionStartedAt request); pb_Fingerprint := circuitAcquireFingerprint request; pb_Backend := b;
              pb_Revision := bi_Revision (ca_Backend request); pb_Generation := pi_Generation permit; pb_Replica := ca_ReplicaID request;
              pb_ExpiresAt := timestamptz (pi_ExpiresAt permit); pb_ReportedAt := None; pb_EventAt := None; pb_Outcome := None; pb_RetainUntil := None |}]> (cd_Probes db) |});
      if negb inserted then c_failed CErrUnique
      else
        let n := cs_ProbesInFlight state + 1 in
        commitCircuitDecision (c_permitted {| state with cs_ProbesInFlight := n; cs_Available := n <? HalfOpenMaxProbes options |} (Some permit))
  end.

(** A new attempt. *)
Definition acquire_new (request : CircuitAcquireRequest) (state : CircuitSnapshot) (authoritative : BackendIdentity) (now : Time) : Tx (Ending CAnswer) :=
  let b := bi_ID (ca_Backend request) in
  if stale_backend request state authoritative then commitCircuitDecision (c_refused state ReasonStaleBackend)
  else if GoTime.After (ca_AcquisitionStartedAt request) (GoTime.Add now (5 * GoTime.Minute)) ||
          negb (GoTime.After (ca_AcquisitionStartedAt request) (GoTime.Add now (- circuitCompletionRetention)))
  then commitCircuitDecision (c_refused state ReasonStaleOperation)
  else
    match cs_State state with
    | CircuitClosed => commitCircuitDecision (c_permitted {| state with cs_Available := true |} None)
    | CircuitOpen =>
      if GoTime.Before now (cs_RetryAt state) then commitCircuitDecision (c_refused state ReasonCircuitOpen)
      else
        let generation := cs_Generation state + 1 in
        update_state b (half_open_row generation);;
        acquire_probe request {| state with cs_State := CircuitHalfOpen; cs_Generation := generation; cs_RetryAt := GoTime.zero;
                                            cs_ProbesInFlight := 0; cs_Available := true |} now
    | CircuitHalfOpen => acquire_probe request state now
    end.

(** The answer to an attempt that has a probe. *)
Definition acquire_again (request : CircuitAcquireRequest) (state : CircuitSnapshot) (p : ProbeRow) (now : Time) : CircuitDecision :=
  if negb (bool_decide (pb_Fingerprint p = circuitAcquireFingerprint request)) then c_refused state ReasonIdempotencyConflict
  else if negb (is_live p) || negb (pb_Revision p =? bi_Revision (ca_Backend request)) || negb (pb_Generation p =? cs_Generation state) ||
          negb (GoTime.After (pb_ExpiresAt p) now)
  then c_refused state ReasonLeaseLost
  else c_permitted state (Some {| pi_PermitID := ca_AttemptID request; pi_Backend := ca_Backend request; pi_Generation := pb_Generation p;
                                  pi_ReplicaID := ca_ReplicaID request; pi_ExpiresAt := pb_ExpiresAt p; pi_TTL := ca_ProbeTTL request |}).

Definition circuit_acquire (request : CircuitAcquireRequest) : Tx (Ending CAnswer) :=
  let b := bi_ID (ca_Backend request) in
  let stale := commitCircuitDecision {| cd_Snapshot := None; cd_Permit := None; cd_Reason := ReasonStaleBackend |} in
  state ← lockCircuitState b;
  match state with
  | None => stale
  | Some state =>
    authoritative ← lockBackendIdentity b;
    match authoritative with
    | None => stale
    | Some authoritative =>
      let identity := cs_Backend state in
      let state := {| state with cs_Backend := {| identity with bi_Enabled := bi_Enabled authoritative; bi_Draining := bi_Draining authoritative |} |} in
      lock_probes (fun _ => live_of b);;
      now ← clock_timestamp;
      reconciled ← reconcileExpired state now;
      match reconciled with
      | None => c_failed CErrNull
      | Some (state, _) =>
        count ← (if bool_decide (cs_State state = CircuitClosed) then currentClosedFailureCount b (bi_Revision (cs_Backend state)) now
                 else TxRet (cs_FailureCount state));
        let state := {| state with cs_FailureCount := count |} in
        stored ← select_for_update (CkProbe (ca_AttemptID request)) (fun v => cd_Probes v !! ca_AttemptID request);
        match stored with
        | Some p => commitCircuitDecision (acquire_again request state p now)
        | None => acquire_new request state authoritative now
        end
      end
    end
  end.

(** [readCommittedCircuit]: one statement, without locks. *)
Definition readCommittedCircuit (b : Z) (attempt : UUID) : Tx (option (CircuitSnapshot * BackendIdentity * Time * bool)) :=
  query (fun now v =>
    let now := timestamptz now in
    state ← snapshot_of b v;
    authoritative ← identity_row b v;
    let count := Z.of_nat (size (filter (fun '(_, f) => now - timestamptz (FailureWindow options) <= af_EventAt f)
                                   (active_in b (bi_Revision (cs_Backend state)) v))) in
    let identity := cs_Backend state in
    let retry := match cd_States v !! b with
                 | Some s => match cw_OpenedAt s with Some t => GoTime.Add t (OpenCooldown options) | None => GoTime.zero end
                 | None => GoTime.zero
                 end in
    Some ({| state with cs_Backend := {| identity with bi_Enabled := bi_Enabled authoritative; bi_Draining := bi_Draining authoritative |};
                        cs_FailureCount := count; cs_RetryAt := retry |},
          authoritative, now, bool_decide (is_Some (cd_Probes v !! attempt)))).

(** [None]: not handled. *)
Definition answer_closed (request : CircuitAcquireRequest) (read : option (CircuitSnapshot * BackendIdentity * Time * bool)) : option CircuitDecision :=
  match read with
  | None => Some {| cd_Snapshot := None; cd_Permit := None; cd_Reason := ReasonStaleBackend |}
  | Some (state, authoritative, now, retainedPermit) =>
    if retainedPermit then None
    else if stale_backend request state authoritative then Some (c_refused state ReasonStaleBackend)
    else if negb (validCircuitOperationTime (ca_AcquisitionStartedAt request) now) then Some (c_refused state ReasonStaleOperation)
    else if negb (bool_decide (cs_State state = CircuitClosed)) then None
    else Some (c_permitted {| state with cs_Available := true |} None)
  end.

Definition acquireClosed (request : CircuitAcquireRequest) : Tx (Ending CAnswer) :=
  read ← readCommittedCircuit (bi_ID (ca_Backend request)) (ca_AttemptID request);
  TxRet (Committed (CaFast (answer_closed request read))).

(** ** Complete *)

Definition c_completed (state : CircuitSnapshot) : Tx (Ending CAnswer) := TxRet (Committed (CaCompleted (Some state) None)).
Definition c_incomplete (state : CircuitSnapshot) (e : Error) : Tx (Ending CAnswer) := TxRet (RolledBack (CaCompleted (Some state) (Some e))).

(** The time of the event: not after the database's clock. *)
Definition event_time (completion : CircuitCompletion) (now : Time) : Time :=
  if GoTime.After (cc_ReportedOutcomeAt completion) now then now else cc_ReportedOutcomeAt completion.

(** [terminalizeGeneration] *)
Definition other_probe (b generation : Z) (p : ProbeRow) : bool := live_of b p && (pb_Generation p =? generation).

Definition terminalizeGeneration (b generation : Z) (triggering : UUID) (now : Time) : Tx unit :=
  update_rows (fun v => dom (probes_where (other_probe b generation) v) ∖ {[triggering]}) CkProbe (fun ids db => {| db with cd_Probes :=
    map_imap (fun id p => Some (if bool_decide (id ∈ ids) then terminal now ProbeSuperseded p else p)) (cd_Probes db) |});;
  TxRet tt.

(** The end of a completed probe: the circuit closes when it succeeded and no probe is left. *)
Definition close_when_done (completion : CircuitCompletion) (state : CircuitSnapshot) : Tx (Ending CAnswer) :=
  let b := bi_ID (cc_Backend completion) in
  remaining ← query (fun _ v => size (probes_where (live_in b (bi_Revision (cc_Backend completion)) (cc_Generation completion)) v));
  row ← query (fun _ v => cd_States v !! b);
  match row with
  | None => c_incomplete state CErrNoRows
  | Some row =>
    if bool_decide (cs_State state = CircuitHalfOpen) && cw_Succeeded row && (remaining =? 0)%nat then
      let generation := cs_Generation state + 1 in
      delete_active (fun f => af_Backend f =? b);;
      update_state b (closed_row generation);;
      c_completed {| state with cs_State := CircuitClosed; cs_Generation := generation; cs_FailureCount := 0; cs_Available := true |}
    else c_completed state
  end.

(** The latest of the times. *)
Definition latest_of (first : Time) (rest : list Time) : Time := fold_left (fun latest t => if GoTime.After t latest then t else latest) rest first.

(** A completion that has a probe. *)
Definition complete_probe (completion : CircuitCompletion) (state : CircuitSnapshot) (p : ProbeRow) (now : Time) : Tx (Ending CAnswer) :=
  let b := bi_ID (cc_Backend completion) in
  let conflict := c_incomplete state (ReasonError ReasonIdempotencyConflict) in
  if negb (pb_Revision p =? bi_Revision (cc_Backend completion)) || negb (pb_Generation p =? cc_Generation completion) then conflict
  else
    match pb_Outcome p with
    | Some outcome =>
      if match pb_ReportedAt p with Some t => negb (GoTime.Equal t (cc_ReportedOutcomeAt completion)) || negb (bool_decide (outcome = ProbeReported (cc_Outcome completion)))
         | None => false end && negb (bool_decide (outcome = ProbeExpired)) && negb (bool_decide (outcome = ProbeSuperseded))
      then conflict
      else c_completed state
    | None =>
      if negb (validCircuitOperationTime (cc_ReportedOutcomeAt completion) now) then c_incomplete state (ReasonError ReasonStaleOperation)
      else
        let eventAt := event_time completion now in
        let retain := GoTime.Add (latest_of now [cc_ReportedOutcomeAt completion; pb_StartedAt p]) circuitCompletionRetention in
        update_found (CkProbe (cc_AttemptID completion)) (fun v => bool_decide (is_Some (cd_Probes v !! cc_AttemptID completion)))
          (fun db => {| db with cd_Probes := alter (fun p => {| p with pb_ReportedAt := Some (cc_ReportedOutcomeAt completion); pb_EventAt := Some eventAt;
             pb_Outcome := Some (ProbeReported (cc_Outcome completion)); pb_RetainUntil := Some (timestamptz retain) |}) (cc_AttemptID completion) (cd_Probes db) |});;
        if negb (cs_Generation state =? cc_Generation completion) || negb (bi_Revision (cs_Backend state) =? bi_Revision (cc_Backend completion)) ||
           negb (bool_decide (cs_State state = CircuitHalfOpen))
        then c_completed state
        else
          match cc_Outcome completion with
          | InferenceFailure =>
            terminalizeGeneration b (cc_Generation completion) (cc_AttemptID completion) now;;
            recorded ← recordActiveFailure b (bi_Revision (cs_Backend state)) (cc_AttemptID completion) eventAt;
            match recorded with
            | None => c_incomplete state CErrNull
            | Some (count, latest) =>
              let generation := cs_Generation state + 1 in
              update_state b (open_row generation latest);;
              close_when_done completion {| state with cs_State := CircuitOpen; cs_Generation := generation; cs_FailureCount := count;
                                                       cs_RetryAt := GoTime.Add latest (OpenCooldown options); cs_ProbesInFlight := 0 |}
            end
          | InferenceSuccess =>
            update_state b (fun s => {| s with cw_Succeeded := true |});;
            close_when_done completion state
          | InferenceNeutral => close_when_done completion state
          end
    end.

(** A failure of an attempt without a probe. *)
Definition complete_failure (completion : CircuitCompletion) (state : CircuitSnapshot) (now : Time) : Tx (Ending CAnswer) :=
  let b := bi_ID (cc_Backend completion) in
  let attempt := cc_AttemptID completion in
  let revision := bi_Revision (cc_Backend completion) in
  old ← select_for_update (CkReceipt attempt) (fun v => cd_Receipts v !! attempt);
  match old with
  | Some old =>
    if negb (fr_Revision old =? revision) || negb (fr_Generation old =? cc_Generation completion) || negb (GoTime.Equal (fr_ReportedAt old) (cc_ReportedOutcomeAt completion))
    then c_incomplete state (ReasonError ReasonIdempotencyConflict)
    else c_completed state
  | None =>
    if negb (validCircuitOperationTime (cc_ReportedOutcomeAt completion) now) then c_incomplete state (ReasonError ReasonStaleOperation)
    else
      let eventAt := event_time completion now in
      let applied := bool_decide (cs_State state = CircuitClosed) && (bi_Revision (cs_Backend state) =? revision) && (cs_Generation state =? cc_Generation completion) &&
                     negb (GoTime.Before eventAt (GoTime.Add now (- FailureWindow options))) in
      let retain := GoTime.Add (latest_of now [cc_ReportedOutcomeAt completion]) circuitCompletionRetention in
      inserted ← insert_new (CkReceipt attempt) (fun v => bool_decide (cd_Receipts v !! attempt = None))
        (fun db => {| db with cd_Receipts := <[attempt := {| fr_Backend := b; fr_Revision := revision; fr_Generation := cc_Generation completion;
           fr_ReportedAt := cc_ReportedOutcomeAt completion; fr_EventAt := eventAt; fr_Applied := applied; fr_RetainUntil := timestamptz retain |}]> (cd_Receipts db) |});
      if negb inserted then c_incomplete state CErrUnique
      else if negb applied then c_completed state
      else
        recorded_history ← insert_new (CkHistory attempt) (fun v => bool_decide (cd_History v !! attempt = None))
          (fun db => {| db with cd_History := <[attempt := {| fh_Backend := b; fh_Revision := revision; fh_Generation := cc_Generation completion; fh_EventAt := eventAt |}]> (cd_History db) |});
        if negb recorded_history then c_incomplete state CErrUnique
        else
          recorded ← recordActiveFailure b (bi_Revision (cs_Backend state)) attempt eventAt;
          match recorded with
          | None => c_incomplete state CErrNull
          | Some (count, latest) =>
            update_rows (fun v => dom (filter (fun '(_, h) => fh_Backend h = b /\ fh_Revision h = revision /\ fh_Generation h = cc_Generation completion /\
                                                             fh_EventAt h < timestamptz (latest - FailureWindow options)) (cd_History v))) CkHistory
              (fun ids db => {| db with cd_History := filter (fun '(id, _) => id ∉ ids) (cd_History db) |});;
            let state := {| state with cs_FailureCount := count |} in
            if count <? FailureThreshold options then c_completed state
            else
              let generation := cs_Generation state + 1 in
              update_state b (open_row generation latest);;
              c_completed {| state with cs_State := CircuitOpen; cs_Generation := generation; cs_RetryAt := GoTime.Add latest (OpenCooldown options); cs_Available := false |}
          end
  end.

Definition circuit_complete (completion : CircuitCompletion) : Tx (Ending CAnswer) :=
  let b := bi_ID (cc_Backend completion) in
  state ← lockCircuitState b;
  match state with
  | None => TxRet (RolledBack (CaCompleted None (Some (ReasonError ReasonStaleBackend))))
  | Some state =>
    lock_probes (fun _ => live_of b);;
    now ← clock_timestamp;
    reconciled ← reconcileExpired state now;
    match reconciled with
    | None => c_incomplete state CErrNull
    | Some (state, _) =>
      count ← (if bool_decide (cs_State state = CircuitClosed) then currentClosedFailureCount b (bi_Revision (cs_Backend state)) now
               else TxRet (cs_FailureCount state));
      let state := {| state with cs_FailureCount := count |} in
      stored ← select_for_update (CkProbe (cc_AttemptID completion)) (fun v => cd_Probes v !! cc_AttemptID completion);
      match stored with
      | Some p => complete_probe completion state p now
      | None =>
        if negb (bool_decide (cc_Outcome completion = InferenceFailure)) then
          if negb (validCircuitOperationTime (cc_ReportedOutcomeAt completion) now) then c_incomplete state (ReasonError ReasonStaleOperation)
          else c_completed state
        else complete_failure completion state now
      end
    end
  end.

(** [canonicalPostgresTimestamp] *)
Definition canonical (completion : CircuitCompletion) : CircuitCompletion :=
  {| completion with cc_ReportedOutcomeAt := timestamptz (cc_ReportedOutcomeAt completion) |}.

Definition answer_completed (completion : CircuitCompletion) (read : option (CircuitSnapshot * BackendIdentity * Time * bool))
    : option (CircuitSnapshot * option Error) :=
  match read with
  | None => None
  | Some (state, _, now, retainedPermit) =>
    if retainedPermit || negb (bool_decide (cs_State state = CircuitClosed)) then None
    else if negb (validCircuitOperationTime (cc_ReportedOutcomeAt completion) now) then Some (state, Some (ReasonError ReasonStaleOperation))
    else Some ({| state with cs_Available := true |}, None)
  end.

Definition completeClosedNonFailure (completion : CircuitCompletion) : Tx (Ending CAnswer) :=
  if bool_decide (cc_Outcome completion = InferenceFailure) then TxRet (Committed (CaFastCompleted None))
  else
    read ← readCommittedCircuit (bi_ID (cc_Backend completion)) (cc_AttemptID completion);
    TxRet (Committed (CaFastCompleted (answer_completed completion read))).

(** ** Renewal *)

Definition probe_le (a b : ProbeIdentity) : Prop :=
  bi_ID (pi_Backend a) < bi_ID (pi_Backend b) \/ bi_ID (pi_Backend a) = bi_ID (pi_Backend b) /\ (pi_PermitID a <= pi_PermitID b)%N.

#[global] Instance probe_le_dec : RelDecision probe_le.
Proof. intros a b. unfold probe_le. apply _. Defined.

(** The states of the backends, each locked; [None] when one is not there. *)
Fixpoint lock_states (ids : list Z) : Tx (option (list CircuitSnapshot)) :=
  match ids with
  | [] => TxRet (Some [])
  | id :: ids =>
    state ← lockCircuitState id;
    match state with
    | None => TxRet None
    | Some state => rest ← lock_states ids; TxRet (option_map (cons state) rest)
    end
  end.

Fixpoint reconcile_states (states : list CircuitSnapshot) (now : Time) : Tx bool :=
  match states with
  | [] => TxRet true
  | state :: states =>
    reconciled ← reconcileExpired state now;
    match reconciled with None => TxRet false | Some _ => reconcile_states states now end
  end.

(** The row that a renewal extends. *)
Definition renewable_probe (probe : ProbeIdentity) (now : Time) (p : ProbeRow) : bool :=
  live_in (bi_ID (pi_Backend probe)) (bi_Revision (pi_Backend probe)) (pi_Generation probe) p && bool_decide (pb_Replica p = pi_ReplicaID probe) &&
  (now <? pb_ExpiresAt p).

Definition probe_result (probe : ProbeIdentity) (expires : Time) (reason : Reason) : RenewResult :=
  {| rr_Lease := {| li_LeaseID := pi_PermitID probe; li_ClientID := 0; li_PoolID := 0; li_RequestID := EmptyString; li_ReplicaID := uuidNil;
                    li_ExpiresAt := expires; li_TTL := pi_TTL probe |}; rr_Reason := reason |}.

Definition renew_probe (probe : ProbeIdentity) (now : Time) : Tx RenewResult :=
  if pi_TTL probe <=? 0 then TxRet (probe_result probe (pi_ExpiresAt probe) ReasonLeaseLost)
  else
    let id := pi_PermitID probe in
    renewed ← update_rows (fun v => dom (filter (fun '(i, p) => i = id /\ renewable_probe probe now p = true) (cd_Probes v))) CkProbe
      (fun ids db => {| db with cd_Probes := map_imap (fun i p => Some (if bool_decide (i ∈ ids)
         then {| p with pb_ExpiresAt := timestamptz (GoTime.Add now (pi_TTL probe)) |} else p)) (cd_Probes db) |});
    TxRet (if bool_decide (renewed = ∅) then probe_result probe (pi_ExpiresAt probe) ReasonLeaseLost
           else probe_result probe (GoTime.Add now (pi_TTL probe)) ReasonNone).

Fixpoint renew_all (probes : list ProbeIdentity) (now : Time) (results : gmap UUID RenewResult) : Tx (gmap UUID RenewResult) :=
  match probes with
  | [] => TxRet results
  | probe :: probes => result ← renew_probe probe now; renew_all probes now (<[pi_PermitID probe := result]> results)
  end.

(** [list_to_set] of the sorted IDs, without repetitions. *)
Definition backend_ids (probes : list ProbeIdentity) : list Z := merge_sort Z.le (elements (list_to_set ((fun p => bi_ID (pi_Backend p)) <$> probes) : gset Z)).

Definition renewProbes (probes : list ProbeIdentity) : Tx (Ending CAnswer) :=
  if bool_decide (length probes = 0%nat) then TxRet (RolledBack (CaRenewed (inr [])))
  else
    let ordered := merge_sort probe_le probes in
    let ids := backend_ids probes in
    let permits : gset UUID := list_to_set (pi_PermitID <$> probes) in
    states ← lock_states ids;
    match states with
    | None => TxRet (RolledBack (CaRenewed (inl CErrNoRows)))
    | Some states =>
      lock_probes (fun id p => bool_decide (pb_Backend p ∈ ids) && (is_live p || bool_decide (id ∈ permits)));;
      now ← clock_timestamp;
      ok ← reconcile_states states now;
      if negb ok then TxRet (RolledBack (CaRenewed (inl CErrNull)))
      else
        results ← renew_all ordered now ∅;
        TxRet (Committed (CaRenewed (inr ((fun p => default (probe_result p (pi_ExpiresAt p) ReasonLeaseLost) (results !! pi_PermitID p)) <$> probes))))
    end.

(** ** Reconcile *)

Definition terminalizeProbes (b : Z) (outcome : ProbeOutcome) : Tx unit :=
  lock_probes (fun _ => live_of b);;
  now ← clock_timestamp;
  terminalize (live_of b) (fun _ => outcome) now.

(** One backend; the answer is an error. *)
Definition reconcile_one (b : Z) : Tx (option Error) :=
  revision ← select_for_update (CkState b) (fun v => cw_Revision <$> cd_States v !! b);
  authoritative ← lockBackendIdentity b;
  match authoritative with
  | None => TxRet None
  | Some authoritative =>
    let disabled := if negb (bi_Enabled authoritative) || bi_Draining authoritative then terminalizeProbes b ProbeSuperseded else TxRet tt in
    match revision with
    | None =>
      inserted ← insert_new (CkState b) (fun v => bool_decide (cd_States v !! b = None))
        (fun db => {| db with cd_States := <[b := {| cw_Revision := bi_Revision authoritative; cw_State := CircuitClosed; cw_Generation := 0;
                                                    cw_OpenedAt := None; cw_Succeeded := false |}]> (cd_States db) |});
      if negb inserted then TxRet (Some CErrUnique) else disabled;; TxRet None
    | Some revision =>
      (if revision =? bi_Revision authoritative then TxRet tt
       else
         terminalizeProbes b ProbeSuperseded;;
         delete_active (fun f => af_Backend f =? b);;
         update_state b (reset_row (bi_Revision authoritative)));;
      disabled;;
      TxRet None
    end
  end.

Fixpoint reconcile_all (ids : list Z) : Tx (Ending CAnswer) :=
  match ids with
  | [] => TxRet (Committed (CaDone None))
  | id :: ids =>
    e ← reconcile_one id;
    match e with Some e => TxRet (RolledBack (CaDone (Some e))) | None => reconcile_all ids end
  end.

Definition Reconcile (values : list BackendIdentity) : Tx (Ending CAnswer) := reconcile_all (merge_sort Z.le (bi_ID <$> values)).

(** ** Refresh *)

(** A state that time changes. *)
Definition due (now : Time) (v : CDb) (b : Z) (s : CircuitRow) : bool :=
  match cw_State s with
  | CircuitHalfOpen => bool_decide (is_Some (expired_probe b (cw_Revision s) (cw_Generation s) now v))
  | CircuitOpen => match cw_OpenedAt s with Some t => t + timestamptz (OpenCooldown options) <=? now | None => false end
  | CircuitClosed => false
  end.

Definition reconcilableBackendIDs (now : Time) (v : CDb) : list Z :=
  merge_sort Z.le (elements (dom (filter (fun '(b, s) => due now v b s = true) (cd_States v)))).

(** A half-open generation with an expired probe: its backend, revision and generation, and
    the probe that expired first. *)
Record ExpiredState := { xs_Backend : Z; xs_Revision : Z; xs_Generation : Z; xs_Permit : UUID; xs_ExpiresAt : Time }.

Definition expired_state (now : Time) (v : CDb) (b : Z) : option ExpiredState :=
  s ← cd_States v !! b;
  if bool_decide (cw_State s = CircuitHalfOpen) then
    '(permit, at_) ← expired_probe b (cw_Revision s) (cw_Generation s) now v;
    Some {| xs_Backend := b; xs_Revision := cw_Revision s; xs_Generation := cw_Generation s; xs_Permit := permit; xs_ExpiresAt := at_ |}
  else None.

(** [INSERT ... SELECT FROM unnest(...) ON CONFLICT DO NOTHING] *)
Fixpoint insert_failures (expired : list ExpiredState) : Tx unit :=
  match expired with
  | [] => TxRet tt
  | e :: expired =>
    insert_new (CkActive (xs_Permit e)) (fun v => bool_decide (cd_Active v !! xs_Permit e = None))
      (fun db => {| db with cd_Active := <[xs_Permit e := {| af_Backend := xs_Backend e; af_Revision := xs_Revision e; af_EventAt := xs_ExpiresAt e |}]> (cd_Active db) |});;
    insert_failures expired
  end.

(** The failures of the backends before the window of their latest. *)
Definition outdated (backends : list Z) (v : CDb) (f : ActiveRow) : bool :=
  bool_decide (af_Backend f ∈ backends) &&
  match latest_event (active_in (af_Backend f) (af_Revision f) v) with
  | Some latest => af_EventAt f <? latest - timestamptz (FailureWindow options)
  | None => false
  end.

(** [UPDATE backend_circuit_state SET state='open', ... WHERE backend_id=ANY(backends)] *)
Definition open_states (backends : list Z) : Tx unit :=
  let ids v := dom (filter (fun '(b, _) => b ∈ backends) (cd_States v)) in
  let opened v b := cw ← cd_States v !! b; latest_event (active_in b (cw_Revision cw) v) in
  TxStmt (fun v => set_map CkState (ids v)) (fun _ _ v => set_map CkState (ids v))
    (fun _ _ v db => {| db with cd_States := map_imap (fun b s => Some (if bool_decide (b ∈ ids v)
       then {| s with cw_State := CircuitOpen; cw_Generation := cw_Generation s + 1; cw_OpenedAt := opened v b; cw_Succeeded := false |} else s)) (cd_States db) |})
    (fun _ _ _ => TxRet tt).

(** The open states whose cooldown is over. *)
Definition half_open_states (ids expired : list Z) (now : Time) : Tx unit :=
  update_rows (fun v => dom (filter (fun '(b, s) => (b ∈ ids /\ b ∉ expired) /\ cw_State s = CircuitOpen /\ due now v b s = true) (cd_States v))) CkState
    (fun bs db => {| db with cd_States := map_imap (fun b s => Some (if bool_decide (b ∈ bs) then half_open_row (cw_Generation s + 1) s else s)) (cd_States db) |});;
  TxRet tt.

Definition state_present (key : CKey) (v : CDb) : bool :=
  match key with CkState b => bool_decide (is_Some (cd_States v !! b)) | _ => false end.

(** [ids] is what [reconcilableBackendIDs] read before. *)
Definition reconcileRefreshStates (ids : list Z) : Tx (Ending CAnswer) :=
  if bool_decide (length ids = 0%nat) then TxRet (RolledBack (CaDone None))
  else
    lock_rows (CkState <$> ids) state_present;;
    lock_probes (fun _ p => bool_decide (pb_Backend p ∈ ids) && is_live p);;
    now ← clock_timestamp;
    expired ← query (fun _ v => omap (expired_state now v) ids);
    let backends := xs_Backend <$> expired in
    (if bool_decide (length expired = 0%nat) then TxRet tt
     else
       terminalize (fun p => existsb (fun e => live_in (xs_Backend e) (xs_Revision e) (xs_Generation e) p) expired)
         (fun id => if bool_decide (id ∈ xs_Permit <$> expired) then ProbeExpired else ProbeSuperseded) now;;
       insert_failures expired;;
       update_rows (fun v => dom (filter (fun '(_, f) => outdated backends v f = true) (cd_Active v))) CkActive
         (fun ids db => {| db with cd_Active := filter (fun '(id, _) => id ∉ ids) (cd_Active db) |});;
       open_states backends);;
    half_open_states ids backends now;;
    TxRet (Committed (CaDone None)).

(** The snapshots of the cache. *)
Definition cached_snapshot (now : Time) (v : CDb) (b : Z) (s : CircuitRow) : CircuitSnapshot :=
  let failures := filter (fun '(_, f) => cw_State s <> CircuitClosed \/ now - timestamptz (FailureWindow options) <= af_EventAt f) (active_in b (cw_Revision s) v) in
  let probes := Z.of_nat (size (filter (fun '(_, p) => now < pb_ExpiresAt p) (probes_where (live_in b (cw_Revision s) (cw_Generation s)) v))) in
  {| cs_Backend := {| bi_ID := b; bi_Revision := cw_Revision s; bi_Enabled := false; bi_Draining := false |}; cs_State := cw_State s;
     cs_Generation := cw_Generation s; cs_FailureCount := Z.of_nat (size failures);
     cs_RetryAt := match cw_State s, cw_OpenedAt s with CircuitOpen, Some t => GoTime.Add t (OpenCooldown options) | _, _ => GoTime.zero end;
     cs_ProbesInFlight := probes;
     cs_Available := match cw_State s with
                     | CircuitClosed => true | CircuitOpen => false
                     | CircuitHalfOpen => negb (cw_Succeeded s) && (probes <? HalfOpenMaxProbes options)
                     end |}.

Definition Refresh : Tx (Ending CAnswer) :=
  cache ← query (fun now v => map_imap (fun b s => Some (cached_snapshot (timestamptz now) v b s)) (cd_States v));
  TxRet (Committed (CaSnapshots cache)).

(** ** Cleanup *)

Definition c_first (batch : nat) (ids : gset UUID) : list UUID := take batch (merge_sort N.le (elements ids)).

(** A statement that writes the rows [choose] finds at its time. *)
Definition update_rows_at (choose : Time -> CDb -> gset UUID) (key : UUID -> CKey) (write : gset UUID -> CDb -> CDb) : Tx (gset UUID) :=
  TxStmt (fun _ => ∅) (fun _ now v => set_map key (choose (timestamptz now) v)) (fun _ now v => write (choose (timestamptz now) v))
    (fun _ now v => TxRet (choose (timestamptz now) v)).

Definition delete_probes (ids : gset UUID) (db : CDb) : CDb := {| db with cd_Probes := filter (fun '(id, _) => id ∉ ids) (cd_Probes db) |}.
Definition delete_receipts (ids : gset UUID) (db : CDb) : CDb := {| db with cd_Receipts := filter (fun '(id, _) => id ∉ ids) (cd_Receipts db) |}.
Definition delete_history (ids : gset UUID) (db : CDb) : CDb := {| db with cd_History := filter (fun '(id, _) => id ∉ ids) (cd_History db) |}.

Definition retained_probe (now : Time) (p : ProbeRow) : bool :=
  is_live p || match pb_RetainUntil p with Some t => now <? t | None => true end.

Definition old_probes (batch : nat) (now : Time) (v : CDb) : gset UUID :=
  list_to_set (c_first batch (dom (filter (fun '(_, p) => retained_probe now p = false) (cd_Probes v)))).
Definition old_receipts (batch : nat) (now : Time) (v : CDb) : gset UUID :=
  list_to_set (c_first batch (dom (filter (fun '(_, r) => fr_RetainUntil r <= now) (cd_Receipts v)))).

(** [CleanupBatch] *)
Definition circuit_cleanup (batch : Z) : Tx (Ending CAnswer) :=
  let batch := Z.to_nat (if (batch <=? 0) || (1000 <? batch) then 256 else batch) in
  probes ← update_rows_at (old_probes batch) CkProbe delete_probes;
  receipts ← update_rows_at (old_receipts batch) CkReceipt (fun _ db => db);
  (if bool_decide (receipts = ∅) then TxRet tt
   else
     update_rows (fun v => receipts ∩ dom (cd_History v)) CkHistory delete_history;;
     exec (delete_receipts receipts));;
  TxRet (Committed (CaCleaned ((size probes =? batch)%nat || (size receipts =? batch)%nat))).

(** ** Backend mutations *)

Definition c_mutation (fn : Tx (option Error)) : Tx (Ending CAnswer) :=
  e ← fn;
  match e with
  | Some e => TxRet (RolledBack (CaDone (Some e)))
  | None =>
    TxStmt (fun _ => {[CkMeta]}) (fun _ _ _ => {[CkMeta]}) (fun _ _ _ db => {| db with cd_Revision := cd_Revision db + 1 |})
      (fun _ _ _ => TxRet (Committed (CaDone None)))
  end.

Record BackendParams := {
  bp_ModelPoolID : Z;
  bp_Name : string;
  bp_BaseURL : string;
  bp_Enabled : bool;
  bp_Draining : bool;
  bp_CapacityHint : float64;
  bp_RunningSoftLimit : float64;
  bp_UpstreamAPIKeyEnv : string
}.

Definition backend_of (id : Z) (p : BackendParams) (revision : Z) : Backend :=
  {| be_ID := id; be_Revision := revision; be_ModelPoolID := bp_ModelPoolID p; be_Name := bp_Name p; be_BaseURL := bp_BaseURL p; be_Enabled := bp_Enabled p;
     be_Draining := bp_Draining p; be_CapacityHint := bp_CapacityHint p; be_RunningSoftLimit := bp_RunningSoftLimit p;
     be_UpstreamAPIKeyEnv := bp_UpstreamAPIKeyEnv p; be_CreatedAt := GoTime.zero; be_UpdatedAt := GoTime.zero |}.

Definition backend_name_used (id : Z) (name : string) (v : CDb) : bool :=
  existsb (fun '(i, b) => negb (i =? id) && bool_decide (be_Name b = name)) (map_to_list (cd_Backends v)).

(** [id] is the one the database generates. *)
Definition CreateBackend (id : Z) (p : BackendParams) (at_ : Time) : Tx (Ending CAnswer) :=
  match Backend_Validate url_parse url_string (backend_of 0 p 1) with
  | inl _ => TxRet (RolledBack (CaDone (Some CErrInvalid)))
  | inr v =>
    c_mutation (
      inserted ← insert_new (CkBackend id) (fun view => bool_decide (cd_Backends view !! id = None) && negb (backend_name_used id (be_Name v) view))
        (fun db => {| db with cd_Backends := <[id := {| v with be_ID := id; be_CreatedAt := timestamptz at_; be_UpdatedAt := timestamptz at_ |}]> (cd_Backends db) |});
      if negb inserted then TxRet (Some CErrUnique)
      else
        created ← insert_new (CkState id) (fun v => bool_decide (cd_States v !! id = None))
          (fun db => {| db with cd_States := <[id := {| cw_Revision := 1; cw_State := CircuitClosed; cw_Generation := 0; cw_OpenedAt := None;
                                                       cw_Succeeded := false |}]> (cd_States db) |});
        TxRet (if (created : bool) then None else Some CErrUnique))
  end.

Definition supersedeProbes (b : Z) : Tx Time :=
  lock_probes (fun _ => live_of b);;
  now ← clock_timestamp;
  terminalize (live_of b) (fun _ => ProbeSuperseded) now;;
  TxRet now.

(** The rows of a backend whose revision ends: the state and the backend are locked, the
    probes superseded, the failures forgotten. *)
Definition supersede_backend (id : Z) : Tx (option (Backend * Time)) :=
  select_for_update (CkState id) (fun v => cd_States v !! id);;
  row ← select_for_update (CkBackend id) (fun v => cd_Backends v !! id);
  match row with
  | None => TxRet None
  | Some row =>
    now ← supersedeProbes id;
    delete_active (fun f => af_Backend f =? id);;
    TxRet (Some (row, now))
  end.

Definition set_backend (id : Z) (row : Backend) (db : CDb) : CDb := {| db with cd_Backends := <[id := row]> (cd_Backends db) |}.
Definition remove_backend (id : Z) (db : CDb) : CDb := {| db with cd_Backends := delete id (cd_Backends db) |}.

Definition UpdateBackend (id : Z) (p : BackendParams) : Tx (Ending CAnswer) :=
  match Backend_Validate url_parse url_string (backend_of id p 0) with
  | inl _ => TxRet (RolledBack (CaDone (Some CErrInvalid)))
  | inr v => c_mutation (
      superseded ← supersede_backend id;
      match superseded with
      | None => TxRet (Some CErrNoRows)
      | Some (row, now) =>
        used ← query (fun _ => backend_name_used id (be_Name v));
        if (used : bool) then TxRet (Some CErrUnique)
        else
          exec (set_backend id {| v with be_Revision := be_Revision row + 1; be_CreatedAt := be_CreatedAt row; be_UpdatedAt := now |});;
          update_state id (reset_row (be_Revision row + 1));;
          TxRet None
      end)
  end.

Definition DeleteBackend (id : Z) : Tx (Ending CAnswer) :=
  c_mutation (
    superseded ← supersede_backend id;
    match superseded with
    | None => TxRet (Some CErrNoRows)
    | Some (row, _) => update_state id (reset_row (be_Revision row + 1));; exec (remove_backend id);; TxRet None
    end).

Definition SetBackendDraining (id : Z) (draining : bool) : Tx (Ending CAnswer) :=
  c_mutation (
    superseded ← supersede_backend id;
    match superseded with
    | None => TxRet (Some CErrNoRows)
    | Some (row, now) =>
      exec (set_backend id {| row with be_Draining := draining; be_Revision := be_Revision row + 1; be_UpdatedAt := now |});;
      update_state id (reset_row (be_Revision row + 1));;
      TxRet None
    end).

(** ** The system *)

Inductive CCall :=
| CcAcquire (request : CircuitAcquireRequest)
| CcAcquireClosed (request : CircuitAcquireRequest)
| CcComplete (completion : CircuitCompletion)
| CcCompleteClosed (completion : CircuitCompletion)
| CcRenew (probes : list ProbeIdentity)
| CcReconcile (values : list BackendIdentity)
| CcRefreshStates (ids : list Z)
| CcRefresh
| CcCleanup (batch : Z)
| CcCreateBackend (id : Z) (p : BackendParams) (at_ : Time)
| CcUpdateBackend (id : Z) (p : BackendParams)
| CcDeleteBackend (id : Z)
| CcSetDraining (id : Z) (draining : bool).

Definition c_program (c : CCall) : Tx (Ending CAnswer) :=
  match c with
  | CcAcquire request => circuit_acquire request
  | CcAcquireClosed request => acquireClosed request
  | CcComplete completion => circuit_complete (canonical completion)
  | CcCompleteClosed completion => completeClosedNonFailure (canonical completion)
  | CcRenew probes => renewProbes probes
  | CcReconcile values => Reconcile values
  | CcRefreshStates ids => reconcileRefreshStates ids
  | CcRefresh => Refresh
  | CcCleanup batch => circuit_cleanup batch
  | CcCreateBackend id p at_ => CreateBackend id p at_
  | CcUpdateBackend id p => UpdateBackend id p
  | CcDeleteBackend id => DeleteBackend id
  | CcSetDraining id draining => SetBackendDraining id draining
  end.

(** The configuration mutations of other tables. *)
Inductive CChange := CMutated.

Definition c_change (_ : CChange) (_ : list CCall) (db : CDb) : option CDb := Some {| db with cd_Revision := cd_Revision db + 1 |}.

(** The backends that [Refresh] reconciles were read from the table, from which nothing is
    deleted. *)
Definition c_may_call (c : CCall) (db : CDb) : bool :=
  match c with CcRefreshStates ids => forallb (fun b => bool_decide (is_Some (cd_States db !! b))) ids | _ => true end.

End PgCircuit.
