(* ===== verification/PgCircuitSafety.v ===== *)
(** What the PostgreSQL circuit coordinator guarantees in every interleaving of its
    transactions and of the backend mutations, by any number of replicas. *)

From stdpp Require Import sorting.
From S2P Require Import Prelude Domain Float64 Coordination CircuitBreaker Validate Pg PgCircuit.

Section PgCircuitSafety.
Context {FP : Type} `{!EqDecision FP} (circuitAcquireFingerprint : CircuitAcquireRequest -> FP) (options : Options).
Context {Rest : Type} (url_parse : string -> option (URL Rest)) (url_string : URL Rest -> string).
Abbreviation CDb := (CDb (FP := FP)).
Abbreviation ProbeRow := (ProbeRow (FP := FP)).
Implicit Types (d v : CDb) (held : gset CKey) (X : gset Z) (p : ProbeRow) (b : Z).

(** ** Rows *)

(** The row of a key: what its lock protects. *)
Inductive Row := RState (s : CircuitRow) | RProbe (p : ProbeRow) | RActive (f : ActiveRow) | RReceipt (r : ReceiptRow) | RHistory (h : HistoryRow) | RBackend (b : Backend).

Definition row (k : CKey) d : option Row :=
  match k with
  | CkState b => RState <$> cd_States d !! b
  | CkProbe id => RProbe <$> cd_Probes d !! id
  | CkActive id => RActive <$> cd_Active d !! id
  | CkReceipt id => RReceipt <$> cd_Receipts d !! id
  | CkHistory id => RHistory <$> cd_History d !! id
  | CkBackend b => RBackend <$> cd_Backends d !! b
  | CkMeta => None
  end.

Lemma row_state b d s : row (CkState b) d = Some (RState s) <-> cd_States d !! b = Some s.
Proof. cbn. destruct (cd_States d !! b); cbn; naive_solver. Qed.
Lemma row_probe id d p : row (CkProbe id) d = Some (RProbe p) <-> cd_Probes d !! id = Some p.
Proof. cbn. destruct (cd_Probes d !! id); cbn; naive_solver. Qed.
Lemma row_active id d f : row (CkActive id) d = Some (RActive f) <-> cd_Active d !! id = Some f.
Proof. cbn. destruct (cd_Active d !! id); cbn; naive_solver. Qed.
Lemma row_backend b d r : row (CkBackend b) d = Some (RBackend r) <-> cd_Backends d !! b = Some r.
Proof. cbn. destruct (cd_Backends d !! b); cbn; naive_solver. Qed.

Lemma fmap_inj_eq {A B : Type} (f : A -> B) (x y : option A) : (forall a a', f a = f a' -> a = a') -> f <$> x = f <$> y -> x = y.
Proof. intros Hf. destruct x, y; cbn; naive_solver. Qed.

Lemma states_eq b d d' : row (CkState b) d' = row (CkState b) d -> cd_States d' !! b = cd_States d !! b.
Proof. apply fmap_inj_eq. by intros ?? [=]. Qed.
Lemma probes_eq id d d' : row (CkProbe id) d' = row (CkProbe id) d -> cd_Probes d' !! id = cd_Probes d !! id.
Proof. apply fmap_inj_eq. by intros ?? [=]. Qed.
Lemma active_eq id d d' : row (CkActive id) d' = row (CkActive id) d -> cd_Active d' !! id = cd_Active d !! id.
Proof. apply fmap_inj_eq. by intros ?? [=]. Qed.
Lemma backends_eq b d d' : row (CkBackend b) d' = row (CkBackend b) d -> cd_Backends d' !! b = cd_Backends d !! b.
Proof. apply fmap_inj_eq. by intros ?? [=]. Qed.

Abbreviation live b d := (probes_where (live_of b) d).

Lemma lookup_live b d id p : live b d !! id = Some p <-> cd_Probes d !! id = Some p /\ live_of b p = true.
Proof. unfold probes_where. by rewrite map_lookup_filter_Some. Qed.

Lemma live_subseteq b d d' : (forall id p, cd_Probes d' !! id = Some p -> live_of b p = true -> cd_Probes d !! id = Some p) -> live b d' ⊆ live b d.
Proof. intros Hl. apply map_subseteq_spec. intros id p. rewrite !lookup_live. intros [Hp ?]. split; [by apply Hl|done]. Qed.

Lemma lookup_active b revision d id f :
  active_in b revision d !! id = Some f <-> cd_Active d !! id = Some f /\ af_Backend f = b /\ af_Revision f = revision.
Proof. unfold active_in. by rewrite map_lookup_filter_Some. Qed.

Lemma active_subseteq b revision d d' : (forall id f, cd_Active d' !! id = Some f -> af_Backend f = b -> cd_Active d !! id = Some f) ->
  active_in b revision d' ⊆ active_in b revision d.
Proof. intros Hl. apply map_subseteq_spec. intros id f. rewrite !lookup_active. intros (Hf & ? & ?). split; [by apply Hl|done]. Qed.

(** ** Rely and guarantee *)

(** A later state of the same circuit. *)
Definition later (s s' : CircuitRow) : Prop :=
  cw_Generation s < cw_Generation s' \/
  cw_Generation s' = cw_Generation s /\ cw_State s' = cw_State s /\ cw_Revision s' = cw_Revision s /\ cw_OpenedAt s' = cw_OpenedAt s.

Lemma later_refl s : later s s.
Proof. by right. Qed.

Lemma later_trans s1 s2 s3 : later s1 s2 -> later s2 s3 -> later s1 s3.
Proof. intros [A|(A & A1 & A2 & A3)] [B|(B & B1 & B2 & B3)]; [left; lia|left; lia|left; lia|right]. split_and!; congruence. Qed.

Record c_rely (c : CCall) held d d' : Prop := {
  re_row : forall k, k ∈ held -> row k d' = row k d;
  re_live : forall b id p, CkState b ∈ held -> cd_Probes d' !! id = Some p -> live_of b p = true -> cd_Probes d !! id = Some p;
  re_probe : forall b id p, CkBackend b ∈ held -> cd_Probes d' !! id = Some p -> live_of b p = true ->
    exists p', cd_Probes d !! id = Some p' /\ live_of b p' = true;
  re_active : forall id f, CkState (af_Backend f) ∈ held -> cd_Active d' !! id = Some f -> cd_Active d !! id = Some f;
  re_backend : forall b r, CkState b ∈ held -> cd_Backends d' !! b = Some r -> exists r', cd_Backends d !! b = Some r' /\ be_Revision r' <= be_Revision r;
  re_state : forall b s, cd_States d !! b = Some s -> exists s', cd_States d' !! b = Some s' /\ later s s'
}.

(** What the rows become. *)
Definition row_guar X held (k : CKey) (o n : option Row) : Prop :=
  match k with
  | CkState b => forall s, o = Some (RState s) -> exists s', n = Some (RState s') /\ later s s'
  | CkProbe _ => forall p b, n = Some (RProbe p) -> live_of b p = true ->
      (CkState b ∈ held \/ o = n) /\ (CkBackend b ∈ held \/ exists p', o = Some (RProbe p') /\ live_of b p' = true)
  | CkActive _ => forall f, n = Some (RActive f) -> CkState (af_Backend f) ∈ held \/ o = n
  | CkBackend b => forall r, n = Some (RBackend r) -> CkState b ∈ held \/ b ∈ X \/ exists r', o = Some (RBackend r') /\ be_Revision r' <= be_Revision r
  | _ => True
  end.

Definition c_guar X held d d' : Prop := forall k, (k ∉ held -> row k d' = row k d) /\ row_guar X held k (row k d) (row k d').

Lemma row_guar_refl X held k o : row_guar X held k o o.
Proof. destruct k; cbn; try done; [eauto using later_refl| |by right|]; intros; [|right; right; naive_solver]. split; right; naive_solver. Qed.

Lemma row_guar_trans X held k o n m : row_guar X held k o n -> row_guar X held k n m -> row_guar X held k o m.
Proof.
  destruct k; cbn; try done.
  - intros A B s Hs. destruct (A s Hs) as (s' & Hs' & ?), (B s' Hs') as (s'' & ? & ?). eauto using later_trans.
  - intros A B p b Hp Hl. destruct (B p b Hp Hl) as [[?|Hb] Hc]; [split; [by left|]|rewrite <- Hb in *; by apply (A p b)].
    destruct Hc as [?|(p' & -> & Hl')]; [by left|]. by destruct (A p' b eq_refl Hl').
  - intros A B f Hf. destruct (B f Hf) as [?|Hb]; [by left|]. rewrite <- Hb in *. by apply A.
  - intros A B r Hr. destruct (B r Hr) as [?|[?|(r' & Hr' & ?)]]; [by left|by right; left|]. destruct (A r' Hr') as [?|[?|(r'' & ? & ?)]]; [by left|by right; left|].
    right; right. exists r''. split; [done|lia].
Qed.

Lemma row_guar_mono X X' held held' k o n : held ⊆ held' -> (forall b, b ∈ X -> b ∈ X' \/ CkState b ∈ held') -> row_guar X held k o n -> row_guar X' held' k o n.
Proof.
  intros Hh HX. destruct k; cbn; try done.
  - intros A p b Hp Hl. destruct (A p b Hp Hl) as [H1 H2]. split; [destruct H1; [left; set_solver|by right]|destruct H2; [left; set_solver|by right]].
  - intros A f Hf. destruct (A f Hf); [left; set_solver|by right].
  - intros A r Hr. destruct (A r Hr) as [?|[Hx|?]]; [left; set_solver| |by right; right]. destruct (HX _ Hx); [by right; left|by left].
Qed.

Lemma c_guar_refl X held d : c_guar X held d d.
Proof. intros k. split; [done|apply row_guar_refl]. Qed.

Lemma c_guar_trans X X' held held' d1 d2 d3 : held ⊆ held' -> (forall b, b ∈ X -> b ∈ X' \/ CkState b ∈ held') ->
  c_guar X held d1 d2 -> c_guar X' held' d2 d3 -> c_guar X' held' d1 d3.
Proof.
  intros Hh HX A B k. destruct (A k) as [A1 A2], (B k) as [B1 B2]. split; [intros Hk; rewrite B1, A1; [done|set_solver|done]|].
  eapply row_guar_trans; [by eapply row_guar_mono|done].
Qed.

Lemma c_guar_rely c held held' d d' : held' ## held -> c_guar ∅ held d d' -> c_rely c held' d d'.
Proof.
  intros Hd G. assert (Hno : forall k, k ∈ held' -> k ∈ held -> False) by set_solver. split.
  - intros k Hk. apply G. set_solver.
  - intros b id p Hk Hp Hl. apply row_probe in Hp. destruct (proj2 (G (CkProbe id)) p b Hp Hl) as [[?|He] _]; [by edestruct Hno|]. apply row_probe. by rewrite He.
  - intros b id p Hk Hp Hl. apply row_probe in Hp. destruct (proj2 (G (CkProbe id)) p b Hp Hl) as [_ [?|(p' & Hp' & ?)]]; [by edestruct Hno|]. exists p'. by rewrite <- row_probe.
  - intros id f Hk Hf. apply row_active in Hf. destruct (proj2 (G (CkActive id)) f Hf) as [?|He]; [by edestruct Hno|]. apply row_active. by rewrite He.
  - intros b r Hk Hr. apply row_backend in Hr. destruct (proj2 (G (CkBackend b)) r Hr) as [?|[?|(r' & Hr' & ?)]]; [by edestruct Hno|set_solver|]. exists r'. by rewrite <- row_backend.
  - intros b s Hs. apply row_state in Hs. destruct (proj2 (G (CkState b)) s Hs) as (s' & Hs' & ?). exists s'. by rewrite <- row_state.
Qed.

Lemma c_rely_refl c held d : c_rely c held d d.
Proof. split; eauto using later_refl. intros b r _ Hr. exists r. by split. Qed.

Lemma c_rely_trans c held d1 d2 d3 : c_rely c held d1 d2 -> c_rely c held d2 d3 -> c_rely c held d1 d3.
Proof.
  intros A B. split.
  - intros k Hk. by rewrite (re_row _ _ _ _ B), (re_row _ _ _ _ A).
  - intros b id p Hk Hp Hl. apply (re_live _ _ _ _ A b); [done| |done]. by apply (re_live _ _ _ _ B b).
  - intros b id p Hk Hp Hl. destruct (re_probe _ _ _ _ B b id p Hk Hp Hl) as (p' & Hp' & Hl'). by apply (re_probe _ _ _ _ A b id p').
  - intros id f Hk Hf. apply (re_active _ _ _ _ A); [done|]. by apply (re_active _ _ _ _ B).
  - intros b r Hk Hr. destruct (re_backend _ _ _ _ B b r Hk Hr) as (r' & Hr' & ?), (re_backend _ _ _ _ A b r' Hk Hr') as (r'' & ? & ?).
    exists r''. split; [done|lia].
  - intros b s Hs. destruct (re_state _ _ _ _ A b s Hs) as (s' & Hs' & ?), (re_state _ _ _ _ B b s' Hs') as (s'' & ? & ?). eauto using later_trans.
Qed.

Lemma c_rely_weaken c held held' d d' : held ⊆ held' -> c_rely c held' d d' -> c_rely c held d d'.
Proof.
  intros Hs R. split; try apply R.
  - intros k Hk. apply (re_row _ _ _ _ R). set_solver.
  - intros b id p Hk. apply (re_live _ _ _ _ R). set_solver.
  - intros b id p Hk. apply (re_probe _ _ _ _ R). set_solver.
  - intros id f Hk. apply (re_active _ _ _ _ R). set_solver.
  - intros b r Hk. apply (re_backend _ _ _ _ R). set_solver.
Qed.

(** ** The invariant *)

(** The rows of one backend.  While a transaction changes them, the bounds of the backends
    [X] can be open. *)
Record part_ok X b d : Prop := {
  po_live : forall id p, cd_Probes d !! id = Some p -> live_of b p = true -> exists s, cd_States d !! b = Some s /\ cw_State s = CircuitHalfOpen /\
    cw_Revision s = pb_Revision p /\ cw_Generation s = pb_Generation p;
  po_slots : Z.of_nat (size (live b d)) <= HalfOpenMaxProbes options;
  po_active : forall id f, cd_Active d !! id = Some f -> af_Backend f = b -> exists s, cd_States d !! b = Some s /\ af_Revision f <= cw_Revision s;
  po_closed : b ∉ X -> forall s, cd_States d !! b = Some s -> cw_State s = CircuitClosed ->
    Z.of_nat (size (active_in b (cw_Revision s) d)) < FailureThreshold options;
  po_revision : b ∉ X -> forall s r, cd_States d !! b = Some s -> cd_Backends d !! b = Some r -> cw_Revision s <= be_Revision r
}.

Definition c_inv X d : Prop := forall b, part_ok X b d.

Lemma part_ok_rely c X held b v v' : CkState b ∈ held -> c_rely c held v v' -> part_ok X b v -> part_ok X b v'.
Proof.
  intros Hk R [H1 H2 H3 H4 H5]. pose proof (states_eq _ _ _ (re_row _ _ _ _ R _ Hk)) as Hs.
  assert (Ha : forall revision, active_in b revision v' ⊆ active_in b revision v).
  { intros revision. apply active_subseteq. intros id f Hf <-. by apply (re_active _ _ _ _ R). }
  split.
  - intros id p Hp Hl. rewrite Hs. apply (H1 id); [|done]. by apply (re_live _ _ _ _ R b).
  - etransitivity; [|exact H2]. apply inj_le, map_subseteq_size, live_subseteq. intros id p. by apply (re_live _ _ _ _ R b).
  - intros id f Hf <-. rewrite Hs. apply (H3 id); [|done]. by apply (re_active _ _ _ _ R).
  - intros HX s. rewrite Hs. intros Hb Hc. pose proof (H4 HX s Hb Hc). pose proof (map_subseteq_size _ _ (Ha (cw_Revision s))). lia.
  - intros HX s r. rewrite Hs. intros Hb Hr. destruct (re_backend _ _ _ _ R b r Hk Hr) as (r' & Hr' & ?). pose proof (H5 HX s r' Hb Hr'). lia.
Qed.

(** Whoever does not hold the state of a backend keeps its rows in order. *)
Lemma part_ok_guar X held b d v : CkState b ∉ held -> c_guar X held d v -> part_ok ∅ b d -> part_ok X b v.
Proof.
  intros Hk G [H1 H2 H3 H4 H5]. pose proof (states_eq _ _ _ (proj1 (G _) Hk)) as Hs.
  assert (Hp : forall id p, cd_Probes v !! id = Some p -> live_of b p = true -> cd_Probes d !! id = Some p).
  { intros id p Hp Hl. apply row_probe in Hp. destruct (proj2 (G (CkProbe id)) p b Hp Hl) as [[?|He] _]; [done|]. apply row_probe. by rewrite He. }
  assert (Hf : forall id f, cd_Active v !! id = Some f -> af_Backend f = b -> cd_Active d !! id = Some f).
  { intros id f Hf <-. apply row_active in Hf. destruct (proj2 (G (CkActive id)) f Hf) as [?|He]; [done|]. apply row_active. by rewrite He. }
  split.
  - intros id p Hl Hb. rewrite Hs. by eapply H1; [apply Hp|].
  - etransitivity; [|exact H2]. by apply inj_le, map_subseteq_size, live_subseteq.
  - intros id f Ha Hb. rewrite Hs. by eapply H3; [apply Hf|].
  - intros HX s. rewrite Hs. intros Hb Hc. pose proof (H4 ltac:(set_solver) s Hb Hc).
    pose proof (map_subseteq_size _ _ (active_subseteq b (cw_Revision s) _ _ Hf)). lia.
  - intros HX s r. rewrite Hs. intros Hb Hr. apply row_backend in Hr. destruct (proj2 (G (CkBackend b)) r Hr) as [?|[?|(r' & Hr' & ?)]]; [done|done|].
    apply row_backend in Hr'. pose proof (H5 ltac:(set_solver) s r' Hb Hr'). lia.
Qed.

(** ** Transactions by their view *)

Section View.
Context (c : CCall).
Abbreviation rely := (c_rely c).
Abbreviation Inv := (c_inv ∅).
Abbreviation cwp := (wp c_rely Inv any_view c).

(** The writes [w] that wait for the commit: they only touch held rows. *)
Record ctx X held (w : CDb -> CDb) d : Prop := {
  cx_held : forall d', rely held d d' -> forall k, k ∈ held -> row k (w d') = row k (w d);
  cx_frame : forall d', rely held d d' -> forall k, k ∉ held -> row k (w d') = row k d';
  cx_guar : c_guar X held d (w d);
  cx_inv : c_inv X (w d);
  cx_ok : Inv d
}.

Lemma ctx_guar X held w d d' : ctx X held w d -> rely held d d' -> c_guar X held d' (w d').
Proof.
  intros C R k. split; [by apply (cx_frame _ _ _ _ C)|]. destruct (decide (k ∈ held)) as [Hk|Hk].
  - rewrite (cx_held _ _ _ _ C d' R k Hk), (re_row _ _ _ _ R k Hk). apply (cx_guar _ _ _ _ C).
  - rewrite (cx_frame _ _ _ _ C d' R k Hk). apply row_guar_refl.
Qed.

Lemma ctx_lift X held held' w d d' : ctx X held w d -> held ⊆ held' -> rely held' d d' -> rely held' (w d) (w d').
Proof.
  intros C Hh R. pose proof (c_rely_weaken _ _ _ _ _ Hh R) as R0. pose proof (cx_held _ _ _ _ C d' R0) as Hd. pose proof (cx_frame _ _ _ _ C d' R0) as Hf.
  pose proof (cx_frame _ _ _ _ C d (c_rely_refl _ _ _)) as Hf0. split.
  - intros k Hk. destruct (decide (k ∈ held)); [by apply Hd|]. rewrite Hf, Hf0 by done. by apply (re_row _ _ _ _ R).
  - intros b id p Hk Hp Hl. apply row_probe. apply row_probe in Hp. destruct (decide (CkProbe id ∈ held)); [by rewrite <- Hd|].
    rewrite Hf in Hp by done. rewrite Hf0 by done. apply row_probe. apply row_probe in Hp. by apply (re_live _ _ _ _ R b).
  - intros b id p Hk Hp Hl. setoid_rewrite <- row_probe. apply row_probe in Hp. destruct (decide (CkProbe id ∈ held)) as [Hi|Hi]; [exists p; by rewrite <- Hd|].
    rewrite Hf in Hp by done. rewrite Hf0 by done. apply row_probe in Hp. setoid_rewrite row_probe. by apply (re_probe _ _ _ _ R b id p).
  - intros id f Hk Hp. apply row_active. apply row_active in Hp. destruct (decide (CkActive id ∈ held)); [by rewrite <- Hd|].
    rewrite Hf in Hp by done. rewrite Hf0 by done. apply row_active. apply row_active in Hp. by apply (re_active _ _ _ _ R).
  - intros b r Hk Hp. setoid_rewrite <- row_backend. apply row_backend in Hp. destruct (decide (CkBackend b ∈ held)) as [Hi|Hi]; [exists r; by rewrite <- Hd|].
    rewrite Hf in Hp by done. rewrite Hf0 by done. apply row_backend in Hp. setoid_rewrite row_backend. by apply (re_backend _ _ _ _ R).
  - intros b s Hp. setoid_rewrite <- row_state. apply row_state in Hp. destruct (decide (CkState b ∈ held)) as [Hi|Hi].
    { exists s. rewrite Hd by done. eauto using later_refl. }
    rewrite Hf0 in Hp by done. rewrite Hf by done. apply row_state in Hp. setoid_rewrite row_state. by apply (re_state _ _ _ _ R).
Qed.

Lemma ctx_rely X held w d d' : ctx X held w d -> rely held d d' -> Inv d' -> ctx X held w d'.
Proof.
  intros C R I. pose proof (ctx_guar _ _ _ _ _ C R) as G. split.
  - intros d'' R' k Hk. rewrite (cx_held _ _ _ _ C d') by done. apply (cx_held _ _ _ _ C); [by eapply c_rely_trans|done].
  - intros d'' R' k Hk. apply (cx_frame _ _ _ _ C); [by eapply c_rely_trans|done].
  - done.
  - intros b. destruct (decide (CkState b ∈ held)) as [Hk|Hk].
    + eapply part_ok_rely; [done|by eapply ctx_lift|]. apply (cx_inv _ _ _ _ C).
    + by eapply part_ok_guar.
  - done.
Qed.

(** A write that looks at each row alone. *)
Definition local held (f : CDb -> CDb) : Prop :=
  (forall v1 v2 k, row k v1 = row k v2 -> row k (f v1) = row k (f v2)) /\ forall v k, k ∉ held -> row k (f v) = row k v.

Lemma ctx_write X X' held held' w d f : ctx X held w d -> held ⊆ held' -> local held' f -> (forall b, b ∈ X -> b ∈ X' \/ CkState b ∈ held') ->
  c_guar X' held' (w d) (f (w d)) -> c_inv X' (f (w d)) -> ctx X' held' (fun d => f (w d)) d.
Proof.
  intros C Hh [Hl Hf] HX G Hi. split; [| |by eapply c_guar_trans; [done|done|apply (cx_guar _ _ _ _ C)|]|done|apply (cx_ok _ _ _ _ C)].
  - intros d' R k Hk. apply Hl. pose proof (ctx_lift _ _ _ _ _ _ C Hh R) as R'. by apply (re_row _ _ _ _ R').
  - intros d' R k Hk. rewrite Hf by done. apply (cx_frame _ _ _ _ C); [by eapply c_rely_weaken|set_solver].
Qed.

(** What a statement finds: the database [d'] and the view [v'], with what the others did
    to the rows that are not held. *)
Record found X held d v d' v' : Prop := {
  fo_db : rely held d d';
  fo_view : rely held v v';
  fo_ok : Inv d';
  fo_inv : c_inv X v';
  fo_same : forall k, row k v = row k d -> row k v' = row k d';
  fo_dom : forall k, (is_Some (row k v) -> is_Some (row k d)) -> is_Some (row k v') -> is_Some (row k d')
}.

Definition Tri {A : Type} X held d v (m : Tx A) (Q : A -> gset Z -> gset CKey -> CDb -> CDb -> Prop) : Prop :=
  forall w, ctx X held w d -> w d = v -> cwp m (fun a held' w' d' => exists X', ctx X' held' w' d' /\ Q a X' held' d' (w' d')) held w d.

Lemma tri_ret {A : Type} X held d v (a : A) Q : Q a X held d v -> Tri X held d v (TxRet a) Q.
Proof. intros HQ w C <-. by exists X. Qed.

Lemma tri_bind {A B : Type} X held d v (m : Tx A) (k : A -> Tx B) Q :
  Tri X held d v m (fun a X' held' d' v' => Tri X' held' d' v' (k a) Q) -> Tri X held d v (m ≫= k) Q.
Proof.
  intros HT w C Hw. apply tx_wp_bind. eapply tx_wp_mono; [|by apply HT]. intros a held' w' d' (X' & C' & HQ). by apply HQ.
Qed.

Lemma tri_mono {A : Type} X held d v (m : Tx A) (Q Q' : A -> gset Z -> gset CKey -> CDb -> CDb -> Prop) :
  (forall a X' held' d' v', Q a X' held' d' v' -> Q' a X' held' d' v') -> Tri X held d v m Q -> Tri X held d v m Q'.
Proof. intros HQ HT w C Hw. eapply tx_wp_mono; [|by apply HT]. intros a held' w' d' (X' & C' & ?). exists X'. auto. Qed.

Lemma tri_stmt {A : Type} X held d v wait lock write (next : gset CKey -> Time -> CDb -> Tx A) Q :
  (forall busy now d' v', found X held d v d' v' -> exists X', let f := write busy now v' in let held' := held ∪ lock busy now v' in
     local held' f /\ (forall b, b ∈ X -> b ∈ X' \/ CkState b ∈ held') /\ c_guar X' held' v' (f v') /\ c_inv X' (f v') /\
     Tri X' held' d' (f v') (next busy now v') Q) ->
  Tri X held d v (TxStmt wait lock write next) Q.
Proof.
  intros HT w C Hw. apply wp_stmt. intros busy now d' R I _. subst v. pose proof (ctx_rely _ _ _ _ _ C R I) as C'.
  destruct (HT busy now d' (w d')) as (X' & Hl & HX & G & Hi & Hn).
  { split; [done|by eapply ctx_lift|done|apply (cx_inv _ _ _ _ C')| |].
    - intros k Hk. destruct (decide (k ∈ held)) as [Hh|Hh]; [|by apply (cx_frame _ _ _ _ C)]. by rewrite (cx_held _ _ _ _ C d' R k Hh), Hk, (re_row _ _ _ _ R).
    - intros k Hk. destruct (decide (k ∈ held)) as [Hh|Hh]; [|by rewrite (cx_frame _ _ _ _ C d' R k Hh)].
      by rewrite (cx_held _ _ _ _ C d' R k Hh), (re_row _ _ _ _ R k Hh). }
  apply (Hn (fun d => write busy now (w d') (w d))); [|done]. eapply ctx_write; [done|set_solver|done|done|done|done].
Qed.

Lemma local_id held : local held (fun d => d).
Proof. by split. Qed.

(** A statement that writes nothing. *)
Lemma tri_read {A : Type} X held d v wait lock (next : gset CKey -> Time -> CDb -> Tx A) Q :
  (forall busy now d' v', found X held d v d' v' -> Tri X (held ∪ lock busy now v') d' v' (next busy now v') Q) ->
  Tri X held d v (TxStmt wait lock (fun _ _ _ db => db) next) Q.
Proof.
  intros HT. apply tri_stmt. intros busy now d' v' F. exists X. split_and!; [apply local_id|set_solver|apply c_guar_refl|apply F|by apply HT].
Qed.

Lemma tri_query {A : Type} X held d v (f : Time -> CDb -> A) Q :
  (forall now d' v', found X held d v d' v' -> Q (f now v') X held d' v') -> Tri X held d v (query f) Q.
Proof. intros HQ. apply tri_read. intros busy now d' v' F. rewrite union_empty_r_L. apply tri_ret. by apply HQ. Qed.

Lemma tri_select {A : Type} X held d v key (r : CDb -> option A) Q :
  (forall d' v', found X held d v d' v' -> Q (r v') X (held ∪ match r v' with Some _ => {[key]} | None => ∅ end) d' v') ->
  Tri X held d v (select_for_update key r) Q.
Proof. intros HQ. apply tri_read. intros busy now d' v' F. apply tri_ret. by apply HQ. Qed.

Lemma found_trans X held d v d1 v1 d2 v2 : found X held d v d1 v1 -> found X held d1 v1 d2 v2 -> found X held d v d2 v2.
Proof.
  intros A B. split; [by eapply c_rely_trans; [apply A|apply B]|by eapply c_rely_trans; [apply A|apply B]|apply B|apply B| |]; intros k Hk.
  - by apply (fo_same _ _ _ _ _ _ B), (fo_same _ _ _ _ _ _ A).
  - by apply (fo_dom _ _ _ _ _ _ B), (fo_dom _ _ _ _ _ _ A).
Qed.

Lemma tri_found {A : Type} X held d v (m : Tx A) Q : (found X held d v d v -> Tri X held d v m Q) -> Tri X held d v m Q.
Proof.
  intros HT w C Hw. apply HT; [|done|done]. subst v. by split; [apply c_rely_refl|apply c_rely_refl|apply (cx_ok _ _ _ _ C)|apply (cx_inv _ _ _ _ C)| |].
Qed.

Lemma found_weaken X held held' d v d' v' : held ⊆ held' -> found X held' d v d' v' -> found X held d v d' v'.
Proof. intros Hh F. split; [by eapply c_rely_weaken; [|apply F]|by eapply c_rely_weaken; [|apply F]|apply F|apply F|apply F|apply F]. Qed.

Lemma found_state X held d v d' v' b : CkState b ∈ held -> found X held d v d' v' -> cd_States v' !! b = cd_States v !! b.
Proof. intros Hk F. apply states_eq. by apply (re_row _ _ _ _ (fo_view _ _ _ _ _ _ F)). Qed.

Lemma found_db X held d v d' v' b : CkState b ∈ held -> found X held d v d' v' -> cd_States d' !! b = cd_States d !! b.
Proof. intros Hk F. apply states_eq. by apply (re_row _ _ _ _ (fo_db _ _ _ _ _ _ F)). Qed.

Lemma found_backend X held d v d' v' b : CkBackend b ∈ held -> found X held d v d' v' -> cd_Backends v' !! b = cd_Backends v !! b.
Proof. intros Hk F. apply backends_eq. by apply (re_row _ _ _ _ (fo_view _ _ _ _ _ _ F)). Qed.

(** *** Locks *)

Lemma tri_lock_rows X held d v keys present Q :
  (forall held' d' v', held ⊆ held' -> found X held d v d' v' -> Q tt X held' d' v') -> Tri X held d v (lock_rows keys present) Q.
Proof.
  revert held d v. induction keys as [|k keys IH]; intros held d v HQ; cbn [lock_rows].
  - apply tri_found. intros F. by apply tri_ret, HQ.
  - apply tri_bind, tri_select. intros d1 v1 F1. apply IH. intros held' d' v' Hh F. apply HQ; [set_solver|].
    eapply found_trans; [done|]. eapply found_weaken; [|done]. set_solver.
Qed.

Lemma tri_lock_probes X held d v sel Q :
  (forall held' d' v', held ⊆ held' -> found X held d v d' v' -> Q tt X held' d' v') -> Tri X held d v (lock_probes sel) Q.
Proof.
  intros HQ. apply tri_bind, tri_query. intros now d1 v1 F1. apply tri_lock_rows. intros held' d' v' Hh F. apply HQ; [done|]. by eapply found_trans.
Qed.

Lemma tri_clock X held d v Q : (forall now d' v', found X held d v d' v' -> Q now X held d' v') -> Tri X held d v clock_timestamp Q.
Proof. intros HQ. apply tri_query. intros now d' v' F. by apply HQ. Qed.

(** *** Writes to one table *)

Lemma local_probes held (g : gmap UUID ProbeRow -> gmap UUID ProbeRow) : (forall m1 m2 id, m1 !! id = m2 !! id -> g m1 !! id = g m2 !! id) ->
  (forall m id, CkProbe id ∉ held -> g m !! id = m !! id) -> local held (fun v => {| v with cd_Probes := g (cd_Probes v) |}).
Proof. intros H1 H2. split; [intros v1 v2 k He|intros v k Hk]; destruct k; cbn in *; try done; f_equal; [apply H1; by eapply probes_eq|by apply H2]. Qed.

Lemma local_states held (g : gmap Z CircuitRow -> gmap Z CircuitRow) : (forall m1 m2 id, m1 !! id = m2 !! id -> g m1 !! id = g m2 !! id) ->
  (forall m id, CkState id ∉ held -> g m !! id = m !! id) -> local held (fun v => {| v with cd_States := g (cd_States v) |}).
Proof. intros H1 H2. split; [intros v1 v2 k He|intros v k Hk]; destruct k; cbn in *; try done; f_equal; [apply H1; by eapply states_eq|by apply H2]. Qed.

Lemma local_active held (g : gmap UUID ActiveRow -> gmap UUID ActiveRow) : (forall m1 m2 id, m1 !! id = m2 !! id -> g m1 !! id = g m2 !! id) ->
  (forall m id, CkActive id ∉ held -> g m !! id = m !! id) -> local held (fun v => {| v with cd_Active := g (cd_Active v) |}).
Proof. intros H1 H2. split; [intros v1 v2 k He|intros v k Hk]; destruct k; cbn in *; try done; f_equal; [apply H1; by eapply active_eq|by apply H2]. Qed.

Lemma local_backends held (g : gmap Z Backend -> gmap Z Backend) : (forall m1 m2 id, m1 !! id = m2 !! id -> g m1 !! id = g m2 !! id) ->
  (forall m id, CkBackend id ∉ held -> g m !! id = m !! id) -> local held (fun v => {| v with cd_Backends := g (cd_Backends v) |}).
Proof. intros H1 H2. split; [intros v1 v2 k He|intros v k Hk]; destruct k; cbn in *; try done; f_equal; [apply H1; by eapply backends_eq|by apply H2]. Qed.

Lemma local_receipts held (g : gmap UUID ReceiptRow -> gmap UUID ReceiptRow) : (forall m1 m2 id, m1 !! id = m2 !! id -> g m1 !! id = g m2 !! id) ->
  (forall m id, CkReceipt id ∉ held -> g m !! id = m !! id) -> local held (fun v => {| v with cd_Receipts := g (cd_Receipts v) |}).
Proof.
  intros H1 H2. split; [intros v1 v2 k He|intros v k Hk]; destruct k; cbn in *; try done; f_equal; [apply H1|by apply H2].
  revert He. apply fmap_inj_eq. by intros ?? [=].
Qed.

Lemma local_history held (g : gmap UUID HistoryRow -> gmap UUID HistoryRow) : (forall m1 m2 id, m1 !! id = m2 !! id -> g m1 !! id = g m2 !! id) ->
  (forall m id, CkHistory id ∉ held -> g m !! id = m !! id) -> local held (fun v => {| v with cd_History := g (cd_History v) |}).
Proof.
  intros H1 H2. split; [intros v1 v2 k He|intros v k Hk]; destruct k; cbn in *; try done; f_equal; [apply H1|by apply H2].
  revert He. apply fmap_inj_eq. by intros ?? [=].
Qed.

Lemma guar_probes X held v m : (forall id, CkProbe id ∉ held -> m !! id = cd_Probes v !! id) ->
  (forall id p b, m !! id = Some p -> live_of b p = true -> (CkState b ∈ held \/ cd_Probes v !! id = Some p) /\
     (CkBackend b ∈ held \/ exists p', cd_Probes v !! id = Some p' /\ live_of b p' = true)) ->
  c_guar X held v {| v with cd_Probes := m |}.
Proof.
  intros H1 H2 k. destruct k as [| id| | | | |]; try (split; [done|apply row_guar_refl]). split; [cbn; intros; f_equal; by apply H1|].
  intros p b Hp Hl. apply row_probe in Hp. destruct (H2 id p b Hp Hl) as [[?|Ha] [?|(p' & Hb & ?)]];
    (split; [try (by left); right; apply row_probe in Ha, Hp; by rewrite Ha, Hp|try (by left); right; exists p'; by rewrite row_probe]).
Qed.

Lemma guar_states X held v m : (forall b, CkState b ∉ held -> m !! b = cd_States v !! b) ->
  (forall b s, cd_States v !! b = Some s -> exists s', m !! b = Some s' /\ later s s') -> c_guar X held v {| v with cd_States := m |}.
Proof.
  intros H1 H2 k. destruct k as [b| | | | | |]; try (split; [done|apply row_guar_refl]). split; [cbn; intros; f_equal; by apply H1|].
  intros s Hs. apply row_state in Hs. destruct (H2 b s Hs) as (s' & ? & ?). exists s'. by rewrite row_state.
Qed.

Lemma guar_active X held v m : (forall id, CkActive id ∉ held -> m !! id = cd_Active v !! id) ->
  (forall id f, m !! id = Some f -> CkState (af_Backend f) ∈ held \/ cd_Active v !! id = Some f) -> c_guar X held v {| v with cd_Active := m |}.
Proof.
  intros H1 H2 k. destruct k as [| |id| | | |]; try (split; [done|apply row_guar_refl]). split; [cbn; intros; f_equal; by apply H1|].
  intros f Hf. apply row_active in Hf. destruct (H2 id f Hf) as [?|Ha]; [by left|]. right. apply row_active in Ha, Hf. by rewrite Ha, Hf.
Qed.

Lemma guar_backends X held v m : (forall b, CkBackend b ∉ held -> m !! b = cd_Backends v !! b) ->
  (forall b r, m !! b = Some r -> CkState b ∈ held \/ b ∈ X \/ exists r', cd_Backends v !! b = Some r' /\ be_Revision r' <= be_Revision r) ->
  c_guar X held v {| v with cd_Backends := m |}.
Proof.
  intros H1 H2 k. destruct k as [| | | | |b|]; try (split; [done|apply row_guar_refl]). split; [cbn; intros; f_equal; by apply H1|].
  intros r Hr. apply row_backend in Hr. destruct (H2 b r Hr) as [?|[?|(r' & Ha & ?)]]; [by left|by right; left|]. right; right. exists r'. by rewrite row_backend.
Qed.

(** Fewer live probes and fewer failures. *)
Lemma inv_shrink X v v' : cd_States v' = cd_States v -> cd_Backends v' = cd_Backends v ->
  (forall id p, cd_Probes v' !! id = Some p -> is_live p = true -> cd_Probes v !! id = Some p) ->
  (forall id f, cd_Active v' !! id = Some f -> cd_Active v !! id = Some f) -> c_inv X v -> c_inv X v'.
Proof.
  intros Hs Hb Hp Ha I b. destruct (I b) as [H1 H2 H3 H4 H5].
  assert (Hl : forall id p, cd_Probes v' !! id = Some p -> live_of b p = true -> cd_Probes v !! id = Some p).
  { intros id p Hi Hl. apply Hp; [done|]. unfold live_of in Hl. by apply andb_true_iff in Hl as [? _]. }
  split; rewrite ?Hs, ?Hb.
  - intros id p Hi Hl'. by eapply H1; [apply Hl|].
  - etransitivity; [|exact H2]. by apply inj_le, map_subseteq_size, live_subseteq.
  - intros id f Hi. by apply (H3 id), Ha.
  - intros HX s Hst Hc. pose proof (H4 HX s Hst Hc). assert (active_in b (cw_Revision s) v' ⊆ active_in b (cw_Revision s) v) as Hz%map_subseteq_size
      by (apply active_subseteq; intros ????; by apply Ha). lia.
  - exact H5.
Qed.

(** *** What an operation may change *)

(** The states of [B] and the failures of [A] may be written; other rows change as the
    others may change them, live probes only end. *)
Record moved (B A : gset Z) held d v d' v' : Prop := {
  mv_db : rely held d d';
  mv_state : forall b, b ∉ B -> CkState b ∈ held -> cd_States v' !! b = cd_States v !! b;
  mv_live : forall b id p, CkState b ∈ held -> cd_Probes v' !! id = Some p -> live_of b p = true -> cd_Probes v !! id = Some p;
  mv_probe : forall b id p, CkBackend b ∈ held -> cd_Probes v' !! id = Some p -> live_of b p = true -> exists p', cd_Probes v !! id = Some p' /\ live_of b p' = true;
  mv_active : forall id f, af_Backend f ∉ A -> CkState (af_Backend f) ∈ held -> cd_Active v' !! id = Some f -> cd_Active v !! id = Some f;
  mv_backend : forall b, CkBackend b ∈ held -> cd_Backends v' !! b = cd_Backends v !! b;
  mv_same : forall b, b ∉ B -> row (CkState b) v = row (CkState b) d -> row (CkState b) v' = row (CkState b) d';
  mv_own : forall b, row (CkBackend b) v = row (CkBackend b) d -> row (CkBackend b) v' = row (CkBackend b) d';
  mv_dom : forall id, (is_Some (row (CkProbe id) v) -> is_Some (row (CkProbe id) d)) -> is_Some (row (CkProbe id) v') -> is_Some (row (CkProbe id) d')
}.

Lemma moved_trans B A held d v d1 v1 d2 v2 : moved B A held d v d1 v1 -> moved B A held d1 v1 d2 v2 -> moved B A held d v d2 v2.
Proof.
  intros P R. split.
  - eapply c_rely_trans; [apply P|apply R].
  - intros b Hb Hk. by rewrite (mv_state _ _ _ _ _ _ _ R), (mv_state _ _ _ _ _ _ _ P).
  - intros b id p Hk Hp Hl. apply (mv_live _ _ _ _ _ _ _ P b); [done| |done]. by apply (mv_live _ _ _ _ _ _ _ R b).
  - intros b id p Hk Hp Hl. destruct (mv_probe _ _ _ _ _ _ _ R b id p Hk Hp Hl) as (p' & Hp' & Hl'). by apply (mv_probe _ _ _ _ _ _ _ P b id p').
  - intros id f Ha Hk Hf. apply (mv_active _ _ _ _ _ _ _ P); [done|done|]. by apply (mv_active _ _ _ _ _ _ _ R).
  - intros b Hk. by rewrite (mv_backend _ _ _ _ _ _ _ R), (mv_backend _ _ _ _ _ _ _ P).
  - intros b Hb Hs. by apply (mv_same _ _ _ _ _ _ _ R), (mv_same _ _ _ _ _ _ _ P).
  - intros b Hs. by apply (mv_own _ _ _ _ _ _ _ R), (mv_own _ _ _ _ _ _ _ P).
  - intros id Hs. by apply (mv_dom _ _ _ _ _ _ _ R), (mv_dom _ _ _ _ _ _ _ P).
Qed.

Lemma moved_weaken B A B' A' held held' d v d' v' : B ⊆ B' -> A ⊆ A' -> held ⊆ held' -> moved B A held' d v d' v' -> moved B' A' held d v d' v'.
Proof.
  intros HB HA Hh M. split.
  - eapply c_rely_weaken; [done|apply M].
  - intros b Hb Hk. apply (mv_state _ _ _ _ _ _ _ M); set_solver.
  - intros b id p Hk. apply (mv_live _ _ _ _ _ _ _ M). set_solver.
  - intros b id p Hk. apply (mv_probe _ _ _ _ _ _ _ M). set_solver.
  - intros id f Ha Hk. apply (mv_active _ _ _ _ _ _ _ M); set_solver.
  - intros b Hk. apply (mv_backend _ _ _ _ _ _ _ M). set_solver.
  - intros b Hb. apply (mv_same _ _ _ _ _ _ _ M). set_solver.
  - apply (mv_own _ _ _ _ _ _ _ M).
  - apply (mv_dom _ _ _ _ _ _ _ M).
Qed.

Lemma moved_step B A B' A' B0 A0 held held' d v d1 v1 d2 v2 : moved B A held d v d1 v1 -> moved B' A' held' d1 v1 d2 v2 -> held ⊆ held' ->
  B ∪ B' ⊆ B0 -> A ∪ A' ⊆ A0 -> moved B0 A0 held d v d2 v2.
Proof. intros P R Hh HB HA. eapply moved_trans; (eapply moved_weaken; [| | |eassumption]); set_solver. Qed.

Lemma found_moved X held d v d' v' : found X held d v d' v' -> moved ∅ ∅ held d v d' v'.
Proof.
  intros [Fd Fv _ _ Fs Fm]. split; [done| | | | | |by intros b _; apply Fs|by intros b; apply Fs|by intros id; apply Fm].
  - intros b _ Hk. apply states_eq. by apply (re_row _ _ _ _ Fv).
  - intros b id p. apply (re_live _ _ _ _ Fv).
  - intros b id p. apply (re_probe _ _ _ _ Fv).
  - intros id f _. apply (re_active _ _ _ _ Fv).
  - intros b Hk. apply backends_eq. by apply (re_row _ _ _ _ Fv).
Qed.

Lemma found_moved_write X held d v d' v1 B A v2 : found X held d v d' v1 -> moved B A held d' v1 d' v2 -> moved B A held d v d' v2.
Proof. intros F M. eapply moved_step; [by eapply found_moved|done|done|set_solver|set_solver]. Qed.

Lemma moved_probes held d v m : (forall id, is_Some (m !! id) -> is_Some (cd_Probes v !! id)) ->
  (forall id p b, m !! id = Some p -> live_of b p = true -> exists p', cd_Probes v !! id = Some p' /\ live_of b p' = true /\ (CkState b ∈ held -> p' = p)) ->
  moved ∅ ∅ held d v d {| v with cd_Probes := m |}.
Proof.
  intros Hn Hm. split; try done; [apply c_rely_refl| | |].
  3: { intros id Hd. cbn in *. rewrite !fmap_is_Some in *. intros ?. by apply Hd, Hn. }
  - intros b id p Hk Hp Hl. destruct (Hm id p b Hp Hl) as (p' & ? & ? & He). by rewrite <- He.
  - intros b id p Hk Hp Hl. destruct (Hm id p b Hp Hl) as (p' & ? & ? & ?). by exists p'.
Qed.

Lemma moved_active A held d v m : (forall id f, m !! id = Some f -> af_Backend f ∈ A \/ cd_Active v !! id = Some f) ->
  moved ∅ A held d v d {| v with cd_Active := m |}.
Proof. intros Hm. split; try done; [apply c_rely_refl|naive_solver|]. intros id f Ha Hk Hf. by destruct (Hm id f Hf). Qed.

Lemma moved_states B held d v m : (forall b, b ∉ B -> m !! b = cd_States v !! b) -> moved B ∅ held d v d {| v with cd_States := m |}.
Proof.
  intros Hm. split; try done; [apply c_rely_refl|by intros b Hb _; apply Hm|naive_solver|]. intros b Hb. cbn. by rewrite (Hm b Hb).
Qed.

(** *** Statements on probes *)

Lemma live_is_live b p : live_of b p = true <-> is_live p = true /\ pb_Backend p = b.
Proof. unfold live_of. rewrite andb_true_iff, Z.eqb_eq. done. Qed.

Abbreviation map_rows g ids m := (map_imap (fun id r => Some (if bool_decide (id ∈ ids) then g id r else r)) m).

Lemma lookup_map_rows {I R : Type} `{Countable I} (g : I -> R -> R) (ids : gset I) (m : gmap I R) i r :
  map_rows g ids m !! i = Some r <-> exists r0, m !! i = Some r0 /\ r = if bool_decide (i ∈ ids) then g i r0 else r0.
Proof. rewrite map_lookup_imap. destruct (m !! i); cbn; naive_solver. Qed.

Lemma map_rows_other {I R : Type} `{Countable I} (g : I -> R -> R) (ids : gset I) (m : gmap I R) i : i ∉ ids -> map_rows g ids m !! i = m !! i.
Proof. intros Hi. rewrite map_lookup_imap, bool_decide_false by done. by destruct (m !! i). Qed.

Lemma map_rows_local {I R : Type} `{Countable I} (g : I -> R -> R) (ids : gset I) (m1 m2 : gmap I R) i : m1 !! i = m2 !! i -> map_rows g ids m1 !! i = map_rows g ids m2 !! i.
Proof. intros He. by rewrite !map_lookup_imap, He. Qed.

Lemma tri_map_probes X held d v choose g Q :
  (forall d' v1, found X held d v d' v1 -> let ids := choose v1 in let v2 := {| v1 with cd_Probes := map_rows g ids (cd_Probes v1) |} in
     (forall id p b, id ∈ ids -> cd_Probes v1 !! id = Some p -> live_of b (g id p) = true -> live_of b p = true /\ CkState b ∈ held) /\
     c_inv X v2 /\ Q ids X (held ∪ set_map CkProbe ids) d' v2) ->
  Tri X held d v (update_rows choose CkProbe (fun ids db => {| db with cd_Probes := map_rows g ids (cd_Probes db) |})) Q.
Proof.
  intros HQ. apply tri_stmt. intros _ _ d' v1 F. destruct (HQ d' v1 F) as (Hg & Hi & Hq). exists X. split_and!; [| set_solver| |exact Hi|by apply tri_ret].
  - apply (local_probes _ (fun m => map_rows g (choose v1) m)); [intros *; apply map_rows_local|]. intros m id Hk. apply map_rows_other. set_solver.
  - apply guar_probes; [intros id Hk; apply map_rows_other; set_solver|]. intros id p b. rewrite lookup_map_rows. intros (p0 & Hp & ->) Hl.
    case_bool_decide as Hin; [|naive_solver]. destruct (Hg id p0 b Hin Hp Hl). split; [left; set_solver|naive_solver].
Qed.

(** Probes that end. *)
Lemma tri_end_probes X held d v choose g Q : (forall id p, is_live (g id p) = false) ->
  (forall d' v' held', held ⊆ held' -> moved ∅ ∅ held d v d' v' ->
     (exists v1, found X held d v d' v1 /\ v' = {| v1 with cd_Probes := map_rows g (choose v1) (cd_Probes v1) |}) -> Q tt X held' d' v') ->
  Tri X held d v (update_rows choose CkProbe (fun ids db => {| db with cd_Probes := map_rows g ids (cd_Probes db) |}) ≫= fun _ => TxRet tt) Q.
Proof.
  intros Hg HQ. apply tri_bind, tri_map_probes. intros d' v1 F ids v2.
  assert (Hend : forall id p, cd_Probes v2 !! id = Some p -> is_live p = true -> cd_Probes v1 !! id = Some p).
  { intros id p. cbn. rewrite lookup_map_rows. intros (p0 & Hp & ->). case_bool_decide; [by rewrite Hg|done]. }
  split_and!; [| |apply tri_ret, HQ; [set_solver| |by exists v1]].
  - intros id p b _ _ [Hl _]%live_is_live. by rewrite Hg in Hl.
  - apply (inv_shrink X v1); [done|done|exact Hend|done|apply F].
  - eapply found_moved_write; [done|]. apply moved_probes.
    { intros id [p (p0 & ? & _)%lookup_map_rows]. by exists p0. } intros id p b Hp Hl. exists p. split; [|done]. apply live_is_live in Hl as [? _]. by apply Hend.
Qed.

Lemma terminal_dead now o p : is_live (terminal now o p) = false.
Proof. done. Qed.

Lemma tri_terminalize X held d v sel outcome now Q :
  (forall d' v' held', held ⊆ held' -> moved ∅ ∅ held d v d' v' -> (forall id p, cd_Probes v' !! id = Some p -> is_live p = true -> sel p = false) -> Q tt X held' d' v') ->
  Tri X held d v (terminalize sel outcome now) Q.
Proof.
  intros HQ. apply (tri_end_probes X held d v _ (fun id => terminal now (outcome id))); [done|]. intros d' v' held' Hh M (v1 & F & ->).
  apply HQ; [done|done|]. intros id p. cbn. rewrite lookup_map_rows. intros (p0 & Hp & ->). case_bool_decide as Hin; [done|]. intros _.
  destruct (sel p0) eqn:Hs; [|done]. destruct Hin. apply elem_of_dom. exists p0. unfold probes_where. by rewrite map_lookup_filter_Some.
Qed.

(** *** Statements on failures *)

Lemma tri_delete_rows X held d v choose Q :
  (forall d' v' held', held ⊆ held' -> moved ∅ ∅ held d v d' v' ->
     (exists v1, found X held d v d' v1 /\ v' = {| v1 with cd_Active := filter (fun '(id, _) => id ∉ choose v1) (cd_Active v1) |}) -> forall ids, Q ids X held' d' v') ->
  Tri X held d v (update_rows choose CkActive (fun ids db => {| db with cd_Active := filter (fun '(id, _) => id ∉ ids) (cd_Active db) |})) Q.
Proof.
  intros HQ. apply tri_stmt. intros _ _ d' v1 F. set (ids := choose v1). set (v2 := {| v1 with cd_Active := filter (fun '(id, _) => id ∉ ids) (cd_Active v1) |}). exists X.
  assert (Hsub : forall id f, cd_Active v2 !! id = Some f -> cd_Active v1 !! id = Some f).
  { intros id f. cbn. by intros [? _]%map_lookup_filter_Some. }
  split_and!; [|set_solver| | |apply tri_ret, HQ; [set_solver| |by exists v1]].
  - apply (local_active _ (fun m => filter (fun '(id, _) => id ∉ ids) m)).
    + intros m1 m2 id He. by rewrite !map_lookup_filter, He.
    + intros m id Hk. rewrite map_lookup_filter. destruct (m !! id) as [f|]; cbn; [|done]. rewrite option_guard_True; [done|set_solver].
  - apply guar_active; [|intros id f Hf; right; by apply Hsub]. intros id Hk. cbn. rewrite map_lookup_filter.
    destruct (cd_Active v1 !! id); cbn; [|done]. rewrite option_guard_True; [done|set_solver].
  - apply (inv_shrink X v1); [done|done|done|exact Hsub|apply F].
  - eapply found_moved_write; [done|]. apply moved_active. intros id f Hf. right. by apply Hsub.
Qed.

Lemma tri_delete_active X held d v sel Q :
  (forall d' v' held', held ⊆ held' -> moved ∅ ∅ held d v d' v' -> (forall id f, cd_Active v' !! id = Some f -> sel f = false) -> Q tt X held' d' v') ->
  Tri X held d v (delete_active sel) Q.
Proof.
  intros HQ. apply tri_bind, tri_delete_rows. intros d' v' held' Hh M (v1 & F & ->) _. apply tri_ret, HQ; [done|done|]. intros id f. cbn.
  intros [Hf Hn]%map_lookup_filter_Some. destruct (sel f) eqn:Hs; [|done]. destruct Hn. apply elem_of_dom. exists f. by rewrite map_lookup_filter_Some.
Qed.

Lemma inv_insert_active X X' v b s attempt at_ : cd_States v !! b = Some s -> (cw_State s = CircuitClosed -> b ∈ X') -> X ⊆ X' -> c_inv X v ->
  c_inv X' {| v with cd_Active := <[attempt := {| af_Backend := b; af_Revision := cw_Revision s; af_EventAt := at_ |}]> (cd_Active v) |}.
Proof.
  intros Hs Hc HX I b'. destruct (I b') as [H1 H2 H3 H4 H5]. split; [done|done| | |].
  - intros id f. cbn. rewrite lookup_insert_Some. intros [[_ <-]|[_ Hf]] Hb; [|by eapply H3]. cbn in Hb. subst b'. exists s. split; [done|]. cbn. lia.
  - intros HX' s' Hs' Hc'. destruct (decide (b' = b)) as [->|Hne]; [cbn in Hs'; naive_solver|].
    pose proof (H4 ltac:(set_solver) s' Hs' Hc') as Hz. eapply Z.le_lt_trans; [|exact Hz]. apply inj_le, map_subseteq_size, active_subseteq.
    intros id f. cbn. rewrite lookup_insert_Some. intros [[_ <-]|[_ Hf]] Hb; [cbn in Hb; congruence|done].
  - intros HX'. apply H5. set_solver.
Qed.

Lemma tri_insert_active X X' held d v b s attempt at_ Q : CkState b ∈ held -> cd_States v !! b = Some s -> (cw_State s = CircuitClosed -> b ∈ X') -> X ⊆ X' ->
  (forall o d' v' held', held ⊆ held' -> moved ∅ {[b]} held d v d' v' -> Q o X' held' d' v') ->
  Tri X held d v (insert_new (CkActive attempt) (fun v => bool_decide (cd_Active v !! attempt = None))
    (fun db => {| db with cd_Active := <[attempt := {| af_Backend := b; af_Revision := cw_Revision s; af_EventAt := at_ |}]> (cd_Active db) |})) Q.
Proof.
  intros Hk Hs Hc HX HQ. apply tri_stmt. intros _ _ d' v1 F. pose proof (found_state _ _ _ _ _ _ b Hk F) as Hs1. rewrite Hs in Hs1. exists X'. case_bool_decide as Hn.
  - split_and!; [|set_solver| |by eapply inv_insert_active; [| | |apply F]|apply tri_ret, HQ; [set_solver|]].
    + apply (local_active _ (fun m => <[attempt := _]> m)); intros m.
      * intros m2 id He. destruct (decide (attempt = id)) as [->|]; [by rewrite !lookup_insert_eq|by rewrite !lookup_insert_ne].
      * intros id Hi. rewrite lookup_insert_ne; [done|set_solver].
    + apply guar_active; [intros id Hi; rewrite lookup_insert_ne; [done|set_solver]|]. intros id f. rewrite lookup_insert_Some. intros [[_ <-]|[_ ?]]; [left; set_solver|by right].
    + eapply found_moved_write; [done|]. apply moved_active. intros id f. rewrite lookup_insert_Some. intros [[_ <-]|[_ ?]]; [left; set_solver|by right].
  - split_and!; [apply local_id|set_solver|apply c_guar_refl| |apply tri_ret, HQ; [set_solver|]].
    + intros b'. destruct (fo_inv _ _ _ _ _ _ F b') as [H1 H2 H3 H4 H5]. split; [done|done|done|intros ?; apply H4; set_solver|intros ?; apply H5; set_solver].
    + eapply moved_weaken; [| | |by eapply found_moved]; set_solver.
Qed.

Lemma tri_recordActiveFailure X X' held d v b s attempt at_ Q : CkState b ∈ held -> cd_States v !! b = Some s -> (cw_State s = CircuitClosed -> b ∈ X') -> X ⊆ X' ->
  (forall o d' v' held', held ⊆ held' -> moved ∅ {[b]} held d v d' v' ->
     (forall count latest, o = Some (count, latest) -> Z.of_nat (size (active_in b (cw_Revision s) v')) <= count) -> Q o X' held' d' v') ->
  Tri X held d v (recordActiveFailure options b (cw_Revision s) attempt at_) Q.
Proof.
  intros Hk Hs Hc HX HQ. unfold recordActiveFailure. apply tri_bind. eapply tri_insert_active; [done|done|done|done|]. intros _ d1 v1 held1 Hh1 M1.
  apply tri_bind, tri_query. intros _ d2 v2 F2%found_moved. destruct (latest_event _) as [latest|].
  2: { apply tri_ret, HQ; [done| |done]. eapply moved_step; [exact M1|exact F2|done|set_solver|set_solver]. }
  apply tri_bind, tri_delete_active. intros d3 v3 held3 Hh3 M3 _. apply tri_bind, tri_query. intros _ d4 v4 F4%found_moved. apply tri_ret, HQ; [set_solver| |].
  - eapply (moved_step ∅ {[b]}); [|exact F4|set_solver|set_solver|set_solver]. eapply (moved_step ∅ {[b]}); [|exact M3|set_solver|set_solver|set_solver].
    eapply moved_step; [exact M1|exact F2|done|set_solver|set_solver].
  - intros count latest' [= <- _]. lia.
Qed.

(** *** Statements on states *)

Lemma inv_state X X' v b s' :
  (forall id p, cd_Probes v !! id = Some p -> live_of b p = true -> cw_State s' = CircuitHalfOpen /\ cw_Revision s' = pb_Revision p /\ cw_Generation s' = pb_Generation p) ->
  (forall id f, cd_Active v !! id = Some f -> af_Backend f = b -> af_Revision f <= cw_Revision s') ->
  (b ∉ X' -> cw_State s' = CircuitClosed -> Z.of_nat (size (active_in b (cw_Revision s') v)) < FailureThreshold options) ->
  (b ∉ X' -> forall r, cd_Backends v !! b = Some r -> cw_Revision s' <= be_Revision r) ->
  X ⊆ {[b]} ∪ X' -> c_inv X v -> c_inv X' {| v with cd_States := <[b := s']> (cd_States v) |}.
Proof.
  intros A1 A2 A3 A4 HX I b'. destruct (I b') as [H1 H2 H3 H4 H5]. destruct (decide (b' = b)) as [->|Hne].
  - split; cbn; rewrite ?lookup_insert_eq; [|done| | |].
    + intros id p Hp Hl. exists s'. split; [done|]. by apply (A1 id).
    + intros id f Hf Hb. exists s'. split; [done|]. by apply (A2 id).
    + intros Hb s [= <-]. by apply A3.
    + intros Hb s r [= <-]. by apply A4.
  - split; cbn; rewrite ?lookup_insert_ne by done; [done|done|done|intros; apply H4; [set_solver|done|done]|intros; apply H5; [set_solver|done|done]].
Qed.

Lemma tri_update_state X X' held d v b s f Q : CkState b ∈ held -> cd_States v !! b = Some s -> later s (f s) -> X ⊆ {[b]} ∪ X' ->
  (forall d' v1, found X held d v d' v1 -> let v' := {| v1 with cd_States := <[b := f s]> (cd_States v1) |} in
     c_inv X' v' /\ (moved {[b]} ∅ held d v d' v' -> Q tt X' held d' v')) ->
  Tri X held d v (update_state b f) Q.
Proof.
  intros Hk Hs Hl HX HQ. apply tri_stmt. intros _ _ d' v1 F. pose proof (found_state _ _ _ _ _ _ b Hk F) as Hs1. rewrite Hs in Hs1.
  rewrite Hs1, bool_decide_true by (by eexists). replace (held ∪ {[CkState b]}) with held by set_solver. destruct (HQ d' v1 F) as [Hi Hq].
  assert (He : alter f b (cd_States v1) = <[b := f s]> (cd_States v1)).
  { apply map_eq. intros b'. destruct (decide (b' = b)) as [->|]; [by rewrite lookup_alter_eq, lookup_insert_eq, Hs1|by rewrite lookup_alter_ne, lookup_insert_ne]. }
  exists X'. cbv zeta beta. rewrite He. split_and!; [| | |exact Hi|apply tri_ret, Hq].
  - apply (local_states _ (fun m => alter f b m)); intros m.
    + intros m2 id Hm. destruct (decide (b = id)) as [->|]; [by rewrite !lookup_alter_eq, Hm|by rewrite !lookup_alter_ne].
    + intros id Hi'. rewrite lookup_alter_ne; [done|set_solver].
  - intros b' Hb'. destruct (decide (b' = b)) as [->|]; [by right|left; set_solver].
  - apply guar_states; [intros b' Hb'; rewrite lookup_insert_ne; [done|set_solver]|]. intros b' s0 H0. destruct (decide (b' = b)) as [->|].
    + rewrite lookup_insert_eq. exists (f s). split; [done|]. by simplify_eq.
    + rewrite lookup_insert_ne by done. eauto using later_refl.
  - eapply found_moved_write; [done|]. apply moved_states. intros b' Hb'. rewrite lookup_insert_ne; [done|set_solver].
Qed.

(** The state of a circuit without live probes. *)
Lemma inv_idle_state X v b s' : (forall id p, cd_Probes v !! id = Some p -> live_of b p = true -> False) -> cw_State s' <> CircuitClosed ->
  (exists s, cd_States v !! b = Some s /\ cw_Revision s' = cw_Revision s) -> c_inv X v -> c_inv X {| v with cd_States := <[b := s']> (cd_States v) |}.
Proof.
  intros Hl Hc (s & Hs & Hr) I. apply (inv_state X); [naive_solver| |done| |set_solver|done].
  - intros id f Hf Hb. destruct (po_active _ _ _ (I b) id f Hf Hb) as (s0 & Hs0 & ?). rewrite Hr. by simplify_eq.
  - intros HX r Hb. rewrite Hr. by apply (po_revision _ _ _ (I b)).
Qed.

Lemma moved_then B A held held' d v d1 v1 d2 v2 : moved B A held d v d1 v1 -> moved ∅ ∅ held' d1 v1 d2 v2 -> held ⊆ held' -> moved B A held d v d2 v2.
Proof. intros P R Hh. eapply moved_step; [exact P|exact R|done|set_solver|set_solver]. Qed.

Lemma moved_found B A held held' X d v d1 v1 d2 v2 : moved B A held d v d1 v1 -> found X held' d1 v1 d2 v2 -> held ⊆ held' -> moved B A held d v d2 v2.
Proof. intros P F. eapply moved_then; [exact P|by eapply found_moved]. Qed.

Lemma found_then X held held' d v d1 v1 d2 v2 : found X held d v d1 v1 -> found X held' d1 v1 d2 v2 -> held ⊆ held' -> found X held d v d2 v2.
Proof. intros P F Hh. eapply found_trans; [exact P|]. by eapply found_weaken. Qed.

(** ** The expiry of probes *)

(** A snapshot of the state row [s]. *)
Definition matches b (s : CircuitRow) (state : CircuitSnapshot) : Prop :=
  bi_ID (cs_Backend state) = b /\ bi_Revision (cs_Backend state) = cw_Revision s /\ cs_State state = cw_State s /\ cs_Generation state = cw_Generation s.

(** When an open circuit lets a probe through. *)
Definition retry_at (s : CircuitRow) : Time :=
  let opened := default GoTime.zero (cw_OpenedAt s) in if GoTime.IsZero opened then opened else GoTime.Add opened (OpenCooldown options).

Lemma live_in_live b revision generation p : live_in b revision generation p = true <-> live_of b p = true /\ pb_Revision p = revision /\ pb_Generation p = generation.
Proof. unfold live_in. rewrite !andb_true_iff, !Z.eqb_eq. tauto. Qed.

Lemma expired_none b revision generation now v id p : expired_probe b revision generation now v = None ->
  cd_Probes v !! id = Some p -> live_in b revision generation p = true -> now < pb_ExpiresAt p.
Proof.
  unfold expired_probe. intros Hn Hp Hl. destruct (merge_sort _ _) as [|[]] eqn:Hm; [|done]. apply Z.nle_gt. intros Hle.
  assert (Hin : (id, p) ∈ merge_sort probe_before (filter (fun '(_, p) => pb_ExpiresAt p <= now) (map_to_list (probes_where (live_in b revision generation) v)))).
  { rewrite merge_sort_Permutation. apply list_elem_of_filter. split; [done|]. apply elem_of_map_to_list. unfold probes_where. by rewrite map_lookup_filter_Some. }
  rewrite Hm in Hin. by apply not_elem_of_nil in Hin.
Qed.

(** The live probes of a backend are of its generation. *)
Lemma live_current X b s v id p : c_inv X v -> cd_States v !! b = Some s -> cd_Probes v !! id = Some p -> live_of b p = true ->
  cw_State s = CircuitHalfOpen /\ live_in b (cw_Revision s) (cw_Generation s) p = true.
Proof.
  intros I Hs Hp Hl. destruct (po_live _ _ _ (I b) id p Hp Hl) as (s' & Hs' & Hh & Hr & Hg). simplify_eq. rewrite live_in_live. naive_solver.
Qed.

(** What expiry leaves: the circuit [s] as it was, or opened. *)
Definition reconciled b (s : CircuitRow) (state state' : CircuitSnapshot) v : Prop :=
  exists s', cd_States v !! b = Some s' /\ later s s' /\ matches b s' state' /\ cs_Backend state' = cs_Backend state /\
    (cw_State s' = CircuitHalfOpen -> s' = s /\ Z.of_nat (size (live b v)) <= cs_ProbesInFlight state') /\
    (cw_State s <> CircuitHalfOpen -> s' = s) /\ (cw_State s = CircuitOpen -> cs_RetryAt state' = retry_at s) /\
    (cw_State s' = CircuitClosed -> s' = s).

Lemma tri_open X held d v b s at_ Q : CkState b ∈ held -> cd_States v !! b = Some s -> b ∉ X ->
  (cw_State s = CircuitHalfOpen -> forall id p, cd_Probes v !! id = Some p -> live_of b p = true -> False) ->
  (forall d' v', moved {[b]} ∅ held d v d' v' -> cd_States v' !! b = Some (open_row (cw_Generation s + 1) at_ s) -> Q tt X held d' v') ->
  Tri X held d v (update_state b (open_row (cw_Generation s + 1) at_)) Q.
Proof.
  intros Hk Hs HX Hl HQ. eapply (tri_update_state _ X); [done|done|left; cbn; lia|set_solver|]. intros d' v1 F v'.
  pose proof (found_state _ _ _ _ _ _ b Hk F) as Hs1. rewrite Hs in Hs1. split.
  - apply inv_idle_state; [|done|by exists s|apply F]. intros id p Hp Hb. destruct (live_current _ _ _ _ _ _ (fo_inv _ _ _ _ _ _ F) Hs1 Hp Hb) as [Hh _].
    apply (Hl Hh id p); [|done]. by apply (re_live _ _ _ _ (fo_view _ _ _ _ _ _ F) b).
  - intros M. apply HQ; [done|]. cbn. by rewrite lookup_insert_eq.
Qed.

Lemma tri_reconcileExpired held d v b s state now Q : CkState b ∈ held -> cd_States v !! b = Some s -> matches b s state ->
  cs_RetryAt state = default GoTime.zero (cw_OpenedAt s) ->
  (forall o X' held' d' v', held ⊆ held' ->
     (forall state' changed, o = Some (state', changed) -> X' = ∅ /\ moved {[b]} {[b]} held d v d' v' /\ reconciled b s state state' v') -> Q o X' held' d' v') ->
  Tri ∅ held d v (reconcileExpired options state now) Q.
Proof.
  intros Hk Hs (Hb & Hr & Hst & Hg) Hret HQ. unfold reconcileExpired. cbv zeta. rewrite Hb, Hr, Hg, Hst. case_bool_decide as Hh; cbn [negb].
  2: { apply tri_found. intros F%found_moved. apply tri_ret, HQ; [done|]. intros state' changed [= <- <-]. split; [done|].
       split; [eapply moved_weaken; [| | |exact F]; set_solver|]. exists s. split_and!; [done|apply later_refl| | |done|done| |done].
       - by case_match.
       - by case_match.
       - intros Ho. rewrite Ho, bool_decide_true by done. unfold retry_at. rewrite <- Hret. cbn. by destruct (GoTime.IsZero (cs_RetryAt state)). }
  apply tri_bind, tri_query. intros _ d1 v1 F1. pose proof (found_state _ _ _ _ _ _ b Hk F1) as Hs1. rewrite Hs in Hs1.
  destruct (expired_probe _ _ _ _ v1) as [[permit expiredAt]|] eqn:He.
  - apply tri_bind, tri_terminalize. intros d2 v2 held2 Hh2 M2 Hdead. apply tri_found. intros F2.
    assert (Hs2 : cd_States v2 !! b = Some s) by (by rewrite (mv_state _ _ _ _ _ _ _ M2)).
    assert (Hnone : forall id p, cd_Probes v2 !! id = Some p -> live_of b p = true -> False).
    { intros id p Hp Hl. destruct (live_current _ _ _ _ _ _ (fo_inv _ _ _ _ _ _ F2) Hs2 Hp Hl) as [_ Hin].
      apply live_is_live in Hl as [Hl _]. by rewrite (Hdead id p Hp Hl) in Hin. }
    apply tri_bind. eapply (tri_recordActiveFailure ∅ ∅); [set_solver|done|by rewrite Hh|done|]. intros o d3 v3 held3 Hh3 M3 _.
    assert (Hs3 : cd_States v3 !! b = Some s) by (by rewrite (mv_state _ _ _ _ _ _ _ M3); [|set_solver|set_solver]).
    destruct o as [[count latest]|]; [|apply tri_ret, HQ; [set_solver|done]].
    apply tri_bind, tri_open; [set_solver|done|set_solver| |].
    { intros _ id p Hp Hl. apply (Hnone id p); [|done]. apply (mv_live _ _ _ _ _ _ _ M3 b); [set_solver|done|done]. }
    intros d4 v4 M4 Hs4. apply tri_ret, HQ; [set_solver|]. intros state' changed [= <- <-]. split; [done|]. split.
    + eapply (moved_step {[b]} {[b]}); [|exact M4|set_solver|set_solver|set_solver]. eapply (moved_step {[b]} ∅); [|exact M3|set_solver|set_solver|set_solver].
      eapply (moved_step ∅ ∅); [by eapply found_moved|exact M2|set_solver|set_solver|set_solver].
    + exists (open_row (cw_Generation s + 1) latest s). split_and!; [done|left; cbn; lia|by split_and!|done|done| |by rewrite Hh|done]. by rewrite Hh.
  - apply tri_bind, tri_query. intros _ d2 v2 F2. apply tri_ret, HQ; [done|]. intros state' changed [= <- <-]. split; [done|].
    pose proof (found_trans _ _ _ _ _ _ _ _ F1 F2) as F. split; [eapply moved_weaken; [| | |by eapply found_moved]; set_solver|].
    pose proof (found_state _ _ _ _ _ _ b Hk F2) as Hs2. rewrite Hs1 in Hs2.
    exists s. split_and!; [done|apply later_refl|by split_and!|done| |by rewrite Hh|by rewrite Hh|done]. intros _. split; [done|]. cbn. apply inj_le, map_subseteq_size, map_subseteq_spec.
    intros id p. rewrite lookup_live. intros [Hp Hl]. destruct (live_current _ _ _ _ _ _ (fo_inv _ _ _ _ _ _ F2) Hs2 Hp Hl) as [_ Hin].
    apply map_lookup_filter_Some. split; [unfold probes_where; by rewrite map_lookup_filter_Some|]. eapply expired_none; [exact He| |exact Hin].
    by apply (re_live _ _ _ _ (fo_view _ _ _ _ _ _ F2) b).
Qed.

(** ** Acquire *)

(** The backend row lets requests of the revision through. *)
Definition admits (request : CircuitAcquireRequest) (r : Backend) : Prop :=
  be_Enabled r = true /\ be_Draining r = false /\ be_Revision r = bi_Revision (ca_Backend request).

(** A request that is let through.  Closed: the circuit is, at the revision of the request.
    With a permit: a live probe of the attempt is in the table; if the permit is new, the
    circuit was half open or had been open for its cooldown, and has room. *)
Definition closed_post (request : CircuitAcquireRequest) d v : Prop :=
  let b := bi_ID (ca_Backend request) in
  exists s r, cd_States d !! b = Some s /\ cw_State s = CircuitClosed /\ cw_Revision s = bi_Revision (ca_Backend request) /\ cd_States v !! b = Some s /\
    cd_Backends d !! b = Some r /\ admits request r.

Definition probe_post (request : CircuitAcquireRequest) (permit : ProbeIdentity) d v : Prop :=
  let b := bi_ID (ca_Backend request) in
  exists s s' r p now, cd_States d !! b = Some s /\ cw_State s <> CircuitClosed /\ (cw_State s = CircuitOpen -> GoTime.Before now (retry_at s) = false) /\
    cd_Backends d !! b = Some r /\ admits request r /\
    cd_States v !! b = Some s' /\ cw_State s' = CircuitHalfOpen /\ cw_Succeeded s' = false /\
    pi_PermitID permit = ca_AttemptID request /\ pi_Generation permit = cw_Generation s' /\ pi_ExpiresAt permit = GoTime.Add now (ca_ProbeTTL request) /\
    cd_Probes v !! ca_AttemptID request = Some p /\ live_in b (cw_Revision s') (cw_Generation s') p = true /\ pb_ExpiresAt p = timestamptz (pi_ExpiresAt permit).

Definition permit_again (request : CircuitAcquireRequest) (permit : ProbeIdentity) d v : Prop :=
  is_Some (cd_Probes d !! ca_AttemptID request) /\ pi_PermitID permit = ca_AttemptID request /\
  exists p, cd_Probes v !! ca_AttemptID request = Some p /\ is_live p = true /\ pb_Fingerprint p = circuitAcquireFingerprint request /\
    pb_Generation p = pi_Generation permit /\ pb_ExpiresAt p = pi_ExpiresAt permit.

Definition acquire_post (request : CircuitAcquireRequest) (decision : CircuitDecision) d v : Prop :=
  cd_Reason decision = ReasonNone ->
  match cd_Permit decision with
  | None => closed_post request d v
  | Some permit => probe_post request permit d v \/ permit_again request permit d v
  end.

Definition commits_with (P : CAnswer -> CDb -> CDb -> Prop) (o : Ending CAnswer) X held d v : Prop :=
  match o with RolledBack _ => True | Committed a => X = ∅ /\ forall d' v', found ∅ held d v d' v' -> P a d' v' end.

Definition answer_post (a : CAnswer) d v : Prop :=
  match c, a with CcAcquire request, CaAcquired (inr decision) => acquire_post request decision d v | _, _ => True end.

Lemma tri_decide held d v decision request : c = CcAcquire request -> (forall d' v', found ∅ held d v d' v' -> acquire_post request decision d' v') ->
  Tri ∅ held d v (commitCircuitDecision decision) (commits_with answer_post).
Proof. intros Hc HP. apply tri_ret. split; [done|]. intros d' v' F. unfold answer_post. rewrite Hc. by apply HP. Qed.

Lemma inv_insert_probe v b s id p : c_inv ∅ v -> cd_States v !! b = Some s -> cw_State s = CircuitHalfOpen -> cd_Probes v !! id = None ->
  live_in b (cw_Revision s) (cw_Generation s) p = true -> Z.of_nat (size (live b v)) + 1 <= HalfOpenMaxProbes options ->
  c_inv ∅ {| v with cd_Probes := <[id := p]> (cd_Probes v) |}.
Proof.
  intros I Hs Hh Hn [Hl [Hr Hg]]%live_in_live Hz b'. destruct (I b') as [H1 H2 H3 H4 H5]. split; [| |done|done|done].
  - intros id' p'. cbn. rewrite lookup_insert_Some. intros [[<- <-]|[_ Hp]] Hl'; [|by eapply H1]. apply live_is_live in Hl as [? Hb], Hl' as [_ Hb'].
    assert (b' = b) as -> by congruence. by exists s.
  - destruct (decide (b' = b)) as [->|Hne].
    + etransitivity; [|exact Hz]. rewrite Z.add_1_r, <- Nat2Z.inj_succ. apply inj_le. unfold probes_where. cbn [cd_Probes]. rewrite map_filter_insert_True by done.
      rewrite map_size_insert. case_match; unfold Datatypes.id; lia.
    + etransitivity; [|exact H2]. apply inj_le, map_subseteq_size, live_subseteq. intros id' p'. cbn. rewrite lookup_insert_Some.
      intros [[<- <-]|[_ Hp]] Hl'; [|done]. apply live_is_live in Hl as [_ ?], Hl' as [_ ?]. congruence.
Qed.

Lemma tri_insert_probe held d v b s id p Q : CkState b ∈ held -> CkBackend b ∈ held -> cd_States v !! b = Some s -> cw_State s = CircuitHalfOpen ->
  live_in b (cw_Revision s) (cw_Generation s) p = true -> Z.of_nat (size (live b v)) + 1 <= HalfOpenMaxProbes options ->
  (forall X' held' d' v', Q false X' held' d' v') ->
  (forall d' v1, found ∅ held d v d' v1 -> Q true ∅ (held ∪ {[CkProbe id]}) d' {| v1 with cd_Probes := <[id := p]> (cd_Probes v1) |}) ->
  Tri ∅ held d v (insert_new (CkProbe id) (fun v => bool_decide (cd_Probes v !! id = None)) (fun db => {| db with cd_Probes := <[id := p]> (cd_Probes db) |})) Q.
Proof.
  intros Hk Hkb Hs Hh Hp Hz H0 H1. apply tri_stmt. intros _ _ d' v1 F. pose proof (found_state _ _ _ _ _ _ b Hk F) as Hs1. rewrite Hs in Hs1. exists ∅. case_bool_decide as Hn.
  - split_and!; [|set_solver| | |by apply tri_ret, H1].
    + apply (local_probes _ (fun m => <[id := p]> m)); intros m.
      * intros m2 i He. destruct (decide (id = i)) as [->|]; [by rewrite !lookup_insert_eq|by rewrite !lookup_insert_ne].
      * intros i Hi. rewrite lookup_insert_ne; [done|set_solver].
    + apply guar_probes; [intros i Hi; rewrite lookup_insert_ne; [done|set_solver]|]. intros i p' b'. rewrite lookup_insert_Some. intros [[_ <-]|[_ Hi]] Hl.
      * apply live_in_live in Hp as [[_ Hb]%live_is_live _]. apply live_is_live in Hl as [_ Hb']. assert (b' = b) as -> by congruence. split; left; set_solver.
      * split; right; [done|by exists p'].
    + eapply inv_insert_probe; [apply F|done|done|done|done|]. etransitivity; [|exact Hz]. apply Zplus_le_compat_r, inj_le, map_subseteq_size, live_subseteq.
      intros i p'. by apply (re_live _ _ _ _ (fo_view _ _ _ _ _ _ F) b).
  - split_and!; [apply local_id|set_solver|apply c_guar_refl|apply F|by apply tri_ret].
Qed.

(** The circuit, locked, and its backend. *)
Record locked request (s : CircuitRow) (r : Backend) held d : Prop := {
  lk_state : CkState (bi_ID (ca_Backend request)) ∈ held;
  lk_backend : CkBackend (bi_ID (ca_Backend request)) ∈ held;
  lk_s : cd_States d !! bi_ID (ca_Backend request) = Some s;
  lk_r : cd_Backends d !! bi_ID (ca_Backend request) = Some r
}.

Lemma locked_rely request s r held held' d d' : locked request s r held d -> held ⊆ held' -> rely held d d' -> locked request s r held' d'.
Proof.
  intros [H1 H2 H3 H4] Hh R. split; [set_solver|set_solver| |].
  - rewrite <- H3. apply states_eq. by apply (re_row _ _ _ _ R).
  - rewrite <- H4. apply backends_eq. by apply (re_row _ _ _ _ R).
Qed.

Lemma tri_acquire_probe request held d v s s' r state now : c = CcAcquire request -> locked request s r held d -> admits request r ->
  cw_State s <> CircuitClosed -> (cw_State s = CircuitOpen -> GoTime.Before now (retry_at s) = false) ->
  cd_States v !! bi_ID (ca_Backend request) = Some s' -> cw_State s' = CircuitHalfOpen -> cw_Revision s' = bi_Revision (ca_Backend request) ->
  cs_Generation state = cw_Generation s' -> Z.of_nat (size (live (bi_ID (ca_Backend request)) v)) <= cs_ProbesInFlight state ->
  Tri ∅ held d v (acquire_probe circuitAcquireFingerprint options request state now) (commits_with answer_post).
Proof.
  intros Hc L Had Hn Ho Hs' Hh Hr Hg Hz. unfold acquire_probe. cbv zeta. set (b := bi_ID (ca_Backend request)) in *. pose proof (lk_state _ _ _ _ _ L) as Hk.
  apply tri_bind, tri_query. intros _ d1 v1 F1. pose proof (found_state _ _ _ _ _ _ b Hk F1) as Hs1. rewrite Hs' in Hs1. rewrite Hs1.
  destruct (cw_Succeeded s' || _) eqn:Hroom; [by eapply tri_decide|]. apply orb_false_iff in Hroom as [Hsuc Hroom]. apply Z.leb_gt in Hroom.
  assert (Hz1 : Z.of_nat (size (live b v1)) <= cs_ProbesInFlight state).
  { etransitivity; [|exact Hz]. apply inj_le, map_subseteq_size, live_subseteq. intros i p'. by apply (re_live _ _ _ _ (fo_view _ _ _ _ _ _ F1) b). }
  apply tri_bind. eapply (tri_insert_probe _ _ _ b); [done|apply L|exact Hs1|done| |lia|by intros; apply tri_ret|].
  { apply live_in_live. rewrite live_is_live. cbn. rewrite Hr, Hg. done. }
  intros d2 v2 F2. cbn [negb]. eapply tri_decide; [done|]. intros d' v' F _. cbn [cd_Permit c_permitted]. left.
  assert (L' : locked request s r (held ∪ {[CkProbe (ca_AttemptID request)]}) d').
  { eapply locked_rely; [exact L|set_solver|]. eapply c_rely_trans; [apply F1|]. eapply c_rely_trans; [apply F2|]. eapply c_rely_weaken; [|apply F]. set_solver. }
  pose proof (found_state _ _ _ _ _ _ b Hk F2) as Hs2. rewrite Hs1 in Hs2.
  assert (Hk' : CkState b ∈ held ∪ {[CkProbe (ca_AttemptID request)]}) by set_solver. pose proof (found_state _ _ _ _ _ _ b Hk' F) as Hs3. cbn in Hs3. rewrite Hs2 in Hs3.
  pose proof (probes_eq _ _ _ (re_row _ _ _ _ (fo_view _ _ _ _ _ _ F) (CkProbe (ca_AttemptID request)) ltac:(set_solver))) as Hp. cbn [cd_Probes] in Hp. rewrite lookup_insert_eq in Hp.
  eexists s, s', r, _, now. split_and!; [apply L'|done|done|apply L'|done|exact Hs3|done|done|done|exact Hg|done|exact Hp| |done].
  apply live_in_live. rewrite live_is_live. cbn. rewrite Hr, Hg. done.
Qed.

Lemma live_none X b s v : c_inv X v -> cd_States v !! b = Some s -> cw_State s <> CircuitHalfOpen ->
  forall id p, cd_Probes v !! id = Some p -> live_of b p = true -> False.
Proof. intros I Hs Hn id p Hp Hl. by destruct (live_current _ _ _ _ _ _ I Hs Hp Hl). Qed.

Lemma size_live_none b v : (forall id p, cd_Probes v !! id = Some p -> live_of b p = true -> False) -> size (live b v) = 0%nat.
Proof. intros Hn. apply map_size_empty_iff, map_empty. intros id. apply eq_None_not_Some. intros [p [Hp Hl]%lookup_live]. by eapply Hn. Qed.

Lemma tri_acquire_new request held d v s r state0 state now : c = CcAcquire request -> locked request s r held d ->
  reconciled (bi_ID (ca_Backend request)) s state0 state v ->
  Tri ∅ held d v (acquire_new circuitAcquireFingerprint options request state
    {| bi_ID := bi_ID (ca_Backend request); bi_Revision := be_Revision r; bi_Enabled := be_Enabled r; bi_Draining := be_Draining r |} now) (commits_with answer_post).
Proof.
  intros Hc L (s' & Hs' & _ & (_ & Hrev & Hst & Hg) & _ & Hhalf & Hsame & Hretry & Hclosed). unfold acquire_new. cbv zeta. set (b := bi_ID (ca_Backend request)) in *.
  pose proof (lk_state _ _ _ _ _ L) as Hk.
  destruct (stale_backend _ _ _) eqn:Hstale; [by eapply tri_decide|]. unfold stale_backend in Hstale. cbn in Hstale.
  rewrite !orb_false_iff, !negb_false_iff, !Z.eqb_eq in Hstale. destruct Hstale as [[[H1 H2] H3] H4].
  assert (Had : admits request r) by (by split_and!). rewrite Hrev in H1.
  destruct (_ || _) eqn:Htime; [by eapply tri_decide|]. rewrite Hst. destruct (cw_State s') eqn:Hcs.
  - eapply tri_decide; [done|]. intros d' v' F _. cbn [cd_Permit c_permitted]. pose proof (locked_rely _ _ _ _ held _ d' L ltac:(done) (fo_db _ _ _ _ _ _ F)) as L'.
    rewrite (Hclosed eq_refl) in *. exists s, r. split_and!; [apply L'|done|congruence| |apply L'|apply Had..]. rewrite <- Hs'. by apply (found_state _ _ _ _ _ _ b Hk F).
  - destruct (GoTime.Before now (cs_RetryAt state)) eqn:Hb; [by eapply tri_decide|].
    assert (Hn : cw_State s <> CircuitClosed) by (intros Hn; rewrite Hsame in Hcs by (by rewrite Hn); congruence).
    assert (Ho : cw_State s = CircuitOpen -> GoTime.Before now (retry_at s) = false) by (intros Ho; by rewrite <- Hretry).
    apply tri_bind. rewrite Hg. eapply (tri_update_state ∅ ∅ _ _ _ b s'); [done|done|left; cbn; lia|set_solver|]. intros d1 v1 F1 v2.
    pose proof (found_state _ _ _ _ _ _ b Hk F1) as Hs1. rewrite Hs' in Hs1.
    pose proof (live_none _ _ _ _ (fo_inv _ _ _ _ _ _ F1) Hs1 ltac:(by rewrite Hcs)) as Hnone. split.
    { apply inv_idle_state; [exact Hnone|done|by exists s'|apply F1]. }
    intros M. eapply (tri_acquire_probe request _ _ _ s (half_open_row (cw_Generation s' + 1) s') r); [done| |done|done|done| |done|cbn; congruence|done|].
    + eapply locked_rely; [done|done|apply F1].
    + cbn. by rewrite lookup_insert_eq.
    + cbn [cs_ProbesInFlight]. pose proof (size_live_none b v2 Hnone) as Hz. unfold b in Hz. lia.
  - destruct (Hhalf eq_refl) as [-> Hz]. eapply (tri_acquire_probe request _ _ _ s s r); try done; [by rewrite Hcs|by rewrite Hcs|congruence].
Qed.

Lemma snapshot_found b v state : snapshot_of b v = Some state -> exists s, cd_States v !! b = Some s /\ matches b s state /\ cs_RetryAt state = default GoTime.zero (cw_OpenedAt s).
Proof. unfold snapshot_of. destruct (cd_States v !! b) as [s|]; cbn; [|done]. intros [= <-]. by exists s. Qed.

(** The first statement: the state is locked, as it is in the database. *)
Lemma tri_lockCircuitState X held d v b Q : row (CkState b) v = row (CkState b) d ->
  (forall d' v', found X held d v d' v' -> Q None X held d' v') ->
  (forall state s d' v', found X held d v d' v' -> cd_States v' !! b = Some s -> cd_States d' !! b = Some s -> matches b s state ->
     cs_RetryAt state = default GoTime.zero (cw_OpenedAt s) -> Q (Some state) X (held ∪ {[CkState b]}) d' v') ->
  Tri X held d v (lockCircuitState b) Q.
Proof.
  intros Hsame H0 H1. apply tri_select. intros d' v' F. destruct (snapshot_of b v') as [state|] eqn:Hs; [|rewrite union_empty_r_L; by apply H0].
  destruct (snapshot_found _ _ _ Hs) as (s & Hst & Hm & Hr). eapply H1; [done|exact Hst| |done|done]. rewrite <- Hst. symmetry. apply states_eq.
  by apply (fo_same _ _ _ _ _ _ F).
Qed.

Lemma tri_lockBackendIdentity X held d v b Q :
  (forall d' v', found X held d v d' v' -> Q None X held d' v') ->
  (forall r d' v', found X held d v d' v' -> cd_Backends v' !! b = Some r ->
     Q (Some {| bi_ID := b; bi_Revision := be_Revision r; bi_Enabled := be_Enabled r; bi_Draining := be_Draining r |}) X (held ∪ {[CkBackend b]}) d' v') ->
  Tri X held d v (lockBackendIdentity b) Q.
Proof.
  intros H0 H1. apply tri_select. intros d' v' F. unfold identity_row. destruct (cd_Backends v' !! b) as [r|] eqn:Hr; cbn; [by apply H1|]. rewrite union_empty_r_L. by apply H0.
Qed.

(** The count that snapshots of closed circuits show. *)
Lemma tri_failure_count X held d v (closed : bool) b revision now (n : Z) Q : (forall count d' v', found X held d v d' v' -> Q count X held d' v') ->
  Tri X held d v (if closed then currentClosedFailureCount options b revision now else TxRet n) Q.
Proof. intros HQ. destruct closed; [apply tri_query; intros; by apply HQ|]. apply tri_found. intros F. by apply tri_ret, HQ. Qed.

Lemma reconciled_found X b s state0 state count held d v d' v' : CkState b ∈ held -> found X held d v d' v' -> reconciled b s state0 state v ->
  reconciled b s state0 {| state with cs_FailureCount := count |} v'.
Proof.
  intros Hk F (s' & Hs & H1 & H2 & H3 & H4 & H5). exists s'. rewrite (found_state _ _ _ _ _ _ b Hk F). do 4 (split; [done|]). split; [|done].
  intros Hh. destruct (H4 Hh) as [-> Hz]. split; [done|]. etransitivity; [|exact Hz]. apply inj_le, map_subseteq_size, live_subseteq.
  intros id p. by apply (re_live _ _ _ _ (fo_view _ _ _ _ _ _ F) b).
Qed.

Lemma acquire_again_post request held d v state p now : CkProbe (ca_AttemptID request) ∈ held -> cd_Probes v !! ca_AttemptID request = Some p ->
  is_Some (row (CkProbe (ca_AttemptID request)) d) ->
  forall d' v', found ∅ held d v d' v' -> acquire_post request (acquire_again circuitAcquireFingerprint request state p now) d' v'.
Proof.
  intros Hk Hp Hd d' v' F. unfold acquire_again. case_bool_decide as Hf; cbn [negb]; [|done]. destruct (_ || _) eqn:Hlost; [done|]. intros _. right.
  rewrite !orb_false_iff, !negb_false_iff in Hlost. destruct Hlost as [[[Hl _] _] _]. split_and!; [|done|].
  - rewrite <- (fmap_is_Some RProbe). change (is_Some (row (CkProbe (ca_AttemptID request)) d')). by rewrite (re_row _ _ _ _ (fo_db _ _ _ _ _ _ F)).
  - exists p. split_and!; [|done..]. rewrite <- Hp. apply probes_eq. by apply (re_row _ _ _ _ (fo_view _ _ _ _ _ _ F)).
Qed.

Lemma tri_acquire request d : c = CcAcquire request -> Tri ∅ ∅ d d (circuit_acquire circuitAcquireFingerprint options request) (commits_with answer_post).
Proof.
  intros Hc. unfold circuit_acquire. cbv zeta. set (b := bi_ID (ca_Backend request)).
  apply tri_bind, tri_lockCircuitState; [done|intros; by eapply tri_decide|]. intros state0 s d1 v1 F1 Hs1 Hd1 Hm Hret.
  apply tri_bind, tri_lockBackendIdentity; [intros; by eapply tri_decide|]. intros r d2 v2 F2 Hr.
  assert (F02 : found ∅ ∅ d d d2 v2) by (eapply found_then; [exact F1|exact F2|set_solver]). assert (Hk1 : CkState b ∈ (∅ ∪ {[CkState b]} : gset CKey)) by set_solver.
  assert (L2 : locked request s r (∅ ∪ {[CkState b]} ∪ {[CkBackend b]}) d2).
  { split; [set_solver|set_solver| |].
    - fold b. rewrite <- Hd1. by apply (found_db _ _ _ _ _ _ b Hk1 F2).
    - fold b. rewrite <- Hr. symmetry. apply backends_eq. by apply (fo_same _ _ _ _ _ _ F02). }
  assert (Hs2 : cd_States v2 !! b = Some s) by (by rewrite (found_state _ _ _ _ _ _ b Hk1 F2)).
  set (held2 := ∅ ∪ {[CkState b]} ∪ {[CkBackend b]}) in *. assert (Hk2 : CkState b ∈ held2) by set_solver. clearbody held2.
  apply tri_bind, tri_lock_probes. intros held3 d3 v3 Hh3 F3. apply tri_bind, tri_clock. intros now d4 v4 F4.
  assert (F24 : found ∅ held2 d2 v2 d4 v4) by (by eapply found_then).
  apply tri_bind. eapply (tri_reconcileExpired _ _ _ b s); [set_solver|by rewrite (found_state _ _ _ _ _ _ b Hk2 F24)|exact Hm|exact Hret|].
  intros o X5 held5 d5 v5 Hh5 Ho. destruct o as [[state changed]|]; [|by apply tri_ret]. destruct (Ho _ _ eq_refl) as (-> & M5 & HR). clear Ho.
  apply tri_bind, tri_failure_count. intros count d6 v6 F6. assert (Hk5 : CkState b ∈ held5) by set_solver. apply (reconciled_found _ _ _ _ _ count _ _ _ _ _ Hk5 F6) in HR.
  apply tri_bind, tri_select. intros d7 v7 F7. pose proof (found_trans _ _ _ _ _ _ _ _ F6 F7) as F57.
  assert (L7 : locked request s r held5 d7).
  { eapply locked_rely; [|reflexivity|apply F57]. eapply locked_rely; [|exact Hh5|apply M5]. eapply locked_rely; [exact L2|exact Hh3|apply F24]. }
  destruct (cd_Probes v7 !! ca_AttemptID request) as [p|] eqn:Hp.
  - eapply tri_decide; [done|]. apply acquire_again_post; [set_solver|done|].
    assert (M : moved {[b]} {[b]} ∅ d d d7 v7).
    { eapply (moved_found _ _ _ held5); [|exact F57|set_solver]. eapply (moved_step ∅ ∅); [|exact M5|set_solver|set_solver|set_solver].
      eapply (found_moved ∅). eapply found_then; [exact F02|exact F24|set_solver]. }
    apply (mv_dom _ _ _ _ _ _ _ M); [done|]. cbn. by rewrite Hp.
  - rewrite union_empty_r_L. eapply (tri_acquire_new request _ _ _ s r); [done|done|]. exact (reconciled_found _ _ _ _ _ count _ _ _ _ _ Hk5 F7 HR).
Qed.

(** *** Receipts and history *)

Lemma inv_same X v v' : cd_States v' = cd_States v -> cd_Backends v' = cd_Backends v -> cd_Probes v' = cd_Probes v -> cd_Active v' = cd_Active v -> c_inv X v -> c_inv X v'.
Proof. intros H1 H2 H3 H4. apply inv_shrink; [done|done|by rewrite H3|by rewrite H4]. Qed.

Lemma guar_receipts X held v m : (forall id, CkReceipt id ∉ held -> m !! id = cd_Receipts v !! id) -> c_guar X held v {| v with cd_Receipts := m |}.
Proof. intros Hm k. destruct k; try (split; [done|apply row_guar_refl]). split; [|done]. cbn. intros Hk. f_equal. by apply Hm. Qed.

Lemma guar_history X held v m : (forall id, CkHistory id ∉ held -> m !! id = cd_History v !! id) -> c_guar X held v {| v with cd_History := m |}.
Proof. intros Hm k. destruct k; try (split; [done|apply row_guar_refl]). split; [|done]. cbn. intros Hk. f_equal. by apply Hm. Qed.

Lemma moved_other X held d v d' v1 v2 : found X held d v d' v1 -> cd_States v2 = cd_States v1 -> cd_Backends v2 = cd_Backends v1 -> cd_Probes v2 = cd_Probes v1 ->
  cd_Active v2 = cd_Active v1 -> moved ∅ ∅ held d v d' v2.
Proof.
  intros F H1 H2 H3 H4. eapply found_moved_write; [exact F|]. split; cbn [row]; rewrite ?H1, ?H2, ?H3, ?H4; try done; [apply c_rely_refl|naive_solver].
Qed.

Lemma insert_local {R : Type} (id : UUID) (r : R) (m1 m2 : gmap UUID R) i : m1 !! i = m2 !! i -> <[id := r]> m1 !! i = <[id := r]> m2 !! i.
Proof. intros He. destruct (decide (id = i)) as [->|]; [by rewrite !lookup_insert_eq|by rewrite !lookup_insert_ne]. Qed.

Lemma filter_local {R : Type} (ids : gset UUID) (m1 m2 : gmap UUID R) i : m1 !! i = m2 !! i ->
  filter (fun '(id, _) => id ∉ ids) m1 !! i = filter (fun '(id, _) => id ∉ ids) m2 !! i.
Proof. intros He. by rewrite !map_lookup_filter, He. Qed.

Lemma filter_other {R : Type} (ids : gset UUID) (m : gmap UUID R) i : i ∉ ids -> filter (fun '(id, _) => id ∉ ids) m !! i = m !! i.
Proof. intros Hi. rewrite map_lookup_filter. destruct (m !! i); cbn; [|done]. by rewrite option_guard_True. Qed.

Lemma tri_insert_receipt X held d v id r Q : (forall o d' v' held', held ⊆ held' -> moved ∅ ∅ held d v d' v' -> Q o X held' d' v') ->
  Tri X held d v (insert_new (CkReceipt id) (fun v => bool_decide (cd_Receipts v !! id = None)) (fun db => {| db with cd_Receipts := <[id := r]> (cd_Receipts db) |})) Q.
Proof.
  intros HQ. apply tri_stmt. intros _ _ d' v1 F. exists X. case_bool_decide.
  - split_and!; [|set_solver| |eapply inv_same; [..|apply F]; done|apply tri_ret, HQ; [set_solver|by eapply moved_other]].
    + apply (local_receipts _ (fun m => <[id := r]> m)); [intros *; apply insert_local|]. intros m i Hi. rewrite lookup_insert_ne; [done|set_solver].
    + apply guar_receipts. intros i Hi. rewrite lookup_insert_ne; [done|set_solver].
  - split_and!; [apply local_id|set_solver|apply c_guar_refl|apply F|]. apply tri_ret, HQ; [set_solver|by eapply found_moved].
Qed.

Lemma tri_insert_history X held d v id r Q : (forall o d' v' held', held ⊆ held' -> moved ∅ ∅ held d v d' v' -> Q o X held' d' v') ->
  Tri X held d v (insert_new (CkHistory id) (fun v => bool_decide (cd_History v !! id = None)) (fun db => {| db with cd_History := <[id := r]> (cd_History db) |})) Q.
Proof.
  intros HQ. apply tri_stmt. intros _ _ d' v1 F. exists X. case_bool_decide.
  - split_and!; [|set_solver| |eapply inv_same; [..|apply F]; done|apply tri_ret, HQ; [set_solver|by eapply moved_other]].
    + apply (local_history _ (fun m => <[id := r]> m)); [intros *; apply insert_local|]. intros m i Hi. rewrite lookup_insert_ne; [done|set_solver].
    + apply guar_history. intros i Hi. rewrite lookup_insert_ne; [done|set_solver].
  - split_and!; [apply local_id|set_solver|apply c_guar_refl|apply F|]. apply tri_ret, HQ; [set_solver|by eapply found_moved].
Qed.

Lemma tri_delete_history X held d v choose Q : (forall ids d' v' held', held ⊆ held' -> moved ∅ ∅ held d v d' v' -> Q ids X held' d' v') ->
  Tri X held d v (update_rows choose CkHistory delete_history) Q.
Proof.
  intros HQ. apply tri_stmt. intros _ _ d' v1 F. exists X.
  split_and!; [|set_solver| |eapply inv_same; [..|apply F]; done|apply tri_ret, HQ; [set_solver|by eapply moved_other]].
  - apply (local_history _ (fun m => filter (fun '(id, _) => id ∉ choose v1) m)); [intros *; apply filter_local|]. intros m i Hi. apply filter_other. set_solver.
  - apply guar_history. intros i Hi. apply filter_other. set_solver.
Qed.

(** ** Complete *)

(** Bounds that hold again. *)
Lemma tri_settle {A : Type} X X' held d v (m : Tx A) Q : (forall b, b ∈ X -> b ∈ X' \/ CkState b ∈ held) -> c_inv X' v -> Tri X' held d v m Q -> Tri X held d v m Q.
Proof.
  intros HX Hi HT w C <-. apply (HT w); [|done]. eapply (ctx_write X X' held held w d (fun d => d)); [done|done|apply local_id|done|apply c_guar_refl|done].
Qed.

Context (threshold_pos : 0 < FailureThreshold options) (not_acquire : forall request, c <> CcAcquire request).

Lemma tri_done held d v a : Tri ∅ held d v (TxRet (Committed a)) (commits_with answer_post).
Proof. apply tri_ret. split; [done|]. intros d' v' F. unfold answer_post. pose proof not_acquire. destruct c; try done. by destruct (not_acquire request). Qed.

Lemma tri_rolled_back X held d v a : Tri X held d v (TxRet (RolledBack a)) (commits_with answer_post).
Proof. by apply tri_ret. Qed.

Lemma active_none b revision v : (forall id f, cd_Active v !! id = Some f -> af_Backend f <> b) -> size (active_in b revision v) = 0%nat.
Proof. intros Hn. apply map_size_empty_iff, map_empty. intros id. apply eq_None_not_Some. intros [f (Hf & Hb & _)%lookup_active]. by apply (Hn id f). Qed.

(** A circuit that closes: no live probes and no failures. *)
Lemma inv_close X v b s' : (forall id p, cd_Probes v !! id = Some p -> live_of b p = true -> False) -> (forall id f, cd_Active v !! id = Some f -> af_Backend f <> b) ->
  (forall r, cd_Backends v !! b = Some r -> b ∉ X -> cw_Revision s' <= be_Revision r) -> c_inv X v -> c_inv X {| v with cd_States := <[b := s']> (cd_States v) |}.
Proof.
  intros Hl Ha Hr I. apply (inv_state X); [naive_solver|naive_solver| |eauto|set_solver|done]. intros _ _. rewrite (active_none b) by done. lia.
Qed.

Lemma tri_close_when_done held d v b s completion state : bi_ID (cc_Backend completion) = b -> CkState b ∈ held -> cd_States v !! b = Some s -> matches b s state ->
  (cw_State s = CircuitHalfOpen -> cw_Revision s = bi_Revision (cc_Backend completion) /\ cw_Generation s = cc_Generation completion) ->
  Tri ∅ held d v (close_when_done completion state) (commits_with answer_post).
Proof.
  intros Hb Hk Hs (_ & _ & Hst & Hg) Hcur. unfold close_when_done. cbv zeta. rewrite Hb. apply tri_bind, tri_query. intros _ d1 v1 F1. apply tri_bind, tri_query. intros _ d2 v2 F2.
  assert (Hs1 : cd_States v1 !! b = Some s) by (by rewrite (found_state _ _ _ _ _ _ b Hk F1)). pose proof (found_state _ _ _ _ _ _ b Hk F2) as Hs2. rewrite Hs1 in Hs2. rewrite Hs2.
  destruct (_ && _) eqn:Hdone; [|apply tri_done]. rewrite !andb_true_iff, bool_decide_eq_true, Nat.eqb_eq, Hst in Hdone. destruct Hdone as [[Hh _] Hz].
  destruct (Hcur Hh) as [Hr Hg']. rewrite <- Hr, <- Hg' in Hz. apply map_size_empty_inv in Hz.
  assert (Hnone : forall id p, cd_Probes v1 !! id = Some p -> live_of b p = true -> False).
  { intros id p Hp Hl. destruct (live_current _ _ _ _ _ _ (fo_inv _ _ _ _ _ _ F1) Hs1 Hp Hl) as [_ Hin].
    assert (Hin' : probes_where (live_in b (cw_Revision s) (cw_Generation s)) v1 !! id = Some p) by (unfold probes_where; by rewrite map_lookup_filter_Some).
    by rewrite Hz, lookup_empty in Hin'. }
  apply tri_bind, tri_delete_active. intros d3 v3 held3 Hh3 M3 Ha3. rewrite Hg.
  assert (M13 : moved ∅ ∅ held d1 v1 d3 v3) by (eapply moved_then; [by eapply found_moved|exact M3|done]).
  assert (Hs3 : cd_States v3 !! b = Some s) by (by rewrite (mv_state _ _ _ _ _ _ _ M13)).
  apply tri_bind. eapply (tri_update_state ∅ ∅ _ _ _ b s); [set_solver|done|left; cbn; lia|set_solver|]. intros d4 v4 F4 v5. assert (Hk3 : CkState b ∈ held3) by set_solver.
  pose proof (found_state _ _ _ _ _ _ b Hk3 F4) as Hs4. rewrite Hs3 in Hs4. split; [|intros _; apply tri_done]. apply inv_close; [| | |apply F4].
  - intros id p Hp Hl. apply (Hnone id p); [|done]. apply (mv_live _ _ _ _ _ _ _ M13 b); [done| |done]. by apply (re_live _ _ _ _ (fo_view _ _ _ _ _ _ F4) b).
  - intros id f Hf Hfb. apply (re_active _ _ _ _ (fo_view _ _ _ _ _ _ F4)) in Hf; [|by rewrite Hfb]. apply Ha3 in Hf. apply Z.eqb_neq in Hf. done.
  - intros r Hb' HX. exact (po_revision _ _ _ (fo_inv _ _ _ _ _ _ F4 b) HX s r Hs4 Hb').
Qed.

(** The report of a probe: its row ends. *)
Lemma tri_report X held d v id (f : ProbeRow -> ProbeRow) Q : (forall p, is_live (f p) = false) -> CkProbe id ∈ held ->
  (forall d' v', moved ∅ ∅ held d v d' v' -> (forall p, cd_Probes v' !! id = Some p -> is_live p = false) -> Q tt X held d' v') ->
  Tri X held d v (update_found (CkProbe id) (fun v => bool_decide (is_Some (cd_Probes v !! id))) (fun db => {| db with cd_Probes := alter f id (cd_Probes db) |})) Q.
Proof.
  intros Hf Hk HQ. apply tri_stmt. intros _ _ d' v1 F. exists X. case_bool_decide as Hp.
  2: { rewrite union_empty_r_L. split_and!; [apply local_id|set_solver|apply c_guar_refl|apply F|]. apply tri_ret, HQ; [by eapply found_moved|].
       intros p Hp'. destruct Hp. by exists p. }
  replace (held ∪ {[CkProbe id]}) with held by set_solver.
  assert (Hend : forall i p, alter f id (cd_Probes v1) !! i = Some p -> is_live p = true -> cd_Probes v1 !! i = Some p).
  { intros i p. rewrite lookup_alter_Some. intros [(-> & p0 & ? & ->)|[_ ?]]; [by rewrite Hf|done]. }
  split_and!; [|set_solver| | |apply tri_ret, HQ].
  - apply (local_probes _ (fun m => alter f id m)); intros m.
    + intros m2 i He. destruct (decide (id = i)) as [->|]; [by rewrite !lookup_alter_eq, He|by rewrite !lookup_alter_ne].
    + intros i Hi. rewrite lookup_alter_ne; [done|set_solver].
  - apply guar_probes; [intros i Hi; rewrite lookup_alter_ne; [done|set_solver]|]. intros i p b Hi Hl. pose proof Hl as [Hl' _]%live_is_live.
    split; right; [by apply Hend|]. exists p. split; [by apply Hend|done].
  - eapply (inv_shrink X v1); [done|done|exact Hend|done|apply F].
  - eapply found_moved_write; [done|]. apply moved_probes.
    + intros i [p [(-> & p0 & ? & _)|[_ ?]]%lookup_alter_Some]; [by exists p0|by exists p].
    + intros i p b Hi Hl. exists p. split; [|done]. apply Hend; [done|]. by apply live_is_live in Hl as [? _].
  - intros p. cbn. rewrite lookup_alter_eq. destruct (cd_Probes v1 !! id) as [p0|]; cbn; [|done]. intros [= <-]. apply Hf.
Qed.

Lemma tri_terminalizeGeneration X held d v b generation id now Q :
  (forall d' v' held', held ⊆ held' -> moved ∅ ∅ held d v d' v' ->
     (forall i p, cd_Probes v' !! i = Some p -> is_live p = true -> i = id \/ other_probe b generation p = false) -> Q tt X held' d' v') ->
  Tri X held d v (terminalizeGeneration b generation id now) Q.
Proof.
  intros HQ. apply (tri_end_probes X held d v _ (fun _ => terminal now ProbeSuperseded)); [done|]. intros d' v' held' Hh M (v1 & F & ->).
  apply HQ; [done|done|]. intros i p. cbn. rewrite lookup_map_rows. intros (p0 & Hp & ->). case_bool_decide as Hin; [done|]. intros _.
  destruct (decide (i = id)) as [->|Hne]; [by left|]. right. destruct (other_probe b generation p0) eqn:Hs; [|done]. destruct Hin.
  apply elem_of_difference. split; [|set_solver]. apply elem_of_dom. exists p0. unfold probes_where. by rewrite map_lookup_filter_Some.
Qed.

Lemma tri_complete_probe held d v b s completion state p now : bi_ID (cc_Backend completion) = b -> CkState b ∈ held -> CkProbe (cc_AttemptID completion) ∈ held ->
  cd_States v !! b = Some s -> matches b s state -> Tri ∅ held d v (complete_probe options completion state p now) (commits_with answer_post).
Proof.
  intros Hb Hk Hkp Hs Hm. pose proof Hm as (Hid & Hrev & Hst & Hg). unfold complete_probe. cbv zeta.
  destruct (_ || _); [apply tri_rolled_back|]. destruct (pb_Outcome p). { case_match; [apply tri_rolled_back|apply tri_done]. }
  destruct (validCircuitOperationTime _ _); cbn [negb]; [|apply tri_rolled_back].
  apply tri_bind, tri_report; [done|done|]. intros d1 v1 M1 Hdead1.
  assert (Hs1 : cd_States v1 !! b = Some s) by (by rewrite (mv_state _ _ _ _ _ _ _ M1)).
  destruct (_ || _) eqn:Hcur; [apply tri_done|]. rewrite !orb_false_iff, !negb_false_iff, !Z.eqb_eq, bool_decide_eq_true in Hcur. destruct Hcur as [[Hcg Hcr] Hch].
  rewrite Hg in Hcg. rewrite Hrev in Hcr. rewrite Hst in Hch. destruct (cc_Outcome completion).
  - rewrite Hb. apply tri_bind. eapply (tri_update_state ∅ ∅ _ _ _ b s); [done|done|by right|set_solver|]. intros d2 v2 F2 v3. pose proof (found_state _ _ _ _ _ _ b Hk F2) as Hs2. rewrite Hs1 in Hs2.
    split.
    + apply (inv_state ∅); [| |cbn; by rewrite Hch| |set_solver|apply F2].
      * intros i p' Hp' Hl. destruct (live_current _ _ _ _ _ _ (fo_inv _ _ _ _ _ _ F2) Hs2 Hp' Hl) as [_ (_ & ? & ?)%live_in_live]. done.
      * intros i f Hf Hfb. destruct (po_active _ _ _ (fo_inv _ _ _ _ _ _ F2 b) i f Hf Hfb) as (s0 & ? & ?). cbn. by simplify_eq.
      * intros HX r Hr. exact (po_revision _ _ _ (fo_inv _ _ _ _ _ _ F2 b) HX s r Hs2 Hr).
    + intros M3. eapply tri_close_when_done; [done|done|cbn; by rewrite lookup_insert_eq|by split_and!|done].
  - rewrite Hb. apply tri_bind, tri_terminalizeGeneration. intros d2 v2 held2 Hh2 M2 Hdead2. apply tri_found. intros F2.
    assert (Hs2 : cd_States v2 !! b = Some s) by (by rewrite (mv_state _ _ _ _ _ _ _ M2)).
    assert (Hnone : forall id p, cd_Probes v2 !! id = Some p -> live_of b p = true -> False).
    { intros i p' Hp' Hl. destruct (live_current _ _ _ _ _ _ (fo_inv _ _ _ _ _ _ F2) Hs2 Hp' Hl) as [_ (_ & _ & Hgen)%live_in_live].
      pose proof Hl as [Hl' _]%live_is_live. destruct (Hdead2 i p' Hp' Hl') as [->|Ho].
      - apply (mv_live _ _ _ _ _ _ _ M2 b) in Hp'; [|done|done]. by rewrite (Hdead1 p' Hp') in Hl'.
      - unfold other_probe in Ho. rewrite Hl, Hgen, Hcg, Z.eqb_refl in Ho. done. }
    rewrite Hrev. apply tri_bind. eapply (tri_recordActiveFailure ∅ ∅); [set_solver|done|by rewrite Hch|done|]. intros o d3 v3 held3 Hh3 M3 _.
    assert (Hs3 : cd_States v3 !! b = Some s) by (by rewrite (mv_state _ _ _ _ _ _ _ M3); [|set_solver|set_solver]).
    destruct o as [[count latest]|]; [|apply tri_rolled_back]. rewrite Hg. apply tri_bind, tri_open; [set_solver|done|set_solver| |].
    { intros _ i p' Hp' Hl. apply (Hnone i p'); [|done]. apply (mv_live _ _ _ _ _ _ _ M3 b); [set_solver|done|done]. }
    intros d4 v4 M4 Hs4. eapply tri_close_when_done; [done|set_solver|exact Hs4| |done]. by split_and!.
  - eapply tri_close_when_done; [done|done|exact Hs1|done|done].
Qed.

(** The revision of a state, by the database. *)
Lemma revision_ok d v b s r : Inv d -> cd_States d !! b = Some s -> row (CkBackend b) v = row (CkBackend b) d -> cd_Backends v !! b = Some r -> cw_Revision s <= be_Revision r.
Proof. intros I Hs Hb Hr. apply backends_eq in Hb. apply (po_revision _ _ _ (I b)); [set_solver|done|congruence]. Qed.

Lemma tri_complete_failure held d v b s completion state now : bi_ID (cc_Backend completion) = b -> CkState b ∈ held -> cd_States v !! b = Some s -> matches b s state ->
  (cw_State s = CircuitClosed -> cd_States d !! b = Some s) -> row (CkBackend b) v = row (CkBackend b) d ->
  Tri ∅ held d v (complete_failure options completion state now) (commits_with answer_post).
Proof.
  intros Hb Hk Hs Hm Hd Hown. pose proof Hm as (Hid & Hrev & Hst & Hg). unfold complete_failure. cbv zeta. rewrite Hb.
  apply tri_bind, tri_select. intros d1 v1 F1. destruct (cd_Receipts v1 !! _) as [old|]. { case_match; [apply tri_rolled_back|apply tri_done]. }
  rewrite union_empty_r_L. destruct (validCircuitOperationTime _ _); cbn [negb]; [|apply tri_rolled_back].
  apply tri_bind, tri_insert_receipt. intros inserted d2 v2 held2 Hh2 M2. destruct inserted; cbn [negb]; [|apply tri_rolled_back].
  destruct (_ && _) eqn:Happlied; cbn [negb]; [|apply tri_done]. rewrite !andb_true_iff, bool_decide_eq_true, Hst in Happlied. destruct Happlied as [[[Hc _] _] _].
  apply tri_bind, tri_insert_history. intros recorded d3 v3 held3 Hh3 M3. destruct recorded; cbn [negb]; [|apply tri_rolled_back].
  assert (M03 : moved ∅ ∅ held d v d3 v3).
  { eapply moved_then; [|exact M3|done]. eapply moved_then; [by eapply found_moved|exact M2|done]. }
  assert (Hs3 : cd_States v3 !! b = Some s) by (by rewrite (mv_state _ _ _ _ _ _ _ M03)).
  rewrite Hrev. apply tri_bind. eapply (tri_recordActiveFailure ∅ {[b]}); [set_solver|done|set_solver|set_solver|]. intros o d4 v4 held4 Hh4 M4 Hcount.
  destruct o as [[count latest]|]; [|apply tri_rolled_back]. specialize (Hcount count latest eq_refl).
  apply tri_bind, tri_delete_history. intros ids d5 v5 held5 Hh5 M5.
  assert (M05 : moved ∅ {[b]} held d v d5 v5).
  { eapply (moved_then ∅ {[b]}); [|exact M5|set_solver]. eapply (moved_step ∅ ∅); [exact M03|exact M4|set_solver|set_solver|set_solver]. }
  assert (Hs5 : cd_States v5 !! b = Some s) by (rewrite (mv_state _ _ _ _ _ _ _ M05); [done|set_solver|done]).
  assert (Hd5 : cd_States d5 !! b = Some s) by (rewrite <- (Hd Hc); apply states_eq; by apply (re_row _ _ _ _ (mv_db _ _ _ _ _ _ _ M05))).
  pose proof (mv_own _ _ _ _ _ _ _ M05 b Hown) as Hown5. assert (Hk5 : CkState b ∈ held5) by set_solver.
  destruct (count <? FailureThreshold options) eqn:Hlt.
  - apply tri_found. intros F6. eapply (tri_settle {[b]} ∅); [set_solver| |apply tri_done]. intros b'. destruct (fo_inv _ _ _ _ _ _ F6 b') as [H1 H2 H3 H4 H5]. split; [done|done|done| |].
    + intros _ s' Hs' Hc'. destruct (decide (b' = b)) as [->|]; [|by apply H4; [set_solver|..]]. simplify_eq. apply Z.ltb_lt in Hlt. eapply Z.le_lt_trans; [|exact Hlt].
      etransitivity; [|exact Hcount]. apply inj_le, map_subseteq_size, active_subseteq. intros id f Hf Hfb. apply (mv_active _ _ _ _ _ _ _ M5) in Hf; [done|set_solver|].
      rewrite Hfb. set_solver.
    + intros _ s' r Hs' Hr. destruct (decide (b' = b)) as [->|]; [|by apply H5; [set_solver|..]]. simplify_eq. eapply revision_ok; [apply F6|done|done|done].
  - rewrite Hg. apply tri_bind. eapply (tri_update_state {[b]} ∅ _ _ _ b s); [done|done|left; cbn; lia|set_solver|]. intros d6 v6 F6 v7.
    pose proof (found_state _ _ _ _ _ _ b Hk5 F6) as Hs6. rewrite Hs5 in Hs6. split; [|intros _; apply tri_done]. apply (inv_state {[b]}); [| |done| |set_solver|apply F6].
    + intros id p Hp Hl. destruct (live_current _ _ _ _ _ _ (fo_inv _ _ _ _ _ _ F6) Hs6 Hp Hl) as [Hh _]. congruence.
    + intros id f Hf Hfb. destruct (po_active _ _ _ (fo_inv _ _ _ _ _ _ F6 b) id f Hf Hfb) as (s0 & ? & ?). cbn. by simplify_eq.
    + intros _ r Hr. cbn. eapply (revision_ok d6 v6 b s); [apply F6| |by apply (fo_same _ _ _ _ _ _ F6)|done].
      by rewrite (found_db _ _ _ _ _ _ b Hk5 F6).
Qed.

Lemma tri_complete completion d : Tri ∅ ∅ d d (circuit_complete options completion) (commits_with answer_post).
Proof.
  unfold circuit_complete. cbv zeta. set (b := bi_ID (cc_Backend completion)).
  apply tri_bind, tri_lockCircuitState; [done|intros; apply tri_rolled_back|]. intros state0 s d1 v1 F1 Hs1 Hd1 Hm Hret. rewrite union_empty_l_L.
  assert (Hk1 : CkState b ∈ ({[CkState b]} : gset CKey)) by set_solver.
  apply tri_bind, tri_lock_probes. intros held2 d2 v2 Hh2 F2. apply tri_bind, tri_clock. intros now d3 v3 F3.
  assert (F13 : found ∅ {[CkState b]} d1 v1 d3 v3) by (by eapply found_then).
  apply tri_bind. eapply (tri_reconcileExpired _ _ _ b s); [set_solver|by rewrite (found_state _ _ _ _ _ _ b Hk1 F13)|exact Hm|exact Hret|].
  intros o X4 held4 d4 v4 Hh4 Ho. destruct o as [[state changed]|]; [|apply tri_rolled_back]. destruct (Ho _ _ eq_refl) as (-> & M4 & HR). clear Ho.
  apply tri_bind, tri_failure_count. intros count d5 v5 F5. assert (Hk4 : CkState b ∈ held4) by set_solver. apply (reconciled_found _ _ _ _ _ count _ _ _ _ _ Hk4 F5) in HR.
  apply tri_bind, tri_select. intros d6 v6 F6. apply (reconciled_found _ _ _ _ _ count _ _ _ _ _ Hk4 F6) in HR. cbn [cs_FailureCount] in HR.
  destruct HR as (s' & Hs' & _ & Hm' & _ & _ & _ & _ & Hclosed). destruct (cd_Probes v6 !! cc_AttemptID completion) as [p|] eqn:Hp.
  - eapply (tri_complete_probe _ _ _ b s'); [done|set_solver|set_solver|exact Hs'|exact Hm'].
  - rewrite union_empty_r_L. case_match; [case_match; [apply tri_rolled_back|apply tri_done]|].
    assert (M46 : moved {[b]} {[b]} {[CkState b]} d1 v1 d6 v6).
    { eapply (moved_found _ _ _ held4); [|exact F6|set_solver]. eapply (moved_found _ _ _ held4); [|exact F5|set_solver].
      eapply (moved_step ∅ ∅); [by eapply found_moved|exact M4|set_solver|set_solver|set_solver]. }
    eapply (tri_complete_failure _ _ _ b s'); [done|done|exact Hs'|exact Hm'| |].
    + intros Hc. rewrite (Hclosed Hc), <- Hd1. apply states_eq. by apply (re_row _ _ _ _ (mv_db _ _ _ _ _ _ _ M46)).
    + apply (mv_own _ _ _ _ _ _ _ M46). by apply (fo_same _ _ _ _ _ _ F1).
Qed.

(** ** Renewal *)

(** Each snapshot is of a locked state. *)
Definition locked_states held v (states : list CircuitSnapshot) : Prop :=
  forall state, state ∈ states -> exists b s, CkState b ∈ held /\ cd_States v !! b = Some s /\ matches b s state /\ cs_RetryAt state = default GoTime.zero (cw_OpenedAt s).

Lemma tri_lock_states held d v ids Q : (forall k, row k v = row k d) -> (forall d' v' held' , Q None ∅ held' d' v') ->
  (forall states d' v' held', held ⊆ held' -> found ∅ held d v d' v' -> locked_states held' v' states -> ((fun s => bi_ID (cs_Backend s)) <$> states) = ids ->
     (forall b, b ∈ ids -> CkState b ∈ held') -> Q (Some states) ∅ held' d' v') ->
  Tri ∅ held d v (lock_states ids) Q.
Proof.
  revert held d v Q. induction ids as [|b ids IH]; intros held d v Q Hsame H0 H1; cbn [lock_states].
  - apply tri_found. intros F. apply tri_ret, H1; [done|done| |done|]; intros ? Hin; by apply not_elem_of_nil in Hin.
  - apply tri_bind, tri_lockCircuitState; [apply Hsame|intros; apply tri_ret, H0|]. intros state s d1 v1 F1 Hs Hd Hm Hr.
    apply tri_bind, IH; [intros k; by apply (fo_same _ _ _ _ _ _ F1)|intros; apply tri_ret, H0|].
    intros states d2 v2 held2 Hh2 F2 HL Hids Hk2. assert (Hk : CkState b ∈ held ∪ {[CkState b]}) by set_solver. apply tri_ret. cbn [option_map]. apply H1.
    + set_solver.
    + eapply found_then; [exact F1|exact F2|set_solver].
    + intros state' [->|Hin]%elem_of_cons; [|by apply HL]. exists b, s. split_and!; [set_solver| |done|done]. by rewrite (found_state _ _ _ _ _ _ b Hk F2).
    + cbn. rewrite Hids. f_equal. apply Hm.
    + intros b' [->|Hin]%elem_of_cons; [set_solver|by apply Hk2].
Qed.

Lemma locked_states_moved b held held' d v d' v' states : locked_states held v states -> b ∉ ((fun s => bi_ID (cs_Backend s)) <$> states) ->
  moved {[b]} {[b]} held d v d' v' -> held ⊆ held' -> locked_states held' v' states.
Proof.
  intros HL Hb M Hh state Hin. destruct (HL state Hin) as (b' & s & Hk & Hs & Hm & Hr). exists b', s. split_and!; [set_solver| |done|done].
  rewrite (mv_state _ _ _ _ _ _ _ M); [done| |done]. intros ->%elem_of_singleton. apply Hb, list_elem_of_fmap. exists state. split; [|done]. symmetry. apply Hm.
Qed.

Lemma tri_reconcile_states held d v states now Q : NoDup ((fun s => bi_ID (cs_Backend s)) <$> states) -> locked_states held v states ->
  (forall X' held' d' v', Q false X' held' d' v') -> (forall held' d' v', held ⊆ held' -> Q true ∅ held' d' v') ->
  Tri ∅ held d v (reconcile_states options states now) Q.
Proof.
  revert held d v. induction states as [|state states IH]; intros held d v Hd HL H0 H1; cbn [reconcile_states]; [by apply tri_ret, H1|].
  cbn in Hd. apply NoDup_cons in Hd as [Hn Hd]. destruct (HL state ltac:(set_solver)) as (b & s & Hk & Hs & Hm & Hr).
  apply tri_bind. eapply (tri_reconcileExpired _ _ _ b s); [done|done|done|done|]. intros o X' held1 d1 v1 Hh Ho. destruct o as [[state' changed]|]; [|apply tri_ret, H0].
  destruct (Ho _ _ eq_refl) as (-> & M & _). apply IH; [done| |done|intros held' d' v' Hh'; apply H1; set_solver].
  eapply (locked_states_moved b); [|by destruct Hm as [<- _]|exact M|done]. intros state0 Hin. apply HL. set_solver.
Qed.

(** A new expiry of live probes. *)
Lemma inv_renew X v (ids : gset UUID) (g : UUID -> ProbeRow -> ProbeRow) :
  (forall id p, pb_Outcome (g id p) = pb_Outcome p /\ pb_Backend (g id p) = pb_Backend p /\ pb_Revision (g id p) = pb_Revision p /\ pb_Generation (g id p) = pb_Generation p) ->
  c_inv X v -> c_inv X {| v with cd_Probes := map_rows g ids (cd_Probes v) |}.
Proof.
  intros Hg I b. destruct (I b) as [H1 H2 H3 H4 H5].
  assert (Hsame : forall id p, map_rows g ids (cd_Probes v) !! id = Some p -> exists p0, cd_Probes v !! id = Some p0 /\ live_of b p = live_of b p0 /\
    pb_Revision p = pb_Revision p0 /\ pb_Generation p = pb_Generation p0).
  { intros id p. rewrite lookup_map_rows. intros (p0 & Hp & ->). exists p0. split; [done|]. case_bool_decide; [|done].
    destruct (Hg id p0) as (Ho & Hb & ? & ?). unfold live_of, is_live. by rewrite Ho, Hb. }
  split; [| |done|done|done].
  - intros id p Hp Hl. destruct (Hsame id p Hp) as (p0 & Hp0 & Hl0 & -> & ->). apply (H1 id p0 Hp0). by rewrite <- Hl0.
  - etransitivity; [|exact H2]. apply inj_le. rewrite <- !size_dom. apply subseteq_size. intros id. rewrite !elem_of_dom. intros [p [Hp Hl]%lookup_live].
    destruct (Hsame id p Hp) as (p0 & Hp0 & Hl0 & _). exists p0. rewrite lookup_live. by rewrite <- Hl0.
Qed.

Lemma tri_renew_probe held d v probe now Q : CkState (bi_ID (pi_Backend probe)) ∈ held -> (forall result held' d' v', held ⊆ held' -> Q result ∅ held' d' v') ->
  Tri ∅ held d v (renew_probe probe now) Q.
Proof.
  intros Hk HQ. unfold renew_probe. case_match; [by apply tri_ret, HQ|]. cbv zeta. apply tri_bind.
  apply (tri_map_probes _ _ _ _ _ (fun _ p => {| p with pb_ExpiresAt := timestamptz (GoTime.Add now (pi_TTL probe)) |})). intros d' v1 F ids v2. split_and!.
  - intros id p b Hin Hp Hl. assert (Hl' : live_of b p = true) by done. split; [done|]. apply elem_of_dom in Hin as [p' (Hp' & -> & Hr)%map_lookup_filter_Some]. simplify_eq.
    unfold renewable_probe in Hr. rewrite !andb_true_iff in Hr. destruct Hr as [[[[_ Hb]%live_is_live _]%live_in_live _] _]. apply live_is_live in Hl' as [_ <-]. by rewrite Hb.
  - apply inv_renew; [done|apply F].
  - apply tri_ret, HQ. set_solver.
Qed.

Lemma tri_renew_all held d v probes now results Q : (forall probe, probe ∈ probes -> CkState (bi_ID (pi_Backend probe)) ∈ held) ->
  (forall results held' d' v', Q results ∅ held' d' v') -> Tri ∅ held d v (renew_all probes now results) Q.
Proof.
  revert held d v results. induction probes as [|probe probes IH]; intros held d v results Hk HQ; cbn [renew_all]; [apply tri_ret, HQ|].
  apply tri_bind, tri_renew_probe; [apply Hk; set_solver|]. intros result held1 d1 v1 Hh. apply IH; [|done]. intros probe' Hin. apply Hh, Hk. set_solver.
Qed.

Lemma tri_renewProbes probes d : Tri ∅ ∅ d d (renewProbes options probes) (commits_with answer_post).
Proof.
  unfold renewProbes. case_match; [apply tri_rolled_back|]. cbv zeta. apply tri_bind, tri_lock_states; [done|intros; apply tri_rolled_back|].
  intros states d1 v1 held1 _ F1 HL Hids Hk. apply tri_bind, tri_lock_probes. intros held2 d2 v2 Hh2 F2. apply tri_bind, tri_clock. intros now d3 v3 F3.
  assert (F13 : found ∅ held1 d1 v1 d3 v3) by (by eapply found_then).
  apply tri_bind, tri_reconcile_states.
  - rewrite Hids. unfold backend_ids. rewrite merge_sort_Permutation. apply NoDup_elements.
  - intros state Hin. destruct (HL state Hin) as (b & s & Hkb & Hs & Hm & Hr). exists b, s. split_and!; [set_solver| |done|done]. by rewrite (found_state _ _ _ _ _ _ b Hkb F13).
  - intros. apply tri_rolled_back.
  - intros held4 d4 v4 Hh4. cbn [negb]. apply tri_bind, tri_renew_all; [|intros; apply tri_done].
    intros probe Hin. apply Hh4, Hh2, Hk. unfold backend_ids. rewrite merge_sort_Permutation in Hin. rewrite merge_sort_Permutation. apply elem_of_elements, elem_of_list_to_set, list_elem_of_fmap.
    by exists probe.
Qed.

(** ** Reconcile *)

Lemma tri_terminalizeProbes X held d v b outcome Q :
  (forall d' v' held', held ⊆ held' -> moved ∅ ∅ held d v d' v' -> (forall id p, cd_Probes v' !! id = Some p -> live_of b p = true -> False) -> Q tt X held' d' v') ->
  Tri X held d v (terminalizeProbes b outcome) Q.
Proof.
  intros HQ. apply tri_bind, tri_lock_probes. intros held1 d1 v1 Hh1 F1. apply tri_bind, tri_clock. intros now d2 v2 F2. apply tri_terminalize. intros d3 v3 held3 Hh3 M3 Hdead.
  apply HQ; [set_solver| |].
  - eapply moved_then; [|exact M3|done]. eapply found_moved, found_then; [exact F1|exact F2|done].
  - intros id p Hp Hl. pose proof Hl as [Hl' _]%live_is_live. by rewrite (Hdead id p Hp Hl') in Hl.
Qed.

Lemma tri_insert_state X X' held d v b s Q : (forall b', b' ∈ X -> b' ∈ X' \/ b' = b) ->
  (forall d' v1, found X held d v d' v1 -> cd_States v1 !! b = None -> let v2 := {| v1 with cd_States := <[b := s]> (cd_States v1) |} in
     c_inv X' v2 /\ Q true X' (held ∪ {[CkState b]}) d' v2) ->
  (forall d' v1, found X held d v d' v1 -> Q false X held d' v1) ->
  Tri X held d v (insert_new (CkState b) (fun v => bool_decide (cd_States v !! b = None)) (fun db => {| db with cd_States := <[b := s]> (cd_States db) |})) Q.
Proof.
  intros HX H1 H0. apply tri_stmt. intros _ _ d' v1 F. case_bool_decide as Hn.
  - destruct (H1 d' v1 F Hn) as [Hi Hq]. exists X'. split_and!; [| | |exact Hi|by apply tri_ret].
    + apply (local_states _ (fun m => <[b := s]> m)); intros m.
      * intros m2 i He. destruct (decide (b = i)) as [->|]; [by rewrite !lookup_insert_eq|by rewrite !lookup_insert_ne].
      * intros i Hi'. rewrite lookup_insert_ne; [done|set_solver].
    + intros b' Hb'. destruct (HX b' Hb') as [?| ->]; [by left|right; set_solver].
    + apply guar_states; [intros i Hi'; rewrite lookup_insert_ne; [done|set_solver]|]. intros i s0 Hi'. exists s0. split; [|apply later_refl].
      rewrite lookup_insert_ne; [done|congruence].
  - exists X. rewrite union_empty_r_L. split_and!; [apply local_id|set_solver|apply c_guar_refl|apply F|]. apply tri_ret. by apply H0.
Qed.

Lemma inv_new_state v b s : Inv v -> cd_States v !! b = None -> (forall r, cd_Backends v !! b = Some r -> cw_Revision s <= be_Revision r) ->
  Inv {| v with cd_States := <[b := s]> (cd_States v) |}.
Proof.
  intros I Hn Hr. apply inv_close; [| |eauto|done].
  - intros id p Hp Hl. destruct (po_live _ _ _ (I b) id p Hp Hl) as (s' & Hs & _). congruence.
  - intros id f Hf Hb. destruct (po_active _ _ _ (I b) id f Hf Hb) as (s' & Hs & _). congruence.
Qed.

Lemma tri_reconcile_one held d v b Q : (forall e held' d' v' X', (e = None -> X' = ∅) -> Q e X' held' d' v') -> Tri ∅ held d v (reconcile_one b) Q.
Proof.
  intros HQ. unfold reconcile_one. apply tri_bind, tri_select. intros d1 v1 F1. destruct (cd_States v1 !! b) as [s|] eqn:Hs1; cbn [fmap option_fmap option_map].
  - apply tri_bind, tri_lockBackendIdentity; [intros; by apply tri_ret, HQ|]. intros r d2 v2 F2 Hr2. assert (Hk : CkState b ∈ held ∪ {[CkState b]}) by set_solver.
    pose proof (found_state _ _ _ _ _ _ b Hk F2) as Hs2. rewrite Hs1 in Hs2. set (held2 := held ∪ {[CkState b]} ∪ {[CkBackend b]}). assert (Hkb : CkBackend b ∈ held2) by set_solver.
    assert (Hk2 : CkState b ∈ held2) by set_solver. clearbody held2. cbn [bi_Revision bi_Enabled bi_Draining].
    apply tri_bind. eapply (tri_mono _ _ _ _ _ (fun _ X' _ _ _ => X' = ∅)).
    { intros _ X' held' d' v' ->. apply tri_bind. case_match; [|by apply tri_ret, tri_ret, HQ]. apply tri_terminalizeProbes. intros. by apply tri_ret, HQ. }
    destruct (cw_Revision s =? be_Revision r) eqn:He; [by apply tri_ret|]. apply tri_bind, tri_terminalizeProbes. intros d3 v3 held3 Hh3 M3 Hnone.
    apply tri_bind, tri_delete_active. intros d4 v4 held4 Hh4 M4 Ha. pose proof (moved_then _ _ _ _ _ _ _ _ _ _ M3 M4 Hh3) as M24.
    assert (Hs4 : cd_States v4 !! b = Some s) by (by rewrite (mv_state _ _ _ _ _ _ _ M24)).
    eapply (tri_update_state ∅ ∅ _ _ _ b s); [set_solver|exact Hs4|left; cbn; lia|set_solver|]. intros d5 v5 F5 v6. split; [|done]. apply inv_close; [| | |apply F5].
    + intros id p Hp Hl. apply (Hnone id p); [|done]. apply (mv_live _ _ _ _ _ _ _ M4 b); [set_solver| |done]. apply (re_live _ _ _ _ (fo_view _ _ _ _ _ _ F5) b); [set_solver|done|done].
    + intros id f Hf Hfb. apply (re_active _ _ _ _ (fo_view _ _ _ _ _ _ F5)) in Hf; [|rewrite Hfb; set_solver]. apply Ha, Z.eqb_neq in Hf. done.
    + intros r' Hr' _. assert (Hb4 : CkBackend b ∈ held4) by set_solver. rewrite (found_backend _ _ _ _ _ _ b Hb4 F5) in Hr'. rewrite (mv_backend _ _ _ _ _ _ _ M24 b Hkb) in Hr'. cbn. by simplify_eq.
  - rewrite union_empty_r_L. apply tri_bind, tri_lockBackendIdentity; [intros; by apply tri_ret, HQ|]. intros r d2 v2 F2 Hr2. set (held2 := held ∪ {[CkBackend b]}).
    assert (Hkb : CkBackend b ∈ held2) by set_solver. clearbody held2. cbn [bi_Revision bi_Enabled bi_Draining]. apply tri_bind. apply (tri_insert_state ∅ ∅); [set_solver| |].
    + intros d3 v3 F3 Hn3 v4. split.
      * apply inv_new_state; [apply F3|done|]. intros r'. rewrite (found_backend _ _ _ _ _ _ b Hkb F3), Hr2. intros [= <-]. done.
      * cbn [negb]. apply tri_bind. case_match; [|by apply tri_ret, tri_ret, HQ]. apply tri_terminalizeProbes. intros. by apply tri_ret, HQ.
    + intros d3 v3 F3. cbn [negb]. by apply tri_ret, HQ.
Qed.

Lemma tri_reconcile_all held d v ids : Tri ∅ held d v (reconcile_all ids) (commits_with answer_post).
Proof.
  revert held d v. induction ids as [|b ids IH]; intros held d v; cbn [reconcile_all]; [apply tri_done|]. apply tri_bind, tri_reconcile_one.
  intros e held' d' v' X' HX. destruct e; [apply tri_rolled_back|]. rewrite HX by done. apply IH.
Qed.

(** ** Refresh *)

Lemma tri_lock_state_rows held d v (ids : list Z) Q : (forall b, b ∈ ids -> is_Some (cd_States v !! b)) ->
  (forall d' v' held', held ⊆ held' -> (forall b, b ∈ ids -> CkState b ∈ held') -> Q tt ∅ held' d' v') -> Tri ∅ held d v (lock_rows (CkState <$> ids) state_present) Q.
Proof.
  revert held d v. induction ids as [|b ids IH]; intros held d v Hin HQ; cbn [fmap list_fmap lock_rows].
  { apply tri_ret, HQ; [done|]. intros b Hb. by apply not_elem_of_nil in Hb. }
  apply tri_bind, tri_select. intros d1 v1 F1.
  assert (Hall : forall b', b' ∈ b :: ids -> is_Some (cd_States v1 !! b')).
  { intros b' Hb'. destruct (Hin b' Hb') as [s Hs]. destruct (re_state _ _ _ _ (fo_view _ _ _ _ _ _ F1) b' s Hs) as (s' & ? & _). by exists s'. }
  cbn [state_present]. rewrite bool_decide_true by (apply Hall; set_solver). apply IH; [intros b' Hb'; apply Hall; set_solver|]. intros d2 v2 held2 Hh2 Hk2.
  apply HQ; [set_solver|]. intros b' [->|Hb']%elem_of_cons; [set_solver|by apply Hk2].
Qed.

(** Locked states that do not close and have no live probes. *)
Lemma tri_map_states {A : Type} held d v wait (choose : CDb -> gset Z) (g : CDb -> Z -> CircuitRow -> CircuitRow) (next : gset CKey -> Time -> CDb -> Tx A) Q :
  (forall v b s, cw_Generation s < cw_Generation (g v b s) /\ cw_State (g v b s) <> CircuitClosed /\ cw_Revision (g v b s) = cw_Revision s) ->
  (forall d' v1, found ∅ held d v d' v1 -> forall b id p, b ∈ choose v1 -> cd_Probes v1 !! id = Some p -> live_of b p = true -> False) ->
  (forall busy now v1 d' v' held', held ⊆ held' -> Tri ∅ held' d' v' (next busy now v1) Q) ->
  Tri ∅ held d v (TxStmt wait (fun _ _ v => set_map CkState (choose v)) (fun _ _ v db => {| db with cd_States := map_rows (g v) (choose v) (cd_States db) |}) next) Q.
Proof.
  intros Hg Hl HQ. apply tri_stmt. intros busy now d' v1 F. exists ∅. split_and!; [|set_solver| | |apply HQ; set_solver].
  - apply (local_states _ (fun m => map_rows (g v1) (choose v1) m)); [intros *; apply map_rows_local|]. intros m b Hb. apply map_rows_other. set_solver.
  - apply guar_states; [intros b Hb; apply map_rows_other; set_solver|]. intros b s Hs. eexists. split; [apply lookup_map_rows; by exists s|].
    case_bool_decide; [left; apply Hg|apply later_refl].
  - intros b. destruct (fo_inv _ _ _ _ _ _ F b) as [H1 H2 H3 H4 H5]. split; [|done| | |].
    + intros id p Hp Hb. destruct (H1 id p Hp Hb) as (s & Hs & Hrest). exists s. split; [|done]. apply lookup_map_rows. exists s. split; [done|].
      rewrite bool_decide_false; [done|]. intros Hin. by eapply Hl.
    + intros id f Hf Hb. destruct (H3 id f Hf Hb) as (s & Hs & Hr). eexists. split; [apply lookup_map_rows; by exists s|]. case_bool_decide; [|done]. by rewrite (proj2 (proj2 (Hg v1 b s))).
    + intros HX s. cbn. rewrite lookup_map_rows. intros (s0 & Hs & ->). case_bool_decide; [|by apply H4]. intros Hc. by destruct (proj1 (proj2 (Hg v1 b s0))).
    + intros HX s r. cbn. rewrite lookup_map_rows. intros (s0 & Hs & ->) Hr. case_bool_decide; [rewrite (proj2 (proj2 (Hg v1 b s0)))|]; by apply H5.
Qed.

(** What the expired generations are, in the view that found them. *)
Definition expired_in v (e : ExpiredState) : Prop :=
  exists s, cd_States v !! xs_Backend e = Some s /\ cw_State s = CircuitHalfOpen /\ cw_Revision s = xs_Revision e /\ cw_Generation s = xs_Generation e.

Lemma expired_states_found now v (ids : list Z) e : e ∈ omap (expired_state now v) ids -> xs_Backend e ∈ ids /\ expired_in v e.
Proof.
  intros (b & Hb & He)%list_elem_of_omap. unfold expired_state in He. destruct (cd_States v !! b) as [s|] eqn:Hs; cbn in He; [|done]. case_bool_decide; [|done].
  destruct (expired_probe _ _ _ _ _) as [[permit at_]|]; cbn in He; [|done]. injection He as <-. split; [done|]. by exists s.
Qed.

Lemma tri_insert_failures held d v (expired : list ExpiredState) Q : (forall e, e ∈ expired -> CkState (xs_Backend e) ∈ held /\ expired_in v e) ->
  (forall d' v' held' A, held ⊆ held' -> moved ∅ A held d v d' v' -> Q tt ∅ held' d' v') -> Tri ∅ held d v (insert_failures expired) Q.
Proof.
  revert held d v. induction expired as [|e expired IH]; intros held d v He HQ; cbn [insert_failures].
  { apply tri_found. intros F. apply tri_ret. eapply (HQ _ _ _ ∅); [done|by eapply found_moved]. }
  destruct (He e ltac:(set_solver)) as (Hk & s & Hs & Hh & Hr & Hg). rewrite <- Hr. apply tri_bind. eapply (tri_insert_active ∅ ∅); [done|exact Hs|by rewrite Hh|done|].
  intros _ d1 v1 held1 Hh1 M1. apply IH.
  - intros e' Hin. destruct (He e' ltac:(set_solver)) as (Hk' & s' & Hs' & Hrest). split; [set_solver|]. exists s'. split; [|done]. by rewrite (mv_state _ _ _ _ _ _ _ M1).
  - intros d2 v2 held2 A Hh2 M2. eapply (HQ _ _ _ ({[xs_Backend e]} ∪ A)); [set_solver|]. eapply moved_step; [exact M1|exact M2|done|set_solver|set_solver].
Qed.

Lemma tri_half_open_states held d v ids expired now : Tri ∅ held d v (half_open_states options ids expired now;; TxRet (Committed (CaDone None))) (commits_with answer_post).
Proof.
  apply tri_bind, tri_bind. apply (tri_map_states _ _ _ _ _ (fun _ _ s => half_open_row (cw_Generation s + 1) s)).
  - intros _ _ s. split_and!; [cbn; lia|done|done].
  - intros d' v1 F b id p Hin Hp Hl. apply elem_of_dom in Hin as [s (Hs & _ & Ho & _)%map_lookup_filter_Some].
    apply (live_none _ _ _ _ (fo_inv _ _ _ _ _ _ F) Hs ltac:(by rewrite Ho) id p Hp Hl).
  - intros. apply tri_ret, tri_ret, tri_done.
Qed.

Lemma tri_refresh (ids : list Z) d : (forall b, b ∈ ids -> is_Some (cd_States d !! b)) -> Tri ∅ ∅ d d (reconcileRefreshStates options ids) (commits_with answer_post).
Proof.
  intros Hids. unfold reconcileRefreshStates. case_match; [apply tri_rolled_back|]. apply tri_bind, tri_lock_state_rows; [done|]. intros d1 v1 held1 _ Hk1.
  apply tri_bind, tri_lock_probes. intros held2 d2 v2 Hh2 _. apply tri_bind, tri_clock. intros now d3 v3 _. apply tri_bind, tri_query. intros _ d4 v4 F4. cbv zeta.
  set (expired := omap (expired_state now v4) ids). assert (He : forall e, e ∈ expired -> CkState (xs_Backend e) ∈ held2 /\ expired_in v4 e).
  { intros e [Hb Hx]%expired_states_found. split; [|done]. by apply Hh2, Hk1. }
  clearbody expired. apply tri_bind. eapply (tri_mono _ _ _ _ _ (fun _ X' _ _ _ => X' = ∅)); [intros _ X' held' d' v' ->; apply tri_half_open_states|].
  case_match; [by apply tri_ret|]. apply tri_bind, tri_terminalize. intros d5 v5 held5 Hh5 M5 Hdead. apply tri_found. intros F5.
  assert (Hnone : forall e, e ∈ expired -> forall id p, cd_Probes v5 !! id = Some p -> live_of (xs_Backend e) p = true -> False).
  { intros e Hin id p Hp Hl. destruct (He e Hin) as (Hk & s & Hs & Hh & Hr & Hg). rewrite <- (mv_state _ _ _ _ _ _ _ M5 (xs_Backend e) ltac:(set_solver) Hk) in Hs.
    destruct (live_current _ _ _ _ _ _ (fo_inv _ _ _ _ _ _ F5) Hs Hp Hl) as [_ Hlin]. rewrite Hr, Hg in Hlin. apply live_is_live in Hl as [Hl _].
    specialize (Hdead id p Hp Hl). cbn in Hdead. apply not_true_iff_false in Hdead. apply Hdead, existsb_exists. exists e. split; [by apply list_elem_of_In|done]. }
  apply tri_bind, tri_insert_failures.
  { intros e Hin. destruct (He e Hin) as (Hk & s & Hs & Hrest). split; [set_solver|]. exists s. by rewrite (mv_state _ _ _ _ _ _ _ M5). }
  intros d6 v6 held6 A Hh6 M6. apply tri_bind, tri_delete_rows. intros d7 v7 held7 Hh7 M7 _ _. unfold open_states. cbv zeta.
  apply (tri_map_states _ _ _ _ _ (fun v b s => {| s with cw_State := CircuitOpen; cw_Generation := cw_Generation s + 1;
    cw_OpenedAt := (cw ← cd_States v !! b; latest_event (active_in b (cw_Revision cw) v)); cw_Succeeded := false |})).
  - intros v' b' s. split_and!; [cbn; lia|done|done].
  - intros d8 v8 F8 b id p Hin Hp Hl. apply elem_of_dom in Hin as [s (_ & (e & -> & Hin)%list_elem_of_fmap)%map_lookup_filter_Some]. apply (Hnone e Hin id p); [|done].
    destruct (He e Hin) as (Hk & _). apply (mv_live _ _ _ _ _ _ _ M6 (xs_Backend e)); [set_solver| |done]. apply (mv_live _ _ _ _ _ _ _ M7 (xs_Backend e)); [set_solver| |done].
    apply (re_live _ _ _ _ (fo_view _ _ _ _ _ _ F8) (xs_Backend e)); [set_solver|done|done].
  - intros. by apply tri_ret.
Qed.

(** ** Cleanup *)

Lemma tri_cleanup batch d : Tri ∅ ∅ d d (circuit_cleanup batch) (commits_with answer_post).
Proof.
  unfold circuit_cleanup. cbv zeta. set (n := Z.to_nat _). clearbody n. apply tri_bind, tri_stmt. intros _ now1 d1 v1 F1. set (ids := old_probes n (timestamptz now1) v1).
  exists ∅. split_and!; [|set_solver| | |apply tri_ret].
  { apply (local_probes _ (fun m => filter (fun '(id, _) => id ∉ ids) m)); [intros *; apply filter_local|]. intros m i Hi. apply filter_other. set_solver. }
  { apply guar_probes; [intros i Hi; apply filter_other; set_solver|]. intros i p b [Hp _]%map_lookup_filter_Some Hl. split; right; [done|by exists p]. }
  { apply (inv_shrink ∅ v1); [reflexivity|reflexivity| |by intros ??|apply F1]. intros i p. cbn. by intros [? _]%map_lookup_filter_Some. }
  apply tri_bind, tri_stmt. intros _ now2 d2 v2 F2. exists ∅. split_and!; [apply local_id|set_solver|apply c_guar_refl|apply F2|apply tri_ret].
  set (receipts := old_receipts n (timestamptz now2) v2). clearbody receipts. apply tri_bind. eapply (tri_mono _ _ _ _ _ (fun _ X' _ _ _ => X' = ∅)); [intros _ X' held' d' v' ->; apply tri_done|].
  case_match; [by apply tri_ret|]. apply tri_bind, tri_delete_history. intros _ d3 v3 held3 Hh3 _. apply tri_stmt. intros _ _ d4 v4 F4. exists ∅. rewrite union_empty_r_L.
  split_and!; [|set_solver| |by apply (inv_same ∅ v4); [..|apply F4]|by apply tri_ret].
  - apply (local_receipts _ (fun m => filter (fun '(id, _) => id ∉ receipts) m)); [intros *; apply filter_local|]. intros m i Hi. apply filter_other. set_solver.
  - apply guar_receipts. intros i Hi. apply filter_other. set_solver.
Qed.

(** ** Backend mutations *)

Lemma tri_mutation d (fn : Tx (option Error)) : Tri ∅ ∅ d d fn (fun e X' _ _ _ => e = None -> X' = ∅) -> Tri ∅ ∅ d d (c_mutation fn) (commits_with answer_post).
Proof.
  intros HT. apply tri_bind. eapply tri_mono; [|exact HT]. intros e X' held' d' v' HX. destruct e; [apply tri_rolled_back|]. rewrite HX by done.
  apply tri_stmt. intros _ _ d1 v1 F1. exists ∅. split_and!; [|set_solver| |by apply (inv_same ∅ v1); [..|apply F1]|apply tri_done].
  - split; [intros v2 v3 k|intros v2 k _]; by destruct k.
  - intros k. destruct k; (split; [done|apply row_guar_refl]).
Qed.

(** A backend row of a revision that is not lower, or of a backend without a state yet. *)
Lemma tri_write_backend {A : Type} X X' held d v id r (next : Tx A) Q : CkBackend id ∈ held -> X ⊆ X' ->
  (id ∈ X' \/ exists r', cd_Backends v !! id = Some r' /\ be_Revision r' <= be_Revision r) ->
  (forall d' v', found X held d v d' v' -> Tri X' held d' (set_backend id r v') next Q) -> Tri X held d v (exec (set_backend id r);; next) Q.
Proof.
  intros Hk HX Hr HQ. apply tri_bind, tri_stmt. intros _ _ d' v1 F. exists X'. rewrite union_empty_r_L.
  assert (Hr1 : id ∈ X' \/ exists r', cd_Backends v1 !! id = Some r' /\ be_Revision r' <= be_Revision r).
  { destruct Hr as [?|Hr]; [by left|]. right. by rewrite (found_backend _ _ _ _ _ _ id Hk F). }
  split_and!; [|set_solver| | |by apply tri_ret, HQ].
  - apply (local_backends _ (fun m => <[id := r]> m)); intros m.
    + intros m2 i He. destruct (decide (id = i)) as [->|]; [by rewrite !lookup_insert_eq|by rewrite !lookup_insert_ne].
    + intros i Hi. rewrite lookup_insert_ne; [done|set_solver].
  - apply guar_backends; [intros i Hi; rewrite lookup_insert_ne; [done|set_solver]|]. intros b r0. rewrite lookup_insert_Some.
    intros [[<- <-]|[_ Hb]]; [destruct Hr1 as [?|?]; [by right; left|by right; right]|]. right; right. exists r0. split; [done|lia].
  - intros b. destruct (fo_inv _ _ _ _ _ _ F b) as [H1 H2 H3 H4 H5]. split; [done|done|done|intros ?; apply H4; set_solver|]. intros Hb s r0 Hs. cbn. rewrite lookup_insert_Some.
    intros [[<- <-]|[_ Hr0]]; [|by apply H5; [set_solver|..]]. destruct Hr1 as [?|(r' & Hr' & ?)]; [done|]. pose proof (H5 ltac:(set_solver) s r' Hs Hr'). lia.
Qed.

(** The backend row is locked, and its probes have ended. *)
Record superseded id (r : Backend) held d v : Prop := {
  su_key : CkBackend id ∈ held;
  su_db : cd_Backends d !! id = Some r;
  su_state : row (CkState id) v = row (CkState id) d;
  su_live : forall i p, cd_Probes v !! i = Some p -> live_of id p = true -> False
}.

Lemma superseded_found X id r held d v d' v' : superseded id r held d v -> found X held d v d' v' -> superseded id r held d' v'.
Proof.
  intros [H1 H2 H3 H4] F. split; [done| |by apply (fo_same _ _ _ _ _ _ F)|].
  - rewrite <- H2. apply backends_eq. by apply (re_row _ _ _ _ (fo_db _ _ _ _ _ _ F)).
  - intros i p Hp Hl. destruct (re_probe _ _ _ _ (fo_view _ _ _ _ _ _ F) id i p H1 Hp Hl) as (p' & ? & ?). by apply (H4 i p').
Qed.

Lemma tri_supersede id d Q : (forall held' d' v', Q None ∅ held' d' v') ->
  (forall r now held' d' v', superseded id r held' d' v' -> cd_Backends v' !! id = Some r -> Q (Some (r, now)) ∅ held' d' v') -> Tri ∅ ∅ d d (supersede_backend id) Q.
Proof.
  intros H0 H1. unfold supersede_backend. apply tri_bind, tri_select. intros d1 v1 F1. set (held1 := ∅ ∪ _). clearbody held1. apply tri_bind, tri_select. intros d2 v2 F2.
  assert (F02 : found ∅ ∅ d d d2 v2) by (eapply found_then; [exact F1|exact F2|set_solver]).
  destruct (cd_Backends v2 !! id) as [r|] eqn:Hr; [|apply tri_ret, H0]. set (held2 := held1 ∪ {[CkBackend id]}). assert (Hk : CkBackend id ∈ held2) by set_solver. clearbody held2.
  assert (Hdb : cd_Backends d2 !! id = Some r) by (rewrite <- Hr; symmetry; apply backends_eq; by apply (fo_same _ _ _ _ _ _ F02)).
  apply tri_bind. unfold supersedeProbes. apply tri_bind, tri_lock_probes. intros held3 d3 v3 Hh3 F3. apply tri_bind, tri_clock. intros now d4 v4 F4.
  apply tri_bind, tri_terminalize. intros d5 v5 held5 Hh5 M5 Hdead. apply tri_ret, tri_bind, tri_delete_active. intros d6 v6 held6 Hh6 M6 _.
  assert (M26 : moved ∅ ∅ held2 d2 v2 d6 v6).
  { eapply moved_then; [|exact M6|set_solver]. eapply moved_then; [|exact M5|exact Hh3]. eapply found_moved, found_then; [exact F3|exact F4|done]. }
  apply tri_ret, H1; [|by rewrite (mv_backend _ _ _ _ _ _ _ M26)]. split.
  - set_solver.
  - rewrite <- Hdb. apply backends_eq. by apply (re_row _ _ _ _ (mv_db _ _ _ _ _ _ _ M26)).
  - apply (mv_same _ _ _ _ _ _ _ M26); [set_solver|]. by apply (fo_same _ _ _ _ _ _ F02).
  - intros i p Hp Hl. destruct (mv_probe _ _ _ _ _ _ _ M6 id i p ltac:(set_solver) Hp Hl) as (p' & Hp' & Hl'). pose proof Hl' as [Hlive _]%live_is_live.
    by rewrite (Hdead i p' Hp' Hlive) in Hl'.
Qed.

Lemma active_new b revision v : (forall i f, cd_Active v !! i = Some f -> af_Backend f = b -> af_Revision f < revision) -> size (active_in b revision v) = 0%nat.
Proof.
  intros Ha. apply map_size_empty_iff, map_empty. intros i. apply eq_None_not_Some. intros [f (Hf & Hb & Hfr)%lookup_active]. pose proof (Ha i f Hf Hb). lia.
Qed.

Lemma tri_reset X' held d v id r Q : superseded id r held d v ->
  (id ∈ X' \/ forall r', cd_Backends v !! id = Some r' -> be_Revision r + 1 <= be_Revision r') ->
  (forall d' v', found ∅ held d v d' v' -> Q tt ∅ held d' v') ->
  (forall d' v' s, CkState id ∈ held ∪ {[CkState id]} -> found ∅ held d v d' v' ->
     (forall i f, cd_Active v' !! i = Some f -> af_Backend f = id -> af_Revision f < be_Revision r + 1) -> cw_Revision s = be_Revision r + 1 ->
     Q tt X' (held ∪ {[CkState id]}) d' {| v' with cd_States := <[id := s]> (cd_States v') |}) ->
  Tri ∅ held d v (update_state id (reset_row (be_Revision r + 1))) Q.
Proof.
  intros HS HX H0 H1. apply tri_stmt. intros _ _ d' v1 F. pose proof (superseded_found _ _ _ _ _ _ _ _ HS F) as [Hk Hdb Hst Hl]. case_bool_decide as Hp.
  2: { exists ∅. rewrite union_empty_r_L. split_and!; [apply local_id|set_solver|apply c_guar_refl|apply F|]. by apply tri_ret, H0. }
  destruct Hp as [s Hs]. assert (Hd : cd_States d' !! id = Some s) by (rewrite <- Hs; symmetry; by apply states_eq).
  pose proof (po_revision _ _ _ (fo_ok _ _ _ _ _ _ F id) ltac:(set_solver) s r Hd Hdb) as Hrev. set (s' := reset_row (be_Revision r + 1) s).
  assert (He : alter (reset_row (be_Revision r + 1)) id (cd_States v1) = <[id := s']> (cd_States v1)).
  { apply map_eq. intros b'. destruct (decide (b' = id)) as [->|]; [by rewrite lookup_alter_eq, lookup_insert_eq, Hs|by rewrite lookup_alter_ne, lookup_insert_ne]. }
  assert (Ha : forall i f, cd_Active v1 !! i = Some f -> af_Backend f = id -> af_Revision f < be_Revision r + 1).
  { intros i f Hf Hb. destruct (po_active _ _ _ (fo_inv _ _ _ _ _ _ F id) i f Hf Hb) as (s0 & ? & ?). simplify_eq. lia. }
  exists X'. cbv zeta beta. rewrite He. split_and!; [|set_solver| | |apply tri_ret, H1; [set_solver|done|done|done]].
  - apply (local_states _ (fun m => alter (reset_row (be_Revision r + 1)) id m)); intros m.
    + intros m2 i Hm. destruct (decide (id = i)) as [->|]; [by rewrite !lookup_alter_eq, Hm|by rewrite !lookup_alter_ne].
    + intros i Hi'. rewrite lookup_alter_ne; [done|set_solver].
  - apply guar_states; [intros b' Hb'; rewrite lookup_insert_ne; [done|set_solver]|]. intros b' s0 Hs0. destruct (decide (b' = id)) as [->|].
    + rewrite lookup_insert_eq. exists s'. split; [done|]. simplify_eq. left. cbn. lia.
    + rewrite lookup_insert_ne by done. eauto using later_refl.
  - apply (inv_state ∅); [naive_solver| | | |set_solver|apply F].
    + intros i f Hf Hb. pose proof (Ha i f Hf Hb). cbn. lia.
    + intros _ _. rewrite (active_new id); [lia|exact Ha].
    + intros HnX r' Hr'. destruct HX as [?|HX]; [done|]. apply HX. by rewrite <- (found_backend _ _ _ _ _ _ id Hk F).
Qed.

Lemma tri_new_revision id r held' d' v' (row' : Backend) : superseded id r held' d' v' -> cd_Backends v' !! id = Some r -> be_Revision row' = be_Revision r + 1 ->
  Tri ∅ held' d' v' (exec (set_backend id row');; update_state id (reset_row (be_Revision r + 1));; TxRet (None : option Error)) (fun e X' _ _ _ => e = None -> X' = ∅).
Proof.
  intros HS Hr Hrev. apply (tri_write_backend ∅ ∅); [apply HS|done|right; exists r; split; [done|lia]|]. intros d1 v1 F1. apply tri_bind. eapply (tri_reset ∅).
  - destruct (superseded_found _ _ _ _ _ _ _ _ HS F1) as [H1 H2 H3 H4]. by split.
  - right. intros r'. cbn. rewrite lookup_insert_eq. intros [= <-]. lia.
  - intros. by apply tri_ret.
  - intros. by apply tri_ret.
Qed.

Lemma tri_UpdateBackend id (p : BackendParams) d : Tri ∅ ∅ d d (UpdateBackend url_parse url_string id p) (commits_with answer_post).
Proof.
  unfold UpdateBackend. destruct (Backend_Validate _ _ _); [apply tri_rolled_back|]. apply tri_mutation, tri_bind, tri_supersede; [by intros; apply tri_ret|].
  intros r now held' d' v' HS Hr. apply tri_bind, tri_query. intros _ d1 v1 F1. case_match; [by apply tri_ret|]. apply tri_new_revision; [by eapply superseded_found| |done].
  by rewrite (found_backend _ _ _ _ _ _ id (su_key _ _ _ _ _ HS) F1).
Qed.

Lemma tri_SetBackendDraining id draining d : Tri ∅ ∅ d d (SetBackendDraining id draining) (commits_with answer_post).
Proof.
  apply tri_mutation, tri_bind, tri_supersede; [by intros; apply tri_ret|]. intros r now held' d' v' HS Hr. by apply tri_new_revision.
Qed.

Lemma tri_remove_backend X held d v id Q : CkBackend id ∈ held -> X ⊆ {[id]} ->
  (id ∈ X -> CkState id ∈ held /\ exists s, cd_States v !! id = Some s /\ forall i f, cd_Active v !! i = Some f -> af_Backend f = id -> af_Revision f < cw_Revision s) ->
  (forall d' v', Q tt ∅ held d' v') -> Tri X held d v (exec (remove_backend id)) Q.
Proof.
  intros Hk HX Hid HQ. apply tri_stmt. intros _ _ d' v1 F. exists ∅. rewrite union_empty_r_L. split_and!; [| | | |by apply tri_ret, HQ].
  - apply (local_backends _ (fun m => delete id m)); intros m.
    + intros m2 i He. destruct (decide (id = i)) as [->|]; [by rewrite !lookup_delete_eq|by rewrite !lookup_delete_ne].
    + intros i Hi. rewrite lookup_delete_ne; [done|set_solver].
  - intros b Hb. right. assert (b = id) as -> by set_solver. by apply Hid.
  - apply guar_backends; [intros i Hi; rewrite lookup_delete_ne; [done|set_solver]|]. intros b r0 [_ Hb]%lookup_delete_Some. right; right. exists r0. split; [done|lia].
  - intros b. destruct (fo_inv _ _ _ _ _ _ F b) as [H1 H2 H3 H4 H5]. split; [done|done|done| |].
    + intros _ s Hs Hc. cbn in Hs. destruct (decide (b ∈ X)) as [Hb|Hb]; [|by apply H4]. assert (b = id) as -> by set_solver. destruct (Hid Hb) as (Hks & s0 & Hs0 & Ha).
      rewrite (found_state _ _ _ _ _ _ id Hks F), Hs0 in Hs. injection Hs as <-. rewrite (active_new id); [lia|]. intros i f Hf Hfb.
      apply (Ha i); [|done]. apply (re_active _ _ _ _ (fo_view _ _ _ _ _ _ F)); [by rewrite Hfb|done].
    + intros _ s r Hs. cbn. intros [Hne Hr]%lookup_delete_Some. apply (H5 ltac:(set_solver) s r Hs Hr).
Qed.

Lemma tri_DeleteBackend id d : Tri ∅ ∅ d d (DeleteBackend id) (commits_with answer_post).
Proof.
  apply tri_mutation, tri_bind, tri_supersede; [by intros; apply tri_ret|]. intros r now held' d' v' HS Hr. pose proof (su_key _ _ _ _ _ HS) as Hk.
  apply tri_bind. eapply (tri_reset {[id]}); [exact HS|left; set_solver| |].
  - intros d1 v1 F1. apply tri_bind, tri_remove_backend; [done|set_solver|set_solver|]. intros. by apply tri_ret.
  - intros d1 v1 s Hks F1 Ha Hs. apply tri_bind, tri_remove_backend; [set_solver|done| |intros; by apply tri_ret]. intros _. split; [done|]. exists s. cbn. rewrite lookup_insert_eq. split; [done|].
    intros i f Hf Hb. rewrite Hs. by apply (Ha i).
Qed.

Lemma validate_revision r r' : Backend_Validate url_parse url_string r = inr r' -> be_Revision r' = be_Revision r.
Proof. unfold Backend_Validate. repeat case_match; try discriminate. by intros [= <-]. Qed.

Lemma tri_CreateBackend id (p : BackendParams) at_ d : Tri ∅ ∅ d d (CreateBackend url_parse url_string id p at_) (commits_with answer_post).
Proof.
  unfold CreateBackend. destruct (Backend_Validate _ _ _) as [e|v0] eqn:Hv; [apply tri_rolled_back|]. apply validate_revision in Hv. cbn in Hv. apply tri_mutation, tri_bind, tri_stmt.
  intros _ _ d1 v1 F1. destruct (_ && _) eqn:Hnew.
  2: { exists ∅. split_and!; [apply local_id|set_solver|apply c_guar_refl|apply F1|]. by apply tri_ret, tri_ret. }
  exists {[id]}. rewrite union_empty_l_L. split_and!; [|set_solver| | |apply tri_ret; cbn [negb]].
  - apply (local_backends _ (fun m => <[id := _]> m)); intros m.
    + intros m2 i He. destruct (decide (id = i)) as [->|]; [by rewrite !lookup_insert_eq|by rewrite !lookup_insert_ne].
    + intros i Hi. rewrite lookup_insert_ne; [done|set_solver].
  - apply guar_backends; [intros i Hi; rewrite lookup_insert_ne; [done|set_solver]|]. intros b r0. rewrite lookup_insert_Some.
    intros [[<- _]|[_ Hb]]; [right; left; set_solver|]. right; right. exists r0. split; [done|lia].
  - intros b. destruct (fo_inv _ _ _ _ _ _ F1 b) as [H1 H2 H3 H4 H5]. split; [done|done|done|intros ?; apply H4; set_solver|]. intros Hb s r0 Hs. cbn. rewrite lookup_insert_ne by set_solver.
    apply H5; [set_solver|done].
  - apply tri_bind. apply (tri_insert_state _ ∅); [set_solver| |].
    + intros d2 v2 F2 Hn v3. split; [|by apply tri_ret]. apply (inv_state {[id]}); [| |intros _ _| |set_solver|apply F2].
      * intros i p0 Hp Hl. destruct (po_live _ _ _ (fo_inv _ _ _ _ _ _ F2 id) i p0 Hp Hl) as (s' & Hs & _). congruence.
      * intros i f Hf Hb. destruct (po_active _ _ _ (fo_inv _ _ _ _ _ _ F2 id) i f Hf Hb) as (s' & Hs & _). congruence.
      * rewrite (active_none id); [lia|]. intros i f Hf Hb. destruct (po_active _ _ _ (fo_inv _ _ _ _ _ _ F2 id) i f Hf Hb) as (s' & Hs & _). congruence.
      * intros _ r Hr. assert (Hk : CkBackend id ∈ ({[CkBackend id]} : gset CKey)) by set_solver. rewrite (found_backend _ _ _ _ _ _ id Hk F2) in Hr. cbn in Hr. rewrite lookup_insert_eq in Hr.
        injection Hr as <-. cbn. lia.
    + intros d2 v2 F2. by apply tri_ret.
Qed.

Lemma tri_read_only {A : Type} d (f : Time -> CDb -> A) (g : A -> CAnswer) : Tri ∅ ∅ d d (query f ≫= fun a => TxRet (Committed (g a))) (commits_with answer_post).
Proof. apply tri_bind, tri_query. intros now d' v' F. apply tri_done. Qed.

End View.

(** ** Every interleaving *)

Context (threshold_pos : 0 < FailureThreshold options).
Abbreviation Inv := (c_inv ∅).
Abbreviation program := (c_program circuitAcquireFingerprint options url_parse url_string).

Definition c_post (c : CCall) (a : CAnswer) d v : Prop :=
  (forall b s, cd_States d !! b = Some s -> exists s', cd_States v !! b = Some s' /\ later s s') /\ answer_post c a d v.

Lemma tri_commits c m d : Inv d -> Tri c ∅ ∅ d d m (commits_with c (answer_post c)) -> wp c_rely Inv any_view c m (commits c_rely Inv (fun _ => c_post) any_view c) ∅ (fun db => db) d.
Proof.
  intros I HT. eapply tx_wp_mono; [|apply HT; [|done]].
  - intros o held w d' (X & C & HQ). destruct o as [a|a]; [|done]. cbn in HQ. destruct HQ as [-> HP]. intros d'' R I''. pose proof (ctx_rely _ _ _ _ _ _ C R I'') as C'.
    pose proof (cx_guar _ _ _ _ _ C') as G. split_and!; [apply (cx_inv _ _ _ _ _ C')|intros c' held' Hd; by eapply c_guar_rely|]. split.
    + intros b s Hs. apply row_state in Hs. destruct (proj2 (G (CkState b)) s Hs) as (s' & Hs' & ?). exists s'. by rewrite <- row_state.
    + apply HP. split; [done|by eapply ctx_lift|done|apply (cx_inv _ _ _ _ _ C')| |]; intros k Hk; (destruct (decide (k ∈ held)) as [Hh|Hh]; [|by rewrite (cx_frame _ _ _ _ _ C d'' R k Hh)]).
      * by rewrite (cx_held _ _ _ _ _ C d'' R k Hh), Hk, (re_row _ _ _ _ R).
      * by rewrite (cx_held _ _ _ _ _ C d'' R k Hh), (re_row _ _ _ _ R k Hh).
  - split; [set_solver|done|apply c_guar_refl|done|done].
Qed.

Lemma c_program_ok c d : Inv d -> c_may_call c d = true -> wp c_rely Inv any_view c (program c) (commits c_rely Inv (fun _ => c_post) any_view c) ∅ (fun db => db) d.
Proof.
  intros I Hmay. apply tri_commits; [done|]. destruct c; cbn [c_program]; [by apply tri_acquire|..].
  - by apply tri_read_only.
  - by apply tri_complete.
  - unfold completeClosedNonFailure. case_match; [by apply tri_done|]. by refine (tri_read_only _ _ _ _ (fun r => CaFastCompleted (answer_completed (canonical completion) r))).
  - by apply tri_renewProbes.
  - by apply tri_reconcile_all.
  - apply tri_refresh; [done|done|]. intros b Hb. cbn in Hmay. rewrite forallb_forall in Hmay. apply (bool_decide_eq_true _), Hmay. by apply list_elem_of_In.
  - by apply tri_read_only.
  - by apply tri_cleanup.
  - by apply tri_CreateBackend.
  - by apply tri_UpdateBackend.
  - by apply tri_DeleteBackend.
  - by apply tri_SetBackendDraining.
Qed.

(** Nothing here depends on what the transaction saw. *)
Lemma c_program_seen seen c d : Inv d -> c_may_call c d = true ->
  wp c_rely Inv seen c (program c) (commits c_rely Inv (fun _ => c_post) seen c) ∅ (fun db => db) d.
Proof. intros I Hm. by eapply tx_wp_seen, c_program_ok. Qed.

Lemma c_change_ok e calls d d' : Inv d -> c_change e calls d = Some d' -> Inv d' /\ forall c held, c ∈ calls -> c_rely c held d d'.
Proof.
  intros I [= <-]. split; [by apply (inv_same ∅ d)|]. intros c held _. split; cbn [cd_States cd_Probes cd_Active cd_Backends]; [intros k Hk; by destruct k|done|eauto|done| |eauto using later_refl].
  intros b r _ Hr. exists r. by split.
Qed.

(** What [Refresh] read can be reconciled. *)
Lemma refresh_may_call now d : c_may_call (CcRefreshStates (reconcilableBackendIDs options now d)) d = true.
Proof.
  cbn. apply forallb_forall. intros b Hb%list_elem_of_In. unfold reconcilableBackendIDs in Hb. rewrite merge_sort_Permutation in Hb.
  apply elem_of_elements, elem_of_dom in Hb as [s [Hs _]%map_lookup_filter_Some]. apply bool_decide_eq_true. by exists s.
Qed.

Abbreviation run ls db := (sys_run program c_change c_may_call ls {| sy_db := db; sy_txs := ∅ |}).
Abbreviation step := (sys_step program c_change c_may_call).

(** C10. In every reachable state of the circuit tables, whatever the interleaving of the
    replicas' operations, expiry, refreshes, cleanups and backend mutations: the live probes
    of a backend are of the current revision and generation of its half-open circuit and
    are at most [HalfOpenMaxProbes]; a closed circuit has fewer than [FailureThreshold]
    failures; no state is ahead of its backend's revision. *)
Theorem pg_circuit_consistent ls db s b : Inv db -> run ls db = Some s ->
  let d := sy_db s in
  (forall id p, cd_Probes d !! id = Some p -> live_of b p = true -> exists st, cd_States d !! b = Some st /\ cw_State st = CircuitHalfOpen /\
     cw_Revision st = pb_Revision p /\ cw_Generation st = pb_Generation p) /\
  Z.of_nat (size (live b d)) <= HalfOpenMaxProbes options /\
  (forall st, cd_States d !! b = Some st -> cw_State st = CircuitClosed -> Z.of_nat (size (active_in b (cw_Revision st) d)) < FailureThreshold options) /\
  (forall st r, cd_States d !! b = Some st -> cd_Backends d !! b = Some r -> cw_Revision st <= be_Revision r).
Proof.
  intros I Hrun d.
  assert (Hok : sys_ok c_rely Inv (fun _ => c_post) s).
  { eapply sys_run_ok; [apply c_rely_refl|apply c_rely_trans|apply c_change_ok|apply c_program_seen|by apply sys_init_ok|exact Hrun]. }
  destruct (so_inv _ _ _ _ Hok b) as [H1 H2 _ H4 H5]. split_and!; [exact H1|exact H2|apply H4; set_solver|apply H5; set_solver].
Qed.

(** C11. What an acquisition that commits lets through, whatever else runs: without a permit
    only a closed circuit of the requested revision, whose backend is enabled and not
    draining; with a permit only the live probe it recorded, in a half-open circuit that
    was half open before or had been open for its cooldown, or the live probe of an earlier
    attempt with the same fingerprint. *)
Theorem pg_circuit_admits ls db s i s' request decision : Inv db -> run ls db = Some s ->
  committing i s = Some (CcAcquire request, CaAcquired (inr decision)) -> step (LCommit i) s = Some s' -> cd_Reason decision = ReasonNone ->
  match cd_Permit decision with
  | None => closed_post request (sy_db s) (sy_db s')
  | Some permit => probe_post request permit (sy_db s) (sy_db s') \/ permit_again request permit (sy_db s) (sy_db s')
  end.
Proof.
  intros I Hrun Hc Hs Hr. assert (HP : c_post (CcAcquire request) (CaAcquired (inr decision)) (sy_db s) (sy_db s')).
  { eapply (commit_post _ _ _ c_rely Inv (fun _ => c_post)); [apply c_rely_refl|apply c_rely_trans|apply c_change_ok|apply c_program_seen|exact I|exact Hrun|exact Hc|exact Hs]. }
  destruct HP as [_ HP]. by apply HP.
Qed.

(** Every commit keeps each circuit or moves it to a later generation: a state, its
    revision and its opening time never change within a generation. *)
Theorem pg_circuit_generations ls db s i s' c a b st : Inv db -> run ls db = Some s ->
  committing i s = Some (c, a) -> step (LCommit i) s = Some s' -> cd_States (sy_db s) !! b = Some st ->
  exists st', cd_States (sy_db s') !! b = Some st' /\ (cw_Generation st < cw_Generation st' \/
    cw_Generation st' = cw_Generation st /\ cw_State st' = cw_State st /\ cw_Revision st' = cw_Revision st /\ cw_OpenedAt st' = cw_OpenedAt st).
Proof.
  intros I Hrun Hc Hs Hst. assert (HP : c_post c a (sy_db s) (sy_db s')).
  { eapply (commit_post _ _ _ c_rely Inv (fun _ => c_post)); [apply c_rely_refl|apply c_rely_trans|apply c_change_ok|apply c_program_seen|exact I|exact Hrun|exact Hc|exact Hs]. }
  exact (proj1 HP b st Hst).
Qed.

End PgCircuitSafety.

(** ** Witnesses *)

Section Witnesses.

Definition wc_options : Options := {| FailureThreshold := 2; FailureWindow := GoTime.Minute; OpenCooldown := 30 * GoTime.Second; HalfOpenMaxProbes := 1 |}.
Definition wc_now : Time := 100 * GoTime.Hour.
Definition wc_backend : Backend :=
  {| be_ID := 2; be_Revision := 1; be_ModelPoolID := 1; be_Name := "b"; be_BaseURL := "http://b"; be_Enabled := true; be_Draining := false; be_CapacityHint := fone;
     be_RunningSoftLimit := fone; be_UpstreamAPIKeyEnv := EmptyString; be_CreatedAt := 0; be_UpdatedAt := 0 |}.
(** A circuit that opened a minute ago. *)
Definition wc_db : CDb (FP := UUID) :=
  {| cd_States := {[2 := {| cw_Revision := 1; cw_State := CircuitOpen; cw_Generation := 4; cw_OpenedAt := Some (wc_now - GoTime.Minute); cw_Succeeded := false |}]};
     cd_Probes := ∅; cd_Active := ∅; cd_Receipts := ∅; cd_History := ∅; cd_Backends := {[2 := wc_backend]}; cd_Revision := 1 |}.
Definition wc_request (id : UUID) : CircuitAcquireRequest :=
  {| ca_AttemptID := id; ca_AcquisitionStartedAt := wc_now; ca_Backend := {| bi_ID := 2; bi_Revision := 1; bi_Enabled := true; bi_Draining := false |};
     ca_ReplicaID := 9%N; ca_ProbeTTL := 10 * GoTime.Second |}.
Definition wc_parse (_ : string) : option (URL unit) := None.
Definition wc_string (_ : URL unit) : string := EmptyString.

Definition c_statements (i n : nat) : list (Label (Call := CCall) (Change := CChange)) := replicate n (LStatement i wc_now).
(** Two acquisitions: the first takes the only probe, the second waits for its commit. *)
Definition wc_first : list Label := [LBegin 0 (CcAcquire (wc_request 5%N)); LBegin 1 (CcAcquire (wc_request 6%N))] ++ c_statements 0 8.
Definition wc_second : list Label := wc_first ++ [LCommit 0] ++ c_statements 1 9.
Abbreviation wc_run ls := (sys_run (c_program ca_AttemptID wc_options wc_parse wc_string) c_change c_may_call ls {| sy_db := wc_db; sy_txs := ∅ |}).
Abbreviation wc_step := (sys_step (c_program ca_AttemptID wc_options wc_parse wc_string) c_change c_may_call).

Lemma wc_db_ok : c_inv wc_options ∅ wc_db.
Proof.
  intros b. split; cbn.
  - intros id p. by rewrite lookup_empty.
  - by vm_compute.
  - intros id f. by rewrite lookup_empty.
  - intros _ s [_ <-]%lookup_singleton_Some. done.
  - intros _ s r [_ <-]%lookup_singleton_Some [_ <-]%lookup_singleton_Some. done.
Qed.

Definition wc_permit : ProbeIdentity :=
  {| pi_PermitID := 5%N; pi_Backend := ca_Backend (wc_request 5%N); pi_Generation := 5; pi_ReplicaID := 9%N; pi_ExpiresAt := GoTime.Add wc_now (10 * GoTime.Second);
     pi_TTL := 10 * GoTime.Second |}.

Definition wc_decision : CircuitDecision :=
  c_permitted {| cs_Backend := ca_Backend (wc_request 5%N); cs_State := CircuitHalfOpen; cs_Generation := 5; cs_FailureCount := 0; cs_RetryAt := GoTime.zero;
                 cs_ProbesInFlight := 1; cs_Available := false |} (Some wc_permit).

Lemma wc_first_commits : (s ← wc_run wc_first; committing 0 s) = Some (CcAcquire (wc_request 5%N), CaAcquired (inr wc_decision)).
Proof. vm_compute. reflexivity. Qed.

Definition refused_for (a : option (CCall * CAnswer)) : option Reason :=
  match a with Some (CcAcquire _, CaAcquired (inr d)) => match cd_Permit d with None => Some (cd_Reason d) | Some _ => None end | _ => None end.

Lemma wc_second_refused : (s ← wc_run wc_second; refused_for (committing 1 s)) = Some ReasonProbeCapacityExhausted.
Proof. vm_compute. reflexivity. Qed.

Lemma wc_reaches ls i ca : (s ← wc_run ls; committing i s) = Some ca -> exists s s', wc_run ls = Some s /\ committing i s = Some ca /\ wc_step (LCommit i) s = Some s'.
Proof.
  destruct (wc_run ls) as [s|]; cbn; [|done]. destruct ca as [c a]. intros Hc.
  destruct (committing_step (c_program ca_AttemptID wc_options wc_parse wc_string) c_change c_may_call i s c a Hc) as [s' Hs]. by exists s, s'.
Qed.

Lemma pg_circuit_consistent_witness : exists s, wc_run wc_second = Some s /\ refused_for (committing 1 s) = Some ReasonProbeCapacityExhausted /\
  Z.of_nat (size (probes_where (live_of 2) (sy_db s))) <= 1.
Proof.
  pose proof wc_second_refused as Hr. destruct (wc_run wc_second) as [s|] eqn:Hrun; [|discriminate Hr]. exists s. split; [reflexivity|]. split; [exact Hr|].
  exact (proj1 (proj2 (pg_circuit_consistent ca_AttemptID wc_options wc_parse wc_string eq_refl _ _ _ 2 wc_db_ok Hrun))).
Defined.

Lemma pg_circuit_admits_witness : exists s s', wc_run wc_first = Some s /\ wc_step (LCommit 0) s = Some s' /\
  (probe_post wc_options (wc_request 5%N) wc_permit (sy_db s) (sy_db s') \/ permit_again ca_AttemptID (wc_request 5%N) wc_permit (sy_db s) (sy_db s')).
Proof.
  destruct (wc_reaches _ _ _ wc_first_commits) as (s & s' & Hrun & Hc & Hs). exists s, s'. split; [exact Hrun|]. split; [exact Hs|].
  exact (pg_circuit_admits ca_AttemptID wc_options wc_parse wc_string eq_refl _ _ _ _ _ _ _ wc_db_ok Hrun Hc Hs eq_refl).
Defined.

Lemma wc_first_open : (s ← wc_run wc_first; cd_States (sy_db s) !! 2) =
  Some {| cw_Revision := 1; cw_State := CircuitOpen; cw_Generation := 4; cw_OpenedAt := Some (wc_now - GoTime.Minute); cw_Succeeded := false |}.
Proof. vm_compute. reflexivity. Qed.

Lemma pg_circuit_generations_witness : exists s s' st', wc_run wc_first = Some s /\ wc_step (LCommit 0) s = Some s' /\ cd_States (sy_db s') !! 2 = Some st' /\
  (4 < cw_Generation st' \/ cw_Generation st' = 4 /\ cw_State st' = CircuitOpen /\ cw_Revision st' = 1 /\ cw_OpenedAt st' = Some (wc_now - GoTime.Minute)).
Proof.
  destruct (wc_reaches _ _ _ wc_first_commits) as (s & s' & Hrun & Hc & Hs). pose proof wc_first_open as Ho. rewrite Hrun in Ho.
  destruct (pg_circuit_generations ca_AttemptID wc_options wc_parse wc_string eq_refl _ _ _ _ _ _ _ 2 _ wc_db_ok Hrun Hc Hs Ho) as (st' & Hst & Hl).
  exists s, s', st'. split; [exact Hrun|]. split; [exact Hs|]. split; [exact Hst|exact Hl].
Defined.

End Witnesses.
