(* ===== verification/PgCoordinators.v ===== *)
(** The PostgreSQL coordinators around their transactions
    ([src/internal/coordination/postgres/admission.go], [circuit.go], [tokenization.go],
    [failure_observer.go], [cleanup.go]): which errors are retried, which are permanent, what
    the health that [Status] shows becomes, what a batch that fails half way returns; and the
    metrics wrapper ([src/internal/coordination/observed.go]).

    What the database answers to an operation is an argument of the operation: any answer
    can come at any time.  [Pg], [PgAdmission], [PgTokenization] and [PgCircuit] say what the
    transactions do.  The driver's error types are parameters: [pg_code] is the code of the
    [*pgconn.PgError] in the error, [canceled] and [deadline] are [errors.Is] of the two
    context errors, [safe_to_retry] is [pgconn.SafeToRetry]. *)

From S2P Require Import Prelude Domain Coordination Tokenization.

Section Coordinators.
Context (pg_code : Error -> option string) (canceled deadline safe_to_retry : Error -> bool).

(** ** Errors *)

Definition code_class (code : string) : string := String.substring 0 2 code.

Definition retryableCoordinationError (err : Error) : bool :=
  match pg_code err with
  | Some code => bool_decide (code = "40001") || bool_decide (code = "40P01") || (2 <=? String.length code)%nat && bool_decide (code_class code = "08")
  | None => safe_to_retry err
  end.

Definition permanentCoordinationError (err : Error) : bool :=
  if AsPermanent err then true
  else if bool_decide (is_Some (AsReason err)) || canceled err || deadline err then false
  else match pg_code err with
       | Some code => negb (String.length code <? 2)%nat && bool_decide (code_class code ∈ ["22"; "23"; "42"; "XX"])
       | None => false
       end.

(** [done]: the caller's context has ended. *)
Definition IsCallerCancellation (done : bool) (err : Error) : bool :=
  if negb done || AsPermanent err then false else canceled err || deadline err.

(** ** Health *)

(** What the failure observer is told. *)
Inductive Report := ReportUnavailable | ReportPermanent.

Record Health := { hl_Status : Status; hl_Reports : list Report }.

Definition setStatus (ok : bool) (reason : Reason) (now : Time) (h : Health) : Health :=
  let status := hl_Status h in
  if st_Permanent status then h
  else
    {| hl_Status := {| status with st_Available := ok; st_Degraded := negb ok; st_Reason := reason;
                                   st_LastSuccess := if ok then now else st_LastSuccess status |};
       hl_Reports := if ok then hl_Reports h else hl_Reports h ++ [ReportUnavailable] |}.

Definition setPermanent (h : Health) : Health :=
  let status := hl_Status h in
  {| hl_Status := {| status with st_Available := false; st_Degraded := false; st_Permanent := true; st_Reason := ReasonCoordinationUnavailable |};
     hl_Reports := hl_Reports h ++ [ReportPermanent] |}.

Definition recordCoordinationError (done : bool) (err : Error) (now : Time) (h : Health) : Error * Health :=
  if IsCallerCancellation done err then (err, h)
  else if bool_decide (is_Some (AsReason err)) then (err, h)
  else if permanentCoordinationError err
  then (if AsPermanent err then err else PermanentError (Some err), setPermanent h)
  else (err, setStatus false ReasonCoordinationUnavailable now h).

(** [for attempt := 0; attempt < 2; attempt++]: the outcome of the loop. *)
Definition try_twice {A : Type} (retry : A -> bool) (attempt : nat -> A) (ctx_done : nat -> bool) : A :=
  let first := attempt 0%nat in
  if negb (retry first) || ctx_done 0%nat then first else attempt 1%nat.

Definition is_retryable {A : Type} (r : Error + A) : bool := match r with inl err => retryableCoordinationError err | inr _ => false end.

(** ** Admission *)

Record AdmissionCoordinator := { ac_Health : Health; ac_Inflight : gmap Z Z }.

Definition NewAdmissionCoordinator : AdmissionCoordinator :=
  {| ac_Health := {| hl_Status := {| st_Backend := "postgres"; st_Available := true; st_Degraded := false; st_Permanent := false;
                                     st_LastSuccess := GoTime.zero; st_Reason := ReasonNone |}; hl_Reports := [] |};
     ac_Inflight := ∅ |}.

Definition PoolInflight (pool : Z) (c : AdmissionCoordinator) : Z := default 0 (ac_Inflight c !! pool).

Definition on_health (f : Health -> Health) (c : AdmissionCoordinator) : AdmissionCoordinator := {| c with ac_Health := f (ac_Health c) |}.

Definition record_admission (done : bool) (err : Error) (now : Time) (c : AdmissionCoordinator) : Error * AdmissionCoordinator :=
  let '(err, h) := recordCoordinationError done err now (ac_Health c) in (err, {| c with ac_Health := h |}).

(** [counts]: the live leases of each pool, or the error of the query. *)
Definition RefreshInflight (done : bool) (counts : Error + gmap Z Z) (now : Time) (c : AdmissionCoordinator) : option Error * AdmissionCoordinator :=
  match counts with
  | inl err => let '(err, c) := record_admission done err now c in (Some err, c)
  | inr next => (None, on_health (setStatus true ReasonNone now) {| c with ac_Inflight := next |})
  end.

(** The end of an operation that succeeded. *)
Definition refreshed (done : bool) (counts : Error + gmap Z Z) (now : Time) (c : AdmissionCoordinator) : AdmissionCoordinator :=
  (RefreshInflight done counts now (on_health (setStatus true ReasonNone now) c)).2.

Definition AdmissionAcquire (done : bool) (acquire : nat -> Error + AdmissionDecision) (ctx_done : nat -> bool) (counts : Error + gmap Z Z) (now : Time)
    (c : AdmissionCoordinator) : (AdmissionDecision * option Error) * AdmissionCoordinator :=
  match try_twice is_retryable acquire ctx_done with
  | inl err => let '(err, c) := record_admission done err now c in (refused ReasonCoordinationUnavailable, Some err, c)
  | inr d => (d, None, refreshed done counts now c)
  end.

Definition renewalBatchSize : nat := 256.

(** [for start := 0; start < len(leases); start += renewalBatchSize]; [fuel] is at least the
    number of leases. *)
Fixpoint renewal_batches (fuel : nat) (leases : list LeaseIdentity) : list (list LeaseIdentity) :=
  match fuel, leases with
  | S fuel, _ :: _ => take renewalBatchSize leases :: renewal_batches fuel (drop renewalBatchSize leases)
  | _, _ => []
  end.

(** The results of the batches, up to the first that fails; [renew i] answers batch [i]. *)
Fixpoint renew_batches (batches : list (list LeaseIdentity)) (renew : nat -> list LeaseIdentity -> Error + list RenewResult) (i : nat) (out : list RenewResult)
    : list RenewResult * option Error :=
  match batches with
  | [] => (out, None)
  | batch :: batches =>
    match renew i batch with
    | inl err => (out, Some err)
    | inr results => renew_batches batches renew (S i) (out ++ results)
    end
  end.

Definition AdmissionRenew (done : bool) (leases : list LeaseIdentity) (renew : nat -> list LeaseIdentity -> Error + list RenewResult) (counts : Error + gmap Z Z)
    (now : Time) (c : AdmissionCoordinator) : (list RenewResult * option Error) * AdmissionCoordinator :=
  match renew_batches (renewal_batches (length leases) leases) renew 0 [] with
  | (out, Some err) => let '(err, c) := record_admission done err now c in (out, Some err, c)
  | (out, None) => (out, None, refreshed done counts now c)
  end.

(** The results of the items before the first that fails. *)
Fixpoint complete_items (items : list LeaseCompletion) (completeOne : nat -> LeaseCompletion -> Error + CompleteResult) (i : nat) : list CompleteResult * option Error :=
  match items with
  | [] => ([], None)
  | item :: items =>
    match completeOne i item with
    | inl err => ([], Some err)
    | inr r => let '(out, err) := complete_items items completeOne (S i) in (r :: out, err)
    end
  end.

Definition AdmissionComplete (done : bool) (items : list LeaseCompletion) (completeOne : nat -> LeaseCompletion -> Error + CompleteResult) (counts : Error + gmap Z Z)
    (now : Time) (c : AdmissionCoordinator) : (list CompleteResult * option Error) * AdmissionCoordinator :=
  match complete_items items completeOne 0 with
  | (out, Some err) => let '(err, c) := record_admission done err now c in (out, Some err, c)
  | (out, None) => (out, None, refreshed done counts now c)
  end.

(** [items]: how many leases had expired; [expired] and [receipts]: the two transactions. *)
Definition AdmissionCleanupBatch (done : bool) (batch : Z) (items : Error + Z) (expired : option Error) (receipts : Error + bool) (now : Time)
    (c : AdmissionCoordinator) : (bool * option Error) * AdmissionCoordinator :=
  let batch := if (batch <=? 0) || (1000 <? batch) then 256 else batch in
  let failed err := let '(err, c) := record_admission done err now c in (false, Some err, c) in
  match items with
  | inl err => failed err
  | inr n =>
    match if 0 <? n then expired else None with
    | Some err => failed err
    | None =>
      match receipts with
      | inl err => let '(err, c) := record_admission done err now c in (n =? batch, Some err, c)
      | inr receiptsFull => ((n =? batch) || receiptsFull, None, c)
      end
    end
  end.

(** ** Circuit *)

Record CircuitCoordinator := { xc_Health : Health; xc_Cache : gmap Z CircuitSnapshot }.

Definition on_circuit (f : Health -> Health) (c : CircuitCoordinator) : CircuitCoordinator := {| c with xc_Health := f (xc_Health c) |}.

Definition record_circuit (done : bool) (err : Error) (now : Time) (c : CircuitCoordinator) : Error * CircuitCoordinator :=
  let '(err, h) := recordCoordinationError done err now (xc_Health c) in (err, {| c with xc_Health := h |}).

(** A backend that is not in the cache is not available. *)
Definition Snapshot (b : Z) (c : CircuitCoordinator) : CircuitSnapshot :=
  match xc_Cache c !! b with
  | Some snapshot => snapshot
  | None => {| cs_Backend := {| bi_ID := b; bi_Revision := 0; bi_Enabled := false; bi_Draining := false |}; cs_State := CircuitOpen; cs_Generation := 0;
               cs_FailureCount := 0; cs_RetryAt := GoTime.zero; cs_ProbesInFlight := 0; cs_Available := false |}
  end.

(** [read]: the snapshots of the table, or the error of [reconcileRefreshStates] or the
    query.  The status is written without a look at [Permanent]. *)
Definition CircuitRefresh (done : bool) (read : Error + gmap Z CircuitSnapshot) (now : Time) (c : CircuitCoordinator) : option Error * CircuitCoordinator :=
  match read with
  | inl err => let '(err, c) := record_circuit done err now c in (Some err, c)
  | inr next =>
    let status := hl_Status (xc_Health c) in
    (None, {| xc_Health := {| hl_Status := {| status with st_Available := true; st_Degraded := false; st_Reason := ReasonNone; st_LastSuccess := now |};
                              hl_Reports := hl_Reports (xc_Health c) |};
              xc_Cache := next |})
  end.

Definition circuit_refreshed (done : bool) (read : Error + gmap Z CircuitSnapshot) (now : Time) (c : CircuitCoordinator) : CircuitCoordinator :=
  (CircuitRefresh done read now (on_circuit (setStatus true ReasonNone now) c)).2.

(** An attempt: the read without locks, and the transaction when it does not handle the
    call.  The answer is the decision, whether the read handled it, and the error. *)
Definition circuit_attempt {A : Type} (zero : A) (fast : Error + option (A * option Error)) (slow : A * option Error) : A * bool * option Error :=
  match fast with
  | inl err => (zero, false, Some err)
  | inr (Some (a, err)) => (a, true, err)
  | inr None => let '(a, err) := slow in (a, false, err)
  end.

Definition attempt_retryable {A : Type} (r : A * bool * option Error) : bool := match r.2 with Some err => retryableCoordinationError err | None => false end.

Definition circuit_call {A : Type} (zero unavailable : A) (keep : bool) (done : bool) (fast : nat -> Error + option (A * option Error)) (slow : nat -> A * option Error)
    (ctx_done : nat -> bool) (read : Error + gmap Z CircuitSnapshot) (now : Time) (c : CircuitCoordinator) : (A * option Error) * CircuitCoordinator :=
  let '(a, handled, err) := try_twice attempt_retryable (fun i => circuit_attempt zero (fast i) (slow i)) ctx_done in
  match err with
  | Some err =>
    if bool_decide (is_Some (AsReason err)) then (a, Some err, if handled then c else on_circuit (setStatus true ReasonNone now) c)
    else let '(err, c) := record_circuit done err now c in (if keep then a else unavailable, Some err, c)
  | None => if handled then (a, None, c) else (a, None, circuit_refreshed done read now c)
  end.

Definition no_decision (reason : Reason) : CircuitDecision := {| cd_Snapshot := None; cd_Permit := None; cd_Reason := reason |}.

Definition CircuitAcquire := circuit_call (no_decision ReasonNone) (no_decision ReasonCoordinationUnavailable) false.

Definition CircuitComplete (zero : CircuitSnapshot) := circuit_call zero zero true.

Definition CircuitRenewProbes (done : bool) (renewed : Error + list RenewResult) (read : Error + gmap Z CircuitSnapshot) (now : Time) (c : CircuitCoordinator)
    : (list RenewResult * option Error) * CircuitCoordinator :=
  match renewed with
  | inl err => let '(err, c) := record_circuit done err now c in ([], Some err, c)
  | inr results => (results, None, circuit_refreshed done read now c)
  end.

Definition CircuitReconcile (done : bool) (committed : option Error) (read : Error + gmap Z CircuitSnapshot) (now : Time) (c : CircuitCoordinator) : option Error * CircuitCoordinator :=
  match committed with
  | Some err => let '(err, c) := record_circuit done err now c in (Some err, c)
  | None =>
    match CircuitRefresh done read now c with
    | (Some err, c) => let '(err, c) := record_circuit done err now c in (Some err, c)
    | (None, c) => (None, c)
    end
  end.

Definition CircuitCleanupBatch (done : bool) (cleaned : Error + bool) (now : Time) (c : CircuitCoordinator) : (bool * option Error) * CircuitCoordinator :=
  match cleaned with
  | inl err => let '(err, c) := record_circuit done err now c in (false, Some err, c)
  | inr more => (more, None, c)
  end.

(** ** Tokenization *)

Definition observe (err : option Error) (now : Time) (s : Status) : Status :=
  {| s with st_Available := bool_decide (err = None); st_Degraded := negb (bool_decide (err = None));
            st_LastSuccess := match err with None => now | Some _ => st_LastSuccess s end |}.

Definition NewTokenizationStatus (policy : TokenizationPolicy) : Status :=
  {| st_Backend := "postgres"; st_Available := Validate policy; st_Degraded := false; st_Permanent := false; st_LastSuccess := GoTime.zero; st_Reason := ReasonNone |}.

Definition TokenizationAcquire (policy : TokenizationPolicy) (acquire : nat -> TokenizationDecision * option Error) (ctx_done : nat -> bool) (now : Time) (s : Status)
    : (TokenizationDecision * option Error) * Status :=
  if negb (Validate policy) then ({| td_Lease := None; td_Reason := TokenizationUnavailable; td_RetryAt := None |}, None, s)
  else
    let r := try_twice (fun r => bool_decide (is_Some r.2)) acquire ctx_done in
    (r, observe r.2 now s).

Definition TokenizationComplete (completed : option Error) (now : Time) (s : Status) : option Error * Status := (completed, observe completed now s).

Definition TokenizationCleanupBatch (limit : Z) (leases ops rates : Error + Z) (now : Time) (s : Status) : (bool * option Error) * Status :=
  let limit := if (limit <? 1) || (1000 <? limit) then 1000 else limit in
  match leases with
  | inl err => (false, Some err, observe (Some err) now s)
  | inr n =>
    match ops with
    | inl err => (false, Some err, observe (Some err) now s)
    | inr m =>
      let err := match rates with inl err => Some err | inr _ => None end in
      ((n =? limit) || (m =? limit), err, observe err now s)
    end
  end.

(** ** Metrics *)

(** [observeCoordinationFailure]: the error the observer is told. *)
Definition observeCoordinationFailure (done : bool) (err : option Error) : option Error :=
  match err with
  | None => None
  | Some err => if IsCallerCancellation done err || bool_decide (is_Some (AsReason err)) then None else Some err
  end.

Definition operationReason (err : option Error) : Reason := match err with Some err => default ReasonNone (AsReason err) | None => ReasonNone end.

Definition operationOutcome (reason : Reason) (err : option Error) : string :=
  let '(reason, err) := match err with
                        | Some e => match AsReason e with Some r => (r, None) | None => (reason, Some e) end
                        | None => (reason, None)
                        end in
  match err with
  | Some e => if deadline e || canceled e then "timeout" else "unavailable"
  | None =>
    match reason with
    | ReasonNone => "success"
    | ReasonStaleBackend | ReasonStaleConfiguration | ReasonStaleOperation => "stale"
    | ReasonIdempotencyConflict => "conflict"
    | _ => "rejected"
    end
  end.

(** ** A permanent fault is final *)

(** The operations of the admission coordinator, with any answers of the database. *)
Inductive AdmissionStep : AdmissionCoordinator -> AdmissionCoordinator -> Prop :=
| AsAcquire done acquire ctx_done counts now c : AdmissionStep c (AdmissionAcquire done acquire ctx_done counts now c).2
| AsRenew done leases renew counts now c : AdmissionStep c (AdmissionRenew done leases renew counts now c).2
| AsComplete done items completeOne counts now c : AdmissionStep c (AdmissionComplete done items completeOne counts now c).2
| AsRefresh done counts now c : AdmissionStep c (RefreshInflight done counts now c).2
| AsCleanup done batch items expired receipts now c : AdmissionStep c (AdmissionCleanupBatch done batch items expired receipts now c).2.

(** What [Status] may show: a permanent fault is neither available nor degraded, and has
    been reported; otherwise exactly one of available and degraded. *)
Definition health_ok (h : Health) : Prop :=
  if st_Permanent (hl_Status h) then st_Available (hl_Status h) = false /\ st_Degraded (hl_Status h) = false /\ ReportPermanent ∈ hl_Reports h
  else st_Degraded (hl_Status h) = negb (st_Available (hl_Status h)).

Definition health_step (h h' : Health) : Prop :=
  (health_ok h -> health_ok h') /\ (st_Permanent (hl_Status h) = true -> st_Permanent (hl_Status h') = true) /\ hl_Reports h `prefix_of` hl_Reports h'.

Lemma health_step_refl h : health_step h h.
Proof. by split_and!. Qed.

Lemma health_step_trans h1 h2 h3 : health_step h1 h2 -> health_step h2 h3 -> health_step h1 h3.
Proof. intros (A1 & A2 & A3) (B1 & B2 & B3). split_and!; [auto|auto|by etransitivity]. Qed.

Lemma setStatus_step ok reason now h : health_step h (setStatus ok reason now h).
Proof.
  unfold setStatus. destruct (st_Permanent (hl_Status h)) eqn:Hp; [apply health_step_refl|]. split_and!; cbn; [|by rewrite Hp|destruct ok; [done|by apply prefix_app_r]].
  unfold health_ok. cbn. by rewrite Hp.
Qed.

Lemma setPermanent_step h : health_step h (setPermanent h).
Proof. split_and!; cbn; [|done|by apply prefix_app_r]. intros _. split_and!; [done|done|]. cbn. set_solver. Qed.

Lemma record_step done err now h : health_step h (recordCoordinationError done err now h).2.
Proof. unfold recordCoordinationError. repeat case_match; cbn; first [apply health_step_refl|apply setPermanent_step|apply setStatus_step]. Qed.

Lemma record_admission_step done err now c : health_step (ac_Health c) (ac_Health (record_admission done err now c).2).
Proof. unfold record_admission. pose proof (record_step done err now (ac_Health c)) as Hr. by destruct (recordCoordinationError _ _ _ _). Qed.

Lemma RefreshInflight_step done counts now c : health_step (ac_Health c) (ac_Health (RefreshInflight done counts now c).2).
Proof.
  unfold RefreshInflight. destruct counts as [err|next]; [|apply setStatus_step]. pose proof (record_admission_step done err now c). by destruct (record_admission _ _ _ _).
Qed.

Lemma refreshed_step done counts now c : health_step (ac_Health c) (ac_Health (refreshed done counts now c)).
Proof. eapply health_step_trans; [apply (setStatus_step true ReasonNone now)|]. exact (RefreshInflight_step done counts now (on_health (setStatus true ReasonNone now) c)). Qed.

Lemma admission_step_health c c' : AdmissionStep c c' -> health_step (ac_Health c) (ac_Health c').
Proof.
  assert (Hrec : forall done err now c, health_step (ac_Health c) (ac_Health (record_admission done err now c).2)) by apply record_admission_step.
  intros []; unfold AdmissionAcquire, AdmissionRenew, AdmissionComplete, AdmissionCleanupBatch; cbv zeta;
    repeat match goal with
    | |- context [record_admission ?a ?b ?n ?x] => specialize (Hrec a b n x); destruct (record_admission a b n x); cbn; exact Hrec
    | |- context [RefreshInflight] => apply RefreshInflight_step
    | |- context [refreshed] => apply refreshed_step
    | |- health_step ?h ?h => apply health_step_refl
    | _ => case_match; cbn [snd]
    end.
Qed.

(** The health of the admission coordinator, whatever the database answers and in any
    order of operations: a permanent fault is final, it is not available and not degraded
    again and the observer has been told of it; without a fault the coordinator is degraded
    exactly when it is not available. *)
Theorem pg_fault_is_final c c' : rtc AdmissionStep NewAdmissionCoordinator c -> rtc AdmissionStep c c' ->
  health_ok (ac_Health c') /\ (st_Permanent (hl_Status (ac_Health c)) = true ->
    st_Permanent (hl_Status (ac_Health c')) = true /\ st_Available (hl_Status (ac_Health c')) = false /\ ReportPermanent ∈ hl_Reports (ac_Health c)).
Proof.
  assert (Hall : forall c c', rtc AdmissionStep c c' -> health_step (ac_Health c) (ac_Health c')).
  { induction 1 as [|c0 c1 c2 Hs _ IH]; [apply health_step_refl|]. eapply health_step_trans; [by apply admission_step_health|done]. }
  intros H1%Hall H2%Hall. assert (Hok : health_ok (ac_Health c)) by (by apply H1). assert (Hok' : health_ok (ac_Health c')) by (by apply H2).
  split; [done|]. intros Hp. pose proof (proj1 (proj2 H2) Hp) as Hp'. unfold health_ok in Hok, Hok'. rewrite Hp in Hok. rewrite Hp' in Hok'. naive_solver.
Qed.

(** The circuit coordinator keeps the fault, but a refresh that succeeds shows it as
    available. *)
Lemma refresh_after_fault done next now c : st_Permanent (hl_Status (xc_Health c)) = true ->
  let c' := (CircuitRefresh done (inr next) now c).2 in
  st_Permanent (hl_Status (xc_Health c')) = true /\ st_Available (hl_Status (xc_Health c')) = true.
Proof. by intros Hp. Qed.

(** ** Batches *)

Abbreviation lease_ids := (fmap (M := list) li_LeaseID).
Abbreviation result_ids := (fmap (M := list) (fun r => li_LeaseID (rr_Lease r))).

Lemma renewal_batches_concat fuel leases : (length leases <= fuel)%nat -> concat (renewal_batches fuel leases) = leases.
Proof.
  revert leases. induction fuel as [|fuel IH]; intros [|l leases] Hf; cbn [length renewal_batches] in *; [done|lia|done|]. cbn [concat]. rewrite IH; [apply take_drop|].
  rewrite length_drop. cbn [length]. unfold renewalBatchSize. lia.
Qed.

Lemma renewal_batches_small fuel leases batch : batch ∈ renewal_batches fuel leases -> (0 < length batch <= renewalBatchSize)%nat.
Proof.
  revert leases. induction fuel as [|fuel IH]; intros [|l leases]; cbn [renewal_batches]; try (by intros ?%not_elem_of_nil).
  intros [->|Hin]%elem_of_cons; [|by eapply IH]. rewrite length_take. cbn [length]. unfold renewalBatchSize. lia.
Qed.

Lemma renew_batches_prefix batches renew i out : (forall i batch results, renew i batch = inr results -> result_ids results = lease_ids batch) ->
  exists k, result_ids (renew_batches batches renew i out).1 = result_ids out ++ take k (lease_ids (concat batches)) /\
    match (renew_batches batches renew i out).2 with
    | None => (length (concat batches) <= k)%nat
    | Some err => exists j batch, batches !! j = Some batch /\ renew (i + j)%nat batch = inl err /\ k = length (concat (take j batches))
    end.
Proof.
  intros Hr. revert i out. induction batches as [|batch batches IH]; intros i out; cbn [renew_batches concat].
  { exists 0%nat. cbn. by rewrite app_nil_r. }
  destruct (renew i batch) as [err|results] eqn:Hb.
  - exists 0%nat. cbn. rewrite app_nil_r. split; [done|]. exists 0%nat, batch. rewrite Nat.add_0_r. done.
  - destruct (IH (S i) (out ++ results)) as (k & Hk & He). exists (length batch + k)%nat. split.
    + rewrite Hk, fmap_app, (Hr _ _ _ Hb), fmap_app, <- app_assoc. f_equal. rewrite take_app_add'; [done|]. by rewrite length_fmap.
    + destruct (renew_batches _ _ _ _).2 as [err|]; [|rewrite length_app; lia]. destruct He as (j & batch' & Hj & Herr & ->). exists (S j), batch'.
      split_and!; [done|by rewrite Nat.add_succ_r|]. cbn [take concat]. by rewrite length_app.
Qed.

(** A renewal that fails half way returns the results of the batches that committed: for a
    prefix of the leases, in their order, that ends with a whole batch. *)
Theorem renew_returns_prefix done leases renew counts now c : (forall i batch results, renew i batch = inr results -> result_ids results = lease_ids batch) ->
  let '(out, err, _) := AdmissionRenew done leases renew counts now c in
  exists k, result_ids out = take k (lease_ids leases) /\ (err = None -> result_ids out = lease_ids leases).
Proof.
  intros Hr. unfold AdmissionRenew. destruct (renew_batches_prefix (renewal_batches (length leases) leases) renew 0 [] Hr) as (k & Hk & He).
  rewrite renewal_batches_concat in Hk, He by done. destruct (renew_batches _ _ _ _) as [out [err|]]; cbn in Hk, He |- *.
  - destruct (record_admission _ _ _ _). by exists k.
  - exists k. split; [done|]. intros _. rewrite Hk. apply take_ge. by rewrite length_fmap.
Qed.

End Coordinators.

Section Witnesses.

(** The code of a constraint that is violated. *)
Definition wf_code (err : Error) : option string := match err with ErrOpaque "constraint" => Some "23505" | _ => None end.
Definition wf_acquire (_ : nat) : Error + AdmissionDecision := inl (ErrOpaque "constraint").
Definition wf_faulted : AdmissionCoordinator :=
  (AdmissionAcquire wf_code (fun _ => false) (fun _ => false) (fun _ => false) false wf_acquire (fun _ => false) (inr ∅) 5 NewAdmissionCoordinator).2.

Lemma pg_fault_is_final_witness : st_Permanent (hl_Status (ac_Health wf_faulted)) = true /\
  forall c', rtc (AdmissionStep wf_code (fun _ => false) (fun _ => false) (fun _ => false)) wf_faulted c' -> st_Available (hl_Status (ac_Health c')) = false.
Proof.
  split; [reflexivity|]. intros c' Hc.
  assert (H0 : rtc (AdmissionStep wf_code (fun _ => false) (fun _ => false) (fun _ => false)) NewAdmissionCoordinator wf_faulted) by (apply rtc_once; apply AsAcquire).
  exact (proj1 (proj2 (proj2 (pg_fault_is_final _ _ _ _ _ _ H0 Hc) eq_refl))).
Defined.

End Witnesses.
