(* ===== verification/PgReplica.v ===== *)
(** The registration and the heartbeats of the replicas
    ([src/internal/coordination/postgres/replica.go]): replicas with different coordination
    policies are never alive at the same time.

    A heartbeat is a SERIALIZABLE transaction: it takes effect at one point, on the table it
    finds there, or not at all.  The clock gives any time to any heartbeat.  The fingerprint
    of the policy is a value; the columns of the table that nothing reads are left out. *)

From S2P Require Import Prelude Domain Coordination CircuitBreaker Tokenization Pg PgCoordinators.

Definition CoordinationContractVersion : Z := 3.
Definition RateAlgorithmVersion : Z := 1.

Record ReplicaPolicy := {
  rp_LeaseTTL : Duration;
  rp_LeaseRenewInterval : Duration;
  rp_Circuit : Options;
  rp_RateAlgorithm : Z;
  rp_ContractVersion : Z;
  rp_Tokenization : TokenizationPolicy
}.

Section Replica.
Context {FP : Type} `{!EqDecision FP} (hash : ReplicaPolicy -> FP).
Context (pg_code : Error -> option string) (canceled deadline : Error -> bool).
Abbreviation permanentCoordinationError := (permanentCoordinationError pg_code canceled deadline).

(** The versions of this binary stand for a zero. *)
Definition PolicyFingerprint (policy : ReplicaPolicy) : FP :=
  hash {| policy with rp_RateAlgorithm := if rp_RateAlgorithm policy =? 0 then RateAlgorithmVersion else rp_RateAlgorithm policy;
                      rp_ContractVersion := if rp_ContractVersion policy =? 0 then CoordinationContractVersion else rp_ContractVersion policy |}.

(** [coordination_replicas] *)
Record ReplicaRow := { rw_HeartbeatAt : Time; rw_ExpiresAt : Time; rw_Fingerprint : FP }.

Abbreviation Table := (gmap UUID ReplicaRow).

Record ReplicaManager := {
  rm_ReplicaID : UUID;
  rm_Policy : ReplicaPolicy;
  rm_Fingerprint : FP;
  rm_Interval : Duration;
  rm_Timeout : Duration;
  rm_Status : Status;
  rm_Active : Z;
  rm_Incompatible : bool
}.

Definition replica_status (available permanent : bool) (last : Time) (reason : Reason) : Status :=
  {| st_Backend := "postgres"; st_Available := available; st_Degraded := false; st_Permanent := permanent; st_LastSuccess := last; st_Reason := reason |}.

Definition NewReplicaManager (id : UUID) (policy : ReplicaPolicy) (timeout : Duration) : ReplicaManager :=
  {| rm_ReplicaID := id; rm_Policy := policy; rm_Fingerprint := PolicyFingerprint policy;
     rm_Interval := if rp_LeaseRenewInterval policy <=? 0 then 30 * GoTime.Second else rp_LeaseRenewInterval policy;
     rm_Timeout := if timeout <=? 0 then 500 * GoTime.Millisecond else timeout;
     rm_Status := replica_status false false GoTime.zero ReasonNone; rm_Active := 0; rm_Incompatible := false |}.

Definition ActiveCompatibleReplicas (m : ReplicaManager) : Z := rm_Active m.
Definition Compatible (m : ReplicaManager) : bool := negb (rm_Incompatible m).

(** The live rows of other replicas with another fingerprint. *)
Definition others_incompatible (m : ReplicaManager) (now : Time) (t : Table) : Table :=
  filter (fun '(id, r) => id <> rm_ReplicaID m /\ now < rw_ExpiresAt r /\ rw_Fingerprint r <> rm_Fingerprint m) t.

Definition heartbeat_ttl (m : ReplicaManager) : Duration := if rp_LeaseTTL (rm_Policy m) <=? 0 then 90 * GoTime.Second else rp_LeaseTTL (rm_Policy m).

Definition heartbeat_row (m : ReplicaManager) (now : Time) : ReplicaRow :=
  {| rw_HeartbeatAt := now; rw_ExpiresAt := timestamptz (GoTime.Add now (heartbeat_ttl m)); rw_Fingerprint := rm_Fingerprint m |}.

(** The row of the replica, written by a registration or a heartbeat; [None] when the
    registration is lost. *)
Definition write_row (registration : bool) (m : ReplicaManager) (now : Time) (t : Table) : option Table :=
  if registration then Some (<[rm_ReplicaID m := heartbeat_row m now]> t)
  else
    r ← t !! rm_ReplicaID m;
    if bool_decide (rw_Fingerprint r = rm_Fingerprint m) then Some (<[rm_ReplicaID m := heartbeat_row m now]> t) else None.

Definition active_count (m : ReplicaManager) (now : Time) (t : Table) : Z :=
  Z.of_nat (size (filter (fun '(_, r) => now < rw_ExpiresAt r /\ rw_Fingerprint r = rm_Fingerprint m) t)).

(** What the database does with one attempt: an error that leaves the table alone, an error
    of the commit, which may have happened, or the transaction at the time [now]. *)
Inductive Attempt := AtFails (err : Error) | AtLostCommit (err : Error) (now : Time) (applied : bool) | AtRuns (now : Time).

(** The transaction: the table after it, whether it committed, and the error before the
    commit. *)
Definition heartbeat_tx (registration : bool) (m : ReplicaManager) (now : Time) (t : Table) : Error + Table * Z :=
  if (0 <? size (others_incompatible m now t))%nat then inl (ReasonError ReasonIdempotencyConflict)
  else
    match write_row registration m now t with
    | None => inl (ErrOpaque "replica registration was lost")
    | Some t => inr (t, active_count m now t)
    end.

(** After the commit. *)
Definition settle (active : Z) (last : Time) (m : ReplicaManager) : option Error * ReplicaManager :=
  let m := {| m with rm_Active := active |} in
  if st_Permanent (rm_Status m) then (Some (PermanentError (Some (ErrOpaque "replica coordination fault is permanent for this process"))), m)
  else if rm_Incompatible m then (Some (ReasonError ReasonIdempotencyConflict), m)
  else (None, {| m with rm_Status := replica_status true false last ReasonNone |}).

(** The deferred classification of the error. *)
Definition fault (r : option Error * ReplicaManager) : option Error * ReplicaManager :=
  match r with
  | (Some err, m) =>
    if permanentCoordinationError err
    then (Some (if AsPermanent err then err else PermanentError (Some err)), {| m with rm_Status := replica_status false true GoTime.zero ReasonCoordinationUnavailable |})
    else (Some err, m)
  | r => r
  end.

Definition heartbeatOnce (registration : bool) (attempt : Attempt) (last : Time) (t : Table) (m : ReplicaManager) : Table * (option Error * ReplicaManager) :=
  match attempt with
  | AtFails err => (t, fault (Some err, m))
  | AtLostCommit err now applied =>
    match heartbeat_tx registration m now t with
    | inl _ => (t, fault (Some err, m))
    | inr (t', _) => (if applied then t' else t, fault (Some err, m))
    end
  | AtRuns now =>
    match heartbeat_tx registration m now t with
    | inl (ReasonError r) =>
      (t, fault (Some (ReasonError r), {| m with rm_Incompatible := true; rm_Status := replica_status false false GoTime.zero ReasonIdempotencyConflict |}))
    | inl err => (t, fault (Some err, m))
    | inr (t', active) => (t', fault (settle active last m))
    end
  end.

Definition isSerializationFailure (err : Error) : bool := bool_decide (pg_code err = Some "40001").

(** [failed] *)
Definition failed (m : ReplicaManager) : ReplicaManager :=
  let status := rm_Status m in
  {| m with rm_Status := {| status with st_Available := false; st_Degraded := true; st_Reason := ReasonCoordinationUnavailable |} |}.

(** The error of [heartbeat] and the manager after it. *)
Definition note_failure (r : option Error * ReplicaManager) : option Error * ReplicaManager :=
  match r with
  | (Some err, m) => (Some err, if negb (permanentCoordinationError err) && bool_decide (AsReason err = None) then failed m else m)
  | r => r
  end.

(** [heartbeat] with [retryReplicaHeartbeat]: a second attempt after a serialization
    failure, unless the context has ended with [ctx_err]. *)
Definition heartbeat (registration : bool) (first second : Attempt) (ctx_err : option Error) (last : Time) (t : Table) (m : ReplicaManager)
    : Table * (option Error * ReplicaManager) :=
  match heartbeatOnce registration first last t m with
  | (t1, (Some err, m1)) =>
    if isSerializationFailure err then
      match ctx_err with
      | Some ctx_err => (t1, note_failure (Some ctx_err, m1))
      | None => let '(t2, r) := heartbeatOnce registration second last t1 m1 in (t2, note_failure r)
      end
    else (t1, note_failure (Some err, m1))
  | r => r
  end.

(** ** Replicas with one database *)

Record Cluster := { cu_Table : Table; cu_Managers : gmap UUID ReplicaManager }.

Inductive ClusterLabel :=
| ClStart (id : UUID) (policy : ReplicaPolicy) (timeout : Duration)
| ClStop (id : UUID)
| ClHeartbeat (id : UUID) (registration : bool) (first second : Attempt) (ctx_err : option Error) (last : Time).

(** A process starts with a new manager under its ID, stops, or makes a heartbeat. *)
Definition cluster_step (l : ClusterLabel) (s : Cluster) : option Cluster :=
  match l with
  | ClStart id policy timeout => Some {| s with cu_Managers := <[id := NewReplicaManager id policy timeout]> (cu_Managers s) |}
  | ClStop id => Some {| s with cu_Managers := delete id (cu_Managers s) |}
  | ClHeartbeat id registration first second ctx_err last =>
    m ← cu_Managers s !! id;
    let '(t, (_, m)) := heartbeat registration first second ctx_err last (cu_Table s) m in
    Some {| cu_Table := t; cu_Managers := <[id := m]> (cu_Managers s) |}
  end.

Fixpoint cluster_run (ls : list ClusterLabel) (s : Cluster) : option Cluster :=
  match ls with [] => Some s | l :: ls => s ← cluster_step l s; cluster_run ls s end.

(** ** Properties *)

(** A row is alive from its heartbeat to its expiry. *)
Definition alive (t : Time) (r : ReplicaRow) : Prop := rw_HeartbeatAt r <= t < rw_ExpiresAt r.

Definition table_ok (t : Table) : Prop := forall i j r r' at_, t !! i = Some r -> t !! j = Some r' -> alive at_ r -> alive at_ r' -> rw_Fingerprint r = rw_Fingerprint r'.

Lemma others_none m now t id r : size (others_incompatible m now t) = 0%nat -> t !! id = Some r -> id <> rm_ReplicaID m -> now < rw_ExpiresAt r -> rw_Fingerprint r = rm_Fingerprint m.
Proof.
  intros Hn%map_size_empty_inv Hr Hid Hlive. destruct (decide (rw_Fingerprint r = rm_Fingerprint m)) as [|Hne]; [done|].
  assert (Hin : others_incompatible m now t !! id = Some r) by (apply map_lookup_filter_Some; done). by rewrite Hn, lookup_empty in Hin.
Qed.

Lemma insert_row_ok m now t : table_ok t -> size (others_incompatible m now t) = 0%nat -> table_ok (<[rm_ReplicaID m := heartbeat_row m now]> t).
Proof.
  intros Hok Hn i j r r' at_. rewrite !lookup_insert_Some. intros [[<- <-]|[Hi Hr]] [[<- <-]|[Hj Hr']] Ha Ha'; [done| | |by eapply Hok].
  - symmetry. eapply others_none; [done|exact Hr'|done|]. unfold alive in Ha, Ha'. cbn in Ha. lia.
  - eapply others_none; [done|exact Hr|done|]. unfold alive in Ha, Ha'. cbn in Ha'. lia.
Qed.

Lemma heartbeat_tx_ok registration m now t t' active : table_ok t -> heartbeat_tx registration m now t = inr (t', active) -> table_ok t'.
Proof.
  unfold heartbeat_tx. intros Hok. destruct (0 <? _)%nat eqn:Hn; [done|]. apply Nat.ltb_ge, Nat.le_0_r in Hn. pose proof (insert_row_ok m now t Hok Hn).
  unfold write_row. destruct registration; [by intros [= <- _]|]. destruct (t !! rm_ReplicaID m) as [r|]; cbn; [|done]. case_bool_decide; [|done]. by intros [= <- _].
Qed.

Lemma heartbeatOnce_table registration attempt last t m : table_ok t -> table_ok (heartbeatOnce registration attempt last t m).1.
Proof.
  intros Hok. unfold heartbeatOnce. destruct attempt as [err|err now applied|now]; [done| |]; destruct (heartbeat_tx registration m now t) as [err'|[t' active]] eqn:Hx.
  - done.
  - destruct applied; [|done]. by eapply heartbeat_tx_ok.
  - by destruct err'.
  - by eapply heartbeat_tx_ok.
Qed.

Lemma heartbeat_table registration first second ctx_err last t m : table_ok t -> table_ok (heartbeat registration first second ctx_err last t m).1.
Proof.
  intros Hok. unfold heartbeat. pose proof (heartbeatOnce_table registration first last t m Hok) as H1. destruct (heartbeatOnce registration first last t m) as [t1 [[err|] m1]]; [|done].
  case_match; [|done]. case_match; [done|]. pose proof (heartbeatOnce_table registration second last t1 m1 H1). by destruct (heartbeatOnce registration second last t1 m1).
Qed.

(** A manager that has seen an incompatible replica, or had a permanent fault, stays away. *)
Definition barred (m : ReplicaManager) : Prop := (rm_Incompatible m = true \/ st_Permanent (rm_Status m) = true) /\ st_Available (rm_Status m) = false.

Lemma fault_barred r : barred r.2 -> barred (fault r).2.
Proof. destruct r as [[err|] m]; cbn; [|done]. intros [Hb Ha]. case_match; cbn; [|done]. split; [by right|done]. Qed.

Lemma settle_barred active last m : barred m -> barred (settle active last m).2.
Proof. intros [Hb Ha]. unfold settle. cbn. destruct (st_Permanent (rm_Status m)) eqn:Hp; [by split; [right|]|]. destruct Hb as [Hi|]; [|done]. rewrite Hi. cbn. by split; [left|]. Qed.

Lemma heartbeatOnce_barred registration attempt last t m : barred m -> barred (heartbeatOnce registration attempt last t m).2.2.
Proof.
  intros Hb. unfold heartbeatOnce. destruct attempt as [err|err now applied|now]; [by apply fault_barred| |]; destruct (heartbeat_tx _ _ _ _) as [err'|[t' active]];
    try (by apply fault_barred).
  - destruct err'; try (by apply fault_barred). apply fault_barred. split; [by left|done].
  - apply fault_barred. by apply settle_barred.
Qed.

Lemma note_failure_barred r : barred r.2 -> barred (note_failure r).2.
Proof. destruct r as [[err|] m]; cbn; [|done]. intros [Hb Ha]. case_match; [|done]. split; [exact Hb|done]. Qed.

Lemma heartbeat_barred registration first second ctx_err last t m : barred m -> barred (heartbeat registration first second ctx_err last t m).2.2.
Proof.
  intros Hb. unfold heartbeat. pose proof (heartbeatOnce_barred registration first last t m Hb) as H1. destruct (heartbeatOnce registration first last t m) as [t1 [[err|] m1]]; [|done].
  case_match; [|by apply (note_failure_barred (Some err, m1))]. destruct ctx_err as [ce|]; [by apply (note_failure_barred (Some ce, m1))|].
  pose proof (heartbeatOnce_barred registration second last t1 m1 H1) as H2. destruct (heartbeatOnce registration second last t1 m1) as [t2 r]. by apply note_failure_barred.
Qed.

(** C21. Whatever the interleaving of starts, stops, registrations and heartbeats, with any
    clock readings, failures and lost commits: at no instant are two replicas registered
    with different policies both alive. *)
Theorem pg_replicas_agree ls s i j r r' at_ : cluster_run ls {| cu_Table := ∅; cu_Managers := ∅ |} = Some s ->
  cu_Table s !! i = Some r -> cu_Table s !! j = Some r' -> alive at_ r -> alive at_ r' -> rw_Fingerprint r = rw_Fingerprint r'.
Proof.
  assert (Hrun : forall ls s s', table_ok (cu_Table s) -> cluster_run ls s = Some s' -> table_ok (cu_Table s')).
  { clear. induction ls as [|l ls IH]; cbn; intros s s' Hok; [by intros [= <-]|]. destruct (cluster_step l s) as [s1|] eqn:Hl; cbn; [|done]. apply IH.
    destruct l as [id policy timeout|id|id registration first second ctx_err last]; cbn in Hl; [by injection Hl as <-|by injection Hl as <-|].
    destruct (cu_Managers s !! id) as [m|]; cbn in Hl; [|done]. pose proof (heartbeat_table registration first second ctx_err last _ m Hok) as Ht.
    destruct (heartbeat _ _ _ _ _ _ _) as [t [err m']]. by injection Hl as <-. }
  intros Hr. apply (Hrun ls {| cu_Table := ∅; cu_Managers := ∅ |} s); [|done]. intros ?????. cbn. by rewrite lookup_empty.
Qed.

(** A replica that met an incompatible one does not become available without a restart. *)
Lemma incompatible_stays ls s s' id m : cu_Managers s !! id = Some m -> barred m -> (forall l, l ∈ ls -> match l with ClHeartbeat _ _ _ _ _ _ => True | _ => False end) ->
  cluster_run ls s = Some s' -> exists m', cu_Managers s' !! id = Some m' /\ barred m'.
Proof.
  revert s m. induction ls as [|l ls IH]; cbn; intros s m Hm Hb Hls; [intros [= <-]; by exists m|]. destruct (cluster_step l s) as [s1|] eqn:Hl; cbn; [|done].
  pose proof (Hls l ltac:(set_solver)) as Hk. destruct l as [| |id' registration first second ctx_err last]; [done|done|]. cbn in Hl.
  destruct (cu_Managers s !! id') as [m0|] eqn:Hm0; cbn in Hl; [|done]. pose proof (heartbeat_barred registration first second ctx_err last (cu_Table s) m0) as Hb0.
  destruct (heartbeat _ _ _ _ _ _ _) as [t [err m1]]. injection Hl as <-. destruct (decide (id' = id)) as [->|Hne].
  - eapply IH; [cbn; by rewrite lookup_insert_eq|apply Hb0; by simplify_eq|]. intros l Hin. apply Hls. set_solver.
  - eapply IH; [cbn; rewrite lookup_insert_ne; [exact Hm|done]|done|]. intros l Hin. apply Hls. set_solver.
Qed.

End Replica.

Section Witnesses.

Definition wp_policy (ttl : Duration) : ReplicaPolicy :=
  {| rp_LeaseTTL := ttl; rp_LeaseRenewInterval := 0; rp_Circuit := {| FailureThreshold := 5; FailureWindow := GoTime.Minute; OpenCooldown := GoTime.Minute; HalfOpenMaxProbes := 1 |};
     rp_RateAlgorithm := 0; rp_ContractVersion := 0; rp_Tokenization := DefaultTokenizationPolicy |}.
Definition wp_hash (policy : ReplicaPolicy) : Z := rp_LeaseTTL policy.
Definition wp_no (_ : Error) : bool := false.
Definition wp_code (_ : Error) : option string := None.
Abbreviation wp_run ls := (cluster_run wp_hash wp_code wp_no wp_no ls {| cu_Table := ∅; cu_Managers := ∅ |}).

(** Three replicas start; the third has another policy and is refused. *)
Definition wp_start : list ClusterLabel :=
  [ClStart 1%N (wp_policy (90 * GoTime.Second)) 0; ClStart 2%N (wp_policy (90 * GoTime.Second)) 0; ClStart 3%N (wp_policy (60 * GoTime.Second)) 0;
   ClHeartbeat 1%N true (AtRuns 1000) (AtRuns 1000) None 5; ClHeartbeat 2%N true (AtRuns 2000) (AtRuns 2000) None 5; ClHeartbeat 3%N true (AtRuns 3000) (AtRuns 3000) None 5].
Definition wp_row (now : Time) : ReplicaRow := {| rw_HeartbeatAt := now; rw_ExpiresAt := now + 90 * GoTime.Second; rw_Fingerprint := 90 * GoTime.Second |}.

Lemma wp_table : (cu_Table <$> wp_run wp_start) = Some {[1%N := wp_row 1000; 2%N := wp_row 2000]} /\
  (m ← wp_run wp_start; rm_Incompatible <$> cu_Managers m !! 3%N) = Some true.
Proof. split; vm_compute; reflexivity. Qed.

Lemma pg_replicas_agree_witness : exists s, wp_run wp_start = Some s /\ rw_Fingerprint (wp_row 1000) = rw_Fingerprint (wp_row 2000).
Proof.
  pose proof (proj1 wp_table) as Ht. destruct (wp_run wp_start) as [s|] eqn:Hrun; [|discriminate Ht]. injection Ht as Ht. exists s. split; [reflexivity|].
  apply (pg_replicas_agree wp_hash wp_code wp_no wp_no wp_start s 1%N 2%N _ _ 3000 Hrun); [rewrite Ht; reflexivity|rewrite Ht; reflexivity|by vm_compute|by vm_compute].
Defined.

End Witnesses.
